(* ===== verification/_CoqProject ===== *)
-Q . S2P
Prelude.v
StateExn.v
PyLoop.v
PyStr.v
Parsing.v
PyFloat.v
PyVal.v
Ltlf.v
LtlfEval.v
LtlfParse.v
PathChecker.v
ContractLtl.v
ContractLtlSem.v
ContractLtlGrammar.v
ContractAtoms.v
ContractAtomsSpec.v
ContractEnforcer.v
ContractEnforcerInv.v
ContractEnforcerVerdict.v
ContractEnforcerSpec.v
ContractObligations.v
ContractErrors.v
PyFormat.v
Canonical.v
SafeflowWal.v
SafeflowExec.v
SafeflowSpec.v
RouterDomain.v
RouterFusion.v
Router.v
RouterSpec.v
Gate.v
PyBytes.v
Merkle.v
MerkleShape.v
MerkleTree.v
MerkleLog.v
GixNote.v
GixNoteSpec.v
GixWitness.v
GixWitnessSpec.v
GixWitnessLive.v
PdpDomain.v
ActionClass.v
RuleOfTwo.v
Cadence.v
CadenceSpec.v
CadenceWindow.v
Rv4Path.v
PathBridge.v
StructuralFloor.v
CrcGate.v
Precedent.v
Probguard.v
ProbguardSpec.v
Holds.v
ContractBridge.v
ContractBridgeSpec.v
Pdp.v
PdpSpec.v
Transcript.v
TranscriptSpec.v
PcasLang.v
PcasParserSpec.v
PcasStratify.v
PcasStratifySpec.v
PcasEval.v
PcasJoin.v
PcasFixpoint.v
PcasMonitor.v
PcasDefault.v
CamelCap.v
CamelInterp.v
CamelSpec.v
CamelFlow.v
Ledger.v
Institution.v
Governance.v
GovernanceSpec.v
Enforcement.v
