(* ===== verification/Prelude.v ===== *)
(** * Tex: the gate between an AI agent and the real world

    Tex decides whether an action an AI agent proposes may happen: PERMIT,
    ABSTAIN (a human decides) or FORBID.  This library verifies the core of it,
    from the sources under [src/src/tex].

    - The decision point ([engine/pdp.py]) evaluates one request: evidence
      streams, structural proofs of violation, the router, holds that may only
      lower the verdict, a conformal risk gate, and precedent, the one stage that
      may relax it.  A transcript of the verdict is sealed with a witness.
    - Path policies ([governance/path_policy]): temporal formulas (LTLf) over
      the agent's steps.  A checker keeps a sliding window of completed steps
      and evaluates each candidate action, appended to the window, against its
      policies; the four-valued verdict (RV4) says whether a violation is final.
    - Behavioural contracts ([contracts], with the event and state records of
      [ecosystem]): formulas over atoms such as [field:amount<=100], attached to
      agents as pre- and postconditions, hard and soft clauses.  The enforcer
      checks every event, logs violations to a ledger, and tracks soft
      violations as obligations with a recovery deadline.
    - Safeflow ([safeflow]): transactions of tool calls over a hash-chained
      write-ahead log, undone by registered inverse operations.
    - PCAS ([pcas]): Datalog policies with stratified negation over the
      dependency graph of an agent's actions and data; a reference monitor reads
      the verdict on a candidate action off the closure, and a specialist hands it
      to the decision point.
    - CaMeL ([camel]): an interpreter of plans whose values carry capabilities;
      tool calls are gated by the labels of their arguments, and a specialist hands
      a halt to the decision point.
    - The transparency log ([interchange]): a Merkle tree over sealed records,
      signed checkpoints, and witnesses that cosign consistent ones.
    - Hash chains ([events], [evidence/chain.py]): the signed event ledger over
      canonical JSON, and the verification of the evidence chain and of its slices.
    - Institutional governance ([institutional]): a manifest declares a transition
      system of sanctions and restorations; the oracle thresholds signals, the
      controller moves actors along the manifest's edges under cooldowns, and a
      separately keyed log over the event ledger records every decision.
    - Enforcement ([governance/standing.py], [enforcement]): the standing decision
      point rules on every action of an agent, first structurally and then by the deep
      evaluator; the gate asks it before a tool runs.

    Path policies and contracts reach the decision point through two bridges,
    which hold the checkers and enforcers; the structural floor collects what is
    proved about a request; the router ([engine/router.py]) fuses the streams'
    scores; safeflow executes what was permitted; the transparency log makes the
    sealed verdicts auditable.

    ** Files

    A file holds a module of its name; where it holds a second one, that is said
    below.  The modules that end in [Runs] are concrete runs: the
    witnesses of the theorems, and examples.

    Shared: [Prelude] (results with exceptions, their bind and inversion
    tactics, list lemmas); [StateExn] (methods of a mutable object: state
    passing with exceptions that keep earlier effects, and the rule that a
    relation is respected by every step); [PyLoop] (loops with early return);
    [PyStr], [PyFloat], [PyVal], [PyFormat], [PyBytes] (the Python strings,
    binary64 floats with their order, JSON-shaped values, number formatting, bytes
    and SHA-256 as FIPS 180-4 defines it); [Parsing] (totality of recursive-descent
    parsers); [Canonical] with [Json] ([events/_canonical.py]: [json.dumps], with the
    proof that a text determines its value, and [json.loads], which reads it back).

    Path policies: [Ltlf] (tokenizer, parser: [_tokenize], [_parse]),
    [LtlfEval] ([_atom_value], [_eval_at], [evaluate], [_can_become_true],
    [_can_become_false], [evaluate_rv4]), [LtlfParse] (theorems on the parser),
    [PathChecker] ([PathPolicyChecker]: [init], [record],
    [update_shared_state], [check]; the state record is [checker]).

    Contracts: [ContractLtl] ([_tokenize], [_Parser], [_eval_ltlf],
    [_is_definite], [rv_verdict] of [_ltl.py]), [ContractLtlSem] and
    [ContractLtlGrammar] (theorems), [ContractAtoms] ([_parse_atom],
    [_compare], [make_resolver], [trace_for] of [_atoms.py]),
    [ContractAtomsSpec] (theorems), [ContractEnforcer] ([BehavioralContract],
    [ContractViolation], [ContractEnforcer]; the state record is [enforcer] and
    [check] is [_check], called by [check_pre] and [check_post]),
    [ContractEnforcerInv], [ContractEnforcerVerdict], [ContractEnforcerSpec],
    [ContractObligations], [ContractErrors] with [ContractRuns] (theorems).

    Safeflow: [SafeflowWal] (entries and their JSON lines, the interface [WalOps] with its
    laws [WalSpec], [InMemoryWAL], [FileWAL] over the text of its file), [SafeflowExec]
    ([TransactionalExecutor]: [begin], [step], [commit], [abort], [recover]),
    [SafeflowSpec] with [SafeflowRuns] (theorems, proved for any log that meets the
    interface).

    Router: [RouterDomain] (the signals and the policy snapshot),
    [RouterFusion] ([fuse], [_deterministic_score], [_effective_weights],
    [_fuse_scores], [_compute_confidence]), [Router] ([SelectiveRiskRule],
    [_determine_verdict], [_should_abstain], flags, reasons, [route]),
    [RouterSpec] with [RouterRuns] (theorems); [Gate] ([DeterministicGate], whose
    block is the router's structural floor).

    Transparency log: [Merkle], [MerkleShape], [MerkleTree],
    [MerkleLog] with [MerkleRuns] (tree hash, proofs and their verifiers of
    [gix.py]); [GixNote], [GixNoteSpec] (checkpoints and signed notes);
    [GixWitness], [GixWitnessSpec], [GixWitnessLive]
    ([gix_witness.py]: the add-checkpoint state machine and the quorum).

    Decision point: [PdpDomain] (requests, findings, rebuilt results);
    [ActionClass], [RuleOfTwo], [Rv4Path] (the classifiers of [contracts] that
    read a request); [Cadence], [CadenceSpec], [CadenceWindow] with [CadenceRuns]
    (the circuit breaker of [deterministic/cadence.py]); [PathBridge],
    [ContractBridge], [ContractBridgeSpec] with [ContractBridgeRuns] (the two
    bridges of [engine]); [StructuralFloor] ([specialists/structural_floor.py]);
    [CrcGate] with [CrcRuns] ([engine/crc_gate.py]); [Precedent]
    ([engine/precedent_influence.py]); [Probguard], [ProbguardSpec] with
    [ProbguardRuns] ([systemic/probguard.py]); [Holds] (the holds of
    [probguard.py], [risk_spine.py] and [pqcrypto/pq_durability.py]); [Pdp],
    [PdpSpec] ([PolicyDecisionPoint.evaluate]); [Transcript], [TranscriptSpec]
    with [PdpRuns] ([engine/verdict_transcript.py]).

    PCAS: [PcasLang], with the modules [PcasAst] ([language/ast.py]) and
    [PcasParser] (the lexer and parser), and [PcasParserSpec] (a printer);
    [PcasStratify] ([stratify.py]), [PcasStratifySpec] with [PcasTarjan] (the
    component search); [PcasEval] ([runtime]: relations, helpers, [Evaluator]);
    [PcasJoin] with [PcasModel] (stable models, the reference semantics; one rule),
    [PcasFixpoint] with [PcasTotal] (the strata; when evaluation returns);
    [PcasMonitor] ([graph/adapter.py], [monitor.py], [pcas_specialist.py]),
    [PcasDefault] with [PcasMonitorSpec] and [PcasRuns] (what it decides, and the default
    policy).

    CaMeL: [CamelCap] ([capability.py], [value.py], [plan.py], [policy.py]),
    [CamelInterp] ([q_llm.py], [interpreter.py], [camel_specialist.py]), [CamelSpec]
    (labels, gate, registry, the static reading of a plan), [CamelFlow] with
    [CamelGuarantees] and [CamelRuns] (flow and totality theorems).

    Hash chains: [Ledger], with the modules [EventLedger] ([event.py],
    [crypto_provenance.py], [ledger.py]; the state record is [InMemoryLedger]),
    [EvidenceChain] ([evidence/chain.py]), their theorems [LedgerSpec] and
    [EvidenceSpec], and [LedgerRuns], [EvidenceRuns].

    Institutional governance: [Institution] with [InstitutionSpec] ([sanctions.py],
    [governance_graph.py]); [Governance], with the modules [GovernanceLog]
    ([governance_log.py]), [Controller] ([controller.py]; the state record is
    [controller]), [Oracle] ([oracle.py]) and [Inheritance]
    ([subagent_inheritance.py]); [GovernanceSpec], with [LogSpec], [ControllerSpec],
    [InheritanceSpec], [OracleSpec] and [GovernanceRuns].

    Enforcement: [Enforcement], with the modules [Requests] ([domain/evaluation.py]),
    [Standing] ([governance/standing.py] and the surfaces of [domain/agent.py]; the
    state record is [standing]), [ToolGate] ([enforcement/gate.py], [transport.py],
    [standing_transport.py], [adapters.py]; the state record is [env], with the world
    the tools act on) and the theorems [EnforcementSpec].

    ** What the theorems show

    - Decision point: a structural proof forbids whatever the scores say
      ([proof_forbids]); what a PERMIT rests on, every hold of the pipeline included
      ([permit_rests_on]); after routing
      only precedent relaxes a verdict ([only_precedent_relaxes]); a gated PERMIT
      is inside a certified region ([permit_is_certified]); the sealed witness
      holds exactly when precedent did not act ([witness_exact]).
    - Its parts: the circuit breaker counts the recent actions of one tenant and agent
      and the distinct targets they touch, each action once ([window_exact],
      [assess_once]);
      sessions keep their own enforcers within a bound ([registry_invariant],
      [sessions_isolated]) and a hard violation is reported exactly when a hard
      clause fails ([hard_violation_exact]); the lookahead's propagation is
      bounded reachability and, in exact arithmetic, a probability, over an exhaustive
      abstraction ([reachability_exact], [reachability_is_probability],
      [abstraction_exhaustive]).
    - PCAS: parsing inverts printing ([parse_print_policy]); [stratify] accepts
      exactly the range-restricted policies without recursion through negation, both
      defined on the policy as written ([stratify_exact]); the closure is the unique stable model
      ([evaluate_stable]) and the verdict is read off it ([authorize_exact]); the
      default policy forbids exactly the external writes that untrusted data
      reaches ([default_policy_exact]); a monitor's FORBID is a structural proof for
      the decision point ([pcas_floor_exact]), but the graph the specialist is wired
      to is always empty ([live_specialist_permits]).
    - CaMeL: untrusted content that no tool may take changes neither the world nor
      the trace ([untrusted_cannot_steer]); the world moves only by authorized calls
      ([calls_are_mediated]); with tools whose labels follow from those of their
      arguments, the trace is what a static reading of the plan computes
      ([trace_is_static]); what a registry admits, from its history ([gate_exact]);
      runs return and fail closed ([run_returns]); a halt, and nothing else, is a
      structural proof for the decision point ([camel_floor_exact]).
    - Path policies: RV4 verdicts that claim permanence hold on every extension
      of the trace, evaluation refines the reference LTLf semantics, the parser is
      total and inverts a printer, the window is the recent suffix, and [check]
      enforces the policies as documented where the documentation and the code agree.
    - Contracts: evaluation of formulas is correct on every branch, permanent
      verdicts are sound for windowed formulas, the parser recognises exactly the
      documented grammar; the verdict of a check is the conjunction of the
      applicable clauses; the invariant of the enforcer over all reachable states;
      deadlines are enforced; only the ledger, malformed atoms of the contracts' own
      clauses and the regular-expression engine raise.
    - Safeflow: the chain is kept by every operation, an abort restores the world
      when inverses do, the file log refines the in-memory one across restarts, through
      the JSON of its lines.
    - Router: the verdict is monotone in the probabilistic signals, what a routed
      PERMIT certifies, and the deterministic gate blocks exactly on the reported
      findings of a blocking severity.
    - Transparency log: the tree hash is RFC 9162's, proofs are complete and
      sound, a witness never cosigns two histories, an honest log is cosigned, and
      a quorum certifies.
    - Hash chains: two values have the same canonical text exactly when they are
      equal up to the order of keys ([canonical_json_spec]); whatever was appended, the
      ledger passes every audit of a range of it ([ledger_verifies]); ledgers and
      evidence chains that pass an audit and end in the same hash have the same content,
      unless SHA-256 collides on their texts ([ledger_tamper_evident],
      [evidence_tamper_evident]); a slice is accepted under its witness exactly when
      it continues the chain ([evidence_slice_exact]).
    - Institutional governance: [validate_topology] accepts exactly the well-formed,
      deterministic manifests ([validate_topology_spec]); a request is granted exactly
      when the manifest declares an edge for it that is not on cooldown
      ([enforce_exact]); when every append succeeds, the log alone determines the
      controller's state ([log_replays]); actors walk along declared edges and never take one again within
      its cooldown ([moves_are_legal]); the semantic digest identifies the regime
      ([regime_identity]); spawning does not launder a sanction
      ([inheritance_exact]); tiers are monotone and streaks exact
      ([collusion_tier_monotone], [streak_exact]).
    - Enforcement: a ruling releases exactly what is cleared ([decide_sound]), a hold is
      raised exactly for an abstention and the hot set fed exactly by the rulings a
      destination explains ([decide_leaves]); a guarded tool runs exactly when the gate
      admits its request, with one event ([gated_exact], [langchain_run_exact],
      [mcp_wrapped_exact]); together, a tool behind a standing gate acts exactly on what
      is cleared, for every call that makes a valid request ([tool_runs_only_cleared]).

    ** Choices and bounds

    Strings hold code points below 256; [casefold] is exact there, and the few
    characters above them in the program's own messages are written with C1
    control codes ([PdpDomain]).  Floats are exact binary64 with Python's [round]
    and compensated [sum].  Recursion that is not structural runs on fuel that is
    proved sufficient: the tokenizers use the length of the input, the parsers
    [8 n + 8] for [n] tokens, the JSON reader [2 n] for [n] characters, the component search one step per edge and node,
    and the totality theorems show that it never runs out; the fuel of
    [evaluate_rounds] is the program's own iteration limit.  Python's recursion
    limit and its bound on the digits of an int are not modelled, nor are telemetry events and measured times.  Parameters, with
    their hypotheses where they are used: the rendering of containers by [str()],
    the regular-expression engine, user callables, the ledgers, clocks and fresh
    ids, [datetime] texts, hash functions and Ed25519, what pydantic makes of a value that
    is not an int in an int field of a log line, the text of a load error, tools and their inverses, [log] and [pow], the evidence streams, the
    risk spine's e-process, the signing backend's name, the annotations
    [build_asi_findings] adds to a routed result, the order in which Python
    iterates its sets (any permutation), and [json.loads] and [json.dumps] of the
    policy helper [json_extract], what [json.loads] reads in the evidence chain and in a
    manifest, base64 and the signature scheme of the ledgers, the attributes of the
    entity graph, the deep evaluator, the agent registry, the floor ledger and the tools
    of the standing gate, CaMeL's tools and quarantined models (computations
    on a world that may raise) and what pydantic makes of a raw tool result.  File-system errors of
    [FileWAL] are not modelled.  Constructors of pydantic models appear with
    their validators where a modelled operation builds the model, and as
    hypotheses where it receives one.  The chain of [Probguard] is written over an
    interface of arithmetic: the program's instance is floats, the theorems on
    probabilities are proved for exact rationals.

    ** Not modelled yet, in the order planned

    The merge of two logs ([interchange/gix_merge.py]); the recorder of the evidence
    chain (its payloads hold floats, whose JSON text is not modelled) and the YAML
    loader of manifests; the hold object and abstention certificate built after the
    verdict; the agent evaluators; the permit signer and the sealing observer of the gate;
    the learning lifecycle.  Cryptographic bindings, discovery
    connectors, HTTP, persistence, voice and benchmark code are left out. *)
From Stdlib Require Export ZArith Lia Ascii String.
From stdpp Require Export base tactics list strings gmap option.
Open Scope Z_scope.
Open Scope nat_scope.

(** ** The exception monad

    A Python call either returns a value or raises.  [result E A] keeps the
    exception as a value; [E] is the component's own exception type. *)
Inductive result (E A : Type) : Type :=
| Ok (a : A)
| Err (e : E).
Arguments Ok {E A} a.
Arguments Err {E A} e.

#[export] Instance result_ret {E} : MRet (result E) := fun A a => Ok a.
#[export] Instance result_bind {E} : MBind (result E) := fun A B f m =>
  match m with
  | Ok a => f a
  | Err e => Err e
  end.
#[export] Instance result_fmap {E} : FMap (result E) := fun A B f m =>
  match m with
  | Ok a => Ok (f a)
  | Err e => Err e
  end.

Lemma result_bind_Ok {E A B} (m : result E A) (f : A -> result E B) b :
  (m ≫= f) = Ok b <-> exists a, m = Ok a /\ f a = Ok b.
Proof. destruct m; simpl; naive_solver. Qed.

Lemma result_bind_ext {E A B} (m : result E A) (f g : A -> result E B) :
  (forall a, f a = g a) -> m ≫= f = m ≫= g.
Proof. intros H. destruct m; simpl; auto. Qed.

Lemma result_bind_assoc {E A B C} (m : result E A)
    (f : A -> result E B) (g : B -> result E C) :
  (m ≫= f) ≫= g = m ≫= (fun a => f a ≫= g).
Proof. by destruct m. Qed.

(** [tuple(f(x) for x in l)]: stops at the first exception. *)
Fixpoint map_result {E A B} (f : A -> result E B) (l : list A) : result E (list B) :=
  match l with
  | [] => Ok []
  | x :: l => y ← f x; ys ← map_result f l; Ok (y :: ys)
  end.

Lemma map_result_Ok {E A B} (f : A -> result E B) l k :
  map_result f l = Ok k <-> Forall2 (fun x y => f x = Ok y) l k.
Proof.
  split.
  - revert k. induction l as [|x l IH]; intros k; simpl; [by intros [= <-]; constructor|].
    rewrite result_bind_Ok. intros (y & Hy & H). rewrite result_bind_Ok in H.
    destruct H as (ys & Hys & [= <-]). constructor; [done|by apply IH].
  - induction 1 as [|x y l k Hx Hl IH]; simpl; [done|]. rewrite Hx. simpl. by rewrite IH.
Qed.

Lemma map_result_Err {E A B} (f : A -> result E B) l e :
  map_result f l = Err e -> exists x, x ∈ l /\ f x = Err e.
Proof.
  induction l as [|x l IH]; simpl; [done|]. destruct (f x) eqn:Ex; simpl.
  - destruct (map_result f l); simpl; [done|]. intros [= ->]. destruct IH as (y & ? & ?); [done|]. set_solver.
  - intros [= ->]. set_solver.
Qed.

Definition is_ok {E A} (m : result E A) : bool :=
  match m with Ok _ => true | Err _ => false end.

(** Inverts every successful bind in the context. *)
Ltac inv_bind :=
  repeat match goal with
  | H : (_ ≫= _) = Ok _ |- _ =>
      apply result_bind_Ok in H; destruct H as (? & ? & H); simpl in H
  | H : Ok _ = Ok _ |- _ => injection H as H; try subst
  | H : Err _ = Ok _ |- _ => discriminate H
  end.

(** Case analysis on the innermost [match]/[if] scrutinee, with equations. *)
Ltac case_match_all := repeat (case_match; simpl in *); try done.

(** ** Lists *)

(** A list without duplicate keys determines its elements by key. *)
Lemma NoDup_fmap_inj {A B} (f : A -> B) (l : list A) x y :
  NoDup (f <$> l) -> x ∈ l -> y ∈ l -> f x = f y -> x = y.
Proof.
  induction l as [|z l IH]; simpl; [set_solver|].
  rewrite !list.NoDup_cons, !elem_of_cons. intros [Hz Hl] [->|Hx] [->|Hy] Heq; auto.
  - destruct Hz. rewrite Heq. apply list_elem_of_fmap. eauto.
  - destruct Hz. rewrite <- Heq. apply list_elem_of_fmap. eauto.
Qed.
Lemma forallb_Forall_true {A} (f : A -> bool) l : forallb f l = true <-> Forall (fun x => f x = true) l.
Proof. rewrite forallb_forall. symmetry. apply List.Forall_forall. Qed.
Lemma sum_list_with_elem {A} (f : A -> nat) l x : x ∈ l -> (f x <= sum_list_with f l)%nat.
Proof. induction l as [|y l IH]; [by intros ?%elem_of_nil|]. intros [->|H]%elem_of_cons; simpl; [lia|]. specialize (IH H). lia. Qed.
Lemma sum_list_le {A} (f g : A -> nat) l : (forall x, x ∈ l -> f x <= g x)%nat -> (sum_list_with f l <= sum_list_with g l)%nat.
Proof. induction l as [|x l IH]; intros H; simpl; [done|]. apply Nat.add_le_mono; [apply H; by left|]. apply IH. intros y Hy. apply H. by right. Qed.
