(* ===== verification/StateExn.v ===== *)
(** * Methods of a mutable object that may raise

    A method call is a function from the object's state to a result or an
    exception, and a state: an exception does not undo what was done before it.
    [respects R m] says that [m] moves the state along [R] whether it returns or
    raises. *)
From S2P Require Import Prelude.
Open Scope nat_scope.

Definition stM (S E A : Type) : Type := S -> result E A * S.

#[export] Instance M_ret {S E} : MRet (stM S E) := fun A a s => (Ok a, s).
#[export] Instance M_bind {S E} : MBind (stM S E) := fun A B f m s =>
  match m s with
  | (Ok a, s') => f a s'
  | (Err e, s') => (Err e, s')
  end.

Definition get {S E} : stM S E S := fun s => (Ok s, s).
Definition modify {S E} (f : S -> S) : stM S E unit := fun s => (Ok (), f s).
Definition lift {S E A} (r : result E A) : stM S E A := fun s => (r, s).

Section Rules.
Context {S E : Type}.

Lemma M_bind_Ok {A B} (m : stM S E A) (f : A -> stM S E B) (s : S) b s' :
  (m ≫= f) s = (Ok b, s') -> exists a s1, m s = (Ok a, s1) /\ f a s1 = (Ok b, s').
Proof.
  unfold mbind, M_bind. destruct (m s) as [[a|e] s1]; intros H; [eauto|done].
Qed.

Lemma M_bind_assoc {A B C} (m : stM S E A) (f : A -> stM S E B) (g : B -> stM S E C) (s : S) :
  ((m ≫= f) ≫= g) s = (m ≫= fun a => f a ≫= g) s.
Proof. unfold mbind, M_bind. by destruct (m s) as [[a|e] s1]. Qed.
Lemma lift_bind {A B} (r : result E A) (f : A -> stM S E B) (s : S) :
  (lift r ≫= f) s = match r with Ok a => f a s | Err e => (Err e, s) end.
Proof. by destruct r. Qed.

Definition respects {A} (R : S -> S -> Prop) (m : stM S E A) : Prop := forall s, R s (m s).2.

Context (R : S -> S -> Prop) `{!PreOrder R}.

Lemma respects_bind {A B} (m : stM S E A) (f : A -> stM S E B) :
  respects R m -> (forall a, respects R (f a)) -> respects R (m ≫= f).
Proof.
  intros Hm Hf s. unfold mbind, M_bind. specialize (Hm s).
  destruct (m s) as [[a|e] s']; simpl in *; [|done]. by transitivity s'; [|apply Hf].
Qed.
Lemma respects_ret {A} (a : A) : respects R (mret a).
Proof. intros s. simpl. reflexivity. Qed.
Lemma respects_get : respects R get.
Proof. intros s. simpl. reflexivity. Qed.
Lemma respects_lift {A} (r : result E A) : respects R (lift r).
Proof. intros s. simpl. reflexivity. Qed.
Lemma respects_modify f : (forall s, R s (f s)) -> respects R (modify f).
Proof. intros Hf s. apply Hf. Qed.
End Rules.

(** Splits a computation into its primitive steps. *)
Ltac respect :=
  repeat match goal with
  | |- respects _ (_ ≫= _) => apply respects_bind; [apply _| |intro]
  | |- respects _ (mret _) => apply respects_ret; apply _
  | |- respects _ get => apply respects_get; apply _
  | |- respects _ (lift _) => apply respects_lift; apply _
  | |- respects _ (modify _) => apply respects_modify
  | |- respects _ (match ?x with _ => _ end) => destruct x
  end.

(** Inverts every completed computation in the context. *)
Ltac inv_M :=
  repeat match goal with
  | H : (_ ≫= _) _ = (Ok _, _) |- _ =>
      apply M_bind_Ok in H;
      let a := fresh "x" in let s := fresh "s" in let H1 := fresh "Hm" in
      destruct H as (a & s & H1 & H)
  | H : mret _ _ = (Ok _, _) |- _ => unfold mret, M_ret in H; simplify_eq
  | H : get _ = (Ok _, _) |- _ => unfold get in H; simplify_eq
  | H : lift ?r _ = (Ok _, _) |- _ =>
      unfold lift in H; injection H as H ?; try subst
  end.
