(* ===== verification/PyLoop.v ===== *)
(** * Python [for] loops with early return

    The quantifier loops of the evaluators: [all_range] and [any_range] run a
    test that may raise over consecutive positions and stop at the first
    decisive one, as [for j in range(...)] with a [return] in its body does. *)
From S2P Require Import Prelude.
Open Scope nat_scope.

(** [for j in range(i, i + count): if not f(j): return False]; [True]. *)
Fixpoint all_range {E} (f : nat -> result E bool) (i count : nat) : result E bool :=
  match count with
  | 0 => Ok true
  | S count => b ← f i; if (b : bool) then all_range f (S i) count else Ok false
  end.

(** [for j in range(i, i + count): if f(j): return True]; [False]. *)
Fixpoint any_range {E} (f : nat -> result E bool) (i count : nat) : result E bool :=
  match count with
  | 0 => Ok false
  | S count => b ← f i; if (b : bool) then Ok true else any_range f (S i) count
  end.

(** ** What a completed loop has seen *)

Lemma all_range_true {E} (f : nat -> result E bool) i c :
  all_range f i c = Ok true -> forall j, i <= j < i + c -> f j = Ok true.
Proof.
  revert i. induction c as [|c IH]; simpl; intros i H j Hj; [lia|].
  inv_bind. case_match; [|done]. subst.
  destruct (decide (i = j)) as [->|]; [done|]. apply (IH (S i)); [done|lia].
Qed.

Lemma all_range_false {E} (f : nat -> result E bool) i c :
  all_range f i c = Ok false -> exists j, i <= j < i + c /\ f j = Ok false.
Proof.
  revert i. induction c as [|c IH]; simpl; intros i H; [done|].
  inv_bind. case_match; subst.
  - destruct (IH (S i) H) as (j & ? & ?). exists j. split; [lia|done].
  - exists i. split; [lia|done].
Qed.

Lemma any_range_false {E} (f : nat -> result E bool) i c :
  any_range f i c = Ok false -> forall j, i <= j < i + c -> f j = Ok false.
Proof.
  revert i. induction c as [|c IH]; simpl; intros i H j Hj; [lia|].
  inv_bind. case_match; [done|]. subst.
  destruct (decide (i = j)) as [->|]; [done|]. apply (IH (S i)); [done|lia].
Qed.

Lemma any_range_true {E} (f : nat -> result E bool) i c :
  any_range f i c = Ok true -> exists j, i <= j < i + c /\ f j = Ok true.
Proof.
  revert i. induction c as [|c IH]; simpl; intros i H; [done|].
  inv_bind. case_match; subst.
  - exists i. split; [lia|done].
  - destruct (IH (S i) H) as (j & ? & ?). exists j. split; [lia|done].
Qed.

Lemma range_total {E} (f : nat -> result E bool) i c :
  (forall j, exists b, f j = Ok b) ->
  (exists b, all_range f i c = Ok b) /\ (exists b, any_range f i c = Ok b).
Proof.
  intros Hf. revert i. induction c as [|c IH]; simpl; intros i; [eauto|].
  destruct (Hf i) as [[] ->], (IH (S i)) as [[] []]; simpl; eauto.
Qed.


(** A loop that raises does so at a position it visits. *)
Lemma all_range_err {E} (f : nat -> result E bool) i c e :
  all_range f i c = Err e -> exists j, i <= j < i + c /\ f j = Err e.
Proof.
  revert i. induction c as [|c IH]; simpl; intros i H; [done|].
  destruct (f i) as [[]|e'] eqn:E'; simpl in H; simplify_eq.
  - destruct (IH _ H) as (j & ? & ?). exists j. split; [lia|done].
  - exists i. split; [lia|done].
Qed.

Lemma any_range_err {E} (f : nat -> result E bool) i c e :
  any_range f i c = Err e -> exists j, i <= j < i + c /\ f j = Err e.
Proof.
  revert i. induction c as [|c IH]; simpl; intros i H; [done|].
  destruct (f i) as [[]|e'] eqn:E'; simpl in H; simplify_eq.
  - destruct (IH _ H) as (j & ? & ?). exists j. split; [lia|done].
  - exists i. split; [lia|done].
Qed.

(** Loops read their test only at the positions they visit. *)
Lemma any_range_ext {E} (f g : nat -> result E bool) i c :
  (forall j, i <= j < i + c -> f j = g j) -> any_range f i c = any_range g i c.
Proof.
  revert i. induction c as [|c IH]; simpl; intros i H; [done|].
  rewrite H by lia. destruct (g i) as [[]|]; simpl; [done| |done].
  apply IH. intros. apply H. lia.
Qed.
