(* ===== verification/PyStr.v ===== *)
(** * Python [str]: the operations the modelled sources use

    A Python string is a sequence of code points.  The model covers the
    strings whose code points are below 256, one [ascii] per code point; the
    character classes are the Unicode ones on that range (they are not the
    ASCII ones: [isdigit] holds of the superscripts, [isspace] of the
    separators 0x1c-0x1f and of 0x85 and 0xa0). *)
From S2P Require Import Prelude.
Open Scope string_scope.
Open Scope nat_scope.

Definition code (c : ascii) : N := N_of_ascii c.

Definition in_range (lo hi : N) (c : ascii) : bool :=
  ((lo <=? code c) && (code c <=? hi))%N.

Definition isspace (c : ascii) : bool :=
  in_range 9 13 c || in_range 28 32 c || in_range 133 133 c || in_range 160 160 c.
Definition isdecimal (c : ascii) : bool := in_range 48 57 c.
Definition isdigit (c : ascii) : bool :=
  in_range 48 57 c || in_range 178 179 c || in_range 185 185 c.
Definition isupper (c : ascii) : bool :=
  in_range 65 90 c || in_range 192 214 c || in_range 216 222 c.
Definition islower (c : ascii) : bool :=
  in_range 97 122 c || in_range 170 170 c || in_range 181 181 c
  || in_range 186 186 c || in_range 223 246 c || in_range 248 255 c.
Definition isalpha (c : ascii) : bool := isupper c || islower c.
Definition isnumeric (c : ascii) : bool := isdigit c || in_range 188 190 c.
Definition isalnum (c : ascii) : bool := isalpha c || isnumeric c.

(** [c.lower()]: every upper-case code point below 256 is 32 below its lower
    case. *)
Definition lower_char (c : ascii) : ascii :=
  if isupper c then ascii_of_N (code c + 32) else c.

Fixpoint str_map (f : ascii -> ascii) (s : string) : string :=
  match s with
  | EmptyString => EmptyString
  | String c s => String (f c) (str_map f s)
  end.

Definition str_lower (s : string) : string := str_map lower_char s.

(** [s.casefold()], as code points: below 256 it is the lower case, except
    for the sharp s, which folds to two letters, and the micro sign, which
    folds to the Greek letter. *)
Definition casefold_char (c : ascii) : list N :=
  if in_range 223 223 c then [115; 115]%N
  else if in_range 181 181 c then [956]%N
  else [code (lower_char c)].
Fixpoint casefold (s : string) : list N :=
  match s with
  | EmptyString => []
  | String c s => casefold_char c ++ casefold s
  end.

Fixpoint str_all (p : ascii -> bool) (s : string) : bool :=
  match s with
  | EmptyString => true
  | String c s => p c && str_all p s
  end.

Fixpoint str_any (p : ascii -> bool) (s : string) : bool :=
  match s with
  | EmptyString => false
  | String c s => p c || str_any p s
  end.

(** [span p s]: the longest prefix of characters satisfying [p], and the
    rest: the [while j < n and p(s[j]): j += 1] loop of the lexers. *)
Fixpoint span (p : ascii -> bool) (s : string) : string * string :=
  match s with
  | EmptyString => ("", "")
  | String c s' =>
      if p c then let '(a, b) := span p s' in (String c a, b) else ("", s)
  end.

Fixpoint lstrip (s : string) : string :=
  match s with
  | EmptyString => ""
  | String c s' => if isspace c then lstrip s' else s
  end.

Fixpoint rstrip (s : string) : string :=
  match s with
  | EmptyString => ""
  | String c s' =>
      match rstrip s' with
      | EmptyString => if isspace c then "" else String c ""
      | r => String c r
      end
  end.

(** [s.strip()] *)
Definition strip (s : string) : string := lstrip (rstrip s).

(** [s.startswith(p)], returning what follows the prefix. *)
Fixpoint drop_prefix (p s : string) : option string :=
  match p, s with
  | EmptyString, _ => Some s
  | String c p', String d s' => if Ascii.eqb c d then drop_prefix p' s' else None
  | String _ _, EmptyString => None
  end.
Definition startswith (p s : string) : bool :=
  match drop_prefix p s with Some _ => true | None => false end.

(** [needle in haystack] on strings. *)
Fixpoint contains (needle haystack : string) : bool :=
  startswith needle haystack
  || match haystack with
     | EmptyString => false
     | String _ h => contains needle h
     end.

Definition has_char (d : ascii) (s : string) : bool := str_any (Ascii.eqb d) s.

(** [s.partition(d)] without the separator: what precedes the first [d] and
    what follows it. *)
Fixpoint partition (d : ascii) (s : string) : string * string :=
  match s with
  | EmptyString => ("", "")
  | String c s' =>
      if Ascii.eqb c d then ("", s')
      else let '(a, b) := partition d s' in (String c a, b)
  end.

(** [s.split(d)] *)
Fixpoint split (d : ascii) (s : string) : list string :=
  match s with
  | EmptyString => [""]
  | String c s' =>
      if Ascii.eqb c d then "" :: split d s'
      else match split d s' with
           | w :: ws => String c w :: ws
           | [] => [String c ""]
           end
  end.

Definition digit_val (c : ascii) : Z := Z.of_N (code c) - 48.

(** Value of a run of decimal digits. *)
Fixpoint digits_val (acc : Z) (s : string) : Z :=
  match s with
  | EmptyString => acc
  | String c s' => digits_val (10 * acc + digit_val c) s'
  end.

(** [int(s)] on the runs the lexers hand it: an optional [-], then decimal
    digits.  [None] stands for the [ValueError] of a run that holds a
    character which is a digit but not decimal. *)
Definition int_of_digits (s : string) : option Z :=
  if String.eqb s "" then None
  else if str_all isdecimal s then Some (digits_val 0 s) else None.
Definition int_of_run (s : string) : option Z :=
  match s with
  | String "-" s' => Z.opp <$> int_of_digits s'
  | _ => int_of_digits s
  end.

(** Code-point order, Python's [<] on strings. *)
Fixpoint str_ltb (s t : string) : bool :=
  match s, t with
  | _, EmptyString => false
  | EmptyString, String _ _ => true
  | String a s', String b t' =>
      if (code a <? code b)%N then true
      else if (code b <? code a)%N then false
      else str_ltb s' t'
  end.

(** [s[:k]] *)
Fixpoint str_take (k : nat) (s : string) : string :=
  match k, s with
  | S k', String c s' => String c (str_take k' s')
  | _, _ => ""
  end.

(** ** Lemmas *)

Lemma str_app_cons c a b : String c a +:+ b = String c (a +:+ b).
Proof. reflexivity. Qed.
Lemma str_app_nil b : "" +:+ b = b.
Proof. reflexivity. Qed.

Lemma str_app_nil_r a : a +:+ "" = a.
Proof. induction a as [|c a IH]; [done|]. by rewrite str_app_cons, IH. Qed.

Lemma span_length p s a b :
  span p s = (a, b) -> String.length s = String.length a + String.length b.
Proof.
  revert a b. induction s as [|c s IH]; simpl; intros a b H; [by simplify_eq|].
  destruct (p c); [|by simplify_eq].
  destruct (span p s) as [a' b']. simplify_eq/=.
  by rewrite (IH _ _ eq_refl).
Qed.

Lemma span_app p s : fst (span p s) +:+ snd (span p s) = s.
Proof.
  induction s as [|c s IH]; [done|]. simpl.
  destruct (p c); [|done]. destruct (span p s) as [a b]. simpl in *.
  by rewrite str_app_cons, IH.
Qed.

Lemma span_all p s : str_all p (fst (span p s)) = true.
Proof.
  induction s as [|c s IH]; [done|]. simpl.
  destruct (p c) eqn:E; [|done].
  destruct (span p s) as [a b]. simpl in *. by rewrite E.
Qed.

(** The run of a word followed by a character outside the class is the word. *)
Lemma span_word p w r :
  str_all p w = true ->
  match r with String c _ => p c = false | EmptyString => True end ->
  span p (w +:+ r) = (w, r).
Proof.
  intros Hw Hr. induction w as [|c w IH]; simpl in *.
  - rewrite str_app_nil. destruct r; [done|]. simpl. by rewrite Hr.
  - apply andb_prop in Hw as [Hc Hw].
    rewrite ?str_app_cons. simpl. by rewrite Hc, (IH Hw).
Qed.

Lemma str_ltb_irrefl s : str_ltb s s = false.
Proof. induction s; simpl; [done|]. by rewrite N.ltb_irrefl. Qed.

Lemma code_inj a b : code a = code b -> a = b.
Proof.
  intros H. rewrite <- (ascii_N_embedding a), <- (ascii_N_embedding b).
  unfold code in H. by rewrite H.
Qed.

Lemma str_ltb_trans s t u :
  str_ltb s t = true -> str_ltb t u = true -> str_ltb s u = true.
Proof.
  revert t u. induction s as [|a s IH]; intros [|b t] [|c u]; simpl; try done.
  repeat case_match; rewrite ?N.ltb_lt, ?N.ltb_ge in *; try done; try lia.
  apply IH.
Qed.

Lemma str_ltb_total s t :
  s <> t -> str_ltb s t = true \/ str_ltb t s = true.
Proof.
  revert t. induction s as [|a s IH]; intros [|b t] Hne; simpl; try by eauto.
  repeat case_match; rewrite ?N.ltb_lt, ?N.ltb_ge in *; eauto; try lia.
  assert (a = b) as -> by (apply code_inj; lia).
  apply IH. congruence.
Qed.

Lemma str_take_length k s : String.length (str_take k s) <= k.
Proof. revert s. induction k; intros [|]; simpl; auto with lia. specialize (IHk s). lia. Qed.

Lemma str_app_assoc (a b c : string) : (a +:+ b) +:+ c = a +:+ (b +:+ c).
Proof. induction a as [|x a IH]; [done|]. by rewrite !str_app_cons, IH. Qed.
Lemma str_length_app a b : String.length (a +:+ b) = String.length a + String.length b.
Proof. induction a as [|c a IH]; [done|]. rewrite str_app_cons. simpl. by rewrite IH. Qed.
