(* ===== verification/Parsing.v ===== *)
(** * Recursive-descent parsers with fuel: what their totality proofs share

    A production takes the tokens left and returns a node with the tokens it
    leaves.  [consumes P strict ts r]: the production's result [r] on [ts]
    either left fewer tokens ([strict]) or no more ([~ strict]), or raised an
    exception satisfying [P] -- so never the model's out-of-fuel error. *)
From S2P Require Import Prelude PyStr.
Open Scope string_scope.
Open Scope list_scope.
Open Scope nat_scope.

Section Consumes.
Context {E T N : Type} (P : E -> Prop).

Definition consumes (strict : bool) (ts : list T) (r : result E (N * list T)) : Prop :=
  match r with
  | Ok (_, ts') => if strict then length ts' < length ts else length ts' <= length ts
  | Err e => P e
  end.

Lemma consumes_bind s1 s2 ts m f :
  consumes s1 ts m ->
  (forall n ts', (if s1 then length ts' < length ts else length ts' <= length ts) ->
     consumes s2 ts (f (n, ts'))) ->
  consumes s2 ts (m ≫= f).
Proof. destruct m as [[n ts']|e]; simpl; auto. Qed.

Lemma consumes_le s s' ts ts' r :
  consumes s' ts' r ->
  (if s' then length ts' <= length ts else length ts' < length ts) ->
  consumes s ts r.
Proof. destruct r as [[n l]|]; simpl; [|done]. destruct s, s'; lia. Qed.
End Consumes.

(** [rank] orders the productions that call each other without consuming. *)
Definition enough {T} (fuel rank : nat) (ts : list T) : Prop := 8 * length ts + rank <= fuel.

Ltac measure := simpl in *; unfold enough in *; simpl in *; first [lia|done].
(** A call that ends the production. *)
Ltac last_call H := eapply consumes_le; [apply H; measure|measure].
(** A call whose result is bound. *)
Ltac sub_call H :=
  eapply consumes_bind with (s1 := true);
  [last_call H|let n := fresh "n" in let ts' := fresh "ts'" in
               let Hlen := fresh "Hlen" in intros n ts' Hlen; simpl in Hlen].

(** ** Scanners *)

Lemma drop_prefix_length p s r :
  drop_prefix p s = Some r -> String.length s = String.length p + String.length r.
Proof.
  revert s. induction p as [|c p IH]; intros [|d s]; simpl; intros H; simplify_eq; try done.
  destruct (Ascii.eqb c d); [|done]. by rewrite (IH s H).
Qed.

(** A run that starts with its first character leaves a shorter rest. *)
Lemma span_first p c s a r :
  p c = true -> span p (String c s) = (a, r) -> String.length r <= String.length s.
Proof.
  intros Hc. simpl. rewrite Hc. destruct (span p s) as [a' r'] eqn:E. intros; simplify_eq.
  apply span_length in E. lia.
Qed.

Section Scanner.
Context {E T : Type} (P : E -> Prop) (out_of_fuel : E).
Context (step : ascii -> string -> result E (list T * string)).

Fixpoint scan (fuel : nat) (s : string) : result E (list T) :=
  match s with
  | EmptyString => Ok []
  | String c rest =>
      match fuel with
      | 0 => Err out_of_fuel
      | S fuel => '(ts, r) ← step c rest; ts' ← scan fuel r; Ok (ts ++ ts')
      end
  end.

Context (step_shorter : forall c rest ts r,
  step c rest = Ok (ts, r) -> String.length r <= String.length rest).
Context (step_err : forall c rest e, step c rest = Err e -> P e).

Lemma scan_err fuel s e : String.length s <= fuel -> scan fuel s = Err e -> P e.
Proof.
  revert s. induction fuel as [|fuel IH]; intros [|c rest]; simpl; intros Hl; try done; try lia.
  destruct (step c rest) as [[ts r]|e'] eqn:Es; simpl.
  - apply step_shorter in Es. specialize (IH r ltac:(lia)).
    destruct (scan fuel r); simpl; intros; simplify_eq; auto.
  - apply step_err in Es. intros; by simplify_eq.
Qed.
End Scanner.
