(* ===== verification/PyFloat.v ===== *)
(** * Python [float]: binary64 arithmetic, exactly

    A Python float is an IEEE 754 binary64 number.  The model is the kernel's
    specification format [spec_float] at precision 53 and maximal exponent
    1024, so comparisons, sums and products are the ones the interpreter
    computes, rounding included.  [float_of_string] is [float(s)] and
    [round_ndigits] is [round(x, n)]. *)
From Stdlib Require Import SpecFloat.
From S2P Require Import Prelude PyStr.
Open Scope Z_scope.

Abbreviation float := spec_float.

Definition prec : Z := 53.
Definition emax : Z := 1024.

Definition fadd : float -> float -> float := SFadd prec emax.
Definition fsub : float -> float -> float := SFsub prec emax.
Definition fmul : float -> float -> float := SFmul prec emax.
Definition fdiv : float -> float -> float := SFdiv prec emax.
Definition feqb : float -> float -> bool := SFeqb.
Definition fltb : float -> float -> bool := SFltb.
Definition fleb : float -> float -> bool := SFleb.

(** [m * 2^e], correctly rounded. *)
Definition float_of_Ze (m e : Z) : float := binary_normalize prec emax m e false.

(** [float(n)] on an int: [None] is the [OverflowError] of an int too large
    for a float. *)
Definition float_of_Z (n : Z) : option float :=
  match float_of_Ze n 0 with
  | S754_infinity _ => None
  | x => Some x
  end.

(** [m * 10^e], correctly rounded, for [m >= 0]: for a negative exponent the
    quotient is computed to more than 64 bits and its remainder kept as a
    sticky bit. *)
Definition float_of_dec_abs (m e : Z) : float :=
  if 0 <=? e then float_of_Ze (m * 10 ^ e) 0
  else
    let d := 10 ^ (- e) in
    let k := Z.max 0 (Z.log2 d - Z.log2 m + 66) in
    let q := (m * 2 ^ k) / d in
    let sticky := if (m * 2 ^ k) mod d =? 0 then 0 else 1 in
    float_of_Ze (2 * q + sticky) (- (k + 1)).

Definition float_of_dec (neg : bool) (m e : Z) : float :=
  let x := float_of_dec_abs m e in if neg then SFopp x else x.

(** ** [float(s)] *)

(** The C-level blanks stripped by [float]; the other blanks below 256 are
    first turned into spaces when the string is not ASCII. *)
Definition is_c_space (c : ascii) : bool :=
  in_range 9 13 c || in_range 32 32 c || in_range 133 133 c || in_range 160 160 c.

Fixpoint drop_while (p : ascii -> bool) (s : string) : string :=
  match s with
  | String c s' => if p c then drop_while p s' else s
  | EmptyString => ""
  end.
Fixpoint str_rev_append (s acc : string) : string :=
  match s with
  | EmptyString => acc
  | String c s' => str_rev_append s' (String c acc)
  end.
Definition str_rev (s : string) : string := str_rev_append s "".
Definition float_strip (s : string) : string :=
  str_rev (drop_while is_c_space (str_rev (drop_while is_c_space s))).

(** Underscores are allowed only between two digits. *)
Fixpoint drop_underscores (prev : ascii) (s : string) : option string :=
  match s with
  | EmptyString => if Ascii.eqb prev "_" then None else Some ""
  | String c s' =>
      if Ascii.eqb c "_" then
        if isdecimal prev then drop_underscores c s' else None
      else if Ascii.eqb prev "_" && negb (isdecimal c) then None
      else String c <$> drop_underscores c s'
  end.

(** The exponent part, which must end the string. *)
Definition parse_exponent (s : string) : option Z :=
  match s with
  | EmptyString => Some 0
  | String c s' =>
      if Ascii.eqb c "e" || Ascii.eqb c "E" then
        match s' with
        | String "-" d => Z.opp <$> int_of_digits d
        | String "+" d => int_of_digits d
        | d => int_of_digits d
        end
      else None
  end.

Definition parse_unsigned (neg : bool) (s : string) : option float :=
  let w := str_lower s in
  if String.eqb w "inf" || String.eqb w "infinity" then Some (S754_infinity neg)
  else if String.eqb w "nan" then Some S754_nan
  else
    let '(ip, rest) := span isdecimal s in
    let '(fp, rest) :=
      match rest with
      | String "." r => span isdecimal r
      | r => (""%string, r)
      end in
    if String.eqb ip "" && String.eqb fp "" then None
    else e ← parse_exponent rest;
         Some (float_of_dec neg (digits_val 0 (ip +:+ fp)%stdpp)
                 (e - Z.of_nat (String.length fp))).

(** [float(s)]; [None] is [ValueError]. *)
Definition float_of_string (s : string) : option float :=
  s ← drop_underscores "x" (float_strip s);
  match s with
  | String "-" r => parse_unsigned true r
  | String "+" r => parse_unsigned false r
  | r => parse_unsigned false r
  end.

(** ** [round(x, n)] *)

(** [round_half_even p q]: the integer nearest to [p / q], ties to even. *)
Definition round_half_even (p q : Z) : Z :=
  let d := p / q in
  let r := p mod q in
  if 2 * r <? q then d
  else if q <? 2 * r then d + 1
  else if Z.even d then d else d + 1.

(** [round(x, n)] for [n >= 0]: the exact value is rounded to [n] decimals,
    ties to even, and the decimal is converted back. *)
Definition round_ndigits (x : float) (n : Z) : float :=
  match x with
  | S754_finite s m e =>
      let t := 10 ^ n in
      let k := if 0 <=? e then Zpos m * 2 ^ e * t
               else round_half_even (Zpos m * t) (2 ^ (- e)) in
      float_of_dec s k (- n)
  | _ => x
  end.

(** Literals of the sources, written as decimals: [dec 85 2] is [0.85]. *)
Definition dec (m : Z) (digits : Z) : float := float_of_dec false m (- digits).
Definition f_zero : float := S754_zero false.
Definition f_one : float := dec 1 0.
Definition fmin (a b : float) : float := if fltb b a then b else a.
Definition fmax (a b : float) : float := if fltb a b then b else a.

(** [int(round(x))]: nearest integer, ties to even; [None] for the exceptions
    an infinity or a NaN raises. *)
Definition round_to_Z (x : float) : option Z :=
  match x with
  | S754_zero _ => Some 0
  | S754_finite s m e =>
      let k := if 0 <=? e then Zpos m * 2 ^ e else round_half_even (Zpos m) (2 ^ (- e)) in
      Some (if s then - k else k)
  | _ => None
  end.

(** [a / b] on non-negative ints below [2^53]: both conversions are exact. *)
Definition int_div (a b : nat) : float :=
  fdiv (float_of_Ze (Z.of_nat a) 0) (float_of_Ze (Z.of_nat b) 0).

(** [sum(l)] of floats: compensated summation (CPython 3.12). *)
Definition sum_step (acc : float * float) (x : float) : float * float :=
  let '(s, c) := acc in
  let t := fadd s x in
  (t, fadd c (if fleb (SFabs x) (SFabs s) then fadd (fsub s t) x else fadd (fsub x t) s)).
Definition is_finite (x : float) : bool :=
  match x with S754_zero _ | S754_finite _ _ _ => true | _ => false end.
Definition py_sum (l : list float) : float :=
  match l with
  | [] => f_zero
  | x :: l =>
      let '(s, c) := foldl sum_step (fadd f_zero x, f_zero) l in
      if negb (feqb c f_zero) && is_finite c then fadd s c else s
  end.

(** * The order of floats

    Comparisons of [PyFloat] are a total order outside NaN; a NaN compares
    false with everything.  The proofs go through a key of three integers,
    ordered lexicographically. *)
Open Scope Z_scope.

Definition is_nan (x : float) : bool := match x with S754_nan => true | _ => false end.

Definition fkey (x : float) : Z * Z * Z :=
  match x with
  | S754_infinity true => (-2, 0, 0)
  | S754_finite true m e => (-1, - e, Zneg m)
  | S754_zero _ => (0, 0, 0)
  | S754_finite false m e => (1, e, Zpos m)
  | S754_infinity false => (2, 0, 0)
  | S754_nan => (3, 0, 0)
  end.

Definition key_lt (a b : Z * Z * Z) : Prop :=
  a.1.1 < b.1.1 \/ a.1.1 = b.1.1 /\ (a.1.2 < b.1.2 \/ a.1.2 = b.1.2 /\ a.2 < b.2).
Definition key_le (a b : Z * Z * Z) : Prop := key_lt a b \/ a = b.

Lemma SFcompare_key x y :
  is_nan x = false -> is_nan y = false ->
  match SFcompare x y with
  | Some Lt => key_lt (fkey x) (fkey y)
  | Some Eq => fkey x = fkey y
  | Some Gt => key_lt (fkey y) (fkey x)
  | None => False
  end.
Proof.
  intros Hx Hy. unfold key_lt.
  destruct x as [?|[]| |[] m e], y as [?|[]| |[] m' e']; try done; simpl; try lia.
  all: destruct (Z.compare_spec e e') as [->|?|?]; [|lia|lia];
    change (Pos.compare_cont Eq m m') with (m ?= m')%positive;
    destruct (Pos.compare_spec m m') as [->|?|?]; simpl; [done|lia|lia].
Qed.

Lemma fltb_key x y :
  fltb x y = true <-> is_nan x = false /\ is_nan y = false /\ key_lt (fkey x) (fkey y).
Proof.
  unfold fltb, SFltb. destruct (is_nan x) eqn:Hx; [destruct x; naive_solver|].
  destruct (is_nan y) eqn:Hy; [destruct y, x as [?|[]| |[] ? ?]; naive_solver|].
  pose proof (SFcompare_key x y Hx Hy) as H. unfold key_lt in *.
  destruct (SFcompare x y) as [[]|]; [|naive_solver| |done].
  - rewrite H. split; [done|lia].
  - split; [done|lia].
Qed.

Lemma fleb_key x y :
  fleb x y = true <-> is_nan x = false /\ is_nan y = false /\ key_le (fkey x) (fkey y).
Proof.
  unfold fleb, SFleb. destruct (is_nan x) eqn:Hx; [destruct x; naive_solver|].
  destruct (is_nan y) eqn:Hy; [destruct y, x as [?|[]| |[] ? ?]; naive_solver|].
  pose proof (SFcompare_key x y Hx Hy) as H. unfold key_le, key_lt in *.
  destruct (SFcompare x y) as [[]|]; [naive_solver|naive_solver| |done].
  split; [done|]. intros (_ & _ & [?|He]); [lia|rewrite He in H; lia].
Qed.

Lemma key_cases a b : key_lt a b \/ a = b \/ key_lt b a.
Proof.
  destruct a as [[a1 a2] a3], b as [[b1 b2] b3]. unfold key_lt; simpl.
  destruct (Z.lt_total a1 b1) as [?|[->|?]]; [lia| |lia].
  destruct (Z.lt_total a2 b2) as [?|[->|?]]; [lia| |lia].
  destruct (Z.lt_total a3 b3) as [?|[->|?]]; [lia|auto|lia].
Qed.

Lemma key_lt_trans a b c : key_lt a b -> key_lt b c -> key_lt a c.
Proof. unfold key_lt. lia. Qed.
Lemma key_lt_irrefl a : ~ key_lt a a.
Proof. unfold key_lt. lia. Qed.

(** Goes from comparisons to keys. *)
Ltac to_keys :=
  repeat match goal with
  | H : fltb _ _ = true |- _ => apply fltb_key in H; destruct H as (? & ? & H)
  | H : fleb _ _ = true |- _ => apply fleb_key in H; destruct H as (? & ? & H)
  end.

Lemma fleb_trans x y z : fleb x y = true -> fleb y z = true -> fleb x z = true.
Proof.
  intros H1 H2. to_keys. apply fleb_key. split_and!; [done..|]. unfold key_le in *.
  destruct H1 as [H1| ->]; [|naive_solver]. destruct H2 as [H2| <-]; [|auto].
  left. by eapply key_lt_trans.
Qed.

Lemma fltb_fleb_trans x y z : fltb x y = true -> fleb y z = true -> fltb x z = true.
Proof.
  intros H1 H2. to_keys. apply fltb_key. split_and!; [done..|].
  destruct H2 as [H2| <-]; [by eapply key_lt_trans|done].
Qed.

Lemma fleb_fltb_trans x y z : fleb x y = true -> fltb y z = true -> fltb x z = true.
Proof.
  intros H1 H2. to_keys. apply fltb_key. split_and!; [done..|].
  destruct H1 as [H1| ->]; [by eapply key_lt_trans|done].
Qed.

Lemma fltb_fleb x y : fltb x y = true -> fleb x y = true.
Proof. rewrite fltb_key, fleb_key. unfold key_le. naive_solver. Qed.

(** Outside NaN, [x < y] is the negation of [y <= x]. *)
Lemma fleb_false x y : is_nan x = false -> is_nan y = false -> fleb x y = false <-> fltb y x = true.
Proof.
  intros Hx Hy. rewrite fltb_key. destruct (fleb x y) eqn:H.
  - apply fleb_key in H as (_ & _ & [H|H]); split; try done; intros (_ & _ & H').
    + destruct (key_lt_irrefl _ (key_lt_trans _ _ _ H H')).
    + rewrite H in H'. destruct (key_lt_irrefl _ H').
  - split; [|done]. intros _. split_and!; [done..|].
    destruct (key_cases (fkey x) (fkey y)) as [?|[?|?]]; [| |done];
      assert (fleb x y = true) by (apply fleb_key; unfold key_le; auto); congruence.
Qed.

Lemma fltb_false x y : is_nan x = false -> is_nan y = false -> fltb x y = false <-> fleb y x = true.
Proof.
  intros Hx Hy. pose proof (fleb_false y x Hy Hx) as H.
  destruct (fltb x y), (fleb y x); naive_solver.
Qed.

Lemma fleb_refl x : is_nan x = false -> fleb x x = true.
Proof. intros H. apply fleb_key. unfold key_le. auto. Qed.

Lemma fleb_nan x y : fleb x y = true -> is_nan x = false /\ is_nan y = false.
Proof. rewrite fleb_key. naive_solver. Qed.

Create HintDb float_order.
#[export] Hint Resolve fleb_trans fltb_fleb_trans fleb_fltb_trans fltb_fleb fleb_refl : float_order.

(** ** Maximum *)

Lemma fmax_le a b c : fleb a c = true -> fleb b c = true -> fleb (fmax a b) c = true.
Proof. unfold fmax. by destruct (fltb a b). Qed.

Lemma fmax_ub a b :
  is_nan a = false -> is_nan b = false -> fleb a (fmax a b) = true /\ fleb b (fmax a b) = true.
Proof.
  intros Ha Hb. unfold fmax. destruct (fltb a b) eqn:H.
  - split; [by apply fltb_fleb|by apply fleb_refl].
  - split; [by apply fleb_refl|by apply fltb_false].
Qed.

Lemma fmax_nan a b : is_nan a = false -> is_nan b = false -> is_nan (fmax a b) = false.
Proof. unfold fmax. by destruct (fltb a b). Qed.

Lemma fmax_mono a b a' b' :
  fleb a a' = true -> fleb b b' = true -> fleb (fmax a b) (fmax a' b') = true.
Proof.
  intros H1 H2. pose proof (fleb_nan _ _ H1) as [? ?]. pose proof (fleb_nan _ _ H2) as [? ?].
  destruct (fmax_ub a' b') as [? ?]; [done..|].
  apply fmax_le; eauto with float_order.
Qed.

Lemma foldl_fmax_mono l l' a a' :
  fleb a a' = true -> Forall2 (fun x y => fleb x y = true) l l' ->
  fleb (foldl fmax a l) (foldl fmax a' l') = true.
Proof.
  intros Ha H. revert a a' Ha. induction H; simpl; intros; [done|]. by apply IHForall2, fmax_mono.
Qed.

Lemma foldl_fmax_ub l a :
  is_nan a = false -> Forall (fun x => is_nan x = false) l ->
  fleb a (foldl fmax a l) = true /\ Forall (fun x => fleb x (foldl fmax a l) = true) l.
Proof.
  intros Ha Hl. revert a Ha. induction Hl as [|x l Hx Hl IH]; simpl; intros a Ha.
  { split; [by apply fleb_refl|done]. }
  destruct (IH (fmax a x)) as [H1 H2]; [by apply fmax_nan|].
  destruct (fmax_ub a x) as [? ?]; [done..|].
  split; [by eapply fleb_trans|]. apply list.Forall_cons. split; [by eapply fleb_trans|done].
Qed.

(** ** Sizes: which results are finite *)
Module FloatSize.

Lemma pow_pred d : 0 < d -> 2 ^ d = 2 * 2 ^ (d - 1).
Proof. intros H. rewrite <- Z.pow_succ_r by lia. f_equal. lia. Qed.
Lemma digits_bounds p : 2 ^ (Z.pos (digits2_pos p) - 1) <= Z.pos p < 2 ^ Z.pos (digits2_pos p).
Proof.
  induction p as [p IH|p IH|]; cbn [digits2_pos]; [..|done];
    pose proof (pow_pred (Z.pos (digits2_pos p)) ltac:(lia));
    rewrite Pos2Z.inj_succ, Z.pow_succ_r, <- Z.add_1_r, Z.add_simpl_r by lia; lia.
Qed.
Lemma digits_upper m k : 0 <= k -> 0 <= m < 2 ^ k -> Zdigits2 m <= k.
Proof.
  intros Hk Hm. destruct m as [|p|p]; [done| |lia]. cbn. destruct (digits_bounds p) as [H _].
  assert (2 ^ (Z.pos (digits2_pos p) - 1) < 2 ^ k) as H2%Z.pow_lt_mono_r_iff by lia; lia.
Qed.

Lemma iter_pos_add {A} (f : A -> A) p q x : SpecFloat.iter_pos f (p + q) x = SpecFloat.iter_pos f p (SpecFloat.iter_pos f q x).
Proof.
  assert (H : forall p x, SpecFloat.iter_pos f p x = Pos.iter f x p).
  { clear. induction p as [p IH|p IH|]; intros x; simpl; [|by rewrite !IH|done]. rewrite !IH, <- !Pos.iter_swap. by rewrite Pos.iter_swap. }
  by rewrite !H, Pos.iter_add.
Qed.
Lemma iter_shr p mrs : 0 <= shr_m mrs -> shr_m (SpecFloat.iter_pos shr_1 p mrs) = shr_m mrs / 2 ^ Z.pos p.
Proof.
  assert (H1 : forall mrs, 0 <= shr_m mrs -> shr_m (shr_1 mrs) = shr_m mrs / 2).
  { intros [m r s] H. simpl in *. rewrite <- Z.div2_div. by destruct m as [|[]|]. }
  intros H. induction p as [|p IH] using Pos.peano_ind; [by apply H1|].
  rewrite <- Pos.add_1_l, iter_pos_add. change (SpecFloat.iter_pos shr_1 1 ?x) with (shr_1 x).
  assert (0 <= shr_m (SpecFloat.iter_pos shr_1 p mrs)) by (rewrite IH; apply Z.div_pos; lia).
  rewrite H1, IH, Z.div_div by lia. f_equal. rewrite Pos2Z.inj_add, Z.pow_add_r by lia. lia.
Qed.

(** [m * 2^e] is below [2^k]. *)
Definition below (k m e : Z) : Prop := e <= k /\ 0 <= m < 2 ^ (k - e).
Lemma digits_below k m e : below k m e -> Zdigits2 m + e <= k.
Proof. intros [He Hm]. pose proof (digits_upper m (k - e)). lia. Qed.

Lemma shr_fexp_below k m e l mrs e' :
  below k m e -> -1074 <= k -> shr_fexp prec emax m e l = (mrs, e') -> below k (shr_m mrs) e' /\ e <= e'.
Proof.
  intros Hb Hk H. pose proof (digits_below _ _ _ Hb) as Hd. destruct Hb as [He Hm]. unfold shr_fexp, shr in H.
  assert (Hl : shr_m (shr_record_of_loc m l) = m) by (by destruct l as [|[]]).
  destruct (fexp prec emax (Zdigits2 m + e) - e) as [|p|p] eqn:E; simplify_eq; rewrite ?Hl; [by split_and!..| |by split_and!].
  rewrite iter_shr, Hl by lia. unfold fexp, emin, prec, emax in E.
  assert (e + Z.pos p <= k) by lia. split; [|lia]. split; [done|].
  split; [apply Z.div_pos; lia|]. apply Z.div_lt_upper_bound; [lia|]. rewrite <- Z.pow_add_r by lia.
  replace (Z.pos p + (k - (e + Z.pos p))) with (k - e) by lia. lia.
Qed.

(** What a rounding of a small magnitude gives: no overflow and no NaN. *)
Definition small (k : Z) (x : float) : Prop :=
  match x with S754_zero _ => True | S754_finite _ m e => below k (Z.pos m) e | _ => False end.
Lemma round_small k s m e l : below k m e -> -1074 <= k <= 970 -> small (k + 1) (binary_round_aux prec emax s m e l).
Proof.
  intros Hb Hk. unfold binary_round_aux. destruct (shr_fexp prec emax m e l) as [mrs e'] eqn:E1.
  apply (shr_fexp_below k) in E1 as [[He' Hm'] _]; [|done|lia].
  set (m1 := round_nearest_even _ _). assert (Hm1 : 0 <= m1 <= shr_m mrs + 1).
  { unfold m1, round_nearest_even. destruct (loc_of_shr_record mrs) as [|[]]; try lia. destruct (Z.even _); lia. }
  assert (Hp : 0 < 2 ^ (k - e')) by (apply Z.pow_pos_nonneg; lia).
  destruct (shr_fexp prec emax m1 e' loc_Exact) as [mrs' e''] eqn:E2.
  pose proof (pow_pred (k + 1 - e') ltac:(lia)) as Hpp. replace (k + 1 - e' - 1) with (k - e') in Hpp by lia.
  apply (shr_fexp_below (k + 1)) in E2 as [[He2 Hm2] _]; [|split; [lia|]; rewrite Hpp; lia|lia].
  destruct (shr_m mrs') as [|p|p] eqn:Es; [done| |lia].
  destruct (Z.leb_spec e'' (emax - prec)) as [Hle|Hgt]; [by split|]. exfalso. unfold emax, prec in Hgt. lia.
Qed.
Lemma below_le k k' m e : k <= k' -> below k m e -> below k' m e.
Proof.
  intros Hk [He [H0 Hm]]. split; [lia|]. split; [done|]. eapply Z.lt_le_trans; [exact Hm|]. apply Z.pow_le_mono_r; lia.
Qed.
Lemma below_mul k m e k' m' e' : below k m e -> below k' m' e' -> below (k + k') (m * m') (e + e').
Proof.
  intros [He Hm] [He' Hm']. split; [lia|]. replace (k + k' - (e + e')) with ((k - e) + (k' - e')) by lia.
  rewrite Z.pow_add_r by lia. split; [lia|]. apply Z.mul_lt_mono_nonneg; lia.
Qed.
Lemma fmul_small k x k' y : small k x -> small k' y -> -1074 <= k + k' <= 970 -> small (k + k' + 1) (fmul x y).
Proof.
  intros Hx Hy Hk. destruct x as [| | |sx mx ex], y as [| | |sy my ey]; try done.
  change (small (k + k' + 1) (binary_round_aux prec emax (xorb sx sy) (Z.pos (mx * my)) (ex + ey) loc_Exact)).
  apply round_small; [|done]. rewrite Pos2Z.inj_mul. by apply below_mul.
Qed.

(** A positive int is not rounded to zero. *)
Lemma shr_fexp_pos m e l mrs e' : 0 < m -> -1000 <= e -> shr_fexp prec emax m e l = (mrs, e') -> 0 < shr_m mrs /\ e <= e'.
Proof.
  intros Hm He H. unfold shr_fexp, shr in H. assert (Hl : shr_m (shr_record_of_loc m l) = m) by (by destruct l as [|[]]).
  destruct (fexp prec emax (Zdigits2 m + e) - e) as [|p|p] eqn:E; simplify_eq; rewrite ?Hl; [done| |done].
  rewrite iter_shr, Hl by lia. split; [|lia]. destruct m as [|m|m]; [lia| |lia]. destruct (digits_bounds m) as [Hd _].
  unfold fexp, emin, prec, emax in E. cbn [Zdigits2] in E. apply Z.div_str_pos. split; [lia|]. etrans; [|exact Hd].
  apply Z.pow_le_mono_r; lia.
Qed.
Lemma round_pos s m e l : 0 < m -> -1000 <= e ->
  match binary_round_aux prec emax s m e l with S754_infinity _ => True | S754_finite _ _ e' => e <= e' | _ => False end.
Proof.
  intros Hm He. unfold binary_round_aux. destruct (shr_fexp prec emax m e l) as [mrs e1] eqn:E1.
  apply shr_fexp_pos in E1 as [H1 L1]; [|done..]. set (m1 := round_nearest_even _ _).
  assert (Hm1 : 0 < m1).
  { unfold m1, round_nearest_even. destruct (loc_of_shr_record mrs) as [|[]]; try lia. destruct (Z.even _); lia. }
  destruct (shr_fexp prec emax m1 e1 loc_Exact) as [mrs' e2] eqn:E2. apply shr_fexp_pos in E2 as [H2 L2]; [|done|lia].
  destruct (shr_m mrs') as [|p|p]; [lia| |lia]. destruct (_ <=? _); [lia|done].
Qed.
Lemma float_of_pos p :
  match float_of_Ze (Z.pos p) 0 with S754_infinity _ => True | S754_finite _ _ e => -52 <= e | _ => False end.
Proof.
  unfold float_of_Ze, binary_normalize, binary_round. set (d := fexp _ _ _).
  assert (Hd : -52 <= d) by (unfold d, fexp, emin, prec, emax; lia). unfold shl_align.
  destruct (d - 0) as [|q|q] eqn:E.
  - pose proof (round_pos false (Z.pos p) 0 loc_Exact) as H. destruct (binary_round_aux _ _ _ _ _ _); try done; [by apply H..|]. specialize (H ltac:(lia) ltac:(lia)). lia.
  - pose proof (round_pos false (Z.pos p) 0 loc_Exact) as H. destruct (binary_round_aux _ _ _ _ _ _); try done; [by apply H..|]. specialize (H ltac:(lia) ltac:(lia)). lia.
  - pose proof (round_pos false (Z.pos (Pos.iter xO p q)) d loc_Exact) as H. destruct (binary_round_aux _ _ _ _ _ _); try done; try (by apply H; lia). specialize (H ltac:(lia) ltac:(lia)). lia.
Qed.

(** [1 / n] for a positive int. *)
Lemma inverse_small n : (0 < n)%nat -> small 54 (int_div 1 n).
Proof.
  intros Hn. unfold int_div. pose proof (float_of_pos (Pos.of_nat n)) as H.
  replace (Z.pos (Pos.of_nat n)) with (Z.of_nat n) in H by lia.
  change (float_of_Ze (Z.of_nat 1) 0) with (S754_finite false 4503599627370496 (-52)).
  destruct (float_of_Ze (Z.of_nat n) 0) as [| | |s2 m2 e2]; try done.
  unfold fdiv. cbn [SFdiv]. unfold SFdiv_core_binary. set (e' := Z.min _ _). set (s := _ - e2 - e').
  assert (Hs : 0 <= s) by (unfold s, e'; lia).
  assert (Hm : match s with Z.pos _ => Z.shiftl 4503599627370496 s | 0 => 4503599627370496 | Z.neg _ => 0 end = 2 ^ (52 + s)).
  { rewrite Z.pow_add_r by lia. change (2 ^ 52) with 4503599627370496. destruct s as [|q|q] eqn:Es; [done| |lia]. by rewrite Z.shiftl_mul_pow2 by lia. }
  rewrite Hm. destruct (Z.div_eucl (2 ^ (52 + s)) (Z.pos m2)) as [q r] eqn:Eq.
  change 54 with (53 + 1). apply round_small; [|lia].
  assert (Hq : q = 2 ^ (52 + s) / Z.pos m2) by (unfold Z.div; by rewrite Eq).
  split; [unfold s in Hs; lia|]. rewrite Hq. split; [apply Z.div_pos; [apply Z.pow_nonneg|]; lia|].
  eapply Z.le_lt_trans; [apply Z.div_le_upper_bound with (q := 2 ^ (52 + s)); [lia|]|].
  - assert (0 < 2 ^ (52 + s)) by (apply Z.pow_pos_nonneg; lia). nia.
  - apply Z.pow_lt_mono_r; [lia|unfold s; lia|unfold s; lia].
Qed.
Lemma round_to_Z_small k x : small k x -> is_Some (round_to_Z x).
Proof. destruct x; simpl; naive_solver. Qed.
End FloatSize.
