(* ===== verification/PyVal.v ===== *)
(** * The Python objects the policies inspect

    JSON-shaped values: what the mappings of a path step, a contract context
    or a request's metadata hold.  A mapping is an association list, first
    occurrence of a key winning, which is all [in] and [[]] observe.  [PObj] is
    an object of another class (a tuple, a datetime) which is not a mapping,
    has no [__float__], and is seen through its [str()] only. *)
From Stdlib Require Import SpecFloat.
From S2P Require Import Prelude PyStr PyFloat.
Open Scope string_scope.

#[warnings="-register-all"]
Inductive pyval :=
| PNone
| PBool (b : bool)
| PInt (z : Z)
| PFloat (f : float)
| PStr (s : string)
| PList (l : list pyval)
| PDict (kvs : list (string * pyval))
| PObj (str : string).

Abbreviation pydict := (list (string * pyval)).

(** [d[k]] when [k in d]. *)
Fixpoint dict_get (k : string) (d : pydict) : option pyval :=
  match d with
  | [] => None
  | (k', v) :: d' => if String.eqb k k' then Some v else dict_get k d'
  end.

(** The outcome of [float(x)]. *)
Inductive float_conv :=
| FOk (f : float)
| FValueError
| FTypeError
| FOverflowError.

Definition to_float (x : pyval) : float_conv :=
  match x with
  | PBool b => FOk (if b then f_one else f_zero)
  | PInt z => match float_of_Z z with Some f => FOk f | None => FOverflowError end
  | PFloat f => FOk f
  | PStr s => match float_of_string s with Some f => FOk f | None => FValueError end
  | PNone | PList _ | PDict _ | PObj _ => FTypeError
  end.
