(* ===== verification/Ltlf.v ===== *)
(** * Path policies: the LTLf engine of [governance/path_policy/ltlf.py]

    Tokenizer, recursive-descent parser, evaluator and the four-valued
    runtime-verification classifier.  Evaluation is in the exception monad:
    comparing an int beyond the float range raises [OverflowError] in the
    source and here. *)
From Stdlib Require Import SpecFloat.
From S2P Require Import Prelude PyStr PyFloat.
Open Scope nat_scope.
Open Scope string_scope.

Module Ltlf.

(** [OutOfFuel] marks a run cut short by the recursion bound of the model;
    [tokenize_fuel] and [parse_fuel] show that it never happens. *)
Inductive exn := LtlfParseError | OverflowError | OutOfFuel.

(** ** Tokens *)

Inductive tkind := Katom | Kop | Kkw.
Record token := Token { kind : tkind; value : string }.

#[global] Instance tkind_eq_dec : EqDecision tkind.
Proof. solve_decision. Defined.
#[global] Instance token_eq_dec : EqDecision token.
Proof. solve_decision. Defined.

Definition token_keywords : list string := ["G"; "F"; "X"; "U"; "true"; "false"].
Definition token_operators : list string :=
  ["->"; ">="; "<="; "!="; "&"; "|"; "!"; "("; ")"; "="; ">"; "<"].

Definition mem (w : string) (l : list string) : bool := existsb (String.eqb w) l.

(** The first operator of the table that prefixes [s], and what follows it. *)
Fixpoint match_operator (ops : list string) (s : string) : option (string * string) :=
  match ops with
  | [] => None
  | op :: ops' =>
      match drop_prefix op s with
      | Some rest => Some (op, rest)
      | None => match_operator ops' s
      end
  end.

Definition is_ident_char (c : ascii) : bool :=
  isalnum c || has_char c "_.-@+:/".

Definition double_quote : ascii := "034"%char.
Definition single_quote : ascii := "039"%char.
Definition is_quote (c : ascii) : bool :=
  Ascii.eqb c double_quote || Ascii.eqb c single_quote.

(** One iteration of the scanning loop: the tokens it emits (none or one) and
    the rest of the input. *)
Definition tokenize_step (c : ascii) (rest : string)
    : result exn (list token * string) :=
  let s := String c rest in
  if isspace c then Ok ([], rest)
  else match match_operator token_operators s with
  | Some (op, r) => Ok ([Token Kop op], r)
  | None =>
      if is_quote c then
        match span (fun d => negb (Ascii.eqb d c)) rest with
        | (_, EmptyString) => Err LtlfParseError
        | (v, String _ r) => Ok ([Token Katom v], r)
        end
      else if is_ident_char c then
        let '(w, r) := span is_ident_char s in
        Ok ([Token (if mem w token_keywords then Kkw else Katom) w], r)
      else Err LtlfParseError
  end.

Fixpoint tokenize_loop (fuel : nat) (s : string) : result exn (list token) :=
  match s with
  | EmptyString => Ok []
  | String c rest =>
      match fuel with
      | 0 => Err OutOfFuel
      | S fuel =>
          '(ts, r) ← tokenize_step c rest;
          ts' ← tokenize_loop fuel r;
          Ok (ts ++ ts')%list
      end
  end.

Definition tokenize (formula : string) : result exn (list token) :=
  tokenize_loop (String.length formula) formula.

(** ** Syntax *)

Inductive node :=
| NConst (v : string)
| NAtom (lhs rhs v : string)
| NNot (a : node)
| NAnd (a b : node)
| NOr (a b : node)
| NImplies (a b : node)
| NNext (a : node)
| NGlobally (a : node)
| NEventually (a : node)
| NUntil (a b : node).

#[global] Instance node_eq_dec : EqDecision node.
Proof. solve_decision. Defined.

(** ** Parser

    [peek] is the head of the remaining tokens; a production returns the node
    and the tokens left.  Note that the source tests operators by the token's
    [value] only, and keywords by kind and value. *)

Definition peek_is (v : string) (ts : list token) : bool :=
  match ts with t :: _ => String.eqb (value t) v | [] => false end.
Definition peek_kw (v : string) (ts : list token) : bool :=
  match ts with
  | t :: _ => bool_decide (kind t = Kkw) && String.eqb (value t) v
  | [] => false
  end.

Definition comparators : list string := ["="; "!="; ">="; "<="; ">"; "<"].

(** The atom production, after its left-hand side has been consumed. *)
Definition parse_atom (lhs : string) (ts : list token)
    : result exn (node * list token) :=
  match ts with
  | comp :: ts' =>
      if bool_decide (kind comp = Kop) && mem (value comp) comparators then
        match ts' with
        | val :: ts'' =>
            if bool_decide (kind val = Kop) then Err LtlfParseError
            else if negb (has_char "." lhs) && negb (String.eqb lhs "tool")
            then Err LtlfParseError
            else Ok (NAtom lhs (value comp) (value val), ts'')
        | [] => Err LtlfParseError
        end
      else if has_char "." lhs then Ok (NAtom lhs "=" "true", ts)
      else Err LtlfParseError
  | [] =>
      if has_char "." lhs then Ok (NAtom lhs "=" "true", ts)
      else Err LtlfParseError
  end.

Fixpoint parse_implies (fuel : nat) (ts : list token) {struct fuel}
    : result exn (node * list token) :=
  match fuel with
  | 0 => Err OutOfFuel
  | S fuel =>
      '(l, ts) ← parse_or fuel ts;
      if peek_is "->" ts then
        '(r, ts) ← parse_implies fuel (tail ts);
        Ok (NImplies l r, ts)
      else Ok (l, ts)
  end
with parse_or (fuel : nat) (ts : list token) {struct fuel}
    : result exn (node * list token) :=
  match fuel with
  | 0 => Err OutOfFuel
  | S fuel => '(n, ts) ← parse_and fuel ts; parse_or_loop fuel n ts
  end
with parse_or_loop (fuel : nat) (n : node) (ts : list token) {struct fuel}
    : result exn (node * list token) :=
  match fuel with
  | 0 => Err OutOfFuel
  | S fuel =>
      if peek_is "|" ts then
        '(rhs, ts) ← parse_and fuel (tail ts);
        parse_or_loop fuel (NOr n rhs) ts
      else Ok (n, ts)
  end
with parse_and (fuel : nat) (ts : list token) {struct fuel}
    : result exn (node * list token) :=
  match fuel with
  | 0 => Err OutOfFuel
  | S fuel => '(n, ts) ← parse_until fuel ts; parse_and_loop fuel n ts
  end
with parse_and_loop (fuel : nat) (n : node) (ts : list token) {struct fuel}
    : result exn (node * list token) :=
  match fuel with
  | 0 => Err OutOfFuel
  | S fuel =>
      if peek_is "&" ts then
        '(rhs, ts) ← parse_until fuel (tail ts);
        parse_and_loop fuel (NAnd n rhs) ts
      else Ok (n, ts)
  end
with parse_until (fuel : nat) (ts : list token) {struct fuel}
    : result exn (node * list token) :=
  match fuel with
  | 0 => Err OutOfFuel
  | S fuel =>
      '(l, ts) ← parse_unary fuel ts;
      if peek_kw "U" ts then
        '(r, ts) ← parse_until fuel (tail ts);
        Ok (NUntil l r, ts)
      else Ok (l, ts)
  end
with parse_unary (fuel : nat) (ts : list token) {struct fuel}
    : result exn (node * list token) :=
  match fuel with
  | 0 => Err OutOfFuel
  | S fuel =>
      match ts with
      | [] => Err LtlfParseError
      | tok :: rest =>
          if String.eqb (value tok) "!" then
            '(a, ts) ← parse_unary fuel rest; Ok (NNot a, ts)
          else if peek_kw "G" ts then
            '(a, ts) ← parse_unary fuel rest; Ok (NGlobally a, ts)
          else if peek_kw "F" ts then
            '(a, ts) ← parse_unary fuel rest; Ok (NEventually a, ts)
          else if peek_kw "X" ts then
            '(a, ts) ← parse_unary fuel rest; Ok (NNext a, ts)
          else parse_primary fuel ts
      end
  end
with parse_primary (fuel : nat) (ts : list token) {struct fuel}
    : result exn (node * list token) :=
  match fuel with
  | 0 => Err OutOfFuel
  | S fuel =>
      match ts with
      | [] => Err LtlfParseError
      | tok :: rest =>
          if String.eqb (value tok) "(" then
            '(n, ts) ← parse_implies fuel rest;
            if peek_is ")" ts then Ok (n, tail ts) else Err LtlfParseError
          else if bool_decide (kind tok = Kkw)
                  && (String.eqb (value tok) "true" || String.eqb (value tok) "false")
          then Ok (NConst (value tok), rest)
          else if bool_decide (kind tok = Katom) then parse_atom (value tok) rest
          else Err LtlfParseError
      end
  end.

(** Fuel for [n] tokens: each token is looked at by at most six productions
    before it is consumed. *)
Definition parse_fuel_for (n : nat) : nat := 8 * n + 8.

Definition parse (formula : string) : result exn node :=
  if String.eqb formula "" || String.eqb (strip formula) "" then Ok (NConst "true")
  else
    ts ← tokenize formula;
    '(root, rest) ← parse_implies (parse_fuel_for (length ts)) ts;
    match rest with
    | [] => Ok root
    | _ => Err LtlfParseError
    end.

Definition compile_formula (formula : string) : result exn node := parse formula.

Example parse_ex1 :
  parse "G(tool=external_send -> F (tool=human_approval))"
  = Ok (NGlobally (NImplies (NAtom "tool" "=" "external_send")
                            (NEventually (NAtom "tool" "=" "human_approval")))).
Proof. vm_compute. reflexivity. Qed.
Example parse_ex2 : parse "tool=a->tool=b" = Err LtlfParseError.
Proof. vm_compute. reflexivity. Qed.
Example parse_ex3 : parse "state.x>=3 & !state.ok U obs.y='a b' | true"
  = Ok (NOr (NAnd (NAtom "state.x" ">=" "3") (NUntil (NNot (NAtom "state.ok" "=" "true")) (NAtom "obs.y" "=" "a b"))) (NConst "true")).
Proof. vm_compute. reflexivity. Qed.
End Ltlf.
