(* ===== verification/LtlfEval.v ===== *)
(** * Path policies: evaluation and the RV4 classifier
    ([governance/path_policy/ltlf.py], from [_atom_value] on)

    [sat] is the reference semantics of LTLf on a finite trace; [eval_at]
    refines it, and the two mutually recursive classifiers over-approximate
    what some extension of the trace could make of a formula. *)
From Stdlib Require Import SpecFloat.
From S2P Require Import Prelude PyLoop PyStr PyFloat PyVal Ltlf.
Import Ltlf.
Open Scope string_scope.
Open Scope list_scope.
Open Scope nat_scope.

Module LtlfEval.

(** [PathStep]: state, action, observation. *)
Record step := Step { state : pydict; action : pydict; observation : pydict }.

Section Atoms.

(** [str(x)] of a list or a mapping, which no theorem depends on. *)
Context (str_container : pyval -> string).

(** Walks the dotted key: [None] of the source is [PNone], absent or not. *)
Fixpoint walk (cur : pyval) (parts : list string) : pyval :=
  match parts with
  | [] => cur
  | part :: parts' =>
      match cur with
      | PDict d =>
          match dict_get part d with
          | Some v => walk v parts'
          | None => PNone
          end
      | _ => PNone
      end
  end.

Fixpoint first_key (keys : list string) (d : pydict) : pyval :=
  match keys with
  | [] => PNone
  | k :: keys' =>
      match dict_get k d with
      | Some v => v
      | None => first_key keys' d
      end
  end.

Definition atom_value (st : step) (lhs : string) : pyval :=
  if String.eqb lhs "tool" then
    first_key ["tool"; "type"; "action"; "name"] (action st)
  else if negb (has_char "." lhs) then PNone
  else
    let '(source, key) := PyStr.partition "." lhs in
    let parts := PyStr.split "." key in
    if String.eqb source "state" then walk (PDict (state st)) parts
    else if String.eqb source "action" then walk (PDict (action st)) parts
    else if String.eqb source "obs" then walk (PDict (observation st)) parts
    else PNone.

(** [_equal] *)
Definition equal (left : pyval) (lit : string) : result exn bool :=
  match left with
  | PBool b => Ok (String.eqb (if b then "true" else "false") (str_lower lit))
  | PInt _ | PFloat _ =>
      match to_float left with
      | FOverflowError => Err OverflowError
      | FOk l =>
          match float_of_string lit with
          | Some r => Ok (feqb l r)
          | None => Ok false
          end
      | _ => Ok false
      end
  | PNone => Ok (mem (str_lower lit) ["none"; "null"])
  | PStr s => Ok (String.eqb s lit)
  | PList _ | PDict _ => Ok (String.eqb (str_container left) lit)
  | PObj s => Ok (String.eqb s lit)
  end.

(** [_coerce_compare] *)
Definition coerce_compare (left : pyval) (comparator lit : string)
    : result exn bool :=
  if String.eqb comparator "=" then equal left lit
  else if String.eqb comparator "!=" then negb <$> equal left lit
  else match left with
  | PNone => Ok false
  | _ =>
      match to_float left with
      | FOverflowError => Err OverflowError
      | FValueError | FTypeError => Ok false
      | FOk l =>
          match float_of_string lit with
          | None => Ok false
          | Some r =>
              Ok (if String.eqb comparator ">=" then fleb r l
                  else if String.eqb comparator "<=" then fleb l r
                  else if String.eqb comparator ">" then fltb r l
                  else if String.eqb comparator "<" then fltb l r
                  else false)
          end
      end
  end.

(** ** Loops over a range of positions: [all_range] and [any_range] of
    [PyLoop] *)

(** The until loop of [_eval_at]: at each [k], if [psi] holds, re-check [phi]
    on [start, k). *)
Fixpoint until_range (phi psi : nat -> result exn bool) (start k count : nat)
    : result exn bool :=
  match count with
  | 0 => Ok false
  | S count =>
      b ← psi k;
      if (b : bool) then
        ok ← all_range phi start (k - start);
        if (ok : bool) then Ok true else until_range phi psi start (S k) count
      else until_range phi psi start (S k) count
  end.

Fixpoint eval_at (m : node) (trace : list step) (i : nat) : result exn bool :=
  let n := length trace in
  match m with
  | NConst v => Ok (String.eqb v "true")
  | NAtom lhs rhs v =>
      match trace !! i with
      | None => Ok false
      | Some st => coerce_compare (atom_value st lhs) rhs v
      end
  | NNot a => negb <$> eval_at a trace i
  | NAnd a b =>
      x ← eval_at a trace i; if (x : bool) then eval_at b trace i else Ok false
  | NOr a b =>
      x ← eval_at a trace i; if (x : bool) then Ok true else eval_at b trace i
  | NImplies a b =>
      x ← eval_at a trace i; if (x : bool) then eval_at b trace i else Ok true
  | NNext a => if (n <=? i + 1)%nat then Ok false else eval_at a trace (i + 1)
  | NGlobally a => all_range (eval_at a trace) i (n - i)
  | NEventually a => any_range (eval_at a trace) i (n - i)
  | NUntil a b => until_range (eval_at a trace) (eval_at b trace) i i (n - i)
  end.

Definition evaluate_compiled (ast : node) (trace : list step) : result exn bool :=
  eval_at ast trace 0.
Definition evaluate (formula : string) (trace : list step) : result exn bool :=
  ast ← parse formula; eval_at ast trace 0.

(** ** Four-valued verdicts *)

Inductive RV4Verdict :=
| PERMANENTLY_SATISFIED | CURRENTLY_SATISFIED
| CURRENTLY_VIOLATED | PERMANENTLY_VIOLATED.
#[global] Instance RV4Verdict_eq_dec : EqDecision RV4Verdict.
Proof. solve_decision. Defined.

Definition is_satisfied (v : RV4Verdict) : bool :=
  match v with PERMANENTLY_SATISFIED | CURRENTLY_SATISFIED => true | _ => false end.
Definition is_permanent (v : RV4Verdict) : bool :=
  match v with PERMANENTLY_SATISFIED | PERMANENTLY_VIOLATED => true | _ => false end.
Definition is_permanent_violation (v : RV4Verdict) : bool :=
  match v with PERMANENTLY_VIOLATED => true | _ => false end.
Definition is_recoverable_violation (v : RV4Verdict) : bool :=
  match v with CURRENTLY_VIOLATED => true | _ => false end.

(** The until walk of [_can_become_true] over the observed prefix; [None]
    when the walk reaches the end of the trace. *)
Fixpoint until_walk (l r : nat -> result exn bool) (k count : nat)
    : result exn (option bool) :=
  match count with
  | 0 => Ok None
  | S count =>
      x ← r k;
      if (x : bool) then Ok (Some true)
      else y ← l k;
           if (y : bool) then until_walk l r (S k) count else Ok (Some false)
  end.

Fixpoint can_become_true (m : node) (trace : list step) (i : nat)
    {struct m} : result exn bool :=
  let n := length trace in
  match m with
  | NConst v => Ok (String.eqb v "true")
  | NAtom _ _ _ => if (i <? n)%nat then eval_at m trace i else Ok true
  | NNot a => can_become_false a trace i
  | NAnd a b =>
      x ← can_become_true a trace i;
      if (x : bool) then can_become_true b trace i else Ok false
  | NOr a b =>
      x ← can_become_true a trace i;
      if (x : bool) then Ok true else can_become_true b trace i
  | NImplies a b =>
      x ← can_become_false a trace i;
      if (x : bool) then Ok true else can_become_true b trace i
  | NNext a => can_become_true a trace (i + 1)
  | NGlobally a => all_range (can_become_true a trace) i (n - i)
  | NEventually a =>
      x ← any_range (can_become_true a trace) i (n - i);
      if (x : bool) then Ok true else can_become_true a trace (i `max` n)
  | NUntil a b =>
      w ← until_walk (can_become_true a trace) (can_become_true b trace) i (n - i);
      match w with
      | Some x => Ok x
      | None => can_become_true b trace (i `max` n)
      end
  end
with can_become_false (m : node) (trace : list step) (i : nat)
    {struct m} : result exn bool :=
  let n := length trace in
  match m with
  | NConst v => Ok (negb (String.eqb v "true"))
  | NAtom _ _ _ => if (i <? n)%nat then negb <$> eval_at m trace i else Ok true
  | NNot a => can_become_true a trace i
  | NAnd a b =>
      x ← can_become_false a trace i;
      if (x : bool) then Ok true else can_become_false b trace i
  | NOr a b =>
      x ← can_become_false a trace i;
      if (x : bool) then can_become_false b trace i else Ok false
  | NImplies a b =>
      x ← can_become_true a trace i;
      if (x : bool) then can_become_false b trace i else Ok false
  | NNext a => if (n <=? i + 1)%nat then Ok true else can_become_false a trace (i + 1)
  | NGlobally a =>
      x ← any_range (can_become_false a trace) i (n - i);
      if (x : bool) then Ok true else can_become_false a trace (i `max` n)
  | NEventually a => all_range (can_become_false a trace) i (n + 1 - i)
  | NUntil _ _ => Ok true
  end.

Definition evaluate_rv4_compiled (ast : node) (trace : list step)
    : result exn RV4Verdict :=
  holds ← eval_at ast trace 0;
  if (holds : bool) then
    f ← can_become_false ast trace 0;
    Ok (if (f : bool) then CURRENTLY_SATISFIED else PERMANENTLY_SATISFIED)
  else
    t ← can_become_true ast trace 0;
    Ok (if (t : bool) then CURRENTLY_VIOLATED else PERMANENTLY_VIOLATED).

Definition evaluate_rv4 (formula : string) (trace : list step)
    : result exn RV4Verdict :=
  ast ← parse formula; evaluate_rv4_compiled ast trace.

(** ** Reference semantics

    LTLf on a finite trace (De Giacomo and Vardi): the strong next is false at
    the last position, [G] and [F] range over the positions left. *)
Definition atom_true (st : step) (lhs rhs v : string) : Prop :=
  coerce_compare (atom_value st lhs) rhs v = Ok true.

Fixpoint sat (m : node) (t : list step) (i : nat) : Prop :=
  match m with
  | NConst v => v = "true"
  | NAtom lhs rhs v => exists st, t !! i = Some st /\ atom_true st lhs rhs v
  | NNot a => ~ sat a t i
  | NAnd a b => sat a t i /\ sat b t i
  | NOr a b => sat a t i \/ sat b t i
  | NImplies a b => sat a t i -> sat b t i
  | NNext a => i + 1 < length t /\ sat a t (i + 1)
  | NGlobally a => forall j, i <= j < length t -> sat a t j
  | NEventually a => exists j, i <= j < length t /\ sat a t j
  | NUntil a b =>
      exists k, i <= k < length t /\ sat b t k
                /\ forall j, i <= j < k -> sat a t j
  end.

(** ** The loops *)

Lemma until_range_true phi psi s k c :
  s <= k -> until_range phi psi s k c = Ok true ->
  exists j, k <= j < k + c /\ psi j = Ok true
            /\ forall x, s <= x < j -> phi x = Ok true.
Proof.
  revert k. induction c as [|c IH]; simpl; intros k Hs H; [done|].
  inv_bind. case_match; subst.
  - inv_bind. case_match; subst.
    + exists k. split; [lia|]. split; [done|]. intros x Hx.
      eapply all_range_true; [eassumption|lia].
    + destruct (IH (S k)) as (j & ? & ?); [lia|done|]. exists j. split; [lia|done].
  - destruct (IH (S k)) as (j & ? & ?); [lia|done|]. exists j. split; [lia|done].
Qed.

Lemma until_range_false phi psi s k c :
  s <= k -> until_range phi psi s k c = Ok false ->
  forall j, k <= j < k + c ->
    psi j = Ok false \/ exists x, s <= x < j /\ phi x = Ok false.
Proof.
  revert k. induction c as [|c IH]; simpl; intros k Hs H j Hj; [lia|].
  inv_bind. destruct (decide (k = j)) as [->|].
  - case_match; subst; [|by left].
    inv_bind. case_match; subst; [done|]. right.
    match goal with Ha : all_range _ _ _ = Ok false |- _ =>
      destruct (all_range_false _ _ _ Ha) as (x & ? & ?) end.
    exists x. split; [lia|done].
  - case_match; subst; [inv_bind; case_match; subst; [done|]|];
      (apply (IH (S k)); [lia|done|lia]).
Qed.

Lemma until_walk_spec l r k c w :
  until_walk l r k c = Ok w ->
  match w with
  | Some true => exists j, k <= j < k + c /\ r j = Ok true
  | Some false =>
      exists j, k <= j < k + c /\ l j = Ok false
                /\ forall x, k <= x <= j -> r x = Ok false
  | None => forall x, k <= x < k + c -> r x = Ok false
  end.
Proof.
  revert k. induction c as [|c IH]; simpl; intros k H; [inv_bind; intros; lia|].
  inv_bind. case_match; subst.
  - inv_bind. exists k. split; [lia|done].
  - inv_bind. case_match; subst.
    + specialize (IH (S k) H). destruct w as [[]|].
      * destruct IH as (j & ? & ?). exists j. split; [lia|done].
      * destruct IH as (j & ? & ? & Hr). exists j. split; [lia|]. split; [done|].
        intros x Hx. destruct (decide (x = k)) as [->|]; [done|]. apply Hr. lia.
      * intros x Hx. destruct (decide (x = k)) as [->|]; [done|]. apply IH. lia.
    + inv_bind. exists k. split; [lia|]. split; [done|].
      intros x Hx. assert (x = k) as -> by lia. done.
Qed.

(** ** [eval_at] decides [sat] *)

Lemma fmap_Ok (m : result exn bool) b :
  (negb <$> m) = Ok b -> m = Ok (negb b).
Proof. destruct m as [[]|]; simpl; intros; simplify_eq; done. Qed.

Lemma eval_at_sat m t i b :
  eval_at m t i = Ok b -> if b then sat m t i else ~ sat m t i.
Proof.
  revert i b. induction m as [v|lhs rhs v|a IHm|a IHm1 b IHm2|a IHm1 b IHm2|a IHm1 b IHm2|a IHm|a IHm|a IHm|a IHm1 b IHm2];
    simpl; intros i b0 H.
  - injection H as <-. destruct (String.eqb_spec v "true"); done.
  - destruct (t !! i) as [st|] eqn:E.
    + destruct b0; [by exists st|]. intros (st' & ? & Hst). unfold atom_true in Hst.
      congruence.
    + inv_bind. intros (? & ? & ?). congruence.
  - apply fmap_Ok, IHm in H. destruct b0; simpl in H; naive_solver.
  - inv_bind. apply IHm1 in H0. case_match; subst.
    + apply IHm2 in H. destruct b0; naive_solver.
    + inv_bind. naive_solver.
  - inv_bind. apply IHm1 in H0. case_match; subst.
    + inv_bind. by left.
    + apply IHm2 in H. destruct b0; [by right|naive_solver].
  - inv_bind. apply IHm1 in H0. case_match; subst.
    + apply IHm2 in H. destruct b0; naive_solver.
    + inv_bind. naive_solver.
  - destruct (Nat.leb_spec (length t) (i + 1)).
    + inv_bind. lia.
    + apply IHm in H. destruct b0; [done|naive_solver].
  - destruct b0.
    + intros j Hj. apply (IHm j true). eapply all_range_true; [done|lia].
    + intros HG. destruct (all_range_false _ _ _ H) as (j & Hj & Hf).
      apply (IHm j false Hf), HG. lia.
  - destruct b0.
    + destruct (any_range_true _ _ _ H) as (j & Hj & Hf).
      exists j. split; [lia|]. by apply (IHm j true).
    + intros (j & Hj & Hs). apply (IHm j false); [|done].
      eapply any_range_false; [done|lia].
  - destruct b0.
    + destruct (until_range_true _ _ _ _ _ (le_n i) H) as (k & Hk & Hb & Ha).
      exists k. split; [lia|]. split; [by apply (IHm2 k true)|].
      intros j Hj. by apply (IHm1 j true), Ha.
    + intros (k & Hk & Hb & Ha).
      destruct (until_range_false _ _ _ _ _ (le_n i) H k) as [Hf|(x & Hx & Hf)]; [lia| |].
      * by apply (IHm2 k false) in Hf.
      * apply (IHm1 x false) in Hf. by apply Hf, Ha.
Qed.

(** ** Soundness of the permanence classifier *)

Lemma lookup_ext (t ext : list step) i : i < length t -> (t ++ ext) !! i = t !! i.
Proof. intros. by apply lookup_app_l. Qed.

(** A position [j] of the analysis stands for the position [i] of an extended
    trace when they coincide, or when [j] is past the observed end. *)
Definition stands_for (t : list step) (i j : nat) : Prop := j = i \/ length t <= j.

(** A later position is either observed and reached by the analysis itself, or
    represented by the fresh slot [max j n]. *)
Lemma stands_for_later t i j k :
  stands_for t i j -> i <= k ->
  (j <= k < length t) \/ stands_for t k (j `max` length t).
Proof. unfold stands_for. lia. Qed.

Lemma stands_for_refl t i : stands_for t i i.
Proof. by left. Qed.
#[local] Hint Resolve stands_for_refl : core.

Section Sound.
Context (t ext : list step).

(** What the classifier promises for one formula. *)
Definition sound_for (m : node) : Prop := forall i j,
  i < length (t ++ ext) -> stands_for t i j ->
  (can_become_true m t j = Ok false -> ~ sat m (t ++ ext) i)
  /\ (can_become_false m t j = Ok false -> sat m (t ++ ext) i).

Lemma observed_in_ext k : k < length t -> k < length (t ++ ext).
Proof. rewrite length_app. lia. Qed.
#[local] Hint Resolve observed_in_ext : core.

Lemma sound_atom lhs rhs v : sound_for (NAtom lhs rhs v).
Proof.
  intros i j Hi Hj. simpl.
  destruct (Nat.ltb_spec j (length t)) as [Hlt|]; [|done].
  destruct Hj as [->|]; [|lia]. rewrite lookup_ext by done.
  destruct (lookup_lt_is_Some_2 t i Hlt) as [st E]. rewrite E.
  split; intros H.
  - intros (st' & ? & Hst). unfold atom_true in Hst. congruence.
  - apply fmap_Ok in H. by exists st.
Qed.

Lemma sound_next a : sound_for a -> sound_for (NNext a).
Proof.
  intros IH i j Hi Hj. simpl. split.
  - intros H [Hn Hs].
    apply (IH (i + 1) (j + 1)); [done|unfold stands_for in *; lia|done|done].
  - destruct (Nat.leb_spec (length t) (j + 1)) as [|Hlt]; [done|]. intros H.
    destruct Hj as [->|]; [|lia]. split; [auto|]. by apply (IH (i + 1) (i + 1)); auto.
Qed.

Lemma sound_globally a : sound_for a -> sound_for (NGlobally a).
Proof.
  intros IH i j Hi Hj. simpl. split.
  - intros H HG. destruct (all_range_false _ _ _ H) as (k & Hk & Hf).
    destruct Hj as [->|]; [|lia].
    apply (IH k k); [apply observed_in_ext; lia|done|done|].
    apply HG. split; [lia|]. apply observed_in_ext; lia.
  - intros H k Hk. inv_bind. case_match; subst; [done|].
    destruct (stands_for_later t i j k Hj) as [?|Hfresh]; [lia| |].
    + apply (IH k k); [lia|done|]. eapply any_range_false; [done|lia].
    + by apply (IH k (j `max` length t)); [lia|..].
Qed.

Lemma sound_eventually a : sound_for a -> sound_for (NEventually a).
Proof.
  intros IH i j Hi Hj. simpl. split.
  - intros H (k & Hk & Hs). inv_bind. case_match; subst; [done|].
    destruct (stands_for_later t i j k Hj) as [?|Hfresh]; [lia| |].
    + apply (IH k k); [lia|done| |done]. eapply any_range_false; [done|lia].
    + by apply (IH k (j `max` length t)); [lia|..].
  - intros H. destruct (all_range_false _ _ _ H) as (k & Hk & Hf).
    destruct (decide (k < length t)).
    + destruct Hj as [->|]; [|lia]. exists k. split; [split; [lia|auto]|].
      by apply (IH k k); auto.
    + exists i. split; [lia|]. apply (IH i k); [done|right; lia|done].
Qed.

Lemma sound_until a b : sound_for a -> sound_for b -> sound_for (NUntil a b).
Proof.
  intros IHa IHb i j Hi Hj. simpl. split; [|done].
  intros H (k & Hk & Hb & Ha). inv_bind.
  match goal with Hw : until_walk _ _ _ _ = Ok ?w |- _ =>
    pose proof (until_walk_spec _ _ _ _ _ Hw) as Hspec; destruct w as [[]|] end;
    inv_bind; [done| |].
  - destruct Hspec as (x & Hx & Hl & Hr). destruct Hj as [->|]; [|lia].
    destruct (decide (k <= x)).
    + apply (IHb k k); [lia|done| |done]. apply Hr. lia.
    + apply (IHa x x); [apply observed_in_ext; lia|done|done|]. apply Ha. lia.
  - destruct (stands_for_later t i j k Hj) as [?|Hfresh]; [lia| |].
    + apply (IHb k k); [lia|done| |done]. apply Hspec. lia.
    + by apply (IHb k (j `max` length t)); [lia|..].
Qed.

Lemma can_become_sound m : sound_for m.
Proof.
  induction m as [v|lhs rhs v|a IHa|a IHa b IHb|a IHa b IHb|a IHa b IHb|a|a|a|a IHa b IHb];
    eauto using sound_atom, sound_next, sound_globally, sound_eventually, sound_until.
  { intros i j _ _. simpl. split; intros H; injection H as H.
    - by apply String.eqb_neq.
    - apply negb_false_iff in H. by apply String.eqb_eq. }
  all: intros i j Hi Hj; simpl; specialize (IHa i j Hi Hj).
  { naive_solver. }
  all: specialize (IHb i j Hi Hj); split; intros; inv_bind; case_match; subst; naive_solver.
Qed.
End Sound.

(** ** Totality: only an int beyond the float range raises *)

Definition in_float_range (t : list step) : Prop :=
  Forall (fun st => forall lhs z, atom_value st lhs = PInt z -> float_of_Z z <> None) t.

Lemma coerce_compare_total x op lit :
  (forall z, x = PInt z -> float_of_Z z <> None) ->
  exists b, coerce_compare x op lit = Ok b.
Proof.
  intros H. unfold coerce_compare, equal.
  assert (to_float x <> FOverflowError).
  { destruct x; simpl; try case_match; try done. by destruct (H z). }
  destruct x; repeat case_match; simpl; try by eauto; try done.
Qed.

Lemma until_range_total phi psi s k c :
  (forall j, exists b, phi j = Ok b) -> (forall j, exists b, psi j = Ok b) ->
  exists b, until_range phi psi s k c = Ok b.
Proof.
  intros Hphi Hpsi. revert k. induction c as [|c IH]; simpl; intros k; [eauto|].
  destruct (Hpsi k) as [[] ->]; simpl; [|done].
  destruct (range_total phi s (k - s) Hphi) as [[[] ->] _]; simpl; eauto.
Qed.

Lemma until_walk_total l r k c :
  (forall j, exists b, l j = Ok b) -> (forall j, exists b, r j = Ok b) ->
  exists w, until_walk l r k c = Ok w.
Proof.
  intros Hl Hr. revert k. induction c as [|c IH]; simpl; intros k; [eauto|].
  destruct (Hr k) as [[] ->]; simpl; [eauto|].
  destruct (Hl k) as [[] ->]; simpl; eauto.
Qed.

Lemma eval_at_total m t i :
  in_float_range t -> exists b, eval_at m t i = Ok b.
Proof.
  intros Ht. revert i.
  induction m as [v|lhs rhs v|a IHa|a IHa b IHb|a IHa b IHb|a IHa b IHb|a IHa|a IHa|a IHa|a IHa b IHb];
    simpl; intros i;
    try (destruct (IHa i) as [[] Ea]; rewrite ?Ea; simpl; eauto; fail).
  - eauto.
  - destruct (t !! i) as [st|] eqn:E; [|eauto].
    apply coerce_compare_total. by apply (Forall_lookup_1 _ _ _ _ Ht E).
  - case_match; eauto.
  - apply (range_total (eval_at a t)); auto.
  - apply (range_total (eval_at a t)); auto.
  - by apply until_range_total.
Qed.

Lemma can_become_total m t i :
  in_float_range t ->
  (exists b, can_become_true m t i = Ok b) /\ (exists b, can_become_false m t i = Ok b).
Proof.
  intros Ht. revert i.
  induction m as [v|lhs rhs v|a IHa|a IHa b IHb|a IHa b IHb|a IHa b IHb|a IHa|a IHa|a IHa|a IHa b IHb];
    intros i.
  - simpl. eauto.
  - destruct (eval_at_total (NAtom lhs rhs v) t i Ht) as [x E].
    cbn [can_become_true can_become_false]. rewrite E. case_match; simpl; eauto.
  - destruct (IHa i). done.
  - simpl. destruct (IHa i) as [[[] ->] [[] ->]], (IHb i); simpl; eauto.
  - simpl. destruct (IHa i) as [[[] ->] [[] ->]], (IHb i); simpl; eauto.
  - simpl. destruct (IHa i) as [[[] ->] [[] ->]], (IHb i); simpl; eauto.
  - simpl. destruct (IHa (i + 1)). case_match; eauto.
  - simpl. destruct (IHa (i `max` length t)) as [_ [y ->]].
    destruct (range_total (can_become_true a t) i (length t - i)
                (fun j => proj1 (IHa j))) as [? _].
    destruct (range_total (can_become_false a t) i (length t - i)
                (fun j => proj2 (IHa j))) as [_ [[] ->]]; simpl; eauto.
  - simpl. destruct (IHa (i `max` length t)) as [[y ->] _].
    destruct (range_total (can_become_false a t) i (length t + 1 - i)
                (fun j => proj2 (IHa j))) as [? _].
    destruct (range_total (can_become_true a t) i (length t - i)
                (fun j => proj1 (IHa j))) as [_ [[] ->]]; simpl; eauto.
  - simpl. split; [|eauto].
    destruct (until_walk_total (can_become_true a t) (can_become_true b t) i (length t - i)
                (fun j => proj1 (IHa j)) (fun j => proj1 (IHb j)))
      as [[w|] ->]; simpl; [eauto|apply IHb].
Qed.

(** ** The promises of the RV4 verdict *)

Lemma rv4_sound ast t ext :
  match evaluate_rv4_compiled ast t with
  | Ok PERMANENTLY_VIOLATED => ~ sat ast (t ++ ext) 0
  | Ok PERMANENTLY_SATISFIED => sat ast (t ++ ext) 0
  | Ok CURRENTLY_VIOLATED => ~ sat ast t 0
  | Ok CURRENTLY_SATISFIED => sat ast t 0
  | Err _ => True
  end.
Proof.
  unfold evaluate_rv4_compiled.
  destruct (eval_at ast t 0) as [b|] eqn:E; simpl; [|done].
  pose proof (eval_at_sat _ _ _ _ E) as Hsat.
  assert (0 < length (t ++ ext) \/ t ++ ext = t) as [Hpos|Heq].
  { destruct t as [|x t']; [destruct ext; simpl; auto with lia|simpl; auto with lia]. }
  - destruct (can_become_sound t ext ast 0 0 Hpos (stands_for_refl t 0)) as [Ht Hf].
    destruct b; [destruct (can_become_false ast t 0) as [[]|]
                |destruct (can_become_true ast t 0) as [[]|]]; simpl; auto.
  - rewrite Heq.
    destruct b; [destruct (can_become_false ast t 0) as [[]|]
                |destruct (can_become_true ast t 0) as [[]|]]; simpl; auto.
Qed.

(** C21.  A [PERMANENTLY_VIOLATED] verdict is a proof of impossibility: however
    the trace is extended, evaluating the formula on the extended trace never
    returns [True].  This is what entitles the structural floor to turn the
    verdict into a FORBID. *)
Theorem rv4_permanent_violation_sound formula t ext :
  evaluate_rv4 formula t = Ok PERMANENTLY_VIOLATED ->
  evaluate formula (t ++ ext) <> Ok true.
Proof.
  unfold evaluate_rv4, evaluate. intros H. inv_bind.
  match goal with Hp : parse formula = Ok ?a |- _ =>
    rewrite Hp; simpl; pose proof (rv4_sound a t ext) as Hs end.
  rewrite H in Hs. intros Ht. by apply eval_at_sat in Ht.
Qed.

(**  A [PERMANENTLY_SATISFIED] verdict cannot be undone: no extension of
    the trace makes the formula evaluate to [False]. *)
Theorem rv4_permanent_satisfaction_sound formula t ext :
  evaluate_rv4 formula t = Ok PERMANENTLY_SATISFIED ->
  evaluate formula (t ++ ext) <> Ok false.
Proof.
  unfold evaluate_rv4, evaluate. intros H. inv_bind.
  match goal with Hp : parse formula = Ok ?a |- _ =>
    rewrite Hp; simpl; pose proof (rv4_sound a t ext) as Hs end.
  rewrite H in Hs. intros Ht. by apply eval_at_sat in Ht.
Qed.

(** C22.  The evaluator implements the reference LTLf semantics: on a trace
    whose ints fit a float, a formula that parses always evaluates, and to
    [True] exactly when it is satisfied at position 0. *)
Theorem evaluate_refines_sat formula ast t :
  parse formula = Ok ast -> in_float_range t ->
  exists b, evaluate formula t = Ok b /\ (b = true <-> sat ast t 0).
Proof.
  intros Hp Ht. unfold evaluate. rewrite Hp. simpl.
  destruct (eval_at_total ast t 0 Ht) as [b E]. exists b. split; [done|].
  apply eval_at_sat in E. destruct b; naive_solver.
Qed.

(**  The four-valued classifier always answers on such a trace, and its
    answer projects to the two-valued evaluation: [is_satisfied] is exactly
    what [evaluate] returns. *)
Theorem rv4_total_and_consistent formula ast t :
  parse formula = Ok ast -> in_float_range t ->
  exists v, evaluate_rv4 formula t = Ok v /\ evaluate formula t = Ok (is_satisfied v).
Proof.
  intros Hp Ht. unfold evaluate_rv4, evaluate, evaluate_rv4_compiled. rewrite Hp. simpl.
  destruct (eval_at_total ast t 0 Ht) as [b ->].
  destruct (can_become_total ast t 0 Ht) as [[x ->] [y ->]].
  destruct b, x, y; simpl; eauto.
Qed.
End Atoms.

(** ** Witnesses *)
Definition call (name : string) : step := Step [] [("tool", PStr name)] [].
Definition str0 (_ : pyval) : string := "".

Lemma rv4_permanent_violation_sound_witness :
  evaluate str0 "G(tool=read)" ([call "read"; call "send"] ++ [call "read"]) <> Ok true.
Proof. apply rv4_permanent_violation_sound. vm_compute. reflexivity. Defined.

Lemma rv4_permanent_satisfaction_sound_witness :
  evaluate str0 "F(tool=approve)" ([call "approve"] ++ [call "send"]) <> Ok false.
Proof. apply rv4_permanent_satisfaction_sound. vm_compute. reflexivity. Defined.

Lemma walk_call_no_int d parts z :
  d = [] \/ (exists n, d = [("tool", PStr n)]) -> walk (PDict d) parts <> PInt z.
Proof.
  intros [->|[n ->]]; destruct parts as [|p [|q ps]]; simpl; try done;
    by destruct (String.eqb p "tool").
Qed.

Lemma call_in_float_range : in_float_range [call "send"; call "approve"].
Proof.
  assert (forall n lhs z, atom_value (call n) lhs <> PInt z) as H.
  { intros n lhs z. unfold atom_value. case_match; [done|]. case_match; [done|].
    destruct (PyStr.partition "." lhs) as [src key].
    repeat case_match; try done; apply walk_call_no_int; simpl; eauto. }
  repeat constructor; intros lhs z Hz; by apply H in Hz.
Qed.

Lemma evaluate_refines_sat_witness :
  exists b, evaluate str0 "F(tool=approve)" [call "send"; call "approve"] = Ok b
    /\ (b = true <-> sat str0 (NEventually (NAtom "tool" "=" "approve"))
                       [call "send"; call "approve"] 0).
Proof.
  apply evaluate_refines_sat; [vm_compute; reflexivity|apply call_in_float_range].
Defined.

Lemma rv4_total_and_consistent_witness :
  exists v, evaluate_rv4 str0 "X(tool=approve)" [call "send"; call "approve"] = Ok v
    /\ evaluate str0 "X(tool=approve)" [call "send"; call "approve"] = Ok (is_satisfied v).
Proof.
  eapply rv4_total_and_consistent; [vm_compute; reflexivity|apply call_in_float_range].
Defined.
End LtlfEval.
