(* ===== verification/LtlfParse.v ===== *)
(** * Path policies: the parser always answers, and parses back what is printed
    (theorems about [Ltlf.tokenize] and [Ltlf.parse]) *)
From S2P Require Import Prelude PyStr Parsing Ltlf.
Import Ltlf.
Open Scope string_scope.
Open Scope list_scope.
Open Scope nat_scope.

Module LtlfParse.

(** ** The tokenizer consumes its input *)

Lemma match_operator_shorter ops s op r :
  Forall (fun o => 0 < String.length o) ops ->
  match_operator ops s = Some (op, r) -> String.length r < String.length s.
Proof.
  induction ops as [|o ops IH]; simpl; intros Hops H; [done|].
  inversion Hops; subst. destruct (drop_prefix o s) eqn:E; [|by apply IH].
  simplify_eq. apply drop_prefix_length in E. lia.
Qed.

Lemma tokenize_step_shorter c rest ts r :
  tokenize_step c rest = Ok (ts, r) -> String.length r <= String.length rest.
Proof.
  unfold tokenize_step. destruct (isspace c); [intros; by simplify_eq|].
  destruct (match_operator token_operators (String c rest)) as [[op r']|] eqn:E.
  - intros; simplify_eq. apply match_operator_shorter in E; [simpl in E; lia|].
    repeat constructor; simpl; lia.
  - destruct (is_quote c).
    + destruct (span _ rest) as [v [|q r']] eqn:Es; [done|]. intros; simplify_eq.
      apply span_length in Es. simpl in Es. lia.
    + destruct (is_ident_char c) eqn:Ei; [|done].
      destruct (span is_ident_char (String c rest)) as [w r'] eqn:Es.
      intros; simplify_eq. simpl in Es. rewrite Ei in Es.
      destruct (span is_ident_char rest) as [w' r'] eqn:Es'. simplify_eq.
      apply span_length in Es'. lia.
Qed.

Lemma tokenize_step_err c rest e : tokenize_step c rest = Err e -> e = LtlfParseError.
Proof. unfold tokenize_step. repeat case_match; congruence. Qed.

Lemma tokenize_fuel fuel s e :
  String.length s <= fuel -> tokenize_loop fuel s = Err e -> e = LtlfParseError.
Proof.
  apply (scan_err (fun e => e = LtlfParseError) OutOfFuel tokenize_step
           tokenize_step_shorter tokenize_step_err).
Qed.

(** ** Fuel of the recursive descent *)

(** A production with enough fuel does not run out, and leaves fewer tokens
    than it was given. *)
Abbreviation consumes := (Parsing.consumes (fun e => e = LtlfParseError)).

Lemma parse_atom_consumes lhs ts : consumes false ts (parse_atom lhs ts).
Proof.
  unfold parse_atom. destruct ts as [|c [|v ts]]; repeat (case_match; simpl in *); try done; lia.
Qed.

Lemma peek_is_tail v ts : peek_is v ts = true -> length (tail ts) < length ts.
Proof. destruct ts; simpl; [done|lia]. Qed.
Lemma peek_kw_tail v ts : peek_kw v ts = true -> length (tail ts) < length ts.
Proof. destruct ts; simpl; [done|lia]. Qed.

Definition all_consume (fuel : nat) : Prop :=
  (forall ts, enough fuel 6 ts -> consumes true ts (parse_implies fuel ts))
  /\ (forall ts, enough fuel 5 ts -> consumes true ts (parse_or fuel ts))
  /\ (forall n ts, enough fuel 1 ts -> consumes false ts (parse_or_loop fuel n ts))
  /\ (forall ts, enough fuel 4 ts -> consumes true ts (parse_and fuel ts))
  /\ (forall n ts, enough fuel 1 ts -> consumes false ts (parse_and_loop fuel n ts))
  /\ (forall ts, enough fuel 3 ts -> consumes true ts (parse_until fuel ts))
  /\ (forall ts, enough fuel 2 ts -> consumes true ts (parse_unary fuel ts))
  /\ (forall ts, enough fuel 1 ts -> consumes true ts (parse_primary fuel ts)).

(** A lookahead test: the taken branch has a token to drop. *)
Ltac lookahead :=
  match goal with
  | |- context [peek_is ?v ?l] =>
      let E := fresh "E" in
      destruct (peek_is v l) eqn:E; [apply peek_is_tail in E|try measure]
  | |- context [peek_kw ?v ?l] =>
      let E := fresh "E" in
      destruct (peek_kw v l) eqn:E; [apply peek_kw_tail in E|try measure]
  end.

Lemma all_consume_step fuel : all_consume fuel -> all_consume (S fuel).
Proof.
  intros (Him & Hor & Horl & Han & Hanl & Hun & Hu & Hp). unfold all_consume.
  repeat match goal with |- _ /\ _ => split end; intros; simpl.
  - sub_call Hor. lookahead. sub_call Him. measure.
  - sub_call Han. last_call Horl.
  - lookahead. sub_call Han. last_call Horl.
  - sub_call Hun. last_call Hanl.
  - lookahead. sub_call Hun. last_call Hanl.
  - sub_call Hu. lookahead. sub_call Hun. measure.
  - destruct ts as [|tok rest]; [measure|].
    repeat case_match; try last_call Hp; (sub_call Hu; measure).
  - destruct ts as [|tok rest]; [measure|]. case_match.
    + sub_call Him. lookahead. measure.
    + case_match; [measure|]. case_match; [|done]. last_call parse_atom_consumes.
Qed.

Lemma parse_consumes fuel : all_consume fuel.
Proof.
  induction fuel as [|fuel IH]; [|by apply all_consume_step].
  unfold all_consume, enough. repeat split; lia.
Qed.

Lemma parse_err formula e : parse formula = Err e -> e = LtlfParseError.
Proof.
  unfold parse. case_match; [done|].
  destruct (tokenize formula) as [ts|e'] eqn:E; simpl.
  - assert (consumes true ts (parse_implies (parse_fuel_for (length ts)) ts)) as Hc.
    { apply parse_consumes. unfold enough, parse_fuel_for. lia. }
    destruct (parse_implies _ ts) as [[n [|]]|]; simpl in *; congruence.
  - apply tokenize_fuel in E; [congruence|done].
Qed.

(**  Parsing is total: on every input it returns a node or raises
    [LtlfParseError]; in particular the recursion bounds of the model are never
    reached. *)
Theorem parse_total formula :
  (exists m, parse formula = Ok m) \/ parse formula = Err LtlfParseError.
Proof.
  destruct (parse formula) as [m|e] eqn:E; [eauto|].
  right. by apply parse_err in E as ->.
Qed.

(** ** Printing, and parsing back *)

Definition kw (w : string) : token := Token Kkw w.
Definition op (w : string) : token := Token Kop w.
Definition at_ (w : string) : token := Token Katom w.

(** The fully parenthesised token sequence of a formula. *)
Fixpoint tokens_of (m : node) : list token :=
  match m with
  | NConst v => [kw v]
  | NAtom lhs rhs v => [at_ lhs; op rhs; at_ v]
  | NNot a => op "(" :: op "!" :: tokens_of a ++ [op ")"]
  | NAnd a b => op "(" :: tokens_of a ++ op "&" :: tokens_of b ++ [op ")"]
  | NOr a b => op "(" :: tokens_of a ++ op "|" :: tokens_of b ++ [op ")"]
  | NImplies a b => op "(" :: tokens_of a ++ op "->" :: tokens_of b ++ [op ")"]
  | NNext a => op "(" :: kw "X" :: tokens_of a ++ [op ")"]
  | NGlobally a => op "(" :: kw "G" :: tokens_of a ++ [op ")"]
  | NEventually a => op "(" :: kw "F" :: tokens_of a ++ [op ")"]
  | NUntil a b => op "(" :: tokens_of a ++ kw "U" :: tokens_of b ++ [op ")"]
  end.

Definition no_quote (s : string) : bool := negb (has_char double_quote s).

Fixpoint wf_node (m : node) : bool :=
  match m with
  | NConst v => String.eqb v "true" || String.eqb v "false"
  | NAtom lhs rhs v =>
      (has_char "." lhs || String.eqb lhs "tool") && no_quote lhs
      && mem rhs comparators && no_quote v
  | NNot a | NNext a | NGlobally a | NEventually a => wf_node a
  | NAnd a b | NOr a b | NImplies a b | NUntil a b => wf_node a && wf_node b
  end.

(** Fuel that is enough for [parse_primary] on the tokens of [m]. *)
Fixpoint need (m : node) : nat :=
  match m with
  | NConst _ | NAtom _ _ _ => 1
  | NNot a | NNext a | NGlobally a | NEventually a => 16 + need a
  | NAnd a b | NOr a b | NImplies a b | NUntil a b => 16 + need a + need b
  end.

Definition stops (r : list token) : Prop :=
  peek_is "->" r = false /\ peek_is "|" r = false /\ peek_is "&" r = false
  /\ peek_kw "U" r = false.

(** A token sequence that [parse_primary] turns into [m], whatever follows. *)
Definition primary (m : node) (l : list token) (k : nat) : Prop :=
  forall fuel rest, k <= fuel -> parse_primary fuel (l ++ rest) = Ok (m, rest).

(** ... and that [parse_unary] hands on to [parse_primary]. *)
Definition operand (l : list token) : Prop :=
  exists t l', l = t :: l' /\ value t <> "!"
    /\ (kind t = Kkw -> value t = "true" \/ value t = "false").

Section Levels.
Context (m : node) (l : list token) (k : nat).
Context (Hm : primary m l k) (Hl : operand l).

Lemma unary_of fuel rest : k < fuel -> parse_unary fuel (l ++ rest) = Ok (m, rest).
Proof.
  intros Hf. destruct fuel as [|fuel]; [lia|].
  destruct Hl as (t & l' & -> & Hbang & Hkw). simpl.
  destruct (String.eqb_spec (value t) "!"); [done|].
  assert (forall w, w = "G" \/ w = "F" \/ w = "X" ->
            bool_decide (kind t = Kkw) && String.eqb (value t) w = false) as Hno.
  { intros w Hw. apply andb_false_iff. destruct (decide (kind t = Kkw)) as [Hk|Hk].
    - right. apply String.eqb_neq. intros Heq.
      destruct (Hkw Hk), Hw as [|[|]]; congruence.
    - left. by apply bool_decide_eq_false. }
  rewrite !Hno by auto. apply (Hm fuel rest). lia.
Qed.

Lemma until_of fuel rest :
  k + 1 < fuel -> peek_kw "U" rest = false -> parse_until fuel (l ++ rest) = Ok (m, rest).
Proof.
  intros Hf Hs. destruct fuel as [|fuel]; [lia|]. simpl.
  rewrite unary_of by lia. simpl. by rewrite Hs.
Qed.

Lemma and_of fuel rest :
  k + 2 < fuel -> peek_kw "U" rest = false -> peek_is "&" rest = false ->
  parse_and fuel (l ++ rest) = Ok (m, rest).
Proof.
  intros Hf Hu Hs. destruct fuel as [|[|fuel]]; [lia..|].
  change (parse_and (S (S fuel)) (l ++ rest))
    with ('(n, ts) ← parse_until (S fuel) (l ++ rest); parse_and_loop (S fuel) n ts).
  rewrite until_of by (lia || done). simpl. by rewrite Hs.
Qed.

Lemma or_of fuel rest :
  k + 3 < fuel -> peek_kw "U" rest = false -> peek_is "&" rest = false ->
  peek_is "|" rest = false -> parse_or fuel (l ++ rest) = Ok (m, rest).
Proof.
  intros Hf Hu Ha Hs. destruct fuel as [|[|fuel]]; [lia..|].
  change (parse_or (S (S fuel)) (l ++ rest))
    with ('(n, ts) ← parse_and (S fuel) (l ++ rest); parse_or_loop (S fuel) n ts).
  rewrite and_of by (lia || done). simpl. by rewrite Hs.
Qed.

Lemma implies_of fuel rest :
  k + 4 < fuel -> stops rest -> parse_implies fuel (l ++ rest) = Ok (m, rest).
Proof.
  intros Hf (Hi & Ho & Ha & Hu). destruct fuel as [|fuel]; [lia|]. simpl.
  rewrite or_of by (lia || done). simpl. by rewrite Hi.
Qed.
End Levels.

Lemma operand_paren l : operand (op "(" :: l).
Proof. by exists (op "("), l. Qed.

(** A parenthesised body that [parse_implies] turns into [m]. *)
Definition body (m : node) (l : list token) (k : nat) : Prop :=
  forall fuel rest, k <= fuel ->
    parse_implies fuel (l ++ op ")" :: rest) = Ok (m, op ")" :: rest).

Lemma primary_paren m l k : body m l k -> primary m (op "(" :: l ++ [op ")"]) (S k).
Proof.
  intros Hb fuel rest Hf. destruct fuel as [|fuel]; [lia|]. simpl.
  rewrite <- app_assoc. simpl. by rewrite Hb by lia.
Qed.

Lemma parse_implies_S f ts :
  parse_implies (S f) ts =
  ('(l, ts) ← parse_or f ts;
   if peek_is "->" ts
   then '(r, ts) ← parse_implies f (tail ts); Ok (NImplies l r, ts)
   else Ok (l, ts)).
Proof. reflexivity. Qed.
Lemma parse_or_S f ts :
  parse_or (S f) ts = ('(n, ts) ← parse_and f ts; parse_or_loop f n ts).
Proof. reflexivity. Qed.
Lemma parse_or_loop_S f n ts :
  parse_or_loop (S f) n ts =
  (if peek_is "|" ts
   then '(rhs, ts) ← parse_and f (tail ts); parse_or_loop f (NOr n rhs) ts
   else Ok (n, ts)).
Proof. reflexivity. Qed.
Lemma parse_and_S f ts :
  parse_and (S f) ts = ('(n, ts) ← parse_until f ts; parse_and_loop f n ts).
Proof. reflexivity. Qed.
Lemma parse_and_loop_S f n ts :
  parse_and_loop (S f) n ts =
  (if peek_is "&" ts
   then '(rhs, ts) ← parse_until f (tail ts); parse_and_loop f (NAnd n rhs) ts
   else Ok (n, ts)).
Proof. reflexivity. Qed.
Lemma parse_until_S f ts :
  parse_until (S f) ts =
  ('(l, ts) ← parse_unary f ts;
   if peek_kw "U" ts
   then '(r, ts) ← parse_until f (tail ts); Ok (NUntil l r, ts)
   else Ok (l, ts)).
Proof. reflexivity. Qed.

#[local] Arguments parse_implies : simpl never.
#[local] Arguments parse_or : simpl never.
#[local] Arguments parse_or_loop : simpl never.
#[local] Arguments parse_and : simpl never.
#[local] Arguments parse_and_loop : simpl never.
#[local] Arguments parse_until : simpl never.
#[local] Arguments parse_unary : simpl never.

Tactic Notation "fuel_steps" integer(n) ident(fuel) :=
  do n (destruct fuel as [|fuel]; [lia|]).

(** A sub-parse that leaves a closing parenthesis falls through the levels
    above it. *)
Ltac close_levels :=
  simpl; repeat (first [rewrite parse_and_loop_S|rewrite parse_or_loop_S]; simpl); done.

Section Binary.
Context (a b : node) (la lb : list token) (ka kb : nat).
Context (Ha : primary a la ka) (Hla : operand la).
Context (Hb : primary b lb kb) (Hlb : operand lb).

Lemma body_and : body (NAnd a b) (la ++ op "&" :: lb) (12 + ka + kb).
Proof.
  intros fuel rest Hf. fuel_steps 7 fuel. rewrite <- app_assoc. cbn [app].
  rewrite parse_implies_S, parse_or_S, parse_and_S.
  rewrite (until_of a la ka Ha Hla) by (lia || done). simpl.
  rewrite parse_and_loop_S. simpl.
  rewrite (until_of b lb kb Hb Hlb) by (lia || done). close_levels.
Qed.

Lemma body_or : body (NOr a b) (la ++ op "|" :: lb) (12 + ka + kb).
Proof.
  intros fuel rest Hf. fuel_steps 7 fuel. rewrite <- app_assoc. cbn [app].
  rewrite parse_implies_S, parse_or_S.
  rewrite (and_of a la ka Ha Hla) by (lia || done). simpl.
  rewrite parse_or_loop_S. simpl.
  rewrite (and_of b lb kb Hb Hlb) by (lia || done). close_levels.
Qed.

Lemma body_implies : body (NImplies a b) (la ++ op "->" :: lb) (12 + ka + kb).
Proof.
  intros fuel rest Hf. fuel_steps 7 fuel. rewrite <- app_assoc. cbn [app].
  rewrite parse_implies_S.
  rewrite (or_of a la ka Ha Hla) by (lia || done). simpl.
  by rewrite (implies_of b lb kb Hb Hlb) by (lia || done).
Qed.

Lemma body_until : body (NUntil a b) (la ++ kw "U" :: lb) (12 + ka + kb).
Proof.
  intros fuel rest Hf. fuel_steps 8 fuel. rewrite <- app_assoc. cbn [app].
  rewrite parse_implies_S, parse_or_S, parse_and_S, parse_until_S.
  rewrite (unary_of a la ka Ha Hla) by (lia || done). simpl.
  rewrite (until_of b lb kb Hb Hlb) by (lia || done). close_levels.
Qed.

(** A unary operator: [parse_unary] consumes the operator and its operand. *)
Lemma body_unary (m : node) (t : token) :
  (forall fuel rest, ka < fuel -> parse_unary (S fuel) (t :: la ++ rest) = Ok (m, rest)) ->
  body m (t :: la) (12 + ka).
Proof.
  intros Hu fuel rest Hf. fuel_steps 8 fuel. cbn [app].
  rewrite parse_implies_S, parse_or_S, parse_and_S, parse_until_S.
  rewrite Hu by lia. close_levels.
Qed.

Lemma unary_S fuel tok rest :
  parse_unary (S fuel) (tok :: rest) =
  (if String.eqb (value tok) "!" then
     '(x, ts) ← parse_unary fuel rest; Ok (NNot x, ts)
   else if peek_kw "G" (tok :: rest) then
     '(x, ts) ← parse_unary fuel rest; Ok (NGlobally x, ts)
   else if peek_kw "F" (tok :: rest) then
     '(x, ts) ← parse_unary fuel rest; Ok (NEventually x, ts)
   else if peek_kw "X" (tok :: rest) then
     '(x, ts) ← parse_unary fuel rest; Ok (NNext x, ts)
   else parse_primary fuel (tok :: rest)).
Proof. reflexivity. Qed.

Ltac unary := apply body_unary; intros fuel rest Hf; rewrite unary_S; simpl;
  by rewrite (unary_of a la ka Ha Hla) by lia.
Lemma body_not : body (NNot a) (op "!" :: la) (12 + ka).
Proof. unary. Qed.
Lemma body_next : body (NNext a) (kw "X" :: la) (12 + ka).
Proof. unary. Qed.
Lemma body_globally : body (NGlobally a) (kw "G" :: la) (12 + ka).
Proof. unary. Qed.
Lemma body_eventually : body (NEventually a) (kw "F" :: la) (12 + ka).
Proof. unary. Qed.
End Binary.

Lemma primary_mono m l k k' : primary m l k -> k <= k' -> primary m l k'.
Proof. intros H Hk fuel rest Hf. apply H. lia. Qed.

Lemma tokens_of_operand m : wf_node m = true -> operand (tokens_of m).
Proof.
  destruct m; simpl; intros Hwf; try (by eexists _, _).
  - exists (kw v), []. apply orb_prop in Hwf as [Hv%String.eqb_eq|Hv%String.eqb_eq];
      subst; simpl; naive_solver.
  - exists (at_ lhs), [op rhs; at_ v]. simpl. split; [done|]. split; [|done].
    intros ->. simpl in Hwf. discriminate.
Qed.

Lemma atom_primary lhs rhs v :
  wf_node (NAtom lhs rhs v) = true -> primary (NAtom lhs rhs v) [at_ lhs; op rhs; at_ v] 1.
Proof.
  simpl. intros Hwf fuel rest Hf. destruct fuel as [|fuel]; [lia|].
  rewrite !andb_true_iff in Hwf. destruct Hwf as [[[Hl _] Hr] _].
  simpl. destruct (String.eqb_spec lhs "(") as [->|]; [done|].
  simpl. rewrite Hr. simpl.
  destruct (has_char "." lhs); simpl in *; [done|]. by rewrite Hl.
Qed.

Lemma paren_shape (x y : list token) t :
  op "(" :: x ++ t :: y ++ [op ")"] = op "(" :: (x ++ t :: y) ++ [op ")"].
Proof. by rewrite <- app_assoc. Qed.

#[local] Hint Resolve tokens_of_operand : core.

Lemma tokens_of_primary m : wf_node m = true -> primary m (tokens_of m) (need m).
Proof.
  induction m as [v|lhs rhs v|a IHa|a IHa b IHb|a IHa b IHb|a IHa b IHb|a IHa|a IHa|a IHa|a IHa b IHb];
    cbn [tokens_of need wf_node]; intros Hwf.
  - intros fuel rest Hf. destruct fuel as [|fuel]; [lia|].
    apply orb_prop in Hwf as [Hv%String.eqb_eq|Hv%String.eqb_eq]; by subst.
  - by apply atom_primary.
  - eapply primary_mono; [apply (primary_paren _ (_ :: _)), body_not; eauto|lia].
  - apply andb_prop in Hwf as [Hwa Hwb]. rewrite paren_shape.
    eapply primary_mono; [apply primary_paren, body_and; eauto|lia].
  - apply andb_prop in Hwf as [Hwa Hwb]. rewrite paren_shape.
    eapply primary_mono; [apply primary_paren, body_or; eauto|lia].
  - apply andb_prop in Hwf as [Hwa Hwb]. rewrite paren_shape.
    eapply primary_mono; [apply primary_paren, body_implies; eauto|lia].
  - eapply primary_mono; [apply (primary_paren _ (_ :: _)), body_next; eauto|lia].
  - eapply primary_mono; [apply (primary_paren _ (_ :: _)), body_globally; eauto|lia].
  - eapply primary_mono; [apply (primary_paren _ (_ :: _)), body_eventually; eauto|lia].
  - apply andb_prop in Hwf as [Hwa Hwb]. rewrite paren_shape.
    eapply primary_mono; [apply primary_paren, body_until; eauto|lia].
Qed.

Lemma need_bound m : need m + 5 <= parse_fuel_for (length (tokens_of m)).
Proof.
  unfold parse_fuel_for.
  induction m; cbn [need tokens_of]; simpl; rewrite ?length_app; simpl;
    rewrite ?length_app; simpl; lia.
Qed.

(** ** From tokens to text: one blank after each token, atoms quoted *)

Definition show_token (t : token) : string :=
  match kind t with
  | Katom => String double_quote (value t +:+ String double_quote " ")
  | _ => value t +:+ " "
  end.
Definition print_tokens (ts : list token) : string :=
  foldr (fun t s => show_token t +:+ s) "" ts.
Definition print (m : node) : string := print_tokens (tokens_of m).

Definition wf_token (t : token) : bool :=
  match kind t with
  | Katom => no_quote (value t)
  | Kop => mem (value t) token_operators
  | Kkw => mem (value t) token_keywords
  end.

Lemma mem_In w l : mem w l = true -> In w l.
Proof.
  unfold mem. intros H. apply existsb_exists in H as (x & Hx & Heq).
  apply String.eqb_eq in Heq. by subst.
Qed.

Lemma tokenize_loop_irrel f1 f2 s :
  String.length s <= f1 -> String.length s <= f2 ->
  tokenize_loop f1 s = tokenize_loop f2 s.
Proof.
  revert f2 s. induction f1 as [|f1 IH]; intros [|f2] [|c rest]; simpl; intros H1 H2;
    try done; try lia.
  destruct (tokenize_step c rest) as [[ts r]|e] eqn:E; simpl; [|done].
  apply tokenize_step_shorter in E. by rewrite (IH f2 r) by lia.
Qed.

Lemma tokenize_cons c rest :
  tokenize (String c rest) =
  ('(ts, r) ← tokenize_step c rest; ts' ← tokenize r; Ok (ts ++ ts')).
Proof.
  unfold tokenize at 1. cbn [String.length tokenize_loop].
  destruct (tokenize_step c rest) as [[ts r]|e] eqn:E; simpl; [|done].
  apply tokenize_step_shorter in E. unfold tokenize.
  by rewrite (tokenize_loop_irrel _ (String.length r)) by lia.
Qed.

Lemma tokenize_blank rest : tokenize (String " " rest) = tokenize rest.
Proof.
  rewrite tokenize_cons.
  change (tokenize_step " " rest) with (Ok (E := exn) ([] : list token, rest)). simpl.
  by destruct (tokenize rest).
Qed.

Lemma no_char_all q v :
  has_char q v = false -> str_all (fun d => negb (Ascii.eqb d q)) v = true.
Proof.
  unfold has_char. induction v as [|c v IH]; simpl; [done|].
  rewrite (Ascii.eqb_sym c q). intros [-> H]%orb_false_iff. auto.
Qed.

(** A concrete operator or keyword is scanned by computation. *)
Ltac scan_word rest :=
  match goal with
  | |- (?st ≫= _) = (_ ≫= fun ts => Ok (?t :: ts)) =>
      replace st with (Ok (E := exn) ([t], String " " rest)) by reflexivity
  end;
  cbn -[tokenize]; rewrite tokenize_blank; by destruct (tokenize rest).

(** One token and its blank are scanned as that token. *)
Lemma tokenize_token t rest :
  wf_token t = true ->
  tokenize (show_token t +:+ rest) = (ts ← tokenize rest; Ok (t :: ts)).
Proof.
  intros Hwf. destruct t as [[] v]; unfold show_token, wf_token in *; cbn [kind value] in *.
  - rewrite str_app_cons, tokenize_cons, str_app_assoc.
    change (String double_quote " " +:+ rest) with (String double_quote (String " " rest)).
    unfold tokenize_step.
    replace (isspace double_quote) with false by reflexivity.
    replace (match_operator token_operators _) with (@None (string * string)) by reflexivity.
    replace (is_quote double_quote) with true by reflexivity.
    rewrite span_word; [|clear -Hwf|reflexivity].
    + simpl. rewrite tokenize_blank. by destruct (tokenize rest).
    + apply no_char_all. by apply negb_true_iff.
  - apply mem_In in Hwf. rewrite str_app_assoc. simpl in Hwf.
    repeat destruct Hwf as [<-|Hwf]; try done;
      rewrite !str_app_cons, !str_app_nil, tokenize_cons;
      scan_word rest.
  - apply mem_In in Hwf. rewrite str_app_assoc. simpl in Hwf.
    repeat destruct Hwf as [<-|Hwf]; try done;
      rewrite !str_app_cons, !str_app_nil, tokenize_cons;
      scan_word rest.
Qed.

Lemma tokenize_print ts :
  forallb wf_token ts = true -> tokenize (print_tokens ts) = Ok ts.
Proof.
  induction ts as [|t ts IH]; simpl; intros H; [done|].
  apply andb_prop in H as [Ht Hts]. by rewrite tokenize_token, IH.
Qed.

Lemma wf_tokens_of m : wf_node m = true -> forallb wf_token (tokens_of m) = true.
Proof.
  induction m; cbn [wf_node tokens_of]; intros Hwf; rewrite ?andb_true_iff in Hwf;
    cbn [forallb]; rewrite ?forallb_app; cbn [forallb]; rewrite ?forallb_app; cbn [forallb];
    rewrite ?andb_true_iff; try (by repeat split; auto; naive_solver).
  - apply orb_prop in Hwf as [Hv%String.eqb_eq|Hv%String.eqb_eq]; by subst.
  - destruct Hwf as [[[_ Hl] Hr] Hv]. repeat split; try done.
    apply mem_In in Hr. simpl in Hr. cbn [wf_token kind value op].
    repeat destruct Hr as [<-|Hr]; done.
Qed.

Lemma rstrip_blank s : rstrip s = "" -> tokenize s = Ok [].
Proof.
  induction s as [|c s IH]; [done|]. simpl. intros H.
  destruct (rstrip s) eqn:E; [|done]. destruct (isspace c) eqn:Ec; [|done].
  rewrite tokenize_cons. unfold tokenize_step. rewrite Ec. simpl. by rewrite IH.
Qed.

Lemma lstrip_nil s : lstrip s = "" -> str_all isspace s = true.
Proof. induction s as [|c s IH]; simpl; [done|]. destruct (isspace c); [auto|done]. Qed.

Lemma rstrip_all s : str_all isspace (rstrip s) = true -> rstrip s = "".
Proof.
  induction s as [|c s IH]; [done|]. simpl.
  destruct (rstrip s) as [|d r] eqn:E.
  - destruct (isspace c) eqn:Ec; [done|]. simpl. by rewrite Ec.
  - intros H. simpl in H. apply andb_prop in H as [_ H].
    specialize (IH H). done.
Qed.

Lemma strip_blank_tokens s : strip s = "" -> tokenize s = Ok [].
Proof. intros H. by apply rstrip_blank, rstrip_all, lstrip_nil. Qed.

(**  The parser inverts the printer: any formula over well-formed atoms,
    printed with full parentheses and quoted atoms, parses back to itself.  So
    every formula is expressible, and the precedences never regroup a
    parenthesised one. *)
Theorem parse_print m : wf_node m = true -> parse (print m) = Ok m.
Proof.
  intros Hwf. unfold parse, print.
  assert (tokenize (print_tokens (tokens_of m)) = Ok (tokens_of m)) as Ht
    by (apply tokenize_print; by apply wf_tokens_of).
  assert (String.eqb (strip (print_tokens (tokens_of m))) "" = false) as Hs.
  { apply String.eqb_neq. intros Hblank.
    pose proof (strip_blank_tokens _ Hblank) as Hb. rewrite Ht in Hb.
    destruct (tokens_of_operand m Hwf) as (t & l & Hl & _). rewrite Hl in Hb. done. }
  rewrite Hs, orb_false_r.
  destruct (String.eqb_spec (print_tokens (tokens_of m)) "") as [Hnil|_].
  { rewrite Hnil in Hs. done. }
  rewrite Ht. simpl.
  pose proof (implies_of m (tokens_of m) (need m) (tokens_of_primary m Hwf)
                (tokens_of_operand m Hwf) (parse_fuel_for (length (tokens_of m))) []) as Hi.
  rewrite app_nil_r in Hi. rewrite Hi; [done|pose proof (need_bound m); lia|done].
Qed.

Lemma parse_print_witness :
  parse (print (NGlobally (NImplies (NAtom "tool" "=" "send mail")
                             (NUntil (NConst "true") (NAtom "obs.ok" "!=" "no")))))
  = Ok (NGlobally (NImplies (NAtom "tool" "=" "send mail")
                             (NUntil (NConst "true") (NAtom "obs.ok" "!=" "no")))).
Proof. apply parse_print. reflexivity. Defined.
End LtlfParse.
