(* ===== verification/PathChecker.v ===== *)
(** * Path policies: the runtime checker
    ([governance/path_policy/checker.py] and [policy.py])

    The checker keeps a sliding window of completed steps and evaluates a
    candidate action, appended to the window, against its policies.  Telemetry
    events carry no state and are left out. *)
From Stdlib Require Import SpecFloat.
From S2P Require Import Prelude PyStr PyFloat PyVal Ltlf LtlfEval LtlfParse.
Import Ltlf LtlfEval LtlfParse.
Open Scope string_scope.
Open Scope list_scope.
Open Scope nat_scope.

Module PathChecker.

Inductive severity := block | warn | audit.
#[global] Instance severity_eq_dec : EqDecision severity.
Proof. solve_decision. Defined.

Record PathPolicy := {
  policy_id : string;
  description : string;
  ltl_formula : string;
  p_severity : severity;
}.

(** What a policy callable does: a number (a bool is an int), some other
    object, or an exception. *)
Inductive raw := RFloat (f : float) | RInt (z : Z) | ROther | RRaise.

Record CallablePolicy := {
  c_policy_id : string;
  c_description : string;
  fn : string -> list step -> pydict -> pydict -> raw;
  c_severity : severity;
  requires_path : bool;
}.

(** An entry of [_compiled]: no formula, a malformed one, or its AST. *)
Inductive compiled := CNone | CInvalid | CAst (ast : node).

Record checker := {
  policies : list PathPolicy;
  callable_policies : list CallablePolicy;
  window_size : nat;
  agent_id : string;
  shared_state : pydict;
  history : list step;
  compiled_of : gmap string compiled;
  last_violation_score : float;
}.

Inductive error := ValueError | Eval (e : exn).

Definition compile_policy (p : PathPolicy) : result error compiled :=
  if String.eqb (ltl_formula p) "" then Ok CNone
  else match compile_formula (ltl_formula p) with
  | Ok ast => Ok (CAst ast)
  | Err LtlfParseError => Ok CInvalid
  | Err e => Err (Eval e)
  end.

Fixpoint compile_all (ps : list PathPolicy) (m : gmap string compiled)
    : result error (gmap string compiled) :=
  match ps with
  | [] => Ok m
  | p :: ps => c ← compile_policy p; compile_all ps (<[policy_id p := c]> m)
  end.

(** The constructor. *)
Definition init (ps : list PathPolicy) (cps : list CallablePolicy)
    (window : Z) (agent : string) (shared : pydict) : result error checker :=
  if (window <=? 0)%Z then Err ValueError
  else
    m ← compile_all ps ∅;
    Ok {| policies := ps; callable_policies := cps; window_size := Z.to_nat window;
          agent_id := agent; shared_state := shared; history := [];
          compiled_of := m; last_violation_score := f_zero |}.

(** [deque(maxlen=n).append]: the oldest element leaves a full window. *)
Definition deque_append {A} (maxlen : nat) (q : list A) (x : A) : list A :=
  drop (length q + 1 - maxlen) (q ++ [x]).

Definition with_history (h : list step) (c : checker) : checker :=
  {| policies := policies c; callable_policies := callable_policies c;
     window_size := window_size c; agent_id := agent_id c;
     shared_state := shared_state c; history := h; compiled_of := compiled_of c;
     last_violation_score := last_violation_score c |}.
Definition with_shared (d : pydict) (c : checker) : checker :=
  {| policies := policies c; callable_policies := callable_policies c;
     window_size := window_size c; agent_id := agent_id c;
     shared_state := d; history := history c; compiled_of := compiled_of c;
     last_violation_score := last_violation_score c |}.
Definition with_score (v : float) (c : checker) : checker :=
  {| policies := policies c; callable_policies := callable_policies c;
     window_size := window_size c; agent_id := agent_id c;
     shared_state := shared_state c; history := history c; compiled_of := compiled_of c;
     last_violation_score := v |}.

Definition record (st act obs : pydict) (c : checker) : checker :=
  with_history (deque_append (window_size c) (history c) (Step st act obs)) c.

(** [d[k] = v] *)
Fixpoint dict_set (k : string) (v : pyval) (d : pydict) : pydict :=
  match d with
  | [] => [(k, v)]
  | (k', v') :: d' => if String.eqb k k' then (k, v) :: d' else (k', v') :: dict_set k v d'
  end.

Definition update_shared_state (fields : pydict) (c : checker) : checker :=
  with_shared (fold_left (fun d kv => dict_set (fst kv) (snd kv) d) fields (shared_state c)) c.

(** [_clamp_violation]; the only exception is [float()] of a huge int. *)
Definition clamp_violation (r : raw) : result error float :=
  match r with
  | ROther | RRaise => Ok f_one
  | RFloat v =>
      Ok (if fltb v f_zero then f_zero else if fltb f_one v then f_one else v)
  | RInt z =>
      match float_of_Z z with
      | None => Err (Eval OverflowError)
      | Some v => Ok (if fltb v f_zero then f_zero else if fltb f_one v then f_one else v)
      end
  end.

(** [_compose_violation_score] *)
Definition compose_violation_score (probs : list float) : float :=
  let product := fold_left (fun acc p => fmul acc (fsub f_one p)) probs f_one in
  let v := fsub f_one product in
  if fltb v f_zero then f_zero else if fltb f_one v then f_one else v.

(** What the two policy loops of [check] accumulate. *)
Record verdicts := { ids : list string; probs : list float; any_block : bool }.
Definition no_verdict : verdicts := {| ids := []; probs := []; any_block := false |}.

Definition add_verdict (id : string) (sev : severity) (pi_j : float) (a : verdicts) : verdicts :=
  if fltb f_zero pi_j then
    {| ids := ids a ++ [id]; probs := probs a ++ [pi_j];
       any_block := any_block a || bool_decide (sev = block) |}
  else a.

Section Check.
Context (str_container : pyval -> string).

Definition ltlf_policy (m : gmap string compiled) (trace : list step)
    (p : PathPolicy) (a : verdicts) : result error verdicts :=
  match m !! policy_id p with
  | None | Some CNone => Ok a
  | Some CInvalid => Ok (add_verdict (policy_id p) (p_severity p) f_one a)
  | Some (CAst ast) =>
      match evaluate_compiled str_container ast trace with
      | Ok holds =>
          Ok (add_verdict (policy_id p) (p_severity p)
                (if (holds : bool) then f_zero else f_one) a)
      | Err e => Err (Eval e)
      end
  end.

Definition callable_policy (c : checker) (trace : list step) (action : pydict)
    (p : CallablePolicy) (a : verdicts) : result error verdicts :=
  pi_j ← match fn p (agent_id c) trace action (shared_state c) with
         | RRaise => Ok f_one
         | r => clamp_violation r
         end;
  Ok (add_verdict (c_policy_id p) (c_severity p) pi_j a).

Fixpoint run_policies {P} (f : P -> verdicts -> result error verdicts)
    (ps : list P) (a : verdicts) : result error verdicts :=
  match ps with
  | [] => Ok a
  | p :: ps => a ← f p a; run_policies f ps a
  end.

Definition candidate_trace (c : checker) (candidate_action : pydict) : list step :=
  history c ++ [Step [] candidate_action []].

Definition check (candidate_action : pydict) (c : checker)
    : result error (checker * (bool * list string)) :=
  let trace := candidate_trace c candidate_action in
  a ← run_policies (ltlf_policy (compiled_of c) trace) (policies c) no_verdict;
  a ← run_policies (callable_policy c trace candidate_action) (callable_policies c) a;
  let v_i := compose_violation_score (probs a) in
  Ok (with_score v_i c, (negb (any_block a), ids a)).


(** ** Reachable checkers

    [reachable c log]: [c] is a checker some client got from the constructor
    by recording the steps of [log], in that order, among checks and updates of
    the shared state. *)
Inductive reachable : checker -> list step -> Prop :=
| reach_init ps cps w ag sh c :
    init ps cps w ag sh = Ok c -> reachable c []
| reach_record c log st act obs :
    reachable c log -> reachable (record st act obs c) (log ++ [Step st act obs])
| reach_update c log fields :
    reachable c log -> reachable (update_shared_state fields c) log
| reach_check c log act c' r :
    reachable c log -> check act c = Ok (c', r) -> reachable c' log.

Lemma deque_append_window {A} w (log : list A) x :
  0 < w ->
  deque_append w (drop (length log - w) log) x = drop (length (log ++ [x]) - w) (log ++ [x]).
Proof.
  intros Hw. unfold deque_append. rewrite length_drop, length_app. simpl.
  destruct (decide (length log <= w)).
  - replace (length log - w) with 0 by lia. rewrite drop_0. f_equal. lia.
  - rewrite (drop_app_le log) by lia.
    replace (length log - (length log - w) + 1 - w) with 1 by lia.
    rewrite drop_app_le by (rewrite length_drop; lia).
    rewrite drop_drop. f_equal. f_equal. lia.
Qed.

(** What every reachable checker satisfies. *)
Definition inv (c : checker) (log : list step) : Prop :=
  0 < window_size c
  /\ history c = drop (length log - window_size c) log
  /\ compile_all (policies c) ∅ = Ok (compiled_of c).

Lemma reachable_inv c log : reachable c log -> inv c log.
Proof.
  unfold inv. induction 1 as [ps cps w ag sh c Hi|c log st act obs _ (Hw & Hh & Hc)
    |c log fields _ IH|c log act c' r _ IH Hk]; [| |done|].
  - unfold init in Hi. destruct (Z.leb_spec w 0); [done|]. inv_bind. simpl.
    split; [lia|]. done.
  - simpl. split; [done|]. split; [|done]. by rewrite Hh, deque_append_window.
  - unfold check in Hk. inv_bind. by simplify_eq/=.
Qed.

(**  The sliding window holds exactly the most recent steps: whatever
    sequence of calls led to the checker, its history is the suffix of length
    at most [window_size] of the steps recorded so far. *)
Theorem window_is_recent_suffix c log :
  reachable c log ->
  history c = drop (length log - window_size c) log
  /\ length (history c) = Nat.min (length log) (window_size c).
Proof.
  intros (Hw & Hh & _)%reachable_inv. split; [done|].
  rewrite Hh, length_drop. lia.
Qed.

(** ** What [check] decides *)

Definition violates_ltlf (t : list step) (p : PathPolicy) : Prop :=
  ltl_formula p <> "" /\
  match parse (ltl_formula p) with
  | Ok ast => ~ sat str_container ast t 0
  | Err _ => True
  end.

Definition callable_pi (c : checker) (t : list step) (act : pydict) (p : CallablePolicy)
    : result error float :=
  match fn p (agent_id c) t act (shared_state c) with
  | RRaise => Ok f_one
  | r => clamp_violation r
  end.
Definition violates_callable (c : checker) (t : list step) (act : pydict)
    (p : CallablePolicy) : Prop :=
  exists pi, callable_pi c t act p = Ok pi /\ fltb f_zero pi = true.

(** One policy either adds its verdict or leaves the accumulator alone. *)
Definition judged {P} (id : P -> string) (sev : P -> severity) (viol : P -> Prop)
    (f : P -> verdicts -> result error verdicts) (p : P) : Prop :=
  forall a a', f p a = Ok a' ->
    (viol p /\ ids a' = ids a ++ [id p]
       /\ any_block a' = any_block a || bool_decide (sev p = block))
    \/ (~ viol p /\ ids a' = ids a /\ any_block a' = any_block a).

Lemma exists_cons {P} (Q : P -> Prop) p ps :
  (exists x, x ∈ p :: ps /\ Q x) <-> Q p \/ exists x, x ∈ ps /\ Q x.
Proof.
  setoid_rewrite elem_of_cons. split.
  - intros (x & [->|Hx] & HQ); eauto.
  - intros [HQ|(x & Hx & HQ)]; eauto.
Qed.

Lemma run_policies_judged {P} id sev viol (f : P -> verdicts -> result error verdicts) ps a a' :
  Forall (judged id sev viol f) ps -> run_policies f ps a = Ok a' ->
  (any_block a' = true <->
     any_block a = true \/ exists p, p ∈ ps /\ sev p = block /\ viol p)
  /\ (forall i, i ∈ ids a' <-> i ∈ ids a \/ exists p, p ∈ ps /\ id p = i /\ viol p).
Proof.
  intros Hps. revert a. induction Hps as [|p ps Hp _ IH]; simpl; intros a H.
  - inv_bind. set_solver.
  - inv_bind. destruct (IH _ H) as [IHb IHi]. rewrite IHb. setoid_rewrite IHi.
    setoid_rewrite exists_cons.
    destruct (Hp _ _ H0) as [(Hv & -> & ->)|(Hv & -> & ->)].
    + setoid_rewrite elem_of_app. setoid_rewrite list_elem_of_singleton.
      rewrite orb_true_iff, bool_decide_eq_true.
      split; [tauto|]. intros i. assert (i = id p <-> id p = i) by done. tauto.
    + split; [tauto|]. intros i. tauto.
Qed.

Lemma add_verdict_judged id sev pi a :
  add_verdict id sev pi a = a /\ fltb f_zero pi = false
  \/ fltb f_zero pi = true /\ ids (add_verdict id sev pi a) = ids a ++ [id]
     /\ any_block (add_verdict id sev pi a) = any_block a || bool_decide (sev = block).
Proof. unfold add_verdict. case_match; auto. Qed.

Lemma add_verdict_zero id sev a : add_verdict id sev f_zero a = a.
Proof. reflexivity. Qed.
Lemma add_verdict_one id sev a :
  add_verdict id sev f_one a =
  {| ids := ids a ++ [id]; probs := probs a ++ [f_one];
     any_block := any_block a || bool_decide (sev = block) |}.
Proof. reflexivity. Qed.

Lemma compile_all_other ps m m' id :
  compile_all ps m = Ok m' -> id ∉ policy_id <$> ps -> m' !! id = m !! id.
Proof.
  revert m. induction ps as [|p ps IH]; simpl; intros m H Hid; inv_bind; [done|].
  rewrite (IH _ H) by set_solver. apply lookup_insert_ne. set_solver.
Qed.

Lemma compile_all_lookup ps m m' p :
  compile_all ps m = Ok m' -> NoDup (policy_id <$> ps) -> p ∈ ps ->
  exists c, compile_policy p = Ok c /\ m' !! policy_id p = Some c.
Proof.
  revert m. induction ps as [|q ps IH]; simpl; intros m H Hnd Hp; [set_solver|].
  inv_bind. inversion Hnd as [|? ? Hq Hnd']; subst.
  apply elem_of_cons in Hp as [->|Hp]; [|by eapply IH].
  eexists. split; [done|]. by rewrite (compile_all_other _ _ _ _ H Hq), lookup_insert_eq.
Qed.

Lemma ltlf_policy_judged c t p :
  compile_all (policies c) ∅ = Ok (compiled_of c) -> NoDup (policy_id <$> policies c) ->
  p ∈ policies c ->
  judged policy_id p_severity (violates_ltlf t) (ltlf_policy (compiled_of c) t) p.
Proof.
  intros Hc Hnd Hp a a' H. unfold ltlf_policy in H.
  destruct (compile_all_lookup _ _ _ _ Hc Hnd Hp) as (k & Hk & Hl). rewrite Hl in H.
  unfold compile_policy, compile_formula in Hk. unfold violates_ltlf.
  destruct (String.eqb_spec (ltl_formula p) "") as [->|Hne].
  { injection Hk as <-. inv_bind. right. naive_solver. }
  destruct (parse (ltl_formula p)) as [ast|e] eqn:Hparse.
  - injection Hk as <-. destruct (evaluate_compiled str_container ast t) as [b|] eqn:Hev; [|done].
    apply eval_at_sat in Hev. inv_bind.
    destruct b; rewrite ?add_verdict_zero, ?add_verdict_one; [right|left]; tauto.
  - apply parse_err in Hparse as ->. injection Hk as <-. inv_bind. left.
    by rewrite add_verdict_one.
Qed.

Lemma callable_policy_judged c t act p :
  judged c_policy_id c_severity (violates_callable c t act) (callable_policy c t act) p.
Proof.
  intros a a' H. unfold callable_policy in H. fold (callable_pi c t act p) in H.
  unfold violates_callable. inv_bind.
  destruct (add_verdict_judged (c_policy_id p) (c_severity p) x a)
    as [[-> Hz]|(Hz & Hi & Hb)]; [right|left].
  - split; [intros (pi & Hpi & Hlt); congruence|done].
  - split; [by exists x|done].
Qed.

Lemma check_spec c act c' allowed vids :
  compile_all (policies c) ∅ = Ok (compiled_of c) -> NoDup (policy_id <$> policies c) ->
  check act c = Ok (c', (allowed, vids)) ->
  let t := candidate_trace c act in
  (allowed = false <->
     (exists p, p ∈ policies c /\ p_severity p = block /\ violates_ltlf t p)
     \/ (exists p, p ∈ callable_policies c /\ c_severity p = block
                   /\ violates_callable c t act p))
  /\ (forall i, i ∈ vids <->
     (exists p, p ∈ policies c /\ policy_id p = i /\ violates_ltlf t p)
     \/ (exists p, p ∈ callable_policies c /\ c_policy_id p = i
                   /\ violates_callable c t act p)).
Proof.
  intros Hc Hnd H t. unfold check in H. inv_bind. simplify_eq.
  pose proof (fun p => ltlf_policy_judged c t p Hc Hnd) as Hj.
  destruct (run_policies_judged policy_id p_severity (violates_ltlf t)
    (ltlf_policy (compiled_of c) t) (policies c) no_verdict x) as [B1 I1];
    [apply list.Forall_forall; exact Hj|done|].
  destruct (run_policies_judged c_policy_id c_severity (violates_callable c t act)
    (callable_policy c t act) (callable_policies c) x x0) as [B2 I2];
    [apply Forall_forall; intros; apply callable_policy_judged|done|].
  split.
  - rewrite negb_false_iff, B2, B1. simpl. intuition discriminate.
  - intros i. rewrite I2, I1. simpl. rewrite elem_of_nil. tauto.
Qed.

(** ** The documented decision *)

Definition malformed (p : PathPolicy) : Prop :=
  ltl_formula p <> "" /\ exists e, parse (ltl_formula p) = Err e.
Definition unsatisfied (t : list step) (p : PathPolicy) : Prop :=
  ltl_formula p <> "" /\ exists ast, parse (ltl_formula p) = Ok ast /\ ~ sat str_container ast t 0.
Definition answer (c : checker) (t : list step) (act : pydict) (p : CallablePolicy) : raw :=
  fn p (agent_id c) t act (shared_state c).
(** A callable fails when it raises, answers no number (NaN included), or a positive one. *)
Definition fails (r : raw) : Prop :=
  match r with
  | RRaise | ROther => True
  | RFloat v => v = S754_nan \/ fltb f_zero v = true
  | RInt z => exists v, float_of_Z z = Some v /\ fltb f_zero v = true
  end.

Lemma violates_ltlf_split t p : violates_ltlf t p <-> malformed p \/ unsatisfied t p.
Proof.
  unfold violates_ltlf, malformed, unsatisfied. destruct (parse (ltl_formula p)); naive_solver.
Qed.
Lemma clamp_positive v :
  fltb f_zero (if fltb v f_zero then f_zero else if fltb f_one v then f_one else v) = fltb f_zero v.
Proof.
  destruct v as [[]|[]| |[] m e]; try reflexivity. destruct (fltb f_one _); reflexivity.
Qed.
Lemma violates_callable_iff c t act p pi :
  callable_pi c t act p = Ok pi -> answer c t act p <> RFloat S754_nan ->
  violates_callable c t act p <-> fails (answer c t act p).
Proof.
  unfold violates_callable, callable_pi, answer. destruct (fn p _ _ _ _) as [v|z| |]; simpl.
  - intros _ Hn. setoid_rewrite <- clamp_positive at 2. naive_solver.
  - destruct (float_of_Z z) as [v|]; [|done]. intros _ _. split.
    + intros (? & [= <-] & H). rewrite clamp_positive in H. by exists v.
    + intros (? & [= <-] & H). eexists. split; [done|]. by rewrite clamp_positive.
  - intros _ _. split; [done|]. intros _. by exists f_one.
  - intros _ _. split; [done|]. intros _. by exists f_one.
Qed.
Lemma run_callables_answer c t act ps a a' :
  run_policies (callable_policy c t act) ps a = Ok a' -> forall p, p ∈ ps -> exists pi, callable_pi c t act p = Ok pi.
Proof.
  revert a. induction ps as [|q ps IH]; intros a H p; [by intros ?%elem_of_nil|]. simpl in H. inv_bind.
  intros [->|Hp]%elem_of_cons; [|by eapply IH]. unfold callable_policy in H0. fold (callable_pi c t act q) in H0. inv_bind. eauto.
Qed.
Lemma check_callables c act c' r p :
  check act c = Ok (c', r) -> p ∈ callable_policies c -> answer c (candidate_trace c act) act p <> RFloat S754_nan ->
  violates_callable c (candidate_trace c act) act p <-> fails (answer c (candidate_trace c act) act p).
Proof.
  unfold check. intros H Hp Hn. inv_bind. destruct (run_callables_answer _ _ _ _ _ _ H1 p Hp) as [pi Hpi].
  by eapply violates_callable_iff.
Qed.

(** C23.  [check] enforces the policies as documented. If no two LTLf policies share
    an id ([duplicate_id_erases_policy] shows why), every malformed formula is declared
    with severity [block] (the comment of the constructor promises [block] for them; the
    code keeps the declared severity, [malformed_warning_allowed]) and no callable answers
    NaN (the score is then ignored, [nan_score_is_not_a_violation]), then a check that
    returns refuses the candidate exactly when, on the window extended with it, a formula
    is malformed, a [block] formula is not satisfied at position 0, or a [block] callable
    raises, answers no number, or a positive one; and the ids it returns are exactly those
    of the policies that fail so, whatever their severity. *)
Theorem check_enforces_policies c log act c' allowed vids :
  reachable c log -> NoDup (policy_id <$> policies c) ->
  (forall p, p ∈ policies c -> malformed p -> p_severity p = block) ->
  let t := candidate_trace c act in
  (forall p, p ∈ callable_policies c -> answer c t act p <> RFloat S754_nan) ->
  check act c = Ok (c', (allowed, vids)) ->
  (allowed = false <->
     (exists p, p ∈ policies c /\ (malformed p \/ p_severity p = block /\ unsatisfied t p))
     \/ (exists p, p ∈ callable_policies c /\ c_severity p = block /\ fails (answer c t act p)))
  /\ (forall i, i ∈ vids <->
     (exists p, p ∈ policies c /\ policy_id p = i /\ (malformed p \/ unsatisfied t p))
     \/ (exists p, p ∈ callable_policies c /\ c_policy_id p = i /\ fails (answer c t act p))).
Proof.
  intros (_ & _ & Hc)%reachable_inv Hnd Hm t Hn H. pose proof (fun p Hp => check_callables c act c' _ p H Hp (Hn p Hp)) as Hf.
  destruct (check_spec _ _ _ _ _ Hc Hnd H) as [Ha Hi]. fold t in Ha, Hi, Hf. split.
  - rewrite Ha. setoid_rewrite violates_ltlf_split. split; (intros [(p & Hp & Hv)|(p & Hp & Hv)]; [left|right]; exists p).
    + tauto. + by rewrite <- (Hf p Hp). + specialize (Hm p Hp). tauto. + by rewrite (Hf p Hp).
  - intros i. rewrite (Hi i). setoid_rewrite violates_ltlf_split.
    split; (intros [(p & Hp & Hv)|(p & Hp & Hv)]; [left|right]; exists p); [done| |done|]; by first [rewrite <- (Hf p Hp)|rewrite (Hf p Hp)].
Qed.

(** ** Where the code departs from its documentation *)

(**  Policies are compiled into a table keyed by [policy_id], so a later
    policy with the same id and no formula erases an earlier one: whatever
    formula the first one carries, and even at severity [block], every
    candidate action is allowed and nothing is reported. *)
Theorem duplicate_id_erases_policy id d1 d2 f sev1 sev2 w ag sh c act :
  init [{| policy_id := id; description := d1; ltl_formula := f; p_severity := sev1 |};
        {| policy_id := id; description := d2; ltl_formula := ""; p_severity := sev2 |}]
       [] w ag sh = Ok c ->
  exists c', check act c = Ok (c', (true, [])).
Proof.
  unfold init. case_match; [done|]. intros Hi. inv_bind. simplify_eq/=. inv_bind.
  unfold check, ltlf_policy. simpl. rewrite lookup_insert_eq. simpl. eauto.
Qed.

(**  A callable policy whose score is not a number is not counted as a
    violation, at any severity: NaN passes the clamp and fails the test
    [pi_j > 0.0], although every other failure of a callable counts as a full
    violation. *)
Theorem nan_score_is_not_a_violation c t act p :
  fn p (agent_id c) t act (shared_state c) = RFloat S754_nan ->
  ~ violates_callable c t act p.
Proof.
  intros Hfn (pi & Hpi & Hlt). unfold callable_pi in Hpi. rewrite Hfn in Hpi.
  vm_compute in Hpi. by simplify_eq.
Qed.
End Check.

(** ** Witnesses *)

Definition pol (id f : string) (sev : severity) : PathPolicy :=
  {| policy_id := id; description := ""; ltl_formula := f; p_severity := sev |}.
Definition approval_policy : PathPolicy :=
  pol "approval" "G(tool=send -> F(tool=approve))" block.
Definition the_checker (ps : list PathPolicy) : checker :=
  match init ps [] 2 "agent" [] with
  | Ok c => c
  | Err _ => {| policies := []; callable_policies := []; window_size := 0; agent_id := "";
                shared_state := []; history := []; compiled_of := ∅;
                last_violation_score := f_zero |}
  end.
Definition tool (n : string) : pydict := [("tool", PStr n)].

Lemma reachable_example :
  reachable str0 (record [] (tool "c") [] (record [] (tool "b") [] (record [] (tool "a") []
                   (the_checker [approval_policy]))))
    [Step [] (tool "a") []; Step [] (tool "b") []; Step [] (tool "c") []].
Proof.
  change [Step [] (tool "a") []; Step [] (tool "b") []; Step [] (tool "c") []]
    with ((([] ++ [Step [] (tool "a") []]) ++ [Step [] (tool "b") []]) ++ [Step [] (tool "c") []]).
  repeat apply reach_record.
  apply (reach_init str0 [approval_policy] [] 2 "agent" []). vm_compute. reflexivity.
Qed.

Lemma window_is_recent_suffix_witness :
  history (record [] (tool "c") [] (record [] (tool "b") [] (record [] (tool "a") []
             (the_checker [approval_policy]))))
  = [Step [] (tool "b") []; Step [] (tool "c") []].
Proof. apply (window_is_recent_suffix str0 _ _ reachable_example). Defined.

Lemma check_enforces_policies_witness :
  exists c' p, check str0 (tool "send") (the_checker [approval_policy]) = Ok (c', (false, ["approval"]))
    /\ p ∈ [approval_policy] /\ p_severity p = block
    /\ unsatisfied str0 [Step [] (tool "send") []] p.
Proof.
  destruct (check str0 (tool "send") (the_checker [approval_policy])) as [[c' [al ids]]|] eqn:E;
    [|by vm_compute in E].
  destruct (check_enforces_policies str0 (the_checker [approval_policy]) [] (tool "send") c' al ids)
    as [Hal Hids].
  - apply (reach_init str0 [approval_policy] [] 2 "agent" []). vm_compute. reflexivity.
  - vm_compute. repeat constructor. set_solver.
  - by intros p ->%list_elem_of_singleton _.
  - by intros p ?%elem_of_nil.
  - exact E.
  - assert (al = false /\ ids = ["approval"]) as [-> ->]
      by (vm_compute in E; split; congruence).
    destruct Hal as [Hal _]. destruct (Hal eq_refl) as [(p & Hp & [[_ [e Hv]]|[Hs Hv]])|(p & Hp & _)];
      [|by exists c', p|by apply elem_of_nil in Hp].
    apply list_elem_of_singleton in Hp as ->. vm_compute in Hv. discriminate Hv.
Defined.

Lemma duplicate_id_erases_policy_witness :
  exists c', check str0 (tool "send")
    (the_checker [approval_policy; pol "approval" "" audit]) = Ok (c', (true, [])).
Proof.
  eapply (duplicate_id_erases_policy str0 "approval" "" "" "G(tool=send -> F(tool=approve))"
            block audit 2 "agent" []).
  vm_compute. reflexivity.
Defined.

(** A malformed formula keeps the severity of its policy: declared [warn], it is
    reported and does not block. *)
Example malformed_warning_allowed :
  (fun r => r.2) <$> check str0 (tool "send") (the_checker [pol "broken" "G((" warn]) = Ok (true, ["broken"])
  /\ malformed (pol "broken" "G((" warn).
Proof. split; [vm_compute; reflexivity|]. split; [done|]. vm_compute. eauto. Qed.

Definition nan_policy : CallablePolicy :=
  {| c_policy_id := "nan"; c_description := ""; fn := fun _ _ _ _ => RFloat S754_nan;
     c_severity := block; requires_path := true |}.
Lemma nan_score_is_not_a_violation_witness :
  ~ violates_callable (the_checker []) [] (tool "send") nan_policy.
Proof. apply nan_score_is_not_a_violation. reflexivity. Defined.
End PathChecker.
