(* ===== verification/ContractLtl.v ===== *)
(** * Behavioural contracts: the propositional LTLf engine
    ([tex/contracts/_ltl.py])

    Tokenizer, recursive-descent parser, finite-trace evaluator and the
    four-valued verdict of the contracts layer.  Atoms are opaque strings given
    a truth value by a resolver, which may raise: [resolver atom state]. *)
From S2P Require Import Prelude PyLoop PyStr.
Open Scope string_scope.
Open Scope list_scope.
Open Scope nat_scope.

Module ContractLtl.

(** [LTLParseError] is what the module raises itself.  [ValueError] comes from
    [int()] on a run that is all digits but not all decimal ones, and from the
    position guards; [AtomError] carries whatever a callback raises. *)
Inductive exn :=
| LTLParseError | ValueError | KeyError | IndexError
| AtomError (msg : string)
| OutOfFuel.

#[global] Instance exn_eq_dec : EqDecision exn.
Proof. solve_decision. Defined.

Inductive RVVerdict :=
| PERMANENTLY_SATISFIED
| CURRENTLY_SATISFIED
| CURRENTLY_VIOLATED
| PERMANENTLY_VIOLATED.

Definition is_satisfied (v : RVVerdict) : bool :=
  match v with PERMANENTLY_SATISFIED | CURRENTLY_SATISFIED => true | _ => false end.
Definition is_permanent (v : RVVerdict) : bool :=
  match v with PERMANENTLY_SATISFIED | PERMANENTLY_VIOLATED => true | _ => false end.

(** ** Syntax *)

Inductive node :=
| Const (b : bool)
| Atom (name : string)
| Not (a : node)
| And (a b : node)
| Or (a b : node)
| Implies (a b : node)
| Next (a : node)
| WeakNext (a : node)
| Globally (a : node)
| Eventually (a : node)
| BoundedEventually (bound : Z) (a : node)
| Until (a b : node).

#[global] Instance node_eq_dec : EqDecision node.
Proof. solve_decision. Defined.

(** ** Tokenizer *)

Inductive tok :=
| LPAREN | RPAREN
| CONST (b : bool)
| NOT | AND | OR | IMPLIES
| NEXT | WEAK_NEXT | GLOBALLY | EVENTUALLY | UNTIL
| BOUNDED_EVENTUALLY (bound : Z)
| ATOM (word : string).

#[global] Instance tok_eq_dec : EqDecision tok.
Proof. solve_decision. Defined.

Definition is_atom_char (c : ascii) : bool :=
  in_range 97 122 c || in_range 65 90 c || in_range 48 57 c
  || has_char c "._:=<>!-/@~,".

(** [_KEYWORDS.get(word)] *)
Definition keyword (word : string) : option tok :=
  if String.eqb word "true" then Some (CONST true)
  else if String.eqb word "false" then Some (CONST false)
  else if String.eqb word "not" then Some NOT
  else if String.eqb word "and" then Some AND
  else if String.eqb word "or" then Some OR
  else if String.eqb word "implies" then Some IMPLIES
  else if String.eqb word "X" then Some NEXT
  else if String.eqb word "Xw" then Some WEAK_NEXT
  else if String.eqb word "G" then Some GLOBALLY
  else if String.eqb word "F" then Some EVENTUALLY
  else if String.eqb word "U" then Some UNTIL
  else None.

(** The text after [F<=]: the digits of the bound, then the rest. *)
Definition read_bound (s : string) : result exn (list tok * string) :=
  let '(digits, r) := span isdigit s in
  if String.eqb digits "" then Err LTLParseError
  else match int_of_digits digits with
       | Some bound => Ok ([BOUNDED_EVENTUALLY bound], r)
       | None => Err ValueError
       end.

(** A maximal run of atom characters: a keyword or an atom. *)
Definition read_word (s : string) : list tok * string :=
  let '(word, r) := span is_atom_char s in
  ([match keyword word with Some t => t | None => ATOM word end], r).

(** One turn of the [while] loop at the character [c] followed by [rest]. *)
Definition tokenize_step (c : ascii) (rest : string) : result exn (list tok * string) :=
  if isspace c then Ok ([], rest)
  else if Ascii.eqb c "(" then Ok ([LPAREN], rest)
  else if Ascii.eqb c ")" then Ok ([RPAREN], rest)
  else
    match drop_prefix "->" (String c rest) with
    | Some r => Ok ([IMPLIES], r)
    | None =>
        if startswith "F<" (String c rest) then
          match drop_prefix "F<=" (String c rest) with
          | Some r => read_bound r
          | None => Err LTLParseError
          end
        else if is_atom_char c then Ok (read_word (String c rest))
        else Err LTLParseError
    end.

Fixpoint tokenize_loop (fuel : nat) (s : string) : result exn (list tok) :=
  match s with
  | EmptyString => Ok []
  | String c rest =>
      match fuel with
      | 0 => Err OutOfFuel
      | S fuel =>
          '(ts, r) ← tokenize_step c rest;
          ts' ← tokenize_loop fuel r;
          Ok (ts ++ ts')
      end
  end.

Definition tokenize (formula : string) : result exn (list tok) :=
  tokenize_loop (String.length formula) formula.

(** ** Parser *)

(** [tok is not None and tok[0] == kind] for the kinds that carry no value. *)
Definition peek_is (k : tok) (ts : list tok) : bool :=
  match ts with t :: _ => bool_decide (t = k) | [] => false end.

(** The prefix operators of [_parse_unary]. *)
Definition unary_op (t : tok) : option (node -> node) :=
  match t with
  | NOT => Some Not
  | NEXT => Some Next
  | WEAK_NEXT => Some WeakNext
  | GLOBALLY => Some Globally
  | EVENTUALLY => Some Eventually
  | BOUNDED_EVENTUALLY bound => Some (BoundedEventually bound)
  | _ => None
  end.

Fixpoint parse_implies (fuel : nat) (ts : list tok) {struct fuel}
    : result exn (node * list tok) :=
  match fuel with
  | 0 => Err OutOfFuel
  | S fuel =>
      '(l, ts) ← parse_or fuel ts;
      if peek_is IMPLIES ts then
        '(r, ts) ← parse_implies fuel (tail ts);
        Ok (Implies l r, ts)
      else Ok (l, ts)
  end
with parse_or (fuel : nat) (ts : list tok) {struct fuel}
    : result exn (node * list tok) :=
  match fuel with
  | 0 => Err OutOfFuel
  | S fuel => '(n, ts) ← parse_and fuel ts; parse_or_loop fuel n ts
  end
with parse_or_loop (fuel : nat) (n : node) (ts : list tok) {struct fuel}
    : result exn (node * list tok) :=
  match fuel with
  | 0 => Err OutOfFuel
  | S fuel =>
      if peek_is OR ts then
        '(r, ts) ← parse_and fuel (tail ts);
        parse_or_loop fuel (Or n r) ts
      else Ok (n, ts)
  end
with parse_and (fuel : nat) (ts : list tok) {struct fuel}
    : result exn (node * list tok) :=
  match fuel with
  | 0 => Err OutOfFuel
  | S fuel => '(n, ts) ← parse_until fuel ts; parse_and_loop fuel n ts
  end
with parse_and_loop (fuel : nat) (n : node) (ts : list tok) {struct fuel}
    : result exn (node * list tok) :=
  match fuel with
  | 0 => Err OutOfFuel
  | S fuel =>
      if peek_is AND ts then
        '(r, ts) ← parse_until fuel (tail ts);
        parse_and_loop fuel (And n r) ts
      else Ok (n, ts)
  end
with parse_until (fuel : nat) (ts : list tok) {struct fuel}
    : result exn (node * list tok) :=
  match fuel with
  | 0 => Err OutOfFuel
  | S fuel => '(n, ts) ← parse_unary fuel ts; parse_until_loop fuel n ts
  end
with parse_until_loop (fuel : nat) (n : node) (ts : list tok) {struct fuel}
    : result exn (node * list tok) :=
  match fuel with
  | 0 => Err OutOfFuel
  | S fuel =>
      if peek_is UNTIL ts then
        '(r, ts) ← parse_unary fuel (tail ts);
        parse_until_loop fuel (Until n r) ts
      else Ok (n, ts)
  end
with parse_unary (fuel : nat) (ts : list tok) {struct fuel}
    : result exn (node * list tok) :=
  match fuel with
  | 0 => Err OutOfFuel
  | S fuel =>
      match ts with
      | [] => Err LTLParseError
      | t :: rest =>
          match unary_op t with
          | Some mk => '(a, ts) ← parse_unary fuel rest; Ok (mk a, ts)
          | None => parse_primary fuel ts
          end
      end
  end
with parse_primary (fuel : nat) (ts : list tok) {struct fuel}
    : result exn (node * list tok) :=
  match fuel with
  | 0 => Err OutOfFuel
  | S fuel =>
      match ts with
      | LPAREN :: rest =>
          '(inner, ts) ← parse_implies fuel rest;
          if peek_is RPAREN ts then Ok (inner, tail ts) else Err LTLParseError
      | CONST b :: rest => Ok (Const b, rest)
      | ATOM w :: rest => Ok (Atom w, rest)
      | _ => Err LTLParseError
      end
  end.

(** Each token is looked at by at most six productions before it is consumed. *)
Definition parse_fuel_for (n : nat) : nat := 8 * n + 8.

Definition parse_tokens (ts : list tok) : result exn node :=
  '(root, rest) ← parse_implies (parse_fuel_for (length ts)) ts;
  match rest with
  | [] => Ok root
  | _ => Err LTLParseError
  end.

Record LTLFormula := { source : string; ast : node }.

Definition parse (formula : string) : result exn LTLFormula :=
  if String.eqb formula "" || String.eqb (strip formula) "" then Err LTLParseError
  else
    tokens ← tokenize formula;
    match tokens with
    | [] => Err LTLParseError
    | _ => root ← parse_tokens tokens; Ok {| source := formula; ast := root |}
    end.

(** ** Evaluation *)

(** The loops of [G], [F] and [F<=k] are [all_range] and [any_range] of
    [PyLoop]; this is the loop of [U]. *)
Fixpoint until_range (l r : nat -> result exn bool) (j count : nat) : result exn bool :=
  match count with
  | 0 => Ok false
  | S count =>
      b ← r j;
      if b : bool then Ok true
      else b ← l j;
           if b : bool then until_range l r (S j) count else Ok false
  end.

Section Eval.
Context {St : Type} (resolver : string -> St -> result exn bool).

(** Number of positions of [range(pos, min(pos + bound, n - 1) + 1)]. *)
Definition window (pos n : nat) (bound : Z) : nat :=
  Z.to_nat (Z.min (Z.of_nat pos + bound) (Z.of_nat n - 1) + 1 - Z.of_nat pos).

Fixpoint eval_ltlf (m : node) (trace : list St) (pos : nat) : result exn bool :=
  let n := length trace in
  match m with
  | Const b => Ok b
  | Atom a =>
      match trace !! pos with
      | None => Ok false
      | Some st => resolver a st
      end
  | Not a => b ← eval_ltlf a trace pos; Ok (negb b)
  | And a b =>
      x ← eval_ltlf a trace pos; if x : bool then eval_ltlf b trace pos else Ok false
  | Or a b =>
      x ← eval_ltlf a trace pos; if x : bool then Ok true else eval_ltlf b trace pos
  | Implies a b =>
      x ← eval_ltlf a trace pos; if x : bool then eval_ltlf b trace pos else Ok true
  | Next a => if n <=? pos + 1 then Ok false else eval_ltlf a trace (pos + 1)
  | WeakNext a => if n <=? pos + 1 then Ok true else eval_ltlf a trace (pos + 1)
  | Globally a => all_range (eval_ltlf a trace) pos (n - pos)
  | Eventually a => any_range (eval_ltlf a trace) pos (n - pos)
  | BoundedEventually bound a => any_range (eval_ltlf a trace) pos (window pos n bound)
  | Until a b => until_range (eval_ltlf a trace) (eval_ltlf b trace) pos (n - pos)
  end.

Fixpoint is_definite (m : node) (trace : list St) (pos : nat) : bool :=
  let n := length trace in
  match m with
  | Const _ => true
  | Atom _ => pos <? n
  | Not a => is_definite a trace pos
  | And a b | Or a b | Implies a b => is_definite a trace pos && is_definite b trace pos
  | BoundedEventually bound _ => (Z.of_nat pos + bound <=? Z.of_nat n - 1)%Z
  | Globally _ => false
  | Next _ | WeakNext _ => true
  | Eventually _ | Until _ _ => false
  end.

Definition evaluate_finite (f : LTLFormula) (trace : list St) (position : Z)
    : result exn bool :=
  if (position <? 0)%Z then Err ValueError
  else if (Z.of_nat (length trace) <? position)%Z then Err ValueError
  else eval_ltlf (ast f) trace (Z.to_nat position).

(** The effective position: [len(trace) - 1] by default, never negative. *)
Definition eff_pos (trace : list St) (position : option Z) : nat :=
  match position with
  | None => length trace - 1
  | Some p => Z.to_nat p
  end.

Definition rv_verdict (f : LTLFormula) (trace : list St) (position : option Z)
    : result exn RVVerdict :=
  let p := eff_pos trace position in
  ok ← eval_ltlf (ast f) trace p;
  let permanent := is_definite (ast f) trace p in
  Ok (match ok : bool, permanent with
      | true, true => PERMANENTLY_SATISFIED
      | false, true => PERMANENTLY_VIOLATED
      | true, false => CURRENTLY_SATISFIED
      | false, false => CURRENTLY_VIOLATED
      end).
End Eval.

Example parse_contract_ex1 :
  ast <$> parse "G(field:kind==pii -> F<=3 recovered and not X done)"
  = Ok (Globally (Implies (Atom "field:kind==pii")
          (And (BoundedEventually 3 (Atom "recovered")) (Not (Next (Atom "done")))))).
Proof. vm_compute. reflexivity. Qed.
(** Without blanks around it the arrow is part of the atom. *)
Example parse_contract_ex2 : ast <$> parse "p->q" = Ok (Atom "p->q").
Proof. vm_compute. reflexivity. Qed.
Example parse_contract_ex3 :
  ast <$> parse "a -> b -> c U d U e"
  = Ok (Implies (Atom "a") (Implies (Atom "b") (Until (Until (Atom "c") (Atom "d")) (Atom "e")))).
Proof. vm_compute. reflexivity. Qed.
End ContractLtl.
