(* ===== verification/ContractLtlSem.v ===== *)
(** * Behavioural contracts: the evaluator meets the LTLf semantics, and when
    its verdicts are permanent
    (theorems about [ContractLtl.eval_ltlf] and [ContractLtl.rv_verdict]) *)
From S2P Require Import Prelude PyLoop PyStr ContractLtl.
Import ContractLtl.
Open Scope string_scope.
Open Scope list_scope.
Open Scope nat_scope.

Module ContractLtlSem.

(** The atoms a formula mentions. *)
Fixpoint atoms (m : node) : list string :=
  match m with
  | Const _ => []
  | Atom a => [a]
  | Not a | Next a | WeakNext a | Globally a | Eventually a | BoundedEventually _ a => atoms a
  | And a b | Or a b | Implies a b | Until a b => atoms a ++ atoms b
  end.

Section Semantics.
Context {St : Type} (resolver : string -> St -> result exn bool).

(** ** Reference semantics on finite traces *)
Fixpoint sat (m : node) (t : list St) (i : nat) : Prop :=
  match m with
  | Const b => b = true
  | Atom a => exists st, t !! i = Some st /\ resolver a st = Ok true
  | Not a => ~ sat a t i
  | And a b => sat a t i /\ sat b t i
  | Or a b => sat a t i \/ sat b t i
  | Implies a b => sat a t i -> sat b t i
  | Next a => i + 1 < length t /\ sat a t (i + 1)
  | WeakNext a => i + 1 < length t -> sat a t (i + 1)
  | Globally a => forall j, i <= j < length t -> sat a t j
  | Eventually a => exists j, i <= j < length t /\ sat a t j
  | BoundedEventually k a =>
      exists j, i <= j < length t /\ (Z.of_nat j <= Z.of_nat i + k)%Z /\ sat a t j
  | Until a b =>
      exists j, i <= j < length t /\ sat b t j /\ forall x, i <= x < j -> sat a t x
  end.

(** ** The until loop *)

Lemma until_range_Ok_true (l r : nat -> result exn bool) j c :
  until_range l r j c = Ok true ->
  exists k, j <= k < j + c /\ r k = Ok true /\ forall x, j <= x < k -> l x = Ok true.
Proof.
  revert j. induction c as [|c IH]; simpl; intros j H; [done|].
  inv_bind. case_match; subst.
  - exists j. split; [lia|]. split; [done|lia].
  - inv_bind. case_match; subst; [|done].
    destruct (IH (S j) H) as (k & ? & ? & Hl). exists k. split; [lia|]. split; [done|].
    intros x Hx. destruct (decide (x = j)) as [->|]; [done|]. apply Hl. lia.
Qed.

Lemma until_range_Ok_false (l r : nat -> result exn bool) j c :
  until_range l r j c = Ok false ->
  forall k, j <= k < j + c ->
    r k = Ok false \/ exists x, j <= x < k /\ l x = Ok false.
Proof.
  revert j. induction c as [|c IH]; simpl; intros j H k Hk; [lia|].
  inv_bind. case_match; subst; [done|]. inv_bind.
  destruct (decide (k = j)) as [->|]; [by left|]. case_match; subst.
  - destruct (IH (S j) H k) as [|(x & ? & ?)]; [lia|by left|].
    right. exists x. split; [lia|done].
  - right. exists j. split; [lia|done].
Qed.

Lemma until_range_err (l r : nat -> result exn bool) j c e :
  until_range l r j c = Err e ->
  exists k, j <= k < j + c /\ (l k = Err e \/ r k = Err e).
Proof.
  revert j. induction c as [|c IH]; simpl; intros j H; [done|].
  destruct (r j) as [[]|] eqn:Er; simpl in H; simplify_eq.
  - destruct (l j) as [[]|] eqn:El; simpl in H; simplify_eq.
    + destruct (IH (S j) H) as (k & ? & ?). exists k. split; [lia|done].
    + exists j. split; [lia|]. by left.
  - exists j. split; [lia|]. by right.
Qed.

Lemma window_spec i n k j :
  i <= j < i + window i n k <-> i <= j < n /\ (Z.of_nat j <= Z.of_nat i + k)%Z.
Proof. unfold window. lia. Qed.

(** ** [eval_ltlf] decides [sat] *)

Lemma eval_ltlf_sat m t i b :
  eval_ltlf resolver m t i = Ok b -> if b then sat m t i else ~ sat m t i.
Proof.
  revert i b.
  induction m as [c|a|a IHa|a IHa b IHb|a IHa b IHb|a IHa b IHb|a IHa|a IHa|a IHa|a IHa|k a IHa|a IHa b IHb];
    simpl; intros i b0 H.
  - injection H as <-. by destruct c.
  - destruct (t !! i) as [st|] eqn:E; [|inv_bind; intros (? & ? & _); congruence].
    destruct b0; [by exists st|]. intros (st' & ? & ?). congruence.
  - inv_bind. apply IHa in H0. destruct x; simpl in *; tauto.
  - inv_bind. apply IHa in H0. case_match; [apply IHb in H|inv_bind]; [destruct b0|]; tauto.
  - inv_bind. apply IHa in H0. case_match; [inv_bind|apply IHb in H; destruct b0]; tauto.
  - inv_bind. apply IHa in H0. case_match; [apply IHb in H; destruct b0|inv_bind]; tauto.
  - destruct (Nat.leb_spec (length t) (i + 1)); [inv_bind; lia|].
    apply IHa in H. destruct b0; tauto.
  - destruct (Nat.leb_spec (length t) (i + 1)); [inv_bind; lia|].
    apply IHa in H. destruct b0; tauto.
  - destruct b0.
    + intros j Hj. apply (IHa j true). eapply all_range_true; [done|lia].
    + intros HG. destruct (all_range_false _ _ _ H) as (j & Hj & Hf).
      apply (IHa j false Hf), HG. lia.
  - destruct b0.
    + destruct (any_range_true _ _ _ H) as (j & Hj & Hf).
      exists j. split; [lia|]. by apply (IHa j true).
    + intros (j & Hj & Hs). apply (IHa j false); [|done].
      eapply any_range_false; [done|lia].
  - destruct b0.
    + destruct (any_range_true _ _ _ H) as (j & Hj%window_spec & Hf).
      exists j. split; [tauto|]. split; [tauto|]. by apply (IHa j true).
    + intros (j & Hj & Hk & Hs). apply (IHa j false); [|done].
      eapply any_range_false; [done|]. by apply window_spec.
  - destruct b0.
    + destruct (until_range_Ok_true _ _ _ _ H) as (j & Hj & Hb & Ha).
      exists j. split; [lia|]. split; [by apply (IHb j true)|].
      intros x Hx. by apply (IHa x true), Ha.
    + intros (j & Hj & Hb & Ha).
      destruct (until_range_Ok_false _ _ _ _ H j) as [Hf|(x & Hx & Hf)]; [lia| |].
      * by apply (IHb j false) in Hf.
      * apply (IHa x false) in Hf. by apply Hf, Ha.
Qed.

(** An atom of [m], at a state of [t], on which the resolver raises [e]. *)
Definition culprit (m : node) (t : list St) (e : exn) : Prop :=
  exists a st, a ∈ atoms m /\ st ∈ t /\ resolver a st = Err e.

Lemma culprit_sub m m' t e :
  (forall a, a ∈ atoms m -> a ∈ atoms m') -> culprit m t e -> culprit m' t e.
Proof. intros Hsub (a & st & Ha & Hst & He). exists a, st. auto. Qed.

Lemma eval_ltlf_err m t i e : eval_ltlf resolver m t i = Err e -> culprit m t e.
Proof.
  revert i.
  induction m as [c|a|a IHa|a IHa b IHb|a IHa b IHb|a IHa b IHb|a IHa|a IHa|a IHa|a IHa|k a IHa|a IHa b IHb];
    simpl; intros i H;
    try (destruct (eval_ltlf resolver a t i) as [[]|] eqn:Ea; simpl in H; simplify_eq;
         [| |]; eauto using culprit_sub with set_solver; fail).
  - done.
  - destruct (t !! i) as [st|] eqn:E; [|done].
    exists a, st. split; [set_solver|]. split; [by eapply list_elem_of_lookup_2|done].
  - destruct (eval_ltlf resolver a t i) eqn:Ea; simpl in H; simplify_eq. eauto.
  - destruct (eval_ltlf resolver a t i) as [[]|] eqn:Ea; simpl in H; simplify_eq;
      [eapply (culprit_sub b)|eapply (culprit_sub a)]; eauto; set_solver.
  - destruct (eval_ltlf resolver a t i) as [[]|] eqn:Ea; simpl in H; simplify_eq;
      [eapply (culprit_sub b)|eapply (culprit_sub a)]; eauto; set_solver.
  - destruct (eval_ltlf resolver a t i) as [[]|] eqn:Ea; simpl in H; simplify_eq;
      [eapply (culprit_sub b)|eapply (culprit_sub a)]; eauto; set_solver.
  - case_match; [done|eauto].
  - case_match; [done|eauto].
  - destruct (all_range_err _ _ _ _ H) as (j & _ & Hj). eauto.
  - destruct (any_range_err _ _ _ _ H) as (j & _ & Hj). eauto.
  - destruct (any_range_err _ _ _ _ H) as (j & _ & Hj). eauto.
  - destruct (until_range_err _ _ _ _ _ H) as (j & _ & [Hj|Hj]);
      [eapply (culprit_sub a)|eapply (culprit_sub b)]; eauto; set_solver.
Qed.

(** C24.  [evaluate_finite] is correct on every branch: a position outside
    [0 .. len(trace)] raises [ValueError]; inside it, an answer is the truth
    value of the formula under the finite-trace semantics, and an exception is
    one the resolver raised on an atom of the formula at a state of the trace. *)
Theorem evaluate_finite_correct f t p :
  match evaluate_finite resolver f t p with
  | Ok b => (0 <= p <= Z.of_nat (length t))%Z /\ (b = true <-> sat (ast f) t (Z.to_nat p))
  | Err e => (~ (0 <= p <= Z.of_nat (length t))%Z /\ e = ValueError)
             \/ ((0 <= p <= Z.of_nat (length t))%Z /\ culprit (ast f) t e)
  end.
Proof.
  unfold evaluate_finite. destruct (Z.ltb_spec p 0); [left; split; [lia|done]|].
  destruct (Z.ltb_spec (Z.of_nat (length t)) p); [left; split; [lia|done]|].
  destruct (eval_ltlf resolver (ast f) t (Z.to_nat p)) as [b|e] eqn:E.
  - split; [lia|]. apply eval_ltlf_sat in E. destruct b; split; (done || tauto).
  - right. split; [lia|]. by eapply eval_ltlf_err.
Qed.

(** ** Permanence *)

(** No temporal operator: the value depends on the state at the position only. *)
Fixpoint state_formula (m : node) : bool :=
  match m with
  | Const _ | Atom _ => true
  | Not a => state_formula a
  | And a b | Or a b | Implies a b => state_formula a && state_formula b
  | _ => false
  end.

(** The formulas on which [is_definite] is right: no next operator outside an
    unbounded one, and [F<=k] applied to state formulas. *)
Fixpoint windowed (m : node) : bool :=
  match m with
  | Const _ | Atom _ => true
  | Not a => windowed a
  | And a b | Or a b | Implies a b => windowed a && windowed b
  | BoundedEventually _ a => state_formula a
  | Globally _ | Eventually _ | Until _ _ => true
  | Next _ | WeakNext _ => false
  end.

Lemma state_formula_stable m t ext i :
  state_formula m = true -> i < length t ->
  eval_ltlf resolver m (t ++ ext) i = eval_ltlf resolver m t i.
Proof.
  induction m; simpl; intros Hm Hi; try done.
  - by rewrite lookup_app_l.
  - by rewrite IHm.
  - apply andb_prop in Hm as [? ?]. by rewrite IHm1, IHm2.
  - apply andb_prop in Hm as [? ?]. by rewrite IHm1, IHm2.
  - apply andb_prop in Hm as [? ?]. by rewrite IHm1, IHm2.
Qed.

Lemma definite_stable m t ext i :
  windowed m = true -> is_definite m t i = true ->
  eval_ltlf resolver m (t ++ ext) i = eval_ltlf resolver m t i
  /\ is_definite m (t ++ ext) i = true.
Proof.
  induction m as [| | |a IHa b IHb|a IHa b IHb|a IHa b IHb| | | | |k a| ];
    simpl; intros Hm Hd; try done.
  - apply Nat.ltb_lt in Hd. rewrite length_app, Nat.ltb_lt.
    split; [by rewrite lookup_app_l|lia].
  - by destruct (IHm Hm Hd) as [-> ->].
  - apply andb_prop in Hm as [? ?], Hd as [? ?].
    by destruct (IHa ltac:(done) ltac:(done)) as [-> ->], (IHb ltac:(done) ltac:(done)) as [-> ->].
  - apply andb_prop in Hm as [? ?], Hd as [? ?].
    by destruct (IHa ltac:(done) ltac:(done)) as [-> ->], (IHb ltac:(done) ltac:(done)) as [-> ->].
  - apply andb_prop in Hm as [? ?], Hd as [? ?].
    by destruct (IHa ltac:(done) ltac:(done)) as [-> ->], (IHb ltac:(done) ltac:(done)) as [-> ->].
  - apply Z.leb_le in Hd. rewrite Z.leb_le, length_app. split; [|lia].
    replace (window i (length t + length ext) k) with (window i (length t) k)
      by (unfold window; lia).
    apply any_range_ext. intros j [Hj _]%window_spec.
    apply state_formula_stable; [done|lia].
Qed.

(**  On windowed formulas a permanent verdict is permanent: whatever
    states are appended, the verdict at the same position is unchanged, and the
    formula evaluates to the verdict's two-valued projection. *)
Theorem rv_permanent_sound f t ext p v :
  windowed (ast f) = true ->
  rv_verdict resolver f t p = Ok v -> is_permanent v = true ->
  rv_verdict resolver f (t ++ ext) (Some (Z.of_nat (eff_pos t p))) = Ok v
  /\ eval_ltlf resolver (ast f) (t ++ ext) (eff_pos t p) = Ok (is_satisfied v).
Proof.
  intros Hw H Hp. unfold rv_verdict in *. simpl. rewrite Nat2Z.id.
  destruct (is_definite (ast f) t (eff_pos t p)) eqn:Hd;
    [|inv_bind; by destruct x].
  destruct (definite_stable (ast f) t ext _ Hw Hd) as [-> ->].
  destruct (eval_ltlf resolver (ast f) t (eff_pos t p)) as [[]|]; simpl in *; by simplify_eq.
Qed.
End Semantics.

(** A two-letter vocabulary: the state is the list of the atoms that hold. *)
Definition holds_in (a : string) (st : list string) : result exn bool :=
  Ok (bool_decide (a ∈ st)).

Lemma rv_permanent_sound_witness :
  rv_verdict holds_in {| source := "F<=1 p"; ast := BoundedEventually 1 (Atom "p") |}
    [["q"]; ["p"]] (Some 0%Z) = Ok PERMANENTLY_SATISFIED
  /\ eval_ltlf holds_in (BoundedEventually 1 (Atom "p")) ([["q"]; ["p"]] ++ [["r"]]) 0 = Ok true.
Proof.
  split; [vm_compute; reflexivity|].
  apply (rv_permanent_sound holds_in
           {| source := "F<=1 p"; ast := BoundedEventually 1 (Atom "p") |}
           [["q"]; ["p"]] [["r"]] (Some 0%Z) PERMANENTLY_SATISFIED);
    vm_compute; reflexivity.
Defined.

(**  Outside the windowed formulas the permanence verdict can be wrong:
    [X p] at the last position is reported PERMANENTLY_VIOLATED, yet appending
    one state in which [p] holds makes it true at that position; dually the
    weak next is reported PERMANENTLY_SATISFIED and is then falsified. *)
Theorem next_permanence_unsound :
  exists f g t ext,
    parse "X p" = Ok f /\ parse "Xw p" = Ok g
    /\ rv_verdict holds_in f t None = Ok PERMANENTLY_VIOLATED
    /\ evaluate_finite holds_in f (t ++ ext) 0 = Ok true
    /\ rv_verdict holds_in g t None = Ok PERMANENTLY_SATISFIED
    /\ evaluate_finite holds_in g (t ++ [[]]) 0 = Ok false.
Proof.
  exists {| source := "X p"; ast := Next (Atom "p") |},
    {| source := "Xw p"; ast := WeakNext (Atom "p") |}, [[]], [["p"]].
  repeat split; vm_compute; reflexivity.
Qed.
End ContractLtlSem.
