(* ===== verification/ContractLtlGrammar.v ===== *)
(** * Behavioural contracts: the parser recognises exactly the documented
    grammar (theorems about [ContractLtl.tokenize] and [ContractLtl.parse]) *)
From S2P Require Import Prelude PyStr Parsing ContractLtl.
Import ContractLtl.
Open Scope string_scope.
Open Scope list_scope.
Open Scope nat_scope.

Module ContractLtlGrammar.

(** ** The grammar of [LTLFormula.parse]'s docstring, one level per production *)

Inductive level := LImplies | LOr | LAnd | LUntil | LUnary | LPrimary.

Inductive derives : level -> list tok -> node -> Prop :=
| d_or_up ts m : derives LOr ts m -> derives LImplies ts m
| d_implies ta a tb b :
    derives LOr ta a -> derives LImplies tb b ->
    derives LImplies (ta ++ IMPLIES :: tb) (Implies a b)
| d_and_up ts m : derives LAnd ts m -> derives LOr ts m
| d_or ta a tb b :
    derives LOr ta a -> derives LAnd tb b -> derives LOr (ta ++ OR :: tb) (Or a b)
| d_until_up ts m : derives LUntil ts m -> derives LAnd ts m
| d_and ta a tb b :
    derives LAnd ta a -> derives LUntil tb b -> derives LAnd (ta ++ AND :: tb) (And a b)
| d_unary_up ts m : derives LUnary ts m -> derives LUntil ts m
| d_until ta a tb b :
    derives LUntil ta a -> derives LUnary tb b ->
    derives LUntil (ta ++ UNTIL :: tb) (Until a b)
| d_unary t mk ts a :
    unary_op t = Some mk -> derives LUnary ts a -> derives LUnary (t :: ts) (mk a)
| d_primary_up ts m : derives LPrimary ts m -> derives LUnary ts m
| d_paren ts m : derives LImplies ts m -> derives LPrimary (LPAREN :: ts ++ [RPAREN]) m
| d_const b : derives LPrimary [CONST b] (Const b)
| d_atom w : derives LPrimary [ATOM w] (Atom w).

Create HintDb grammar.
#[local] Hint Constructors derives : grammar.

(** ** Soundness: what the productions accept is derivable *)

Definition accepts (l : level) (ts : list tok) (r : result exn (node * list tok)) : Prop :=
  forall m rest, r = Ok (m, rest) -> exists used, ts = used ++ rest /\ derives l used m.

(** A loop extends what has been read so far. *)
Definition extends (l : level) (n : node) (ts : list tok) (r : result exn (node * list tok)) : Prop :=
  forall m rest pre, r = Ok (m, rest) -> derives l pre n ->
    exists used, ts = used ++ rest /\ derives l (pre ++ used) m.

Definition all_accept (fuel : nat) : Prop :=
  (forall ts, accepts LImplies ts (parse_implies fuel ts))
  /\ (forall ts, accepts LOr ts (parse_or fuel ts))
  /\ (forall n ts, extends LOr n ts (parse_or_loop fuel n ts))
  /\ (forall ts, accepts LAnd ts (parse_and fuel ts))
  /\ (forall n ts, extends LAnd n ts (parse_and_loop fuel n ts))
  /\ (forall ts, accepts LUntil ts (parse_until fuel ts))
  /\ (forall n ts, extends LUntil n ts (parse_until_loop fuel n ts))
  /\ (forall ts, accepts LUnary ts (parse_unary fuel ts))
  /\ (forall ts, accepts LPrimary ts (parse_primary fuel ts)).

Lemma peek_is_inv k ts : peek_is k ts = true -> ts = k :: tail ts.
Proof. destruct ts; simpl; [done|]. by intros ->%bool_decide_eq_true. Qed.

Lemma accepts_loop l l' ts m (k : node -> list tok -> result exn (node * list tok)) :
  (forall ts m, derives l ts m -> derives l' ts m) ->
  accepts l ts m -> (forall n ts, extends l' n ts (k n ts)) ->
  accepts l' ts ('(n, ts) ← m; k n ts).
Proof.
  intros Hup Hm Hk x rest H. inv_bind. destruct x0 as [n ts'].
  destruct (Hm n ts' ltac:(done)) as (u1 & -> & D1).
  destruct (Hk n ts' _ _ u1 H (Hup _ _ D1)) as (u2 & -> & D2).
  exists (u1 ++ u2). by rewrite app_assoc.
Qed.

Lemma extends_loop l l' op mk (p : list tok -> result exn (node * list tok)) k n ts :
  (forall ta a tb b, derives l ta a -> derives l' tb b -> derives l (ta ++ op :: tb) (mk a b)) ->
  (forall ts, accepts l' ts (p ts)) -> (forall n ts, extends l n ts (k n ts)) ->
  extends l n ts (if peek_is op ts then '(r, ts) ← p (tail ts); k (mk n r) ts else Ok (n, ts)).
Proof.
  intros Hop Hp Hk x rest pre H D. destruct (peek_is op ts) eqn:E.
  - apply peek_is_inv in E. inv_bind. destruct x0 as [r ts'].
    destruct (Hp (tail ts) r ts' ltac:(done)) as (u1 & Hu1 & D1).
    destruct (Hk (mk n r) ts' _ _ _ H (Hop _ _ _ _ D D1)) as (u2 & -> & D2).
    exists (op :: u1 ++ u2). rewrite E, Hu1. simpl. rewrite <- !app_assoc in *. auto.
  - simplify_eq. exists []. by rewrite app_nil_r.
Qed.

Lemma all_accept_step fuel : all_accept fuel -> all_accept (S fuel).
Proof.
  intros (Him & Hor & Horl & Han & Hanl & Hun & Hunl & Hu & Hp). unfold all_accept.
  repeat match goal with |- _ /\ _ => split end; intros; simpl.
  - intros m rest H. inv_bind. destruct x as [n ts'].
    destruct (Hor ts n ts' ltac:(done)) as (u1 & -> & D1).
    destruct (peek_is IMPLIES ts') eqn:E.
    + inv_bind. destruct x as [r ts'']. apply peek_is_inv in E.
      destruct (Him (tail ts') r ts'' ltac:(done)) as (u2 & Hu2 & D2). simplify_eq.
      exists (u1 ++ IMPLIES :: u2). rewrite E, Hu2, <- app_assoc. auto with grammar.
    + simplify_eq. eauto with grammar.
  - apply (accepts_loop LAnd); auto with grammar.
  - apply extends_loop with (l' := LAnd); auto with grammar.
  - apply (accepts_loop LUntil); auto with grammar.
  - apply extends_loop with (l' := LUntil); auto with grammar.
  - apply (accepts_loop LUnary); auto with grammar.
  - apply extends_loop with (l' := LUnary); auto with grammar.
  - intros m rest H. destruct ts as [|t ts]; [done|].
    destruct (unary_op t) as [mk|] eqn:E.
    + inv_bind. destruct x as [a ts']. simplify_eq.
      destruct (Hu ts a rest ltac:(done)) as (u & -> & D).
      exists (t :: u). eauto with grammar.
    + destruct (Hp _ _ _ H) as (u & ? & D). eauto with grammar.
  - intros m rest H. destruct ts as [|[] ts]; simpl in H; try done; simplify_eq.
    + inv_bind. destruct x as [n ts']. case_match; [|done]. simplify_eq.
      destruct (Him ts m ts' ltac:(done)) as (u & -> & D).
      exists (LPAREN :: u ++ [RPAREN]). simpl. rewrite <- app_assoc. simpl.
      split; [by rewrite <- (peek_is_inv RPAREN ts')|auto with grammar].
    + exists [CONST b]. auto with grammar.
    + exists [ATOM word]. auto with grammar.
Qed.

Lemma parse_sound fuel : all_accept fuel.
Proof.
  induction fuel as [|fuel IH]; [|by apply all_accept_step].
  unfold all_accept, accepts, extends. repeat split; intros; done.
Qed.

(** ** Fuel *)

Lemma peek_is_shorter k ts : peek_is k ts = true -> length (tail ts) < length ts.
Proof. destruct ts; simpl; [done|lia]. Qed.

Abbreviation consumes := (Parsing.consumes (fun e => e = LTLParseError)).

Definition all_consume (fuel : nat) : Prop :=
  (forall ts, enough fuel 6 ts -> consumes true ts (parse_implies fuel ts))
  /\ (forall ts, enough fuel 5 ts -> consumes true ts (parse_or fuel ts))
  /\ (forall n ts, enough fuel 1 ts -> consumes false ts (parse_or_loop fuel n ts))
  /\ (forall ts, enough fuel 4 ts -> consumes true ts (parse_and fuel ts))
  /\ (forall n ts, enough fuel 1 ts -> consumes false ts (parse_and_loop fuel n ts))
  /\ (forall ts, enough fuel 3 ts -> consumes true ts (parse_until fuel ts))
  /\ (forall n ts, enough fuel 1 ts -> consumes false ts (parse_until_loop fuel n ts))
  /\ (forall ts, enough fuel 2 ts -> consumes true ts (parse_unary fuel ts))
  /\ (forall ts, enough fuel 1 ts -> consumes true ts (parse_primary fuel ts)).

Ltac lookahead :=
  match goal with
  | |- context [peek_is ?v ?l] =>
      let E := fresh "E" in
      destruct (peek_is v l) eqn:E; [apply peek_is_shorter in E|try measure]
  end.

Lemma level_consume_step fuel : all_consume fuel -> all_consume (S fuel).
Proof.
  intros (Him & Hor & Horl & Han & Hanl & Hun & Hunl & Hu & Hp). unfold all_consume.
  repeat match goal with |- _ /\ _ => split end; intros; simpl.
  - sub_call Hor. lookahead. sub_call Him. measure.
  - sub_call Han. last_call Horl.
  - lookahead. sub_call Han. last_call Horl.
  - sub_call Hun. last_call Hanl.
  - lookahead. sub_call Hun. last_call Hanl.
  - sub_call Hu. last_call Hunl.
  - lookahead. sub_call Hu. last_call Hunl.
  - destruct ts as [|t rest]; [measure|].
    destruct (unary_op t); [sub_call Hu; measure|last_call Hp].
  - destruct ts as [|[] rest]; try measure. sub_call Him. lookahead. measure.
Qed.

Lemma levels_consume fuel : all_consume fuel.
Proof.
  induction fuel as [|fuel IH]; [|by apply level_consume_step].
  unfold all_consume, enough. repeat split; lia.
Qed.

(** ** Completeness: what is derivable is accepted, whatever follows *)

Lemma derives_nonempty l ts m : derives l ts m -> 0 < length ts.
Proof. induction 1; simpl; rewrite ?length_app; simpl; lia. Qed.

(** The level's production, given enough fuel, reads exactly a derivable
    sequence and goes on with its loop on what follows. *)
Definition complete (l : level) (ts : list tok) (m : node) : Prop :=
  match l with
  | LPrimary => forall fuel rest, enough fuel 1 (ts ++ rest) ->
      parse_primary fuel (ts ++ rest) = Ok (m, rest)
  | LUnary => forall fuel rest, enough fuel 2 (ts ++ rest) ->
      parse_unary fuel (ts ++ rest) = Ok (m, rest)
  | LUntil => forall fuel rest r, enough fuel 3 (ts ++ rest) ->
      (forall f, enough f 1 rest -> parse_until_loop f m rest = r) ->
      parse_until fuel (ts ++ rest) = r
  | LAnd => forall fuel rest r, enough fuel 4 (ts ++ rest) ->
      peek_is UNTIL rest = false ->
      (forall f, enough f 1 rest -> parse_and_loop f m rest = r) ->
      parse_and fuel (ts ++ rest) = r
  | LOr => forall fuel rest r, enough fuel 5 (ts ++ rest) ->
      peek_is UNTIL rest = false -> peek_is AND rest = false ->
      (forall f, enough f 1 rest -> parse_or_loop f m rest = r) ->
      parse_or fuel (ts ++ rest) = r
  | LImplies => forall fuel rest, enough fuel 6 (ts ++ rest) ->
      peek_is UNTIL rest = false -> peek_is AND rest = false ->
      peek_is OR rest = false -> peek_is IMPLIES rest = false ->
      parse_implies fuel (ts ++ rest) = Ok (m, rest)
  end.

(** The loops stop at a token that is not theirs. *)
Lemma until_stop m rest f : peek_is UNTIL rest = false -> enough f 1 rest ->
  parse_until_loop f m rest = Ok (m, rest).
Proof. destruct f; intros H ?; [measure|]. simpl. by rewrite H. Qed.
Lemma and_stop m rest f : peek_is AND rest = false -> enough f 1 rest ->
  parse_and_loop f m rest = Ok (m, rest).
Proof. destruct f; intros H ?; [measure|]. simpl. by rewrite H. Qed.
Lemma or_stop m rest f : peek_is OR rest = false -> enough f 1 rest ->
  parse_or_loop f m rest = Ok (m, rest).
Proof. destruct f; intros H ?; [measure|]. simpl. by rewrite H. Qed.
#[local] Hint Resolve until_stop and_stop or_stop : grammar.

(** Fuel goals, knowing that derivable sequences are not empty. *)
Ltac fuel_ok :=
  repeat match goal with
  | D : derives _ ?ts _ |- _ =>
      lazymatch goal with
      | _ : 0 < length ts |- _ => fail
      | _ => pose proof (derives_nonempty _ _ _ D)
      end
  end;
  unfold enough in *; rewrite ?length_app in *; simpl in *; rewrite ?length_app in *;
  simpl in *; lia.
Ltac spend fuel := destruct fuel as [|fuel]; [fuel_ok|].

(** Runs the bound call of a production with the completeness fact [H]. *)
Ltac run H m rest :=
  rewrite (H _ _ (Ok (m, rest))); [simpl|fuel_ok|first [done|by auto with grammar]..].
Ltac use H := apply H; fuel_ok.

Lemma derives_complete l ts m : derives l ts m -> complete l ts m.
Proof.
  induction 1 as [ts m D H|ta a tb b Da Ha Db Hb|ts m D H|ta a tb b Da Ha Db Hb
                 |ts m D H|ta a tb b Da Ha Db Hb|ts m D H|ta a tb b Da Ha Db Hb
                 |t mk ts a Ht D H|ts m D H|ts m D H|b|w];
    cbn [complete] in *.
  - intros fuel rest Hf Hu Ha Ho Hi. spend fuel. simpl. run H m rest. by rewrite Hi.
  - intros fuel rest Hf Hu Hn Ho Hi. spend fuel. simpl. rewrite <- app_assoc.
    run Ha a (IMPLIES :: tb ++ rest). by rewrite Hb by (done || fuel_ok).
  - intros fuel rest r Hf Hu Ha Hl. spend fuel. simpl. run H m rest. use Hl.
  - intros fuel rest r Hf Hu Hn Hl. rewrite <- app_assoc. apply Ha; [fuel_ok|done..|].
    intros f Hf'. spend f. simpl. run Hb b rest. use Hl.
  - intros fuel rest r Hf Hu Hl. spend fuel. simpl. run H m rest. use Hl.
  - intros fuel rest r Hf Hu Hl. rewrite <- app_assoc. apply Ha; [fuel_ok|done..|].
    intros f Hf'. spend f. simpl. run Hb b rest. use Hl.
  - intros fuel rest r Hf Hl. spend fuel. simpl. rewrite H by fuel_ok. use Hl.
  - intros fuel rest r Hf Hl. rewrite <- app_assoc. apply Ha; [fuel_ok|].
    intros f Hf'. spend f. simpl. rewrite Hb by fuel_ok. use Hl.
  - intros fuel rest Hf. spend fuel. simpl. rewrite Ht, H by fuel_ok. done.
  - intros fuel rest Hf. spend fuel. simpl.
    pose proof (H fuel rest) as Hp.
    inversion D; subst; simpl in *; apply Hp; fuel_ok.
  - intros fuel rest Hf. spend fuel. simpl. rewrite <- app_assoc. simpl.
    by rewrite H by (done || fuel_ok).
  - intros fuel rest Hf. by spend fuel.
  - intros fuel rest Hf. by spend fuel.
Qed.

Lemma parse_tokens_sound ts m : parse_tokens ts = Ok m -> derives LImplies ts m.
Proof.
  unfold parse_tokens. intros H. inv_bind. destruct x as [root [|]]; [|done]. simplify_eq.
  destruct (parse_sound (parse_fuel_for (length ts))) as (Him & _).
  destruct (Him ts m [] ltac:(done)) as (u & -> & D). by rewrite app_nil_r.
Qed.

(**  The parser recognises exactly the documented grammar: a token
    sequence parses to a formula iff the grammar derives that formula from it.
    Hence the grammar is unambiguous, [->] associates to the right and [or],
    [and], [U] to the left, and no input makes the recursion run out. *)
Theorem parse_tokens_grammar ts m : parse_tokens ts = Ok m <-> derives LImplies ts m.
Proof.
  split; [apply parse_tokens_sound|]. unfold parse_tokens.
  - intros D. pose proof (derives_complete _ _ _ D) as H. cbn [complete] in H.
    specialize (H (parse_fuel_for (length ts)) []). rewrite app_nil_r in H.
    rewrite H; [done| |done..]. unfold enough, parse_fuel_for. lia.
Qed.

(** ** The scanner *)

Definition scan_exn (e : exn) : Prop := e = LTLParseError \/ e = ValueError.

Lemma contract_step_shorter c rest ts r :
  tokenize_step c rest = Ok (ts, r) -> String.length r <= String.length rest.
Proof.
  unfold tokenize_step. destruct (isspace c); [intros; by simplify_eq|].
  do 2 (case_match; [intros; by simplify_eq|]).
  destruct (drop_prefix "->" _) as [r'|] eqn:E1.
  { intros; simplify_eq. apply drop_prefix_length in E1. simpl in E1. lia. }
  case_match.
  - destruct (drop_prefix "F<=" _) as [r'|] eqn:E2; [|done].
    apply drop_prefix_length in E2. simpl in E2. unfold read_bound.
    destruct (span isdigit r') as [ds r''] eqn:Es. apply span_length in Es.
    repeat case_match; intros; simplify_eq. lia.
  - destruct (is_atom_char c) eqn:Ec; [|done]. unfold read_word.
    destruct (span is_atom_char (String c rest)) as [w r'] eqn:Es.
    intros; simplify_eq. by eapply span_first.
Qed.

Lemma contract_step_err c rest e : tokenize_step c rest = Err e -> scan_exn e.
Proof.
  unfold tokenize_step, read_bound, scan_exn. intros H.
  repeat (case_match; simplify_eq); auto.
Qed.

Lemma tokenize_err s e : tokenize s = Err e -> scan_exn e.
Proof.
  apply (scan_err scan_exn OutOfFuel tokenize_step contract_step_shorter contract_step_err).
  done.
Qed.

Lemma parse_tokens_err ts e : parse_tokens ts = Err e -> e = LTLParseError.
Proof.
  unfold parse_tokens.
  assert (consumes true ts (parse_implies (parse_fuel_for (length ts)) ts)) as Hc.
  { apply levels_consume. unfold enough, parse_fuel_for. lia. }
  destruct (parse_implies _ ts) as [[n [|]]|]; simpl in *; congruence.
Qed.

Lemma level_parse_err s e : parse s = Err e -> scan_exn e.
Proof.
  unfold parse. case_match; [intros; simplify_eq; by left|].
  destruct (tokenize s) as [ts|e'] eqn:E; simpl.
  - destruct ts as [|t ts]; [intros; simplify_eq; by left|].
    destruct (parse_tokens (t :: ts)) eqn:Ep; simpl; [done|].
    apply parse_tokens_err in Ep. intros; simplify_eq. by left.
  - intros; simplify_eq. by eapply tokenize_err.
Qed.

(**  [LTLFormula.parse] always answers: it returns a formula carrying its
    source text whose syntax tree the grammar derives from the scanned tokens,
    or it raises [LTLParseError] or [ValueError]. *)
Theorem contract_parse_total s :
  match parse s with
  | Ok f => source f = s /\ exists ts, tokenize s = Ok ts /\ derives LImplies ts (ast f)
  | Err e => e = LTLParseError \/ e = ValueError
  end.
Proof.
  destruct (parse s) as [f|e] eqn:E; [|by eapply level_parse_err].
  unfold parse in E. case_match; [done|]. inv_bind.
  destruct x as [|t ts]; [done|]. inv_bind. split; [done|].
  exists (t :: ts). split; [done|]. by apply parse_tokens_sound.
Qed.
End ContractLtlGrammar.
