(* ===== verification/ContractAtoms.v ===== *)
(** * Behavioural contracts: the atom resolver ([tex/contracts/_atoms.py])

    An atom of a contract formula is a tagged string; the resolver gives it a
    truth value over the proposed event and the ecosystem snapshot.  Data
    classes [ProposedEvent] and [EcosystemState] are in [tex/ecosystem]. *)
From Stdlib Require Import SpecFloat.
From stdpp Require Import pretty.
From S2P Require Import Prelude PyStr PyFloat PyVal ContractLtl.
Import ContractLtl.
Open Scope string_scope.
Open Scope list_scope.
Open Scope nat_scope.

Module ContractAtoms.

(** Timestamps are kept as the text the sources make of them: [proposed_at] as
    its [isoformat()], [snapshot_at] as its [str()]. *)
Record ProposedEvent := {
  event_kind : string;
  actor_entity_id : string;
  target_entity_id : option string;
  payload : pydict;
  proposed_at : string;
  session_id : option string;
  upstream_event_ids : list string;
}.

Record EcosystemState := {
  snapshot_at : string;
  state_hash : string;
  active_agent_ids : list string;
  active_tool_ids : list string;
  active_capability_ids : list string;
  active_governance_graph_id : string;
  aggregate_drift_signals : list (string * float);
  sliding_window_compromise_ratio : float;
}.

Record ContractContext := {
  proposed_event : ProposedEvent;
  state : EcosystemState;
  event_window : list ProposedEvent;
}.

(** ** Atom syntax *)

Inductive op :=
| EQ | NE | GE | LE | GT | LT
| CONTAINS | NOT_CONTAINS | MATCHES | IN | NOT_IN | BETWEEN | EXISTS.

#[global] Instance op_eq_dec : EqDecision op.
Proof. solve_decision. Defined.

Definition op_token (o : op) : string :=
  match o with
  | EQ => "==" | NE => "!=" | GE => ">=" | LE => "<=" | GT => ">" | LT => "<"
  | CONTAINS => "~contains:" | NOT_CONTAINS => "~not_contains:" | MATCHES => "~matches:"
  | IN => "~in:" | NOT_IN => "~not_in:" | BETWEEN => "~between:" | EXISTS => "~exists"
  end.

(** [_OP_TOKENS], in the order they are tried. *)
Definition OP_TOKENS : list op :=
  [EQ; NE; GE; LE; GT; LT; CONTAINS; NOT_CONTAINS; MATCHES; IN; NOT_IN; BETWEEN; EXISTS].

Inductive namespace := Nfield | Nstate | Ndrift | Nkind | Ncapability | Nactor | Nupstream.

#[global] Instance namespace_eq_dec : EqDecision namespace.
Proof. solve_decision. Defined.

Record ParsedAtom := {
  ns : namespace;
  path : string;
  atom_op : option op;
  literal : option string;
}.

Definition namespace_of (s : string) : option namespace :=
  if String.eqb s "field" then Some Nfield
  else if String.eqb s "state" then Some Nstate
  else if String.eqb s "drift" then Some Ndrift
  else if String.eqb s "kind" then Some Nkind
  else if String.eqb s "capability" then Some Ncapability
  else if String.eqb s "actor" then Some Nactor
  else if String.eqb s "upstream" then Some Nupstream
  else None.

Definition tag_only (n : namespace) : bool :=
  match n with Nkind | Ncapability | Nactor | Nupstream => true | _ => false end.

(** The split of [s] at the first occurrence of [needle]. *)
Fixpoint find_split (needle s : string) : option (string * string) :=
  match drop_prefix needle s with
  | Some after => Some ("", after)
  | None =>
      match s with
      | EmptyString => None
      | String c s' =>
          '(before, after) ← find_split needle s'; Some (String c before, after)
      end
  end.

(** The loop over the operator tokens: the first token of the list that occurs
    anywhere, split at its first occurrence. *)
Fixpoint find_op (ops : list op) (rest : string) : option (op * string * string) :=
  match ops with
  | [] => None
  | o :: ops =>
      match find_split (op_token o) rest with
      | Some (p, after) => Some (o, p, after)
      | None => find_op ops rest
      end
  end.

Definition parse_atom (atom : string) : result exn ParsedAtom :=
  if negb (has_char ":" atom) then
    Ok {| ns := Nstate; path := atom; atom_op := Some EQ; literal := Some "true" |}
  else
    let '(n, rest) := PyStr.partition ":" atom in
    match namespace_of (strip n) with
    | None => Err ValueError
    | Some n =>
        if tag_only n then
          Ok {| ns := n; path := ""; atom_op := None; literal := Some rest |}
        else
          match find_op OP_TOKENS rest with
          | None => Err ValueError
          | Some (EXISTS, p, after) =>
              if String.eqb after "" then
                Ok {| ns := n; path := p; atom_op := Some EXISTS; literal := None |}
              else Err ValueError
          | Some (o, p, after) =>
              Ok {| ns := n; path := p; atom_op := Some o; literal := Some after |}
          end
    end.

Section Resolver.

(** [str(x)] of a float, a list or a mapping; [str(t)] of a tuple of strings;
    [re.search(pattern, text) is not None], which raises on a bad pattern. *)
Context (py_str : pyval -> string) (str_tuple : list string -> string).
Context (re_search : string -> string -> result exn bool).

Definition stringify (v : pyval) : string :=
  match v with
  | PBool b => if b then "true" else "false"
  | PNone => ""
  | PStr s => s
  | PInt z => pretty z
  | PObj s => s
  | PFloat _ | PList _ | PDict _ => py_str v
  end.

Definition truthy (v : pyval) : bool :=
  match v with
  | PBool b => b
  | PNone => false
  | PInt z => negb (z =? 0)%Z
  | PFloat f => negb (feqb f f_zero)
  | PStr s => String.eqb (str_lower s) "true"
  | PList _ | PDict _ | PObj _ => true
  end.

Definition coerce_numeric (s : string) : option float := float_of_string s.

Definition is_none (v : pyval) : bool := match v with PNone => true | _ => false end.

(** The numeric comparison, for the six comparison operators. *)
Definition compare_float (o : op) (ln rn : float) : option bool :=
  match o with
  | EQ => Some (feqb ln rn)
  | NE => Some (negb (feqb ln rn))
  | GT => Some (fltb rn ln)
  | GE => Some (fleb rn ln)
  | LT => Some (fltb ln rn)
  | LE => Some (fleb ln rn)
  | _ => None
  end.

(** The bool and string fallback. *)
Definition compare_text (left : pyval) (o : op) (lit : string) : result exn bool :=
  let ls := stringify left in
  let bool_lit := String.eqb (str_lower lit) "true" || String.eqb (str_lower lit) "false" in
  match o with
  | EQ => Ok (if bool_lit then Bool.eqb (truthy left) (String.eqb (str_lower lit) "true")
              else String.eqb ls lit)
  | NE => Ok (if bool_lit then negb (Bool.eqb (truthy left) (String.eqb (str_lower lit) "true"))
              else negb (String.eqb ls lit))
  | GT => Ok (str_ltb lit ls)
  | GE => Ok (negb (str_ltb ls lit))
  | LT => Ok (str_ltb ls lit)
  | LE => Ok (negb (str_ltb lit ls))
  | _ => Err ValueError
  end.

Definition between (left : pyval) (lit : string) : result exn bool :=
  match PyStr.split "," lit with
  | [lo; hi] =>
      Ok (match coerce_numeric (strip lo), coerce_numeric (strip hi),
                coerce_numeric (stringify left) with
          | Some lo, Some hi, Some ln => fleb lo ln && fleb ln hi
          | _, _, _ => false
          end)
  | _ => Err ValueError
  end.

Definition member (x : string) (l : list string) : bool := existsb (String.eqb x) l.

Definition compare (left : pyval) (o : op) (lit : option string) : result exn bool :=
  match o, lit with
  | EXISTS, _ => Ok (negb (is_none left))
  | _, None => Err ValueError
  | IN, Some lit => Ok (member (stringify left) (strip <$> PyStr.split "," lit))
  | NOT_IN, Some lit => Ok (negb (member (stringify left) (strip <$> PyStr.split "," lit)))
  | CONTAINS, Some lit => Ok (contains lit (stringify left))
  | NOT_CONTAINS, Some lit => Ok (negb (contains lit (stringify left)))
  | MATCHES, Some lit => re_search lit (stringify left)
  | BETWEEN, Some lit => between left lit
  | o, Some lit =>
      let rn := coerce_numeric lit in
      let ln := if is_none left then None else coerce_numeric (stringify left) in
      match ln, rn with
      | Some ln, Some rn =>
          match compare_float o ln rn with
          | Some b => Ok b
          | None => compare_text left o lit
          end
      | _, _ => compare_text left o lit
      end
  end.

(** ** Path lookup *)

Fixpoint lookup_segs (cur : pyval) (segs : list string) : pyval :=
  match segs with
  | [] => cur
  | seg :: segs =>
      match cur with
      | PDict d =>
          match dict_get seg d with
          | None | Some PNone => PNone
          | Some v => lookup_segs v segs
          end
      | _ => PNone
      end
  end.

Definition lookup_path (root : pydict) (p : string) : pyval :=
  if String.eqb p "" then PNone else lookup_segs (PDict root) (PyStr.split "." p).

Definition drift_dict (s : EcosystemState) : pydict :=
  prod_map id PFloat <$> aggregate_drift_signals s.

(** The flat mirror of the snapshot that [state:] atoms look into. *)
Definition mirror (s : EcosystemState) : pydict :=
  [("snapshot_at", PObj (snapshot_at s));
   ("state_hash", PStr (state_hash s));
   ("active_agent_ids", PObj (str_tuple (active_agent_ids s)));
   ("active_tool_ids", PObj (str_tuple (active_tool_ids s)));
   ("active_capability_ids", PObj (str_tuple (active_capability_ids s)));
   ("active_governance_graph_id", PStr (active_governance_graph_id s));
   ("sliding_window_compromise_ratio", PFloat (sliding_window_compromise_ratio s));
   ("aggregate_drift_signals", PDict (drift_dict s))].

Definition lit_is (x : string) (lit : option string) : bool :=
  match lit with Some l => String.eqb x l | None => false end.
Definition lit_in (lit : option string) (xs : list string) : bool :=
  match lit with Some l => member l xs | None => false end.

Definition resolve_parsed (ctx : ContractContext) (p : ParsedAtom) : result exn bool :=
  let o := default EQ (atom_op p) in
  match ns p with
  | Nkind => Ok (lit_is (event_kind (proposed_event ctx)) (literal p))
  | Nactor => Ok (lit_is (actor_entity_id (proposed_event ctx)) (literal p))
  | Ncapability => Ok (lit_in (literal p) (active_capability_ids (state ctx)))
  | Nupstream => Ok (lit_in (literal p) (upstream_event_ids (proposed_event ctx)))
  | Nfield => compare (lookup_path (payload (proposed_event ctx)) (path p)) o (literal p)
  | Nstate => compare (lookup_path (mirror (state ctx)) (path p)) o (literal p)
  | Ndrift =>
      compare (default PNone (dict_get (path p) (drift_dict (state ctx)))) o (literal p)
  end.

(** [make_resolver(context)]; the trace element is not looked at. *)
Definition make_resolver (ctx : ContractContext) (atom : string) (_elem : pydict)
    : result exn bool :=
  p ← parse_atom atom; resolve_parsed ctx p.
End Resolver.

(** The one-element trace the enforcer evaluates over. *)
Definition trace_for (ctx : ContractContext) : list pydict :=
  [[("_event_payload", PDict (payload (proposed_event ctx)))]].

Example parse_atom_ex1 :
  parse_atom "field:output.text~contains:credit-card"
  = Ok {| ns := Nfield; path := "output.text"; atom_op := Some CONTAINS;
          literal := Some "credit-card" |}.
Proof. reflexivity. Qed.
Example parse_atom_ex2 :
  parse_atom "compromised"
  = Ok {| ns := Nstate; path := "compromised"; atom_op := Some EQ; literal := Some "true" |}.
Proof. reflexivity. Qed.
End ContractAtoms.
