(* ===== verification/ContractAtomsSpec.v ===== *)
(** * Behavioural contracts: what atoms mean
    (theorems about [ContractAtoms.parse_atom], [ContractAtoms.compare] and
    [ContractAtoms.make_resolver]) *)
From Stdlib Require Import SpecFloat.
From stdpp Require Import pretty.
From S2P Require Import Prelude PyStr PyFloat PyVal ContractLtl ContractAtoms.
Import ContractLtl ContractAtoms.
Open Scope string_scope.
Open Scope list_scope.
Open Scope nat_scope.

Module ContractAtomsSpec.

(** ** Atom syntax: parsing inverts printing *)

Definition is_op_char (c : ascii) : bool := has_char c "=!<>~".
Definition plain (s : string) : bool := str_all (fun c => negb (is_op_char c)) s.

Definition show_namespace (n : namespace) : string :=
  match n with
  | Nfield => "field" | Nstate => "state" | Ndrift => "drift" | Nkind => "kind"
  | Ncapability => "capability" | Nactor => "actor" | Nupstream => "upstream"
  end.

Definition show_atom (a : ParsedAtom) : string :=
  show_namespace (ns a)
  +:+ String ":" (path a
      +:+ (match atom_op a with Some o => op_token o | None => "" end)
      +:+ default "" (literal a)).

(** The atoms the syntax can express: tag-only namespaces carry any literal;
    the others a path and a literal free of operator characters. *)
Definition wf_atom (a : ParsedAtom) : bool :=
  if tag_only (ns a) then
    String.eqb (path a) "" && bool_decide (atom_op a = None) && bool_decide (is_Some (literal a))
  else
    plain (path a)
    && match atom_op a, literal a with
       | Some EXISTS, None => true
       | Some EXISTS, Some _ => false
       | Some _, Some l => plain l
       | _, _ => false
       end.

Lemma op_token_head o : exists c s, op_token o = String c s /\ is_op_char c = true.
Proof. destruct o; by eexists _, _. Qed.

Lemma plain_head c d s : is_op_char c = true -> plain (String d s) = true -> Ascii.eqb c d = false.
Proof.
  unfold plain. simpl. intros Hc Hd. destruct (Ascii.eqb_spec c d); [|done]. subst.
  by rewrite Hc in Hd.
Qed.

Lemma plain_tail d s : plain (String d s) = true -> plain s = true.
Proof. unfold plain. simpl. by intros [_ ?]%andb_prop. Qed.

(** An operator is not found inside a plain text, only after it. *)
Lemma find_split_plain o p s :
  plain p = true ->
  find_split (op_token o) (p +:+ s) = prod_map (String.append p) id <$> find_split (op_token o) s.
Proof.
  destruct (op_token_head o) as (c & t & -> & Hc).
  induction p as [|d p IH]; intros Hp.
  - rewrite str_app_nil. by destruct (find_split _ s) as [[]|].
  - rewrite str_app_cons. simpl. rewrite (plain_head c d p Hc Hp), IH by (by eapply plain_tail).
    by destruct (find_split _ s) as [[]|].
Qed.

Lemma find_op_plain ops p s :
  plain p = true ->
  find_op ops (p +:+ s)
  = (fun r : op * string * string => (r.1.1, p +:+ r.1.2, r.2)) <$> find_op ops s.
Proof.
  intros Hp. induction ops as [|o ops IH]; [done|]. simpl.
  rewrite find_split_plain by done. by destruct (find_split _ s) as [[]|].
Qed.

Lemma find_split_none c t l :
  is_op_char c = true -> plain l = true -> find_split (String c t) l = None.
Proof.
  intros Hc. induction l as [|d l IH]; intros Hl; [done|].
  simpl. rewrite (plain_head c d l Hc Hl), IH by (by eapply plain_tail). done.
Qed.

Lemma find_op_token o l :
  plain l = true -> find_op OP_TOKENS (op_token o +:+ l) = Some (o, "", l).
Proof.
  intros Hl.
  assert (drop_prefix "=" l = None) as Heq.
  { destruct l as [|d l]; cbn [drop_prefix]; [done|]. by rewrite (plain_head "="%char d l). }
  pose proof (fun c t Hc => find_split_none c t l Hc Hl) as Hn.
  destruct o; cbn [op_token]; rewrite ?str_app_cons, ?str_app_nil;
    repeat (cbn -[find_split drop_prefix]; cbn [find_split drop_prefix Ascii.eqb Bool.eqb];
            rewrite ?Hn, ?Heq by done);
    try reflexivity; cbn in Heq; rewrite ?Heq; reflexivity.
Qed.

Lemma has_colon a b : has_char ":" (a +:+ String ":" b) = true.
Proof.
  unfold has_char. induction a as [|c a IH]; [done|]. rewrite str_app_cons. simpl.
  rewrite IH. apply orb_true_r.
Qed.

Lemma partition_namespace n s :
  PyStr.partition ":" (show_namespace n +:+ String ":" s) = (show_namespace n, s).
Proof. by destruct n. Qed.

Lemma namespace_roundtrip n : namespace_of (strip (show_namespace n)) = Some n.
Proof. by destruct n. Qed.

Lemma parse_show a : wf_atom a = true -> parse_atom (show_atom a) = Ok a.
Proof.
  destruct a as [n p o l]. unfold wf_atom, parse_atom, show_atom. cbn [ns path atom_op literal].
  rewrite has_colon, partition_namespace, namespace_roundtrip. cbn [negb].
  destruct (tag_only n).
  - rewrite !andb_true_iff, String.eqb_eq, !bool_decide_eq_true.
    intros [[-> ->] [l' ->]]. by rewrite !str_app_nil.
  - intros [Hp Ho]%andb_prop. rewrite find_op_plain by done.
    destruct o as [o|]; [|done].
    rewrite find_op_token by (destruct o, l; done). simpl.
    rewrite str_app_nil_r. by destruct o, l.
Qed.

(**  Atoms are parsed into the parts they are written with: every
    well-formed atom, printed, parses back to itself.  For the path namespaces
    the path and the literal must be free of the characters [= ! < > ~]. *)
Theorem parse_atom_show a : wf_atom a = true -> parse_atom (show_atom a) = Ok a.
Proof. apply parse_show. Qed.

Lemma parse_atom_show_witness :
  parse_atom "field:output.tone_score>=0.7"
  = Ok {| ns := Nfield; path := "output.tone_score"; atom_op := Some GE; literal := Some "0.7" |}.
Proof.
  apply (parse_atom_show {| ns := Nfield; path := "output.tone_score";
                            atom_op := Some GE; literal := Some "0.7" |}).
  reflexivity.
Defined.

(** The side condition is needed: the operator is chosen by its rank in the
    list of operators, not by its position, so a comparison sign inside the
    literal of a [~contains:] atom is taken for the operator. *)
Example operator_by_rank :
  parse_atom "field:output.text~contains:a<b"
  = Ok {| ns := Nfield; path := "output.text~contains:a"; atom_op := Some LT;
          literal := Some "b" |}.
Proof. reflexivity. Qed.

Section Resolver.
Context (py_str : pyval -> string) (str_tuple : list string -> string).
Context (re_search : string -> string -> result exn bool).

Abbreviation resolve := (make_resolver py_str str_tuple re_search).
Abbreviation cmp := (compare py_str re_search).

(** ** Missing values *)

(** The comparison operators on a missing value compare the empty string. *)
Lemma compare_missing lit :
  cmp PNone LE (Some lit) = Ok true
  /\ cmp PNone LT (Some lit) = Ok (negb (String.eqb lit ""))
  /\ cmp PNone GE (Some lit) = Ok (String.eqb lit "")
  /\ cmp PNone GT (Some lit) = Ok false.
Proof.
  unfold compare, compare_text. cbn [is_none stringify].
  by destruct (coerce_numeric lit), lit.
Qed.

Lemma resolve_field ctx p o lit e :
  plain p = true -> plain lit = true -> o <> EXISTS ->
  resolve ctx (show_atom {| ns := Nfield; path := p; atom_op := Some o; literal := Some lit |}) e
  = cmp (lookup_path (payload (proposed_event ctx)) p) o (Some lit).
Proof.
  intros Hp Hl Ho. unfold make_resolver. rewrite parse_show; [done|].
  unfold wf_atom. cbn [ns path atom_op literal tag_only]. rewrite Hp. by destruct o.
Qed.

(**  A bound on a field the event does not carry is decided by the
    operator alone, whatever number it compares with: upper bounds hold, lower
    bounds fail. *)
Theorem missing_field_bounds ctx p lit e :
  plain p = true -> plain lit = true -> lit <> "" ->
  lookup_path (payload (proposed_event ctx)) p = PNone ->
  let atom o := show_atom {| ns := Nfield; path := p; atom_op := Some o; literal := Some lit |} in
  resolve ctx (atom LE) e = Ok true /\ resolve ctx (atom LT) e = Ok true
  /\ resolve ctx (atom GE) e = Ok false /\ resolve ctx (atom GT) e = Ok false.
Proof.
  intros Hp Hl Hne Hm atom. subst atom. cbv beta. rewrite !resolve_field, Hm by done.
  destruct (compare_missing lit) as (-> & -> & -> & ->).
  by destruct (String.eqb_spec lit "").
Qed.

(** ** Bare atoms *)

Definition mirror_keys : list string :=
  ["snapshot_at"; "state_hash"; "active_agent_ids"; "active_tool_ids";
   "active_capability_ids"; "active_governance_graph_id";
   "sliding_window_compromise_ratio"; "aggregate_drift_signals"].

Lemma dict_get_keys k d : k ∉ d.*1 -> dict_get k d = None.
Proof.
  induction d as [|[k' v] d IH]; simpl; [done|].
  rewrite not_elem_of_cons. intros [Hk Hd].
  destruct (String.eqb_spec k k'); [done|]. by apply IH.
Qed.

Lemma lookup_mirror_missing s p seg segs :
  PyStr.split "." p = seg :: segs -> seg ∉ mirror_keys ->
  lookup_path (mirror str_tuple s) p = PNone.
Proof.
  intros Hs Hk. unfold lookup_path. case_match; [done|]. rewrite Hs. cbn [lookup_segs].
  by rewrite dict_get_keys.
Qed.

(**  A bare atom is a constant: unless its first segment is one of the
    eight fields of the snapshot, it is false in every context. *)
Theorem bare_atom_false ctx a e seg segs :
  has_char ":" a = false -> PyStr.split "." a = seg :: segs -> seg ∉ mirror_keys ->
  resolve ctx a e = Ok false.
Proof.
  intros Ha Hs Hk. unfold make_resolver, parse_atom. rewrite Ha.
  cbn [negb mbind result_bind resolve_parsed ns path atom_op literal default].
  by erewrite lookup_mirror_missing.
Qed.

(** ** Errors *)

Lemma parse_atom_err a e : parse_atom a = Err e -> e = ValueError.
Proof. unfold parse_atom. repeat case_match; congruence. Qed.

(** A parsed atom of a path namespace has an operator, and a literal unless the
    operator is [~exists]. *)
Lemma parse_atom_shape a p :
  parse_atom a = Ok p ->
  tag_only (ns p) = true
  \/ exists o, atom_op p = Some o /\ (o = EXISTS \/ exists l, literal p = Some l).
Proof.
  unfold parse_atom. intros H.
  repeat (case_match; simplify_eq); simpl in *; try (left; congruence); right; eauto.
Qed.

Lemma compare_err v o lit e :
  cmp v o (Some lit) = Err e ->
  (o = BETWEEN /\ e = ValueError)
  \/ (o = MATCHES /\ exists text, re_search lit text = Err e).
Proof.
  unfold compare. intros H. destruct o; cbn in H; try discriminate H;
    try (repeat case_match; discriminate H).
  - right. eauto.
  - left. unfold between in H. repeat case_match; simplify_eq; done.
Qed.

Lemma resolve_parsed_err ctx p e :
  tag_only (ns p) = true \/ (exists o, atom_op p = Some o /\ (o = EXISTS \/ exists l, literal p = Some l)) ->
  resolve_parsed py_str str_tuple re_search ctx p = Err e ->
  (atom_op p = Some BETWEEN /\ e = ValueError)
  \/ (atom_op p = Some MATCHES
      /\ exists lit text, literal p = Some lit /\ re_search lit text = Err e).
Proof.
  intros [Ht|(o & Ho & Hl)] H; unfold resolve_parsed in H; [by destruct (ns p)|].
  rewrite Ho in *. simpl in H.
  assert (exists v, cmp v o (literal p) = Err e) as [v Hv] by (destruct (ns p); eauto; done).
  destruct Hl as [->|[l Hl]]; [done|]. rewrite Hl in *.
  apply compare_err in Hv as [[-> ->]|(-> & text & ?)]; eauto 10.
Qed.

(**  What can go wrong when an atom is resolved: the atom does not parse
    ([ValueError]), a [~between:] literal is not a pair ([ValueError]), or the
    regular expression of a [~matches:] atom raises.  Nothing else does. *)
Theorem resolver_errors ctx a e :
  match resolve ctx a e with
  | Ok _ => True
  | Err err =>
      (parse_atom a = Err err /\ err = ValueError)
      \/ exists p, parse_atom a = Ok p /\
          ((atom_op p = Some BETWEEN /\ err = ValueError)
           \/ (atom_op p = Some MATCHES
               /\ exists lit text, literal p = Some lit /\ re_search lit text = Err err))
  end.
Proof.
  unfold make_resolver. destruct (parse_atom a) as [p|e'] eqn:Hp; simpl.
  - case_match; [done|]. right. exists p. split; [done|].
    eapply resolve_parsed_err; [by eapply parse_atom_shape|done].
  - left. split; [done|]. by eapply parse_atom_err.
Qed.
End Resolver.

(** ** Witnesses *)

Definition ctx0 : ContractContext := {|
  proposed_event := {| event_kind := "tool_call"; actor_entity_id := "agent-1";
    target_entity_id := None; payload := [("tool_id", PStr "transfer")];
    proposed_at := "2026-01-01T00:00:00+00:00"; session_id := None;
    upstream_event_ids := [] |};
  state := {| snapshot_at := "2026-01-01 00:00:00+00:00"; state_hash := "00";
    active_agent_ids := ["agent-1"]; active_tool_ids := []; active_capability_ids := [];
    active_governance_graph_id := "policy-v3"; aggregate_drift_signals := [];
    sliding_window_compromise_ratio := f_zero |};
  event_window := [] |}.

Lemma missing_field_bounds_witness :
  make_resolver (fun _ => "") (fun _ => "") (fun _ _ => Ok false) ctx0
    "field:request_amount<=10000" [] = Ok true.
Proof.
  apply (missing_field_bounds (fun _ => "") (fun _ => "") (fun _ _ => Ok false) ctx0
           "request_amount" "10000" []); [reflexivity|reflexivity|discriminate|reflexivity].
Defined.

Lemma bare_atom_false_witness :
  make_resolver (fun _ => "") (fun _ => "") (fun _ _ => Ok false) ctx0 "compromised" [] = Ok false.
Proof.
  apply (bare_atom_false (fun _ => "") (fun _ => "") (fun _ _ => Ok false) ctx0 "compromised" []
           "compromised" []); [reflexivity|reflexivity|].
  apply (bool_decide_eq_false_1 ("compromised" ∈ mirror_keys)). reflexivity.
Defined.
End ContractAtomsSpec.
