(* ===== verification/ContractEnforcer.v ===== *)
(** * Behavioural contracts: the runtime enforcer
    ([tex/contracts/contract.py], [violation.py], [runtime_enforcement.py])

    The enforcer is an object with mutable state; a check may raise half-way and
    keeps what it had already done.  Operations are therefore computations of
    [stM]: from a state to a result or an exception, and a state. *)
From Stdlib Require Import SpecFloat.
From stdpp Require Import pretty.
From S2P Require Import Prelude StateExn PyStr PyFloat PyVal ContractLtl ContractAtoms.
Import ContractLtl ContractAtoms.
Open Scope string_scope.
Open Scope list_scope.
Open Scope nat_scope.

Module ContractEnforcer.

(** ** Data *)

Inductive severity := block | sanction | warn.
#[global] Instance severity_eq_dec : EqDecision severity.
Proof. solve_decision. Defined.

Inductive clause :=
| precondition | hard_invariant | soft_invariant | hard_governance | soft_governance
| postcondition.
#[global] Instance clause_eq_dec : EqDecision clause.
Proof. solve_decision. Defined.

Record BehavioralContract := {
  contract_id : string;
  agent_id : string;
  description : string;
  precondition_ltl : string;
  postcondition_ltl : string;
  invariants_ltl : list string;
  soft_invariants_ltl : list string;
  hard_governance_ltl : list string;
  soft_governance_ltl : list string;
  covered_event_kinds : list string;
  severity_on_violation : severity;
  recovery_window_k : Z;
  delta_tolerance : float;
  satisfaction_p : float;
}.

Record ParsedFormulas := {
  p_precondition : option LTLFormula;
  p_postcondition : option LTLFormula;
  p_hard_invariants : list LTLFormula;
  p_soft_invariants : list LTLFormula;
  p_hard_governance : list LTLFormula;
  p_soft_governance : list LTLFormula;
}.

Record ContractViolation := {
  violation_id : string;
  v_contract_id : string;
  v_agent_id : string;
  violated_clause : clause;
  clause_ltl : string;
  detected_at : string;
  triggering_event_id : string;
  v_step_index : nat;
  v_severity : severity;
  compliance_gap : float;
  recovery_deadline_step : option Z;
  recovered_at_step : option nat;
  ledger_event_id : option string;
}.

(** ** [BehavioralContract] *)

(** [0.0 <= x <= 1.0] *)
Definition in_unit (x : float) : bool := fleb f_zero x && fleb x f_one.

(** [__post_init__]: construction raises [ValueError] unless the guards hold. *)
Definition post_init (c : BehavioralContract) : result exn BehavioralContract :=
  if negb (in_unit (delta_tolerance c)) then Err ValueError
  else if negb (in_unit (satisfaction_p c)) then Err ValueError
  else if (recovery_window_k c <? 0)%Z then Err ValueError
  else match covered_event_kinds c with
       | [] => Err ValueError
       | _ => Ok c
       end.

Definition parsed_formulas (c : BehavioralContract) : result exn ParsedFormulas :=
  pre ← (if String.eqb (strip (precondition_ltl c)) "" then Ok None
         else Some <$> parse (precondition_ltl c));
  post ← (if String.eqb (strip (postcondition_ltl c)) ""
             || String.eqb (strip (postcondition_ltl c)) "true" then Ok None
          else Some <$> parse (postcondition_ltl c));
  hard_inv ← map_result parse (invariants_ltl c);
  soft_inv ← map_result parse (soft_invariants_ltl c);
  hard_gov ← map_result parse (hard_governance_ltl c);
  soft_gov ← map_result parse (soft_governance_ltl c);
  Ok {| p_precondition := pre; p_postcondition := post;
        p_hard_invariants := hard_inv; p_soft_invariants := soft_inv;
        p_hard_governance := hard_gov; p_soft_governance := soft_gov |}.

(** [BehavioralContract.make]: the guards of the data class, then one parse. *)
Definition make (c : BehavioralContract) : result exn BehavioralContract :=
  c ← post_init c; _ ← parsed_formulas c; Ok c.

Definition applies_to (c : BehavioralContract) (agent kind : string) : bool :=
  if negb (String.eqb (agent_id c) "*") && negb (String.eqb (agent_id c) agent) then false
  else if member "*" (covered_event_kinds c) then true
  else member kind (covered_event_kinds c).

Definition total_constraint_count (c : BehavioralContract) : nat :=
  length (invariants_ltl c) + length (soft_invariants_ltl c)
  + length (hard_governance_ltl c) + length (soft_governance_ltl c).

(** ** The enforcer's state *)

(** [(agent_id, contract_id, kind, formula_idx)] *)
Definition key : Type := string * string * clause * nat.

Record entry := {
  e_triggering_event_id : string;
  started_at_step : nat;
  deadline_step : Z;
  e_clause_ltl : string;
  e_violated_clause : clause;
  e_contract_id : string;
  e_agent_id : string;
}.

Section Enforcer.
Context {W : Type}.

(** [self._soft_pending] is a dict: an association list in insertion order. *)
Record enforcer := {
  contracts : list BehavioralContract;
  parsed : list (string * ParsedFormulas);
  actor : string;
  step_index : nat;
  soft_pending : list (key * entry);
  violations : list ContractViolation;
  c_hard_history : list float;
  c_soft_history : list float;
  world : W;
}.

(** The outside world: [uuid.uuid4().hex[:16]], [datetime.now(UTC)], the
    ledger's [append_proposed] and the recovery dispatcher, whose exceptions the
    enforcer swallows. *)
Context (uuid_hex : W -> string * W) (now : W -> string * W).
Context (ledger : option (ProposedEvent -> W -> result exn string * W)).
Context (recovery : option (ContractViolation -> EcosystemState -> W -> W)).
Context (py_str : pyval -> string) (str_tuple : list string -> string).
Context (re_search : string -> string -> result exn bool).

(** ** Stateful computations *)

Abbreviation M := (stM enforcer exn).

Definition with_world (w : W) (s : enforcer) : enforcer :=
  {| contracts := contracts s; parsed := parsed s; actor := actor s;
     step_index := step_index s; soft_pending := soft_pending s;
     violations := violations s; c_hard_history := c_hard_history s;
     c_soft_history := c_soft_history s; world := w |}.
Definition with_step (n : nat) (s : enforcer) : enforcer :=
  {| contracts := contracts s; parsed := parsed s; actor := actor s;
     step_index := n; soft_pending := soft_pending s;
     violations := violations s; c_hard_history := c_hard_history s;
     c_soft_history := c_soft_history s; world := world s |}.
Definition with_pending (p : list (key * entry)) (s : enforcer) : enforcer :=
  {| contracts := contracts s; parsed := parsed s; actor := actor s;
     step_index := step_index s; soft_pending := p;
     violations := violations s; c_hard_history := c_hard_history s;
     c_soft_history := c_soft_history s; world := world s |}.
Definition with_violations (v : list ContractViolation) (s : enforcer) : enforcer :=
  {| contracts := contracts s; parsed := parsed s; actor := actor s;
     step_index := step_index s; soft_pending := soft_pending s;
     violations := v; c_hard_history := c_hard_history s;
     c_soft_history := c_soft_history s; world := world s |}.
Definition with_histories (h : float) (f : float) (s : enforcer) : enforcer :=
  {| contracts := contracts s; parsed := parsed s; actor := actor s;
     step_index := step_index s; soft_pending := soft_pending s;
     violations := violations s; c_hard_history := c_hard_history s ++ [h];
     c_soft_history := c_soft_history s ++ [f]; world := world s |}.

Definition effect {A} (f : W -> A * W) : M A :=
  fun s => let '(a, w) := f (world s) in (Ok a, with_world w s).

(** ** Dict operations *)

Fixpoint pending_get (k : key) (p : list (key * entry)) : option entry :=
  match p with
  | [] => None
  | (k', e) :: p => if decide (k = k') then Some e else pending_get k p
  end.
Definition pending_pop (k : key) (p : list (key * entry)) : list (key * entry) :=
  filter (fun ke => ke.1 <> k) p.

Fixpoint assoc {A} (k : string) (l : list (string * A)) : option A :=
  match l with
  | [] => None
  | (k', a) :: l => if String.eqb k k' then Some a else assoc k l
  end.

(** ** Construction *)

Fixpoint has_duplicate (seen : list string) (cs : list BehavioralContract) : bool :=
  match cs with
  | [] => false
  | c :: cs => member (contract_id c) seen || has_duplicate (contract_id c :: seen) cs
  end.

Definition init (cs : list BehavioralContract) (provenance : bool) (actor_id : string) (w : W)
    : result exn enforcer :=
  match cs with
  | [] => Err ValueError
  | _ =>
      if xorb (bool_decide (is_Some ledger)) provenance then Err ValueError
      else if has_duplicate [] cs then Err ValueError
      else
        ps ← map_result (fun c => p ← parsed_formulas c; Ok (contract_id c, p)) cs;
        Ok {| contracts := cs; parsed := ps; actor := actor_id; step_index := 0;
              soft_pending := []; violations := []; c_hard_history := [];
              c_soft_history := []; world := w |}
  end.

(** ** Recording a violation *)

Definition event_id_or_synth (ev : ProposedEvent) : string :=
  "proposed:" +:+ actor_entity_id ev +:+ ":" +:+ event_kind ev +:+ ":" +:+ proposed_at ev.

Definition clause_name (c : clause) : string :=
  match c with
  | precondition => "precondition" | hard_invariant => "hard_invariant"
  | soft_invariant => "soft_invariant" | hard_governance => "hard_governance"
  | soft_governance => "soft_governance" | postcondition => "postcondition"
  end.
Definition severity_name (s : severity) : string :=
  match s with block => "block" | sanction => "sanction" | warn => "warn" end.

(** The event that records violation [v] in the ledger. *)
Definition ledger_event (actor_id : string) (gap_milli : Z) (v : ContractViolation)
    : ProposedEvent := {|
  event_kind := "policy_decision";
  actor_entity_id := actor_id;
  target_entity_id := Some (v_agent_id v);
  payload :=
    [("decision_kind", PStr "contract_violation");
     ("contract_id", PStr (v_contract_id v));
     ("violated_clause", PStr (clause_name (violated_clause v)));
     ("clause_ltl", PStr (clause_ltl v));
     ("severity", PStr (severity_name (v_severity v)));
     ("step_index", PInt (Z.of_nat (v_step_index v)));
     ("compliance_gap_milli", PInt gap_milli);
     ("recovery_deadline_step",
        match recovery_deadline_step v with Some d => PInt d | None => PNone end);
     ("violation_id", PStr (violation_id v));
     ("triggering_event_id", PStr (triggering_event_id v))];
  proposed_at := detected_at v;
  session_id := None;
  upstream_event_ids := [] |}.

Definition append_to_ledger (append : ProposedEvent -> W -> result exn string * W)
    (v : ContractViolation) : M string := fun s =>
  match round_to_Z (fmul (compliance_gap v) (dec 1000 0)) with
  | None => (Err ValueError, s)
  | Some gap_milli =>
      let '(r, w) := append (ledger_event (actor s) gap_milli v) (world s) in
      (r, with_world w s)
  end.

Definition with_ledger_id (v : ContractViolation) (id : string) : ContractViolation :=
  {| violation_id := violation_id v; v_contract_id := v_contract_id v;
     v_agent_id := v_agent_id v; violated_clause := violated_clause v;
     clause_ltl := clause_ltl v; detected_at := detected_at v;
     triggering_event_id := triggering_event_id v; v_step_index := v_step_index v;
     v_severity := v_severity v; compliance_gap := compliance_gap v;
     recovery_deadline_step := recovery_deadline_step v;
     recovered_at_step := recovered_at_step v; ledger_event_id := Some id |}.

Definition with_recovered (v : ContractViolation) (n : nat) : ContractViolation :=
  {| violation_id := violation_id v; v_contract_id := v_contract_id v;
     v_agent_id := v_agent_id v; violated_clause := violated_clause v;
     clause_ltl := clause_ltl v; detected_at := detected_at v;
     triggering_event_id := triggering_event_id v; v_step_index := v_step_index v;
     v_severity := v_severity v; compliance_gap := compliance_gap v;
     recovery_deadline_step := recovery_deadline_step v;
     recovered_at_step := Some n; ledger_event_id := ledger_event_id v |}.

(** [_record].  The ledger entry is written before the violation is kept, and
    the dispatcher is called last. *)
Definition record (c : BehavioralContract) (ltl : string) (cl : clause) (is_soft : bool)
    (ev : ProposedEvent) (st : EcosystemState) (step : nat) (deadline : option Z)
    (sev_override : option severity) (trigger_override : option string) : M unit :=
  let sev := match sev_override with
             | Some s => s
             | None => if is_soft then warn else severity_on_violation c
             end in
  let trigger := match trigger_override with
                 | Some t => if String.eqb t "" then event_id_or_synth ev else t
                 | None => event_id_or_synth ev
                 end in
  uid ← effect uuid_hex;
  t ← effect now;
  let v := {|
    violation_id := "contract-violation-" +:+ uid; v_contract_id := contract_id c;
    v_agent_id := agent_id c; violated_clause := cl; clause_ltl := ltl;
    detected_at := t; triggering_event_id := trigger; v_step_index := step;
    v_severity := sev; compliance_gap := int_div 1 (1 `max` total_constraint_count c);
    recovery_deadline_step := deadline; recovered_at_step := None;
    ledger_event_id := None |} in
  v ← match ledger with
      | None => mret v
      | Some append => id ← append_to_ledger append v; mret (with_ledger_id v id)
      end;
  _ ← modify (fun s => with_violations (violations s ++ [v]) s);
  match recovery with
  | Some dispatch =>
      if is_soft || bool_decide (sev = sanction)
      then modify (fun s => with_world (dispatch v st (world s)) s)
      else mret ()
  | None => mret ()
  end.

(** ** Soft violations *)

Definition handle_soft_violation (k : key) (c : BehavioralContract) (ltl : string)
    (cl : clause) (ev : ProposedEvent) (st : EcosystemState) (step : nat) : M unit :=
  s ← get;
  match pending_get k (soft_pending s) with
  | Some _ => mret ()
  | None =>
      let '(agent, cid, _, _) := k in
      let deadline := (Z.of_nat step + recovery_window_k c)%Z in
      let e := {| e_triggering_event_id := event_id_or_synth ev; started_at_step := step;
                  deadline_step := deadline; e_clause_ltl := ltl; e_violated_clause := cl;
                  e_contract_id := cid; e_agent_id := agent |} in
      _ ← modify (fun s => with_pending (soft_pending s ++ [(k, e)]) s);
      record c ltl cl true ev st step (Some deadline) None None
  end.

(** The record the discharge looks for. *)
Definition discharges (e : entry) (v : ContractViolation) : bool :=
  String.eqb (v_contract_id v) (e_contract_id e)
  && String.eqb (v_agent_id v) (e_agent_id e)
  && bool_decide (violated_clause v = e_violated_clause e)
  && bool_decide (recovered_at_step v = None)
  && bool_decide (is_Some (recovery_deadline_step v)).

(** The loop from the newest record down: the first match is rewritten. *)
Fixpoint mark_last (e : entry) (n : nat) (vs : list ContractViolation)
    : option (list ContractViolation) :=
  match vs with
  | [] => None
  | v :: vs =>
      match mark_last e n vs with
      | Some vs' => Some (v :: vs')
      | None => if discharges e v then Some (with_recovered v n :: vs) else None
      end
  end.

Definition discharge_recovery (k : key) (n : nat) : M unit :=
  s ← get;
  match pending_get k (soft_pending s) with
  | None => mret ()
  | Some e =>
      if (deadline_step e <? Z.of_nat n)%Z then mret ()
      else
        _ ← modify (fun s => with_pending (pending_pop k (soft_pending s)) s);
        match mark_last e n (violations s) with
        | Some vs => modify (with_violations vs)
        | None => mret ()
        end
  end.

(** ** The sweep *)

Definition expired (step : nat) (p : list (key * entry)) : list (key * entry) :=
  filter (fun ke => (deadline_step ke.2 < Z.of_nat step)%Z) p.

Fixpoint sweep_loop (ks : list key) (ev : ProposedEvent) (st : EcosystemState) (step : nat)
    : M unit :=
  match ks with
  | [] => mret ()
  | k :: ks =>
      s ← get;
      match pending_get k (soft_pending s) with
      | None => lift (Err KeyError)
      | Some e =>
          _ ← modify (fun s => with_pending (pending_pop k (soft_pending s)) s);
          _ ← match find (fun c => String.eqb (contract_id c) (e_contract_id e)) (contracts s) with
              | None => mret ()
              | Some c =>
                  record c (e_clause_ltl e) (e_violated_clause e) false ev st step
                    (Some (deadline_step e)) (Some block) (Some (e_triggering_event_id e))
              end;
          sweep_loop ks ev st step
      end
  end.

Definition sweep_expired_recoveries (ev : ProposedEvent) (st : EcosystemState) (step : nat)
    : M unit :=
  s ← get; sweep_loop (expired step (soft_pending s)).*1 ev st step.

(** ** The check *)

Inductive phase := pre | post.

(** The local variables of [_check]. *)
Record counters := {
  hard_total : nat; hard_satisfied : nat; soft_total : nat; soft_satisfied : nat;
  violated_ids : list string; any_hard : bool; had_violation : bool;
}.
Definition counters0 : counters := {|
  hard_total := 0; hard_satisfied := 0; soft_total := 0; soft_satisfied := 0;
  violated_ids := []; any_hard := false; had_violation := false |}.

Definition count_hard (ok : bool) (a : counters) : counters := {|
  hard_total := S (hard_total a);
  hard_satisfied := if ok then S (hard_satisfied a) else hard_satisfied a;
  soft_total := soft_total a; soft_satisfied := soft_satisfied a;
  violated_ids := violated_ids a;
  any_hard := any_hard a || negb ok; had_violation := had_violation a || negb ok |}.
Definition count_soft (ok : bool) (a : counters) : counters := {|
  hard_total := hard_total a; hard_satisfied := hard_satisfied a;
  soft_total := S (soft_total a);
  soft_satisfied := if ok then S (soft_satisfied a) else soft_satisfied a;
  violated_ids := violated_ids a;
  any_hard := any_hard a; had_violation := had_violation a || negb ok |}.
Definition count_boundary (ok : bool) (a : counters) : counters := {|
  hard_total := hard_total a; hard_satisfied := hard_satisfied a;
  soft_total := soft_total a; soft_satisfied := soft_satisfied a;
  violated_ids := violated_ids a;
  any_hard := any_hard a || negb ok; had_violation := had_violation a || negb ok |}.
Definition begin_contract (a : counters) : counters := {|
  hard_total := hard_total a; hard_satisfied := hard_satisfied a;
  soft_total := soft_total a; soft_satisfied := soft_satisfied a;
  violated_ids := violated_ids a; any_hard := any_hard a; had_violation := false |}.
Definition end_contract (c : BehavioralContract) (a : counters) : counters := {|
  hard_total := hard_total a; hard_satisfied := hard_satisfied a;
  soft_total := soft_total a; soft_satisfied := soft_satisfied a;
  violated_ids := if had_violation a then violated_ids a ++ [contract_id c] else violated_ids a;
  any_hard := any_hard a; had_violation := had_violation a |}.

Section Check.
Context (agent : string) (ev : ProposedEvent) (st : EcosystemState) (step : nat).
Context (ctx : ContractContext).

(** [f.evaluate_finite(trace, resolver)] *)
Definition holds (f : LTLFormula) : result exn bool :=
  evaluate_finite (make_resolver py_str str_tuple re_search ctx) f (trace_for ctx) 0.

Definition check_boundary (c : BehavioralContract) (f : option LTLFormula) (ltl : string)
    (cl : clause) (a : counters) : M counters :=
  match f with
  | None => mret a
  | Some f =>
      ok ← lift (holds f);
      _ ← (if ok : bool then mret () else record c ltl cl false ev st step None None None);
      mret (count_boundary ok a)
  end.

Definition nth_ltl (ltls : list string) (i : nat) : M string :=
  match ltls !! i with Some l => mret l | None => lift (Err IndexError) end.

Fixpoint check_hard (c : BehavioralContract) (cl : clause) (ltls : list string)
    (i : nat) (fs : list LTLFormula) (a : counters) : M counters :=
  match fs with
  | [] => mret a
  | f :: fs =>
      ok ← lift (holds f);
      _ ← (if ok : bool then mret ()
           else ltl ← nth_ltl ltls i; record c ltl cl false ev st step None None None);
      check_hard c cl ltls (S i) fs (count_hard ok a)
  end.

Fixpoint check_soft (c : BehavioralContract) (cl : clause) (ltls : list string)
    (i : nat) (fs : list LTLFormula) (a : counters) : M counters :=
  match fs with
  | [] => mret a
  | f :: fs =>
      let k := (agent, contract_id c, cl, i) in
      ok ← lift (holds f);
      _ ← (if ok : bool then
             s ← get;
             match pending_get k (soft_pending s) with
             | Some _ => discharge_recovery k step
             | None => mret ()
             end
           else ltl ← nth_ltl ltls i; handle_soft_violation k c ltl cl ev st step);
      check_soft c cl ltls (S i) fs (count_soft ok a)
  end.

Definition check_contract (ph : phase) (c : BehavioralContract) (a : counters) : M counters :=
  s ← get;
  match assoc (contract_id c) (parsed s) with
  | None => lift (Err KeyError)
  | Some p =>
      a ← (match ph with
           | pre => check_boundary c (p_precondition p) (precondition_ltl c) precondition
           | post => check_boundary c (p_postcondition p) (postcondition_ltl c) postcondition
           end) (begin_contract a);
      a ← check_hard c hard_invariant (invariants_ltl c) 0 (p_hard_invariants p) a;
      a ← check_hard c hard_governance (hard_governance_ltl c) 0 (p_hard_governance p) a;
      a ← check_soft c soft_invariant (soft_invariants_ltl c) 0 (p_soft_invariants p) a;
      a ← check_soft c soft_governance (soft_governance_ltl c) 0 (p_soft_governance p) a;
      mret (end_contract c a)
  end.

Fixpoint check_contracts (ph : phase) (cs : list BehavioralContract) (a : counters) : M counters :=
  match cs with
  | [] => mret a
  | c :: cs => a ← check_contract ph c a; check_contracts ph cs a
  end.
End Check.

(** [1.0 if total == 0 else satisfied / total] *)
Definition score (satisfied total : nat) : float :=
  if total =? 0 then f_one else int_div satisfied total.

Definition active_contracts (cs : list BehavioralContract) (agent kind : string)
    : list BehavioralContract :=
  filter (fun c => applies_to c agent kind = true) cs.

(** [_check], which [check_pre] and [check_post] call with their phase. *)
Definition check (ph : phase) (agent : string) (ev : ProposedEvent) (st : EcosystemState)
    (window : list ProposedEvent) : M (bool * list string) :=
  _ ← modify (fun s => with_step (S (step_index s)) s);
  s ← get;
  let step := step_index s in
  let ctx := {| proposed_event := ev; state := st; event_window := window |} in
  a ← check_contracts agent ev st step ctx ph
        (active_contracts (contracts s) agent (event_kind ev)) counters0;
  _ ← modify (with_histories (score (hard_satisfied a) (hard_total a))
                             (score (soft_satisfied a) (soft_total a)));
  _ ← sweep_expired_recoveries ev st step;
  mret (negb (any_hard a), violated_ids a).

Definition check_pre := check pre.
Definition check_post := check post.

(** ** Read-only views *)

Record ComplianceScores := {
  c_hard : float; c_soft : float; contracts_evaluated : nat; constraints_evaluated : nat;
}.

(** Number of formulas of [fs] that hold, and the count of those evaluated. *)
Fixpoint tally (ctx : ContractContext) (fs : list LTLFormula) (acc : nat * nat)
    : result exn (nat * nat) :=
  match fs with
  | [] => Ok acc
  | f :: fs =>
      ok ← holds ctx f;
      tally ctx fs ((if ok : bool then S acc.1 else acc.1), S acc.2)
  end.

Fixpoint tally_contracts (ctx : ContractContext) (s : enforcer) (cs : list BehavioralContract)
    (hard soft : nat * nat) : result exn ((nat * nat) * (nat * nat)) :=
  match cs with
  | [] => Ok (hard, soft)
  | c :: cs =>
      match assoc (contract_id c) (parsed s) with
      | None => Err KeyError
      | Some p =>
          hard ← tally ctx (p_hard_invariants p) hard;
          hard ← tally ctx (p_hard_governance p) hard;
          soft ← tally ctx (p_soft_invariants p) soft;
          soft ← tally ctx (p_soft_governance p) soft;
          tally_contracts ctx s cs hard soft
      end
  end.

Definition compliance_scores (s : enforcer) (agent : string) (ev : ProposedEvent)
    (st : EcosystemState) (window : list ProposedEvent) : result exn ComplianceScores :=
  let ctx := {| proposed_event := ev; state := st; event_window := window |} in
  let active := active_contracts (contracts s) agent (event_kind ev) in
  '(hard, soft) ← tally_contracts ctx s active (0, 0) (0, 0);
  Ok {| c_hard := score hard.1 hard.2; c_soft := score soft.1 soft.2;
        contracts_evaluated := length active;
        constraints_evaluated := hard.2 + soft.2 |}.

Definition is_soft_clause (c : clause) : bool :=
  match c with soft_invariant | soft_governance => true | _ => false end.

Definition mean (l : list float) : float := fdiv (py_sum l) (float_of_Ze (Z.of_nat (length l)) 0).

Definition reliability_index (s : enforcer) (w : float * float * float * float)
    : result exn float :=
  let '(a1, a2, a3, a4) := w in
  if negb (in_unit a1) || negb (in_unit a2) then Err ValueError
  else if negb (in_unit a3) || negb (in_unit a4) then Err ValueError
  else if fltb (dec 1 6) (SFabs (fsub (fadd (fadd (fadd a1 a2) a3) a4) f_one))
  then Err ValueError
  else match c_hard_history s with
  | [] => Ok f_one
  | _ =>
      let c_bar := mean (c_hard_history s) in
      let soft_mean := match c_soft_history s with [] => f_one | l => mean l end in
      let d_bar := fsub f_one soft_mean in
      let soft := filter (fun v => is_soft_clause (violated_clause v) = true) (violations s) in
      let e :=
        match soft with
        | [] => f_zero
        | _ =>
            let recovered := filter (fun v => is_Some (recovered_at_step v)) soft in
            fsub f_one (int_div (length recovered) (length soft))
        end in
      Ok (fadd (fadd (fadd (fmul a1 c_bar) (fmul a2 (fsub f_one d_bar)))
                     (fmul a3 (fdiv f_one (fadd f_one e))))
               (fmul a4 f_one))
  end.
End Enforcer.
End ContractEnforcer.
