(* ===== verification/ContractEnforcerInv.v ===== *)
(** * Behavioural contracts: the enforcer's invariant and what a check does to
    its state (lemmas about [ContractEnforcer.check]) *)
From Stdlib Require Import SpecFloat.
From S2P Require Import Prelude StateExn PyStr PyFloat PyVal ContractLtl ContractAtoms ContractEnforcer.
Import ContractLtl ContractAtoms ContractEnforcer.
Open Scope string_scope.
Open Scope list_scope.
Open Scope nat_scope.

Module ContractEnforcerInv.
Section Proofs.
Context {W : Type}.
Context (uuid_hex : W -> string * W) (now : W -> string * W).
Context (ledger : option (ProposedEvent -> W -> result exn string * W)).
Context (recovery : option (ContractViolation -> EcosystemState -> W -> W)).
Context (py_str : pyval -> string) (str_tuple : list string -> string).
Context (re_search : string -> string -> result exn bool).

Abbreviation St := (enforcer (W := W)).
Abbreviation M := (stM St exn).
Abbreviation recordM := (ContractEnforcer.record uuid_hex now ledger recovery).
Abbreviation handle := (handle_soft_violation uuid_hex now ledger recovery).
Abbreviation sweepM := (sweep_loop uuid_hex now ledger recovery).
Abbreviation holdsR := (holds py_str str_tuple re_search).
Abbreviation checkB := (check_boundary uuid_hex now ledger recovery py_str str_tuple re_search).
Abbreviation checkH := (check_hard uuid_hex now ledger recovery py_str str_tuple re_search).
Abbreviation checkS := (check_soft uuid_hex now ledger recovery py_str str_tuple re_search).
Abbreviation checkC := (check_contract uuid_hex now ledger recovery py_str str_tuple re_search).
Abbreviation checkCs := (check_contracts uuid_hex now ledger recovery py_str str_tuple re_search).
Abbreviation checkM := (check uuid_hex now ledger recovery py_str str_tuple re_search).

(** ** What a check never touches *)

Definition frame (s s' : St) : Prop :=
  contracts s' = contracts s /\ parsed s' = parsed s /\ actor s' = actor s
  /\ step_index s' = step_index s
  /\ c_hard_history s' = c_hard_history s /\ c_soft_history s' = c_soft_history s.

#[global] Instance frame_preorder : PreOrder frame.
Proof.
  split; [by intros s|]. intros x y z (?&?&?&?&?&?) (?&?&?&?&?&?). unfold frame.
  repeat split; congruence.
Qed.

(** An append-only log, up to the recovery mark of open records. *)
Definition marked (v v' : ContractViolation) : Prop :=
  v' = v \/ (recovered_at_step v = None /\ is_Some (recovery_deadline_step v)
             /\ exists n, v' = with_recovered v n).

Definition log_grows (s s' : St) : Prop :=
  exists old new, violations s' = old ++ new /\ Forall2 marked (violations s) old.

#[global] Instance marked_preorder : PreOrder marked.
Proof.
  split; [by left|]. intros v1 v2 v3.
  intros [->|(H1 & H2 & n & ->)] [->|(H3 & H4 & n' & ->)]; unfold marked; eauto 10; simpl in *; done.
Qed.

#[global] Instance log_grows_preorder : PreOrder log_grows.
Proof.
  split.
  - intros s. exists (violations s), []. rewrite app_nil_r. split; [done|]. reflexivity.
  - intros x y z (o1 & n1 & E1 & H1) (o2 & n2 & E2 & H2). rewrite E1 in H2.
    apply Forall2_app_inv_l in H2 as (a & b & Ha & Hb & ->).
    exists a, (b ++ n2). rewrite E2, app_assoc. split; [done|].
    by transitivity o1.
Qed.

(** Entries past their deadline stay pending until the sweep. *)
Definition keeps_overdue (step : nat) (s s' : St) : Prop :=
  forall k e, pending_get k (soft_pending s) = Some e -> (deadline_step e < Z.of_nat step)%Z ->
    pending_get k (soft_pending s') = Some e.

#[global] Instance keeps_overdue_preorder step : PreOrder (keeps_overdue step).
Proof. split; [by intros s k e|]. intros x y z H1 H2 k e Hk Hd. auto. Qed.

Definition same_pending (s s' : St) : Prop := soft_pending s' = soft_pending s.
#[global] Instance same_pending_preorder : PreOrder same_pending.
Proof. split; [by intros s|]. unfold same_pending. intros ???. congruence. Qed.

(** ** The recording step *)

Lemma effect_respects (R : St -> St -> Prop) {A} (f : W -> A * W) :
  (forall s w, R s (with_world w s)) -> respects R (effect f).
Proof. intros H s. unfold effect. destruct (f (world s)). apply H. Qed.

Lemma append_respects (R : St -> St -> Prop) `{!PreOrder R} append v :
  (forall s w, R s (with_world w s)) -> respects R (append_to_ledger append v).
Proof.
  intros H s. unfold append_to_ledger. destruct (round_to_Z _) as [g|]; [|reflexivity].
  destruct (append _ (world s)). apply H.
Qed.

(** [_record] changes the log and the world only. *)
Lemma record_respects (R : St -> St -> Prop) `{!PreOrder R} c ltl cl soft ev st step d so to :
  (forall s w, R s (with_world w s)) ->
  (forall s v, R s (with_violations (violations s ++ [v]) s)) ->
  respects R (recordM c ltl cl soft ev st step d so to).
Proof.
  intros Hw Hv. unfold ContractEnforcer.record.
  apply respects_bind; [apply _|by apply effect_respects|intros uid].
  apply respects_bind; [apply _|by apply effect_respects|intros t].
  apply respects_bind; [apply _| |intros v].
  - destruct ledger as [append|]; [|by apply respects_ret].
    apply respects_bind; [apply _| |intros; by apply respects_ret].
    by apply append_respects.
  - respect; intro; auto.
Qed.

Lemma record_frame c ltl cl soft ev st step d so to :
  respects frame (recordM c ltl cl soft ev st step d so to).
Proof. apply record_respects; [apply _|done..]. Qed.
Lemma record_log c ltl cl soft ev st step d so to :
  respects log_grows (recordM c ltl cl soft ev st step d so to).
Proof.
  apply record_respects; [apply _| |].
  - intros s w. exists (violations s), []. rewrite app_nil_r.
    split; [done|reflexivity].
  - intros s v. exists (violations s), [v]. split; [done|reflexivity].
Qed.
Lemma record_pending c ltl cl soft ev st step d so to :
  respects same_pending (recordM c ltl cl soft ev st step d so to).
Proof. apply record_respects; [apply _|done..]. Qed.

(** A completed [_record] appends one record. *)
Definition records (c : BehavioralContract) (ltl : string) (cl : clause) (step : nat)
    (d : option Z) (sev : severity) (trigger : string) (v : ContractViolation) : Prop :=
  v_contract_id v = contract_id c /\ v_agent_id v = agent_id c /\ violated_clause v = cl
  /\ clause_ltl v = ltl /\ v_step_index v = step /\ recovery_deadline_step v = d
  /\ v_severity v = sev /\ recovered_at_step v = None /\ triggering_event_id v = trigger.

Definition severity_for (c : BehavioralContract) (soft : bool) (so : option severity) : severity :=
  match so with Some s => s | None => if soft then warn else severity_on_violation c end.
Definition trigger_for (ev : ProposedEvent) (to : option string) : string :=
  match to with
  | Some t => if String.eqb t "" then event_id_or_synth ev else t
  | None => event_id_or_synth ev
  end.

(** [_record] either appends its record or, when the ledger raises, nothing. *)
Lemma record_violations c ltl cl soft ev st step d so to s :
  exists w, (let '(r, s') := recordM c ltl cl soft ev st step d so to s in
    match r with
    | Ok _ => exists v, records c ltl cl step d (severity_for c soft so) (trigger_for ev to) v
                /\ s' = with_world w (with_violations (violations s ++ [v]) s)
    | Err _ => s' = with_world w s
    end).
Proof.
  unfold ContractEnforcer.record, effect, modify, mbind, M_bind.
  destruct (uuid_hex (world s)) as [uid w1]. cbn [world with_world].
  destruct (now w1) as [t w2]. cbv beta iota zeta.
  destruct ledger as [append|].
  - unfold append_to_ledger. cbn [compliance_gap].
    destruct (round_to_Z _) as [g|]; [|by exists w2].
    destruct (append _ _) as [[id|e] w3]; [|by exists w3].
    destruct recovery as [dispatch|]; [destruct (soft || _)|];
      cbn; eexists; (eexists; split; [|reflexivity]); by repeat split.
  - destruct recovery as [dispatch|]; [destruct (soft || _)|];
      cbn; eexists; (eexists; split; [|reflexivity]); by repeat split.
Qed.

(** ** The pending dict *)

Lemma pending_get_app k p k' e :
  pending_get k (p ++ [(k', e)])
  = match pending_get k p with
    | Some e' => Some e'
    | None => if decide (k = k') then Some e else None
    end.
Proof. induction p as [|[k1 e1] p IH]; simpl; [done|].
  by destruct (decide (k = k1)). Qed.

Lemma pending_get_pop k k' p :
  pending_get k (pending_pop k' p) = if decide (k = k') then None else pending_get k p.
Proof.
  unfold pending_pop. induction p as [|[k1 e1] p IH]; [by case_decide|].
  destruct (decide (k1 = k')) as [->|Hne].
  - rewrite filter_cons_False by (simpl; tauto). rewrite IH. simpl. repeat case_decide; congruence.
  - rewrite filter_cons_True by done. simpl. rewrite IH. repeat case_decide; congruence.
Qed.

Lemma pending_get_None k p : pending_get k p = None <-> k ∉ p.*1.
Proof.
  induction p as [|[k1 e1] p IH]; simpl; [set_solver|].
  rewrite not_elem_of_cons. case_decide; naive_solver.
Qed.

Lemma pending_get_elem k e p : pending_get k p = Some e -> (k, e) ∈ p.
Proof.
  induction p as [|[k1 e1] p IH]; simpl; [done|].
  case_decide; intros; simplify_eq; set_solver.
Qed.

Lemma pending_elem_get k e p : NoDup p.*1 -> (k, e) ∈ p -> pending_get k p = Some e.
Proof.
  induction p as [|[k1 e1] p IH]; simpl; [set_solver|].
  rewrite list.NoDup_cons, elem_of_cons. intros [Hk Hp] [?|He]; simplify_eq.
  - by rewrite decide_True.
  - case_decide; [|auto]. subst. destruct Hk. apply list_elem_of_fmap. by exists (k1, e).
Qed.

Lemma pending_pop_NoDup k p : NoDup p.*1 -> NoDup (pending_pop k p).*1.
Proof.
  unfold pending_pop. induction p as [|[k1 e1] p IH]; simpl; [done|].
  rewrite list.NoDup_cons, filter_cons. intros [Hk Hp]. case_decide; [|auto]. simpl.
  rewrite list.NoDup_cons. split; [|auto]. intros ([] & -> & Hin)%list_elem_of_fmap.
  apply list_elem_of_filter in Hin as [_ Hin]. apply Hk, list_elem_of_fmap. eauto.
Qed.

Lemma mark_last_marked e n vs vs' : mark_last e n vs = Some vs' -> Forall2 marked vs vs'.
Proof.
  revert vs'. induction vs as [|v vs IH]; simpl; intros vs' H; [done|].
  destruct (mark_last e n vs) as [vs1|]; simplify_eq.
  - constructor; [by left|auto].
  - destruct (discharges e v) eqn:E; simplify_eq. constructor; [right|reflexivity].
    unfold discharges in E. rewrite !andb_true_iff, !bool_decide_eq_true in E.
    destruct E as [[[[_ _] _] Hr] Hd]. eauto.
Qed.

(** ** Lifting a relation through the check *)

Lemma handle_respects (R : St -> St -> Prop) `{!PreOrder R} k c ltl cl ev st step :
  (forall d so to, respects R (recordM c ltl cl true ev st step d so to)) ->
  (forall s, pending_get k (soft_pending s) = None ->
     R s (with_pending (soft_pending s ++ [(k,
           {| e_triggering_event_id := event_id_or_synth ev; started_at_step := step;
              deadline_step := Z.of_nat step + recovery_window_k c; e_clause_ltl := ltl;
              e_violated_clause := cl; e_contract_id := k.1.1.2;
              e_agent_id := k.1.1.1 |})]) s)) ->
  respects R (handle k c ltl cl ev st step).
Proof.
  intros Hr Hp s. unfold handle_soft_violation, mbind, M_bind. simpl.
  destruct (pending_get k (soft_pending s)) eqn:E; [reflexivity|].
  destruct k as [[[agent cid] cl'] i]. simpl. etransitivity; [by apply Hp|]. apply Hr.
Qed.

Lemma discharge_respects (R : St -> St -> Prop) `{!PreOrder R} k n :
  (forall s e, pending_get k (soft_pending s) = Some e -> (Z.of_nat n <= deadline_step e)%Z ->
     R s (with_pending (pending_pop k (soft_pending s)) s)) ->
  (forall s e vs, mark_last e n (violations s) = Some vs -> R s (with_violations vs s)) ->
  respects R (discharge_recovery k n).
Proof.
  intros Hp Hv s. unfold discharge_recovery, mbind, M_bind. simpl.
  destruct (pending_get k (soft_pending s)) as [e|] eqn:E; [|reflexivity].
  destruct (Z.ltb_spec (deadline_step e) (Z.of_nat n)); [reflexivity|]. simpl.
  etransitivity; [by eapply Hp|].
  destruct (mark_last e n (violations s)) eqn:Em; simpl; [|reflexivity]. by eapply Hv.
Qed.

Section Lift.
Context (R : St -> St -> Prop) `{!PreOrder R}.
Context (agent : string) (ev : ProposedEvent) (st : EcosystemState) (step : nat).
Context (ctx : ContractContext) (CS : list BehavioralContract).
Context (Hrec : forall c ltl cl, c ∈ CS ->
  respects R (recordM c ltl cl false ev st step None None None)).
Context (Hhandle : forall c ltl cl i, c ∈ CS -> is_soft_clause cl = true ->
  respects R (handle (agent, contract_id c, cl, i) c ltl cl ev st step)).
Context (Hdis : forall k, respects R (discharge_recovery k step)).

Lemma nth_ltl_respects ltls i : respects R (nth_ltl ltls i).
Proof. unfold nth_ltl. respect. Qed.

Lemma boundary_respects c f ltl cl a :
  c ∈ CS -> respects R (checkB ev st step ctx c f ltl cl a).
Proof. intros Hc. unfold check_boundary. respect. by apply Hrec. Qed.

Lemma hard_respects c cl ltls i fs a :
  c ∈ CS -> respects R (checkH ev st step ctx c cl ltls i fs a).
Proof.
  intros Hc. revert i a. induction fs as [|f fs IH]; intros i a; simpl; respect;
    auto using nth_ltl_respects.
Qed.

Lemma soft_respects c cl ltls i fs a :
  c ∈ CS -> is_soft_clause cl = true ->
  respects R (checkS agent ev st step ctx c cl ltls i fs a).
Proof.
  intros Hc Hcl. revert i a. induction fs as [|f fs IH]; intros i a; simpl; respect;
    auto using nth_ltl_respects.
Qed.

Lemma contract_respects ph c a : c ∈ CS -> respects R (checkC agent ev st step ctx ph c a).
Proof.
  intros Hc. unfold check_contract. destruct ph; respect;
    auto using boundary_respects, hard_respects, soft_respects.
Qed.

Lemma contracts_respects ph cs a :
  (forall c, c ∈ cs -> c ∈ CS) -> respects R (checkCs agent ev st step ctx ph cs a).
Proof.
  revert a. induction cs as [|c cs IH]; intros a Hcs; simpl; respect.
  - apply contract_respects, Hcs. set_solver.
  - apply IH. set_solver.
Qed.
End Lift.

Lemma handle_frame k c ltl cl ev st step : respects frame (handle k c ltl cl ev st step).
Proof. apply handle_respects; [apply _|intros; apply record_frame|done]. Qed.
Lemma discharge_frame k n : respects frame (discharge_recovery k n).
Proof. apply discharge_respects; [apply _|done..]. Qed.

Lemma checkC_frame agent ev st step ctx ph c a :
  respects frame (checkC agent ev st step ctx ph c a).
Proof.
  apply contract_respects with (CS := [c]); try apply _; intros;
    [apply record_frame|apply handle_frame|apply discharge_frame|set_solver].
Qed.
Lemma checkCs_frame agent ev st step ctx ph cs a :
  respects frame (checkCs agent ev st step ctx ph cs a).
Proof.
  apply contracts_respects with (CS := cs); try apply _; intros;
    [apply record_frame|apply handle_frame|apply discharge_frame|done].
Qed.

Lemma checkCs_log agent ev st step ctx ph cs a :
  respects log_grows (checkCs agent ev st step ctx ph cs a).
Proof.
  apply contracts_respects with (CS := cs); try apply _; intros; try done.
  - apply record_log.
  - apply handle_respects; [apply _|intros; apply record_log|].
    intros s' _. exists (violations s'), []. rewrite app_nil_r. split; [done|reflexivity].
  - apply discharge_respects; [apply _| |].
    + intros s' e _ _. exists (violations s'), []. rewrite app_nil_r. split; [done|reflexivity].
    + intros s' e vs Hm%mark_last_marked. exists vs, []. by rewrite app_nil_r.
Qed.

Lemma same_pending_keeps step s s' : same_pending s s' -> keeps_overdue step s s'.
Proof. intros Hp k e. by rewrite Hp. Qed.

Lemma checkCs_keeps_overdue agent ev st step ctx ph cs a :
  respects (keeps_overdue step) (checkCs agent ev st step ctx ph cs a).
Proof.
  apply contracts_respects with (CS := cs); try apply _; intros; try done.
  - intros s. apply same_pending_keeps, record_pending.
  - apply handle_respects; [apply _|intros; intros s; apply same_pending_keeps, record_pending|].
    intros s _ k e Hk _. simpl. by rewrite pending_get_app, Hk.
  - apply discharge_respects; [apply _| |by intros s e vs _ k' e'].
    intros s e He Hd k' e' Hk' Hd'. simpl. rewrite pending_get_pop.
    case_decide; [|done]. subst. rewrite He in Hk'. simplify_eq. lia.
Qed.
End Proofs.
End ContractEnforcerInv.
