(* ===== verification/ContractEnforcerVerdict.v ===== *)
(** * Behavioural contracts: what the verdict of a check says
    (theorems about [ContractEnforcer.check] and [compliance_scores]) *)
From Stdlib Require Import SpecFloat.
From S2P Require Import Prelude StateExn PyStr PyFloat PyVal ContractLtl ContractAtoms ContractEnforcer.
From S2P Require Import ContractEnforcerInv.
Import ContractLtl ContractAtoms ContractEnforcer ContractEnforcerInv.
Open Scope string_scope.
Open Scope list_scope.
Open Scope nat_scope.

Module ContractEnforcerVerdict.
Section Proofs.
Context {W : Type}.
Context (uuid_hex : W -> string * W) (now : W -> string * W).
Context (ledger : option (ProposedEvent -> W -> result exn string * W)).
Context (recovery : option (ContractViolation -> EcosystemState -> W -> W)).
Context (py_str : pyval -> string) (str_tuple : list string -> string).
Context (re_search : string -> string -> result exn bool).

Abbreviation St := (enforcer (W := W)).
Abbreviation holdsR := (holds py_str str_tuple re_search).
Abbreviation checkB := (check_boundary uuid_hex now ledger recovery py_str str_tuple re_search).
Abbreviation checkH := (check_hard uuid_hex now ledger recovery py_str str_tuple re_search).
Abbreviation checkS := (check_soft uuid_hex now ledger recovery py_str str_tuple re_search).
Abbreviation checkC := (check_contract uuid_hex now ledger recovery py_str str_tuple re_search).
Abbreviation checkCs := (check_contracts uuid_hex now ledger recovery py_str str_tuple re_search).
Abbreviation checkM := (check uuid_hex now ledger recovery py_str str_tuple re_search).
Abbreviation tallyR := (tally py_str str_tuple re_search).
Abbreviation tallyCs := (tally_contracts py_str str_tuple re_search).

(** ** The counters a completed loop leaves *)

Definition all_true (l : list bool) : bool := forallb id l.
Definition num_true (l : list bool) : nat := length (filter (fun b => b = true) l).

Definition add_hard (a : counters) (l : list bool) : counters :=
  foldl (fun a ok => count_hard ok a) a l.
Definition add_soft (a : counters) (l : list bool) : counters :=
  foldl (fun a ok => count_soft ok a) a l.

Abbreviation results ctx := (Forall2 (fun f b => holdsR ctx f = Ok b)).

Lemma check_hard_ok ev st step ctx c cl ltls i fs a s a' s' :
  checkH ev st step ctx c cl ltls i fs a s = (Ok a', s') ->
  (exists l, results ctx fs l /\ a' = add_hard a l)
  /\ tallyR ctx fs (hard_satisfied a, hard_total a) = Ok (hard_satisfied a', hard_total a').
Proof.
  revert i a s. induction fs as [|f fs IH]; simpl; intros i a s H; inv_M; [by eauto|].
  apply IH in H as [(l & Hl & ->) Ht].
  split; [exists (x :: l); split; [by constructor|done]|].
  rewrite Hm. simpl. by destruct x.
Qed.

Lemma check_soft_ok agent ev st step ctx c cl ltls i fs a s a' s' :
  checkS agent ev st step ctx c cl ltls i fs a s = (Ok a', s') ->
  (exists l, results ctx fs l /\ a' = add_soft a l)
  /\ tallyR ctx fs (soft_satisfied a, soft_total a) = Ok (soft_satisfied a', soft_total a').
Proof.
  revert i a s. induction fs as [|f fs IH]; simpl; intros i a s H; inv_M; [by eauto|].
  apply IH in H as [(l & Hl & ->) Ht].
  split; [exists (x :: l); split; [by constructor|done]|].
  rewrite Hm. simpl. by destruct x.
Qed.

Lemma check_boundary_ok ev st step ctx c f ltl cl a s a' s' :
  checkB ev st step ctx c f ltl cl a s = (Ok a', s') ->
  exists l, results ctx (option_list f) l /\ a' = foldl (fun a ok => count_boundary ok a) a l.
Proof.
  destruct f as [f|]; simpl; intros H; inv_M.
  - exists [x]. split; [by repeat constructor|done].
  - by exists [].
Qed.

(** What folding a list of outcomes does to the flags. *)
Lemma add_hard_flags a l :
  any_hard (add_hard a l) = any_hard a || negb (all_true l)
  /\ had_violation (add_hard a l) = had_violation a || negb (all_true l)
  /\ violated_ids (add_hard a l) = violated_ids a
  /\ soft_total (add_hard a l) = soft_total a
  /\ soft_satisfied (add_hard a l) = soft_satisfied a.
Proof.
  unfold add_hard, all_true. revert a.
  induction l as [|b l IH]; intros a; simpl; [by rewrite !orb_false_r|].
  destruct (IH (count_hard b a)) as (-> & -> & -> & -> & ->). simpl.
  rewrite negb_andb, <- !orb_assoc. done.
Qed.
Lemma add_soft_flags a l :
  any_hard (add_soft a l) = any_hard a
  /\ had_violation (add_soft a l) = had_violation a || negb (all_true l)
  /\ violated_ids (add_soft a l) = violated_ids a
  /\ hard_total (add_soft a l) = hard_total a
  /\ hard_satisfied (add_soft a l) = hard_satisfied a.
Proof.
  unfold add_soft, all_true. revert a.
  induction l as [|b l IH]; intros a; simpl; [by rewrite orb_false_r|].
  destruct (IH (count_soft b a)) as (-> & -> & -> & -> & ->). simpl.
  rewrite negb_andb, <- !orb_assoc. done.
Qed.
Lemma add_boundary_flags a l :
  let a' := foldl (fun a ok => count_boundary ok a) a l in
  any_hard a' = any_hard a || negb (all_true l)
  /\ had_violation a' = had_violation a || negb (all_true l)
  /\ violated_ids a' = violated_ids a
  /\ hard_total a' = hard_total a /\ hard_satisfied a' = hard_satisfied a
  /\ soft_total a' = soft_total a /\ soft_satisfied a' = soft_satisfied a.
Proof.
  unfold all_true. revert a.
  induction l as [|b l IH]; intros a; simpl; [by rewrite !orb_false_r|].
  destruct (IH (count_boundary b a)) as (-> & -> & -> & -> & -> & -> & ->). simpl.
  rewrite negb_andb, <- !orb_assoc. done.
Qed.

(** ** One contract *)

(** The formulas whose failure clears the verdict, and those that only open a
    recovery obligation. *)
Definition hard_formulas (ph : phase) (p : ParsedFormulas) : list LTLFormula :=
  option_list (match ph with pre => p_precondition p | post => p_postcondition p end)
  ++ p_hard_invariants p ++ p_hard_governance p.
Definition soft_formulas (p : ParsedFormulas) : list LTLFormula :=
  p_soft_invariants p ++ p_soft_governance p.

Definition all_hold (ctx : ContractContext) (fs : list LTLFormula) : Prop :=
  Forall (fun f => holdsR ctx f = Ok true) fs.

Lemma results_all ctx fs l : results ctx fs l -> (all_true l = true <-> all_hold ctx fs).
Proof.
  unfold all_true, all_hold. induction 1 as [|f b fs l Hf Hl IH]; simpl; [done|].
  rewrite andb_true_iff, IH, list.Forall_cons, Hf. destruct b; simpl; [tauto|].
  split; intros [? _]; congruence.
Qed.

(** The five loops of one contract, as one record of outcomes. *)
Lemma check_contract_run agent ev st step ctx ph c a s a' s' :
  checkC agent ev st step ctx ph c a s = (Ok a', s') ->
  exists p l0 l1 l2 l3 l4, assoc (contract_id c) (parsed s) = Some p
  /\ results ctx (hard_formulas ph p) (l0 ++ l1 ++ l2)
  /\ results ctx (soft_formulas p) (l3 ++ l4)
  /\ any_hard a' = any_hard a || negb (all_true (l0 ++ l1 ++ l2))
  /\ violated_ids a' = (if all_true (l0 ++ l1 ++ l2) && all_true (l3 ++ l4)
                        then violated_ids a else violated_ids a ++ [contract_id c])
  /\ forall cs, tallyCs ctx s (c :: cs) (hard_satisfied a, hard_total a) (soft_satisfied a, soft_total a)
      = tallyCs ctx s cs (hard_satisfied a', hard_total a') (soft_satisfied a', soft_total a').
Proof.
  unfold check_contract. intros H. inv_M.
  destruct (assoc (contract_id c) (parsed x)) as [p|] eqn:Ep; [|done]. inv_M.
  assert (exists l0, results ctx (option_list (match ph with pre => p_precondition p
            | post => p_postcondition p end)) l0
          /\ x0 = foldl (fun a ok => count_boundary ok a) (begin_contract a) l0) as (l0 & R0 & E0)
    by (destruct ph; by eapply check_boundary_ok).
  apply check_hard_ok in Hm0 as [(l1 & R1 & E1) T1].
  apply check_hard_ok in Hm1 as [(l2 & R2 & E2) T2].
  apply check_soft_ok in Hm2 as [(l3 & R3 & E3) T3].
  apply check_soft_ok in Hm3 as [(l4 & R4 & E4) T4].
  destruct (add_boundary_flags (begin_contract a) l0) as (A0 & B0 & C0 & D0 & F0 & G0 & I0).
  destruct (add_hard_flags x0 l1) as (A1 & B1 & C1 & D1 & F1).
  destruct (add_hard_flags x1 l2) as (A2 & B2 & C2 & D2 & F2).
  destruct (add_soft_flags x2 l3) as (A3 & B3 & C3 & D3 & F3).
  destruct (add_soft_flags x3 l4) as (A4 & B4 & C4 & D4 & F4).
  rewrite <- E0 in *. rewrite <- E1 in *. rewrite <- E2 in *. rewrite <- E3 in *. rewrite <- E4 in *.
  clear E0 E1 E2 E3 E4. cbn [begin_contract hard_satisfied hard_total soft_satisfied soft_total] in D0, F0, G0, I0.
  exists p, l0, l1, l2, l3, l4. split; [done|].
  split; [by repeat apply Forall2_app|]. split; [by apply Forall2_app|].
  split; [|split].
  - simpl. rewrite A4, A3, A2, A1, A0. unfold all_true. rewrite !forallb_app, !negb_andb, <- !orb_assoc.
    done.
  - simpl. rewrite B4, B3, B2, B1, B0, C4, C3, C2, C1, C0. unfold all_true. rewrite !forallb_app. simpl.
    by destruct (forallb id l0), (forallb id l1), (forallb id l2), (forallb id l3), (forallb id l4).
  - intros cs. simpl. rewrite Ep, <- F0, <- D0. simpl. rewrite T1. simpl. rewrite T2. simpl.
    rewrite <- I0, <- G0, <- F1, <- D1, <- F2, <- D2, T3. simpl. rewrite T4. simpl.
    by rewrite F4, D4, F3, D3.
Qed.

Lemma check_contract_ok agent ev st step ctx ph c a s a' s' :
  checkC agent ev st step ctx ph c a s = (Ok a', s') ->
  exists p, assoc (contract_id c) (parsed s) = Some p
  /\ (any_hard a' = false <-> any_hard a = false /\ all_hold ctx (hard_formulas ph p))
  /\ (forall id, id ∈ violated_ids a' <-> id ∈ violated_ids a
       \/ id = contract_id c /\ ~ all_hold ctx (hard_formulas ph p ++ soft_formulas p)).
Proof.
  intros H. apply check_contract_run in H as (p & l0 & l1 & l2 & l3 & l4 & Hp & Rh & Rs & Ha & Hv & _).
  exists p. split; [done|]. apply results_all in Rh, Rs.
  assert (all_hold ctx (hard_formulas ph p ++ soft_formulas p)
          <-> all_true (l0 ++ l1 ++ l2) = true /\ all_true (l3 ++ l4) = true) as Hall
    by (unfold all_hold in *; rewrite list.Forall_app; tauto).
  split.
  - rewrite <- Rh, Ha. clear. destruct (any_hard a), (all_true _); simpl; naive_solver.
  - intros id. rewrite Hall, Hv. clear. destruct (all_true (l0 ++ _)), (all_true (l3 ++ _)); simpl;
      rewrite ?elem_of_app, ?list_elem_of_singleton; naive_solver.
Qed.

(** ** All the active contracts *)

Lemma check_contracts_ok agent ev st step ctx ph cs a s a' s' :
  checkCs agent ev st step ctx ph cs a s = (Ok a', s') ->
  (any_hard a' = false <-> any_hard a = false /\
     forall c, c ∈ cs -> exists p, assoc (contract_id c) (parsed s) = Some p
                          /\ all_hold ctx (hard_formulas ph p))
  /\ (forall id, id ∈ violated_ids a' <-> id ∈ violated_ids a
      \/ exists c p, c ∈ cs /\ id = contract_id c /\ assoc (contract_id c) (parsed s) = Some p
           /\ ~ all_hold ctx (hard_formulas ph p ++ soft_formulas p)).
Proof.
  revert a s. induction cs as [|c cs IH]; simpl; intros a s H; inv_M.
  - split; [set_solver|]. intros id. split; [by left|]. intros [?|(c & p & Hc & _)]; set_solver.
  - assert (parsed s0 = parsed s) as Hp.
    { pose proof (checkC_frame uuid_hex now ledger recovery py_str str_tuple re_search
        agent ev st step ctx ph c a s) as Hf. rewrite Hm in Hf. apply Hf. }
    apply IH in H as [Ha Hv]. apply check_contract_ok in Hm as (p & Hpc & Hac & Hvc).
    setoid_rewrite Hp in Ha. setoid_rewrite Hp in Hv. split.
    + rewrite Ha, Hac. setoid_rewrite elem_of_cons. naive_solver.
    + intros id. rewrite Hv, Hvc. setoid_rewrite elem_of_cons. naive_solver.
Qed.

Lemma tallyCs_parsed ctx (s1 s2 : St) cs h f :
  parsed s1 = parsed s2 -> tallyCs ctx s1 cs h f = tallyCs ctx s2 cs h f.
Proof.
  intros Hp. revert h f. induction cs as [|c cs IH]; intros h f; simpl; [done|].
  rewrite Hp. case_match; [|done].
  repeat (case_match || (apply result_bind_ext; intros)). apply IH.
Qed.

Lemma check_contracts_tally agent ev st step ctx ph cs a s a' s' :
  checkCs agent ev st step ctx ph cs a s = (Ok a', s') ->
  tallyCs ctx s cs (hard_satisfied a, hard_total a) (soft_satisfied a, soft_total a)
  = Ok ((hard_satisfied a', hard_total a'), (soft_satisfied a', soft_total a')).
Proof.
  revert a s. induction cs as [|c cs IH]; intros a s H.
  - simpl in H. by inv_M.
  - simpl in H. inv_M.
    pose proof (checkC_frame uuid_hex now ledger recovery py_str str_tuple re_search
        agent ev st step ctx ph c a s) as Hf. rewrite Hm in Hf. destruct Hf as (_ & Hp & _).
    apply check_contract_run in Hm as (p & l0 & l1 & l2 & l3 & l4 & _ & _ & _ & _ & _ & Ht).
    rewrite Ht. rewrite <- (IH _ _ H). apply tallyCs_parsed. done.
Qed.
End Proofs.
End ContractEnforcerVerdict.
