(* ===== verification/ContractEnforcerSpec.v ===== *)
(** * Behavioural contracts: the enforcer's guarantees
    (theorems about [ContractEnforcer.check] on reachable states) *)
From Stdlib Require Import SpecFloat.
From S2P Require Import Prelude StateExn PyStr PyFloat PyVal ContractLtl ContractAtoms ContractEnforcer.
From S2P Require Import ContractEnforcerInv ContractEnforcerVerdict.
Import ContractLtl ContractAtoms ContractEnforcer ContractEnforcerInv ContractEnforcerVerdict.
Open Scope string_scope.
Open Scope list_scope.
Open Scope nat_scope.

Module ContractEnforcerSpec.

(** The parsed formulas the check looks up are those of the contract's text. *)
Lemma has_duplicate_seen seen cs :
  has_duplicate seen cs = false -> forall c, c ∈ cs -> contract_id c ∉ seen.
Proof.
  revert seen. induction cs as [|c cs IH]; simpl; intros seen H c' Hc; [set_solver|].
  apply orb_false_iff in H as [Hm H]. apply elem_of_cons in Hc as [->|Hc].
  - intros Hin. unfold member in Hm. apply not_true_iff_false in Hm. apply Hm.
    apply existsb_exists. exists (contract_id c). split; [by apply list_elem_of_In|].
    by apply String.eqb_eq.
  - specialize (IH _ H c' Hc). set_solver.
Qed.

Lemma parsed_lookup seen cs ps c :
  map_result (fun c => p ← parsed_formulas c; Ok (contract_id c, p)) cs = Ok ps ->
  has_duplicate seen cs = false -> c ∈ cs ->
  exists p, parsed_formulas c = Ok p /\ assoc (contract_id c) ps = Some p.
Proof.
  revert seen ps. induction cs as [|c' cs IH]; simpl; intros seen ps H Hd Hc; [set_solver|].
  inv_bind. apply orb_false_iff in Hd as [_ Hd]. apply elem_of_cons in Hc as [->|Hc].
  - exists x1. simpl. by rewrite String.eqb_refl.
  - destruct (IH _ _ H1 Hd Hc) as (p & Hp & Ha). exists p. split; [done|]. simpl.
    destruct (String.eqb_spec (contract_id c) (contract_id c')) as [Heq|]; [|done].
    pose proof (has_duplicate_seen _ _ Hd c Hc). set_solver.
Qed.

Section Proofs.
Context {W : Type}.
Context (uuid_hex : W -> string * W) (now : W -> string * W).
Context (ledger : option (ProposedEvent -> W -> result exn string * W)).
Context (recovery : option (ContractViolation -> EcosystemState -> W -> W)).
Context (py_str : pyval -> string) (str_tuple : list string -> string).
Context (re_search : string -> string -> result exn bool).

Abbreviation St := (enforcer (W := W)).
Abbreviation M := (stM St exn).
Abbreviation recordM := (ContractEnforcer.record uuid_hex now ledger recovery).
Abbreviation handle := (handle_soft_violation uuid_hex now ledger recovery).
Abbreviation sweepM := (sweep_loop uuid_hex now ledger recovery).
Abbreviation checkCs := (check_contracts uuid_hex now ledger recovery py_str str_tuple re_search).
Abbreviation checkM := (check uuid_hex now ledger recovery py_str str_tuple re_search).
Abbreviation all_holdR := (all_hold py_str str_tuple re_search).

(** ** The invariant *)

(** A pending entry is filed under its own agent, contract and clause kind, and
    its deadline is its start plus the contract's recovery window. *)
Definition wf_entry (cs : list BehavioralContract) (step : nat) (ke : key * entry) : Prop :=
  (exists i, ke.1 = (e_agent_id ke.2, e_contract_id ke.2, e_violated_clause ke.2, i))
  /\ is_soft_clause (e_violated_clause ke.2) = true
  /\ e_triggering_event_id ke.2 <> ""
  /\ started_at_step ke.2 <= step
  /\ exists c, c ∈ cs /\ contract_id c = e_contract_id ke.2
       /\ deadline_step ke.2 = (Z.of_nat (started_at_step ke.2) + recovery_window_k c)%Z.

(** A record names a contract of the enforcer, and carries that contract's
    agent. *)
Definition wf_violation (cs : list BehavioralContract) (step : nat) (v : ContractViolation) : Prop :=
  v_step_index v <= step
  /\ exists c, c ∈ cs /\ contract_id c = v_contract_id v /\ agent_id c = v_agent_id v.

Definition parsed_ok (cs : list BehavioralContract) (ps : list (string * ParsedFormulas)) : Prop :=
  map_result (fun c => p ← parsed_formulas c; Ok (contract_id c, p)) cs = Ok ps
  /\ has_duplicate [] cs = false.

Definition wf (s : St) : Prop :=
  parsed_ok (contracts s) (parsed s)
  /\ NoDup (soft_pending s).*1
  /\ Forall (wf_entry (contracts s) (step_index s)) (soft_pending s)
  /\ Forall (wf_violation (contracts s) (step_index s)) (violations s).

Lemma wf_parsed s c :
  wf s -> c ∈ contracts s ->
  exists p, parsed_formulas c = Ok p /\ assoc (contract_id c) (parsed s) = Some p.
Proof. intros ([Hp Hd] & _) Hc. by eapply parsed_lookup. Qed.

(** ** Preservation *)

Definition keeps_wf (cs : list BehavioralContract) (step : nat) (s s' : St) : Prop :=
  contracts s = cs -> step_index s = step -> wf s ->
  contracts s' = cs /\ step_index s' = step /\ wf s'.

#[local] Instance keeps_wf_preorder cs step : PreOrder (keeps_wf cs step).
Proof. split; [by intros s|]. intros x y z H1 H2 ???. destruct H1 as (? & ? & ?); auto. Qed.

Lemma event_id_nonempty ev : event_id_or_synth ev <> "".
Proof. unfold event_id_or_synth. by rewrite str_app_cons. Qed.

Lemma record_keeps c ltl cl soft ev st step d so to cs :
  c ∈ cs -> respects (keeps_wf cs step) (recordM c ltl cl soft ev st step d so to).
Proof.
  intros Hc s Hcs Hst (Hp & Hn & He & Hv).
  destruct (record_violations uuid_hex now ledger recovery c ltl cl soft ev st step d so to s)
    as [w H].
  destruct (recordM c ltl cl soft ev st step d so to s) as [[[]|e] s']; simpl.
  - destruct H as (v & (Hid & Hag & _ & _ & Hix & _) & ->). simpl.
    split; [done|]. split; [done|]. repeat split; simpl; try done; try apply Hp.
    apply Forall_app. split; [done|]. apply Forall_singleton. split; [lia|].
    exists c. rewrite Hcs. auto.
  - subst s'. simpl. split; [done|]. split; [done|]. by repeat split; simpl; try apply Hp.
Qed.

Lemma handle_keeps agent c ltl cl i ev st step cs :
  c ∈ cs -> is_soft_clause cl = true ->
  respects (keeps_wf cs step) (handle (agent, contract_id c, cl, i) c ltl cl ev st step).
Proof.
  intros Hc Hcl. apply handle_respects; [apply _|intros; by apply record_keeps|].
  intros s Hk Hcs Hst (Hp & Hn & He & Hv). simpl. split; [done|]. split; [done|].
  repeat split; simpl; try done; try apply Hp.
  - rewrite fmap_app. apply list.NoDup_app. split; [done|]. split; [|apply list.NoDup_singleton].
    intros k Hin ->%list_elem_of_singleton. by apply pending_get_None in Hk.
  - apply Forall_app. split; [done|]. apply Forall_singleton.
    split; [by exists i|]. split; [done|]. split; [apply event_id_nonempty|].
    split; [simpl; lia|]. exists c. rewrite Hcs. done.
Qed.

Lemma wf_violation_marked cs step v v' : marked v v' -> wf_violation cs step v -> wf_violation cs step v'.
Proof. by intros [->|(_ & _ & n & ->)]. Qed.

Lemma Forall_pop cs step k p :
  Forall (wf_entry cs step) p -> Forall (wf_entry cs step) (pending_pop k p).
Proof.
  rewrite !list.Forall_forall. intros H ke [_ Hin]%list_elem_of_filter. by apply H.
Qed.

Lemma discharge_keeps k cs step : respects (keeps_wf cs step) (discharge_recovery k step).
Proof.
  apply discharge_respects; [apply _| |].
  - intros s e Hk _ Hcs Hst (Hp & Hn & He & Hv). simpl. split; [done|]. split; [done|].
    repeat split; simpl; try done; try apply Hp; [by apply pending_pop_NoDup|by apply Forall_pop].
  - intros s e vs Hm%mark_last_marked Hcs Hst (Hp & Hn & He & Hv). simpl.
    split; [done|]. split; [done|]. repeat split; simpl; try done; try apply Hp.
    clear -Hm Hv. induction Hm; [done|]. apply Forall_cons_1 in Hv as [? ?].
    constructor; [by eapply wf_violation_marked|auto].
Qed.

Lemma checkCs_keeps agent ev st step ctx ph cs cs' a :
  (forall c, c ∈ cs' -> c ∈ cs) ->
  respects (keeps_wf cs step) (checkCs agent ev st step ctx ph cs' a).
Proof.
  intros Hsub. apply contracts_respects with (CS := cs); try apply _; intros;
    [by apply record_keeps|by apply handle_keeps|apply discharge_keeps|auto].
Qed.

Lemma find_contract cs id c0 :
  c0 ∈ cs -> contract_id c0 = id ->
  exists c, find (fun c => String.eqb (contract_id c) id) cs = Some c
            /\ c ∈ cs /\ contract_id c = id.
Proof.
  intros H0 Hid. destruct (find _ cs) as [c|] eqn:E.
  - exists c. split; [done|]. apply find_some in E as [Hin Heq].
    split; [by apply list_elem_of_In|by apply String.eqb_eq].
  - pose proof (find_none _ _ E c0) as Hn. rewrite String.eqb_neq in Hn.
    destruct Hn; [by apply list_elem_of_In|done].
Qed.

Lemma pop_keeps cs step k : respects (keeps_wf cs step)
  (modify (fun s => with_pending (pending_pop k (soft_pending s)) s) : M unit).
Proof.
  intros s Hcs Hst (Hp & Hn & He & Hv). simpl. split; [done|]. split; [done|].
  repeat split; simpl; try done; try apply Hp; [by apply pending_pop_NoDup|by apply Forall_pop].
Qed.

(** One turn of the sweep, once the entry and its contract are found. *)
Definition escalate (k : key) (e : entry) (c : BehavioralContract)
    (ev : ProposedEvent) (st : EcosystemState) (step : nat) : M unit :=
  _ ← modify (fun s => with_pending (pending_pop k (soft_pending s)) s);
  recordM c (e_clause_ltl e) (e_violated_clause e) false ev st step
    (Some (deadline_step e)) (Some block) (Some (e_triggering_event_id e)).

Lemma sweep_cons k ks ev st step s e :
  wf s -> pending_get k (soft_pending s) = Some e ->
  exists c, c ∈ contracts s /\ contract_id c = e_contract_id e
    /\ sweepM (k :: ks) ev st step s
       = (_ ← escalate k e c ev st step; sweepM ks ev st step) s.
Proof.
  intros (Hp & Hn & He & Hv) Ek.
  pose proof (proj1 (list.Forall_forall _ _) He _ (pending_get_elem _ _ _ Ek))
    as (_ & _ & _ & _ & c0 & Hc0 & Hid0 & _). simpl in Hid0.
  destruct (find_contract _ _ _ Hc0 Hid0) as (c & Hf & Hc & Hid).
  exists c. split; [done|]. split; [done|]. simpl.
  unfold mbind, M_bind, get. rewrite Ek. simpl. rewrite Hf. reflexivity.
Qed.

Lemma escalate_keeps k e c ev st step cs :
  c ∈ cs -> respects (keeps_wf cs step) (escalate k e c ev st step).
Proof.
  intros Hc. apply respects_bind; [apply _|apply pop_keeps|intros _]. by apply record_keeps.
Qed.

Lemma sweep_keeps ks ev st step cs : respects (keeps_wf cs step) (sweepM ks ev st step).
Proof.
  induction ks as [|k ks IH]; [apply respects_ret; apply _|].
  intros s Hcs Hst Hwf. destruct (pending_get k (soft_pending s)) as [e|] eqn:Ek.
  - destruct (sweep_cons k ks ev st step s e Hwf Ek) as (c & Hc & _ & ->).
    rewrite Hcs in Hc. revert s Hcs Hst Hwf Ek.
    enough (respects (keeps_wf cs step) (_ ← escalate k e c ev st step; sweepM ks ev st step))
      as Hgo by (intros s Hcs Hst Hwf _; exact (Hgo s Hcs Hst Hwf)).
    apply respects_bind; [apply _|by apply escalate_keeps|intros _; done].
  - simpl. unfold mbind, M_bind, get. rewrite Ek. simpl. auto.
Qed.

Lemma wf_next (s : St) : wf s -> wf (with_step (S (step_index s)) s).
Proof.
  intros (Hp & Hn & He & Hv). split; [done|]. split; [done|].
  split; simpl; (eapply list.Forall_impl; [eassumption|]).
  - intros ke (Hk & Hc & Ht & Hs & Hd). repeat (split; [done|]). split; [lia|done].
  - intros v [Hs Hc]. split; [lia|done].
Qed.

Lemma active_subset cs agent kind c : c ∈ active_contracts cs agent kind -> c ∈ cs.
Proof. by intros [_ ?]%list_elem_of_filter. Qed.

(** The check, phase by phase: step counter, contracts, scores, sweep. *)
Lemma check_unfold ph agent ev st window s :
  let s0 := with_step (S (step_index s)) s in
  let step := S (step_index s) in
  let ctx := {| proposed_event := ev; state := st; event_window := window |} in
  checkM ph agent ev st window s =
  match checkCs agent ev st step ctx ph
          (active_contracts (contracts s) agent (event_kind ev)) counters0 s0 with
  | (Err e, s1) => (Err e, s1)
  | (Ok a, s1) =>
      let s2 := with_histories (score (hard_satisfied a) (hard_total a))
                               (score (soft_satisfied a) (soft_total a)) s1 in
      match sweepM (expired step (soft_pending s2)).*1 ev st step s2 with
      | (Err e, s3) => (Err e, s3)
      | (Ok _, s3) => (Ok (negb (any_hard a), violated_ids a), s3)
      end
  end.
Proof. reflexivity. Qed.

Lemma check_keeps ph agent ev st window s :
  wf s -> contracts (checkM ph agent ev st window s).2 = contracts s
  /\ step_index (checkM ph agent ev st window s).2 = S (step_index s)
  /\ wf (checkM ph agent ev st window s).2.
Proof.
  intros Hwf. rewrite check_unfold. cbv zeta.
  pose proof (wf_next s Hwf) as Hwf0.
  set (s0 := with_step (S (step_index s)) s) in *.
  pose proof (checkCs_keeps agent ev st (S (step_index s))
    {| proposed_event := ev; state := st; event_window := window |} ph (contracts s)
    (active_contracts (contracts s) agent (event_kind ev)) counters0
    (active_subset _ _ _) s0 eq_refl eq_refl Hwf0) as Hk.
  destruct (checkCs _ _ _ _ _ _ _ _ s0) as [[a|e] s1]; simpl in Hk; [|done].
  destruct Hk as (Hcs & Hst & Hwf1).
  set (s2 := with_histories _ _ s1).
  pose proof (sweep_keeps (expired (S (step_index s)) (soft_pending s2)).*1 ev st
    (S (step_index s)) (contracts s) s2 Hcs Hst) as Hsw.
  destruct (sweepM _ ev st _ s2) as [[[]|e] s3]; apply Hsw; apply Hwf1.
Qed.

(** ** The effect of the sweep *)

Lemma escalate_effect k e c ev st step s s' :
  e_triggering_event_id e <> "" ->
  escalate k e c ev st step s = (Ok (), s') ->
  soft_pending s' = pending_pop k (soft_pending s)
  /\ exists v, violations s' = violations s ++ [v]
     /\ records c (e_clause_ltl e) (e_violated_clause e) step (Some (deadline_step e)) block
          (e_triggering_event_id e) v.
Proof.
  intros Ht H. unfold escalate, mbind, M_bind, modify in H.
  set (s1 := with_pending _ s) in H.
  destruct (record_violations uuid_hex now ledger recovery c (e_clause_ltl e)
    (e_violated_clause e) false ev st step (Some (deadline_step e)) (Some block)
    (Some (e_triggering_event_id e)) s1) as [w Hw].
  rewrite H in Hw. destruct Hw as (v & Hv & ->). split; [done|]. exists v. split; [done|].
  unfold severity_for, trigger_for in Hv. apply String.eqb_neq in Ht. by rewrite Ht in Hv.
Qed.

Definition escalated (s : St) (step : nat) (e : entry) (l : list ContractViolation) : Prop :=
  exists c v, c ∈ contracts s /\ contract_id c = e_contract_id e /\ v ∈ l
    /\ records c (e_clause_ltl e) (e_violated_clause e) step (Some (deadline_step e)) block
         (e_triggering_event_id e) v.

Lemma sweep_effect ks ev st step s s' :
  wf s -> step_index s = step -> NoDup ks ->
  (forall k, k ∈ ks -> is_Some (pending_get k (soft_pending s))) ->
  sweepM ks ev st step s = (Ok (), s') ->
  (forall k, k ∈ ks -> pending_get k (soft_pending s') = None)
  /\ (forall k, k ∉ ks -> pending_get k (soft_pending s') = pending_get k (soft_pending s))
  /\ exists new, violations s' = violations s ++ new
     /\ forall k e, k ∈ ks -> pending_get k (soft_pending s) = Some e -> escalated s step e new.
Proof.
  revert s. induction ks as [|k ks IH]; intros s Hwf Hst Hnd Hk H.
  { injection H as <-. split; [set_solver|]. split; [done|]. exists []. rewrite app_nil_r.
    split; [done|set_solver]. }
  destruct (Hk k ltac:(set_solver)) as [e Ek].
  destruct (sweep_cons k ks ev st step s e Hwf Ek) as (c & Hc & Hid & Heq).
  rewrite Heq in H. apply M_bind_Ok in H as ([] & s1 & He & H).
  assert (e_triggering_event_id e <> "") as Ht.
  { destruct Hwf as (_ & _ & Hf & _).
    by destruct (proj1 (list.Forall_forall _ _) Hf _ (pending_get_elem _ _ _ Ek)) as (_ & _ & ? & _). }
  pose proof (escalate_keeps k e c ev st step _ Hc s eq_refl Hst Hwf) as Hw. rewrite He in Hw.
  destruct Hw as (Hcs1 & Hst1 & Hwf1).
  apply escalate_effect in He as (Hp1 & v & Hv1 & Hrec); [|done].
  apply list.NoDup_cons in Hnd as [Hnk Hnd].
  apply IH in H as (Hgone & Hkeep & new & Hnew & Hesc); try done.
  - split; [|split].
    + intros k' [->|Hk']%elem_of_cons; [|by apply Hgone].
      rewrite Hkeep, Hp1, pending_get_pop by done. by rewrite decide_True.
    + intros k' [Hne Hk']%not_elem_of_cons. rewrite Hkeep, Hp1, pending_get_pop by done.
      by rewrite decide_False.
    + exists (v :: new). rewrite Hnew, Hv1, <- app_assoc. split; [done|].
      intros k' e' Hk' Ek'. destruct (decide (k' = k)) as [->|Hne].
      * rewrite Ek in Ek'. simplify_eq. exists c, v. by repeat split; try apply Hrec; set_solver.
      * destruct (Hesc k' e') as (c' & v' & ? & ? & ? & ?); [set_solver| |].
        { rewrite Hp1, pending_get_pop. by rewrite decide_False. }
        exists c', v'. split; [by rewrite <- Hcs1|]. split; [done|]. split; [set_solver|done].
  - intros k' Hk'. rewrite Hp1, pending_get_pop, decide_False by set_solver.
    apply Hk. set_solver.
Qed.

Lemma expired_get step p k :
  NoDup p.*1 ->
  k ∈ (expired step p).*1 <->
  exists e, pending_get k p = Some e /\ (deadline_step e < Z.of_nat step)%Z.
Proof.
  intros Hn. unfold expired. rewrite list_elem_of_fmap. split.
  - intros ([k' e] & -> & [Hd Hin]%list_elem_of_filter). exists e.
    split; [by apply pending_elem_get|done].
  - intros (e & He%pending_get_elem & Hd). exists (k, e). split; [done|].
    by apply list_elem_of_filter.
Qed.

Lemma expired_NoDup step p : NoDup p.*1 -> NoDup (expired step p).*1.
Proof.
  unfold expired. induction p as [|[k e] p IH]; simpl; [done|].
  rewrite list.NoDup_cons, filter_cons. intros [Hk Hp]. case_decide; simpl; [|auto].
  apply list.NoDup_cons. split; [|auto]. intros ([k' e'] & -> & [_ Hin]%list_elem_of_filter)%list_elem_of_fmap.
  apply Hk, list_elem_of_fmap. by exists (k', e').
Qed.

(** A completed check, as its three state changes. *)
Lemma check_completed ph agent ev st window s ok ids s' :
  wf s -> checkM ph agent ev st window s = (Ok (ok, ids), s') ->
  let step := S (step_index s) in
  exists a s1, checkCs agent ev st step
      {| proposed_event := ev; state := st; event_window := window |} ph
      (active_contracts (contracts s) agent (event_kind ev)) counters0 (with_step step s) = (Ok a, s1)
  /\ wf s1 /\ contracts s1 = contracts s /\ step_index s1 = step
  /\ ok = negb (any_hard a) /\ ids = violated_ids a
  /\ sweepM (expired step (soft_pending s1)).*1 ev st step
       (with_histories (score (hard_satisfied a) (hard_total a))
                       (score (soft_satisfied a) (soft_total a)) s1) = (Ok (), s').
Proof.
  intros Hwf H. rewrite check_unfold in H. cbv zeta in H |- *.
  pose proof (checkCs_keeps agent ev st (S (step_index s))
    {| proposed_event := ev; state := st; event_window := window |} ph (contracts s)
    (active_contracts (contracts s) agent (event_kind ev)) counters0
    (active_subset _ _ _) (with_step (S (step_index s)) s) eq_refl eq_refl (wf_next s Hwf)) as Hk.
  destruct (checkCs _ _ _ _ _ _ _ _ _) as [[a|e] s1]; [|done]. simpl in Hk.
  destruct Hk as (Hcs & Hst & Hwf1). exists a, s1. repeat (split; [done|]).
  destruct (sweepM _ ev st _ _) as [[[]|e] s3]; simplify_eq. done.
Qed.

(** ** Reachable states *)

(** The states an enforcer goes through: construction, then any sequence of
    checks, including those that raise. *)
Inductive reachable : St -> Prop :=
| reach_init cs provenance actor_id w s :
    init ledger cs provenance actor_id w = Ok s -> reachable s
| reach_check ph agent ev st window s :
    reachable s -> reachable (checkM ph agent ev st window s).2.

Lemma init_wf cs provenance actor_id w s : init ledger cs provenance actor_id w = Ok s -> wf s.
Proof.
  unfold init. destruct cs as [|c cs]; [done|]. destruct (xorb _ _); [done|].
  destruct (has_duplicate [] (c :: cs)) eqn:Hd; [done|]. intros H. inv_bind.
  repeat split; try done; constructor.
Qed.

Lemma reachable_wf s : reachable s -> wf s.
Proof. induction 1; [by eapply init_wf|by apply check_keeps]. Qed.

(** ** Guarantees *)

Abbreviation context ev st window :=
  {| proposed_event := ev; state := st; event_window := window |}.

(** The verdict of a completed check, from any well-formed state. *)
Lemma check_verdict_wf ph agent ev st window s ok ids s' :
  wf s -> checkM ph agent ev st window s = (Ok (ok, ids), s') ->
  let ctx := context ev st window in
  let active := active_contracts (contracts s) agent (event_kind ev) in
  (ok = true <-> forall c, c ∈ active ->
     exists p, parsed_formulas c = Ok p /\ all_holdR ctx (hard_formulas ph p))
  /\ (forall id, id ∈ ids <-> exists c p, c ∈ active /\ id = contract_id c
        /\ parsed_formulas c = Ok p /\ ~ all_holdR ctx (hard_formulas ph p ++ soft_formulas p)).
Proof.
  intros Hr H. cbv zeta.
  destruct (check_completed _ _ _ _ _ _ _ _ _ Hr H) as (a & s1 & Hcs & _ & _ & _ & -> & -> & _).
  apply check_contracts_ok in Hcs as [Ha Hv]. simpl in Ha, Hv.
  assert (forall c p, c ∈ active_contracts (contracts s) agent (event_kind ev) ->
            assoc (contract_id c) (parsed s) = Some p <-> parsed_formulas c = Ok p) as Hp.
  { intros c p Hc%active_subset. destruct (wf_parsed s c Hr Hc) as (p' & -> & ->).
    split; congruence. }
  split.
  - rewrite negb_true_iff, Ha. split.
    + intros [_ Hall] c Hc. destruct (Hall c Hc) as (p & Hpp & Hh). exists p.
      split; [by apply Hp|done].
    + intros Hall. split; [done|]. intros c Hc. destruct (Hall c Hc) as (p & Hpp & Hh).
      exists p. split; [by apply Hp|done].
  - intros id. rewrite Hv. split.
    + intros [Hin|(c & p & Hc & -> & Hpp & Hn)]; [set_solver|]. exists c, p.
      split; [done|]. split; [done|]. split; [by apply Hp|done].
    + intros (c & p & Hc & -> & Hpp & Hn). right. exists c, p.
      split; [done|]. split; [done|]. split; [by apply Hp|done].
Qed.

(** C25.  The verdict of a completed check is exactly what the contracts' text
    says: it is satisfied iff, for every contract that applies to the agent and
    the event kind, the phase's boundary condition, all hard invariants and all
    hard governance formulas evaluate to True; and the reported ids are those of
    the applicable contracts with a formula, hard or soft, that does not. *)
Theorem check_verdict_correct ph agent ev st window s ok ids s' :
  reachable s -> checkM ph agent ev st window s = (Ok (ok, ids), s') ->
  let ctx := context ev st window in
  let active := active_contracts (contracts s) agent (event_kind ev) in
  (ok = true <-> forall c, c ∈ active ->
     exists p, parsed_formulas c = Ok p /\ all_holdR ctx (hard_formulas ph p))
  /\ (forall id, id ∈ ids <-> exists c p, c ∈ active /\ id = contract_id c
        /\ parsed_formulas c = Ok p /\ ~ all_holdR ctx (hard_formulas ph p ++ soft_formulas p)).
Proof. intros Hr. apply check_verdict_wf, reachable_wf, Hr. Qed.

(** C26.  Invariant: whatever checks are made, including checks that raise
    half-way, the parsed formulas are those of the contracts, a soft obligation
    is pending at most once per agent, contract, clause kind and index, its
    deadline is its start plus the contract's recovery window, and every record
    names a contract of the enforcer. *)
Theorem reachable_invariant s : reachable s -> wf s.
Proof. induction 1; [by eapply init_wf|by apply check_keeps]. Qed.

(** C27.  Deadlines are enforced: a completed check leaves no obligation past its
    deadline, and every obligation that was past it when the check began has been
    closed by a new record of severity [block] for its clause, carrying its
    triggering event. *)
Theorem recovery_deadline_enforced ph agent ev st window s ok ids s' :
  reachable s -> checkM ph agent ev st window s = (Ok (ok, ids), s') ->
  (forall k e, pending_get k (soft_pending s') = Some e ->
     (Z.of_nat (step_index s') <= deadline_step e)%Z)
  /\ (forall k e, pending_get k (soft_pending s) = Some e ->
      (deadline_step e < Z.of_nat (S (step_index s)))%Z ->
      pending_get k (soft_pending s') = None
      /\ escalated s (S (step_index s)) e (violations s')).
Proof.
  intros Hr%reachable_wf H.
  destruct (check_keeps ph agent ev st window s Hr) as (_ & Hstep & _). rewrite H in Hstep.
  destruct (check_completed _ _ _ _ _ _ _ _ _ Hr H) as (a & s1 & Hcs & Hwf1 & Hc1 & Hst1 & _ & _ & Hsw).
  pose proof Hwf1 as (_ & Hn & _).
  apply sweep_effect in Hsw as (Hgone & Hkeep & new & Hnew & Hesc); simpl in *; try done.
  - split.
    + intros k e He. rewrite Hstep.
      destruct (decide (k ∈ (expired (S (step_index s)) (soft_pending s1)).*1)) as [Hin|Hout].
      * rewrite Hgone in He by done. done.
      * rewrite Hkeep in He by done. rewrite expired_get in Hout by done.
        destruct (Z.le_gt_cases (Z.of_nat (S (step_index s))) (deadline_step e)); [done|].
        destruct Hout. eauto.
    + intros k e He Hd.
      pose proof (checkCs_keeps_overdue uuid_hex now ledger recovery py_str str_tuple re_search
        agent ev st (S (step_index s)) (context ev st window) ph
        (active_contracts (contracts s) agent (event_kind ev)) counters0
        (with_step (S (step_index s)) s)) as Hko.
      rewrite Hcs in Hko. pose proof (Hko k e He Hd) as He1. simpl in He1.
      assert (k ∈ (expired (S (step_index s)) (soft_pending s1)).*1) as Hin
        by (apply expired_get; eauto).
      split; [by apply Hgone|].
      destruct (Hesc k e Hin He1) as (c & v & Hc & Hid & Hv & Hrec). simpl in Hc.
      exists c, v. rewrite <- Hc1. split; [done|]. split; [done|].
      split; [rewrite Hnew; set_solver|done].
  - by apply expired_NoDup.
  - intros k Hk. apply expired_get in Hk as (e & He & _); eauto.
Qed.

Lemma sweep_log ks ev st step : respects log_grows (sweepM ks ev st step).
Proof.
  induction ks as [|k ks IH]; simpl; [apply respects_ret; apply _|].
  apply respects_bind; [apply _|apply respects_get; apply _|intros s].
  destruct (pending_get k _); [|apply respects_lift; apply _].
  apply respects_bind; [apply _| |intros _].
  { intros s'. exists (violations s'), []. rewrite app_nil_r. split; [done|reflexivity]. }
  apply respects_bind; [apply _| |done].
  case_match; [apply record_log|apply respects_ret; apply _].
Qed.

(**  The violation log is append-only: a check, whether it returns or
    raises, keeps every record in place and unchanged except for the recovery
    mark of a soft record that had none; records are only added at the end. *)
Theorem violations_append_only ph agent ev st window s :
  log_grows s (checkM ph agent ev st window s).2.
Proof.
  rewrite check_unfold. cbv zeta.
  transitivity (with_step (S (step_index s)) s).
  { exists (violations s), []. rewrite app_nil_r. split; [done|reflexivity]. }
  pose proof (checkCs_log uuid_hex now ledger recovery py_str str_tuple re_search
    agent ev st (S (step_index s)) (context ev st window) ph
    (active_contracts (contracts s) agent (event_kind ev)) counters0
    (with_step (S (step_index s)) s)) as H.
  destruct (checkCs _ _ _ _ _ _ _ _ _) as [[a|e] s1]; [|done].
  transitivity s1; [done|]. set (s2 := with_histories _ _ s1).
  transitivity s2.
  { exists (violations s1), []. rewrite app_nil_r. split; [done|reflexivity]. }
  pose proof (sweep_log (expired (S (step_index s)) (soft_pending s2)).*1 ev st (S (step_index s)) s2)
    as Hs.
  by destruct (sweepM _ ev st _ s2) as [[[]|e] s3].
Qed.

Lemma sweep_frame ks ev st step : respects frame (sweepM ks ev st step).
Proof.
  induction ks as [|k ks IH]; simpl; [apply respects_ret; apply _|].
  apply respects_bind; [apply _|apply respects_get; apply _|intros s].
  destruct (pending_get k _); [|apply respects_lift; apply _].
  apply respects_bind; [apply _|by intros s'|intros _].
  apply respects_bind; [apply _| |done].
  case_match; [apply record_frame|apply respects_ret; apply _].
Qed.

(**  The scores a completed check appends to the histories are those
    [compliance_scores] computes, without side effect, for the same event in the
    state before the check. *)
Theorem scores_agree ph agent ev st window s ok ids s' :
  reachable s -> checkM ph agent ev st window s = (Ok (ok, ids), s') ->
  exists sc, compliance_scores py_str str_tuple re_search s agent ev st window = Ok sc
    /\ c_hard_history s' = c_hard_history s ++ [c_hard sc]
    /\ c_soft_history s' = c_soft_history s ++ [c_soft sc].
Proof.
  intros Hr%reachable_wf H.
  destruct (check_completed _ _ _ _ _ _ _ _ _ Hr H) as (a & s1 & Hcs & _ & _ & _ & _ & _ & Hsw).
  pose proof (checkCs_frame uuid_hex now ledger recovery py_str str_tuple re_search
    agent ev st (S (step_index s)) (context ev st window) ph
    (active_contracts (contracts s) agent (event_kind ev)) counters0
    (with_step (S (step_index s)) s)) as Hf1. rewrite Hcs in Hf1.
  pose proof (sweep_frame (expired (S (step_index s)) (soft_pending s1)).*1 ev st (S (step_index s))
    (with_histories (score (hard_satisfied a) (hard_total a))
                    (score (soft_satisfied a) (soft_total a)) s1)) as Hf2.
  rewrite Hsw in Hf2.
  destruct Hf1 as (_ & _ & _ & _ & Hh1 & Hs1), Hf2 as (_ & _ & _ & _ & Hh2 & Hs2). simpl in *.
  apply check_contracts_tally in Hcs.
  rewrite (tallyCs_parsed _ _ _ _ _ s) in Hcs by done. simpl in Hcs.
  unfold compliance_scores. rewrite Hcs. simpl. eexists. split; [reflexivity|]. simpl.
  by rewrite Hh2, Hs2, Hh1, Hs1.
Qed.
End Proofs.
End ContractEnforcerSpec.
