(* ===== verification/ContractObligations.v ===== *)
(** * Behavioural contracts: soft obligations through a check
    (theorems about [ContractEnforcer.check] and the pending recoveries) *)
From Stdlib Require Import SpecFloat.
From S2P Require Import Prelude StateExn PyStr PyFloat PyVal ContractLtl ContractAtoms ContractEnforcer.
From S2P Require Import ContractEnforcerInv ContractEnforcerVerdict ContractEnforcerSpec.
Import ContractLtl ContractAtoms ContractEnforcer ContractEnforcerInv ContractEnforcerVerdict
  ContractEnforcerSpec.
Open Scope string_scope.
Open Scope list_scope.
Open Scope nat_scope.

Module ContractObligations.

Lemma has_duplicate_NoDup seen cs : has_duplicate seen cs = false -> NoDup (contract_id <$> cs).
Proof.
  revert seen. induction cs as [|c cs IH]; simpl; intros seen H; [constructor|].
  apply orb_false_iff in H as [_ H]. apply list.NoDup_cons. split; [|by eapply IH].
  intros (c' & Heq & Hin)%list_elem_of_fmap.
  pose proof (has_duplicate_seen _ _ H c' Hin). set_solver.
Qed.

Lemma active_NoDup cs agent kind :
  NoDup (contract_id <$> cs) -> NoDup (contract_id <$> active_contracts cs agent kind).
Proof.
  unfold active_contracts. induction cs as [|c cs IH]; simpl; [done|].
  rewrite list.NoDup_cons, filter_cons. intros [Hn Hcs]. case_decide; simpl; [|auto].
  apply list.NoDup_cons. split; [|auto].
  intros (c' & Heq & [_ Hin]%list_elem_of_filter)%list_elem_of_fmap.
  apply Hn. rewrite Heq. apply list_elem_of_fmap. eauto.
Qed.

Section Proofs.
Context {W : Type}.
Context (uuid_hex : W -> string * W) (now : W -> string * W).
Context (ledger : option (ProposedEvent -> W -> result exn string * W)).
Context (recovery : option (ContractViolation -> EcosystemState -> W -> W)).
Context (py_str : pyval -> string) (str_tuple : list string -> string).
Context (re_search : string -> string -> result exn bool).

Abbreviation St := (enforcer (W := W)).
Abbreviation M := (stM St exn).
Abbreviation handle := (handle_soft_violation uuid_hex now ledger recovery).
Abbreviation holdsR := (holds py_str str_tuple re_search).
Abbreviation checkB := (check_boundary uuid_hex now ledger recovery py_str str_tuple re_search).
Abbreviation checkH := (check_hard uuid_hex now ledger recovery py_str str_tuple re_search).
Abbreviation checkS := (check_soft uuid_hex now ledger recovery py_str str_tuple re_search).
Abbreviation checkC := (check_contract uuid_hex now ledger recovery py_str str_tuple re_search).
Abbreviation checkCs := (check_contracts uuid_hex now ledger recovery py_str str_tuple re_search).
Abbreviation checkM := (check uuid_hex now ledger recovery py_str str_tuple re_search).
Abbreviation reachableM := (reachable uuid_hex now ledger recovery py_str str_tuple re_search).

Abbreviation pend s k := (pending_get k (soft_pending s)).

(** What the outcome [ok] of a soft formula does to its obligation, from [old]
    to [new]: a formula that holds discharges an obligation still in time, a
    formula that fails opens one if there is none. *)
Definition settles (c : BehavioralContract) (step : nat) (ok : bool) (old new : option entry) : Prop :=
  match ok, old with
  | true, None => new = None
  | true, Some e => new = if (deadline_step e <? Z.of_nat step)%Z then Some e else None
  | false, Some e => new = Some e
  | false, None => exists e, new = Some e /\ started_at_step e = step
                     /\ deadline_step e = (Z.of_nat step + recovery_window_k c)%Z
  end.

Lemma discharge_effect k n (s s' : St) r :
  discharge_recovery k n s = (r, s') ->
  (forall k', k' <> k -> pend s' k' = pend s k')
  /\ pend s' k = match pend s k with
                 | Some e => if (deadline_step e <? Z.of_nat n)%Z then Some e else None
                 | None => None
                 end.
Proof.
  unfold discharge_recovery, modify, mbind, M_bind, mret, M_ret, get. simpl.
  destruct (pend s k) as [e|] eqn:E; [|intros; by simplify_eq].
  destruct (deadline_step e <? Z.of_nat n)%Z; [intros; by simplify_eq|]. simpl.
  intros H. assert (soft_pending s' = pending_pop k (soft_pending s)) as ->
    by (destruct (mark_last e n (violations s)); by simplify_eq).
  split; [intros k' Hk'|]; rewrite pending_get_pop; [by rewrite decide_False|by rewrite decide_True].
Qed.

Lemma handle_effect agent c ltl cl i ev st step (s s' : St) :
  let k := (agent, contract_id c, cl, i) in
  handle k c ltl cl ev st step s = (Ok (), s') ->
  (forall k', k' <> k -> pend s' k' = pend s k') /\ settles c step false (pend s k) (pend s' k).
Proof.
  intros k. unfold handle_soft_violation, mbind, M_bind, mret, M_ret, get, settles. simpl.
  destruct (pend s k) as [e|] eqn:E; [intros; by simplify_eq|]. unfold k at 1. simpl.
  set (s1 := with_pending _ s).
  match goal with |- ?m s1 = _ -> _ => pose proof (record_pending uuid_hex now ledger recovery
    c ltl cl true ev st step (Some (Z.of_nat step + recovery_window_k c)%Z) None None s1) as Hp end.
  intros H. rewrite H in Hp. unfold same_pending in Hp. simpl in Hp. rewrite Hp.
  split; [intros k' Hk'|]; rewrite pending_get_app.
  - rewrite decide_False by done. by destruct (pend s k').
  - rewrite E, decide_True by done. eexists. by repeat split.
Qed.

(** One soft formula. *)
Lemma soft_step_effect agent ev st step ctx c cl ltls i f ok (s s' : St) :
  let k := (agent, contract_id c, cl, i) in
  (if ok : bool then
     s ← get; match pend s k with Some _ => discharge_recovery k step | None => mret () end
   else ltl ← nth_ltl ltls i; handle k c ltl cl ev st step) s = (Ok (), s') ->
  holdsR ctx f = Ok ok ->
  (forall k', k' <> k -> pend s' k' = pend s k') /\ settles c step ok (pend s k) (pend s' k).
Proof.
  intros k H _. destruct ok.
  - unfold mbind, M_bind, get in H. destruct (pend s k) as [e|] eqn:E.
    + apply discharge_effect in H as [H1 H2]. split; [done|]. simpl. by rewrite H2, E.
    + unfold mret, M_ret in H. simplify_eq. split; [done|]. simpl. done.
  - apply M_bind_Ok in H as (ltl & s1 & Hn & H). unfold nth_ltl in Hn.
    destruct (ltls !! i); [|done]. unfold mret, M_ret in Hn. simplify_eq. by eapply handle_effect.
Qed.

Lemma check_soft_pending agent ev st step ctx c cl ltls i fs a (s s' : St) a' :
  checkS agent ev st step ctx c cl ltls i fs a s = (Ok a', s') ->
  (forall k, (forall j, i <= j -> k <> (agent, contract_id c, cl, j)) -> pend s' k = pend s k)
  /\ (forall j f ok, fs !! j = Some f -> holdsR ctx f = Ok ok ->
      settles c step ok (pend s (agent, contract_id c, cl, i + j))
                        (pend s' (agent, contract_id c, cl, i + j))).
Proof.
  revert i a s. induction fs as [|f fs IH]; simpl; intros i a s H.
  { unfold mret, M_ret in H. simplify_eq. split; [done|]. intros j f ok Hj. done. }
  apply M_bind_Ok in H as (ok & s1 & Hok & H). unfold lift in Hok. injection Hok as Hok ->.
  apply M_bind_Ok in H as ([] & s2 & Hm & H).
  apply IH in H as [Hother Hset].
  destruct (soft_step_effect _ _ _ _ _ _ _ _ _ f ok _ _ Hm Hok) as [Hk Hs]. split.
  - intros k Hne. rewrite Hother, Hk; [done|apply Hne; lia|intros j Hj; apply Hne; lia].
  - intros [|j] f' ok' Hj Hf'; simpl in Hj.
    + simplify_eq. rewrite Hok in Hf'. simplify_eq. rewrite Nat.add_0_r. rewrite Hother; [done|]. intros j Hj Heq. simplify_eq. lia.
    + specialize (Hset j f' ok' Hj Hf'). rewrite <- Hk by (intros ?; simplify_eq; lia).
      by rewrite Nat.add_succ_r.
Qed.

Definition soft_list (p : ParsedFormulas) (cl : clause) : list LTLFormula :=
  match cl with
  | soft_invariant => p_soft_invariants p
  | soft_governance => p_soft_governance p
  | _ => []
  end.

Lemma boundary_pending ev st step ctx c f ltl cl a (s s' : St) a' :
  checkB ev st step ctx c f ltl cl a s = (Ok a', s') -> soft_pending s' = soft_pending s.
Proof.
  intros H. pose proof (boundary_respects uuid_hex now ledger recovery py_str str_tuple re_search
    same_pending ev st step ctx [c] (fun c ltl cl _ => record_pending _ _ _ _ c ltl cl false ev st step _ _ _)
    c f ltl cl a ltac:(set_solver) s) as Hp. by rewrite H in Hp.
Qed.
Lemma hard_pending ev st step ctx c cl ltls i fs a (s s' : St) a' :
  checkH ev st step ctx c cl ltls i fs a s = (Ok a', s') -> soft_pending s' = soft_pending s.
Proof.
  intros H. pose proof (hard_respects uuid_hex now ledger recovery py_str str_tuple re_search
    same_pending ev st step ctx [c] (fun c ltl cl _ => record_pending _ _ _ _ c ltl cl false ev st step _ _ _)
    c cl ltls i fs a ltac:(set_solver) s) as Hp. by rewrite H in Hp.
Qed.

Lemma check_contract_pending agent ev st step ctx ph c a (s s' : St) a' p :
  checkC agent ev st step ctx ph c a s = (Ok a', s') ->
  assoc (contract_id c) (parsed s) = Some p ->
  (forall k, k.1.1.2 <> contract_id c -> pend s' k = pend s k)
  /\ (forall cl i f ok, soft_list p cl !! i = Some f -> holdsR ctx f = Ok ok ->
      settles c step ok (pend s (agent, contract_id c, cl, i))
                        (pend s' (agent, contract_id c, cl, i))).
Proof.
  unfold check_contract. intros H Hp. apply M_bind_Ok in H as (s0 & s0' & Hg & H).
  unfold get in Hg. injection Hg as <- <-. rewrite Hp in H.
  apply M_bind_Ok in H as (a0 & s1 & H0 & H). apply M_bind_Ok in H as (a1 & s2 & H1 & H).
  apply M_bind_Ok in H as (a2 & s3 & H2 & H). apply M_bind_Ok in H as (a3 & s4 & H3 & H).
  apply M_bind_Ok in H as (a4 & s5 & H4 & H). unfold mret, M_ret in H. simplify_eq.
  assert (soft_pending s3 = soft_pending s) as Hs3.
  { apply hard_pending in H1, H2. rewrite H2, H1. destruct ph; by apply boundary_pending in H0. }
  apply check_soft_pending in H3 as [O3 S3], H4 as [O4 S4]. rewrite Hs3 in *. split.
  - intros k Hk. rewrite O4, O3; [done|intros j _ ->; by apply Hk..].
  - intros cl i f ok Hf Hok. destruct cl; simpl in Hf; try done.
    + rewrite O4 by (intros j _ Heq; congruence). by apply (S3 i f).
    + rewrite <- O3 by (intros j _ Heq; congruence). by apply (S4 i f).
Qed.

Lemma check_contracts_pending agent ev st step ctx ph cs a (s s' : St) a' c p :
  checkCs agent ev st step ctx ph cs a s = (Ok a', s') ->
  NoDup (contract_id <$> cs) -> c ∈ cs -> assoc (contract_id c) (parsed s) = Some p ->
  forall cl i f ok, soft_list p cl !! i = Some f -> holdsR ctx f = Ok ok ->
    settles c step ok (pend s (agent, contract_id c, cl, i))
                      (pend s' (agent, contract_id c, cl, i)).
Proof.
  intros H Hn Hc Hp cl i f ok Hf Hok.
  assert (forall cs a (s : St), checkCs agent ev st step ctx ph cs a s = (Ok a', s') ->
            contract_id c ∉ contract_id <$> cs ->
            pend s' (agent, contract_id c, cl, i) = pend s (agent, contract_id c, cl, i)) as Hskip.
  { clear -py_str. induction cs as [|c' cs IH]; simpl; intros a s H Hni.
    - unfold mret, M_ret in H. by simplify_eq.
    - apply M_bind_Ok in H as (a1 & s1 & H1 & H). apply not_elem_of_cons in Hni as [Hne Hni].
      rewrite (IH _ _ H Hni).
      pose proof H1 as (p' & Hp' & _)%check_contract_ok.
      eapply check_contract_pending in H1 as [Ho _]; [|done]. by apply Ho. }
  revert a s H Hp. induction cs as [|c' cs IH]; [set_solver|]. simpl; intros a s H Hp.
  apply M_bind_Ok in H as (a1 & s1 & H1 & H).
  pose proof (checkC_frame uuid_hex now ledger recovery py_str str_tuple re_search
        agent ev st step ctx ph c' a s) as Hfr. rewrite H1 in Hfr. destruct Hfr as (_ & Hpar & _).
  simpl in Hn, Hpar. apply list.NoDup_cons in Hn as [Hni Hn].
  apply elem_of_cons in Hc as [->|Hc].
  - rewrite (Hskip _ _ _ H Hni). eapply check_contract_pending in H1 as [_ Hs]; [|done]. by eapply Hs.
  - pose proof H1 as (p' & Hp' & _)%check_contract_ok.
    eapply check_contract_pending in H1 as [Ho _]; [|done]. rewrite <- Ho.
    + apply (IH Hn Hc _ _ H). by rewrite Hpar.
    + simpl. intros Heq. apply Hni. rewrite <- Heq. apply list_elem_of_fmap. eauto.
Qed.

(**  Soft formulas are tracked as obligations.  After a completed check, for
    every soft formula of an applicable contract: if it holds, nothing is pending
    for it; if it fails, its obligation is pending -- the one already open, if it
    is still in time, or one opened at this step with the contract's window as
    deadline -- unless an obligation past its deadline has just been closed. *)
Theorem obligations_tracked ph agent ev st window s ok ids s' c p cl i f :
  reachableM s -> checkM ph agent ev st window s = (Ok (ok, ids), s') ->
  c ∈ active_contracts (contracts s) agent (event_kind ev) -> (0 <= recovery_window_k c)%Z ->
  parsed_formulas c = Ok p -> soft_list p cl !! i = Some f ->
  let ctx := {| proposed_event := ev; state := st; event_window := window |} in
  let k := (agent, contract_id c, cl, i) in
  let step := S (step_index s) in
  (holdsR ctx f = Ok true -> pend s' k = None)
  /\ (holdsR ctx f = Ok false ->
      match pend s k with
      | Some e => pend s' k = if (deadline_step e <? Z.of_nat step)%Z then None else Some e
      | None => exists e, pend s' k = Some e /\ started_at_step e = step
                  /\ deadline_step e = (Z.of_nat step + recovery_window_k c)%Z
      end).
Proof.
  intros Hr%reachable_wf H Hc Hk Hp Hf. cbv zeta.
  destruct (check_completed _ _ _ _ _ _ _ _ _ _ _ _ _ _ _ _ Hr H)
    as (a & s1 & Hcs & Hwf1 & Hc1 & Hst1 & _ & _ & Hsw).
  set (k := (agent, contract_id c, cl, i)). set (step := S (step_index s)) in *.
  assert (assoc (contract_id c) (parsed s) = Some p) as Hpa.
  { destruct (wf_parsed s c Hr (active_subset _ _ _ _ Hc)) as (p' & Hp' & Ha). congruence. }
  assert (forall b, holdsR {| proposed_event := ev; state := st; event_window := window |} f = Ok b ->
            settles c step b (pend s k) (pend s1 k)) as Hset.
  { intros b Hb. eapply (check_contracts_pending _ _ _ _ _ _ _ _ (with_step step s)); try done.
    apply active_NoDup. destruct Hr as ([_ Hd] & _). by eapply has_duplicate_NoDup. }
  pose proof Hwf1 as (_ & Hn & _).
  apply sweep_effect in Hsw as (Hgone & Hkeep & _); simpl in *; try done.
  - assert (pend s' k = match pend s1 k with
                        | Some e => if (deadline_step e <? Z.of_nat step)%Z then None else Some e
                        | None => None end) as Hfinal.
    { destruct (decide (k ∈ (expired step (soft_pending s1)).*1)) as [Hin|Hout].
      - rewrite Hgone by done. apply expired_get in Hin as (e & -> & Hd); [|done].
        by apply Z.ltb_lt in Hd as ->.
      - rewrite Hkeep by done. rewrite expired_get in Hout by done.
        destruct (pend s1 k) as [e|] eqn:E1; [|done].
        destruct (Z.ltb_spec (deadline_step e) (Z.of_nat step)); [destruct Hout; eauto|done]. }
    split; intros Hb; specialize (Hset _ Hb); unfold settles in Hset; rewrite Hfinal.
    + destruct (pend s k) as [e|]; rewrite Hset; [|done].
      by destruct (deadline_step e <? Z.of_nat step)%Z eqn:E; [rewrite E|].
    + destruct (pend s k) as [e|]; [by rewrite Hset|].
      destruct Hset as (e & -> & Hs & Hd). exists e.
      destruct (Z.ltb_spec (deadline_step e) (Z.of_nat step)); [lia|done].
  - by apply expired_NoDup.
  - intros k' Hk'. apply expired_get in Hk' as (e & He & _); eauto.
Qed.
End Proofs.
End ContractObligations.
