(* ===== verification/ContractErrors.v ===== *)
(** * Behavioural contracts: what a check can raise, how recoveries are marked,
    and runs of the enforcer
    (theorems about [ContractEnforcer.check] and [discharge_recovery]) *)
From Stdlib Require Import SpecFloat.
From S2P Require Import Prelude StateExn PyStr PyFloat PyVal ContractLtl ContractLtlSem ContractAtoms.
From S2P Require Import ContractAtomsSpec ContractEnforcer ContractEnforcerInv ContractEnforcerVerdict.
From S2P Require Import ContractEnforcerSpec ContractObligations.
Import ContractLtl ContractAtoms ContractEnforcer ContractEnforcerInv ContractEnforcerVerdict
  ContractEnforcerSpec ContractObligations.
Open Scope string_scope.
Open Scope list_scope.
Open Scope nat_scope.

Module ContractErrors.



Section Proofs.
Context {W : Type}.
Context (uuid_hex : W -> string * W) (now : W -> string * W).
Context (ledger : option (ProposedEvent -> W -> result exn string * W)).
Context (recovery : option (ContractViolation -> EcosystemState -> W -> W)).
Context (py_str : pyval -> string) (str_tuple : list string -> string).
Context (re_search : string -> string -> result exn bool).

Abbreviation St := (enforcer (W := W)).
Abbreviation M := (stM St exn).
Abbreviation recordM := (ContractEnforcer.record uuid_hex now ledger recovery).
Abbreviation handle := (handle_soft_violation uuid_hex now ledger recovery).
Abbreviation holdsR := (holds py_str str_tuple re_search).
Abbreviation checkB := (check_boundary uuid_hex now ledger recovery py_str str_tuple re_search).
Abbreviation checkH := (check_hard uuid_hex now ledger recovery py_str str_tuple re_search).
Abbreviation checkS := (check_soft uuid_hex now ledger recovery py_str str_tuple re_search).
Abbreviation checkC := (check_contract uuid_hex now ledger recovery py_str str_tuple re_search).
Abbreviation checkCs := (check_contracts uuid_hex now ledger recovery py_str str_tuple re_search).
Abbreviation checkM := (check uuid_hex now ledger recovery py_str str_tuple re_search).
Abbreviation sweepM := (sweep_loop uuid_hex now ledger recovery).
Abbreviation reachableM := (reachable uuid_hex now ledger recovery py_str str_tuple re_search).

(** ** Sources of exceptions *)









Section Rules.
Context (cs : list BehavioralContract) (step : nat).


End Rules.






Section CheckRules.
Context (agent : string) (ev : ProposedEvent) (st : EcosystemState) (step : nat).
Context (ctx : ContractContext) (cs : list BehavioralContract).







End CheckRules.




(** ** Recovery marks *)

(**  A recovery under a wildcard contract leaves no mark: when the contract
    applies to every agent ([agent_id = "*"]), discharging the obligation of an
    agent closes it but no record gets its [recovered_at_step]. *)
Theorem wildcard_recovery_unmarked s c k e n :
  reachableM s -> c ∈ contracts s -> agent_id c = "*" ->
  pending_get k (soft_pending s) = Some e -> e_contract_id e = contract_id c -> e_agent_id e <> "*" ->
  violations (discharge_recovery k n s).2 = violations s.
Proof.
  intros ((_ & Hd) & _ & _ & Hv)%reachable_wf Hc Hw Hk Hid Hag.
  unfold discharge_recovery, get, modify, mbind, M_bind. rewrite Hk.
  case_match; [done|]. simpl.
  assert (mark_last e n (violations s) = None) as ->; [|done].
  apply has_duplicate_NoDup in Hd. revert Hv. generalize (step_index s).
  induction (violations s) as [|v vs IH]; [done|]. intros m [Hwv Hvs]%list.Forall_cons.
  simpl. rewrite (IH m Hvs). destruct (discharges e v) eqn:E; [|done].
  unfold discharges in E. rewrite !andb_true_iff, !String.eqb_eq in E.
  destruct E as [[[[E1 E2] _] _] _]. destruct Hwv as (_ & c' & Hc' & Hid' & Hag').
  assert (c' = c) as -> by (eapply NoDup_fmap_inj; [done|done|done|congruence]).
  congruence.
Qed.
End Proofs.
End ContractErrors.

(** * Behavioural contracts: runs of the enforcer

    Concrete runs: they show that the hypotheses of the enforcer's theorems are
    met, and how the recovery bookkeeping behaves. *)
Import ContractLtl ContractAtoms ContractEnforcer ContractEnforcerInv ContractEnforcerVerdict
  ContractEnforcerSpec ContractObligations ContractErrors.
Open Scope string_scope.
Open Scope list_scope.
Open Scope nat_scope.

Module ContractRuns.

(** A world that counts the identifiers it has handed out; no ledger, no
    dispatcher. *)
Definition uuid0 (w : nat) : string * nat := ("0123456789abcdef", S w).
Definition now0 (w : nat) : string * nat := ("2026-01-01T00:00:00+00:00", w).
Definition ledger0 : option (ProposedEvent -> nat -> result exn string * nat) := None.
Definition recovery0 : option (ContractViolation -> EcosystemState -> nat -> nat) := None.
Definition py_str0 (_ : pyval) : string := "".
Definition str_tuple0 (_ : list string) : string := "".
Definition re_search0 (_ _ : string) : result exn bool := Ok false.

Abbreviation check0 := (check uuid0 now0 ledger0 recovery0 py_str0 str_tuple0 re_search0).
Abbreviation reachable0 := (reachable uuid0 now0 ledger0 recovery0 py_str0 str_tuple0 re_search0).

(** One hard invariant and two soft ones, with a recovery window of one step. *)
Definition contract_for (agent : string) : BehavioralContract := {|
  contract_id := "c1"; agent_id := agent; description := "tone";
  precondition_ltl := "true"; postcondition_ltl := "true";
  invariants_ltl := ["field:tool_id!=delete"];
  soft_invariants_ltl := ["field:tone>=7"; "field:polite==true"];
  hard_governance_ltl := []; soft_governance_ltl := [];
  covered_event_kinds := ["*"]; severity_on_violation := block;
  recovery_window_k := 1; delta_tolerance := dec 1 1; satisfaction_p := dec 95 2 |}.

Definition blank : enforcer := {|
  contracts := []; parsed := []; actor := ""; step_index := 0; soft_pending := [];
  violations := []; c_hard_history := []; c_soft_history := []; world := 0 |}.
Definition start (agent : string) : enforcer :=
  match init ledger0 [contract_for agent] false "_contract_enforcer" 0 with
  | Ok s => s
  | Err _ => blank
  end.

Definition event (tone : Z) (polite : bool) : ProposedEvent := {|
  event_kind := "tool_call"; actor_entity_id := "agent-1"; target_entity_id := None;
  payload := [("tool_id", PStr "write"); ("tone", PInt tone); ("polite", PBool polite)];
  proposed_at := "2026-01-01T00:00:00+00:00"; session_id := None; upstream_event_ids := [] |}.
Abbreviation eco := (state ContractAtomsSpec.ctx0).

(** The state after a check by [agent-1]. *)
Definition next (tone : Z) (polite : bool) (s : enforcer) : enforcer :=
  (check0 pre "agent-1" (event tone polite) eco [] s).2.

Lemma start_reachable agent : reachable0 (start agent).
Proof. apply (reach_init _ _ _ _ _ _ _ [contract_for agent] false "_contract_enforcer" 0). reflexivity. Qed.
Lemma next_reachable tone polite s : reachable0 s -> reachable0 (next tone polite s).
Proof. intros H. by apply reach_check. Qed.

Lemma check_verdict_correct_witness :
  check0 pre "agent-1" (event 3 true) eco [] (start "agent-1")
  = (Ok (true, ["c1"]), next 3 true (start "agent-1"))
  /\ "c1" ∈ ["c1"].
Proof.
  split; [vm_compute; reflexivity|].
  apply (proj2 (check_verdict_correct uuid0 now0 ledger0 recovery0 py_str0 str_tuple0 re_search0
    pre "agent-1" (event 3 true) eco [] (start "agent-1") true ["c1"] (next 3 true (start "agent-1"))
    (start_reachable _) ltac:(vm_compute; reflexivity)) "c1").
  exists (contract_for "agent-1").
  eexists. split; [vm_compute; left|]. split; [reflexivity|]. split; [vm_compute; reflexivity|].
  intros Hall. apply (list.Forall_app _ [_; _] _) in Hall as [_ Hall].
  apply list.Forall_cons in Hall as [Hall _]. vm_compute in Hall. discriminate Hall.
Defined.

(** Two checks below the tone: the obligation opened at step 1 is due at step 2,
    so the third check finds it overdue. *)
Definition late : enforcer := next 3 true (next 3 true (start "agent-1")).
Lemma late_reachable : reachable0 late.
Proof. repeat apply next_reachable. apply start_reachable. Qed.

Lemma reachable_invariant_witness : wf late.
Proof.
  apply (reachable_invariant uuid0 now0 ledger0 recovery0 py_str0 str_tuple0 re_search0).
  apply late_reachable.
Defined.

Definition tone_key : key := ("agent-1", "c1", soft_invariant, 0).

Lemma recovery_deadline_enforced_witness :
  pending_get tone_key (soft_pending (next 3 true late)) = None.
Proof.
  refine (proj1 (proj2 (recovery_deadline_enforced uuid0 now0 ledger0 recovery0 py_str0 str_tuple0
    re_search0 pre "agent-1" (event 3 true) eco [] late true ["c1"] (next 3 true late)
    late_reachable ltac:(vm_compute; reflexivity)) tone_key _ _ _)).
  - vm_compute. reflexivity.
  - vm_compute. reflexivity.
Defined.

Lemma scores_agree_witness :
  exists sc, c_soft_history (next 3 true late) = c_soft_history late ++ [c_soft sc].
Proof.
  destruct (scores_agree uuid0 now0 ledger0 recovery0 py_str0 str_tuple0 re_search0
    pre "agent-1" (event 3 true) eco [] late true ["c1"] (next 3 true late)
    late_reachable ltac:(vm_compute; reflexivity)) as (sc & _ & _ & H).
  exists sc. exact H.
Defined.

(** The formula of the first soft invariant. *)
Definition tone_formula : LTLFormula :=
  {| source := "field:tone>=7"; ast := Atom "field:tone>=7" |}.

Lemma obligations_tracked_witness :
  exists e, pending_get tone_key (soft_pending (next 3 true (start "agent-1"))) = Some e
    /\ deadline_step e = 2%Z.
Proof.
  destruct (proj2 (obligations_tracked uuid0 now0 ledger0 recovery0 py_str0 str_tuple0 re_search0
    pre "agent-1" (event 3 true) eco [] (start "agent-1") true ["c1"] (next 3 true (start "agent-1"))
    (contract_for "agent-1")
    (match parsed_formulas (contract_for "agent-1") with
     | Ok p => p
     | Err _ => {| p_precondition := None; p_postcondition := None; p_hard_invariants := [];
                   p_soft_invariants := []; p_hard_governance := []; p_soft_governance := [] |}
     end) soft_invariant 0 tone_formula (start_reachable _)
    ltac:(vm_compute; reflexivity) ltac:(vm_compute; left) ltac:(vm_compute; discriminate)
    ltac:(vm_compute; reflexivity) ltac:(vm_compute; reflexivity))
    ltac:(vm_compute; reflexivity)) as (e & He & _ & Hd).
  exists e. split; [exact He|exact Hd].
Defined.



Lemma wildcard_recovery_unmarked_witness :
  violations (discharge_recovery tone_key 2 (next 3 true (start "*"))).2
  = violations (next 3 true (start "*")).
Proof.
  refine (wildcard_recovery_unmarked uuid0 now0 ledger0 recovery0 py_str0 str_tuple0 re_search0
    (next 3 true (start "*")) (contract_for "*") tone_key _ 2
    (next_reachable _ _ _ (start_reachable _)) _ _ _ _ _).
  - vm_compute. left.
  - reflexivity.
  - vm_compute. reflexivity.
  - reflexivity.
  - discriminate.
Defined.

(** The mark of a recovery goes to the newest open record of the contract's
    clause kind, not to the record of the formula that recovered: here the tone
    recovers at step 2, and the record of the politeness formula, which is still
    violated and pending, gets the mark. *)
Example recovery_mark_misplaced :
  let s := next 8 false (next 3 false (start "agent-1")) in
  map (fun v => (clause_ltl v, recovered_at_step v)) (violations s)
  = [("field:tone>=7", None); ("field:polite==true", Some 2)]
  /\ map (fun ke => e_clause_ltl ke.2) (soft_pending s) = ["field:polite==true"].
Proof. vm_compute. split; reflexivity. Qed.

(** With a contract for the agent itself the same recovery is marked. *)
Example recovery_marked :
  map (fun v => (clause_ltl v, recovered_at_step v))
    (violations (next 8 true (next 3 true (start "agent-1"))))
  = [("field:tone>=7", Some 2)].
Proof. vm_compute. reflexivity. Qed.
End ContractRuns.
