(* ===== verification/PyFormat.v ===== *)
(** * Python formatting: [:.nf], [:g], [repr] of a string, and [int()]

    The format specifications and conversions the messages and settings of the
    decision point use. *)
From stdpp Require Import pretty.
From Stdlib Require Import SpecFloat.
From S2P Require Import Prelude PyStr PyFloat.
Open Scope string_scope.
Open Scope Z_scope.

Definition z_str (z : Z) : string := pretty z.

(** [k] with at least [n] digits. *)
Fixpoint zeros (n : nat) : string := match n with O => "" | S n => String "0" (zeros n) end.
Definition padded (n : nat) (k : Z) : string :=
  let d := pretty (Z.to_N k) in zeros (n - String.length d) +:+ d.

Definition sign_str (s : bool) : string := if s then "-" else "".

(** [f"{x:.nf}"]: the exact value rounded to [n >= 1] decimals, ties to even. *)
Definition fixed (n : nat) (x : float) : string :=
  match x with
  | S754_zero s => sign_str s +:+ "0." +:+ zeros n
  | S754_infinity s => sign_str s +:+ "inf"
  | S754_nan => "nan"
  | S754_finite s m e =>
      let t := 10 ^ Z.of_nat n in
      let k := if 0 <=? e then Zpos m * 2 ^ e * t
               else round_half_even (Zpos m * t) (2 ^ (- e)) in
      sign_str s +:+ pretty (Z.to_N (k / t)) +:+ "." +:+ padded n (k mod t)
  end.

(** The largest [x] with [10 ^ x * q <= p], for [p / q] below one: [x] is
    negative and found by scaling up. *)
Fixpoint scale_up (fuel : nat) (p q x : Z) : Z :=
  match fuel with
  | O => x
  | S fuel => if q <=? p then x else scale_up fuel (p * 10) q (x - 1)
  end.
Definition exponent10 (p q : Z) : Z :=
  if q <=? p then Z.of_nat (String.length (pretty (Z.to_N (p / q)))) - 1 else scale_up 350 p q 0.

(** Six significant digits [d], with the exponent of the first. *)
Definition six_digits (p q : Z) : Z * Z :=
  let x := exponent10 p q in
  let d := if 5 - x <? 0 then round_half_even p (q * 10 ^ (x - 5))
           else round_half_even (p * 10 ^ (5 - x)) q in
  if d =? 1000000 then (100000, x + 1) else (d, x).

Fixpoint rstrip_zeros (s : string) : string :=
  match s with
  | EmptyString => ""
  | String c s' =>
      match rstrip_zeros s' with
      | EmptyString => if Ascii.eqb c "0" then "" else String c ""
      | r => String c r
      end
  end.
Fixpoint str_drop (k : nat) (s : string) : string :=
  match k, s with S k, String _ s => str_drop k s | _, _ => s end.
Definition with_point (a b : string) : string :=
  let b := rstrip_zeros b in if String.eqb b "" then a else a +:+ "." +:+ b.

(** [f"{x:g}"]. *)
Definition fmt_g (x : float) : string :=
  match x with
  | S754_zero s => sign_str s +:+ "0"
  | S754_infinity s => sign_str s +:+ "inf"
  | S754_nan => "nan"
  | S754_finite s m e =>
      let '(p, q) := if 0 <=? e then (Zpos m * 2 ^ e, 1) else (Zpos m, 2 ^ (- e)) in
      let '(d, x) := six_digits p q in
      let ds := pretty (Z.to_N d) in
      sign_str s +:+
      (if (-4 <=? x) && (x <? 6) then
         if 0 <=? x then with_point (str_take (Z.to_nat x + 1) ds) (str_drop (Z.to_nat x + 1) ds)
         else with_point "0" (zeros (Z.to_nat (- x - 1)) +:+ ds)
       else
         with_point (str_take 1 ds) (str_drop 1 ds) +:+ "e" +:+ (if x <? 0 then "-" else "+")
         +:+ padded 2 (Z.abs x))
  end.

(** [repr(s)]: single quotes unless the text holds some and no double ones. *)
Definition hex_digit (n : N) : ascii := ascii_of_N (if (n <? 10)%N then 48 + n else 87 + n).
Definition repr_char (quote : ascii) (c : ascii) : string :=
  if Ascii.eqb c quote || Ascii.eqb c "\" then String "\" (String c "")
  else if Ascii.eqb c (ascii_of_nat 9) then "\t"
  else if Ascii.eqb c (ascii_of_nat 10) then "\n"
  else if Ascii.eqb c (ascii_of_nat 13) then "\r"
  else if in_range 32 126 c || in_range 161 172 c || in_range 174 255 c then String c ""
  else "\x" +:+ String (hex_digit (code c / 16)) (String (hex_digit (code c mod 16)) "").
Fixpoint repr_chars (quote : ascii) (s : string) : string :=
  match s with EmptyString => "" | String c s => repr_char quote c +:+ repr_chars quote s end.
Definition squote : ascii := ascii_of_nat 39.
Definition dquote : ascii := ascii_of_nat 34.
Definition repr_str (s : string) : string :=
  let q := if has_char squote s && negb (has_char dquote s) then dquote else squote in
  String q (repr_chars q s) +:+ String q "".

(** [str] of a list of texts. *)
Definition list_repr (l : list string) : string := "[" +:+ String.concat ", " (repr_str <$> l) +:+ "]".

(** [int(s)]: blanks around, a sign, decimal digits with single underscores
    between them.  The bound on the number of digits is not modelled. *)
Definition int_of_string (s : string) : option Z :=
  let '(neg, d) := match strip s with
                   | String "-" d => (true, d)
                   | String "+" d => (false, d)
                   | d => (false, d)
                   end in
  d ← drop_underscores "x" d;
  n ← int_of_digits d;
  Some (if neg : bool then - n else n).

Example fixed_ex : fixed 3 (dec 5 1) = "0.500" /\ fixed 3 (dec 125 5) = "0.001".
Proof. vm_compute. done. Qed.
Example fmt_g_ex :
  fmt_g (dec 10 0) = "10" /\ fmt_g (dec 25 1) = "2.5" /\ fmt_g (dec 1 4) = "0.0001"
  /\ fmt_g (dec 1234567 0) = "1.23457e+06" /\ fmt_g (dec 15 6) = "1.5e-05"
  /\ fmt_g (dec 9999996 1) = "1e+06" /\ fmt_g (dec 100000 0) = "100000".
Proof. vm_compute. done. Qed.
Example int_of_string_ex :
  int_of_string " 1_000 " = Some 1000 /\ int_of_string "-3" = Some (-3)
  /\ int_of_string "1__0" = None /\ int_of_string "+ 3" = None /\ int_of_string "" = None.
Proof. vm_compute. done. Qed.

(** ** The digits of an integer *)

Open Scope nat_scope.
Lemma pretty_char_decimal n : isdecimal (pretty_N_char n) = true.
Proof. unfold pretty_N_char. by repeat case_match. Qed.
Lemma pretty_char_val n : (n < 10)%N -> digit_val (pretty_N_char n) = Z.of_N n.
Proof.
  intros H. assert (n ∈ [0; 1; 2; 3; 4; 5; 6; 7; 8; 9]%N) as Hn
    by (rewrite !elem_of_cons, elem_of_nil; lia).
  rewrite !elem_of_cons, elem_of_nil in Hn. repeat (destruct Hn as [-> |Hn]; [done|]). done.
Qed.
Lemma pretty_go_digits n s :
  (str_all isdecimal s = true -> str_all isdecimal (pretty_N_go n s) = true)
  /\ digits_val 0 (pretty_N_go n s) = digits_val (Z.of_N n) s
  /\ (n <> 0%N -> exists c t, pretty_N_go n s = String c t).
Proof.
  revert s. induction (N.lt_wf_0 n) as [n _ IH]; intros s.
  destruct (decide (n = 0%N)) as [-> |Hn]; [by rewrite pretty_N_go_0|].
  rewrite pretty_N_go_step by lia.
  destruct (IH (n `div` 10)%N ltac:(apply N.div_lt; lia) (String (pretty_N_char (n `mod` 10)) s)) as (H1 & H2 & H3).
  split_and!.
  - intros Hs. apply H1. simpl. by rewrite pretty_char_decimal.
  - rewrite H2. cbn [digits_val]. rewrite pretty_char_val by (apply N.mod_lt; lia). f_equal.
    rewrite (N.div_mod' n 10) at 3. lia.
  - intros _. destruct (decide (n `div` 10 = 0)%N) as [E|E]; [|by apply H3].
    rewrite E, pretty_N_go_0. eauto.
Qed.
Lemma pretty_pos_digits p :
  str_all isdecimal (pretty (N.pos p)) = true /\ int_of_digits (pretty (N.pos p)) = Some (Z.pos p)
  /\ exists c t, pretty (N.pos p) = String c t.
Proof.
  unfold pretty, pretty_N. rewrite decide_False by done.
  destruct (pretty_go_digits (N.pos p) "") as (H1 & H2 & H3). specialize (H1 eq_refl).
  destruct (H3 ltac:(done)) as (c & t & E). split_and!; [done| |eauto].
  unfold int_of_digits. rewrite H1, H2, E. done.
Qed.
Lemma int_of_z_str z : int_of_run (z_str z) = Some z.
Proof.
  unfold z_str. destruct z as [|p|p]; [done|..]; destruct (pretty_pos_digits p) as (H1 & H2 & c & t & E).
  - change (pretty (Z.pos p)) with (pretty (N.pos p)). unfold int_of_run. rewrite E in *.
    destruct (Ascii.ascii_dec c "-") as [-> |Hc]; [by simpl in H1|]. destruct c as [[] [] [] [] [] [] [] []]; done.
  - change (pretty (Z.neg p)) with (String "-" (pretty (N.pos p))).
    unfold int_of_run. by rewrite H2.
Qed.
Lemma pretty_go_length k x s : (x < 10 ^ N.of_nat k)%N -> String.length (pretty_N_go x s) <= k + String.length s.
Proof.
  revert x s. induction k as [|k IH]; intros x s Hx.
  - assert (x = 0%N) as -> by (simpl in Hx; lia). by rewrite pretty_N_go_0.
  - destruct (decide (x = 0%N)) as [->|Hn]; [rewrite pretty_N_go_0; lia|]. rewrite pretty_N_go_step by lia.
    etransitivity; [apply IH|simpl; lia]. rewrite Nat2N.inj_succ, N.pow_succ_r' in Hx. by apply N.Div0.div_lt_upper_bound.
Qed.
