(* ===== verification/Canonical.v ===== *)
(** * Canonical JSON

    [tex/events/_canonical.py]: the text that manifests and ledger records are hashed
    over.  A mapping keeps the first of equal keys, as a dict has one.  [dumps] is
    [json.dumps] with sorted keys, without blanks and without escaping of non-ASCII
    characters; [Json.loads] is [json.loads], which reads it back. *)
From Stdlib Require Import Sorted SpecFloat.
From stdpp Require Import pretty.
From S2P Require Import Prelude PyStr PyFloat PyVal PyFormat PathChecker.
Open Scope string_scope.
Open Scope list_scope.
Open Scope nat_scope.

Module Canonical.

(** The values that are accepted; [False] is the [TypeError]. *)
Fixpoint assert_canonicalizable (v : pyval) : bool :=
  match v with
  | PNone | PBool _ | PInt _ | PStr _ => true
  | PList l => forallb assert_canonicalizable l
  | PDict d => forallb (fun kv => assert_canonicalizable kv.2) d
  | PFloat _ | PObj _ => false
  end.

(** ** Rendering *)

Definition hex4 (c : ascii) : string :=
  "\u00" +:+ String (hex_digit (code c / 16)) (String (hex_digit (code c mod 16)) "").
Definition escape (c : ascii) : string :=
  if Ascii.eqb c dquote then String "\" (String dquote "")
  else if Ascii.eqb c "\" then "\\"
  else if Ascii.eqb c (ascii_of_nat 10) then "\n"
  else if Ascii.eqb c (ascii_of_nat 13) then "\r"
  else if Ascii.eqb c (ascii_of_nat 9) then "\t"
  else if Ascii.eqb c (ascii_of_nat 12) then "\f"
  else if Ascii.eqb c (ascii_of_nat 8) then "\b"
  else if (code c <? 32)%N then hex4 c
  else String c "".
Fixpoint escaped (s : string) : string :=
  match s with EmptyString => "" | String c s => escape c +:+ escaped s end.
Definition quoted (s : string) : string := String dquote (escaped s) +:+ String dquote "".

Fixpoint render (v : pyval) : string :=
  match v with
  | PNone => "null"
  | PBool b => if b then "true" else "false"
  | PInt z => z_str z
  | PStr s => quoted s
  | PList l => "[" +:+ String.concat "," (render <$> l) +:+ "]"
  | PDict d => "{" +:+ String.concat "," ((fun kv => quoted kv.1 +:+ ":" +:+ render kv.2) <$> d) +:+ "}"
  | PFloat _ | PObj _ => ""
  end.

(** ** Sorting *)

Fixpoint insert_item {A} (kv : string * A) (d : list (string * A)) : list (string * A) :=
  match d with
  | [] => [kv]
  | kv' :: d' => if str_ltb kv.1 kv'.1 then kv :: d
                 else if String.eqb kv.1 kv'.1 then kv :: d' else kv' :: insert_item kv d'
  end.
(** Inserted from the right, an earlier item replaces a later one with its key. *)
Definition sort_items {A} (d : list (string * A)) : list (string * A) := foldr insert_item [] d.
(** The value with every mapping sorted. *)
Fixpoint canon (v : pyval) : pyval :=
  match v with
  | PList l => PList (canon <$> l)
  | PDict d => PDict (sort_items ((fun kv => (kv.1, canon kv.2)) <$> d))
  | v => v
  end.

(** [json.dumps(v, sort_keys=True, separators=(',', ':'), ensure_ascii=False)]. *)
Definition dumps (v : pyval) : string := render (canon v).
Definition canonical_json (v : pyval) : option string :=
  if assert_canonicalizable v then Some (dumps v) else None.

Section Hash.
Context (sha256_hex : string -> string).
Definition canonical_sha256 (v : pyval) : option string := sha256_hex <$> canonical_json v.
End Hash.

(** ** The text determines the value *)

Definition unhex (c : ascii) : N := if (code c <? 58)%N then code c - 48 else code c - 87.
Definition unescape (s : string) : option (ascii * string) :=
  match s with
  | String "\" (String "n" r) => Some (ascii_of_nat 10, r)
  | String "\" (String "r" r) => Some (ascii_of_nat 13, r)
  | String "\" (String "t" r) => Some (ascii_of_nat 9, r)
  | String "\" (String "f" r) => Some (ascii_of_nat 12, r)
  | String "\" (String "b" r) => Some (ascii_of_nat 8, r)
  | String "\" (String "u" (String _ (String _ (String h (String l r))))) => Some (ascii_of_N (16 * unhex h + unhex l), r)
  | String "\" (String c r) => Some (c, r)
  | String c r => Some (c, r)
  | EmptyString => None
  end.
Lemma unescape_escape c r : unescape (escape c +:+ r) = Some (c, r).
Proof. destruct c as [[] [] [] [] [] [] [] []]; reflexivity. Qed.
Lemma escape_head c : exists d t, escape c = String d t /\ d <> dquote.
Proof. destruct c as [[] [] [] [] [] [] [] []]; eexists _, _; (split; [reflexivity|done]). Qed.

Lemma escaped_inj s s' r r' :
  escaped s +:+ String dquote r = escaped s' +:+ String dquote r' -> s = s' /\ r = r'.
Proof.
  revert s'. induction s as [|c s IH]; intros [|c' s']; simpl escaped; rewrite ?str_app_assoc, ?str_app_nil.
  - naive_solver.
  - destruct (escape_head c') as (d & t & -> & Hd). rewrite str_app_cons. naive_solver.
  - destruct (escape_head c) as (d & t & -> & Hd). rewrite str_app_cons. naive_solver.
  - intros H. pose proof (f_equal unescape H) as Hu. rewrite !unescape_escape in Hu. injection Hu as -> Hu.
    apply IH in Hu as [-> ->]. done.
Qed.
Lemma quoted_inj s s' r r' : quoted s +:+ r = quoted s' +:+ r' -> s = s' /\ r = r'.
Proof.
  unfold quoted. rewrite !str_app_cons, !str_app_assoc, !str_app_cons, !str_app_nil. intros [= H]. by apply escaped_inj.
Qed.

(** What follows a value inside another one. *)
Definition delimited (r : string) : Prop :=
  match r with EmptyString => True | String c _ => c = "," \/ c = "]" \/ c = "}" end%char.
Definition number_char (c : ascii) : bool := isdecimal c || Ascii.eqb c "-".

Lemma str_all_impl p q s : (forall c, p c = true -> q c = true) -> str_all p s = true -> str_all q s = true.
Proof.
  intros H. induction s as [|c s IH]; simpl; [done|]. intros [Hc Hs]%andb_prop. rewrite (H _ Hc). by apply IH.
Qed.
Lemma z_str_chars z : str_all number_char (z_str z) = true /\ exists c t, z_str z = String c t /\ number_char c = true.
Proof.
  assert (Hp : forall p, str_all number_char (pretty (N.pos p)) = true /\ exists c t, pretty (N.pos p) = String c t /\ number_char c = true).
  { intros p. destruct (pretty_pos_digits p) as (H1 & _ & c & t & E).
    assert (H : str_all number_char (pretty (N.pos p)) = true).
    { eapply str_all_impl; [|exact H1]. unfold number_char. intros d ->. done. }
    split; [done|]. exists c, t. split; [done|]. rewrite E in H. by apply andb_prop in H as [? _]. }
  unfold z_str. destruct z as [|p|p]; [split; [done|by eexists _, _]|apply Hp|].
  change (pretty (Z.neg p)) with (String "-" (pretty (N.pos p))). destruct (Hp p) as [H _].
  split; [simpl; by rewrite H|by eexists _, _].
Qed.
Lemma number_inj z z' r r' : delimited r -> delimited r' -> z_str z +:+ r = z_str z' +:+ r' -> z = z' /\ r = r'.
Proof.
  intros Hr Hr' H. assert (Hs : forall z r, delimited r -> span number_char (z_str z +:+ r) = (z_str z, r)).
  { clear. intros z r Hr. apply span_word; [apply z_str_chars|]. destruct r as [|c r]; [done|]. simpl in *. naive_solver. }
  pose proof (f_equal (span number_char) H) as E. rewrite !Hs in E by done. injection E as E ->. split; [|done].
  pose proof (f_equal int_of_run E) as Ez. rewrite !int_of_z_str in Ez. congruence.
Qed.

Section Joined.
Context {A : Type} (p : A -> string) (close : ascii) (good : A -> Prop).
Context (close_ok : close = "]"%char \/ close = "}"%char).
Context (p_head : forall x, good x -> exists c t, p x = String c t /\ c <> close).

Definition joined (l : list A) (r : string) : string := String.concat "," (p <$> l) +:+ String close r.
Definition rest (l : list A) (r : string) : string :=
  match l with [] => String close r | _ => String "," (joined l r) end.
Lemma joined_cons x l r : joined (x :: l) r = p x +:+ rest l r.
Proof using.
  unfold joined, rest. destruct l as [|y l]; [done|]. rewrite !fmap_cons.
  change (String.concat "," (p x :: p y :: (p <$> l))) with (p x +:+ ("," +:+ String.concat "," (p y :: (p <$> l)))).
  by rewrite str_app_assoc.
Qed.
Lemma rest_delimited l r : delimited (rest l r).
Proof using close_ok. destruct l; simpl; [by right|by left]. Qed.
Lemma joined_inj l l' r r' :
  (forall x x' q q', x ∈ l -> good x' -> delimited q -> delimited q' -> p x +:+ q = p x' +:+ q' -> x = x' /\ q = q') ->
  Forall good l -> Forall good l' -> joined l r = joined l' r' -> l = l' /\ r = r'.
Proof using close_ok p_head.
  intros Hp Hl. revert l' r'. induction Hl as [|x l Hx Hl IH]; intros l' r' Hl'; destruct Hl' as [|x' l' Hx' Hl'].
  - intros [= ->]. done.
  - rewrite joined_cons. destruct (p_head x' Hx') as (c & t & -> & Hc). rewrite str_app_cons. intros [= -> _]. done.
  - rewrite joined_cons. destruct (p_head x Hx) as (c & t & -> & Hc). rewrite str_app_cons. intros [= -> _]. done.
  - rewrite !joined_cons. intros [-> Hr]%Hp; [|by left|done|apply rest_delimited..].
    assert (Hcl : close <> ","%char) by (by destruct close_ok as [-> | ->]).
    destruct l as [|y l], l' as [|y' l']; simpl in Hr; [by injection Hr as ->|congruence..|].
    injection Hr as Hr. destruct (IH (fun a a' q q' Ha => Hp a a' q q' (list_elem_of_further _ _ _ Ha)) _ _ Hl' Hr) as [-> ->]. done.
Qed.
End Joined.

Fixpoint vsize (v : pyval) : nat :=
  match v with
  | PList l => S (sum_list_with vsize l)
  | PDict d => S (sum_list_with (fun kv => vsize kv.2) d)
  | _ => 1
  end.
Lemma render_head v :
  assert_canonicalizable v = true ->
  exists c t, render v = String c t /\ c <> "]"%char /\ c <> "}"%char
  /\ match v with
     | PNone => c = "n" | PBool b => c = if b then "t" else "f" | PInt _ => number_char c = true
     | PStr _ => c = dquote | PList _ => c = "[" | PDict _ => c = "{" | _ => True
     end%char.
Proof.
  destruct v as [|b|z|f|s|l|d|s]; try discriminate; intros _.
  3: { destruct (z_str_chars z) as (_ & c & t & E & Hc). exists c, t. split; [exact E|].
       split_and!; [intros ->; discriminate Hc..|done]. }
  2: destruct b.
  all: eexists _, _; (split; [reflexivity|]); done.
Qed.

Lemma render_inj_size n v v' r r' :
  vsize v <= n -> assert_canonicalizable v = true -> assert_canonicalizable v' = true ->
  delimited r -> delimited r' -> render v +:+ r = render v' +:+ r' -> v = v' /\ r = r'.
Proof.
  revert v v' r r'. induction n as [|n IH]; intros v v' r r' Hn Hv Hv' Hr Hr' H; [destruct v; simpl in Hn; lia|].
  assert (Hh : match v, v' with
          | PNone, PNone | PInt _, PInt _ | PStr _, PStr _ | PList _, PList _ | PDict _, PDict _ => True
          | PBool b, PBool b' => b = b' | _, _ => False end).
  { destruct (render_head v Hv) as (c & t & E & _ & _ & Hc), (render_head v' Hv') as (c' & t' & E' & _ & _ & Hc').
    rewrite E, E', !str_app_cons in H. injection H as H _. subst c'. clear -Hc Hc' Hv Hv'.
    destruct v as [|[]| | | | | |], v' as [|[]| | | | | |]; subst; try discriminate; done. }
  destruct v as [|b|z|f|s|l|d|s], v' as [|b'|z'|f'|s'|l'|d'|s']; try done; simpl render in H.
  - by simplify_eq.
  - subst b'. destruct b; by simplify_eq.
  - apply number_inj in H as [-> ->]; done.
  - apply quoted_inj in H as [-> ->]. done.
  - rewrite !str_app_assoc in H. injection H as H. simpl in Hn, Hv, Hv'.
    apply (joined_inj render "]" (fun v => assert_canonicalizable v = true)) in H as [-> ->]; [done| | | | |].
    + by left.
    + intros x Hx. destruct (render_head x Hx) as (c & t & E & H1 & _). eauto.
    + intros x x' q q' Hx Hx' Hq Hq'. rewrite forallb_forall in Hv. apply IH; [|apply Hv, list_elem_of_In, Hx|done..].
      pose proof (sum_list_with_elem vsize _ _ Hx). lia.
    + by apply forallb_Forall_true.
    + by apply forallb_Forall_true.
  - rewrite !str_app_assoc in H. injection H as H. simpl in Hn, Hv, Hv'.
    apply (joined_inj (fun kv => quoted kv.1 +:+ ":" +:+ render kv.2) "}" (fun kv => assert_canonicalizable kv.2 = true)) in H as [-> ->]; [done| | | | |].
    + by right.
    + intros x Hx. by eexists _, _.
    + intros [k x] [k' x'] q q' Hx Hx' Hq Hq'. simpl. rewrite !str_app_assoc. intros [-> E]%quoted_inj. injection E as E.
      rewrite forallb_forall in Hv. apply IH in E as [-> ->]; [done| |by apply (Hv (k', x)), list_elem_of_In|done..].
      pose proof (sum_list_with_elem (fun kv => vsize kv.2) _ _ Hx). simpl in *. lia.
    + by apply forallb_Forall_true.
    + by apply forallb_Forall_true.
Qed.
Lemma render_inj v v' :
  assert_canonicalizable v = true -> assert_canonicalizable v' = true -> render v = render v' -> v = v'.
Proof.
  intros Hv Hv' H. apply (render_inj_size (vsize v) v v' "" "" (le_n _) Hv Hv' I I). by rewrite H.
Qed.

(** ** What the text is determined by *)

Lemma insert_item_elem {A} (kv x : string * A) d : x ∈ insert_item kv d -> x = kv \/ x ∈ d.
Proof.
  induction d as [|y d IH]; simpl; [set_solver|]. destruct (str_ltb _ _); [set_solver|].
  destruct (String.eqb _ _); [set_solver|]. rewrite !elem_of_cons. naive_solver.
Qed.
Lemma sort_items_elem {A} (x : string * A) d : x ∈ sort_items d -> x ∈ d.
Proof.
  induction d as [|y d IH]; simpl; [done|]. intros [->|H]%insert_item_elem; [by left|]. right. by apply IH.
Qed.
Definition key_ltb {A} (a b : string * A) : Prop := str_ltb a.1 b.1 = true.
Lemma insert_item_sorted {A} (kv : string * A) d : StronglySorted key_ltb d -> StronglySorted key_ltb (insert_item kv d).
Proof.
  induction 1 as [|y d Hd IH Hy]; simpl; [by repeat constructor|].
  destruct (str_ltb kv.1 y.1) eqn:E1; [|destruct (String.eqb_spec kv.1 y.1) as [E2|E2]].
  - constructor; [by constructor|]. constructor; [done|]. eapply list.Forall_impl; [exact Hy|]. intros z Hz. by eapply str_ltb_trans.
  - constructor; [done|]. unfold key_ltb in *. by rewrite E2.
  - constructor; [done|]. apply list.Forall_forall. intros z Hz. apply insert_item_elem in Hz. destruct Hz as [->|Hz].
    + unfold key_ltb. destruct (str_ltb_total kv.1 y.1 E2) as [?|?]; congruence.
    + by eapply (proj1 (list.Forall_forall _ _) Hy).
Qed.
Lemma sort_items_sorted {A} (d : list (string * A)) : StronglySorted key_ltb (sort_items d).
Proof. induction d; simpl; [constructor|by apply insert_item_sorted]. Qed.
Lemma insert_item_get k kv d : dict_get k (insert_item kv d) = if String.eqb k kv.1 then Some kv.2 else dict_get k d.
Proof.
  destruct kv as [k0 v0]. induction d as [|[k1 v1] d IH]; simpl; [done|].
  destruct (str_ltb k0 k1); [done|]. destruct (String.eqb_spec k0 k1) as [->|Hne]; simpl; [by destruct (String.eqb k k1)|].
  rewrite IH. destruct (String.eqb_spec k k1) as [->|]; [|done]. by destruct (String.eqb_spec k1 k0) as [->|].
Qed.
Lemma sort_items_get k d : dict_get k (sort_items d) = dict_get k d.
Proof.
  induction d as [|[k1 v1] d IH]; simpl; [done|]. rewrite insert_item_get, IH. done.
Qed.
Lemma dict_get_map (f : pyval -> pyval) k d : dict_get k ((fun kv => (kv.1, f kv.2)) <$> d) = f <$> dict_get k d.
Proof. induction d as [|[k1 v1] d IH]; [done|]. rewrite fmap_cons. cbn [dict_get fst snd]. rewrite IH. by destruct (String.eqb k k1). Qed.
Lemma dict_get_smaller k x (d : list (string * pyval)) : Forall (key_ltb x) d -> str_ltb k x.1 = true \/ k = x.1 -> dict_get k d = None.
Proof.
  intros H Hk. induction H as [|[k1 v1] d Hx Hd IH]; [done|]. simpl. unfold key_ltb in Hx. simpl in Hx.
  destruct (String.eqb_spec k k1) as [->|]; [|done]. exfalso. destruct Hk as [Hk|Hk].
  - pose proof (str_ltb_trans _ _ _ Hk Hx) as Hi. by rewrite str_ltb_irrefl in Hi.
  - rewrite <- Hk, str_ltb_irrefl in Hx. done.
Qed.
Lemma items_sorted_ext (d d' : list (string * pyval)) :
  StronglySorted key_ltb d -> StronglySorted key_ltb d' -> (forall k, dict_get k d = dict_get k d') -> d = d'.
Proof.
  intros Hd. revert d'. induction Hd as [|[k v] d Hd IH Hx]; intros [|[k' v'] d'] Hd' H; [done| | |].
  - specialize (H k'). simpl in H. by rewrite String.eqb_refl in H.
  - specialize (H k). simpl in H. by rewrite String.eqb_refl in H.
  - inversion Hd' as [|? ? Hs' Hx']; subst. assert (k = k') as ->.
    { destruct (decide (k = k')) as [->|Hne]; [done|]. exfalso. destruct (str_ltb_total k k' Hne) as [Hlt|Hlt].
      - pose proof (H k) as E. simpl in E. rewrite String.eqb_refl in E.
        destruct (String.eqb_spec k k') as [->|]; [by rewrite str_ltb_irrefl in Hlt|].
        rewrite (dict_get_smaller k (k', v') d') in E; [done|done|by left].
      - pose proof (H k') as E. simpl in E. rewrite String.eqb_refl in E.
        destruct (String.eqb_spec k' k) as [->|]; [by rewrite str_ltb_irrefl in Hlt|].
        rewrite (dict_get_smaller k' (k, v) d) in E; [done|done|by left]. }
    pose proof (H k') as E. simpl in E. rewrite String.eqb_refl in E. injection E as ->. f_equal. apply IH; [done|].
    intros q. specialize (H q). simpl in H. destruct (String.eqb_spec q k') as [E|]; [|done].
    by rewrite (dict_get_smaller q (k', v') d), (dict_get_smaller q (k', v') d') by (done || by right).
Qed.

(** Mappings are compared as Python compares them: key by key. *)
Lemma canon_dict d d' :
  canon (PDict d) = canon (PDict d') <-> forall k, canon <$> dict_get k d = canon <$> dict_get k d'.
Proof.
  simpl. split.
  - intros [= H] k. apply (f_equal (dict_get k)) in H. by rewrite !sort_items_get, !dict_get_map in H.
  - intros H. f_equal. apply items_sorted_ext; [apply sort_items_sorted..|]. intros k. by rewrite !sort_items_get, !dict_get_map.
Qed.
Lemma canon_ok v : assert_canonicalizable v = true -> assert_canonicalizable (canon v) = true.
Proof.
  remember (vsize v) as n eqn:Hn. assert (Hle : vsize v <= n) by lia. clear Hn. revert v Hle.
  induction n as [|n IH]; intros v Hle; [destruct v; simpl in Hle; lia|].
  destruct v as [|b|z|f|s|l|d|s]; try done; simpl in *; rewrite !forallb_Forall_true, !list.Forall_forall.
  - intros Hl x (y & -> & Hy)%list_elem_of_fmap. apply IH; [|by apply Hl].
    pose proof (sum_list_with_elem vsize _ _ Hy). lia.
  - intros Hl x Hx. apply sort_items_elem, list_elem_of_fmap in Hx as (y & -> & Hy). simpl. apply IH; [|by apply Hl].
    pose proof (sum_list_with_elem (fun kv => vsize kv.2) _ _ Hy). simpl in *. lia.
Qed.

Lemma canonical_json_spec v v' s :
  canonical_json v = Some s ->
  canonical_json v' = Some s <-> assert_canonicalizable v' = true /\ canon v = canon v'.
Proof.
  unfold canonical_json, dumps. destruct (assert_canonicalizable v) eqn:Hv; [|done]. intros [= <-].
  destruct (assert_canonicalizable v') eqn:Hv'; [|naive_solver]. split.
  - intros [= H]. split; [done|]. symmetry. by apply render_inj; [apply canon_ok..|].
  - intros [_ ->]. done.
Qed.
End Canonical.

(** ** Reading JSON: [json.loads]

    The decoder of the standard library on the strings of the model (code points below
    256; an escape of a larger one is refused).  [None] is the [JSONDecodeError]. *)
Module Json.
Import Canonical.

Definition blank (c : ascii) : bool := existsb (N.eqb (code c)) [32; 9; 10; 13]%N.
Fixpoint skip (s : string) : string :=
  match s with String c s' => if blank c then skip s' else s | EmptyString => "" end.

Definition hex_val (c : ascii) : option N :=
  if isdecimal c then Some (code c - 48)%N
  else if in_range 97 102 c then Some (code c - 87)%N
  else if in_range 65 70 c then Some (code c - 55)%N else None.
Definition simple_escape (c : ascii) : option ascii :=
  if Ascii.eqb c dquote || Ascii.eqb c "\" || Ascii.eqb c "/" then Some c
  else if Ascii.eqb c "b" then Some (ascii_of_nat 8)
  else if Ascii.eqb c "f" then Some (ascii_of_nat 12)
  else if Ascii.eqb c "n" then Some (ascii_of_nat 10)
  else if Ascii.eqb c "r" then Some (ascii_of_nat 13)
  else if Ascii.eqb c "t" then Some (ascii_of_nat 9) else None.
Definition after (c : ascii) (r : option (string * string)) : option (string * string) :=
  '(t, r) ← r; Some (String c t, r).

(** The string that starts after a quote, and what follows its closing quote: a control
    character inside is an error (the decoder is strict). *)
Fixpoint scan_string (s : string) : option (string * string) :=
  match s with
  | EmptyString => None
  | String c r =>
      if Ascii.eqb c dquote then Some ("", r)
      else if Ascii.eqb c "\" then
        match r with
        | EmptyString => None
        | String e r =>
            if Ascii.eqb e "u" then
              match r with
              | String h1 (String h2 (String h3 (String h4 r))) =>
                  a ← hex_val h1; b ← hex_val h2; c ← hex_val h3; d ← hex_val h4;
                  let n := (4096 * a + 256 * b + 16 * c + d)%N in
                  if (n <? 256)%N then after (ascii_of_N n) (scan_string r) else None
              | _ => None
              end
            else c ← simple_escape e; after c (scan_string r)
        end
      else if (code c <? 32)%N then None else after c (scan_string r)
  end.

(** [NUMBER_RE]: an optional minus, [0] or digits that do not start with [0], then an
    optional fraction and an optional exponent. *)
Definition int_part (s : string) : string * string :=
  match s with String "0" r => ("0", r) | _ => span isdecimal s end.
Definition frac_part (s : string) : string * string :=
  match s with
  | String "." r => match span isdecimal r with ("", _) => ("", s) | (ds, r) => ("." +:+ ds, r) end
  | _ => ("", s)
  end.
Definition exp_part (s : string) : string * string :=
  match s with
  | String e r =>
      if Ascii.eqb e "e" || Ascii.eqb e "E" then
        let '(sign, r) := match r with String "-" r => ("-", r) | String "+" r => ("+", r) | _ => ("", r) end in
        match span isdecimal r with ("", _) => ("", s) | (ds, r) => (String e sign +:+ ds, r) end
      else ("", s)
  | _ => ("", s)
  end.
Definition scan_number (s : string) : option (pyval * string) :=
  let '(sign, r) := match s with String "-" r => ("-", r) | _ => ("", s) end in
  let '(ip, r) := int_part r in
  if String.eqb ip "" then None
  else
    let '(fp, r) := frac_part r in
    let '(ep, r) := exp_part r in
    if String.eqb fp "" && String.eqb ep "" then z ← int_of_run (sign +:+ ip); Some (PInt z, r)
    else f ← float_of_string (sign +:+ ip +:+ fp +:+ ep); Some (PFloat f, r).

Definition literals : list (string * pyval) :=
  [("null", PNone); ("true", PBool true); ("false", PBool false); ("NaN", PFloat S754_nan);
   ("Infinity", PFloat (S754_infinity false)); ("-Infinity", PFloat (S754_infinity true))].
Fixpoint scan_literal (ls : list (string * pyval)) (s : string) : option (pyval * string) :=
  match ls with
  | [] => scan_number s
  | (w, v) :: ls => match drop_prefix w s with Some r => Some (v, r) | None => scan_literal ls s end
  end.

(** [dict(pairs)]: the last of equal keys gives the value. *)
Definition dict_of (pairs : pydict) : pydict :=
  fold_left (fun d kv => PathChecker.dict_set kv.1 kv.2 d) pairs [].

Definition expect (c : ascii) (s : string) : option string :=
  match s with String d r => if Ascii.eqb c d then Some r else None | EmptyString => None end.

Fixpoint scan_once (fuel : nat) (s : string) : option (pyval * string) :=
  match fuel, s with
  | S fuel, String c r =>
      if Ascii.eqb c dquote then '(t, r) ← scan_string r; Some (PStr t, r)
      else if Ascii.eqb c "[" then
        match expect "]" (skip r) with
        | Some r => Some (PList [], r)
        | None => '(l, r) ← elements fuel (skip r); Some (PList l, r)
        end
      else if Ascii.eqb c "{" then
        match expect "}" (skip r) with
        | Some r => Some (PDict [], r)
        | None => '(d, r) ← members fuel (skip r); Some (PDict (dict_of d), r)
        end
      else scan_literal literals s
  | _, _ => None
  end
with elements (fuel : nat) (s : string) : option (list pyval * string) :=
  match fuel with
  | O => None
  | S fuel =>
      '(v, r) ← scan_once fuel s;
      match expect "]" (skip r) with
      | Some r => Some ([v], r)
      | None => r ← expect "," (skip r); '(l, r) ← elements fuel (skip r); Some (v :: l, r)
      end
  end
with members (fuel : nat) (s : string) : option (pydict * string) :=
  match fuel with
  | O => None
  | S fuel =>
      r ← expect dquote s; '(k, r) ← scan_string r;
      r ← expect ":" (skip r); '(v, r) ← scan_once fuel (skip r);
      match expect "}" (skip r) with
      | Some r => Some ([(k, v)], r)
      | None => r ← expect "," (skip r); '(d, r) ← members fuel (skip r); Some ((k, v) :: d, r)
      end
  end.

(** A text needs at most two calls for each of its characters: [loads_fuel] shows that more
    fuel changes nothing. *)
Definition loads (s : string) : option pyval :=
  '(v, r) ← scan_once (2 * String.length s) (skip s);
  if String.eqb (skip r) "" then Some v else None.

(** *** What is written is read back *)

Example loads_ex :
  loads (String dquote "A\n" +:+ String dquote "") = Some (PStr (String "A" (String (ascii_of_nat 10) "")))
  /\ loads " [1, -2.5e1 ,{}] " = Some (PList [PInt 1; PFloat (fsub f_zero (dec 25 0)); PDict []])
  /\ loads "[1,]" = None /\ loads "01" = None /\ loads "-Infinity" = Some (PFloat (S754_infinity true)).
Proof. vm_compute. done. Qed.

Lemma scan_escaped s r : scan_string (escaped s +:+ String dquote r) = Some (s, r).
Proof.
  induction s as [|c s IH]; [done|]. simpl escaped. rewrite str_app_assoc.
  assert (H : forall t, scan_string (escape c +:+ t) = after c (scan_string t)).
  { intros t. destruct c as [[] [] [] [] [] [] [] []]; reflexivity. }
  by rewrite H, IH.
Qed.
Lemma scan_quoted s r : quoted s +:+ r = String dquote (escaped s +:+ String dquote r).
Proof. unfold quoted. by rewrite str_app_assoc, !str_app_cons, str_app_nil. Qed.

Lemma skip_solid c t : blank c = false -> skip (String c t) = String c t.
Proof. intros H. simpl. by rewrite H. Qed.
Lemma skip_delimited r : delimited r -> skip r = r.
Proof. destruct r as [|c r]; [done|]. intros [->|[->| ->]]; done. Qed.

Lemma pretty_go_lead n s : n <> 0%N -> exists c t, pretty_N_go n s = String c t /\ c <> "0"%char.
Proof.
  revert s. induction (N.lt_wf_0 n) as [n _ IH]; intros s Hn. rewrite pretty_N_go_step by lia.
  destruct (decide (n `div` 10 = 0)%N) as [E|E]; [|apply IH; [apply N.div_lt; lia|done]].
  rewrite E, pretty_N_go_0. eexists _, _. split; [done|]. apply N.div_small_iff in E; [|done].
  rewrite N.mod_small by done. intros H. apply (f_equal digit_val) in H. rewrite pretty_char_val in H by done.
  change (digit_val "0") with 0%Z in H. lia.
Qed.
Lemma int_part_pos p r : delimited r -> int_part (pretty (N.pos p) +:+ r) = (pretty (N.pos p), r).
Proof.
  intros Hr. destruct (pretty_pos_digits p) as (H1 & _). unfold pretty, pretty_N in *. rewrite decide_False in * by done.
  destruct (pretty_go_lead (N.pos p) "") as (c & t & E & Hc); [done|].
  rewrite <- (span_word isdecimal (pretty_N_go (N.pos p) "") r H1).
  - rewrite E, str_app_cons. unfold int_part.
    destruct c as [[] [] [] [] [] [] [] []]; done.
  - destruct r as [|d r]; [done|]. by destruct Hr as [->|[->| ->]].
Qed.
Lemma scan_z_str z r : delimited r -> scan_number (z_str z +:+ r) = Some (PInt z, r).
Proof.
  intros Hr. assert (Hf : frac_part r = ("", r) /\ exp_part r = ("", r)).
  { destruct r as [|d r]; [done|]. by destruct Hr as [->|[->| ->]]. }
  destruct Hf as [Hf He]. pose proof (int_of_z_str z) as Hz. unfold z_str in *.
  destruct z as [|p|p].
  - unfold scan_number. change (pretty 0%Z +:+ r) with (String "0" r). cbn -[frac_part exp_part]. by rewrite Hf, He.
  - change (pretty (Z.pos p)) with (pretty (N.pos p)) in *. unfold scan_number.
    pose proof (int_part_pos p r Hr) as Hi. destruct (pretty_pos_digits p) as (H1 & _ & c & t & E).
    rewrite E in *. rewrite str_app_cons in *. assert (Hc : c <> "-"%char) by (intros ->; discriminate H1).
    replace (match String c (t +:+ r) with String "-" r => ("-", r) | _ => ("", String c (t +:+ r)) end) with ("", String c (t +:+ r))
      by (by destruct c as [[] [] [] [] [] [] [] []]).
    rewrite Hi. cbn -[frac_part exp_part int_of_run]. rewrite Hf, He. cbn -[int_of_run]. rewrite ?str_app_cons, ?str_app_nil, Hz. done.
  - change (pretty (Z.neg p)) with (String "-" (pretty (N.pos p))) in *. unfold scan_number. rewrite str_app_cons.
    pose proof (int_part_pos p r Hr) as Hi. destruct (pretty_pos_digits p) as (_ & _ & c & t & E).
    rewrite E in *. rewrite Hi. cbn -[frac_part exp_part int_of_run]. rewrite Hf, He. cbn -[int_of_run]. rewrite ?str_app_cons, ?str_app_nil, Hz. done.
Qed.

(** No mapping inside has a key twice. *)
Fixpoint unique_keys (v : pyval) : bool :=
  match v with
  | PList l => forallb unique_keys l
  | PDict d => bool_decide (NoDup d.*1) && forallb (fun kv => unique_keys kv.2) d
  | _ => true
  end.
Lemma dict_set_new k v d : k ∉ d.*1 -> PathChecker.dict_set k v d = d ++ [(k, v)].
Proof.
  induction d as [|[k' v'] d IH]; intros Hk; [done|]. rewrite fmap_cons, not_elem_of_cons in Hk. simpl in *. destruct Hk as [Hk Hd].
  destruct (String.eqb_spec k k') as [->|_]; [done|]. by rewrite IH.
Qed.
Lemma dict_of_unique d : NoDup d.*1 -> dict_of d = d.
Proof.
  enough (H : forall acc, NoDup (acc ++ d).*1 -> fold_left (fun d kv => PathChecker.dict_set kv.1 kv.2 d) d acc = acc ++ d) by apply (H []).
  induction d as [|[k v] d IH]; intros acc H; simpl; [by rewrite app_nil_r|].
  rewrite dict_set_new, IH, <- app_assoc; [done|by rewrite <- app_assoc|].
  rewrite fmap_app in H. apply list.NoDup_app in H as (_ & H & _). intros Hk. apply (H _ Hk). by left.
Qed.

Lemma sorted_keys_nodup {A} (d : list (string * A)) : StronglySorted key_ltb d -> NoDup d.*1.
Proof.
  induction 1 as [|x d Hd IH Hx]; [constructor|]. rewrite fmap_cons. constructor; [|done].
  intros (y & E & Hy)%list_elem_of_fmap. pose proof (proj1 (list.Forall_forall _ _) Hx y Hy) as Hl.
  unfold key_ltb in Hl. by rewrite E, str_ltb_irrefl in Hl.
Qed.

Lemma render_solid v : assert_canonicalizable v = true ->
  exists c t, render v = String c t /\ blank c = false /\ c <> "]"%char /\ c <> "}"%char.
Proof.
  intros Hv. destruct (render_head v Hv) as (c & t & E & H1 & H2 & H3). exists c, t. split_and!; [done| |done..].
  destruct v as [|[]| | | | | |]; try discriminate Hv; subst; try done.
  by destruct c as [[] [] [] [] [] [] [] []].
Qed.
Lemma expect_other c d t : c <> d -> expect c (String d t) = None.
Proof. intros H. simpl. by destruct (Ascii.eqb_spec c d). Qed.

Lemma expect_hit c q : expect c (String c q) = Some q.
Proof. simpl. by rewrite Ascii.eqb_refl. Qed.

Definition member (kv : string * pyval) : string := quoted kv.1 +:+ ":" +:+ render kv.2.
Lemma member_app k v r : member (k, v) +:+ r = String dquote (escaped k +:+ String dquote (String ":" (render v +:+ r))).
Proof. unfold member. by rewrite str_app_assoc, scan_quoted, str_app_assoc. Qed.

Lemma vsize_pos v : 1 <= vsize v.
Proof. destruct v; simpl; lia. Qed.

Section Reads.
Context (n : nat).
Context (IH : forall v r f, vsize v <= n -> 2 * vsize v <= f -> assert_canonicalizable v = true -> unique_keys v = true ->
                delimited r -> scan_once f (render v +:+ r) = Some (v, r)).

Lemma elements_render x l r f :
  sum_list_with vsize (x :: l) <= n -> 1 + 2 * sum_list_with vsize (x :: l) <= f ->
  Forall (fun v => assert_canonicalizable v = true) (x :: l) -> Forall (fun v => unique_keys v = true) (x :: l) ->
  elements f (joined render "]" (x :: l) r) = Some (x :: l, r).
Proof using IH.
  revert x f. induction l as [|y l IHl]; intros x [|f] Hn Hf Hc Hu; try (simpl in Hf; lia);
    apply list.Forall_cons in Hc as [Hx Hc], Hu as [Hxu Hu]; rewrite joined_cons; cbn [elements];
    (rewrite IH; [|simpl in *; lia..|done|done|by apply rest_delimited; left]); cbn [mbind option_bind].
  - unfold rest. by rewrite skip_solid, expect_hit by done.
  - unfold rest. rewrite skip_solid, expect_other, expect_hit by done. cbn [mbind option_bind].
    apply list.Forall_cons in Hc as Hy. destruct Hy as [Hy _]. destruct (render_solid y Hy) as (c & t & E & Hb & _).
    assert (Hs : skip (joined render "]" (y :: l) r) = joined render "]" (y :: l) r).
    { rewrite joined_cons, E, str_app_cons. by apply skip_solid. }
    pose proof (vsize_pos x). rewrite Hs, IHl; [done|simpl in *; lia..|done|done].
Qed.
Abbreviation msize := (sum_list_with (fun kv : string * pyval => vsize kv.2)).
Lemma members_render x d r f :
  msize (x :: d) <= n -> 1 + 2 * msize (x :: d) <= f ->
  Forall (fun kv => assert_canonicalizable kv.2 = true) (x :: d) -> Forall (fun kv => unique_keys kv.2 = true) (x :: d) ->
  members f (joined member "}" (x :: d) r) = Some (x :: d, r).
Proof using IH.
  revert x f. induction d as [|y d IHd]; intros [k v] [|f] Hn Hf Hc Hu; try (simpl in Hf; lia);
    apply list.Forall_cons in Hc as [Hx Hc], Hu as [Hxu Hu]; rewrite joined_cons, member_app; cbn [members];
    rewrite expect_hit; cbn [mbind option_bind]; rewrite scan_escaped; cbn [mbind option_bind]; rewrite skip_solid, expect_hit by done; cbn [mbind option_bind];
    destruct (render_solid v Hx) as (c & t & E & Hb & _);
    (assert (Hs : forall q, skip (render v +:+ q) = render v +:+ q) by (intros q; rewrite E, str_app_cons; by apply skip_solid));
    (rewrite Hs, IH; [|simpl in *; lia..|done|done|by apply rest_delimited; right]); cbn [mbind option_bind].
  - unfold rest. by rewrite skip_solid, expect_hit by done.
  - unfold rest. rewrite skip_solid, expect_other, expect_hit by done. cbn [mbind option_bind].
    assert (Hm : skip (joined member "}" (y :: d) r) = joined member "}" (y :: d) r).
    { destruct y as [k' v']. rewrite joined_cons, member_app. by apply skip_solid. }
    pose proof (vsize_pos v). rewrite Hm, IHd; [done|simpl in *; lia..|done|done].
Qed.
End Reads.

Lemma scan_int f z r : scan_once (S f) (z_str z +:+ r) = scan_number (z_str z +:+ r).
Proof.
  unfold z_str. destruct z as [|p|p]; [done|..]; destruct (pretty_pos_digits p) as (H1 & _ & c & t & E).
  - change (pretty (Z.pos p)) with (pretty (N.pos p)). rewrite E in *. simpl in H1. apply andb_prop in H1 as [Hc _].
    rewrite str_app_cons. by destruct c as [[] [] [] [] [] [] [] []].
  - change (pretty (Z.neg p)) with (String "-" (pretty (N.pos p))). rewrite E in *. simpl in H1. apply andb_prop in H1 as [Hc _].
    rewrite !str_app_cons. by destruct c as [[] [] [] [] [] [] [] []].
Qed.
Lemma scan_leaf v r f :
  assert_canonicalizable v = true -> delimited r -> 1 <= f ->
  match v with PList _ | PDict _ => False | _ => True end ->
  scan_once f (render v +:+ r) = Some (v, r).
Proof.
  intros Hv Hr Hf Hl. destruct f as [|f]; [lia|]. destruct v as [|[]|z| |s| | |]; try done.
  - change (render (PInt z)) with (z_str z). rewrite <- (scan_z_str z r Hr). apply scan_int.
  - change (render (PStr s)) with (quoted s). rewrite scan_quoted. cbn [scan_once]. rewrite Ascii.eqb_refl, scan_escaped. done.
Qed.

Lemma scan_bracket f r : scan_once (S f) (String "[" r) =
  match expect "]" (skip r) with
  | Some r => Some (PList [], r)
  | None => '(l, r) ← elements f (skip r); Some (PList l, r)
  end.
Proof. reflexivity. Qed.
Lemma scan_brace f r : scan_once (S f) (String "{" r) =
  match expect "}" (skip r) with
  | Some r => Some (PDict [], r)
  | None => '(d, r) ← members f (skip r); Some (PDict (dict_of d), r)
  end.
Proof. reflexivity. Qed.
Lemma joined_start {A} (p : A -> string) close x l r c t :
  p x = String c t -> blank c = false -> c <> close ->
  skip (joined p close (x :: l) r) = joined p close (x :: l) r /\ expect close (joined p close (x :: l) r) = None.
Proof. intros E Hb Hc. rewrite joined_cons, E, str_app_cons. split; [by apply skip_solid|by apply expect_other]. Qed.

Lemma scan_render v r f :
  2 * vsize v <= f -> assert_canonicalizable v = true -> unique_keys v = true -> delimited r ->
  scan_once f (render v +:+ r) = Some (v, r).
Proof.
  remember (vsize v) as n eqn:En. assert (Hn : vsize v <= n) by lia. rewrite En. clear En.
  revert v r f Hn. induction n as [|n IH]; intros v r f Hn Hf Hc Hu Hr; [destruct v; simpl in Hn; lia|].
  destruct v as [|b|z|x|s|l|d|s]; try (apply scan_leaf; [done..|simpl in Hf; lia|done]); (destruct f as [|f]; [simpl in Hf; lia|]).
  - simpl in Hc, Hu. rewrite forallb_Forall_true in Hc, Hu. cbn [render]. rewrite !str_app_assoc, str_app_cons, str_app_nil.
    change (String.concat "," (render <$> l) +:+ "]" +:+ r) with (joined render "]" l r). rewrite scan_bracket.
    destruct l as [|x l]; [done|]. destruct (render_solid x) as (c & t & E & Hb & H1 & _); [by apply list.Forall_cons in Hc as [? _]|].
    destruct (joined_start render "]" x l r c t E Hb H1) as [-> ->].
    rewrite (elements_render n); [done| |simpl in *; lia..|done|done]. intros v q g ? ? ? ? ?. by apply IH.
  - simpl in Hc, Hu. apply andb_prop in Hu as [Hk%bool_decide_eq_true Hu]. rewrite forallb_Forall_true in Hc, Hu.
    cbn [render]. rewrite !str_app_assoc, str_app_cons, str_app_nil.
    fold member. rewrite scan_brace. change (String.concat "," (_ <$> d) +:+ "}" +:+ r) with (joined member "}" d r).
    destruct d as [|x d]; [done|]. destruct (joined_start member "}" x d r dquote (escaped x.1 +:+ String dquote (":" +:+ render x.2))) as [-> ->];
      [exact (scan_quoted x.1 _)|done..|].
    rewrite (members_render n); [|intros v q g ? ? ? ? ?; by apply IH|simpl in *; lia..|done|done].
    cbn [mbind option_bind]. by rewrite dict_of_unique.
Qed.

Lemma concat_length {A} (p : A -> string) l : sum_list_with (fun x => String.length (p x)) l <= String.length (String.concat "," (p <$> l)).
Proof.
  induction l as [|x l IH]; [done|]. destruct l as [|y l]; [simpl in *; lia|]. rewrite !fmap_cons in *.
  change (String.concat "," (p x :: p y :: (p <$> l))) with (p x +:+ ("," +:+ String.concat "," (p y :: (p <$> l)))).
  rewrite !str_length_app. simpl in *. lia.
Qed.
Lemma vsize_length v : assert_canonicalizable v = true -> vsize v <= String.length (render v).
Proof.
  remember (vsize v) as n eqn:En. assert (Hn : vsize v <= n) by lia. rewrite En. clear En.
  revert v Hn. induction n as [|n IH]; intros v Hn Hc; [destruct v; simpl in Hn; lia|].
  destruct v as [|b|z|x|s|l|d|s]; try (destruct (render_solid _ Hc) as (c & t & -> & _); simpl; lia); simpl in Hc; rewrite forallb_Forall_true, list.Forall_forall in Hc; cbn [render vsize] in *; rewrite !str_length_app; simpl (String.length "[" ); simpl (String.length "{").
  - pose proof (concat_length render l). pose proof (sum_list_le vsize (fun x => String.length (render x)) l) as Hs.
    specialize (Hs ltac:(intros x Hx; apply IH; [pose proof (sum_list_with_elem vsize _ _ Hx); lia|by apply Hc])). lia.
  - pose proof (concat_length member d). pose proof (sum_list_le (fun kv => vsize kv.2) (fun x => String.length (member x)) d) as Hs.
    specialize (Hs ltac:(intros x Hx; unfold member; rewrite !str_length_app; transitivity (String.length (render x.2)); [|lia];
      apply IH; [pose proof (sum_list_with_elem (fun kv => vsize kv.2) _ _ Hx); simpl in *; lia|by apply (Hc x)])).
    fold member. lia.
Qed.

(** The text is one line. *)
Definition solid (c : ascii) : bool := (32 <=? code c)%N.
Lemma str_all_app p a b : str_all p (a +:+ b) = str_all p a && str_all p b.
Proof. induction a as [|c a IH]; [done|]. rewrite str_app_cons. simpl. by rewrite IH, andb_assoc. Qed.
Lemma escaped_solid s : str_all solid (escaped s) = true.
Proof.
  induction s as [|c s IH]; [done|]. simpl. rewrite str_all_app, IH, andb_true_r. by destruct c as [[] [] [] [] [] [] [] []].
Qed.
Lemma quoted_solid s : str_all solid (quoted s) = true.
Proof. unfold quoted. rewrite str_all_app. simpl. by rewrite escaped_solid. Qed.
Lemma concat_solid {A} (p : A -> string) l : (forall x, x ∈ l -> str_all solid (p x) = true) -> str_all solid (String.concat "," (p <$> l)) = true.
Proof.
  induction l as [|x l IH]; intros H; [done|]. destruct l as [|y l]; [apply H; by left|]. rewrite !fmap_cons in *.
  change (String.concat "," (p x :: p y :: (p <$> l))) with (p x +:+ ("," +:+ String.concat "," (p y :: (p <$> l)))).
  rewrite !str_all_app, H, IH; [done|intros z Hz; apply H; by right|by left].
Qed.
Lemma render_no_control v : assert_canonicalizable v = true -> str_all solid (render v) = true.
Proof.
  remember (vsize v) as n eqn:En. assert (Hn : vsize v <= n) by lia. clear En. revert v Hn.
  induction n as [|n IH]; intros v Hn Hc; [destruct v; simpl in Hn; lia|].
  destruct v as [|[]|z|x|s|l|d|s]; try done; cbn [render]; simpl in Hc, Hn; rewrite ?forallb_Forall_true, ?list.Forall_forall in Hc.
  - destruct (z_str_chars z) as [H _]. eapply str_all_impl; [|exact H]. intros c Hd. by destruct c as [[] [] [] [] [] [] [] []].
  - apply quoted_solid.
  - rewrite !str_all_app, concat_solid; [done|]. intros x Hx. apply IH; [|by apply Hc].
    pose proof (sum_list_with_elem vsize _ _ Hx). lia.
  - rewrite !str_all_app, concat_solid; [done|]. intros x Hx. rewrite !str_all_app, quoted_solid. simpl. apply IH; [|by apply (Hc x)].
    pose proof (sum_list_with_elem (fun kv => vsize kv.2) _ _ Hx). simpl in *. lia.
Qed.

(** A mapping is sorted with its keys once. *)
Lemma canon_unique v : unique_keys (canon v) = true.
Proof.
  remember (vsize v) as n eqn:En. assert (Hn : vsize v <= n) by lia. clear En. revert v Hn.
  induction n as [|n IH]; intros v Hn; [destruct v; simpl in Hn; lia|].
  destruct v as [|b|z|x|s|l|d|s]; try done; simpl in *; rewrite ?andb_true_iff, !forallb_Forall_true, !list.Forall_forall.
  - intros x (y & -> & Hy)%list_elem_of_fmap. apply IH. pose proof (sum_list_with_elem vsize _ _ Hy). lia.
  - split; [apply bool_decide_eq_true; apply sorted_keys_nodup, sort_items_sorted|].
    intros x (y & -> & Hy)%sort_items_elem%list_elem_of_fmap. apply IH.
    pose proof (sum_list_with_elem (fun kv => vsize kv.2) _ _ Hy). simpl in *. lia.
Qed.

(** The round trip: what [dumps] writes, [loads] reads as the value with its mappings
    sorted. *)
Theorem loads_dumps v : assert_canonicalizable v = true -> loads (dumps v) = Some (canon v).
Proof.
  intros Hv. pose proof (canon_ok v Hv) as Hc. unfold loads, dumps.
  destruct (render_solid _ Hc) as (c & t & E & Hb & _).
  assert (Hs : skip (render (canon v)) = render (canon v)) by (rewrite E; by apply skip_solid). rewrite Hs.
  pose proof (scan_render (canon v) "" (2 * String.length (render (canon v)))) as H. rewrite str_app_nil_r in H.
  rewrite H; [done| |done|apply canon_unique|exact I]. pose proof (vsize_length _ Hc). lia.
Qed.

(** *** The fuel is enough *)

Abbreviation shorter r s := (String.length r < String.length s).
Lemma skip_le s : String.length (skip s) <= String.length s.
Proof. induction s as [|c s IH]; simpl; [done|]. destruct (blank c); simpl; lia. Qed.
Lemma expect_shorter c s r : expect c s = Some r -> shorter r s.
Proof. destruct s as [|d s]; simpl; [done|]. destruct (Ascii.eqb c d); [|done]. intros [= <-]. lia. Qed.
Lemma after_Some c o t r : after c o = Some (t, r) -> exists t', o = Some (t', r).
Proof. destruct o as [[t' r']|]; [|done]. intros [= <- <-]. eauto. Qed.
Lemma scan_string_shorter n s t r : String.length s <= n -> scan_string s = Some (t, r) -> shorter r s.
Proof.
  revert s t. induction n as [|n IH]; intros [|c s] t Hn; try done; try (simpl in Hn; lia). cbn [scan_string].
  destruct (Ascii.eqb c dquote); [intros [= _ <-]; simpl; lia|]. simpl in Hn.
  destruct (Ascii.eqb c "\"); [|destruct (code c <? 32)%N; [done|]; intros [t' H]%after_Some; apply IH in H; simpl; lia].
  destruct s as [|e s]; [done|]. simpl in Hn. destruct (Ascii.eqb e "u").
  - destruct s as [|h1 [|h2 [|h3 [|h4 s]]]]; try done. simpl in Hn.
    destruct (hex_val h1), (hex_val h2), (hex_val h3), (hex_val h4); try done. cbn [mbind option_bind].
    destruct (_ <? 256)%N; [|done]. intros [t' H]%after_Some. apply IH in H; simpl; lia.
  - destruct (simple_escape e); [|done]. cbn [mbind option_bind]. intros [t' H]%after_Some. apply IH in H; simpl; lia.
Qed.
Lemma part_le (f : string -> string * string) : (forall s, (f s).1 +:+ (f s).2 = s) -> forall s a b, f s = (a, b) -> String.length s = String.length a + String.length b.
Proof. intros H s a b E. specialize (H s). rewrite E in H. simpl in H. by rewrite <- H, str_length_app. Qed.
Lemma int_part_app s : (int_part s).1 +:+ (int_part s).2 = s.
Proof.
  unfold int_part. destruct s as [|c s]; [done|]. pose proof (span_app isdecimal (String c s)).
  destruct (Ascii.ascii_dec c "0") as [->|Hc]; [done|]. by destruct c as [[] [] [] [] [] [] [] []].
Qed.
Lemma frac_part_app s : (frac_part s).1 +:+ (frac_part s).2 = s.
Proof.
  destruct s as [|c s]; [done|]. destruct (Ascii.ascii_dec c ".") as [->|Hc].
  - simpl. pose proof (span_app isdecimal s) as E. destruct (span isdecimal s) as [[|d a] b]; simpl in *; [done|]. by rewrite <- E.
  - by destruct c as [[] [] [] [] [] [] [] []].
Qed.
Lemma exp_part_app s : (exp_part s).1 +:+ (exp_part s).2 = s.
Proof.
  destruct s as [|c s]; [done|]. unfold exp_part. destruct (_ || _); [|done].
  set (x := match s with String "-" r => _ | _ => _ end). assert (Hx : x.1 +:+ x.2 = s).
  { unfold x. destruct s as [|d s]; [done|]. by destruct d as [[] [] [] [] [] [] [] []]. }
  destruct x as [sg r]. simpl in Hx. pose proof (span_app isdecimal r) as E. destruct (span isdecimal r) as [[|d a] b]; [done|].
  cbn [fst snd] in *. by rewrite str_app_cons, !str_app_cons, str_app_assoc, E, Hx.
Qed.
Lemma scan_number_shorter s v r : scan_number s = Some (v, r) -> shorter r s.
Proof.
  unfold scan_number. set (x := match s with String "-" r => _ | _ => _ end).
  assert (Hx : String.length x.2 <= String.length s).
  { unfold x. destruct s as [|d s]; [done|]. destruct d as [[] [] [] [] [] [] [] []]; simpl; lia. }
  destruct x as [sg s1]. simpl in Hx. destruct (int_part s1) as [ip s2] eqn:E1. apply part_le in E1; [|apply int_part_app].
  destruct (String.eqb_spec ip "") as [|Hip]; [done|]. assert (1 <= String.length ip) by (destruct ip; simpl; [done|lia]).
  destruct (frac_part s2) as [fp s3] eqn:E2. apply part_le in E2; [|apply frac_part_app].
  destruct (exp_part s3) as [ep s4] eqn:E3. apply part_le in E3; [|apply exp_part_app].
  destruct (_ && _).
  - destruct (int_of_run _); [|done]. intros [= _ <-]. lia.
  - destruct (float_of_string _); [|done]. intros [= _ <-]. lia.
Qed.
Lemma drop_prefix_shorter p s r : p <> "" -> drop_prefix p s = Some r -> shorter r s.
Proof.
  assert (H : forall p s r, drop_prefix p s = Some r -> String.length s = String.length p + String.length r).
  { clear. induction p as [|c p IH]; intros s r; simpl; [by intros [= ->]|]. destruct s as [|d s]; [done|].
    destruct (Ascii.eqb c d); [|done]. intros E%IH. simpl. lia. }
  intros Hp E%H. destruct p; simpl in *; [done|lia].
Qed.
Lemma scan_literal_shorter s v r : scan_literal literals s = Some (v, r) -> shorter r s.
Proof.
  assert (Hl : Forall (fun x => x.1 <> "") literals) by (by repeat constructor).
  induction Hl as [|[w x] ls Hw _ IH]; cbn [scan_literal]; [apply scan_number_shorter|].
  destruct (drop_prefix w s) eqn:E; [|apply IH]. intros [= _ <-]. by apply (drop_prefix_shorter w).
Qed.

Lemma scan_shorter f :
  (forall s v r, scan_once f s = Some (v, r) -> shorter r s)
  /\ (forall s l r, elements f s = Some (l, r) -> shorter r s)
  /\ (forall s d r, members f s = Some (d, r) -> shorter r s).
Proof.
  induction f as [|f (IHs & IHe & IHm)]; [done|]. split_and!.
  - intros [|c s] v r; [done|]. cbn [scan_once]. pose proof (skip_le s).
    destruct (Ascii.eqb c dquote).
    { destruct (scan_string s) as [[t q]|] eqn:E; [|done]. intros [= _ <-]. apply (scan_string_shorter _ _ _ _ (le_n _)) in E. simpl. lia. }
    destruct (Ascii.eqb c "[").
    { destruct (expect _ _) eqn:E; [intros [= _ <-]; apply expect_shorter in E; simpl; lia|].
      destruct (elements f _) as [[l q]|] eqn:E2; [|done]. intros [= _ <-]. apply IHe in E2. simpl. lia. }
    destruct (Ascii.eqb c "{").
    { destruct (expect _ _) eqn:E; [intros [= _ <-]; apply expect_shorter in E; simpl; lia|].
      destruct (members f _) as [[l q]|] eqn:E2; [|done]. intros [= _ <-]. apply IHm in E2. simpl. lia. }
    apply scan_literal_shorter.
  - intros s l r. cbn [elements]. destruct (scan_once f s) as [[v q]|] eqn:E; [|done]. apply IHs in E. cbn [mbind option_bind].
    pose proof (skip_le q). destruct (expect "]" _) eqn:E1; [intros [= _ <-]; apply expect_shorter in E1; lia|].
    destruct (expect "," _) as [q'|] eqn:E2; [|done]. apply expect_shorter in E2. cbn [mbind option_bind]. pose proof (skip_le q').
    destruct (elements f _) as [[l' q2]|] eqn:E3; [|done]. intros [= _ <-]. apply IHe in E3. lia.
  - intros s d r. cbn [members]. destruct (expect dquote s) as [q0|] eqn:E0; [|done]. apply expect_shorter in E0. cbn [mbind option_bind].
    destruct (scan_string q0) as [[k q1]|] eqn:Ek; [|done]. apply (scan_string_shorter _ _ _ _ (le_n _)) in Ek. cbn [mbind option_bind].
    pose proof (skip_le q1). destruct (expect ":" _) as [q2|] eqn:Ec; [|done]. apply expect_shorter in Ec. cbn [mbind option_bind].
    pose proof (skip_le q2). destruct (scan_once f _) as [[v q]|] eqn:E; [|done]. apply IHs in E. cbn [mbind option_bind].
    pose proof (skip_le q). destruct (expect "}" _) eqn:E1; [intros [= _ <-]; apply expect_shorter in E1; lia|].
    destruct (expect "," _) as [q'|] eqn:E2; [|done]. apply expect_shorter in E2. cbn [mbind option_bind]. pose proof (skip_le q').
    destruct (members f _) as [[l' q3]|] eqn:E3; [|done]. intros [= _ <-]. apply IHm in E3. lia.
Qed.

Lemma fuel_irrelevant f f' :
  (forall s, 2 * String.length s <= f -> 2 * String.length s <= f' -> scan_once f s = scan_once f' s)
  /\ (forall s, 2 * String.length s < f -> 2 * String.length s < f' -> elements f s = elements f' s)
  /\ (forall s, 2 * String.length s < f -> 2 * String.length s < f' -> members f s = members f' s).
Proof.
  revert f'. induction f as [|f IH]; intros f'.
  - split_and!; intros s H H'; [|lia..]. destruct s; [by destruct f'|simpl in H; lia].
  - destruct f' as [|f']; [split_and!; intros s H H'; [|lia..]; destruct s; [done|simpl in H'; lia]|].
    destruct (IH f') as (IHs & IHe & IHm). clear IH. split_and!; intros s H H'.
    + destruct s as [|c s]; [done|]. cbn [scan_once]. simpl in H, H'. pose proof (skip_le s).
      by rewrite IHe, IHm by lia.
    + cbn [elements]. rewrite IHs by lia. destruct (scan_once f' s) as [[v q]|] eqn:E; [|done]. cbn [mbind option_bind].
      apply (proj1 (scan_shorter f')) in E. pose proof (skip_le q). destruct (expect "]" _); [done|].
      destruct (expect "," _) as [q'|] eqn:E2; [|done]. apply expect_shorter in E2. cbn [mbind option_bind]. pose proof (skip_le q').
      by rewrite IHe by lia.
    + cbn [members]. destruct (expect dquote s) as [q0|] eqn:E0; [|done]. apply expect_shorter in E0. cbn [mbind option_bind].
      destruct (scan_string q0) as [[k q1]|] eqn:Ek; [|done]. apply (scan_string_shorter _ _ _ _ (le_n _)) in Ek. cbn [mbind option_bind].
      pose proof (skip_le q1). destruct (expect ":" _) as [q2|] eqn:Ec; [|done]. apply expect_shorter in Ec. cbn [mbind option_bind].
      pose proof (skip_le q2). rewrite IHs by lia. destruct (scan_once f' _) as [[v q]|] eqn:E; [|done]. cbn [mbind option_bind].
      apply (proj1 (scan_shorter f')) in E. pose proof (skip_le q). destruct (expect "}" _); [done|].
      destruct (expect "," _) as [q'|] eqn:E2; [|done]. apply expect_shorter in E2. cbn [mbind option_bind]. pose proof (skip_le q').
      by rewrite IHm by lia.
Qed.
(** The reader does not depend on its fuel: more of it changes nothing on any text. *)
Lemma loads_fuel f s : 2 * String.length s <= f -> scan_once f (skip s) = scan_once (2 * String.length s) (skip s).
Proof. intros Hf. pose proof (skip_le s). apply fuel_irrelevant; lia. Qed.
End Json.
