(* ===== verification/SafeflowWal.v ===== *)
(** * Transactional execution: the write-ahead log ([tex/safeflow/wal.py])

    Log entries, the in-memory log, the file log, the interface the executor
    uses them through, and the replay of a log. *)
From S2P Require Import Prelude StateExn PyStr PyVal PyFormat Canonical.
Open Scope string_scope.
Open Scope list_scope.
Open Scope nat_scope.

Module SafeflowWal.

(** [SafeflowError] and its message; the [ValidationError] of a pydantic model;
    the [ValueError] of a log that refuses an entry; the errors [json.loads] or
    the model raise on a line of a log file. *)
Inductive exn :=
| SafeflowError (msg : string)
| ValidationError
| ValueError
| DecodeError.

Inductive WALEntryKind :=
| BEGIN | STEP_BEFORE | STEP_AFTER | COMMIT | ABORT | ROLLBACK_BEFORE | ROLLBACK_AFTER.
#[global] Instance kind_eq_dec : EqDecision WALEntryKind.
Proof. solve_decision. Defined.

Record WALEntry := {
  sequence : nat;
  txn_id : string;
  kind : WALEntryKind;
  step_id : option string;
  tool : option string;
  args_hash : option string;
  result_hash : option string;
  inverse_op : option string;
  note : option string;
  timestamp_ms : Z;
  prev_hash : string;
}.

(** [Field(min_length=lo, max_length=hi)]. *)
Definition len_in (lo hi : nat) (s : string) : bool :=
  (lo <=? String.length s) && (String.length s <=? hi).
Definition opt_len (hi : nat) (s : option string) : bool :=
  match s with Some s => String.length s <=? hi | None => true end.

(** The constraints pydantic checks when an entry is built. *)
Definition valid_entry (e : WALEntry) : bool :=
  len_in 1 128 (txn_id e) && opt_len 64 (step_id e) && opt_len 128 (tool e)
  && opt_len 128 (args_hash e) && opt_len 128 (result_hash e) && opt_len 128 (inverse_op e)
  && opt_len 500 (note e) && (0 <=? timestamp_ms e)%Z && len_in 1 128 (prev_hash e).

Definition new_entry (e : WALEntry) : result exn WALEntry :=
  if valid_entry e then Ok e else Err ValidationError.

(** [_GENESIS_HASH = "0" * 64] *)
Definition GENESIS_HASH : string := String.concat "" (replicate 64 "0").

(** ** The text of an entry *)

Definition kind_value (k : WALEntryKind) : string :=
  match k with
  | BEGIN => "BEGIN" | STEP_BEFORE => "STEP_BEFORE" | STEP_AFTER => "STEP_AFTER" | COMMIT => "COMMIT"
  | ABORT => "ABORT" | ROLLBACK_BEFORE => "ROLLBACK_BEFORE" | ROLLBACK_AFTER => "ROLLBACK_AFTER"
  end.
Definition kind_of (s : string) : option WALEntryKind :=
  list_find (fun k => kind_value k = s)
    [BEGIN; STEP_BEFORE; STEP_AFTER; COMMIT; ABORT; ROLLBACK_BEFORE; ROLLBACK_AFTER] ≫= (fun x => Some x.2).
Definition opt_val (s : option string) : pyval := match s with Some s => PStr s | None => PNone end.

(** [self.model_dump(mode="json")]: the fields in order. *)
Definition entry_dump (e : WALEntry) : pydict :=
  [("sequence", PInt (Z.of_nat (sequence e))); ("txn_id", PStr (txn_id e)); ("kind", PStr (kind_value (kind e)));
   ("step_id", opt_val (step_id e)); ("tool", opt_val (tool e)); ("args_hash", opt_val (args_hash e));
   ("result_hash", opt_val (result_hash e)); ("inverse_op", opt_val (inverse_op e)); ("note", opt_val (note e));
   ("timestamp_ms", PInt (timestamp_ms e)); ("prev_hash", PStr (prev_hash e))].
Definition canonical_payload (e : WALEntry) : string := Canonical.dumps (PDict (entry_dump e)).
(** [entry.hash] *)
Definition entry_hash (sha256_hex : string -> string) (e : WALEntry) : string := sha256_hex (canonical_payload e).

Section Load.
(** What pydantic makes of a value that is not an int in a field declared [int]. *)
Context (lax_int : pyval -> option Z).

Definition int_field (v : pyval) : option Z := match v with PInt z => Some z | v => lax_int v end.
Definition str_field (v : pyval) : option string := match v with PStr s => Some s | _ => None end.
Definition str_or_none (v : option pyval) : option (option string) :=
  match v with None | Some PNone => Some None | Some v => Some <$> str_field v end.

Definition field_names : list string :=
  ["sequence"; "txn_id"; "kind"; "step_id"; "tool"; "args_hash"; "result_hash"; "inverse_op"; "note"; "timestamp_ms"; "prev_hash"].
(** [WALEntry( **data)]: unknown keys are forbidden, five fields are required. *)
Definition load_entry (data : pyval) : option WALEntry :=
  match data with
  | PDict d =>
      if forallb (fun kv => existsb (String.eqb kv.1) field_names) d then
        n ← dict_get "sequence" d ≫= int_field;
        t ← dict_get "txn_id" d ≫= str_field;
        ks ← dict_get "kind" d ≫= str_field; k ← kind_of ks;
        sid ← str_or_none (dict_get "step_id" d);
        tl ← str_or_none (dict_get "tool" d);
        ah ← str_or_none (dict_get "args_hash" d);
        rh ← str_or_none (dict_get "result_hash" d);
        inv ← str_or_none (dict_get "inverse_op" d);
        nt ← str_or_none (dict_get "note" d);
        ms ← dict_get "timestamp_ms" d ≫= int_field;
        prev ← dict_get "prev_hash" d ≫= str_field;
        let e := {| sequence := Z.to_nat n; txn_id := t; kind := k; step_id := sid; tool := tl; args_hash := ah;
                    result_hash := rh; inverse_op := inv; note := nt; timestamp_ms := ms; prev_hash := prev |} in
        if (0 <=? n)%Z && valid_entry e then Some e else None
      else None
  | _ => None
  end.
(** [WALEntry( **json.loads(line))] *)
Definition load_line (line : string) : option WALEntry := Json.loads line ≫= load_entry.

Lemma kind_of_value k : kind_of (kind_value k) = Some k.
Proof. by destruct k. Qed.
Lemma canon_dump e : Canonical.canon (PDict (entry_dump e)) = PDict
  [("args_hash", opt_val (args_hash e)); ("inverse_op", opt_val (inverse_op e)); ("kind", PStr (kind_value (kind e)));
   ("note", opt_val (note e)); ("prev_hash", PStr (prev_hash e)); ("result_hash", opt_val (result_hash e));
   ("sequence", PInt (Z.of_nat (sequence e))); ("step_id", opt_val (step_id e)); ("timestamp_ms", PInt (timestamp_ms e));
   ("tool", opt_val (tool e)); ("txn_id", PStr (txn_id e))].
Proof.
  assert (Ho : forall o, Canonical.canon (opt_val o) = opt_val o) by (by intros [o|]).
  unfold entry_dump. cbn [Canonical.canon]. rewrite !fmap_cons, fmap_nil. cbn [fst snd Canonical.canon]. rewrite !Ho. reflexivity.
Qed.
Lemma load_dump e : valid_entry e = true -> load_entry (Canonical.canon (PDict (entry_dump e))) = Some e.
Proof.
  intros Hv. rewrite canon_dump. unfold load_entry. cbn -[Z.leb kind_of kind_value str_or_none opt_val valid_entry].
  assert (Hn : (0 <=? Z.of_nat (sequence e))%Z = true) by (apply Z.leb_le; lia).
  assert (Ho : forall o, str_or_none (Some (opt_val o)) = Some o) by (by intros [o|]).
  rewrite kind_of_value, !Ho. cbn -[Z.leb valid_entry]. rewrite Hn, Nat2Z.id. destruct e. cbn -[Z.leb valid_entry]. by rewrite Hv.
Qed.
Lemma load_payload e : valid_entry e = true -> load_line (canonical_payload e) = Some e.
Proof.
  intros Hv. unfold load_line, canonical_payload. rewrite Json.loads_dumps; [by apply load_dump|].
  unfold entry_dump. cbn. by destruct (step_id e), (tool e), (args_hash e), (result_hash e), (inverse_op e), (note e).
Qed.
End Load.

(** ** The log interface *)

(** [WAL], the protocol the executor is written against. *)
Class WalOps (L : Type) := {
  append : WALEntry -> stM L exn WALEntry;
  read_all : stM L exn (list WALEntry);
  last_hash : stM L exn string;
  next_sequence : stM L exn nat;
}.

Section Wal.

(** [WALEntry.hash]: SHA-256 of the entry's canonical JSON. *)
Context (hash : WALEntry -> string).

Definition tip (l : list WALEntry) : string :=
  match list.last l with None => GENESIS_HASH | Some e => hash e end.

(** What the protocol promises to a client: the log is a list [view] of
    entries; reading does not change it, and an append is accepted exactly when
    the entry continues the list's numbering and hash chain. *)
Class WalSpec (L : Type) `{WalOps L} := {
  view : L -> list WALEntry;
  good : L -> Prop;
  read_all_spec l : good l ->
    exists l', read_all l = (Ok (view l), l') /\ good l' /\ view l' = view l;
  last_hash_spec l : good l ->
    exists l', last_hash l = (Ok (tip (view l)), l') /\ good l' /\ view l' = view l;
  next_sequence_spec l : good l ->
    exists l', next_sequence l = (Ok (length (view l)), l') /\ good l' /\ view l' = view l;
  append_spec e l : good l -> valid_entry e = true ->
    exists l', good l' /\
      if bool_decide (sequence e = length (view l)) && String.eqb (prev_hash e) (tip (view l))
      then append e l = (Ok e, l') /\ view l' = view l ++ [e]
      else append e l = (Err ValueError, l') /\ view l' = view l;
}.

(** ** [InMemoryWAL] *)

Definition mem_append (e : WALEntry) : stM (list WALEntry) exn WALEntry := fun l =>
  if negb (bool_decide (sequence e = length l)) then (Err ValueError, l)
  else if negb (String.eqb (prev_hash e) (tip l)) then (Err ValueError, l)
  else (Ok e, l ++ [e]).

#[global] Instance InMemoryWAL : WalOps (list WALEntry) := {|
  append := mem_append;
  read_all l := (Ok l, l);
  last_hash l := (Ok (tip l), l);
  next_sequence l := (Ok (length l), l);
|}.

#[global] Program Instance InMemoryWAL_spec : WalSpec (list WALEntry) := {|
  view l := l;
  good l := True;
|}.
Next Obligation. eauto. Qed.
Next Obligation. eauto. Qed.
Next Obligation. eauto. Qed.
Next Obligation.
  intros e l _ _. unfold append, InMemoryWAL, mem_append.
  destruct (bool_decide _), (String.eqb _ _); simpl; eauto.
Qed.

(** ** [FileWAL] *)

Context (lax_int : pyval -> option Z).

Record FileWAL := { file : string; cache : list WALEntry; loaded : bool }.

Definition newline : string := String (ascii_of_nat 10) "".
(** The lines of a text file, without their ends: universal newlines. *)
Fixpoint text_lines (s : string) : list string :=
  match s with
  | EmptyString => []
  | String c s' =>
      if Ascii.eqb c (ascii_of_nat 10) then "" :: text_lines s'
      else if Ascii.eqb c (ascii_of_nat 13) then
        match s' with
        | String d s'' => if Ascii.eqb d (ascii_of_nat 10) then "" :: text_lines s'' else "" :: text_lines s'
        | EmptyString => [""]
        end
      else match text_lines s' with
           | [] => [String c ""]
           | w :: ws => String c w :: ws
           end
  end.

(** [_load_if_needed]: [_loaded] is set first, so a failed load is not retried
    and leaves the entries read before the bad line in the cache. *)
Fixpoint load_lines (lines : list string) (acc : list WALEntry) : result exn unit * list WALEntry :=
  match lines with
  | [] => (Ok (), acc)
  | line :: lines =>
      if String.eqb (strip line) "" then load_lines lines acc
      else match load_line lax_int (strip line) with
           | None => (Err DecodeError, acc)
           | Some e => load_lines lines (acc ++ [e])
           end
  end.

Definition load_if_needed : stM FileWAL exn unit := fun w =>
  if loaded w then (Ok (), w)
  else let '(r, c) := load_lines (text_lines (file w)) (cache w) in
       (r, {| file := file w; cache := c; loaded := true |}).

Definition file_append (e : WALEntry) : stM FileWAL exn WALEntry :=
  _ ← load_if_needed;
  w ← get;
  if negb (bool_decide (sequence e = length (cache w))) then lift (Err ValueError)
  else if negb (String.eqb (prev_hash e) (tip (cache w))) then lift (Err ValueError)
  else
    _ ← modify (fun w => {| file := file w +:+ canonical_payload e +:+ newline;
                            cache := cache w ++ [e]; loaded := loaded w |});
    mret e.

#[global] Instance FileWAL_ops : WalOps FileWAL := {|
  append := file_append;
  read_all := _ ← load_if_needed; w ← get; mret (cache w);
  last_hash := _ ← load_if_needed; w ← get; mret (tip (cache w));
  next_sequence := _ ← load_if_needed; w ← get; mret (length (cache w));
|}.

(** [FileWAL(path)]: a new process opening the same file. *)
Definition reopen (w : FileWAL) : FileWAL := {| file := file w; cache := []; loaded := false |}.
Definition empty_file : FileWAL := {| file := ""; cache := []; loaded := false |}.

(** *** Payloads are lines *)

Lemma text_lines_cons w s : str_all Json.solid w = true -> text_lines (w +:+ newline +:+ s) = w :: text_lines s.
Proof using.
  induction w as [|c w IH]; [done|]. intros [Hc Hw]%andb_prop. rewrite str_app_cons.
  assert (Ascii.eqb c (ascii_of_nat 10) = false /\ Ascii.eqb c (ascii_of_nat 13) = false) as [H1 H2]
    by (by destruct c as [[] [] [] [] [] [] [] []]).
  cbn [text_lines]. rewrite H1, H2, (IH Hw). done.
Qed.
Lemma rstrip_end s c : isspace c = false -> rstrip (s +:+ String c "") = s +:+ String c "".
Proof using.
  intros Hc. induction s as [|d s IH]; [simpl; by rewrite Hc|]. rewrite str_app_cons. cbn [rstrip]. rewrite IH.
  by destruct s.
Qed.
Lemma payload_line e : strip (canonical_payload e) = canonical_payload e /\ canonical_payload e <> "".
Proof using.
  unfold canonical_payload, Canonical.dumps. cbn [Canonical.canon Canonical.render]. rewrite <- str_app_assoc.
  set (t := "{" +:+ _). split; [|by destruct t]. unfold strip. rewrite rstrip_end by done. done.
Qed.
Lemma payload_solid e : str_all Json.solid (canonical_payload e) = true.
Proof using.
  apply Json.render_no_control, Canonical.canon_ok. unfold entry_dump. cbn.
  by destruct (step_id e), (tool e), (args_hash e), (result_hash e), (inverse_op e), (note e).
Qed.

Definition log_text (l : list WALEntry) : string := foldr (fun e s => canonical_payload e +:+ newline +:+ s) "" l.
Lemma log_text_snoc l e : log_text (l ++ [e]) = log_text l +:+ canonical_payload e +:+ newline.
Proof using.
  induction l as [|x l IH]; [simpl; by rewrite str_app_nil_r|]. simpl. by rewrite IH, !str_app_assoc.
Qed.
Lemma lines_of_text l : text_lines (log_text l) = canonical_payload <$> l.
Proof using. induction l as [|e l IH]; [done|]. simpl. by rewrite text_lines_cons, IH by apply payload_solid. Qed.

(** The file holds exactly the entries [l], and so does the cache once loaded. *)
Definition file_holds (l : list WALEntry) (w : FileWAL) : Prop :=
  file w = log_text l /\ cache w = (if loaded w then l else []) /\ Forall (fun e => valid_entry e = true) l.

Lemma load_lines_payloads l acc :
  Forall (fun e => valid_entry e = true) l -> load_lines (canonical_payload <$> l) acc = (Ok (), acc ++ l).
Proof using.
  intros Hl. revert acc. induction Hl as [|e l He Hl IH]; intros acc; simpl; [by rewrite app_nil_r|].
  destruct (payload_line e) as [-> Hne]. destruct (String.eqb_spec (canonical_payload e) "") as [|]; [done|].
  by rewrite load_payload, IH, <- app_assoc.
Qed.

Lemma load_holds l w :
  file_holds l w ->
  exists w', load_if_needed w = (Ok (), w') /\ loaded w' = true /\ cache w' = l /\ file_holds l w'.
Proof using.
  intros (Hf & Hc & Hj). unfold load_if_needed. destruct (loaded w) eqn:E.
  - exists w. repeat split; try done. by rewrite E.
  - rewrite Hf, Hc, lines_of_text, load_lines_payloads by done. eexists. by repeat split.
Qed.

Lemma file_append_holds e l w :
  file_holds l w -> valid_entry e = true ->
  exists w',
    if bool_decide (sequence e = length l) && String.eqb (prev_hash e) (tip l)
    then file_append e w = (Ok e, w') /\ file_holds (l ++ [e]) w'
    else file_append e w = (Err ValueError, w') /\ file_holds l w'.
Proof using.
  intros Hh He. destruct (load_holds l w Hh) as (w' & HL & Hl & Hc & Hh').
  unfold file_append, mbind, M_bind, get. rewrite HL, Hc.
  destruct (bool_decide _), (String.eqb _ _); simpl; [|by exists w'..].
  eexists. split; [reflexivity|]. destruct Hh' as (Hf' & Hc' & Hj').
  unfold file_holds. simpl. rewrite Hl, Hf', Hc, log_text_snoc.
  split; [done|]. split; [done|]. apply list.Forall_app. split; [done|by apply list.Forall_cons].
Qed.

(** The entries a reader of the log sees. *)
Definition file_view (w : FileWAL) : list WALEntry :=
  if loaded w then cache w else (load_lines (text_lines (file w)) []).2.
Lemma file_holds_view l w : file_holds l w -> file_view w = l.
Proof using.
  intros (Hf & Hc & Hj). unfold file_view. destruct (loaded w); [done|]. by rewrite Hf, lines_of_text, load_lines_payloads.
Qed.

(** The file log keeps the promises of the protocol. *)
#[global] Program Instance FileWAL_spec : WalSpec FileWAL := {|
  view := file_view;
  good w := exists l, file_holds l w;
|}.
Next Obligation.
  intros w [l Hh]. destruct (load_holds l w Hh) as (w' & HL & Hl & Hc & Hh').
  exists w'. unfold read_all, FileWAL_ops, mbind, M_bind, get, mret, M_ret. rewrite HL, Hc.
  rewrite (file_holds_view l w), (file_holds_view l w') by done. split; [done|]. by split; [exists l|].
Qed.
Next Obligation.
  intros w [l Hh]. destruct (load_holds l w Hh) as (w' & HL & Hl & Hc & Hh').
  exists w'. unfold last_hash, FileWAL_ops, mbind, M_bind, get, mret, M_ret. rewrite HL, Hc.
  rewrite (file_holds_view l w), (file_holds_view l w') by done. split; [done|]. by split; [exists l|].
Qed.
Next Obligation.
  intros w [l Hh]. destruct (load_holds l w Hh) as (w' & HL & Hl & Hc & Hh').
  exists w'. unfold next_sequence, FileWAL_ops, mbind, M_bind, get, mret, M_ret. rewrite HL, Hc.
  rewrite (file_holds_view l w), (file_holds_view l w') by done. split; [done|]. by split; [exists l|].
Qed.
Next Obligation.
  intros e w [l Hh] He. destruct (file_append_holds e l w Hh He) as (w' & H).
  exists w'. rewrite (file_holds_view l w) by done. unfold append, FileWAL_ops.
  destruct (bool_decide _ && _); destruct H as (-> & Hh');
    rewrite (file_holds_view _ w' Hh'); (split; [by eexists|done]).
Qed.
End Wal.
End SafeflowWal.
