(* ===== verification/SafeflowExec.v ===== *)
(** * Transactional execution: the executor
    ([tex/safeflow/transaction.py], [rollback.py], [executor.py])

    The executor is written against the log interface [WalOps]; tools and
    inverse operations act on a world [W] and may raise. *)
From S2P Require Import Prelude StateExn PyStr PyVal SafeflowWal.
Import SafeflowWal.
Open Scope string_scope.
Open Scope list_scope.
Open Scope nat_scope.

Module SafeflowExec.

(** ** [transaction.py] *)

Inductive TransactionState := PENDING | COMMITTED | ROLLED_BACK | FAILED.
#[global] Instance txn_state_eq_dec : EqDecision TransactionState.
Proof. solve_decision. Defined.

Definition state_value (s : TransactionState) : string :=
  match s with
  | PENDING => "PENDING" | COMMITTED => "COMMITTED"
  | ROLLED_BACK => "ROLLED_BACK" | FAILED => "FAILED"
  end.

Record TransactionStep := {
  s_step_id : string;
  s_tool : string;
  s_args_hash : string;
  s_result_hash : option string;
  s_inverse_op : option string;
  started_at_ms : Z;
  s_completed_at_ms : option Z;
  error : option string;
}.

Definition opt_nonneg (z : option Z) : bool :=
  match z with Some z => (0 <=? z)%Z | None => true end.

Definition valid_step (s : TransactionStep) : bool :=
  len_in 1 64 (s_step_id s) && len_in 1 128 (s_tool s) && len_in 1 128 (s_args_hash s)
  && opt_len 128 (s_result_hash s) && opt_len 128 (s_inverse_op s)
  && (0 <=? started_at_ms s)%Z && opt_nonneg (s_completed_at_ms s) && opt_len 1000 (error s).

Definition new_step (s : TransactionStep) : result exn TransactionStep :=
  if valid_step s then Ok s else Err ValidationError.

Record Transaction := {
  t_txn_id : string;
  t_state : TransactionState;
  steps : list TransactionStep;
  created_at_ms : Z;
  completed_at_ms : option Z;
  failure_reason : option string;
}.

(** [with_step] and [with_state]: [model_copy] does not validate. *)
Definition with_step (t : Transaction) (s : TransactionStep) : Transaction :=
  {| t_txn_id := t_txn_id t; t_state := t_state t; steps := steps t ++ [s];
     created_at_ms := created_at_ms t; completed_at_ms := completed_at_ms t;
     failure_reason := failure_reason t |}.
Definition with_state (t : Transaction) (st : TransactionState) (completed : option Z)
    (reason : option string) : Transaction :=
  {| t_txn_id := t_txn_id t; t_state := st; steps := steps t;
     created_at_ms := created_at_ms t;
     completed_at_ms := match completed with Some c => Some c | None => completed_at_ms t end;
     failure_reason := match reason with Some r => Some r | None => failure_reason t end |}.

Record TransactionOutcome := {
  o_txn_id : string;
  o_state : TransactionState;
  transaction_hash : string;
  wal_terminal_hash : string;
  wal_entries : nat;
  o_rollback_failures : list string;
  o_failure_reason : option string;
}.

Section Executor.
Context {W L : Type} `{WalOps L}.

(** Tools and inverses: on an exception, the exception's [str()]. *)
Definition tool_fn : Type := pydict -> W -> result string pyval * W.
Definition inverse_fn : Type := string -> pydict -> pyval -> W -> result string unit * W.

(** ** [rollback.py]: the registry *)

Definition registry : Type := list (string * inverse_fn).

Fixpoint assoc {A} (k : string) (l : list (string * A)) : option A :=
  match l with
  | [] => None
  | (k', a) :: l => if String.eqb k k' then Some a else assoc k l
  end.

(** [name.replace("_", "")] *)
Fixpoint drop_char (d : ascii) (s : string) : string :=
  match s with
  | EmptyString => ""
  | String c s => if Ascii.eqb c d then drop_char d s else String c (drop_char d s)
  end.

(** [s.isalnum()] on a whole string: false on the empty one. *)
Definition str_isalnum (s : string) : bool := negb (String.eqb s "") && str_all isalnum s.

Definition register (name : string) (fn : inverse_fn) (r : registry) : result exn registry :=
  if String.eqb name "" || negb (str_isalnum (drop_char "_" name)) then Err ValueError
  else match assoc name r with
       | Some _ => Err ValueError
       | None => Ok (r ++ [(name, fn)])
       end.

(** ** The executor's state *)

Record executor := {
  txn : Transaction;
  wal : L;
  inverses : registry;
  tools : list (string * tool_fn);
  inverse_args : gmap string (pydict * pyval);
  rollback_failures : list string;
  world : W;
  ticks : nat;
}.

(** The [n]-th reading of [_now_ms()]; the SHA-256 of the canonical JSON of
    arguments and results, and of a transaction; [repr()] of a string. *)
Context (clock : nat -> Z).
Context (hash_args : pydict -> string) (hash_result : pyval -> string).
Context (txn_hash : Transaction -> string) (py_repr : string -> string).

Abbreviation M := (stM executor exn).

Definition set_txn (t : Transaction) (x : executor) : executor :=
  {| txn := t; wal := wal x; inverses := inverses x; tools := tools x;
     inverse_args := inverse_args x; rollback_failures := rollback_failures x;
     world := world x; ticks := ticks x |}.
Definition set_wal (l : L) (x : executor) : executor :=
  {| txn := txn x; wal := l; inverses := inverses x; tools := tools x;
     inverse_args := inverse_args x; rollback_failures := rollback_failures x;
     world := world x; ticks := ticks x |}.
Definition stash (id : string) (args : pydict) (r : pyval) (x : executor) : executor :=
  {| txn := txn x; wal := wal x; inverses := inverses x; tools := tools x;
     inverse_args := <[id := (args, r)]> (inverse_args x);
     rollback_failures := rollback_failures x; world := world x; ticks := ticks x |}.
Definition add_failure (f : string) (x : executor) : executor :=
  {| txn := txn x; wal := wal x; inverses := inverses x; tools := tools x;
     inverse_args := inverse_args x; rollback_failures := rollback_failures x ++ [f];
     world := world x; ticks := ticks x |}.
Definition set_world (w : W) (x : executor) : executor :=
  {| txn := txn x; wal := wal x; inverses := inverses x; tools := tools x;
     inverse_args := inverse_args x; rollback_failures := rollback_failures x;
     world := w; ticks := ticks x |}.
Definition tick (x : executor) : executor :=
  {| txn := txn x; wal := wal x; inverses := inverses x; tools := tools x;
     inverse_args := inverse_args x; rollback_failures := rollback_failures x;
     world := world x; ticks := S (ticks x) |}.

Definition now_ms : M Z := fun x => (Ok (clock (ticks x)), tick x).
(** A call on the log. *)
Definition on_wal {A} (m : stM L exn A) : M A := fun x =>
  let '(r, l) := m (wal x) in (r, set_wal l x).
(** A call of a tool or of an inverse. *)
Definition call {A} (f : W -> result string A * W) : M (result string A) := fun x =>
  let '(r, w) := f (world x) in (Ok r, set_world w x).

(** ** Construction *)

Definition init (id : string) (l : L) (r : registry) (ts : list (string * tool_fn))
    (w : W) (n : nat) : result exn executor :=
  if String.eqb id "" then Err (SafeflowError "txn_id is required")
  else if negb (len_in 1 128 id) || negb (0 <=? clock n)%Z then Err ValidationError
  else Ok {|
    txn := {| t_txn_id := id; t_state := PENDING; steps := []; created_at_ms := clock n;
              completed_at_ms := None; failure_reason := None |};
    wal := l; inverses := r; tools := ts; inverse_args := ∅; rollback_failures := [];
    world := w; ticks := S n |}.

(** ** Internals *)

Definition append_wal (k : WALEntryKind) (sid tl ah rh inv nt : option string) : M WALEntry :=
  seq ← on_wal next_sequence;
  x ← get;
  t ← now_ms;
  prev ← on_wal last_hash;
  e ← lift (new_entry {|
        sequence := seq; txn_id := t_txn_id (txn x); kind := k; step_id := sid; tool := tl;
        args_hash := ah; result_hash := rh; inverse_op := inv; note := nt;
        timestamp_ms := t; prev_hash := prev |});
  on_wal (append e).

Definition outcome : M TransactionOutcome :=
  x ← get;
  h ← on_wal last_hash;
  n ← on_wal next_sequence;
  if len_in 1 128 (t_txn_id (txn x)) && len_in 64 64 (txn_hash (txn x)) && len_in 64 64 h
     && opt_len 1000 (failure_reason (txn x))
  then mret {| o_txn_id := t_txn_id (txn x); o_state := t_state (txn x);
               transaction_hash := txn_hash (txn x); wal_terminal_hash := h;
               wal_entries := n; o_rollback_failures := rollback_failures x;
               o_failure_reason := failure_reason (txn x) |}
  else lift (Err ValidationError).

(** One turn of the rollback loop. *)
Definition rollback_step (s : TransactionStep) : M unit :=
  match s_inverse_op s with
  | None => mret ()
  | Some inv =>
      match error s with
      | Some _ => mret ()
      | None =>
          x ← get;
          match assoc inv (inverses x) with
          | None =>
              modify (add_failure ("inverse op " +:+ py_repr inv
                                   +:+ " disappeared mid-transaction"))
          | Some inverse =>
              _ ← append_wal ROLLBACK_BEFORE (Some (s_step_id s)) (Some (s_tool s))
                    (Some (s_args_hash s)) (s_result_hash s) (Some inv)
                    (Some "rolling back step");
              x ← get;
              let cached := inverse_args x !! s_step_id s in
              r ← call (inverse (s_tool s) (default [] (fst <$> cached))
                                (default PNone (snd <$> cached)));
              nt ← match r with
                   | Ok _ => mret "rollback ok"
                   | Err exc =>
                       _ ← modify (add_failure ("inverse " +:+ py_repr inv +:+ " for step "
                                                +:+ s_step_id s +:+ " raised: " +:+ exc));
                       mret ("rollback error: " +:+ str_take 300 exc)
                   end;
              _ ← append_wal ROLLBACK_AFTER (Some (s_step_id s)) (Some (s_tool s))
                    (Some (s_args_hash s)) (s_result_hash s) (Some inv) (Some nt);
              mret ()
          end
      end
  end.

Fixpoint rollback_loop (ss : list TransactionStep) : M unit :=
  match ss with
  | [] => mret ()
  | s :: ss => _ ← rollback_step s; rollback_loop ss
  end.

Definition rollback : M unit := x ← get; rollback_loop (rev (steps (txn x))).

(** ** Lifecycle *)

Definition begin : M unit :=
  _ ← append_wal BEGIN None None None None None (Some "transaction begin"); mret ().

Definition commit : M TransactionOutcome :=
  x ← get;
  if negb (bool_decide (t_state (txn x) = PENDING)) then
    lift (Err (SafeflowError ("cannot commit: transaction is " +:+ state_value (t_state (txn x)))))
  else
    t ← now_ms;
    _ ← modify (fun x => set_txn (with_state (txn x) COMMITTED (Some t) None) x);
    _ ← append_wal COMMIT None None None None None (Some "commit");
    outcome.

Definition abort (reason : string) : M TransactionOutcome :=
  x ← get;
  match t_state (txn x) with
  | COMMITTED => lift (Err (SafeflowError "cannot abort a committed transaction"))
  | ROLLED_BACK | FAILED => outcome
  | PENDING =>
      t ← now_ms;
      _ ← modify (fun x => set_txn (with_state (txn x) FAILED (Some t) (Some reason)) x);
      _ ← append_wal ABORT None None None None None (Some ("abort: " +:+ str_take 300 reason));
      _ ← rollback;
      x ← get;
      _ ← match rollback_failures x with
          | [] => modify (fun x => set_txn (with_state (txn x) ROLLED_BACK None None) x)
          | _ => mret ()
          end;
      outcome
  end.

Definition step (id tl : string) (args : pydict) (inv : option string) : M pyval :=
  x ← get;
  if negb (bool_decide (t_state (txn x) = PENDING)) then
    lift (Err (SafeflowError ("cannot step: transaction is " +:+ state_value (t_state (txn x)))))
  else if match inv with
          | Some i => match assoc i (inverses x) with Some _ => false | None => true end
          | None => false
          end
  then lift (Err (SafeflowError ("inverse op " +:+ py_repr (default "" inv) +:+ " not registered; "
                                 +:+ "tool cannot participate in transaction")))
  else match assoc tl (tools x) with
  | None => lift (Err (SafeflowError ("no impl registered for tool " +:+ py_repr tl)))
  | Some impl =>
      let ah := hash_args args in
      started ← now_ms;
      _ ← append_wal STEP_BEFORE (Some id) (Some tl) (Some ah) None inv None;
      r ← call (impl args);
      match r with
      | Err exc =>
          done ← now_ms;
          s ← lift (new_step {|
                s_step_id := id; s_tool := tl; s_args_hash := ah; s_result_hash := None;
                s_inverse_op := inv; started_at_ms := started; s_completed_at_ms := Some done;
                error := Some (str_take 1000 exc) |});
          _ ← modify (fun x => set_txn (with_step (txn x) s) x);
          _ ← append_wal STEP_AFTER (Some id) (Some tl) (Some ah) None inv
                (Some ("error: " +:+ str_take 300 exc));
          _ ← abort ("step " +:+ py_repr id +:+ " raised: " +:+ exc);
          lift (Err (SafeflowError exc))
      | Ok v =>
          let rh := hash_result v in
          done ← now_ms;
          s ← lift (new_step {|
                s_step_id := id; s_tool := tl; s_args_hash := ah; s_result_hash := Some rh;
                s_inverse_op := inv; started_at_ms := started; s_completed_at_ms := Some done;
                error := None |});
          _ ← modify (fun x => set_txn (with_step (txn x) s) x);
          _ ← match inv with
              | Some _ => modify (stash id args v)
              | None => mret ()
              end;
          _ ← append_wal STEP_AFTER (Some id) (Some tl) (Some ah) (Some rh) inv None;
          mret v
      end
  end.
End Executor.

(** [replay]: the last state of each transaction of a log. *)
Definition replay_kind (k : WALEntryKind) : option string :=
  match k with
  | BEGIN => Some "PENDING"
  | COMMIT => Some "COMMITTED"
  | ABORT => Some "ABORTED"
  | ROLLBACK_BEFORE | ROLLBACK_AFTER => Some "ROLLING_BACK"
  | STEP_BEFORE | STEP_AFTER => None
  end.
Definition replay (l : list WALEntry) : gmap string string :=
  foldl (fun m e => match replay_kind (kind e) with
                    | Some s => <[txn_id e := s]> m
                    | None => m
                    end) ∅ l.

(** [recover]: inspects the log, and changes nothing else. *)
Definition recover {W L} `{WalOps L} : stM (executor (W := W) (L := L)) exn (gmap string string) :=
  l ← on_wal read_all; mret (replay l).
End SafeflowExec.
