(* ===== verification/SafeflowSpec.v ===== *)
(** * Transactional execution: the log is a hash chain, commits are final, and
    aborts undo (theorems about [SafeflowWal] and [SafeflowExec]) *)
From S2P Require Import Prelude StateExn PyStr PyVal SafeflowWal SafeflowExec.
Import SafeflowWal SafeflowExec.
Open Scope string_scope.
Open Scope list_scope.
Open Scope nat_scope.

Module SafeflowSpec.

Create HintDb safeflow.

(** ** Hash chains *)
Section Chain.
Context (hash : WALEntry -> string).

(** Entry [i] is numbered [i] and carries the hash of entry [i - 1]. *)
Definition valid_chain (l : list WALEntry) : Prop :=
  forall i e, l !! i = Some e -> sequence e = i /\ prev_hash e = tip hash (take i l).

Lemma valid_chain_snoc l e :
  valid_chain (l ++ [e]) <->
  valid_chain l /\ sequence e = length l /\ prev_hash e = tip hash l.
Proof.
  split.
  - intros H. split.
    + intros i e' Hi. pose proof (lookup_lt_Some _ _ _ Hi).
      destruct (H i e'); [by apply lookup_app_l_Some|]. split; [done|].
      by rewrite take_app_le in * by lia.
    + destruct (H (length l) e); [by rewrite list_lookup_middle|].
      by rewrite take_app_length in *.
  - intros (Hl & Hs & Hp) i e' [Hi|[Hi He]]%lookup_app_Some.
    + pose proof (lookup_lt_Some _ _ _ Hi). rewrite take_app_le by lia. by apply Hl.
    + apply list_lookup_singleton_Some in He as [Hi0 <-].
      assert (i = length l) as -> by lia. by rewrite take_app_length.
Qed.

Lemma valid_chain_app l l' : valid_chain (l ++ l') -> valid_chain l.
Proof.
  induction l' as [|e l' IH] using rev_ind; [by rewrite app_nil_r|].
  rewrite app_assoc. intros [H _]%valid_chain_snoc. auto.
Qed.

Lemma tip_snoc l e : tip hash (l ++ [e]) = hash e.
Proof. unfold tip. by rewrite last_snoc. Qed.

(**  A log's terminal hash commits to the whole log: two chained logs with
    the same terminal hash are equal, as long as no two of their entries collide
    and none hashes to the genesis value. *)
Theorem tip_determines_log l l' :
  (forall e e', e ∈ l -> e' ∈ l' -> hash e = hash e' -> e = e') ->
  (forall e, e ∈ l ++ l' -> hash e <> GENESIS_HASH) ->
  valid_chain l -> valid_chain l' -> tip hash l = tip hash l' -> l = l'.
Proof.
  revert l'. induction l as [|e l IH] using rev_ind; intros l' Hinj Hgen Hl Hl' Htip.
  - destruct l' as [|e' l' _] using rev_ind; [done|].
    rewrite tip_snoc in Htip. destruct (Hgen e'); [set_solver|done].
  - destruct l' as [|e' l' _] using rev_ind.
    + rewrite tip_snoc in Htip. destruct (Hgen e); [set_solver|done].
    + rewrite !tip_snoc in Htip. apply Hinj in Htip as ->; [|set_solver..].
      apply valid_chain_snoc in Hl as (Hl & _ & Hp), Hl' as (Hl' & _ & Hp').
      f_equal. apply IH; try done; [set_solver|set_solver|congruence].
Qed.
End Chain.

(** ** The file log *)
Section File.
Context (sha256_hex : string -> string) (lax_int : pyval -> option Z).
Abbreviation hash := (entry_hash sha256_hex).
Abbreviation appendF := (file_append hash lax_int).
Abbreviation readF := (@read_all _ (FileWAL_ops hash lax_int)).

(** What clients do to a log: appends, reads, and restarts of the process. *)
Inductive wal_op := WAppend (e : WALEntry) | WRead | WRestart.
Definition op_valid (o : wal_op) : Prop := match o with WAppend e => valid_entry e = true | _ => True end.
(** The answers to a sequence of operations, and the log at the end. A restart forgets
    what is not on disk; the in-memory log is taken to survive it. *)
Definition on_file (o : wal_op) (w : FileWAL) : result exn (list WALEntry) * FileWAL :=
  match o with
  | WAppend e => let '(r, w) := appendF e w in ((fun e => [e]) <$> r, w)
  | WRead => readF w
  | WRestart => (Ok [], reopen w)
  end.
Definition in_memory (o : wal_op) (l : list WALEntry) : result exn (list WALEntry) * list WALEntry :=
  match o with
  | WAppend e => let '(r, l) := mem_append hash e l in ((fun e => [e]) <$> r, l)
  | WRead => (Ok l, l)
  | WRestart => (Ok [], l)
  end.
Fixpoint answers {L R} (f : wal_op -> L -> R * L) (ops : list wal_op) (l : L) : list R :=
  match ops with
  | [] => []
  | o :: ops => let '(r, l) := f o l in r :: answers f ops l
  end.

Lemma on_file_sim o l w :
  file_holds l w -> op_valid o ->
  (on_file o w).1 = (in_memory o l).1 /\ file_holds (in_memory o l).2 (on_file o w).2.
Proof.
  intros Hh Ho. destruct o as [e| |]; simpl.
  - destruct (file_append_holds hash lax_int e l w Hh Ho) as (w' & H). unfold mem_append.
    destruct (bool_decide _), (String.eqb _ _); simpl in *; destruct H as [-> H]; done.
  - destruct (load_holds lax_int l w Hh) as (w' & HL & _ & Hc & Hh').
    unfold mbind, M_bind, get, mret, M_ret. rewrite HL. simpl. by rewrite Hc.
  - split; [done|]. by destruct Hh as (Hf & _ & Hv).
Qed.

(** C31.  The file log is durable and refines the in-memory log: from an empty file,
    whatever valid entries are appended, whenever the log is read and however often the
    process restarts and opens the file anew, every operation answers what the in-memory
    log answers; in particular a restarted process reads exactly the entries accepted
    before.  The lines are the canonical JSON of the entries, and they are read back
    through the JSON decoder and the entry's validation.  The entries are those the
    validation lets the executor build, with texts of code points below 256; the disk
    keeps what was flushed to it. *)
Theorem file_wal_refines_memory ops :
  Forall op_valid ops -> answers on_file ops empty_file = answers in_memory ops [].
Proof.
  enough (H : forall l w, file_holds l w -> Forall op_valid ops -> answers on_file ops w = answers in_memory ops l)
    by (apply H; by repeat split; constructor).
  induction ops as [|o ops IH]; intros l w Hh Ho; [done|]. apply list.Forall_cons in Ho as [Ho Hops]. simpl.
  destruct (on_file_sim o l w Hh Ho) as [Hr Hs]. destruct (on_file o w) as [r w'], (in_memory o l) as [r' l']. simpl in *.
  by rewrite Hr, (IH l' w').
Qed.
End File.

(** ** One append of the executor *)
Section Exec.
Context {W L : Type} (hash : WALEntry -> string) `{!WalOps L, !WalSpec hash L}.
Context (clock : nat -> Z).
Context (hash_args : pydict -> string) (hash_result : pyval -> string).
Context (txn_hash : Transaction -> string) (py_repr : string -> string).

Abbreviation X := (executor (W := W) (L := L)).
Abbreviation log x := (view hash (wal x)).
Abbreviation log_good x := (good hash (wal x)).
Abbreviation appendX := (append_wal (W := W) (L := L) clock).
Abbreviation outcomeX := (outcome (W := W) (L := L) txn_hash).
Abbreviation rollback_stepX := (rollback_step (W := W) (L := L) clock py_repr).
Abbreviation rollback_loopX := (rollback_loop (W := W) (L := L) clock py_repr).
Abbreviation beginX := (begin (W := W) (L := L) clock).
Abbreviation commitX := (commit (W := W) (L := L) clock txn_hash).
Abbreviation abortX := (abort (W := W) (L := L) clock txn_hash py_repr).
Abbreviation stepX := (step (W := W) (L := L) clock hash_args hash_result txn_hash py_repr).

Definition entry_for (x : X) (k : WALEntryKind) (sid tl ah rh inv nt : option string) : WALEntry :=
  {| sequence := length (log x); txn_id := t_txn_id (txn x); kind := k; step_id := sid;
     tool := tl; args_hash := ah; result_hash := rh; inverse_op := inv; note := nt;
     timestamp_ms := clock (ticks x); prev_hash := tip hash (log x) |}.

Lemma append_wal_effect (x : X) k sid tl ah rh inv nt :
  log_good x ->
  let e := entry_for x k sid tl ah rh inv nt in
  exists l', good hash l' /\
    if valid_entry e
    then appendX k sid tl ah rh inv nt x = (Ok e, set_wal l' (tick x)) /\ view hash l' = log x ++ [e]
    else appendX k sid tl ah rh inv nt x = (Err ValidationError, set_wal l' (tick x))
         /\ view hash l' = log x.
Proof.
  intros Hg. cbv zeta.
  destruct (next_sequence_spec hash (wal x) Hg) as (l1 & E1 & G1 & V1).
  destruct (last_hash_spec hash l1 G1) as (l2 & E2 & G2 & V2).
  unfold append_wal, on_wal, now_ms, get, lift, new_entry, mbind, M_bind.
  rewrite E1. cbv beta iota. simpl. rewrite E2. cbv beta iota. rewrite V1.
  fold (entry_for x k sid tl ah rh inv nt).
  destruct (valid_entry (entry_for x k sid tl ah rh inv nt)) eqn:Ev.
  - destruct (append_spec hash (entry_for x k sid tl ah rh inv nt) l2 G2 Ev) as (l3 & G3 & E3).
    rewrite V2, V1 in E3. simpl in E3. rewrite bool_decide_eq_true_2, String.eqb_refl in E3 by done.
    simpl in E3. destruct E3 as [E3 V3]. exists l3. split; [done|].
    cbn [wal set_wal tick]. rewrite E3. split; [reflexivity|done].
  - exists l2. split; [done|]. split; [reflexivity|congruence].
Qed.

Lemma append_wal_ok (x x' : X) k sid tl ah rh inv nt e :
  log_good x -> appendX k sid tl ah rh inv nt x = (Ok e, x') ->
  e = entry_for x k sid tl ah rh inv nt /\ log_good x' /\ log x' = log x ++ [e]
  /\ x' = set_wal (wal x') (tick x).
Proof.
  intros Hg H. destruct (append_wal_effect x k sid tl ah rh inv nt Hg) as (l' & G & E).
  destruct (valid_entry _); destruct E as [E V]; rewrite E in H; simplify_eq. by repeat split.
Qed.

(** ** The log under any operation *)

(** The log stays usable, only grows, and stays a hash chain. *)
Definition log_extends (x x' : X) : Prop :=
  log_good x -> log_good x' /\ (exists ext, log x' = log x ++ ext)
    /\ (valid_chain hash (log x) -> valid_chain hash (log x')).

#[local] Instance log_extends_preorder : PreOrder log_extends.
Proof.
  split.
  - intros x Hg. split; [done|]. split; [|done]. exists []. by rewrite app_nil_r.
  - intros x y z H1 H2 Hg. destruct (H1 Hg) as (Gy & [e1 E1] & C1).
    destruct (H2 Gy) as (Gz & [e2 E2] & C2). split; [done|]. split; [|auto].
    exists (e1 ++ e2). by rewrite E2, E1, app_assoc.
Qed.

Lemma same_wal_extends (x x' : X) : wal x' = wal x -> log_extends x x'.
Proof. intros Hw Hg. rewrite Hw. split; [done|]. split; [|done]. exists []. by rewrite app_nil_r. Qed.

Lemma append_extends k sid tl ah rh inv nt :
  respects log_extends (appendX k sid tl ah rh inv nt).
Proof.
  intros x Hg. destruct (append_wal_effect x k sid tl ah rh inv nt Hg) as (l' & G & E).
  destruct (valid_entry _); destruct E as [E V]; rewrite E; simpl; rewrite V; split; try done.
  - split; [eauto|]. intros Hc. apply valid_chain_snoc. split; [done|]. by split.
  - split; [|done]. exists []. by rewrite app_nil_r.
Qed.

Lemma read_extends {A} (m : stM L exn A) :
  (forall l, good hash l -> good hash (m l).2 /\ view hash (m l).2 = view hash l) ->
  respects log_extends (on_wal (W := W) m).
Proof.
  intros Hm x Hg. unfold on_wal. specialize (Hm (wal x) Hg). destruct (m (wal x)) as [r l]. simpl in *.
  destruct Hm as [Hg' Hv]. rewrite Hv. split; [done|]. split; [|done]. exists []. by rewrite app_nil_r.
Qed.
Lemma last_hash_extends : respects log_extends (on_wal (W := W) last_hash).
Proof.
  apply read_extends. intros l Hg. by destruct (last_hash_spec hash l Hg) as (l' & -> & ? & ?).
Qed.
Lemma next_sequence_extends : respects log_extends (on_wal (W := W) next_sequence).
Proof.
  apply read_extends. intros l Hg. by destruct (next_sequence_spec hash l Hg) as (l' & -> & ? & ?).
Qed.
Lemma now_extends : respects log_extends (now_ms (W := W) (L := L) clock).
Proof. intros x. by apply same_wal_extends. Qed.
Lemma call_extends {A} (f : W -> result string A * W) : respects log_extends (call (L := L) f).
Proof. intros x. unfold call. destruct (f (world x)). by apply same_wal_extends. Qed.

#[local] Hint Resolve append_extends last_hash_extends next_sequence_extends now_extends
  call_extends : safeflow.
Ltac extends := respect; eauto with safeflow; try (intros ?; by apply same_wal_extends).

Lemma outcome_extends : respects log_extends outcomeX.
Proof. unfold outcome. extends. Qed.
Lemma rollback_step_extends s : respects log_extends (rollback_stepX s).
Proof. unfold rollback_step. extends. Qed.
Lemma rollback_loop_extends ss : respects log_extends (rollback_loopX ss).
Proof. induction ss; simpl; respect; [apply rollback_step_extends|done]. Qed.
#[local] Hint Resolve outcome_extends rollback_loop_extends : safeflow.
Lemma begin_extends : respects log_extends beginX.
Proof. unfold begin. extends. Qed.
Lemma commit_extends : respects log_extends commitX.
Proof. unfold commit. extends. Qed.
Lemma abort_extends reason : respects log_extends (abortX reason).
Proof. unfold abort, rollback. extends. Qed.
#[local] Hint Resolve abort_extends : safeflow.
Lemma step_extends id tl args inv : respects log_extends (stepX id tl args inv).
Proof. unfold step. extends. Qed.

(** ** Sequences of operations *)

Inductive op :=
| OBegin
| OStep (id tl : string) (args : pydict) (inv : option string)
| OCommit
| OAbort (reason : string).

(** The state after an operation, whether it returns or raises. *)
Definition run_op (x : X) (o : op) : X :=
  match o with
  | OBegin => (beginX x).2
  | OStep id tl args inv => (stepX id tl args inv x).2
  | OCommit => (commitX x).2
  | OAbort reason => (abortX reason x).2
  end.
Definition run_ops (x : X) (os : list op) : X := foldl run_op x os.

Lemma run_op_extends x o : log_extends x (run_op x o).
Proof.
  destruct o; [apply begin_extends|apply step_extends|apply commit_extends|apply abort_extends].
Qed.

(** C29.  Whatever operations an executor performs, including those that raise,
    its log only grows and stays a hash chain. *)
Theorem log_stays_chained x os :
  log_good x -> valid_chain hash (log x) ->
  log_good (run_ops x os) /\ valid_chain hash (log (run_ops x os))
  /\ exists ext, log (run_ops x os) = log x ++ ext.
Proof.
  intros Hg Hc. assert (log_extends x (run_ops x os)) as H.
  { clear Hg Hc. unfold run_ops. revert x. induction os as [|o os IH]; intros x; simpl; [reflexivity|].
    transitivity (run_op x o); [apply run_op_extends|apply IH]. }
  destruct (H Hg) as (? & ? & ?). auto.
Qed.

(** ** Terminal states *)

Definition settled (x x' : X) : Prop := txn x' = txn x /\ world x' = world x.
#[local] Instance settled_preorder : PreOrder settled.
Proof. split; [by split|]. intros x y z [? ?] [? ?]. split; congruence. Qed.

Lemma on_wal_settled {A} (m : stM L exn A) : respects settled (on_wal (W := W) m).
Proof. intros x. unfold on_wal. by destruct (m (wal x)). Qed.
Lemma now_settled : respects settled (now_ms (W := W) (L := L) clock).
Proof. by intros x. Qed.
#[local] Hint Resolve on_wal_settled now_settled : safeflow.
Lemma append_settled k sid tl ah rh inv nt : respects settled (appendX k sid tl ah rh inv nt).
Proof. unfold append_wal. respect; eauto with safeflow. Qed.
#[local] Hint Resolve append_settled : safeflow.
Lemma outcome_settled : respects settled outcomeX.
Proof. unfold outcome. respect; eauto with safeflow. Qed.

Lemma run_op_settled x o : t_state (txn x) <> PENDING -> settled x (run_op x o).
Proof.
  intros Hs. destruct o; simpl.
  - unfold begin. revert x Hs. enough (respects settled beginX) as H by (intros; apply H).
    unfold begin. respect; eauto with safeflow.
  - unfold step, get, mbind, M_bind. by rewrite bool_decide_eq_false_2.
  - unfold commit, get, mbind, M_bind. by rewrite bool_decide_eq_false_2.
  - unfold abort, get, mbind at 1, M_bind at 1. destruct (t_state (txn x)); try done;
      apply outcome_settled.
Qed.

(**  The terminal states are final: once a transaction is committed, rolled
    back or failed, no sequence of operations changes the transaction or touches
    the world again. *)
Theorem terminal_states_final x os :
  t_state (txn x) <> PENDING ->
  txn (run_ops x os) = txn x /\ world (run_ops x os) = world x.
Proof.
  unfold run_ops. revert x. induction os as [|o os IH]; intros x Hs; simpl; [done|].
  destruct (run_op_settled x o Hs) as [Ht Hw].
  destruct (IH (run_op x o)) as [-> ->]; [by rewrite Ht|]. done.
Qed.

(** ** Undoing *)

(** The steps [ss] took the world from [w0] to [w], and the registered inverses,
    called with what the executor stashed, take it back step by step. *)
Inductive undoable (regs : registry (W := W)) (st : gmap string (pydict * pyval)) :
    list TransactionStep -> W -> W -> Prop :=
| undo_nil w : undoable regs st [] w w
| undo_snoc ss s w0 w w' inv f args v :
    undoable regs st ss w0 w ->
    s_inverse_op s = Some inv -> error s = None -> assoc inv regs = Some f ->
    st !! s_step_id s = Some (args, v) -> f (s_tool s) args v w' = (Ok (), w) ->
    undoable regs st (ss ++ [s]) w0 w'.

Lemma undoable_stash regs st ss w0 w id av :
  undoable regs st ss w0 w -> id ∉ s_step_id <$> ss ->
  undoable regs (<[id := av]> st) ss w0 w.
Proof.
  induction 1 as [|ss s w0 w w' inv f args v Hu IH]; [constructor|].
  rewrite fmap_app, not_elem_of_app. intros [Hss Hs]. econstructor; eauto.
  rewrite lookup_insert_ne; [done|]. set_solver.
Qed.

Context (clock_nonneg : forall n, (0 <= clock n)%Z).
Context (hash_len : forall e, String.length (hash e) = 64).

Lemma tip_len l : String.length (tip hash l) = 64.
Proof using hash_len. unfold tip. destruct (list.last l); [apply hash_len|done]. Qed.

Lemma entry_valid (x : X) k sid tl ah rh inv nt :
  len_in 1 128 (t_txn_id (txn x)) = true -> opt_len 64 sid = true -> opt_len 128 tl = true ->
  opt_len 128 ah = true -> opt_len 128 rh = true -> opt_len 128 inv = true ->
  opt_len 500 nt = true -> valid_entry (entry_for x k sid tl ah rh inv nt) = true.
Proof using clock_nonneg hash_len.
  intros. unfold valid_entry, entry_for. simpl.
  rewrite !andb_true_iff. repeat match goal with |- _ /\ _ => split end; try done.
  - by apply Z.leb_le.
  - unfold len_in. by rewrite tip_len.
Qed.

(** An append that meets the length limits succeeds. *)
Lemma append_succeeds (x : X) k sid tl ah rh inv nt :
  log_good x -> len_in 1 128 (t_txn_id (txn x)) = true -> opt_len 64 sid = true ->
  opt_len 128 tl = true -> opt_len 128 ah = true -> opt_len 128 rh = true ->
  opt_len 128 inv = true -> opt_len 500 nt = true ->
  exists e l', appendX k sid tl ah rh inv nt x = (Ok e, set_wal l' (tick x)) /\ good hash l'.
Proof using clock_nonneg hash_len.
  intros Hg ???????. destruct (append_wal_effect x k sid tl ah rh inv nt Hg) as (l' & G & E).
  rewrite entry_valid in E by done. destruct E as [E _]. eauto.
Qed.

Lemma valid_step_lens s :
  valid_step s = true ->
  opt_len 64 (Some (s_step_id s)) = true /\ opt_len 128 (Some (s_tool s)) = true
  /\ opt_len 128 (Some (s_args_hash s)) = true /\ opt_len 128 (s_result_hash s) = true
  /\ opt_len 128 (s_inverse_op s) = true.
Proof.
  unfold valid_step, len_in, opt_len. rewrite !andb_true_iff. tauto.
Qed.

Lemma rollback_undoes ss w0 (x : X) :
  undoable (inverses x) (inverse_args x) ss w0 (world x) ->
  Forall (fun s => valid_step s = true) ss ->
  log_good x -> len_in 1 128 (t_txn_id (txn x)) = true ->
  exists x', rollback_loopX (rev ss) x = (Ok (), x') /\ world x' = w0 /\ log_good x'
    /\ txn x' = txn x /\ rollback_failures x' = rollback_failures x.
Proof using clock_nonneg hash_len.
  revert x. induction ss as [|s ss IH] using rev_ind; intros x Hu Hv Hg Hid.
  { inversion Hu as [|ss' s' ? ? ? ? ? ? ? ? ? ? ? ? ? Heq]; subst; [|by destruct ss'].
    by exists x. }
  inversion Hu as [|ss' s' w0' w w' inv f args v Hu' Hinv Herr Hf Hst Hundo Heq]; subst;
    [by destruct ss|].
  apply app_inj_2 in Heq as [-> [= ->]]; [|done].
  apply list.Forall_app in Hv as [Hv Hs]. apply list.Forall_cons in Hs as [Hs _].
  destruct (valid_step_lens s Hs) as (L1 & L2 & L3 & L4 & L5). rewrite Hinv in L5.
  rewrite rev_app_distr. simpl.
  destruct (append_succeeds x ROLLBACK_BEFORE (Some (s_step_id s)) (Some (s_tool s))
    (Some (s_args_hash s)) (s_result_hash s) (Some inv) (Some "rolling back step"))
    as (e1 & l1 & E1 & G1); try done.
  set (x1 := set_wal l1 (tick x)) in *. set (x2 := set_world w x1).
  destruct (append_succeeds x2 ROLLBACK_AFTER (Some (s_step_id s)) (Some (s_tool s))
    (Some (s_args_hash s)) (s_result_hash s) (Some inv) (Some "rollback ok"))
    as (e2 & l2 & E2 & G2); try done.
  destruct (IH (set_wal l2 (tick x2))) as (x' & Hr & Hw & Hg' & Ht & Hfail); try done.
  exists x'. split; [|by rewrite Ht, Hfail].
  assert (rollback_stepX s x = (Ok (), set_wal l2 (tick x2))) as Hstep.
  { unfold rollback_step. rewrite Hinv, Herr. unfold mbind at 1, M_bind at 1, get at 1.
    rewrite Hf. unfold mbind at 1, M_bind at 1. rewrite E1.
    unfold mbind at 1, M_bind at 1, get at 1. cbn [inverse_args x1 set_wal tick].
    rewrite Hst. simpl. unfold mbind at 1, M_bind at 1, call at 1. cbn [world x1 set_wal tick].
    rewrite Hundo. unfold mbind, M_bind. simpl. fold x1 x2. rewrite E2. done. }
  unfold mbind, M_bind. rewrite Hstep. exact Hr.
Qed.

(** ** A step that returns *)

Record step_done (x x' : X) (id tl : string) (args : pydict) (inv : option string) (v : pyval)
    (impl : tool_fn (W := W)) (st : TransactionStep) : Prop := {
  sd_pending : t_state (txn x) = PENDING;
  sd_registered : forall i, inv = Some i -> is_Some (assoc i (inverses x));
  sd_tool : assoc tl (tools x) = Some impl;
  sd_world : impl args (world x) = (Ok v, world x');
  sd_txn : txn x' = with_step (txn x) st;
  sd_valid : valid_step st = true;
  sd_step : s_step_id st = id /\ s_tool st = tl /\ s_inverse_op st = inv /\ error st = None;
  sd_static : inverses x' = inverses x /\ tools x' = tools x;
  sd_stash : inverse_args x' = match inv with
                               | Some _ => <[id := (args, v)]> (inverse_args x)
                               | None => inverse_args x
                               end;
  sd_failures : rollback_failures x' = rollback_failures x;
  sd_log : exists e1 e2, log x' = log x ++ [e1; e2]
             /\ kind e1 = STEP_BEFORE /\ kind e2 = STEP_AFTER
             /\ step_id e1 = Some id /\ step_id e2 = Some id /\ result_hash e1 = None
             /\ result_hash e2 = Some (hash_result v);
  sd_good : log_good x';
}.

Lemma step_returns id tl args inv (x x' : X) v :
  log_good x -> stepX id tl args inv x = (Ok v, x') ->
  exists impl st, step_done x x' id tl args inv v impl st.
Proof.
  intros Hg H. unfold step in H. apply M_bind_Ok in H as (x0 & x0' & Hget & H).
  unfold get in Hget. injection Hget as <- <-.
  destruct (bool_decide (t_state (txn x) = PENDING)) eqn:Hp; [|done].
  apply bool_decide_eq_true in Hp. cbn [negb] in H.
  assert (forall i, inv = Some i -> is_Some (assoc i (inverses x))) as Hreg.
  { intros i ->. destruct (assoc i (inverses x)); [eauto|done]. }
  destruct (match inv with Some i => _ | None => false end); [done|].
  destruct (assoc tl (tools x)) as [impl|] eqn:Ht; [|done].
  apply M_bind_Ok in H as (t1 & x1 & H1 & H). unfold now_ms in H1. injection H1 as <- <-.
  apply M_bind_Ok in H as (e1 & x2 & H2 & H).
  apply append_wal_ok in H2 as (-> & G2 & L2 & E2); [|done].
  apply M_bind_Ok in H as (r & x3 & H3 & H). unfold call in H3.
  destruct (impl args (world x2)) as [r' w'] eqn:Hi. injection H3 as -> <-.
  destruct r as [v'|exc].
  - apply M_bind_Ok in H as (t2 & x4 & H4 & H). unfold now_ms in H4. injection H4 as <- <-.
    apply M_bind_Ok in H as (st & x5 & H5 & H). unfold lift, new_step in H5.
    destruct (valid_step _) eqn:Hv in H5; [|done]. injection H5 as <- <-.
    apply M_bind_Ok in H as ([] & x6 & H6 & H). unfold modify in H6. injection H6 as <-.
    apply M_bind_Ok in H as ([] & x7 & H7 & H).
    apply M_bind_Ok in H as (e2 & x8 & H8 & H). unfold mret, M_ret in H. injection H as -> <-.
    assert (x7 = match inv with
                 | Some _ => stash id args v (set_txn (with_step (txn x2) _) (tick (set_world w' x2)))
                 | None => _ end) as E7 by (destruct inv; unfold modify, mret, M_ret in H7; by injection H7).
    eexists impl, _. rewrite E2 in *. clear E2.
    apply append_wal_ok in H8 as (-> & G8 & L8 & E8); [|subst x7; by destruct inv].
    rewrite E8. subst x7. simpl in *.
    constructor; simpl; try done; try (by destruct inv).
    eexists _, _. rewrite L8. destruct inv; simpl; rewrite L2, <- app_assoc; by repeat split.
  - repeat (apply M_bind_Ok in H as (? & ? & _ & H)). done.
Qed.

(** ** Atomicity *)

Context (txn_hash_len : forall t, String.length (txn_hash t) = 64).

(** Only the length of the failure reason can make the outcome invalid. *)
Lemma outcome_result (x : X) reason :
  log_good x -> len_in 1 128 (t_txn_id (txn x)) = true -> failure_reason (txn x) = Some reason ->
  exists r x', outcomeX x = (r, x') /\ txn x' = txn x /\ world x' = world x
    /\ if String.length reason <=? 1000
       then exists o, r = Ok o /\ o_state o = t_state (txn x) /\ o_rollback_failures o = rollback_failures x
       else r = Err ValidationError.
Proof using clock_nonneg hash_len txn_hash_len.
  intros Hg Hid Hr. unfold outcome, get, on_wal, mbind, M_bind.
  destruct (last_hash_spec hash (wal x) Hg) as (l1 & -> & G1 & V1). cbn [wal set_wal].
  destruct (next_sequence_spec hash l1 G1) as (l2 & -> & G2 & V2).
  rewrite Hid, Hr. unfold len_in. rewrite txn_hash_len, tip_len. simpl.
  destruct (_ <=? 1000); eexists _, _; (split; [reflexivity|]); (split; [done|]); (split; [done|]); [by eexists|done].
Qed.

(** An abort of a pending transaction whose steps can be undone. *)
Lemma abort_undoes (x : X) w0 reason :
  t_state (txn x) = PENDING ->
  undoable (inverses x) (inverse_args x) (steps (txn x)) w0 (world x) ->
  Forall (fun s => valid_step s = true) (steps (txn x)) ->
  log_good x -> len_in 1 128 (t_txn_id (txn x)) = true ->
  rollback_failures x = [] ->
  exists r x', abortX reason x = (r, x') /\ world x' = w0 /\ t_state (txn x') = ROLLED_BACK
    /\ if String.length reason <=? 1000
       then exists o, r = Ok o /\ o_state o = ROLLED_BACK /\ o_rollback_failures o = []
       else r = Err ValidationError.
Proof using clock_nonneg hash_len txn_hash_len.
  intros Hp Hu Hv Hg Hid Hf.
  set (t' := with_state (txn x) FAILED (Some (clock (ticks x))) (Some reason)).
  set (x1 := set_txn t' (tick x)).
  destruct (append_succeeds x1 ABORT None None None None None
    (Some ("abort: " +:+ str_take 300 reason))) as (e1 & l1 & E1 & G1); try done.
  { unfold opt_len. rewrite str_length_app. pose proof (str_take_length 300 reason) as Hl.
    apply Nat.leb_le. change (String.length "abort: ") with 7. lia. }
  set (x2 := set_wal l1 (tick x1)) in *.
  destruct (rollback_undoes (steps (txn x)) w0 x2) as (x3 & E3 & W3 & G3 & T3 & F3); try done.
  set (x4 := set_txn (with_state (txn x3) ROLLED_BACK None None) x3).
  destruct (outcome_result x4 reason) as (r & x5 & E5 & T5 & W5 & O5); [done|by simpl; rewrite T3..|].
  exists r, x5. split.
  - unfold abort, rollback, get, now_ms, modify, mbind, M_bind. rewrite Hp.
    change (set_txn _ (tick x)) with x1. rewrite E1.
    change (steps (txn x2)) with (steps (txn x)). rewrite E3, F3.
    change (rollback_failures x2) with (rollback_failures x). rewrite Hf. exact E5.
  - rewrite W5, T5. split; [done|]. split; [done|]. simpl in O5. rewrite F3 in O5. simpl in O5. by rewrite Hf in O5.
Qed.

Record request := { r_id : string; r_tool : string; r_args : pydict; r_inv : string }.

Fixpoint run_steps (rs : list request) : stM X exn unit :=
  match rs with
  | [] => mret ()
  | r :: rs => _ ← stepX (r_id r) (r_tool r) (r_args r) (Some (r_inv r)); run_steps rs
  end.

(** [f] undoes every successful call of [impl]. *)
Definition undoes (f : inverse_fn (W := W)) (tl : string) (impl : tool_fn (W := W)) : Prop :=
  forall args w v w', impl args w = (Ok v, w') -> f tl args v w' = (Ok (), w).
Definition reversible (x : X) (r : request) : Prop :=
  forall impl f, assoc (r_tool r) (tools x) = Some impl -> assoc (r_inv r) (inverses x) = Some f ->
    undoes f (r_tool r) impl.

Definition can_undo (w0 : W) (x : X) : Prop :=
  undoable (inverses x) (inverse_args x) (steps (txn x)) w0 (world x)
  /\ Forall (fun s => valid_step s = true) (steps (txn x))
  /\ log_good x /\ len_in 1 128 (t_txn_id (txn x)) = true /\ rollback_failures x = [].

Lemma step_can_undo w0 r (x x' : X) v :
  can_undo w0 x -> reversible x r -> r_id r ∉ s_step_id <$> steps (txn x) ->
  stepX (r_id r) (r_tool r) (r_args r) (Some (r_inv r)) x = (Ok v, x') ->
  can_undo w0 x' /\ inverses x' = inverses x /\ tools x' = tools x
  /\ (s_step_id <$> steps (txn x')) = (s_step_id <$> steps (txn x)) ++ [r_id r]
  /\ t_state (txn x') = t_state (txn x).
Proof.
  intros (Hu & Hv & Hg & Hid & Hf) Hrev Hfresh H.
  apply step_returns in H as (impl & st & []); [|done].
  destruct sd_step0 as (Hsid & Hstl & Hsinv & Herr), sd_static0 as (Hinv & Htools).
  destruct (sd_registered0 _ eq_refl) as [f Hreg].
  unfold can_undo. rewrite sd_txn0, sd_stash0, Hinv, Htools, sd_failures0. simpl.
  split; [|rewrite fmap_app, <- Hsid; done].
  split; [|split; [apply list.Forall_app; split; [done|by apply list.Forall_cons]|done]].
  econstructor; [by apply undoable_stash|done|done|done| |].
  - rewrite Hsid. apply lookup_insert_eq.
  - rewrite Hstl. by apply (Hrev impl f).
Qed.

Lemma run_steps_can_undo w0 rs (x x' : X) :
  can_undo w0 x -> Forall (reversible x) rs ->
  NoDup ((s_step_id <$> steps (txn x)) ++ (r_id <$> rs)) ->
  run_steps rs x = (Ok (), x') ->
  can_undo w0 x' /\ t_state (txn x') = t_state (txn x).
Proof.
  revert x. induction rs as [|r rs IH]; intros x Hc Hrev Hn H.
  { unfold run_steps, mret, M_ret in H. by simplify_eq. }
  apply M_bind_Ok in H as (v & x1 & Hs & H). simpl in Hn.
  apply list.Forall_cons in Hrev as [Hr Hrev].
  eapply step_can_undo in Hs as (Hc1 & Hi1 & Ht1 & Hids & Hst1); [|done..|].
  - destruct (IH x1) as [Hc' Hst]; [done| |rewrite Hids, <- app_assoc; done|done|].
    + eapply list.Forall_impl; [done|]. intros r' Hr' impl f. rewrite Ht1, Hi1. apply Hr'.
    + split; [done|]. by rewrite Hst.
  - apply list.NoDup_app in Hn as (_ & Hn & _). intros Hin. apply (Hn _ Hin). set_solver.
Qed.

(** C30.  Atomicity: when every step declares a registered inverse that undoes
    its tool, and step ids are distinct, aborting after any number of steps
    restores the world the transaction started from and leaves it ROLLED_BACK; it
    returns an outcome that says so, with no failure, if the reason has at most 1000
    characters, and raises ValidationError on a longer one, after the world has been
    restored.  The clock is not negative, both hashes are hexadecimal SHA-256 digests
    (64 characters), and the log is one that keeps the promises of the protocol. *)
Theorem abort_restores_world id l regs ts w n x rs x1 reason :
  good hash l -> init clock id l regs ts w n = Ok x ->
  Forall (reversible x) rs -> NoDup (r_id <$> rs) ->
  run_steps rs x = (Ok (), x1) ->
  exists r x2, abortX reason x1 = (r, x2) /\ world x2 = w /\ t_state (txn x2) = ROLLED_BACK
    /\ if String.length reason <=? 1000
       then exists o, r = Ok o /\ o_state o = ROLLED_BACK /\ o_rollback_failures o = []
       else r = Err ValidationError.
Proof using clock_nonneg hash_len txn_hash_len.
  intros Hg Hi Hrev Hn H. unfold init in Hi.
  destruct (String.eqb id ""); [done|]. destruct (len_in 1 128 id) eqn:Hl; [|done].
  destruct (negb true || _); [done|]. simplify_eq.
  eapply (run_steps_can_undo w) in H as [(Hu & Hv & Hg1 & Hid & Hf) Hst]; try done.
  - by apply abort_undoes.
  - repeat split; try done; constructor.
Qed.

(** ** Commit and recovery *)

Lemma outcome_log (x x' : X) o :
  log_good x -> outcomeX x = (Ok o, x') ->
  log x' = log x /\ o_state o = t_state (txn x) /\ txn x' = txn x /\ world x' = world x.
Proof.
  intros Hg H. unfold outcome, get, on_wal, mbind, M_bind in H.
  destruct (last_hash_spec hash (wal x) Hg) as (l1 & E1 & G1 & V1). rewrite E1 in H. cbn in H.
  destruct (next_sequence_spec hash l1 G1) as (l2 & E2 & G2 & V2). rewrite E2 in H. cbn in H.
  case_match; [|done]. unfold mret, M_ret in H. simplify_eq. simpl. split; [congruence|done].
Qed.

(**  A commit that returns is durable: the outcome and the transaction are
    COMMITTED, the world is untouched, the log ends with the COMMIT entry of the
    transaction, and a recovery over the log reports it COMMITTED. *)
Theorem commit_recovers_committed (x x' : X) o :
  log_good x -> commitX x = (Ok o, x') ->
  o_state o = COMMITTED /\ t_state (txn x') = COMMITTED /\ world x' = world x
  /\ (exists e, log x' = log x ++ [e] /\ kind e = COMMIT /\ txn_id e = t_txn_id (txn x))
  /\ replay (log x') !! t_txn_id (txn x) = Some "COMMITTED".
Proof.
  intros Hg H. unfold commit in H. apply M_bind_Ok in H as (x0 & x0' & Hget & H).
  unfold get in Hget. injection Hget as <- <-. destruct (bool_decide _); [|done]. cbn [negb] in H.
  apply M_bind_Ok in H as (t & x1 & H1 & H). unfold now_ms in H1. injection H1 as <- <-.
  apply M_bind_Ok in H as ([] & x2 & H2 & H). unfold modify in H2. injection H2 as <-.
  apply M_bind_Ok in H as (e & x3 & H3 & H).
  apply append_wal_ok in H3 as (-> & G3 & L3 & E3); [|done].
  apply outcome_log in H as (L4 & S4 & T4 & W4); [|done].
  rewrite E3 in S4, T4, W4. simpl in *. rewrite S4, T4, W4, L4, L3. simpl.
  split; [done|]. split; [done|]. split; [done|]. split; [eauto|].
  unfold replay. rewrite foldl_app. simpl. by rewrite lookup_insert_eq.
Qed.

Lemma rollback_loop_irreversible ss (y : X) :
  Forall (fun s => s_inverse_op s = None) ss -> rollback_loopX ss y = (Ok (), y).
Proof.
  induction ss as [|s ss IH]; intros Hss; [done|]. apply list.Forall_cons in Hss as [Hs Hss].
  simpl. unfold rollback_step. rewrite Hs. unfold mbind, M_bind, mret, M_ret. by apply IH.
Qed.

(**  A step that declares no inverse is accepted and is never undone: if no
    recorded step has an inverse, an abort that returns leaves the world as the
    steps made it, and still reports ROLLED_BACK. *)
Theorem irreversible_steps_kept (x x' : X) reason o :
  log_good x -> t_state (txn x) = PENDING -> rollback_failures x = [] ->
  Forall (fun s => s_inverse_op s = None) (steps (txn x)) ->
  abort clock txn_hash py_repr reason x = (Ok o, x') ->
  world x' = world x /\ o_state o = ROLLED_BACK.
Proof.
  intros Hg Hp Hf Hs H. unfold abort in H. apply M_bind_Ok in H as (x0 & x0' & Hget & H).
  unfold get in Hget. injection Hget as <- <-. rewrite Hp in H.
  apply M_bind_Ok in H as (t & x1 & H1 & H). unfold now_ms in H1. injection H1 as <- <-.
  apply M_bind_Ok in H as ([] & x2 & H2 & H). unfold modify in H2. injection H2 as <-.
  apply M_bind_Ok in H as (e & x3 & H3 & H).
  apply append_wal_ok in H3 as (-> & G3 & L3 & E3); [|done].
  apply M_bind_Ok in H as ([] & x4 & H4 & H).
  unfold rollback in H4. apply M_bind_Ok in H4 as (x5 & x5' & Hget & H4).
  unfold get in Hget. injection Hget as <- <-.
  rewrite rollback_loop_irreversible in H4; [|rewrite E3; simpl; by apply Forall_rev]. simplify_eq.
  apply M_bind_Ok in H as (x5 & x5' & Hget & H). unfold get in Hget. injection Hget as <- <-.
  rewrite E3 in H. cbn [rollback_failures set_wal tick set_txn] in H. rewrite Hf in H.
  apply M_bind_Ok in H as ([] & x6 & H6 & H). unfold modify in H6. injection H6 as <-.
  apply outcome_log in H as (_ & S7 & _ & W7); [|done]. by rewrite W7, S7.
Qed.
End Exec.
End SafeflowSpec.

(** * Transactional execution: runs of the executor

    A world that is an account balance, a tool that credits it and an inverse
    that debits it: the hypotheses of the transaction theorems are met, and the
    limits of the rollback show on concrete transactions. *)
Import SafeflowWal SafeflowExec SafeflowSpec.
Open Scope string_scope.
Open Scope list_scope.
Open Scope nat_scope.

Module SafeflowRuns.

Definition hash0 (_ : WALEntry) : string := String.concat "" (replicate 64 "a").
Definition clock0 (n : nat) : Z := Z.of_nat n.
Definition hash_args0 (_ : pydict) : string := "args".
Definition hash_result0 (_ : pyval) : string := "result".
Definition txn_hash0 (_ : Transaction) : string := String.concat "" (replicate 64 "b").
Definition repr0 (s : string) : string := s.

#[local] Instance mem_ops : WalOps (list WALEntry) := InMemoryWAL hash0.
#[local] Instance mem_spec : WalSpec hash0 (list WALEntry) := InMemoryWAL_spec hash0.

Definition amount (args : pydict) : Z :=
  match dict_get "n" args with Some (PInt k) => k | _ => 0%Z end.
Definition credit : tool_fn := fun args w => (Ok (PInt w), (w + amount args)%Z).
Definition debit : inverse_fn := fun _ args _ w => (Ok (), (w - amount args)%Z).

Definition start : executor (W := Z) (L := list WALEntry) :=
  match init clock0 "t1" [] [("debit", debit)] [("credit", credit)] 100%Z 0 with
  | Ok x => x
  | Err _ => {| txn := {| t_txn_id := ""; t_state := FAILED; steps := []; created_at_ms := 0;
                          completed_at_ms := None; failure_reason := None |};
                wal := []; inverses := []; tools := []; inverse_args := ∅;
                rollback_failures := []; world := 0%Z; ticks := 0 |}
  end.

Abbreviation X := (executor (W := Z) (L := list WALEntry)).
Abbreviation step0 := (step (W := Z) (L := list WALEntry) clock0 hash_args0 hash_result0 txn_hash0 repr0).
Abbreviation abort0 := (abort (W := Z) (L := list WALEntry) clock0 txn_hash0 repr0).
Abbreviation commit0 := (commit (W := Z) (L := list WALEntry) clock0 txn_hash0).
Abbreviation run_steps0 := (run_steps (W := Z) (L := list WALEntry) clock0 hash_args0 hash_result0
                              txn_hash0 repr0).

Definition req (id : string) (n : Z) : request :=
  {| r_id := id; r_tool := "credit"; r_args := [("n", PInt n)]; r_inv := "debit" |}.
Definition reqs : list request := [req "s1" 5; req "s2" 7].

Lemma credit_reversible n id : reversible start (req id n).
Proof.
  intros impl f Hi Hf. change (Some credit = Some impl) in Hi. change (Some debit = Some f) in Hf.
  injection Hi as <-. injection Hf as <-.
  intros args w v w' H. injection H as <- <-. unfold debit. f_equal. lia.
Qed.

Lemma abort_restores_world_witness :
  exists r x2, abort0 "stop" (run_steps0 reqs start).2 = (r, x2) /\ world x2 = 100%Z
    /\ t_state (txn x2) = ROLLED_BACK
    /\ exists o, r = Ok o /\ o_state o = ROLLED_BACK /\ o_rollback_failures o = [].
Proof.
  apply (abort_restores_world hash0 clock0 hash_args0 hash_result0 txn_hash0 repr0
    (fun n => Nat2Z.is_nonneg n) (fun _ => eq_refl) (fun _ => eq_refl)
    "t1" [] [("debit", debit)] [("credit", credit)] 100%Z 0 start reqs (run_steps0 reqs start).2 "stop").
  - exact I.
  - reflexivity.
  - repeat constructor; apply credit_reversible.
  - apply (bool_decide_unpack _). vm_compute. exact I.
  - vm_compute. reflexivity.
Defined.

Definition three_ops : list op :=
  [OBegin; OStep "s1" "credit" [("n", PInt 5)] None; OCommit].

Lemma log_stays_chained_witness :
  valid_chain hash0 (view hash0 (wal (run_ops (W := Z) (L := list WALEntry) clock0 hash_args0
    hash_result0 txn_hash0 repr0 start three_ops))).
Proof.
  refine (proj1 (proj2 (@log_stays_chained Z (list WALEntry) hash0 mem_ops mem_spec clock0
    hash_args0 hash_result0 txn_hash0 repr0 start three_ops I _))).
  intros i e H. vm_compute in H. destruct i; discriminate H.
Defined.

Definition committed : X := (commit0 start).2.

Lemma terminal_states_final_witness :
  world (run_ops (W := Z) (L := list WALEntry) clock0 hash_args0 hash_result0 txn_hash0 repr0
    committed [OStep "s1" "credit" [("n", PInt 5)] None; OAbort "late"]) = 100%Z.
Proof.
  apply (terminal_states_final clock0 hash_args0 hash_result0 txn_hash0 repr0 committed
    [OStep "s1" "credit" [("n", PInt 5)] None; OAbort "late"]).
  vm_compute. discriminate.
Defined.

Lemma commit_recovers_committed_witness :
  exists o, commit0 start = (Ok o, committed)
    /\ replay (view hash0 (wal committed)) !! t_txn_id (txn start) = Some "COMMITTED".
Proof.
  destruct (commit0 start) as [[o|e] x] eqn:E; [|vm_compute in E; discriminate E].
  exists o. assert (x = committed) as -> by (unfold committed; by rewrite E). split; [reflexivity|].
  apply (@commit_recovers_committed Z (list WALEntry) hash0 mem_ops mem_spec clock0 txn_hash0
    start committed o I E).
Defined.

(** An entry, and logs of one entry. *)
Definition entry0 : WALEntry := {|
  sequence := 0; txn_id := "t1"; kind := BEGIN; step_id := None; tool := None; args_hash := None;
  result_hash := None; inverse_op := None; note := Some "transaction begin"; timestamp_ms := 1;
  prev_hash := GENESIS_HASH |}.
Lemma entry0_chain : valid_chain hash0 [entry0].
Proof. intros i e [-> <-]%list_lookup_singleton_Some. by split. Qed.

Lemma tip_determines_log_witness : [entry0] = [entry0].
Proof.
  apply (tip_determines_log hash0).
  - intros e e' He He' _. apply list_elem_of_singleton in He as ->, He' as ->. reflexivity.
  - intros e _. vm_compute. discriminate.
  - apply entry0_chain.
  - apply entry0_chain.
  - reflexivity.
Defined.

(** A log on disk: an entry with a quote, a newline and a non-ASCII letter in its note,
    an entry out of sequence, a restart, and its continuation. *)
Definition odd_note : string := String (ascii_of_nat 34) (String (ascii_of_nat 10) (String (ascii_of_nat 233) "")).
Definition entry_at (n : nat) (prev : string) : WALEntry := {|
  sequence := n; txn_id := "t1"; kind := STEP_AFTER; step_id := Some "s"; tool := None; args_hash := None;
  result_hash := Some "r"; inverse_op := None; note := Some odd_note; timestamp_ms := 17; prev_hash := prev |}.
Definition digest0 (s : string) : string := str_take 64 s.
Definition disk_ops : list wal_op :=
  [WAppend (entry_at 0 GENESIS_HASH); WAppend (entry_at 5 GENESIS_HASH); WRestart; WRead;
   WAppend (entry_at 1 (entry_hash digest0 (entry_at 0 GENESIS_HASH))); WRestart; WRead].
Lemma file_wal_refines_memory_witness :
  answers (on_file digest0 (fun _ => None)) disk_ops empty_file
  = [Ok [entry_at 0 GENESIS_HASH]; Err ValueError; Ok []; Ok [entry_at 0 GENESIS_HASH];
     Ok [entry_at 1 (entry_hash digest0 (entry_at 0 GENESIS_HASH))]; Ok [];
     Ok [entry_at 0 GENESIS_HASH; entry_at 1 (entry_hash digest0 (entry_at 0 GENESIS_HASH))]].
Proof.
  rewrite (file_wal_refines_memory digest0 (fun _ => None) disk_ops).
  - vm_compute. reflexivity.
  - unfold disk_ops. repeat constructor.
Defined.
(** A last line that was torn: the error is raised once, and the log then shows what
    precedes the line. *)
Example torn_line :
  let torn := {| file := canonical_payload entry0 +:+ newline +:+ "{"; cache := []; loaded := false |} in
  answers (on_file digest0 (fun _ => None)) [WRead; WRead] torn = [Err DecodeError; Ok [entry0]].
Proof. vm_compute. reflexivity. Qed.

(** An entry whose link was altered on disk loads as well: nothing recomputes the chain. *)
Example altered_link_loads :
  let altered := {| file := canonical_payload (entry_at 0 "forged") +:+ newline; cache := []; loaded := false |} in
  answers (on_file digest0 (fun _ => None)) [WRead] altered = [Ok [entry_at 0 "forged"]].
Proof. vm_compute. reflexivity. Qed.

(** ** The limits of the rollback *)

(** A step without an inverse: the abort reports ROLLED_BACK, the credit stays. *)
Definition irreversible : X := (step0 "s1" "credit" [("n", PInt 5)] None start).2.
Lemma irreversible_steps_kept_witness : world (abort0 "stop" irreversible).2 = 105%Z.
Proof.
  destruct (abort0 "stop" irreversible) as [[o|e] x] eqn:E; [|vm_compute in E; discriminate E].
  apply (@irreversible_steps_kept Z (list WALEntry) hash0 mem_ops mem_spec clock0 txn_hash0 repr0
    irreversible x "stop" o I).
  - reflexivity.
  - reflexivity.
  - repeat constructor.
  - exact E.
Defined.

(** Two steps under one id: the arguments of the first are overwritten, and both
    are undone with those of the second. *)
Example duplicate_step_id_wrong_undo :
  let x := (run_steps0 [req "s" 5; req "s" 7] start).2 in
  world x = 112%Z
  /\ world (abort0 "stop" x).2 = 98%Z /\ t_state (txn (abort0 "stop" x).2) = ROLLED_BACK.
Proof. vm_compute. by repeat split. Qed.

(** A reason of more than 1000 characters: the world is restored, and the abort raises. *)
Example long_reason_raises :
  let reason := String.concat "" (replicate 1001 "x") in
  let x := (run_steps0 reqs start).2 in
  (abort0 reason x).1 = Err ValidationError /\ world (abort0 reason x).2 = 100%Z.
Proof. vm_compute. by split. Qed.

(** An empty step id is refused only after the tool has run: the call raises, no
    step is recorded, and the abort that follows does not undo it. *)
Example empty_step_id_runs_tool :
  let x := (step0 "" "credit" [("n", PInt 5)] (Some "debit") start).2 in
  (step0 "" "credit" [("n", PInt 5)] (Some "debit") start).1 = Err ValidationError
  /\ world x = 105%Z /\ world (abort0 "stop" x).2 = 105%Z
  /\ t_state (txn (abort0 "stop" x).2) = ROLLED_BACK.
Proof. vm_compute. by repeat split. Qed.

(** A transaction that was rolled back completely replays as ROLLING_BACK. *)
Example rolled_back_replays_rolling_back :
  let x := (abort0 "stop" (run_steps0 reqs start).2).2 in
  t_state (txn x) = ROLLED_BACK /\ replay (wal x) !! "t1" = Some "ROLLING_BACK".
Proof. vm_compute. by split. Qed.
End SafeflowRuns.
