(* ===== verification/RouterDomain.v ===== *)
(** * The decision point: the signals it fuses

    [tex/domain/verdict.py], [severity.py], [finding.py], [policy.py] and
    [agent_signal.py], [tex/deterministic/gate.py], [tex/specialists/base.py]
    and [tex/semantic/schema.py]: the values the router receives, with the
    properties it reads from them.  The models are frozen; what their
    validators establish is stated as boolean well-formedness predicates, used
    as hypotheses where a theorem needs them. *)
From stdpp Require Import vector.
From S2P Require Import Prelude PyStr PyFloat PyVal.
Open Scope string_scope.
Open Scope list_scope.

Module RouterDomain.

(** [ValueError] of a blank key or item, [KeyError] of a missing weight, and the
    [ValidationError] of a pydantic model. *)
Inductive exn := ValueError | KeyError | ValidationError.

Inductive Verdict := PERMIT | ABSTAIN | FORBID.
#[global] Instance Verdict_eq_dec : EqDecision Verdict.
Proof. solve_decision. Defined.
Definition verdict_value (v : Verdict) : string :=
  match v with PERMIT => "PERMIT" | ABSTAIN => "ABSTAIN" | FORBID => "FORBID" end.

Inductive Severity := INFO | WARNING | CRITICAL.
#[global] Instance Severity_eq_dec : EqDecision Severity.
Proof. solve_decision. Defined.

Record Finding := {
  source : string;
  rule_name : string;
  severity : Severity;
  message : string;
  matched_text : option string;
  start_index : option nat;
  end_index : option nat;
  f_metadata : pydict
}.

(** ** Deterministic gate *)
Record DeterministicGateResult := {
  findings : list Finding;
  enabled_recognizers : list string;
  blocked : bool;
  blocking_reasons : list string
}.

(** ** Specialists *)
Record SpecialistEvidence := {
  ev_text : string;
  ev_start : option nat;
  ev_end : option nat;
  ev_explanation : option string
}.

Record SpecialistResult := {
  specialist_name : string;
  risk_score : float;
  sp_confidence : float;
  sp_summary : string;
  sp_rationale : option string;
  evidence : list SpecialistEvidence;
  matched_policy_clause_ids : list string;
  matched_entity_names : list string;
  sp_uncertainty_flags : list string
}.

(** [results] of a [SpecialistBundle]; the validator requires distinct names. *)
Abbreviation SpecialistBundle := (list SpecialistResult).

(** [max(l, default=d)]: the first of the largest items. *)
Definition max_default (d : float) (l : list float) : float :=
  match l with [] => d | x :: l => foldl fmax x l end.

Definition max_risk_score (b : SpecialistBundle) : float := max_default f_zero (risk_score <$> b).

(** The loops [for x in items: key = x.casefold(); if key in seen: continue; ...],
    with the keys seen so far. *)
Fixpoint dedupe_from (seen : list (list N)) (l : list string) : list string :=
  match l with
  | [] => []
  | x :: l =>
      if decide (casefold x ∈ seen) then dedupe_from seen l
      else x :: dedupe_from (casefold x :: seen) l
  end.
Definition dedupe (l : list string) : list string := dedupe_from [] l.

Definition bundle_uncertainty_flags (b : SpecialistBundle) : list string :=
  dedupe (concat (sp_uncertainty_flags <$> b)).

(** ** Semantic analysis *)
Record SemanticEvidenceSpan := {
  span_text : string;
  span_start : option nat;
  span_end : option nat;
  span_explanation : option string
}.

Record SemanticDimensionResult := {
  dimension : string;
  score : float;
  dim_confidence : float;
  dim_summary : string;
  dim_rationale : option string;
  evidence_spans : list SemanticEvidenceSpan;
  dim_clause_ids : list string;
  dim_uncertainty_flags : list string
}.
Definition is_low_confidence (d : SemanticDimensionResult) : bool :=
  fltb (dim_confidence d) (dec 5 1).

Record SemanticVerdictRecommendation := {
  rec_verdict : Verdict;
  rec_confidence : float;
  rec_summary : string;
  rec_rationale : option string;
  rec_uncertainty_flags : list string
}.

(** The validator requires each of the five dimensions exactly once, so the
    results are five. *)
Record SemanticAnalysis := {
  dimension_results : vec SemanticDimensionResult 5;
  recommended_verdict : SemanticVerdictRecommendation;
  overall_confidence : float;
  evidence_sufficiency : float;
  rationale_quality : float;
  sem_summary : string;
  sem_uncertainty_flags : list string
}.
(** [max] over five results: the default is never used. *)
Definition max_dimension_score (a : SemanticAnalysis) : float :=
  max_default f_zero (score <$> (dimension_results a : list _)).
Definition has_low_confidence_dimension (a : SemanticAnalysis) : bool :=
  existsb is_low_confidence (dimension_results a).
Definition semantic_clause_ids (a : SemanticAnalysis) : list string :=
  dedupe (concat (dim_clause_ids <$> (dimension_results a : list _))).

(** ** Agent streams

    The three signals, without the fields kept for replay only. *)
Record AgentIdentitySignal := {
  id_risk_score : float;
  id_confidence : float;
  id_findings : list Finding;
  id_reasons : list string;
  id_uncertainty_flags : list string;
  trust_tier : string;
  lifecycle_status : string
}.
Record CapabilitySignal := {
  cap_risk_score : float;
  cap_confidence : float;
  cap_findings : list Finding;
  cap_reasons : list string;
  cap_uncertainty_flags : list string;
  violated_dimensions : list string
}.
Record BehavioralSignal := {
  beh_risk_score : float;
  beh_confidence : float;
  beh_findings : list Finding;
  beh_reasons : list string;
  beh_uncertainty_flags : list string;
  cold_start : bool;
  forbid_streak : nat
}.
Record AgentEvaluationBundle := {
  agent_present : bool;
  agent_id : option string;
  identity : AgentIdentitySignal;
  capability : CapabilitySignal;
  behavioral : BehavioralSignal
}.
(** [min(a, b, c)]. *)
Definition aggregate_confidence (b : AgentEvaluationBundle) : float :=
  fmin (fmin (id_confidence (identity b)) (cap_confidence (capability b)))
    (beh_confidence (behavioral b)).
Definition has_capability_violations (b : AgentEvaluationBundle) : bool :=
  bool_decide (violated_dimensions (capability b) <> []).
Definition agent_all_findings (b : AgentEvaluationBundle) : list Finding :=
  id_findings (identity b) ++ cap_findings (capability b) ++ beh_findings (behavioral b).
Definition agent_all_flags (b : AgentEvaluationBundle) : list string :=
  dedupe (id_uncertainty_flags (identity b) ++ cap_uncertainty_flags (capability b)
          ++ beh_uncertainty_flags (behavioral b)).

(** ** Policy *)

(** A dict with casefolded keys. *)
Abbreviation score_map := (list (list N * float)).
Fixpoint score_get (k : list N) (m : score_map) : float :=
  match m with
  | [] => f_zero
  | (k', v) :: m => if decide (k = k') then v else score_get k m
  end.

(** The part of a policy snapshot the gate and the router read. *)
Record PolicySnapshot := {
  permit_threshold : float;
  forbid_threshold : float;
  minimum_confidence : float;
  deterministic_block_severities : list Severity;
  policy_recognizers : list string;
  action_criticality : score_map;
  channel_criticality : score_map;
  environment_criticality : score_map;
  fusion_weights : list (string * float)
}.

Definition normalize_lookup_key (v : string) : result exn (list N) :=
  let n := strip v in
  if String.eqb n "" then Err ValueError else Ok (casefold n).

Definition criticality_for (p : PolicySnapshot) (action_type channel environment : string)
    : result exn float :=
  a ← normalize_lookup_key action_type;
  c ← normalize_lookup_key channel;
  e ← normalize_lookup_key environment;
  Ok (fdiv (fadd (fadd (score_get a (action_criticality p)) (score_get c (channel_criticality p)))
             (score_get e (environment_criticality p)))
       (dec 3 0)).

Definition default_fusion_weights : list (string * float) :=
  [("deterministic", dec 234 3); ("specialists", dec 195 3); ("semantic", dec 273 3);
   ("criticality", dec 78 3); ("agent_identity", dec 60 3); ("agent_capability", dec 90 3);
   ("agent_behavioral", dec 70 3)].

(** [Field(ge=0.0, le=1.0)]. *)
Definition unit_interval (x : float) : bool := fleb f_zero x && fleb x f_one.

End RouterDomain.
