(* ===== verification/RouterFusion.v ===== *)
(** * The decision point: fusion of the scores and of the confidences

    [tex/specialists/fusion.py] and the fusion half of
    [tex/engine/router.py]. *)
From S2P Require Import Prelude PyStr PyFloat PyVal RouterDomain.
Import RouterDomain.
Open Scope string_scope.
Open Scope list_scope.
Open Scope nat_scope.

Module RouterFusion.

(** ** Cross-specialist fusion ([fuse]) *)

Definition FRONTIER_SPECIALIST_NAMES : gset string :=
  list_to_set ["argus"; "attriguard"; "vigil"; "agentarmor"; "mage"].

Definition CORROBORATION_BONUS_CAP : float := dec 20 2.
Definition corroboration_bonus_by_count (n : nat) : float :=
  match n with
  | 1 => dec 0 2
  | 2 => dec 5 2
  | 3 => dec 10 2
  | 4 => dec 15 2
  | 5 => dec 18 2
  | _ => CORROBORATION_BONUS_CAP
  end.
Definition FRONTIER_AGREEMENT_MULTIPLIER : float := dec 15 1.
Definition FIRING_RISK_FLOOR : float := dec 10 2.

Definition PAIR_BONUSES : list (string * string * float * string) :=
  [("mage", "agentarmor", dec 8 2, "FUSION_MAGE_X_AGENTARMOR_ASI08");
   ("argus", "attriguard", dec 8 2, "FUSION_ARGUS_X_ATTRIGUARD_CAUSAL");
   ("vigil", "clawguard", dec 6 2, "FUSION_VIGIL_X_CLAWGUARD_TOOL_HIJACK");
   ("planguard", "mage", dec 6 2, "FUSION_PLANGUARD_X_MAGE_CROSS_TURN");
   ("agentarmor", "attriguard", dec 7 2, "FUSION_AGENTARMOR_X_ATTRIGUARD_EXFIL")].

Record FusionVerdict := {
  base_risk : float;
  fused_risk : float;
  corroboration_bonus : float;
  firing_specialists : list string;
  frontier_specialists_in_agreement : list string;
  pair_signals : list string;
  cascading_failure_signal : bool
}.

(** [sorted(...)] on strings. *)
Fixpoint insert_sorted (x : string) (l : list string) : list string :=
  match l with
  | [] => [x]
  | y :: l' => if str_ltb y x then y :: insert_sorted x l' else x :: l
  end.
Definition sorted (l : list string) : list string := foldr insert_sorted [] l.

Definition fires (r : SpecialistResult) : bool :=
  fleb FIRING_RISK_FLOOR (risk_score r) && bool_decide (matched_policy_clause_ids r <> []).
Definition firing_set (b : SpecialistBundle) : gset string :=
  list_to_set (specialist_name <$> List.filter fires b).

(** The bonus before the pair bonuses. *)
Definition base_bonus (firing : gset string) : float :=
  let frontier := firing ∩ FRONTIER_SPECIALIST_NAMES in
  let n := size firing in
  let b := if decide (n = 0) then f_zero else corroboration_bonus_by_count n in
  let b := if decide (n = 1 /\ frontier <> ∅) then fadd b (dec 8 2) else b in
  if decide (frontier <> ∅) then fmul b FRONTIER_AGREEMENT_MULTIPLIER else b.

(** The [for a, b, pair_bonus, signal_name in _PAIR_BONUSES] loop. *)
Definition add_pair (firing : gset string) (acc : float * list string)
    (p : string * string * float * string) : float * list string :=
  let '(a, b, bonus, name) := p in
  if decide (a ∈ firing /\ b ∈ firing) then (fadd acc.1 bonus, acc.2 ++ [name]) else acc.
Definition pair_bonuses (firing : gset string) : float * list string :=
  foldl (add_pair firing) (base_bonus firing, []) PAIR_BONUSES.

Definition total_bonus (firing : gset string) : float :=
  fmin (pair_bonuses firing).1 CORROBORATION_BONUS_CAP.

Definition fuse (b : SpecialistBundle) : result exn FusionVerdict :=
  let base := max_risk_score b in
  let firing := firing_set b in
  let frontier := firing ∩ FRONTIER_SPECIALIST_NAMES in
  let bonus := total_bonus firing in
  let fused := fmin f_one (fadd base bonus) in
  let v := {|
    base_risk := round_ndigits base 4;
    fused_risk := round_ndigits fused 4;
    corroboration_bonus := round_ndigits bonus 4;
    firing_specialists := sorted (specialist_name <$> List.filter fires b);
    frontier_specialists_in_agreement := sorted (elements frontier);
    pair_signals := (pair_bonuses firing).2;
    cascading_failure_signal := bool_decide (3 <= size firing /\ frontier <> ∅)%nat
  |} in
  if unit_interval (base_risk v) && unit_interval (fused_risk v)
     && unit_interval (corroboration_bonus v)
  then Ok v else Err ValidationError.

(** ** The fused score *)

Definition severity_score (s : Severity) : float :=
  match s with CRITICAL => dec 1 0 | WARNING => dec 55 2 | INFO => dec 20 2 end.

Definition deterministic_score (d : DeterministicGateResult) : float :=
  if blocked d then dec 1 0
  else if bool_decide (findings d = []) then f_zero
  else fmin f_one (foldl (fun h f => fmax h (severity_score (severity f))) f_zero (findings d)).

Definition AGENT_WEIGHT_KEYS : list string :=
  ["agent_identity"; "agent_capability"; "agent_behavioral"].
Definition CONTENT_WEIGHT_KEYS : list string :=
  ["deterministic"; "specialists"; "semantic"; "criticality"].

(** [d.get(k)], [d[k] = v] on a dict of weights. *)
Fixpoint weight (k : string) (w : list (string * float)) : option float :=
  match w with
  | [] => None
  | (k', v) :: w => if String.eqb k k' then Some v else weight k w
  end.
Fixpoint set_weight (k : string) (v : float) (w : list (string * float)) : list (string * float) :=
  match w with
  | [] => [(k, v)]
  | (k', v') :: w => if String.eqb k k' then (k', v) :: w else (k', v') :: set_weight k v w
  end.
Definition weight_or_zero (w : list (string * float)) (k : string) : float :=
  default f_zero (weight k w).

Definition zero_agent_weights (w : list (string * float)) : list (string * float) :=
  foldl (fun w k => set_weight k f_zero w) w AGENT_WEIGHT_KEYS.
Definition map_content_weights (f : float -> float) (w : list (string * float))
    : list (string * float) :=
  foldl (fun w k => set_weight k (f (weight_or_zero w k)) w) w CONTENT_WEIGHT_KEYS.

Definition effective_weights (p : PolicySnapshot) (present : bool) : list (string * float) :=
  let w := fusion_weights p in
  if present then w
  else
    let agent_mass := py_sum (weight_or_zero w <$> AGENT_WEIGHT_KEYS) in
    if fleb agent_mass f_zero then zero_agent_weights w
    else
      let content_mass := py_sum (weight_or_zero w <$> CONTENT_WEIGHT_KEYS) in
      let w :=
        if fleb content_mass f_zero then
          let even := fdiv agent_mass (dec 4 0) in map_content_weights (fun x => fadd x even) w
        else
          let scale := fdiv (fadd content_mass agent_mass) content_mass in
          map_content_weights (fun x => fmul x scale) w in
      zero_agent_weights w.

(** [weights[k]]. *)
Definition get_weight (w : list (string * float)) (k : string) : result exn float :=
  match weight k w with Some v => Ok v | None => Err KeyError end.

(** The scores of the seven streams. *)
Record stream_scores := {
  s_deterministic : float;
  s_specialists : float;
  s_semantic : float;
  s_criticality : float;
  s_identity : float;
  s_capability : float;
  s_behavioral : float
}.

Definition fuse_scores (s : stream_scores) (present : bool) (p : PolicySnapshot)
    : result exn float :=
  let w := effective_weights p present in
  d ← get_weight w "deterministic";
  sp ← get_weight w "specialists";
  se ← get_weight w "semantic";
  cr ← get_weight w "criticality";
  let fused := fadd (fadd (fadd (fmul (s_deterministic s) d) (fmul (s_specialists s) sp))
                       (fmul (s_semantic s) se)) (fmul (s_criticality s) cr) in
  fused ← (if present then
             i ← get_weight w "agent_identity";
             let fused := fadd fused (fmul (s_identity s) i) in
             c ← get_weight w "agent_capability";
             let fused := fadd fused (fmul (s_capability s) c) in
             b ← get_weight w "agent_behavioral";
             Ok (fadd fused (fmul (s_behavioral s) b))
           else Ok fused);
  Ok (fmin f_one (fmax f_zero fused)).

(** ** Confidence *)

(** [agent_bundle if agent_bundle is not None and agent_bundle.agent_present]. *)
Definition present_agent (a : option AgentEvaluationBundle) : option AgentEvaluationBundle :=
  match a with
  | Some b => if agent_present b then Some b else None
  | None => None
  end.

(** [_per_stream_confidences]: the confidences of the deterministic, specialist
    and semantic streams, and of the agent when there is one. *)
Record stream_confidences := {
  c_deterministic : float;
  c_specialist : float;
  c_semantic : float;
  c_agent : option float
}.
Definition per_stream_confidences (d : DeterministicGateResult) (b : SpecialistBundle)
    (a : SemanticAnalysis) (g : option AgentEvaluationBundle) : stream_confidences := {|
  c_deterministic :=
    if blocked d then dec 95 2
    else if bool_decide (findings d = []) then dec 85 2 else dec 75 2;
  c_specialist :=
    if bool_decide (b = []) then f_zero
    else fdiv (py_sum (sp_confidence <$> b)) (float_of_Ze (Z.of_nat (length b)) 0);
  c_semantic := overall_confidence a;
  c_agent := aggregate_confidence <$> present_agent g
|}.

Definition compute_confidence (d : DeterministicGateResult) (b : SpecialistBundle)
    (a : SemanticAnalysis) (g : option AgentEvaluationBundle) : float :=
  let s := per_stream_confidences d b a g in
  let base := fadd (fadd (fmul (c_deterministic s) (dec 25 2)) (fmul (c_specialist s) (dec 20 2)))
                (fmul (c_semantic s) (dec 55 2)) in
  let base := if has_low_confidence_dimension a then fsub base (dec 8 2) else base in
  let base := if fltb (evidence_sufficiency a) (dec 30 2) then fsub base (dec 5 2) else base in
  let base :=
    match present_agent g with
    | Some g =>
        let base := fadd (fmul base (dec 80 2)) (fmul (aggregate_confidence g) (dec 20 2)) in
        if has_capability_violations g then fmin f_one (fadd base (dec 10 2)) else base
    | None => base
    end in
  fmin f_one (fmax f_zero base).

End RouterFusion.
