(* ===== verification/Router.v ===== *)
(** * The decision point: the selective-risk verdict rule

    [tex/engine/router.py]: the constants of the rule, the R0-R4 ladder, the
    abstention triggers, the reasons and flags, and [route]. *)
From stdpp Require Import pretty.
From S2P Require Import Prelude PyStr PyFloat PyVal RouterDomain RouterFusion.
Import RouterDomain RouterFusion.
Open Scope string_scope.
Open Scope list_scope.
Open Scope nat_scope.

Module Router.

Record SelectiveRiskRule := {
  semantic_override_confidence : float;
  semantic_override_dimension : float;
  semantic_override_evidence : float;
  low_evidence_floor : float;
  specialist_abstain_risk : float;
  structural_specialist_risk : float;
  agent_forbid_streak : nat;
  agent_cold_start_fraction : float;
  agent_pending_fraction : float;
  structural_specialists : gset string
}.

Definition DEFAULT_STRUCTURAL_SPECIALISTS : gset string :=
  list_to_set ["clawguard"; "mcpshield"; "planguard"; "mage"; "agentarmor"; "argus";
               "attriguard"; "vigil"].

Definition DEFAULT_SELECTIVE_RISK_RULE : SelectiveRiskRule := {|
  semantic_override_confidence := dec 85 2;
  semantic_override_dimension := dec 90 2;
  semantic_override_evidence := dec 40 2;
  low_evidence_floor := dec 25 2;
  specialist_abstain_risk := dec 60 2;
  structural_specialist_risk := dec 30 2;
  agent_forbid_streak := 3;
  agent_cold_start_fraction := dec 8 1;
  agent_pending_fraction := dec 5 1;
  structural_specialists := DEFAULT_STRUCTURAL_SPECIALISTS
|}.

(** What the ladder reads besides the policy. *)
Record signals := {
  deterministic_result : DeterministicGateResult;
  specialist_bundle : SpecialistBundle;
  semantic_analysis : SemanticAnalysis;
  agent_bundle : option AgentEvaluationBundle
}.

Section Rule.
Context (rule : SelectiveRiskRule).

(** The guard of R1, shared by [_determine_verdict] and
    [_semantic_dominance_override_fired]. *)
Definition override_guard (a : SemanticAnalysis) : bool :=
  bool_decide (rec_verdict (recommended_verdict a) = FORBID)
  && fleb (semantic_override_confidence rule) (rec_confidence (recommended_verdict a))
  && fleb (semantic_override_dimension rule) (max_dimension_score a)
  && fleb (semantic_override_evidence rule) (evidence_sufficiency a).

Definition semantic_dominance_override_fired (s : signals) : bool :=
  if blocked (deterministic_result s) then false else override_guard (semantic_analysis s).

Definition structural_fires (final : float) (p : PolicySnapshot) (r : SpecialistResult) : bool :=
  bool_decide (specialist_name r ∈ structural_specialists rule)
  && fleb (structural_specialist_risk rule) (risk_score r)
  && bool_decide (matched_policy_clause_ids r <> [])
  && fltb final (forbid_threshold p).

Definition agent_abstains (final : float) (p : PolicySnapshot) (g : AgentEvaluationBundle) : bool :=
  (agent_forbid_streak rule <=? forbid_streak (behavioral g))
  || cold_start (behavioral g)
     && fleb (fmul (permit_threshold p) (agent_cold_start_fraction rule)) final
  || String.eqb (lifecycle_status (identity g)) "PENDING"
     && fleb (fmul (permit_threshold p) (agent_pending_fraction rule)) final.

(** R3. *)
Definition should_abstain (s : signals) (final confidence : float) (p : PolicySnapshot)
    (flags : list string) : bool :=
  let a := semantic_analysis s in
  bool_decide (rec_verdict (recommended_verdict a) = ABSTAIN)
  || fltb confidence (minimum_confidence p)
  || has_low_confidence_dimension a
  || fltb (evidence_sufficiency a) (low_evidence_floor rule) && fleb (permit_threshold p) final
  || fleb (specialist_abstain_risk rule) (max_risk_score (specialist_bundle s))
     && fltb final (forbid_threshold p)
  || existsb (structural_fires final p) (specialist_bundle s)
  || existsb (fun f => bool_decide (casefold f = casefold "no_retrieval_context")) flags
     && fleb (permit_threshold p) final
  || fltb (permit_threshold p) final && fltb final (forbid_threshold p)
  || match present_agent (agent_bundle s) with
     | Some g => agent_abstains final p g
     | None => false
     end.

(** [lifecycle_status in ("QUARANTINED", "SLEEPING")]. *)
Definition held_agent (g : AgentEvaluationBundle) : bool :=
  String.eqb (lifecycle_status (identity g)) "QUARANTINED"
  || String.eqb (lifecycle_status (identity g)) "SLEEPING".

(** R1 to R4. *)
Definition score_ladder (s : signals) (final confidence : float) (p : PolicySnapshot)
    (flags : list string) : Verdict :=
  let a := semantic_analysis s in
  if override_guard a then FORBID
  else if bool_decide (rec_verdict (recommended_verdict a) = FORBID)
          && fleb (permit_threshold p) final then FORBID
  else if fleb (forbid_threshold p) final then FORBID
  else if should_abstain s final confidence p flags then ABSTAIN
  else if fleb final (permit_threshold p) && fleb (minimum_confidence p) confidence
          && bool_decide (rec_verdict (recommended_verdict a) = PERMIT) then PERMIT
  else ABSTAIN.

Definition determine_verdict (s : signals) (final confidence : float) (p : PolicySnapshot)
    (flags : list string) : Verdict :=
  if blocked (deterministic_result s) then FORBID
  else
    match present_agent (agent_bundle s) with
    | Some g =>
        if held_agent g then ABSTAIN
        else if has_capability_violations g then FORBID
        else score_ladder s final confidence p flags
    | None => score_ladder s final confidence p flags
    end.

(** ** Flags *)

(** [add] of the flags not seen yet, in order: the loops and the conditional
    additions of [_build_uncertainty_flags] are one deduplicated sequence. *)
Definition flag_if (b : bool) (f : string) : list string := if b then [f] else [].

Definition build_uncertainty_flags (s : signals) (final confidence : float) (p : PolicySnapshot)
    (override : bool) : list string :=
  let a := semantic_analysis s in
  let d := deterministic_result s in
  dedupe (sem_uncertainty_flags a
    ++ rec_uncertainty_flags (recommended_verdict a)
    ++ bundle_uncertainty_flags (specialist_bundle s)
    ++ flag_if (bool_decide (findings d <> []) && negb (blocked d)) "deterministic_findings_present"
    ++ flag_if (fltb confidence (minimum_confidence p)) "confidence_below_policy_minimum"
    ++ flag_if (has_low_confidence_dimension a) "low_confidence_semantic_dimension"
    ++ flag_if (fltb (evidence_sufficiency a) (dec 25 2)) "weak_semantic_evidence"
    ++ flag_if (fltb (permit_threshold p) final && fltb final (forbid_threshold p))
         "borderline_fused_score"
    ++ flag_if override "semantic_dominance_override"
    ++ match present_agent (agent_bundle s) with Some g => agent_all_flags g | None => [] end).
End Rule.

(** ** Reasons *)

Definition nat_str (n : nat) : string := pretty (N.of_nat n).

(** [f"{x:.2f}"]. *)
Definition fixed2 (x : float) : string :=
  match x with
  | SpecFloat.S754_zero s => (if s then "-" else "") +:+ "0.00"
  | SpecFloat.S754_infinity s => (if s then "-" else "") +:+ "inf"
  | SpecFloat.S754_nan => "nan"
  | SpecFloat.S754_finite s m e =>
      let k := (if 0 <=? e then Zpos m * 2 ^ e * 100
                else round_half_even (Zpos m * 100) (2 ^ (- e)))%Z in
      (if s then "-" else "") +:+ pretty (Z.to_N (k / 100))
      +:+ "." +:+ pretty (Z.to_N (k mod 100 / 10)) +:+ pretty (Z.to_N (k mod 10))
  end.

(** [max(results, key=lambda r: r.risk_score)]. *)
Definition highest_specialist (r : SpecialistResult) (l : list SpecialistResult) : SpecialistResult :=
  foldl (fun h r => if fltb (risk_score h) (risk_score r) then r else h) r l.

(** [" | ".join(reasons[:3])]. *)
Definition first_reasons (l : list string) : string := String.concat " | " (take 3 l).
Definition reasons_if (label : string) (l : list string) : list string :=
  if bool_decide (l = []) then [] else [label +:+ first_reasons l].

Definition build_reasons (s : signals) (final : float) (p : PolicySnapshot) (override : bool)
    : list string :=
  let d := deterministic_result s in
  let a := semantic_analysis s in
  let rec := recommended_verdict a in
  (if blocked d then blocking_reasons d else [])
  ++ flag_if (bool_decide (findings d <> []) && negb (blocked d))
       ("Deterministic layer produced " +:+ nat_str (length (findings d)) +:+ " finding(s).")
  ++ match specialist_bundle s with
     | [] => []
     | r :: l =>
         let h := highest_specialist r l in
         ["Highest specialist risk came from " +:+ specialist_name h +:+ " ("
          +:+ fixed2 (risk_score h) +:+ ")."]
     end
  ++ ["Semantic layer recommended " +:+ verdict_value (rec_verdict rec) +:+ " with confidence "
      +:+ fixed2 (rec_confidence rec) +:+ "."]
  ++ ["Fused final score was " +:+ fixed2 final +:+ " (permit <= " +:+ fixed2 (permit_threshold p)
      +:+ ", forbid >= " +:+ fixed2 (forbid_threshold p) +:+ ")."]
  ++ flag_if (bool_decide (semantic_clause_ids a <> []))
       ("Matched " +:+ nat_str (length (semantic_clause_ids a))
        +:+ " policy clause(s) in semantic analysis.")
  ++ flag_if override
       ("Semantic dominance override engaged: max_dimension=" +:+ fixed2 (max_dimension_score a)
        +:+ ", recommendation_confidence=" +:+ fixed2 (rec_confidence rec) +:+ ".")
  ++ match present_agent (agent_bundle s) with
     | Some g =>
         reasons_if "Agent identity: " (id_reasons (identity g))
         ++ reasons_if "Agent capability: " (cap_reasons (capability g))
         ++ reasons_if "Agent behavioral: " (beh_reasons (behavioral g))
         ++ ["Agent stream scores: identity=" +:+ fixed2 (id_risk_score (identity g))
             +:+ ", capability=" +:+ fixed2 (cap_risk_score (capability g))
             +:+ ", behavioral=" +:+ fixed2 (beh_risk_score (behavioral g)) +:+ "."]
     | None => []
     end.

(** ** The routed result *)

Record RoutingResult (A : Type) := {
  verdict : Verdict;
  confidence : float;
  final_score : float;
  reasons : list string;
  uncertainty_flags : list string;
  r_findings : list Finding;
  scores : list (string * float);
  asi_findings : A;
  override_fired : bool
}.
Arguments verdict {A} r.
Arguments confidence {A} r.
Arguments final_score {A} r.
Arguments reasons {A} r.
Arguments uncertainty_flags {A} r.
Arguments r_findings {A} r.
Arguments scores {A} r.
Arguments asi_findings {A} r.
Arguments override_fired {A} r.

(** [normalize_string_sequences]: items are stripped, blank ones refused, and
    duplicates dropped; pydantic turns the [ValueError] into its own. *)
Definition normalize_string_sequences (l : list string) : result exn (list string) :=
  if forallb (fun x => negb (String.eqb (strip x) "")) l then Ok (dedupe (strip <$> l))
  else Err ValidationError.

(** The validated constructor. *)
Definition new_result {A} (r : RoutingResult A) : result exn (RoutingResult A) :=
  rs ← normalize_string_sequences (reasons r);
  fs ← normalize_string_sequences (uncertainty_flags r);
  if unit_interval (confidence r) && unit_interval (final_score r)
     && forallb (fun kv => unit_interval kv.2) (scores r)
  then Ok {| verdict := verdict r; confidence := confidence r; final_score := final_score r;
             reasons := rs; uncertainty_flags := fs; r_findings := r_findings r;
             scores := scores r; asi_findings := asi_findings r;
             override_fired := override_fired r |}
  else Err ValidationError.

Definition stream_scores_of (d : DeterministicGateResult) (specialist criticality : float)
    (a : SemanticAnalysis) (g : option AgentEvaluationBundle) : stream_scores := {|
  s_deterministic := deterministic_score d;
  s_specialists := specialist;
  s_semantic := max_dimension_score a;
  s_criticality := criticality;
  s_identity := from_option (fun g => id_risk_score (identity g)) f_zero g;
  s_capability := from_option (fun g => cap_risk_score (capability g)) f_zero g;
  s_behavioral := from_option (fun g => beh_risk_score (behavioral g)) f_zero g
|}.

(** The [scores] dict, in insertion order. *)
Definition score_dict (x : stream_scores) (c : stream_confidences) (present : bool)
    : list (string * float) :=
  let r4 f := round_ndigits f 4 in
  [("deterministic", r4 (s_deterministic x)); ("specialists", r4 (s_specialists x));
   ("semantic", r4 (s_semantic x)); ("criticality", r4 (s_criticality x))]
  ++ (if present then
        [("agent_identity", r4 (s_identity x)); ("agent_capability", r4 (s_capability x));
         ("agent_behavioral", r4 (s_behavioral x))]
      else [])
  ++ [("conf_stream:deterministic", r4 (c_deterministic c));
      ("conf_stream:specialist", r4 (c_specialist c));
      ("conf_stream:semantic", r4 (c_semantic c))]
  ++ match c_agent c with Some f => [("conf_stream:agent", r4 f)] | None => [] end.

Section Route.
Context (rule : SelectiveRiskRule).
(** [build_asi_findings] ([tex/domain/asi_builder.py]): annotations of the
    verdict, of which the router only stores the result. *)
Context {A : Type}
  (build_asi_findings : DeterministicGateResult -> SpecialistBundle -> SemanticAnalysis -> bool ->
                        result exn A).

(** The fused score and the confidence the ladder is run on. *)
Definition fused_signals (s : signals) (p : PolicySnapshot) (action_type channel environment : string)
    : result exn (stream_scores * float * float) :=
  crit ← criticality_for p action_type channel environment;
  v ← fuse (specialist_bundle s);
  let g := present_agent (agent_bundle s) in
  let x := stream_scores_of (deterministic_result s) (fused_risk v) crit (semantic_analysis s) g in
  final ← fuse_scores x (bool_decide (is_Some g)) p;
  Ok (x, final, compute_confidence (deterministic_result s) (specialist_bundle s)
                  (semantic_analysis s) (agent_bundle s)).

Definition route (s : signals) (p : PolicySnapshot) (action_type channel environment : string)
    : result exn (RoutingResult A) :=
  '(x, final, conf) ← fused_signals s p action_type channel environment;
  let g := present_agent (agent_bundle s) in
  let override := semantic_dominance_override_fired rule s in
  let flags := build_uncertainty_flags s final conf p override in
  asi ← build_asi_findings (deterministic_result s) (specialist_bundle s) (semantic_analysis s)
          override;
  new_result {|
    verdict := determine_verdict rule s final conf p flags;
    confidence := round_ndigits conf 4;
    final_score := round_ndigits final 4;
    reasons := build_reasons s final p override;
    uncertainty_flags := flags;
    r_findings := findings (deterministic_result s) ++ from_option agent_all_findings [] g;
    scores := score_dict x (per_stream_confidences (deterministic_result s) (specialist_bundle s)
                              (semantic_analysis s) (agent_bundle s)) (bool_decide (is_Some g));
    asi_findings := asi;
    override_fired := override
  |}.
End Route.

End Router.
