(* ===== verification/RouterSpec.v ===== *)
(** * The decision point: what the verdict rule guarantees

    Monotonicity of the R0-R4 ladder in the probabilistic signals, what a
    routed PERMIT certifies, what the override flag means, and the fusion of
    the specialists. *)
From stdpp Require Import vector.
From S2P Require Import Prelude PyStr PyFloat PyVal RouterDomain RouterFusion Router.
Import RouterDomain RouterFusion Router.
Open Scope string_scope.
Open Scope list_scope.
Open Scope nat_scope.

Module RouterSpec.

(** What the validators of a policy snapshot establish of its thresholds. *)
Definition valid_policy (p : PolicySnapshot) : bool :=
  unit_interval (permit_threshold p) && unit_interval (forbid_threshold p)
  && unit_interval (minimum_confidence p) && fltb (permit_threshold p) (forbid_threshold p).

Lemma unit_interval_nan x : unit_interval x = true -> is_nan x = false.
Proof. unfold unit_interval. intros [H _]%andb_true_iff. by apply fleb_nan in H as [_ ?]. Qed.

Lemma valid_policy_inv p :
  valid_policy p = true ->
  is_nan (permit_threshold p) = false /\ is_nan (forbid_threshold p) = false
  /\ is_nan (minimum_confidence p) = false
  /\ fltb (permit_threshold p) (forbid_threshold p) = true.
Proof.
  unfold valid_policy. rewrite !andb_true_iff. intros [[[H1 H2] H3] H4].
  split_and!; eauto using unit_interval_nan.
Qed.

(** ** Order on signals *)

(** PERMIT < ABSTAIN < FORBID. *)
Definition caution (v : Verdict) : nat :=
  match v with PERMIT => 0 | ABSTAIN => 1 | FORBID => 2 end.

Lemma caution_forbid v : 2 <= caution v -> v = FORBID.
Proof. destruct v; simpl; [lia|lia|done]. Qed.
Lemma caution_abstain v : 1 <= caution v -> v <> FORBID -> v = ABSTAIN.
Proof. destruct v; simpl; [lia|done|done]. Qed.
Lemma caution_permit v : caution v <= 0 -> v = PERMIT.
Proof. destruct v; simpl; [done|lia|lia]. Qed.

Definition riskier_specialist (r r' : SpecialistResult) : Prop :=
  specialist_name r = specialist_name r' /\
  matched_policy_clause_ids r = matched_policy_clause_ids r' /\
  fleb (risk_score r) (risk_score r') = true.

Definition riskier_dimension (d d' : SemanticDimensionResult) : Prop :=
  fleb (score d) (score d') = true /\ fleb (dim_confidence d') (dim_confidence d) = true.

(** The second signals are at least as alarming as the first: every risk is at
    least as high, every dimension at most as confident, the recommendation at
    least as severe and at least as confident; the structural findings, the
    agent and the sufficiency of the evidence are the same. *)
Record riskier (s s' : signals) : Prop := {
  rk_deterministic : deterministic_result s = deterministic_result s';
  rk_agent : agent_bundle s = agent_bundle s';
  rk_specialists : Forall2 riskier_specialist (specialist_bundle s) (specialist_bundle s');
  rk_dimensions : Forall2 riskier_dimension (dimension_results (semantic_analysis s))
                    (dimension_results (semantic_analysis s'));
  rk_evidence : evidence_sufficiency (semantic_analysis s)
                = evidence_sufficiency (semantic_analysis s');
  rk_verdict : caution (rec_verdict (recommended_verdict (semantic_analysis s)))
               <= caution (rec_verdict (recommended_verdict (semantic_analysis s')));
  rk_confidence : fleb (rec_confidence (recommended_verdict (semantic_analysis s)))
                    (rec_confidence (recommended_verdict (semantic_analysis s'))) = true
}.

Lemma max_default_mono d l l' :
  is_nan d = false -> Forall2 (fun x y => fleb x y = true) l l' ->
  fleb (max_default d l) (max_default d l') = true.
Proof. intros Hd [|x y l1 l2 H H']; [by apply fleb_refl|]. by apply foldl_fmax_mono. Qed.

Lemma max_risk_mono b b' :
  Forall2 riskier_specialist b b' -> fleb (max_risk_score b) (max_risk_score b') = true.
Proof.
  intros H. apply max_default_mono; [done|]. apply Forall2_fmap. eapply list.Forall2_impl; [exact H|].
  by intros r r' (_ & _ & ?).
Qed.

Lemma max_dimension_mono a a' :
  Forall2 riskier_dimension (dimension_results a) (dimension_results a') ->
  fleb (max_dimension_score a) (max_dimension_score a') = true.
Proof.
  intros H. apply max_default_mono; [done|]. apply Forall2_fmap. eapply list.Forall2_impl; [exact H|].
  by intros d d' [? ?].
Qed.

Lemma low_confidence_mono a a' :
  Forall2 riskier_dimension (dimension_results a) (dimension_results a') ->
  has_low_confidence_dimension a = true -> has_low_confidence_dimension a' = true.
Proof.
  unfold has_low_confidence_dimension. generalize (dimension_results a : list _) as l.
  generalize (dimension_results a' : list _) as l'. intros l' l H.
  induction H as [|d d' l l' [_ Hc] _ IH]; simpl; [done|].
  rewrite !orb_true_iff. intros [Hd|?]; [|auto]. left.
  unfold is_low_confidence in *. by eapply fleb_fltb_trans.
Qed.

(** ** Monotonicity of the ladder *)

Lemma score_ladder_permit_iff rule s final conf p flags :
  score_ladder rule s final conf p flags = PERMIT <->
  override_guard rule (semantic_analysis s) = false /\
  fleb (forbid_threshold p) final = false /\
  should_abstain rule s final conf p flags = false /\
  fleb final (permit_threshold p) = true /\
  fleb (minimum_confidence p) conf = true /\
  rec_verdict (recommended_verdict (semantic_analysis s)) = PERMIT.
Proof.
  unfold score_ladder. split.
  - intros H. repeat (case_match; try discriminate H).
    match goal with H : _ && _ && _ = true |- _ =>
      rewrite !andb_true_iff, bool_decide_eq_true in H end. naive_solver.
  - intros (-> & -> & -> & -> & -> & ->). done.
Qed.

Section Monotone.
Context (rule : SelectiveRiskRule) (p : PolicySnapshot) (Hp : valid_policy p = true).
Context (s s' : signals) (final final' conf conf' : float) (flags flags' : list string).
Context (Hs : riskier s s') (Hfinal : fleb final final' = true) (Hconf : fleb conf' conf = true).
Context (Hflags : flags ⊆ flags').

Lemma override_mono :
  override_guard rule (semantic_analysis s) = true ->
  override_guard rule (semantic_analysis s') = true.
Proof using Hs.
  unfold override_guard. rewrite !andb_true_iff, !bool_decide_eq_true.
  intros [[[Hv Hc] Hd] He]. destruct Hs as [_ _ _ Hdim Hev Hver Hcf]. rewrite Hv in Hver.
  split_and!; [by apply caution_forbid|exact (fleb_trans _ _ _ Hc Hcf)| |by rewrite <- Hev].
  eapply fleb_trans; [done|]. by apply max_dimension_mono.
Qed.

Lemma structural_mono r r' :
  riskier_specialist r r' -> fltb final' (forbid_threshold p) = true ->
  structural_fires rule final p r = true -> structural_fires rule final' p r' = true.
Proof using.
  intros (Hn & Hc & Hr) Hf. unfold structural_fires.
  rewrite !andb_true_iff, !bool_decide_eq_true, Hn, Hc. intros [[[? ?] ?] _].
  split_and!; eauto with float_order.
Qed.

Lemma agent_abstains_mono g :
  agent_abstains rule final p g = true -> agent_abstains rule final' p g = true.
Proof using Hfinal.
  unfold agent_abstains. rewrite !orb_true_iff, !andb_true_iff.
  assert (forall x, fleb x final = true -> fleb x final' = true) by eauto with float_order.
  naive_solver.
Qed.

(** Below the forbid threshold, every trigger of R3 that fires still fires. *)
Lemma should_abstain_mono :
  fltb final' (forbid_threshold p) = true ->
  rec_verdict (recommended_verdict (semantic_analysis s'))
    <> FORBID ->
  should_abstain rule s final conf p flags = true ->
  should_abstain rule s' final' conf' p flags' = true.
Proof using Hs Hfinal Hconf Hflags.
  intros Hf Hnf. unfold should_abstain. destruct Hs as [_ Hag Hsp Hdim Hev Hver _].
  rewrite <- Hag, <- Hev, !orb_true_iff, !andb_true_iff, !bool_decide_eq_true.
  assert (forall x, fleb x final = true -> fleb x final' = true) by eauto with float_order.
  intros [[[[[[[[Hr|Hc]|Hl]|[? ?]]|[Hm _]]|Hx]|[Hn ?]]|[Hb _]]|Ha].
  - do 8 left. rewrite Hr in Hver. by apply caution_abstain.
  - do 7 left. right. by eapply fleb_fltb_trans.
  - do 6 left. right. by eapply low_confidence_mono.
  - do 5 left. right. auto.
  - do 4 left. right. split; [|done]. eapply fleb_trans; [done|]. by apply max_risk_mono.
  - do 3 left. right. apply existsb_exists in Hx as (r & Hin & Hr).
    apply list_elem_of_In in Hin.
    apply list_elem_of_lookup in Hin as [i Hi].
    destruct (Forall2_lookup_l _ _ _ _ _ Hsp Hi) as (r' & Hi' & Hrr).
    apply existsb_exists. exists r'. split; [|by eapply structural_mono].
    apply list_elem_of_In. by eapply list_elem_of_lookup_2.
  - do 2 left. right. split; [|auto]. apply existsb_exists in Hn as (f & Hin & Hff).
    apply existsb_exists. exists f. split; [|done]. apply list_elem_of_In, Hflags.
    by apply list_elem_of_In.
  - left. right. split; [by eapply fltb_fleb_trans|done].
  - right. destruct (present_agent _); [|done]. by apply agent_abstains_mono.
Qed.

Lemma score_ladder_forbid :
  score_ladder rule s final conf p flags = FORBID ->
  score_ladder rule s' final' conf' p flags' = FORBID.
Proof using Hs Hfinal.
  unfold score_ladder. destruct (override_guard rule (semantic_analysis s)) eqn:Ho.
  { by rewrite override_mono. }
  case_match eqn:H2.
  { apply andb_true_iff in H2 as [Hr Hf]. apply bool_decide_eq_true in Hr.
    pose proof (rk_verdict _ _ Hs) as Hv. rewrite Hr in Hv. intros _. case_match; [done|].
    rewrite (caution_forbid _ Hv). by rewrite (fleb_trans _ _ _ Hf Hfinal). }
  case_match eqn:H3; [|by repeat case_match].
  intros _. rewrite (fleb_trans _ _ _ H3 Hfinal). by repeat case_match.
Qed.

Lemma score_ladder_permit :
  score_ladder rule s' final' conf' p flags' = PERMIT ->
  score_ladder rule s final conf p flags = PERMIT.
Proof using Hp Hs Hfinal Hconf Hflags.
  destruct (valid_policy_inv p Hp) as (Hn1 & Hn2 & _ & _).
  rewrite !score_ladder_permit_iff. intros (Ho & Hfb & Ha & Hf & Hc & Hr).
  pose proof (rk_verdict _ _ Hs) as Hv. rewrite Hr in Hv.
  assert (fltb final' (forbid_threshold p) = true) as Hlt
    by (apply fleb_false; [done|by apply fleb_nan in Hfinal as [_ ?]|done]).
  split_and!; [| | |by eauto with float_order..|by apply caution_permit].
  - apply not_true_iff_false. intros H. by rewrite (override_mono H) in Ho.
  - apply not_true_iff_false. intros H. by rewrite (fleb_trans _ _ _ H Hfinal) in Hfb.
  - apply not_true_iff_false. intros H. rewrite should_abstain_mono in Ha; [done|done| |done].
    by rewrite Hr.
Qed.
End Monotone.

(** C32. Probabilistic signals can only move a verdict towards caution: with the
    same structural findings, agent and evidence sufficiency, signals at least
    as alarming, a fused score at least as high, a confidence at most as high
    and at least the same flags never give a more permissive verdict
    (PERMIT < ABSTAIN < FORBID), whatever the constants of the rule. *)
Theorem verdict_monotone rule p s s' final final' conf conf' flags flags' :
  valid_policy p = true -> riskier s s' -> fleb final final' = true -> fleb conf' conf = true ->
  flags ⊆ flags' ->
  caution (determine_verdict rule s final conf p flags)
    <= caution (determine_verdict rule s' final' conf' p flags').
Proof.
  intros Hp Hs Hf Hc Hfl.
  assert (caution (score_ladder rule s final conf p flags)
          <= caution (score_ladder rule s' final' conf' p flags')) as Hl.
  { destruct (score_ladder rule s final conf p flags) eqn:H1; simpl; [lia| |].
    - destruct (score_ladder rule s' final' conf' p flags') eqn:H2; simpl; [|lia|lia].
      by erewrite score_ladder_permit in H1.
    - by erewrite score_ladder_forbid. }
  unfold determine_verdict. rewrite (rk_deterministic _ _ Hs), (rk_agent _ _ Hs).
  by repeat case_match.
Qed.

(** ** What a routed PERMIT certifies *)

Lemma max_risk_ub b r :
  Forall (fun r => unit_interval (risk_score r) = true) b -> r ∈ b ->
  fleb (risk_score r) (max_risk_score b) = true.
Proof.
  intros Hb Hr. unfold max_risk_score. destruct b as [|r0 b]; [set_solver|].
  apply list.Forall_cons in Hb as [H0 Hb].
  destruct (foldl_fmax_ub (risk_score <$> b) (risk_score r0)) as [H1 H2].
  - by apply unit_interval_nan.
  - apply list.Forall_fmap. eapply list.Forall_impl; [done|]. intros x Hx. by apply unit_interval_nan.
  - apply elem_of_cons in Hr as [->|Hr]; [done|].
    rewrite list.Forall_fmap, list.Forall_forall in H2. by apply H2.
Qed.

Lemma route_inv {A} rule (build : _ -> _ -> _ -> _ -> result exn A) s p act ch env r :
  route rule build s p act ch env = Ok r ->
  exists x final conf,
    fused_signals s p act ch env = Ok (x, final, conf) /\
    verdict r = determine_verdict rule s final conf p
      (build_uncertainty_flags s final conf p (semantic_dominance_override_fired rule s)) /\
    override_fired r = semantic_dominance_override_fired rule s.
Proof.
  unfold route, new_result. intros H. inv_bind. destruct x as [[x final] conf]. inv_bind.
  case_match; [|done]. injection H as <-. eauto 10.
Qed.

(** A specialist that would hold the action. *)
Definition holds_back (rule : SelectiveRiskRule) (r : SpecialistResult) : Prop :=
  fleb (specialist_abstain_risk rule) (risk_score r) = true \/
  specialist_name r ∈ structural_specialists rule /\
  matched_policy_clause_ids r <> [] /\
  fleb (structural_specialist_risk rule) (risk_score r) = true.

(** An agent that may act on its own. *)
Definition free_agent (rule : SelectiveRiskRule) (g : AgentEvaluationBundle) : Prop :=
  held_agent g = false /\ violated_dimensions (capability g) = [] /\
  forbid_streak (behavioral g) < agent_forbid_streak rule.

Lemma should_abstain_false rule s final conf p flags :
  should_abstain rule s final conf p flags = false ->
  fltb final (forbid_threshold p) = true ->
  Forall (fun r => unit_interval (risk_score r) = true) (specialist_bundle s) ->
  has_low_confidence_dimension (semantic_analysis s) = false /\
  Forall (fun r => ~ holds_back rule r) (specialist_bundle s) /\
  forall g, present_agent (agent_bundle s) = Some g ->
    forbid_streak (behavioral g) < agent_forbid_streak rule.
Proof.
  unfold should_abstain. rewrite !orb_false_iff. intros [[[[[[[[_ _] Hl] _] Hm] Hx] _] _] Ha] Hf Hu.
  split_and!; [done| |].
  - apply list.Forall_forall. intros r Hr [Hb|(Hn & Hc & Hb)].
    + rewrite Hf, andb_true_r in Hm.
      by rewrite (fleb_trans _ _ _ Hb (max_risk_ub _ _ Hu Hr)) in Hm.
    + apply not_true_iff_false in Hx. apply Hx, existsb_exists. exists r.
      rewrite <- list_elem_of_In. unfold structural_fires. rewrite !bool_decide_true by done.
      by rewrite Hb, Hf.
  - intros g Hg. rewrite Hg in Ha. unfold agent_abstains in Ha.
    rewrite !orb_false_iff in Ha. destruct Ha as [[Ha _] _]. by apply Nat.leb_gt in Ha.
Qed.

(** What a PERMIT certifies: whenever [route] returns PERMIT, the
    deterministic gate did not block, the semantic layer recommended PERMIT
    with no low-confidence dimension, the fused score is within the permit
    region and the confidence above the floor, no specialist reached its
    abstention bar, and the agent, if any, is not held, violates no capability
    and is on no forbid streak. *)
Theorem permit_certifies {A} rule (build : _ -> _ -> _ -> _ -> result exn A) s p act ch env r :
  valid_policy p = true ->
  Forall (fun r => unit_interval (risk_score r) = true) (specialist_bundle s) ->
  route rule build s p act ch env = Ok r -> verdict r = PERMIT ->
  blocked (deterministic_result s) = false /\
  rec_verdict (recommended_verdict (semantic_analysis s)) = PERMIT /\
  has_low_confidence_dimension (semantic_analysis s) = false /\
  (exists x final conf, fused_signals s p act ch env = Ok (x, final, conf) /\
     fleb final (permit_threshold p) = true /\ fleb (minimum_confidence p) conf = true) /\
  Forall (fun r => ~ holds_back rule r) (specialist_bundle s) /\
  (forall g, present_agent (agent_bundle s) = Some g -> free_agent rule g).
Proof.
  intros Hp Hu H Hv. destruct (valid_policy_inv p Hp) as (Hn1 & Hn2 & _ & Hlt).
  apply route_inv in H as (x & final & conf & Hfs & Hr & _). rewrite Hr in Hv.
  assert (blocked (deterministic_result s) = false /\
    (forall g, present_agent (agent_bundle s) = Some g ->
       held_agent g = false /\ violated_dimensions (capability g) = []) /\
    score_ladder rule s final conf p
      (build_uncertainty_flags s final conf p (semantic_dominance_override_fired rule s)) = PERMIT)
    as (Hb & Hg & Hl).
  { unfold determine_verdict, has_capability_violations in Hv. repeat (case_match; try done).
    split_and!; [done| |done]. intros g [= <-].
    match goal with H : bool_decide _ = false |- _ => apply bool_decide_eq_false in H end.
    split; [done|by apply dec_stable]. }
  apply score_ladder_permit_iff in Hl as (_ & _ & Ha & Hf & Hc & Hrec).
  destruct (should_abstain_false _ _ _ _ _ _ Ha (fleb_fltb_trans _ _ _ Hf Hlt) Hu) as (? & ? & ?).
  split_and!; [done..|eauto 10|done|]. intros g Hgg. destruct (Hg g Hgg). by split_and!; eauto.
Qed.

(** The override flag of a routed result is the verdict's doing except for
    a held agent: when the flag is set the verdict is FORBID, unless the agent
    is quarantined or sleeping, in which case it is ABSTAIN although the flag
    reports the override. *)
Theorem override_flag_verdict {A} rule (build : _ -> _ -> _ -> _ -> result exn A) s p act ch env r :
  route rule build s p act ch env = Ok r -> override_fired r = true ->
  verdict r = match present_agent (agent_bundle s) with
              | Some g => if held_agent g then ABSTAIN else FORBID
              | None => FORBID
              end.
Proof.
  intros H Ho. apply route_inv in H as (x & final & conf & _ & -> & Hr). rewrite Hr in Ho.
  unfold semantic_dominance_override_fired, determine_verdict, score_ladder in *.
  destruct (blocked _); [done|]. rewrite Ho. by repeat case_match.
Qed.

(** A bundle that marks its agent absent is no bundle: the request is
    routed exactly as a content-only request. *)
Theorem absent_agent_ignored {A} rule (build : _ -> _ -> _ -> _ -> result exn A) d b a g p act ch env :
  agent_present g = false ->
  route rule build (Build_signals d b a (Some g)) p act ch env
  = route rule build (Build_signals d b a None) p act ch env.
Proof.
  intros Hg. unfold route, fused_signals, build_uncertainty_flags, build_reasons, determine_verdict,
    score_ladder, should_abstain, compute_confidence, per_stream_confidences,
    semantic_dominance_override_fired. simpl. by rewrite Hg.
Qed.

(** ** Corroboration among specialists *)

(** The two specialists are one of the listed pairs. *)
Definition paired (a b : string) : Prop := (a, b) ∈ (fst ∘ fst <$> PAIR_BONUSES).
#[global] Instance paired_dec a b : Decision (paired a b).
Proof. unfold paired. apply _. Defined.

Lemma add_pairs_none firing l acc :
  (forall a b, (a, b) ∈ (fst ∘ fst <$> l) -> ~ (a ∈ firing /\ b ∈ firing)) ->
  foldl (add_pair firing) acc l = acc.
Proof.
  revert acc. induction l as [|[[[a b] bonus] name] l IH]; intros acc H; [done|].
  simpl. rewrite decide_False by (apply H; by left). apply IH. intros. apply H. by right.
Qed.

Lemma total_bonus_unpaired firing :
  (forall a b, paired a b -> ~ (a ∈ firing /\ b ∈ firing)) ->
  total_bonus firing = fmin (base_bonus firing) CORROBORATION_BONUS_CAP.
Proof. intros H. unfold total_bonus, pair_bonuses. by rewrite add_pairs_none. Qed.

Lemma paired_distinct a b : paired a b -> a <> b.
Proof. unfold paired, PAIR_BONUSES; simpl. rewrite !elem_of_cons, elem_of_nil. naive_solver. Qed.

Lemma base_bonus_solo f : f ∈ FRONTIER_SPECIALIST_NAMES ->
  base_bonus {[f]} = fmul (fadd (dec 0 2) (dec 8 2)) FRONTIER_AGREEMENT_MULTIPLIER.
Proof.
  intros Hf. unfold base_bonus. assert ({[f]} ∩ FRONTIER_SPECIALIST_NAMES <> ∅) by set_solver.
  rewrite size_singleton, (decide_False (P := 1 = 0)), !decide_True by (done || lia). done.
Qed.

Lemma base_bonus_two f x : f ∈ FRONTIER_SPECIALIST_NAMES -> x <> f ->
  base_bonus {[f; x]} = fmul (dec 5 2) FRONTIER_AGREEMENT_MULTIPLIER.
Proof.
  intros Hf Hx. unfold base_bonus.
  assert (({[f; x]} : gset string) ∩ FRONTIER_SPECIALIST_NAMES <> ∅) as Hn.
  { intros E. apply (not_elem_of_empty (C := gset string) f). rewrite <- E.
    apply elem_of_intersection. split; [by apply elem_of_union_l, elem_of_singleton|done]. }
  rewrite size_union, !size_singleton
    by (apply disjoint_singleton_l; rewrite elem_of_singleton; congruence).
  cbn [Nat.add].
  rewrite (decide_False (P := 2 = 0)), (decide_False (P := _ /\ _)), decide_True by naive_solver.
  done.
Qed.

(** Corroboration can lower the fused risk: next to a frontier specialist
    that fires alone, a second specialist that fires lowers the bonus, unless
    the two are one of the five listed pairs (0.12 becomes 0.075). *)
Theorem corroboration_lowers_bonus f x :
  f ∈ FRONTIER_SPECIALIST_NAMES -> x <> f -> ~ paired f x -> ~ paired x f ->
  fltb (total_bonus {[f; x]}) (total_bonus {[f]}) = true.
Proof.
  intros Hf Hx H1 H2. rewrite !total_bonus_unpaired, base_bonus_two, base_bonus_solo; [|done..| |].
  - vm_compute. reflexivity.
  - intros a b Hab [Ha Hb]. pose proof (paired_distinct _ _ Hab). set_solver.
  - intros a b Hab [Ha Hb]. pose proof (paired_distinct _ _ Hab).
    apply elem_of_union in Ha as [->%elem_of_singleton| ->%elem_of_singleton];
      apply elem_of_union in Hb as [->%elem_of_singleton| ->%elem_of_singleton]; done.
Qed.

End RouterSpec.

(** * The decision point: concrete requests

    Witnesses of the theorems of [RouterSpec] and behaviours of the router on
    given requests, evaluated. *)
Import RouterDomain RouterFusion Router RouterSpec.
Open Scope string_scope.
Open Scope list_scope.
Open Scope nat_scope.

Module RouterRuns.

(** The thresholds and weights of the default policy. *)
Definition policy : PolicySnapshot := {|
  permit_threshold := dec 34 2; forbid_threshold := dec 72 2; minimum_confidence := dec 62 2;
  deterministic_block_severities := [CRITICAL]; policy_recognizers := [];
  action_criticality := []; channel_criticality := []; environment_criticality := [];
  fusion_weights := default_fusion_weights
|}.

Definition gate (b : bool) : DeterministicGateResult :=
  {| findings := []; enabled_recognizers := []; blocked := b; blocking_reasons := [] |}.
Definition dim (name : string) (sc : float) : SemanticDimensionResult :=
  {| dimension := name; score := sc; dim_confidence := dec 9 1; dim_summary := "ok";
     dim_rationale := None; evidence_spans := []; dim_clause_ids := [];
     dim_uncertainty_flags := [] |}.
Definition semantic (v : Verdict) (top : float) : SemanticAnalysis :=
  {| dimension_results :=
       [# dim "policy_compliance" top; dim "data_leakage" f_zero; dim "external_sharing" f_zero;
          dim "unauthorized_commitment" f_zero; dim "destructive_or_bypass" f_zero];
     recommended_verdict := {| rec_verdict := v; rec_confidence := dec 9 1; rec_summary := "ok";
                               rec_rationale := None; rec_uncertainty_flags := [] |};
     overall_confidence := dec 9 1; evidence_sufficiency := dec 8 1; rationale_quality := dec 8 1;
     sem_summary := "ok"; sem_uncertainty_flags := [] |}.
Definition specialist (name : string) (risk : float) : SpecialistResult :=
  {| specialist_name := name; risk_score := risk; sp_confidence := dec 9 1; sp_summary := "ok";
     sp_rationale := None; evidence := []; matched_policy_clause_ids := ["clause-1"];
     matched_entity_names := []; sp_uncertainty_flags := [] |}.
Definition agent (status : string) (present : bool) : AgentEvaluationBundle :=
  {| agent_present := present; agent_id := Some "agent-1";
     identity := {| id_risk_score := dec 1 1; id_confidence := dec 9 1; id_findings := [];
                    id_reasons := ["known"]; id_uncertainty_flags := []; trust_tier := "STANDARD";
                    lifecycle_status := status |};
     capability := {| cap_risk_score := f_zero; cap_confidence := dec 9 1; cap_findings := [];
                      cap_reasons := []; cap_uncertainty_flags := []; violated_dimensions := [] |};
     behavioral := {| beh_risk_score := dec 1 1; beh_confidence := dec 9 1; beh_findings := [];
                      beh_reasons := []; beh_uncertainty_flags := []; cold_start := false;
                      forbid_streak := 0 |} |}.

Definition request (b : SpecialistBundle) (v : Verdict) (top : float)
    (g : option AgentEvaluationBundle) : signals := Build_signals (gate false) b (semantic v top) g.
Definition build : DeterministicGateResult -> SpecialistBundle -> SemanticAnalysis -> bool ->
    result exn unit := fun _ _ _ _ => Ok ().
Definition routed (s : signals) : result exn (RoutingResult unit) :=
  route DEFAULT_SELECTIVE_RISK_RULE build s policy "send_email" "email" "prod".
(** The verdict, and the reported override flag. *)
Definition verdict_of (s : signals) : result exn (Verdict * bool) :=
  (fun r => (verdict r, override_fired r)) <$> routed s.
Definition get_Ok {E A} (d : A) (r : result E A) : A := match r with Ok a => a | Err _ => d end.

Example clean_request_permitted :
  verdict_of (request [specialist "mage" (dec 2 1)] PERMIT (dec 3 1) (Some (agent "ACTIVE" true)))
  = Ok (PERMIT, false).
Proof. vm_compute. reflexivity. Qed.

Example quarantined_override_reported :
  verdict_of (request [] FORBID (dec 95 2) None) = Ok (FORBID, true) /\
  verdict_of (request [] FORBID (dec 95 2) (Some (agent "QUARANTINED" true))) = Ok (ABSTAIN, true).
Proof. split; vm_compute; reflexivity. Qed.

(** A second specialist fires on the same clause, and the verdict goes from
    ABSTAIN to PERMIT. *)
Example second_specialist_permits :
  verdict_of (request [specialist "argus" (dec 2 1)] PERMIT (dec 75 2) None)
    = Ok (ABSTAIN, false) /\
  verdict_of (request [specialist "argus" (dec 2 1); specialist "clawguard" (dec 2 1)]
                PERMIT (dec 75 2) None) = Ok (PERMIT, false).
Proof. split; vm_compute; reflexivity. Qed.

(** The fused risk is rounded to four decimals, so it can be below the largest
    specialist risk. *)
Example fused_below_max :
  let b := [specialist "pii" (dec 50004 5)] in
  (fun v => fltb (fused_risk v) (max_risk_score b)) <$> fuse b = Ok true.
Proof. vm_compute. reflexivity. Qed.

(** Without an agent the redistributed default weights are the original four,
    except that the criticality weight is one unit in the last place below 0.1. *)
Example redistributed_weights :
  (fun k => weight_or_zero (effective_weights policy false) k) <$> CONTENT_WEIGHT_KEYS
  = [dec 30 2; dec 25 2; dec 35 2; SpecFloat.S754_finite false 7205759403792793 (-56)]
  /\ dec 10 2 = SpecFloat.S754_finite false 7205759403792794 (-56).
Proof. split; vm_compute; reflexivity. Qed.

(** ** Witnesses *)

Definition calm : signals := request [specialist "mage" (dec 2 1)] PERMIT (dec 3 1) None.
Definition tense : signals := request [specialist "mage" (dec 7 1)] ABSTAIN (dec 5 1) None.

Lemma riskier_calm_tense : riskier calm tense.
Proof.
  split; try done; simpl.
  - by repeat constructor.
  - by repeat constructor.
  - lia.
Qed.

Lemma verdict_monotone_witness :
  riskier calm tense /\
  caution (determine_verdict DEFAULT_SELECTIVE_RISK_RULE calm (dec 2 1) (dec 9 1) policy [])
    <= caution (determine_verdict DEFAULT_SELECTIVE_RISK_RULE tense (dec 4 1) (dec 7 1) policy
                  ["borderline_fused_score"]).
Proof.
  split; [exact riskier_calm_tense|].
  apply verdict_monotone; [reflexivity|exact riskier_calm_tense|reflexivity|reflexivity|].
  apply list_subseteq_nil.
Defined.

Lemma permit_certifies_witness :
  let s := request [specialist "mage" (dec 2 1)] PERMIT (dec 3 1) (Some (agent "ACTIVE" true)) in
  routed s = Ok (get_Ok (Build_RoutingResult unit FORBID f_zero f_zero [] [] [] [] () false) (routed s))
  /\ Forall (fun r => ~ holds_back DEFAULT_SELECTIVE_RISK_RULE r) (specialist_bundle s)
  /\ free_agent DEFAULT_SELECTIVE_RISK_RULE (agent "ACTIVE" true).
Proof.
  intros s.
  assert (routed s = Ok (get_Ok (Build_RoutingResult unit FORBID f_zero f_zero [] [] [] [] () false)
                           (routed s))) as Hr by (vm_compute; reflexivity).
  destruct (permit_certifies DEFAULT_SELECTIVE_RISK_RULE build s policy "send_email" "email" "prod" _
              eq_refl ltac:(by repeat constructor) Hr ltac:(vm_compute; reflexivity))
    as (_ & _ & _ & _ & Hsp & Hag).
  split; [exact Hr|split; [exact Hsp|]]. apply Hag. reflexivity.
Defined.

Lemma override_flag_verdict_witness :
  let s := request [] FORBID (dec 95 2) (Some (agent "QUARANTINED" true)) in
  exists r, routed s = Ok r /\ override_fired r = true /\ verdict r = ABSTAIN.
Proof.
  intros s. set (d := Build_RoutingResult unit PERMIT f_zero f_zero [] [] [] [] () false).
  assert (routed s = Ok (get_Ok d (routed s))) as Hr by (vm_compute; reflexivity).
  exists (get_Ok d (routed s)).
  assert (override_fired (get_Ok d (routed s)) = true) as Ho by (vm_compute; reflexivity).
  split; [exact Hr|split; [exact Ho|]].
  exact (override_flag_verdict DEFAULT_SELECTIVE_RISK_RULE build s policy "send_email" "email" "prod"
           _ Hr Ho).
Defined.

Lemma absent_agent_ignored_witness :
  agent_present (agent "QUARANTINED" false) = false /\
  routed (Build_signals (gate false) [] (semantic PERMIT (dec 3 1)) (Some (agent "QUARANTINED" false)))
  = routed (Build_signals (gate false) [] (semantic PERMIT (dec 3 1)) None).
Proof. split; [reflexivity|]. apply absent_agent_ignored. reflexivity. Defined.

Lemma corroboration_lowers_bonus_witness :
  "argus" ∈ FRONTIER_SPECIALIST_NAMES /\ ~ paired "argus" "clawguard" /\
  fltb (total_bonus {["argus"; "clawguard"]}) (total_bonus {["argus"]}) = true.
Proof.
  assert ("argus" ∈ FRONTIER_SPECIALIST_NAMES) as Hf by (vm_compute; reflexivity).
  assert (~ paired "argus" "clawguard") as H1 by (apply (bool_decide_eq_false_1 _); reflexivity).
  assert (~ paired "clawguard" "argus") as H2 by (apply (bool_decide_eq_false_1 _); reflexivity).
  split; [exact Hf|split; [exact H1|]].
  apply corroboration_lowers_bonus; [exact Hf|discriminate|exact H1|exact H2].
Defined.

End RouterRuns.
