(* ===== verification/Gate.v ===== *)
(** * The decision point: the deterministic gate

    [DeterministicGate] of [tex/deterministic/gate.py]: the recognizers enabled
    by the policy are run, their findings deduplicated and sorted, and the
    request is blocked when a finding has a severity the policy blocks.  The
    recognizers are the gate's arguments; a scan may raise. *)
From Stdlib Require Import Sorting.Sorted.
From S2P Require Import Prelude PyStr PyFloat PyVal RouterDomain RouterFusion Router RouterSpec.
Import RouterDomain RouterFusion Router RouterSpec.
Open Scope string_scope.
Open Scope list_scope.
Open Scope nat_scope.

Module Gate.

(** [(rule_name, message, matched_text, start_index, end_index)]. *)
Definition dedupe_key (f : Finding) : string * string * option string * option nat * option nat :=
  (rule_name f, message f, matched_text f, start_index f, end_index f).

Fixpoint dedupe_findings_from (seen : list (string * string * option string * option nat * option nat))
    (l : list Finding) : list Finding :=
  match l with
  | [] => []
  | f :: l =>
      if decide (dedupe_key f ∈ seen) then dedupe_findings_from seen l
      else f :: dedupe_findings_from (dedupe_key f :: seen) l
  end.

(** The sort key: severity rank, position, rule. *)
Definition severity_rank (s : Severity) : nat :=
  match s with CRITICAL => 0 | WARNING => 1 | INFO => 2 end.
(** [start_index if start_index is not None else 10**9]. *)
Definition sort_position (f : Finding) : Z :=
  match start_index f with Some i => Z.of_nat i | None => 1000000000 end.
Definition key_ltb (f g : Finding) : bool :=
  (severity_rank (severity f) <? severity_rank (severity g))
  || (severity_rank (severity f) =? severity_rank (severity g))
     && ((sort_position f <? sort_position g)%Z
         || (sort_position f =? sort_position g)%Z && str_ltb (rule_name f) (rule_name g)).

(** [list.sort], which is stable. *)
Fixpoint insert_finding (f : Finding) (l : list Finding) : list Finding :=
  match l with
  | [] => [f]
  | g :: l' => if key_ltb g f then g :: insert_finding f l' else f :: l
  end.
Definition sort_findings (l : list Finding) : list Finding := foldr insert_finding [] l.

Definition dedupe_findings (l : list Finding) : list Finding :=
  sort_findings (dedupe_findings_from [] l).

Definition severity_value (s : Severity) : string :=
  match s with INFO => "INFO" | WARNING => "WARNING" | CRITICAL => "CRITICAL" end.
Definition blocks_severity (p : PolicySnapshot) (s : Severity) : bool :=
  bool_decide (s ∈ deterministic_block_severities p).
Definition compute_blocking_reasons (l : list Finding) (p : PolicySnapshot) : list string :=
  (fun f => rule_name f +:+ " produced " +:+ severity_value (severity f) +:+ " finding: "
            +:+ message f) <$> List.filter (fun f => blocks_severity p (severity f)) l.

Section Gate.
Context {Req E : Type}.

Record Recognizer := {
  name : string;
  scan : Req -> result E (list Finding)
}.

Definition enabled (p : PolicySnapshot) (r : Recognizer) : bool :=
  bool_decide (policy_recognizers p = []) || bool_decide (name r ∈ policy_recognizers p).

Definition evaluate (recognizers : list Recognizer) (request : Req) (p : PolicySnapshot)
    : result E DeterministicGateResult :=
  let executed := List.filter (enabled p) recognizers in
  found ← map_result (fun r => scan r request) executed;
  let fs := dedupe_findings (concat found) in
  let reasons := compute_blocking_reasons fs p in
  Ok {| findings := fs; enabled_recognizers := name <$> executed;
        blocked := bool_decide (reasons <> []); blocking_reasons := reasons |}.

(** The findings an enabled recognizer reports. *)
Definition reported (recognizers : list Recognizer) (request : Req) (p : PolicySnapshot)
    (f : Finding) : Prop :=
  exists r fs, r ∈ recognizers /\ enabled p r = true /\ scan r request = Ok fs /\ f ∈ fs.

Lemma dedupe_sound seen l f : f ∈ dedupe_findings_from seen l -> f ∈ l.
Proof.
  revert seen. induction l as [|g l IH]; intros seen; simpl; [done|].
  case_match; [|rewrite elem_of_cons]; rewrite elem_of_cons; naive_solver.
Qed.

Lemma dedupe_complete seen l f :
  f ∈ l -> dedupe_key f ∈ seen \/ exists g, g ∈ dedupe_findings_from seen l /\ dedupe_key g = dedupe_key f.
Proof.
  revert seen. induction l as [|g l IH]; intros seen; [by intros ?%elem_of_nil|].
  rewrite elem_of_cons. simpl. intros [->|Hf].
  - case_match; [by left|right]. exists g. split; [by left|done].
  - case_match; [by apply IH|]. destruct (IH (dedupe_key g :: seen) Hf) as [Hs|(h & ? & ?)].
    + apply elem_of_cons in Hs as [Hs|?]; [|by left]. right. exists g. split; [by left|done].
    + right. exists h. split; [by right|done].
Qed.

Lemma dedupe_NoDup seen l :
  NoDup (dedupe_key <$> dedupe_findings_from seen l) /\
  forall f, f ∈ dedupe_findings_from seen l -> dedupe_key f ∉ seen.
Proof.
  revert seen. induction l as [|g l IH]; intros seen; simpl; [split; [constructor|by intros ? ?%elem_of_nil]|].
  case_match; [apply IH|]. destruct (IH (dedupe_key g :: seen)) as [H1 H2].
  split.
  - simpl. apply list.NoDup_cons. split; [|done]. intros (f & Heq & Hf)%list_elem_of_fmap.
    apply (H2 f Hf). rewrite <- Heq. by left.
  - intros f [->|Hf]%elem_of_cons; [done|]. intros Hs. apply (H2 f Hf). by right.
Qed.

Lemma insert_perm f l : insert_finding f l ≡ₚ f :: l.
Proof.
  induction l as [|g l IH]; simpl; [done|]. case_match; [|done]. rewrite IH. apply perm_swap.
Qed.
Lemma sort_perm l : sort_findings l ≡ₚ l.
Proof. induction l as [|f l IH]; simpl; [done|]. by rewrite insert_perm, IH. Qed.

(** In key order: no finding is followed by one with a smaller key. *)
Definition finding_le (f g : Finding) : Prop := key_ltb g f = false.

Lemma key_ltb_asym f g : key_ltb f g = true -> key_ltb g f = false.
Proof.
  unfold key_ltb. rewrite orb_true_iff, orb_false_iff, !andb_true_iff, orb_true_iff, andb_true_iff.
  rewrite !Nat.ltb_lt, !Nat.eqb_eq, Z.ltb_lt, Z.eqb_eq, !andb_false_iff, orb_false_iff, andb_false_iff.
  rewrite Nat.ltb_ge, Nat.eqb_neq, Z.ltb_ge, Z.eqb_neq.
  intros [H|(H & [H'|(H' & Hs)])]; [split; [lia|left; lia]|split; [lia|right; split; [lia|left; lia]]|].
  split; [lia|right]. split; [lia|right]. apply not_true_iff_false. intros Hs'.
  pose proof (str_ltb_trans _ _ _ Hs Hs') as Hf. by rewrite str_ltb_irrefl in Hf.
Qed.

Lemma insert_finding_sorted f l : Sorted finding_le l -> Sorted finding_le (insert_finding f l).
Proof.
  induction 1 as [|g l Hs IH Hd]; simpl; [by repeat constructor|].
  case_match eqn:Hk; [|by repeat constructor].
  constructor; [done|]. destruct l as [|h l]; simpl; [constructor; by apply key_ltb_asym|].
  case_match; constructor; [by inversion Hd|by apply key_ltb_asym].
Qed.
Lemma sort_sorted l : Sorted finding_le (sort_findings l).
Proof. induction l; simpl; [constructor|by apply insert_finding_sorted]. Qed.

Lemma reported_concat recs req p found f :
  map_result (fun r => scan r req) (List.filter (enabled p) recs) = Ok found ->
  f ∈ concat found <-> reported recs req p f.
Proof.
  revert found. induction recs as [|r recs IH]; intros found; simpl.
  { intros [= <-]. split; [by intros ?%elem_of_nil|]. intros (? & ? & ?%elem_of_nil & _). done. }
  unfold reported. setoid_rewrite elem_of_cons. destruct (enabled p r) eqn:He; simpl; intros H.
  - inv_bind. simpl. rewrite elem_of_app, IH by done. split.
    + intros [Hf|(r' & fs & ? & ? & ? & ?)]; [exists r, x|exists r', fs]; auto 10.
    + intros (r' & fs & [->|?] & ? & Hs & Hf); [left; congruence|].
      right. exists r', fs. auto.
  - rewrite IH by done. split; intros (r' & fs & Hr & Hen & Hs & Hf).
    + exists r', fs. auto.
    + destruct Hr as [->|Hr]; [congruence|]. exists r', fs. auto.
Qed.

Lemma evaluate_spec recs req p r :
  evaluate recs req p = Ok r ->
  (forall f, f ∈ findings r -> reported recs req p f) /\
  (forall f, reported recs req p f -> exists g, g ∈ findings r /\ dedupe_key g = dedupe_key f) /\
  NoDup (dedupe_key <$> findings r) /\ Sorted finding_le (findings r) /\
  (blocked r = true <-> exists f, f ∈ findings r /\ severity f ∈ deterministic_block_severities p).
Proof.
  unfold evaluate. intros H. inv_bind. simpl. unfold dedupe_findings.
  match goal with H : map_result _ _ = Ok ?x |- _ => rename H into Hm, x into found end.
  split_and!.
  - intros f. rewrite sort_perm. intros Hf%dedupe_sound. by apply (reported_concat _ _ _ _ _ Hm).
  - intros f Hf. apply (reported_concat _ _ _ _ _ Hm) in Hf.
    destruct (dedupe_complete [] _ _ Hf) as [?%elem_of_nil|(g & ? & ?)]; [done|].
    exists g. by rewrite sort_perm.
  - rewrite sort_perm. apply dedupe_NoDup.
  - apply sort_sorted.
  - rewrite bool_decide_eq_true. unfold compute_blocking_reasons, blocks_severity.
    generalize (sort_findings (dedupe_findings_from [] (concat found))). intros l.
    induction l as [|f l IH]; simpl; [split; [done|intros (? & ?%elem_of_nil & _); done]|].
    setoid_rewrite elem_of_cons. case_bool_decide; simpl; [split; eauto; done|].
    rewrite IH. naive_solver.
Qed.

(** The structural floor, end to end: when findings reported twice agree on
    their severity, the gate blocks exactly when an enabled recognizer reports a
    finding of a severity the policy blocks; its findings are the reported ones
    up to duplicates, in key order; and no specialist, semantic or agent signal
    then makes the router return anything but FORBID. *)
Theorem gate_floor (recs : list Recognizer) (req : Req) (p : PolicySnapshot) r :
  evaluate recs req p = Ok r ->
  (forall f g, reported recs req p f -> reported recs req p g -> dedupe_key f = dedupe_key g ->
     severity f = severity g) ->
  Sorted finding_le (findings r) /\ NoDup (dedupe_key <$> findings r) /\
  (forall k, k ∈ (dedupe_key <$> findings r)
     <-> exists f, reported recs req p f /\ dedupe_key f = k) /\
  (blocked r = true <-> exists f, reported recs req p f /\
     severity f ∈ deterministic_block_severities p) /\
  (forall A rule (build : _ -> _ -> _ -> _ -> result exn A) b a g act ch env v,
     blocked r = true ->
     route rule build (Build_signals r b a g) p act ch env = Ok v -> verdict v = FORBID).
Proof.
  intros H Hsev. apply evaluate_spec in H as (Hs & Hc & Hn & Ho & Hb).
  split_and!; [done|done| | |].
  - intros k. rewrite list_elem_of_fmap. split.
    + intros (f & -> & Hf). eauto.
    + intros (f & Hf & <-). destruct (Hc f Hf) as (g & Hg & Hk). eauto.
  - rewrite Hb. split; [naive_solver|]. intros (f & Hf & Hfs).
    destruct (Hc f Hf) as (g & Hg & Hk). exists g. split; [done|].
    by rewrite (Hsev g f (Hs g Hg) Hf Hk).
  - intros A rule build b a g act ch env v Hbl Hr.
    apply route_inv in Hr as (? & ? & ? & _ & -> & _). unfold determine_verdict. simpl.
    by rewrite Hbl.
Qed.
End Gate.

(** ** A run *)

Definition finding (rule : string) (s : Severity) : Finding :=
  {| source := "deterministic"; rule_name := rule; severity := s; message := "matched";
     matched_text := Some "x"; start_index := Some 0; end_index := Some 1; f_metadata := [] |}.
Definition recognizer (n : string) (l : list Finding) : @Recognizer unit unit :=
  {| name := n; scan := fun _ => Ok l |}.
Definition recognizers : list (@Recognizer unit unit) :=
  [recognizer "pii" [finding "pii" WARNING; finding "pii" WARNING];
   recognizer "secrets" [finding "secrets" CRITICAL]].
Definition gate_policy : PolicySnapshot := {|
  permit_threshold := dec 34 2; forbid_threshold := dec 72 2; minimum_confidence := dec 62 2;
  deterministic_block_severities := [CRITICAL]; policy_recognizers := [];
  action_criticality := []; channel_criticality := []; environment_criticality := [];
  fusion_weights := default_fusion_weights
|}.

Example gate_run :
  (fun r => (rule_name <$> findings r, blocked r)) <$> evaluate recognizers () gate_policy
  = Ok (["secrets"; "pii"], true).
Proof. vm_compute. reflexivity. Qed.

(** Findings are deduplicated without their severity: a duplicate that blocks is
    dropped when a milder one came first. *)
Example milder_duplicate_wins :
  blocked <$> evaluate [recognizer "pii" [finding "pii" WARNING; finding "pii" CRITICAL]] () gate_policy
  = Ok false.
Proof. vm_compute. reflexivity. Qed.

Definition gate_result : DeterministicGateResult := {|
  findings := [finding "secrets" CRITICAL; finding "pii" WARNING];
  enabled_recognizers := ["pii"; "secrets"]; blocked := true;
  blocking_reasons := ["secrets produced CRITICAL finding: matched"] |}.

Lemma reported_run f :
  reported recognizers () gate_policy f -> f = finding "pii" WARNING \/ f = finding "secrets" CRITICAL.
Proof.
  intros (r & fs & Hr & _ & Hs & Hf). unfold recognizers in Hr.
  rewrite !elem_of_cons, elem_of_nil in Hr. destruct Hr as [->|[->|[]]]; simpl in Hs;
    injection Hs as <-; rewrite !elem_of_cons, elem_of_nil in Hf; naive_solver.
Qed.

Lemma gate_floor_witness :
  evaluate recognizers () gate_policy = Ok gate_result /\
  exists f, reported recognizers () gate_policy f /\ severity f ∈ [CRITICAL].
Proof.
  assert (evaluate recognizers () gate_policy = Ok gate_result) as H by (vm_compute; reflexivity).
  split; [exact H|].
  refine (proj1 (proj1 (proj2 (proj2 (proj2 (gate_floor recognizers () gate_policy gate_result H _)))))
            eq_refl).
  intros f g Hf Hg. apply reported_run in Hf, Hg.
  destruct Hf as [->| ->], Hg as [->| ->]; try reflexivity; discriminate.
Defined.

End Gate.
