(* ===== verification/PyBytes.v ===== *)
(** * Python [str] as code points, and [bytes]

    The interchange modules handle text with characters outside Latin-1 (the
    em dash of a signature line), so a [str] is here the list of its code
    points.  [bytes] is a list of [Byte.byte].  Modelled: [bytes.hex],
    [bytes.fromhex] (both cases, ASCII whitespace between the pairs),
    [int.to_bytes]/[int.from_bytes] in big-endian order, slices. *)
From Stdlib Require Import Init.Byte.
From S2P Require Import Prelude.
Open Scope N_scope.

Abbreviation byte := Init.Byte.byte.
Abbreviation bytes := (list byte).
Abbreviation ustr := (list N).

#[export] Instance byte_eq_decision : EqDecision byte := Byte.byte_eq_dec.

(** The code points of a literal. *)
Fixpoint u (s : string) : ustr :=
  match s with
  | EmptyString => []
  | String c s => N_of_ascii c :: u s
  end.

Definition byte_of (n : N) : byte :=
  match Byte.of_N (n mod 256) with Some b => b | None => x00 end.

Definition hexdigit (n : N) : N := if n <? 10 then 48 + n else 87 + n.

Definition hexval (c : N) : option N :=
  if (48 <=? c) && (c <=? 57) then Some (c - 48)
  else if (97 <=? c) && (c <=? 102) then Some (c - 87)
  else if (65 <=? c) && (c <=? 70) then Some (c - 55)
  else None.

(** [b.hex()] *)
Definition hex (b : bytes) : ustr :=
  b ≫= fun x => [hexdigit (Byte.to_N x / 16); hexdigit (Byte.to_N x mod 16)].

(** ASCII whitespace, which [bytes.fromhex] skips between two bytes. *)
Definition py_isspace (c : N) : bool := ((9 <=? c) && (c <=? 13)) || (c =? 32).

(** [bytes.fromhex(s)]; [None] is the [ValueError]. *)
Fixpoint fromhex (s : ustr) : option bytes :=
  match s with
  | [] => Some []
  | c :: r =>
      if py_isspace c then fromhex r
      else match hexval c, r with
           | Some hi, d :: r' =>
               match hexval d with
               | Some lo => cons (byte_of (16 * hi + lo)) <$> fromhex r'
               | None => None
               end
           | _, _ => None
           end
  end.

(** [int.from_bytes(b, "big")] and [n.to_bytes(len, "big")] *)
Definition from_be (b : bytes) : N := fold_left (fun a x => 256 * a + Byte.to_N x) b 0.
Fixpoint to_be (len : nat) (n : N) : bytes :=
  match len with
  | O => []
  | S len => to_be len (n / 256) ++ [byte_of n]
  end.

(** ** Lemmas *)

Lemma to_N_lt b : Byte.to_N b < 256.
Proof. pose proof (Byte.to_N_bounded b). lia. Qed.

Lemma byte_of_to_N b : byte_of (Byte.to_N b) = b.
Proof.
  unfold byte_of. rewrite N.mod_small by apply to_N_lt. by rewrite Byte.of_to_N.
Qed.

Lemma to_N_byte_of n : Byte.to_N (byte_of n) = n mod 256.
Proof.
  unfold byte_of. destruct (Byte.of_N (n mod 256)) as [b|] eqn:E.
  - by apply Byte.to_of_N.
  - apply Byte.of_N_None_iff in E. pose proof (N.mod_lt n 256). lia.
Qed.

Lemma to_N_inj a b : Byte.to_N a = Byte.to_N b -> a = b.
Proof. intros H. rewrite <- (byte_of_to_N a), <- (byte_of_to_N b). by rewrite H. Qed.

Lemma hex_cons x b :
  hex (x :: b) = [hexdigit (Byte.to_N x / 16); hexdigit (Byte.to_N x mod 16)] ++ hex b.
Proof. reflexivity. Qed.

Lemma fromhex_byte x r :
  fromhex (hexdigit (Byte.to_N x / 16) :: hexdigit (Byte.to_N x mod 16) :: r) = cons x <$> fromhex r.
Proof. destruct x; reflexivity. Qed.

Lemma fromhex_hex b : fromhex (hex b) = Some b.
Proof.
  induction b as [|x b IH]; [done|].
  rewrite hex_cons. cbn [app]. by rewrite fromhex_byte, IH.
Qed.

Lemma length_hex b : length (hex b) = (2 * length b)%nat.
Proof. induction b as [|x b IH]; [done|]. rewrite hex_cons, length_app, IH. simpl. lia. Qed.

Lemma hex_inj a b : hex a = hex b -> a = b.
Proof. intros H. apply (f_equal fromhex) in H. rewrite !fromhex_hex in H. congruence. Qed.

Lemma length_to_be len n : length (to_be len n) = len.
Proof. revert n. induction len as [|len IH]; intros n; [done|]. simpl. rewrite length_app, IH. simpl. lia. Qed.

Lemma from_be_app a x : from_be (a ++ [x]) = 256 * from_be a + Byte.to_N x.
Proof. unfold from_be. by rewrite fold_left_app. Qed.

Lemma from_to_be len n : n < 256 ^ N.of_nat len -> from_be (to_be len n) = n.
Proof.
  revert n. induction len as [|len IH]; intros n Hn; [cbn [N.of_nat] in Hn; rewrite N.pow_0_r in Hn; apply N.lt_1_r in Hn; by subst|].
  cbn [to_be]. rewrite from_be_app, to_N_byte_of, IH.
  - symmetry. apply N.div_mod. lia.
  - rewrite Nat2N.inj_succ, N.pow_succ_r' in Hn. by apply N.Div0.div_lt_upper_bound.
Qed.

(** * SHA-256

    [hashlib.sha256(m).digest()] as FIPS 180-4 defines it, on 32-bit words
    held as [N] with the wrap-around written out.  [Sha] is the interface the
    Merkle log is verified against: a digest of 32 bytes; [sha256_fips] is the
    standard's function as an instance of it. *)
Open Scope N_scope.

(** What the log relies on of a hash function. *)
Class Sha := {
  sha256 : bytes -> bytes;
  sha256_length : forall m, length (sha256 m) = 32%nat
}.

Definition wrap32 (x : N) : N := x mod 4294967296.
Definition add32 (x y : N) : N := wrap32 (x + y).
Definition rotr (k x : N) : N := N.lor (N.shiftr x k) (wrap32 (N.shiftl x (32 - k))).
Definition not32 (x : N) : N := N.lxor x 4294967295.

Definition Ch (x y z : N) : N := N.lxor (N.land x y) (N.land (not32 x) z).
Definition Maj (x y z : N) : N := N.lxor (N.land x y) (N.lxor (N.land x z) (N.land y z)).
Definition Sigma0 (x : N) : N := N.lxor (rotr 2 x) (N.lxor (rotr 13 x) (rotr 22 x)).
Definition Sigma1 (x : N) : N := N.lxor (rotr 6 x) (N.lxor (rotr 11 x) (rotr 25 x)).
Definition sigma0 (x : N) : N := N.lxor (rotr 7 x) (N.lxor (rotr 18 x) (N.shiftr x 3)).
Definition sigma1 (x : N) : N := N.lxor (rotr 17 x) (N.lxor (rotr 19 x) (N.shiftr x 10)).

(** The constants, as the standard obtains them: the first 32 bits of the
    fractional parts of the cube roots of the first 64 primes, and of the square
    roots of the first eight. *)
Definition is_prime (n : N) : bool :=
  forallb (fun d => negb (n mod N.of_nat d =? 0)) (seq 2 (N.to_nat (N.sqrt n) - 1)).
Definition primes : list N := Eval vm_compute in List.filter is_prime (N.of_nat <$> seq 2 310).

(** The largest [r] below [2 ^ bits] with [r * r * r <= n], bit by bit. *)
Fixpoint cube_root (bits : nat) (r n : N) : N :=
  match bits with
  | O => r
  | S bits =>
      let r' := r + 2 ^ N.of_nat bits in
      cube_root bits (if r' * r' * r' <=? n then r' else r) n
  end.

Definition K : list N :=
  Eval vm_compute in (fun p => wrap32 (cube_root 35 0 (p * 2 ^ 96))) <$> primes.

Record state := State { sa : N; sb : N; sc : N; sd : N; se : N; sf : N; sg : N; sh : N }.

Definition H0 : state :=
  Eval vm_compute in
    match (fun p => wrap32 (N.sqrt (p * 2 ^ 64))) <$> take 8 primes with
    | [a; b; c; d; e; f; g; h] => State a b c d e f g h
    | _ => State 0 0 0 0 0 0 0 0
    end.

Example constants_count : length primes = 64%nat /\ length K = 64%nat.
Proof. vm_compute. done. Qed.

(** The message is padded with a one bit, zeroes and its length in bits. *)
Definition pad (m : bytes) : bytes :=
  let l := N.of_nat (length m) in
  m ++ x80 :: replicate (N.to_nat ((119 - l mod 64) mod 64)) x00 ++ to_be 8 (8 * l).

Fixpoint words (b : bytes) : list N :=
  match b with
  | x :: y :: z :: w :: r => from_be [x; y; z; w] :: words r
  | _ => []
  end.

(** The message schedule, as a window of the last sixteen words: each round
    uses the head and appends the word the window determines. *)
Definition next_word (w : list N) : N :=
  add32 (add32 (sigma1 (nth 14 w 0)) (nth 9 w 0)) (add32 (sigma0 (nth 1 w 0)) (nth 0 w 0)).

Definition round (k w : N) (s : state) : state :=
  let t1 := add32 (add32 (sh s) (Sigma1 (se s))) (add32 (Ch (se s) (sf s) (sg s)) (add32 k w)) in
  let t2 := add32 (Sigma0 (sa s)) (Maj (sa s) (sb s) (sc s)) in
  State (add32 t1 t2) (sa s) (sb s) (sc s) (add32 (sd s) t1) (se s) (sf s) (sg s).

Fixpoint rounds (ks : list N) (w : list N) (s : state) : state :=
  match ks with
  | [] => s
  | k :: ks => rounds ks (tail w ++ [next_word w]) (round k (nth 0 w 0) s)
  end.

Definition compress (h : state) (w : list N) : state :=
  let s := rounds K w h in
  State (add32 (sa h) (sa s)) (add32 (sb h) (sb s)) (add32 (sc h) (sc s)) (add32 (sd h) (sd s))
        (add32 (se h) (se s)) (add32 (sf h) (sf s)) (add32 (sg h) (sg s)) (add32 (sh h) (sh s)).

Fixpoint blocks (n : nat) (h : state) (w : list N) : state :=
  match n with
  | O => h
  | S n => blocks n (compress h (take 16 w)) (drop 16 w)
  end.

Definition output (s : state) : bytes :=
  to_be 4 (sa s) ++ to_be 4 (sb s) ++ to_be 4 (sc s) ++ to_be 4 (sd s)
  ++ to_be 4 (se s) ++ to_be 4 (sf s) ++ to_be 4 (sg s) ++ to_be 4 (sh s).

Definition digest (m : bytes) : bytes :=
  let w := words (pad m) in
  output (blocks (Nat.div (length w) 16) H0 w).

Lemma digest_length m : length (digest m) = 32%nat.
Proof. unfold digest, output. by rewrite !length_app, !length_to_be. Qed.

Definition sha256_fips : Sha := {| sha256 := digest; sha256_length := digest_length |}.

(** The standard's test vectors for the empty message and for a message of one
    and of two blocks. *)
Example digest_empty :
  hex (digest []) = u "e3b0c44298fc1c149afbf4c8996fb92427ae41e4649b934ca495991b7852b855".
Proof. vm_compute. reflexivity. Qed.
Example digest_abc :
  hex (digest [x61; x62; x63]) = u "ba7816bf8f01cfea414140de5dae2223b00361a396177a9cb410ff61f20015ad".
Proof. vm_compute. reflexivity. Qed.
Example digest_two_blocks :
  hex (digest (byte_of <$> u "abcdbcdecdefdefgefghfghighijhijkijkljklmklmnlmnomnopnopq"))
  = u "248d6a61d20638b8e5c026930c3e6039a33ce45964ff2167f6ecedd419db06c1".
Proof. vm_compute. reflexivity. Qed.
