(* ===== verification/Merkle.v ===== *)
(** * The Merkle transparency log: tree hash, proofs and their verification

    Models [ecosystem/_window.py] (the RFC 9162 tree hash over record hashes)
    and the proof functions of [interchange/gix.py].  The hash function is the
    interface [Sha].  Sizes and indices are Python integers ([Z]); shifts and
    masks are the code's.  A [while] loop runs on fuel, [MerkleShape] shows the
    fuel given here is enough. *)
From Stdlib Require Import Init.Byte.
From S2P Require Import Prelude PyBytes.
Open Scope Z_scope.

Inductive exn := ValueError | IndexError | RecursionError | OverflowError | AssertionError.

Definition LEAF_PREFIX : bytes := [x00].
Definition INNER_PREFIX : bytes := [x01].

Definition len {A} (l : list A) : Z := Z.of_nat (length l).
(** [l[:k]] and [l[k:]] for [k >= 0] *)
Definition upto {A} (k : Z) (l : list A) : list A := take (Z.to_nat k) l.
Definition from {A} (k : Z) (l : list A) : list A := drop (Z.to_nat k) l.

(** [while (k << 1) < n: k <<= 1] *)
Fixpoint pow2_loop (fuel : nat) (k n : Z) : Z :=
  match fuel with
  | O => k
  | S fuel => if Z.shiftl k 1 <? n then pow2_loop fuel (Z.shiftl k 1) n else k
  end.
Definition largest_power_of_two_below (n : Z) : Z :=
  pow2_loop (Z.to_nat (Z.log2_up n)) 1 n.

Definition truthy_int (x : Z) : bool := negb (x =? 0).

Section Log.
Context `{Sha}.

(** ** [ecosystem/_window.py] *)

Definition empty_root : ustr := hex (sha256 []).

Definition fromhex_exn (s : ustr) : result exn bytes :=
  match fromhex s with Some b => Ok b | None => Err ValueError end.

Definition leaf_hash (record_hash_hex : ustr) : result exn ustr :=
  if negb (len record_hash_hex =? 64) then Err ValueError
  else record_bytes ← fromhex_exn record_hash_hex;
       Ok (hex (sha256 (LEAF_PREFIX ++ record_bytes))).

Fixpoint mth (fuel : nat) (leaves : list bytes) (lo hi : Z) : result exn bytes :=
  match fuel with
  | O => Err RecursionError
  | S fuel =>
      let n := hi - lo in
      if n =? 1 then
        match leaves !! Z.to_nat lo with Some x => Ok x | None => Err IndexError end
      else
        let k := pow2_loop (Z.to_nat (Z.log2_up n)) 1 n in
        left ← mth fuel leaves lo (lo + k);
        right ← mth fuel leaves (lo + k) hi;
        Ok (sha256 (INNER_PREFIX ++ left ++ right))
  end.

Definition leaf_of (h : ustr) : result exn bytes := x ← leaf_hash h; fromhex_exn x.

Definition merkle_root (record_hashes_hex : list ustr) : result exn ustr :=
  if len record_hashes_hex =? 0 then Ok empty_root
  else leaves ← map_result leaf_of record_hashes_hex;
       hex <$> mth (length leaves) leaves 0 (len leaves).

(** ** [interchange/gix.py]: generation of the proofs *)

Fixpoint inclusion_path_rec (fuel : nat) (leaf_index : Z) (d : list ustr)
    : result exn (list ustr) :=
  match fuel with
  | O => Err RecursionError
  | S fuel =>
      let n := len d in
      if n =? 0 then Err ValueError
      else if negb ((0 <=? leaf_index) && (leaf_index <? n)) then Err ValueError
      else if n =? 1 then Ok []
      else
        let k := largest_power_of_two_below n in
        if leaf_index <? k then
          p ← inclusion_path_rec fuel leaf_index (upto k d);
          r ← merkle_root (from k d);
          Ok (p ++ [r])
        else
          p ← inclusion_path_rec fuel (leaf_index - k) (from k d);
          r ← merkle_root (upto k d);
          Ok (p ++ [r])
  end.
Definition inclusion_path (leaf_index : Z) (d : list ustr) : result exn (list ustr) :=
  inclusion_path_rec (S (length d)) leaf_index d.

Fixpoint subproof (fuel : nat) (m : Z) (d : list ustr) (b : bool) : result exn (list ustr) :=
  match fuel with
  | O => Err RecursionError
  | S fuel =>
      let n := len d in
      if m =? n then if b then Ok [] else (r ← merkle_root d; Ok [r])
      else
        let k := largest_power_of_two_below n in
        if m <=? k then
          p ← subproof fuel m (upto k d) b;
          r ← merkle_root (from k d);
          Ok (p ++ [r])
        else
          p ← subproof fuel (m - k) (from k d) false;
          r ← merkle_root (upto k d);
          Ok (p ++ [r])
  end.
Definition consistency_path (first_size : Z) (d : list ustr) : result exn (list ustr) :=
  let n := len d in
  if negb ((0 <? first_size) && (first_size <=? n)) then Err ValueError
  else if first_size =? n then Ok []
  else subproof (S (length d)) first_size d true.

(** ** Verification *)

Definition node (left right : bytes) : bytes := sha256 (INNER_PREFIX ++ left ++ right).

Fixpoint decode_hash_list (items : list ustr) : option (list bytes) :=
  match items with
  | [] => Some []
  | item :: items =>
      match fromhex item with
      | None => None
      | Some raw => if negb (len raw =? 32) then None else cons raw <$> decode_hash_list items
      end
  end.

(** [while fn != 0 and not (fn & 1): fn >>= 1; sn >>= 1] *)
Fixpoint skip_even (fuel : nat) (fn sn : Z) : Z * Z :=
  match fuel with
  | O => (fn, sn)
  | S fuel =>
      if negb (fn =? 0) && negb (truthy_int (Z.land fn 1))
      then skip_even fuel (Z.shiftr fn 1) (Z.shiftr sn 1) else (fn, sn)
  end.
(** [while fn & 1: fn >>= 1; sn >>= 1] *)
Fixpoint skip_odd (fuel : nat) (fn sn : Z) : Z * Z :=
  match fuel with
  | O => (fn, sn)
  | S fuel =>
      if truthy_int (Z.land fn 1)
      then skip_odd fuel (Z.shiftr fn 1) (Z.shiftr sn 1) else (fn, sn)
  end.
Definition bits_of (n : Z) : nat := Z.to_nat (Z.log2 n + 1).

(** The loop of [verify_inclusion]; [None] is its [return False]. *)
Fixpoint inclusion_loop (path : list bytes) (fn sn : Z) (r : bytes) : option (Z * bytes) :=
  match path with
  | [] => Some (sn, r)
  | p :: path =>
      if sn =? 0 then None
      else
        let '(fn, sn, r) :=
          if truthy_int (Z.land fn 1) || (fn =? sn) then
            let r := node p r in
            if negb (truthy_int (Z.land fn 1)) then
              let '(fn, sn) := skip_even (bits_of fn) fn sn in (fn, sn, r)
            else (fn, sn, r)
          else (fn, sn, node r p) in
        inclusion_loop path (Z.shiftr fn 1) (Z.shiftr sn 1) r
  end.

Definition verify_inclusion (record_hash_hex : ustr) (leaf_index tree_size : Z)
    (proof_hex : list ustr) (root_hex : ustr) : bool :=
  if (leaf_index <? 0) || (tree_size <? 1) || (tree_size <=? leaf_index) then false
  else
    match leaf_of record_hash_hex with
    | Err _ => false
    | Ok r =>
        match decode_hash_list [root_hex], decode_hash_list proof_hex with
        | Some (expected_root :: _), Some path =>
            match inclusion_loop path leaf_index (tree_size - 1) r with
            | None => false
            | Some (sn, r) => (sn =? 0) && bool_decide (r = expected_root)
            end
        | _, _ => false
        end
    end.

(** The loop of [verify_consistency], carrying the two running roots. *)
Fixpoint consistency_loop (path : list bytes) (fn sn : Z) (fr sr : bytes)
    : option (Z * bytes * bytes) :=
  match path with
  | [] => Some (sn, fr, sr)
  | c :: path =>
      if sn =? 0 then None
      else
        let '(fn, sn, fr, sr) :=
          if truthy_int (Z.land fn 1) || (fn =? sn) then
            let fr := node c fr in
            let sr := node c sr in
            if negb (truthy_int (Z.land fn 1)) then
              let '(fn, sn) := skip_even (bits_of fn) fn sn in (fn, sn, fr, sr)
            else (fn, sn, fr, sr)
          else (fn, sn, fr, node sr c) in
        consistency_loop path (Z.shiftr fn 1) (Z.shiftr sn 1) fr sr
  end.

Definition verify_consistency (first_size : Z) (first_root_hex : ustr)
    (second_size : Z) (second_root_hex : ustr) (proof_hex : list ustr) : bool :=
  if (first_size <? 0) || (second_size <? first_size) then false
  else
    match decode_hash_list [first_root_hex; second_root_hex] with
    | Some [first_root; second_root] =>
        if first_size =? 0 then
          (len proof_hex =? 0) && bool_decide (hex first_root = empty_root)
        else if first_size =? second_size then
          (len proof_hex =? 0) && bool_decide (first_root = second_root)
        else
          match decode_hash_list proof_hex with
          | None | Some [] => false
          | Some path =>
              let path := if Z.land first_size (first_size - 1) =? 0
                          then first_root :: path else path in
              let '(fn, sn) := skip_odd (bits_of (first_size - 1)) (first_size - 1) (second_size - 1) in
              match path with
              | [] => false
              | p0 :: rest =>
                  match consistency_loop rest fn sn p0 p0 with
                  | None => false
                  | Some (sn, fr, sr) =>
                      bool_decide (fr = first_root) && bool_decide (sr = second_root) && (sn =? 0)
                  end
              end
          end
    | _ => false
    end.
End Log.
