(* ===== verification/MerkleShape.v ===== *)
(** * The shape of an audit path

    The verifiers of the log never see the tree: they walk the binary digits
    of an index and of the last index.  [levels] lists, from the leaf to the
    root, on which side the sibling of each level stands; [walk_levels] shows
    that both verification loops follow it (the inner [while] loop skips the
    levels that have no sibling), and the lemmas on powers of two relate the
    walk of a subtree to that of the tree it is a child of. *)
From S2P Require Import Prelude PyBytes Merkle.
Open Scope Z_scope.

(** ** Powers of two and single bits *)

Definition pow2 (t : nat) : Z := 2 ^ Z.of_nat t.

Lemma pow2_0 : pow2 0 = 1.
Proof. reflexivity. Qed.
Lemma pow2_S t : pow2 (S t) = 2 * pow2 t.
Proof. unfold pow2. by rewrite Nat2Z.inj_succ, Z.pow_succ_r by lia. Qed.
Lemma pow2_pos t : 0 < pow2 t.
Proof. apply Z.pow_pos_nonneg; lia. Qed.
Lemma pow2_mono a b : (a <= b)%nat -> pow2 a <= pow2 b.
Proof. intros. apply Z.pow_le_mono_r; lia. Qed.

(** The power of two that splits a size is unique. *)
Lemma pow2_split_unique a b x y :
  pow2 a + x = pow2 b + y -> 0 < x <= pow2 a -> 0 < y <= pow2 b -> pow2 a = pow2 b.
Proof.
  intros E Hx Hy. destruct (Nat.lt_trichotomy a b) as [Hab|[->|Hab]]; [exfalso|done|exfalso].
  - pose proof (pow2_mono (S a) b Hab). rewrite pow2_S in *. lia.
  - pose proof (pow2_mono (S b) a Hab). rewrite pow2_S in *. lia.
Qed.

Lemma truthy_land x : truthy_int (Z.land x 1) = Z.odd x.
Proof.
  unfold truthy_int. change 1 with (Z.ones 1). rewrite Z.land_ones by lia.
  rewrite Zmod_odd. by destruct (Z.odd x).
Qed.
Lemma shiftr_1 x : Z.shiftr x 1 = x / 2.
Proof. by rewrite Z.shiftr_div_pow2 by lia. Qed.
Lemma shiftl_1 x : Z.shiftl x 1 = 2 * x.
Proof. rewrite Z.shiftl_mul_pow2 by lia. lia. Qed.

(** Turns parity tests into equations [lia] understands. *)
Ltac parity :=
  rewrite ?Zodd_mod in *; rewrite ?Z.eqb_eq, ?Z.eqb_neq in *; Z.div_mod_to_equations; lia.

Lemma pow2_loop_spec fuel t n :
  pow2 t < n <= pow2 (t + fuel) ->
  exists e, pow2_loop fuel (pow2 t) n = pow2 e /\ pow2 e < n <= 2 * pow2 e.
Proof.
  revert t. induction fuel as [|fuel IH]; intros t Hn; simpl.
  - rewrite Nat.add_0_r in Hn. lia.
  - rewrite shiftl_1, <- pow2_S. destruct (Z.ltb_spec (pow2 (S t)) n).
    + apply IH. rewrite Nat.add_succ_r in Hn. by split; [|apply Hn].
    + exists t. rewrite pow2_S in *. lia.
Qed.

Lemma largest_power_of_two_below_pow2 n :
  2 <= n -> exists e, largest_power_of_two_below n = pow2 e /\ pow2 e < n <= 2 * pow2 e.
Proof.
  intros Hn. apply (pow2_loop_spec _ 0). change (pow2 0) with 1. split; [lia|].
  unfold pow2. simpl. rewrite Z2Nat.id by apply Z.log2_up_nonneg.
  by apply Z.log2_log2_up_spec; lia.
Qed.

Lemma largest_power_of_two_below_unique n e :
  pow2 e < n <= 2 * pow2 e -> largest_power_of_two_below n = pow2 e.
Proof.
  intros Hn. pose proof (pow2_pos e).
  destruct (largest_power_of_two_below_pow2 n) as (e' & -> & Hn'); [lia|].
  apply (pow2_split_unique e' e (n - pow2 e') (n - pow2 e)); lia.
Qed.

(** ** Levels *)

Inductive side := L | R.

Fixpoint levels (t : nat) (fn sn : Z) : list side :=
  match t with
  | O => []
  | S t =>
      if sn =? 0 then []
      else (if Z.odd fn then [L] else if fn =? sn then [] else [R]) ++ levels t (fn / 2) (sn / 2)
  end.

(** The levels above the run of right children a prefix ends with. *)
Fixpoint slevels (t : nat) (fn sn : Z) : list side :=
  match t with
  | O => []
  | S t => if Z.odd fn then slevels t (fn / 2) (sn / 2) else levels (S t) fn sn
  end.

Lemma levels_zero t f : levels t f 0 = [].
Proof. by destruct t. Qed.

Lemma levels_S t f s :
  levels (S t) f s = if s =? 0 then []
    else (if Z.odd f then [L] else if f =? s then [] else [R]) ++ levels t (f / 2) (s / 2).
Proof. reflexivity. Qed.

Lemma levels_fuel t t' f s :
  (t <= t')%nat -> 0 <= s < pow2 t -> levels t' f s = levels t f s.
Proof.
  revert t' f s. induction t as [|t IH]; intros t' f s Ht Hs.
  - replace s with 0 by (rewrite pow2_0 in Hs; lia). by rewrite levels_zero.
  - destruct t' as [|t']; [lia|]. cbn [levels]. case_match; [done|].
    f_equal. apply IH; [lia|]. rewrite pow2_S in Hs. Z.div_mod_to_equations; lia.
Qed.

Lemma slevels_fuel t t' f s :
  (t <= t')%nat -> 0 <= f <= s -> s < pow2 t -> slevels t' f s = slevels t f s.
Proof.
  revert t' f s. induction t as [|t IH]; intros t' f s Ht Hf Hs.
  - rewrite pow2_0 in Hs. assert (f = 0) as -> by lia. assert (s = 0) as -> by lia. by destruct t'.
  - destruct t' as [|t']; [lia|]. cbn [slevels]. destruct (Z.odd f).
    + rewrite pow2_S in Hs. apply IH; [lia| |]; Z.div_mod_to_equations; lia.
    + apply levels_fuel; [lia|]. lia.
Qed.

Lemma length_levels t f s : (length (levels t f s) <= t)%nat.
Proof.
  revert f s. induction t as [|t IH]; intros f s; [done|]. cbn [levels].
  case_match; simpl; [lia|]. rewrite length_app. specialize (IH (f / 2) (s / 2)).
  repeat case_match; simpl; lia.
Qed.

Lemma length_slevels t f s : (length (slevels t f s) <= t)%nat.
Proof.
  revert f s. induction t as [|t IH]; intros f s; [done|]. cbn [slevels].
  case_match; [specialize (IH (f / 2) (s / 2)); lia|apply length_levels].
Qed.

Lemma odd_double_plus e f : Z.odd (2 * e + f) = Z.odd f.
Proof. rewrite Z.add_comm. apply Z.odd_add_mul_2. Qed.

(** An index in the left, complete, subtree. *)
Lemma levels_left t f s :
  0 <= f < pow2 t -> 0 <= s < pow2 t ->
  levels (S t) f (pow2 t + s) = levels t f (pow2 t - 1) ++ [R].
Proof.
  revert f s. induction t as [|t IH]; intros f s Hf Hs.
  - rewrite pow2_0 in *. replace f with 0 by lia. by replace s with 0 by lia.
  - rewrite pow2_S in *. pose proof (pow2_pos t).
    rewrite (levels_S (S t)), (levels_S t _ (2 * pow2 t - 1)), !(proj2 (Z.eqb_neq _ 0)) by lia.
    rewrite (proj2 (Z.eqb_neq f (2 * pow2 t + s))) by lia.
    replace ((2 * pow2 t + s) / 2) with (pow2 t + s / 2) by (Z.div_mod_to_equations; lia).
    replace ((2 * pow2 t - 1) / 2) with (pow2 t - 1) by (Z.div_mod_to_equations; lia).
    rewrite IH by (Z.div_mod_to_equations; lia).
    rewrite app_assoc. f_equal. f_equal. destruct (Z.odd f) eqn:E; [done|].
    rewrite (proj2 (Z.eqb_neq _ _)); [done|]. parity.
Qed.

(** An index in the right subtree. *)
Lemma levels_right t f s :
  0 <= f <= s -> s < pow2 t ->
  levels (S t) (pow2 t + f) (pow2 t + s) = levels t f s ++ [L].
Proof.
  revert f s. induction t as [|t IH]; intros f s Hf Hs.
  - rewrite pow2_0 in *. replace f with 0 by lia. by replace s with 0 by lia.
  - pose proof (pow2_pos t). rewrite pow2_S in *.
    assert (levels (S (S t)) (2 * pow2 t + f) (2 * pow2 t + s)
            = (if Z.odd f then [L] else if f =? s then [] else [R])
              ++ levels (S t) (pow2 t + f / 2) (pow2 t + s / 2)) as ->.
    { remember (S t) as t'. cbn [levels]. rewrite (proj2 (Z.eqb_neq _ 0)) by lia.
      rewrite odd_double_plus. f_equal.
      - destruct (Z.odd f); [done|].
        destruct (Z.eqb_spec f s), (Z.eqb_spec (2 * pow2 t + f) (2 * pow2 t + s)); done || lia.
      - f_equal; Z.div_mod_to_equations; lia. }
    rewrite IH by (Z.div_mod_to_equations; lia). cbn [levels].
    destruct (Z.eqb_spec s 0) as [->|Hs0]; [|by rewrite app_assoc].
    assert (f = 0) as -> by lia. by rewrite levels_zero.
Qed.

Lemma slevels_left t f s :
  0 <= f < pow2 t - 1 -> 0 <= s < pow2 t ->
  slevels (S t) f (pow2 t + s) = slevels t f (pow2 t - 1) ++ [R].
Proof.
  revert f s. induction t as [|t IH]; intros f s Hf Hs; [rewrite pow2_0 in *; lia|].
  destruct (Z.odd f) eqn:E.
  - remember (S t) as t'. cbn [slevels]. rewrite E. subst t'.
    cbn [slevels]. rewrite E. rewrite pow2_S in *.
    replace ((2 * pow2 t + s) / 2) with (pow2 t + s / 2) by (Z.div_mod_to_equations; lia).
    replace ((2 * pow2 t - 1) / 2) with (pow2 t - 1) by (Z.div_mod_to_equations; lia).
    apply IH; [parity|]. Z.div_mod_to_equations; lia.
  - remember (S t) as t'. cbn [slevels]. rewrite E. subst t'. cbn [slevels]. rewrite E.
    apply levels_left; lia.
Qed.

Lemma slevels_whole t s :
  0 <= s < pow2 t -> slevels (S t) (pow2 t - 1) (pow2 t + s) = [R].
Proof.
  revert s. induction t as [|t IH]; intros s Hs.
  - rewrite pow2_0 in *. by replace s with 0 by lia.
  - remember (S t) as t'. cbn [slevels]. subst t'. rewrite pow2_S in *.
    replace (Z.odd (2 * pow2 t - 1)) with true
      by (symmetry; rewrite Zodd_mod, Z.eqb_eq; Z.div_mod_to_equations; lia).
    replace ((2 * pow2 t + s) / 2) with (pow2 t + s / 2) by (Z.div_mod_to_equations; lia).
    replace ((2 * pow2 t - 1) / 2) with (pow2 t - 1) by (Z.div_mod_to_equations; lia).
    apply IH. Z.div_mod_to_equations; lia.
Qed.

Lemma slevels_right t f s :
  0 <= f < s -> s < pow2 t ->
  slevels (S t) (pow2 t + f) (pow2 t + s) = slevels t f s ++ [L].
Proof.
  revert f s. induction t as [|t IH]; intros f s Hf Hs; [rewrite pow2_0 in *; lia|].
  remember (S t) as t'. cbn [slevels]. subst t'. rewrite pow2_S, odd_double_plus.
  rewrite pow2_S in Hs. destruct (Z.odd f) eqn:E; cbn [slevels]; rewrite E.
  - replace ((2 * pow2 t + s) / 2) with (pow2 t + s / 2) by (Z.div_mod_to_equations; lia).
    replace ((2 * pow2 t + f) / 2) with (pow2 t + f / 2) by (Z.div_mod_to_equations; lia).
    apply IH; parity.
  - rewrite <- !pow2_S. apply levels_right; rewrite ?pow2_S; lia.
Qed.

(** ** The loops *)

Lemma bits_of_half f : 2 <= f -> bits_of f = S (bits_of (f / 2)).
Proof.
  intros Hf. unfold bits_of. rewrite <- Z.div2_div.
  pose proof (Z.log2_nonneg (Z.div2 f)).
  enough (Z.log2 f = Z.succ (Z.log2 (Z.div2 f))) as -> by lia.
  rewrite (Zdiv2_odd_eqn f) at 1.
  assert (0 < Z.div2 f) by (rewrite Z.div2_div; Z.div_mod_to_equations; lia).
  destruct (Z.odd f); [by apply Z.log2_succ_double|].
  rewrite Z.add_0_r. by apply Z.log2_double.
Qed.

Lemma skip_even_odd fuel f s : Z.odd f = true -> skip_even fuel f s = (f, s).
Proof. intros E. destruct fuel; [done|]. simpl. rewrite truthy_land, E. by destruct (f =? 0). Qed.

Lemma skip_even_step f s :
  Z.odd f = false -> 2 <= f ->
  skip_even (bits_of f) f s = skip_even (bits_of (f / 2)) (f / 2) (s / 2).
Proof.
  intros E Hf. rewrite bits_of_half by done. cbn [skip_even].
  rewrite truthy_land, E, !shiftr_1, (proj2 (Z.eqb_neq f 0)) by lia. done.
Qed.

(** Both loops are one walk with an action for a sibling on either side. *)
Section Walk.
Context {A : Type} (onL onR : bytes -> A -> A).

Fixpoint walk (path : list bytes) (fn sn : Z) (a : A) : option (Z * A) :=
  match path with
  | [] => Some (sn, a)
  | p :: path =>
      if sn =? 0 then None
      else
        let '(fn, sn, a) :=
          if Z.odd fn || (fn =? sn) then
            if negb (Z.odd fn) then
              let '(fn, sn) := skip_even (bits_of fn) fn sn in (fn, sn, onL p a)
            else (fn, sn, onL p a)
          else (fn, sn, onR p a) in
        walk path (fn / 2) (sn / 2) a
  end.

Definition act (x : side * bytes) (a : A) : A :=
  match x with (L, p) => onL p a | (R, p) => onR p a end.
Definition climb (l : list (side * bytes)) (a : A) : A := fold_left (fun a x => act x a) l a.

Lemma climb_snoc l x a : climb (l ++ [x]) a = act x (climb l a).
Proof. unfold climb. by rewrite fold_left_app. Qed.

(** A level without a sibling is skipped. *)
Lemma walk_skip p path f a :
  Z.odd f = false -> 2 <= f -> walk (p :: path) f f a = walk (p :: path) (f / 2) (f / 2) a.
Proof.
  intros E Hf. cbn [walk]. rewrite E, !Z.eqb_refl, !orb_true_r.
  rewrite !(proj2 (Z.eqb_neq _ 0)) by (Z.div_mod_to_equations; lia).
  rewrite (skip_even_step f f) by done.
  destruct (Z.odd (f / 2)) eqn:E2; simpl; [|done]. by rewrite skip_even_odd.
Qed.

Lemma walk_levels t path f s a a' :
  0 <= f <= s -> s < pow2 t ->
  walk path f s a = Some (0, a') <->
  length path = length (levels t f s) /\ a' = climb (zip (levels t f s) path) a.
Proof.
  revert path f s a. induction t as [|t IH]; intros path f s a Hf Hs.
  - rewrite pow2_0 in Hs. assert (f = 0) as -> by lia. assert (s = 0) as -> by lia.
    destruct path; simpl; naive_solver.
  - rewrite pow2_S in Hs. rewrite levels_S. destruct (Z.eqb_spec s 0) as [->|Hs0].
    { destruct path; simpl; naive_solver. }
    assert (0 <= f / 2 <= s / 2) as Hf2 by (Z.div_mod_to_equations; lia).
    assert (s / 2 < pow2 t) as Hs2 by (Z.div_mod_to_equations; lia).
    destruct (decide (Z.odd f = false /\ f = s)) as [[E ->]|Hne].
    + rewrite E, Z.eqb_refl. cbn [app].
      assert (2 <= s) by parity.
      rewrite <- IH by done. destruct path as [|p path]; [|by rewrite walk_skip].
      simpl. split; intros [= ? ?]; exfalso; Z.div_mod_to_equations; lia.
    + assert (exists d, (if Z.odd f then [L] else if f =? s then [] else [R]) = [d]
        /\ forall p path, walk (p :: path) f s a = walk path (f / 2) (s / 2) (act (d, p) a)) as (d & -> & Hw).
      { cbn [walk]. rewrite (proj2 (Z.eqb_neq s 0)) by done.
        destruct (Z.odd f) eqn:E; [by exists L|]. exists R.
        destruct (Z.eqb_spec f s) as [->|]; [naive_solver|]. done. }
      destruct path as [|p path]; [simpl; split; [intros [= ]; lia|naive_solver]|].
      rewrite Hw, IH by done. simpl. split; intros [? ?]; split; (lia || done).
Qed.
End Walk.

Lemma skip_odd_slevels t f s :
  0 <= f <= s -> s < pow2 t ->
  exists f' s', skip_odd (bits_of f) f s = (f', s') /\ 0 <= f' <= s' /\ s' < pow2 t
    /\ levels t f' s' = slevels t f s.
Proof.
  revert f s. induction t as [|t IH]; intros f s Hf Hs.
  - rewrite pow2_0 in Hs. assert (f = 0) as -> by lia. by exists 0, s.
  - destruct (Z.odd f) eqn:E.
    + rewrite pow2_S in Hs.
      destruct (IH (f / 2) (s / 2)) as (f' & s' & Hk & Hf' & Hs' & Hl); [Z.div_mod_to_equations; lia..|].
      exists f', s'. cbn [slevels]. rewrite E, <- Hl. split; [|split; [done|split]].
      * destruct (decide (f = 1)) as [->|].
        -- rewrite <- Hk. change (bits_of 1) with 1%nat. cbn [skip_odd]. by rewrite truthy_land, !shiftr_1.
        -- rewrite bits_of_half by parity. cbn [skip_odd]. by rewrite truthy_land, E, !shiftr_1.
      * rewrite pow2_S. pose proof (pow2_pos t). lia.
      * apply levels_fuel; lia.
    + exists f, s. cbn [slevels]. rewrite E.
      destruct (bits_of f); cbn [skip_odd]; rewrite ?truthy_land, ?E; done.
Qed.

Section Loops.
Context `{Sha}.

Lemma inclusion_loop_walk path f s r :
  inclusion_loop path f s r = walk node (fun p r => node r p) path f s r.
Proof.
  revert f s r. induction path as [|p path IH]; intros f s r; [done|].
  cbn [inclusion_loop walk]. rewrite truthy_land. case_match; [done|].
  destruct (Z.odd f || (f =? s)); [destruct (negb (Z.odd f))|]; [|by rewrite !shiftr_1..].
  destruct (skip_even (bits_of f) f s). by rewrite !shiftr_1.
Qed.

Definition both_left (c : bytes) (a : bytes * bytes) : bytes * bytes := (node c a.1, node c a.2).
Definition second_right (c : bytes) (a : bytes * bytes) : bytes * bytes := (a.1, node a.2 c).

Lemma consistency_loop_walk path f s fr sr :
  consistency_loop path f s fr sr
  = (fun '(s, (fr, sr)) => (s, fr, sr)) <$> walk both_left second_right path f s (fr, sr).
Proof.
  revert f s fr sr. induction path as [|p path IH]; intros f s fr sr; [done|].
  cbn [consistency_loop walk]. rewrite truthy_land. case_match; [done|].
  destruct (Z.odd f || (f =? s)); [destruct (negb (Z.odd f))|]; [|by rewrite !shiftr_1..].
  destruct (skip_even (bits_of f) f s). by rewrite !shiftr_1.
Qed.
End Loops.
