(* ===== verification/MerkleTree.v ===== *)
(** * Merkle trees: audit paths, climbing back to the root, prefixes

    The tree the log never materialises.  [balanced] is the RFC 9162 shape:
    the left child is complete, with as many leaves as a power of two, and at
    least as many as the right child.  A direction list leads from the root to
    a subtree; [climb_sub] recomputes the root from the subtree and the
    siblings, and [climb_inv] shows that, without a collision among the
    strings hashed, nothing else recomputes it. *)
From Stdlib Require Import Init.Byte.
From S2P Require Import Prelude PyBytes Merkle MerkleShape.
Open Scope Z_scope.

Inductive tree := Leaf (x : bytes) | Node (l r : tree).

Fixpoint size (t : tree) : Z :=
  match t with Leaf _ => 1 | Node l r => size l + size r end.
Fixpoint flatten (t : tree) : list bytes :=
  match t with Leaf x => [x] | Node l r => flatten l ++ flatten r end.
Fixpoint balanced (t : tree) : Prop :=
  match t with
  | Leaf _ => True
  | Node l r => (exists e, size l = pow2 e) /\ size r <= size l /\ balanced l /\ balanced r
  end.

(** The tree over a list of leaves, by the split the code uses. *)
Fixpoint build (fuel : nat) (l : list bytes) : tree :=
  match fuel with
  | O => Leaf []
  | S fuel =>
      match l with
      | [] => Leaf []
      | [x] => Leaf x
      | _ => let k := largest_power_of_two_below (len l) in
             Node (build fuel (upto k l)) (build fuel (from k l))
      end
  end.
Definition tree_of (l : list bytes) : tree := build (length l) l.

Lemma size_pos t : 1 <= size t.
Proof. induction t; simpl; lia. Qed.
Lemma size_flatten t : len (flatten t) = size t.
Proof. induction t; simpl; [done|]. unfold len in *. rewrite length_app. lia. Qed.

Lemma len_upto {A} k (l : list A) : 0 <= k <= len l -> len (upto k l) = k.
Proof. unfold len, upto. intros. rewrite length_take. lia. Qed.
Lemma len_from {A} k (l : list A) : 0 <= k <= len l -> len (from k l) = len l - k.
Proof. unfold len, from. intros. rewrite length_drop. lia. Qed.

Lemma build_spec fuel l :
  (length l <= fuel)%nat -> l <> [] ->
  flatten (build fuel l) = l /\ balanced (build fuel l).
Proof.
  revert l. induction fuel as [|fuel IH]; intros l Hl Hne; [by destruct l; simpl in *; [|lia]|].
  destruct l as [|x [|y l]]; [done|done|]. set (d := x :: y :: l) in *.
  change (build (S fuel) d) with
    (let k := largest_power_of_two_below (len d) in
     Node (build fuel (upto k d)) (build fuel (from k d))). cbv zeta.
  destruct (largest_power_of_two_below_pow2 (len d)) as (e & -> & He); [unfold len, d; simpl; lia|].
  pose proof (pow2_pos e). pose proof (len_upto (pow2 e) d). pose proof (len_from (pow2 e) d).
  assert (forall a : list bytes, 0 < len a -> len a < len d ->
    flatten (build fuel a) = a /\ balanced (build fuel a)) as Hsub.
  { intros a Ha1 Ha2. apply IH; [unfold len in *; lia|]. by intros ->. }
  destruct (Hsub (upto (pow2 e) d)) as [F1 B1]; [lia..|].
  destruct (Hsub (from (pow2 e) d)) as [F2 B2]; [lia..|].
  cbn [flatten balanced]. rewrite F1, F2, <- !size_flatten, F1, F2.
  split; [apply take_drop|]. split; [exists e; lia|]. split; [lia|done].
Qed.

Lemma flatten_tree_of l : l <> [] -> flatten (tree_of l) = l.
Proof. intros. by apply build_spec. Qed.
Lemma balanced_tree_of l : l <> [] -> balanced (tree_of l).
Proof. intros. by apply build_spec. Qed.

(** Two balanced trees over the same leaves are the same tree. *)
Lemma node_split_sizes l r l' r' :
  balanced (Node l r) -> balanced (Node l' r') -> size (Node l r) = size (Node l' r') ->
  size l = size l' /\ size r = size r'.
Proof.
  intros ([e He] & Hr & _) ([e' He'] & Hr' & _) Hs. simpl in Hs.
  pose proof (size_pos r). pose proof (size_pos r').
  assert (pow2 e = pow2 e') by (apply (pow2_split_unique e e' (size r) (size r')); lia). lia.
Qed.

Lemma balanced_unique t t' :
  balanced t -> balanced t' -> flatten t = flatten t' -> t = t'.
Proof.
  revert t'. induction t as [x|l IHl r IHr]; intros t' B B' F.
  - destruct t' as [y|l' r']; [by simplify_eq/=|].
    apply (f_equal len) in F. rewrite !size_flatten in F. simpl in F.
    pose proof (size_pos l'). pose proof (size_pos r'). lia.
  - destruct t' as [y|l' r'].
    { apply (f_equal len) in F. rewrite !size_flatten in F. simpl in F.
      pose proof (size_pos l). pose proof (size_pos r). lia. }
    destruct (node_split_sizes l r l' r' B B') as [Hl _];
      [by apply (f_equal len) in F; rewrite !size_flatten in F|].
    destruct B as (_ & _ & Bl & Br), B' as (_ & _ & Bl' & Br').
    rewrite <- !size_flatten in Hl. unfold len in Hl. cbn [flatten] in F.
    apply app_inj_1 in F as [F1 F2]; [|lia].
    by rewrite (IHl l'), (IHr r').
Qed.

Lemma tree_of_flatten t : balanced t -> tree_of (flatten t) = t.
Proof.
  intros B. assert (flatten t <> []) as Hne.
  { intros E. apply (f_equal len) in E. rewrite size_flatten in E.
    pose proof (size_pos t). unfold len in E. simpl in E. lia. }
  apply balanced_unique; [by apply balanced_tree_of|done|by apply flatten_tree_of].
Qed.

(** ** Directions, from the root down *)

Fixpoint dirs (i : Z) (t : tree) : list side :=
  match t with
  | Leaf _ => []
  | Node l r => if i <? size l then R :: dirs i l else L :: dirs (i - size l) r
  end.

(** To the last complete subtree of the prefix of [m] leaves. *)
Fixpoint cdirs (m : Z) (t : tree) : list side :=
  match t with
  | Leaf _ => []
  | Node l r =>
      if m =? size l then [R]
      else if m <? size l then R :: cdirs m l else L :: cdirs (m - size l) r
  end.

Fixpoint sub (ds : list side) (t : tree) : option tree :=
  match ds, t with
  | [], _ => Some t
  | L :: ds, Node _ r => sub ds r
  | R :: ds, Node l _ => sub ds l
  | _, Leaf _ => None
  end.

Fixpoint prefix (m : Z) (t : tree) : tree :=
  match t with
  | Leaf x => Leaf x
  | Node l r =>
      if m =? size l then l
      else if m <? size l then prefix m l else Node l (prefix (m - size l) r)
  end.

Lemma dirs_levels t T i :
  balanced t -> 0 <= i < size t -> size t <= pow2 T ->
  rev (dirs i t) = levels T i (size t - 1).
Proof.
  revert T i. induction t as [x|l IHl r IHr]; intros T i B Hi HT; cbn [dirs size] in *.
  - by rewrite levels_zero.
  - destruct B as ([e He] & Hr & Bl & Br). rewrite He in *. pose proof (size_pos r).
    assert (S e <= T)%nat as HST.
    { destruct (le_lt_dec (S e) T); [done|]. pose proof (pow2_mono T e). lia. }
    rewrite (levels_fuel (S e)) by (rewrite ?pow2_S; lia).
    destruct (Z.ltb_spec i (pow2 e)); cbn [rev].
    + rewrite (IHl e) by (done || lia). replace (pow2 e + size r - 1) with (pow2 e + (size r - 1)) by lia.
      by rewrite levels_left by lia.
    + rewrite (IHr e) by (done || lia).
      replace (pow2 e + size r - 1) with (pow2 e + (size r - 1)) by lia.
      replace i with (pow2 e + (i - pow2 e)) at 2 by lia.
      by rewrite levels_right by lia.
Qed.

Lemma cdirs_levels t T m :
  balanced t -> 0 < m < size t -> size t <= pow2 T ->
  rev (cdirs m t) = slevels T (m - 1) (size t - 1).
Proof.
  revert T m. induction t as [x|l IHl r IHr]; intros T m B Hm HT; cbn [cdirs size] in *; [lia|].
  destruct B as ([e He] & Hr & Bl & Br). rewrite He in *. pose proof (size_pos r).
  assert (S e <= T)%nat as HST.
  { destruct (le_lt_dec (S e) T); [done|]. pose proof (pow2_mono T e). lia. }
  rewrite (slevels_fuel (S e)) by (rewrite ?pow2_S; lia).
  replace (pow2 e + size r - 1) with (pow2 e + (size r - 1)) by lia.
  destruct (Z.eqb_spec m (pow2 e)) as [->|]; [|destruct (Z.ltb_spec m (pow2 e))]; cbn [rev].
  - by rewrite slevels_whole by lia.
  - rewrite (IHl e) by (done || lia). by rewrite slevels_left by lia.
  - rewrite (IHr e) by (done || lia).
    replace (m - 1) with (pow2 e + (m - pow2 e - 1)) by lia.
    by rewrite slevels_right by lia.
Qed.

Lemma dirs_sub t i x :
  0 <= i -> flatten t !! Z.to_nat i = Some x -> sub (dirs i t) t = Some (Leaf x).
Proof.
  revert i. induction t as [y|l IHl r IHr]; intros i Hi Hx; cbn [dirs sub flatten] in *.
  - apply list_lookup_singleton_Some in Hx as [_ ->]. done.
  - pose proof (size_flatten l) as Hs. unfold len in Hs. destruct (Z.ltb_spec i (size l)).
    + apply IHl; [done|]. rewrite lookup_app_l in Hx by lia. done.
    + apply IHr; [lia|]. rewrite lookup_app_r in Hx by lia.
      by replace (Z.to_nat (i - size l)) with (Z.to_nat i - length (flatten l))%nat by lia.
Qed.

Lemma cdirs_sub t m :
  balanced t -> 0 < m < size t -> exists t', sub (cdirs m t) t = Some t'.
Proof.
  revert m. induction t as [y|l IHl r IHr]; intros m B Hm; cbn [cdirs sub size] in *; [lia|].
  destruct B as (_ & _ & Bl & Br).
  repeat case_match; simplify_eq; cbn [sub]; rewrite ?Z.eqb_neq, ?Z.ltb_lt, ?Z.ltb_ge in *;
    [by eexists|apply IHl; [done|lia]|apply IHr; [done|lia]].
Qed.

Lemma prefix_spec t m :
  balanced t -> 0 < m < size t ->
  flatten (prefix m t) = upto m (flatten t) /\ balanced (prefix m t).
Proof.
  revert m. induction t as [y|l IHl r IHr]; intros m B Hm; cbn [prefix flatten size] in *; [lia|].
  destruct B as ([e He] & Hr & Bl & Br).
  pose proof (size_flatten l) as Sl. unfold upto, len in *.
  destruct (Z.eqb_spec m (size l)) as [->|]; [|destruct (Z.ltb_spec m (size l))].
  - rewrite take_app_le by lia. split; [|done]. by rewrite take_ge by lia.
  - rewrite take_app_le by lia. apply IHl; [done|lia].
  - destruct (IHr (m - size l)) as [F Bp]; [done|lia|]. cbn [flatten balanced].
    assert (size (prefix (m - size l) r) = m - size l) as Hsz.
    { rewrite <- size_flatten, F. unfold len. rewrite length_take.
      pose proof (size_flatten r) as Sr. unfold len in Sr. lia. }
    split; [|by rewrite Hsz; eauto with lia].
    rewrite F, take_app_ge by lia. f_equal. f_equal. lia.
Qed.

(** ** Hashes *)

Section Hashes.
Context `{Sha}.

Fixpoint root (t : tree) : bytes :=
  match t with Leaf x => x | Node l r => node (root l) (root r) end.

(** The roots of the siblings along a direction list. *)
Fixpoint auth (ds : list side) (t : tree) : list bytes :=
  match ds, t with
  | L :: ds, Node l r => root l :: auth ds r
  | R :: ds, Node l r => root r :: auth ds l
  | _, _ => []
  end.

Definition climbS : list (side * bytes) -> bytes -> bytes := climb node (fun p r => node r p).
Definition climbF : list (side * bytes) -> bytes -> bytes := climb node (fun _ r => r).

(** The strings a tree, or a climb, feeds to the hash. *)
Fixpoint inputs (t : tree) : list bytes :=
  match t with
  | Leaf _ => []
  | Node l r => (INNER_PREFIX ++ root l ++ root r) :: inputs l ++ inputs r
  end.
Definition step_input (x : side * bytes) (r : bytes) : bytes :=
  match x with (L, p) => INNER_PREFIX ++ p ++ r | (R, p) => INNER_PREFIX ++ r ++ p end.
Fixpoint queries (l : list (side * bytes)) (r : bytes) : list bytes :=
  match l with
  | [] => []
  | x :: l => step_input x r :: queries l (sha256 (step_input x r))
  end.
Fixpoint queriesF (l : list (side * bytes)) (r : bytes) : list bytes :=
  match l with
  | [] => []
  | (L, p) :: l => step_input (L, p) r :: queriesF l (node p r)
  | (R, _) :: l => queriesF l r
  end.

(** No two different strings of a list have the same digest. *)
Definition collision_free (S : list bytes) : Prop :=
  forall x y, x ∈ S -> y ∈ S -> sha256 x = sha256 y -> x = y.

Lemma collision_free_mono S S' : S' ⊆ S -> collision_free S -> collision_free S'.
Proof. intros Hs Hc x y Hx Hy. apply Hc; by apply Hs. Qed.

Definition words32 (l : list bytes) : Prop := Forall (fun x => length x = 32%nat) l.

Lemma length_root t : words32 (flatten t) -> length (root t) = 32%nat.
Proof.
  destruct t as [x|l r]; simpl; intros Hw; [by inversion Hw|apply sha256_length].
Qed.

Lemma climb_pair l a b : climb both_left second_right l (a, b) = (climbF l a, climbS l b).
Proof.
  revert a b. induction l as [|[[] p] l IH]; intros a b; [done|..]; apply IH.
Qed.

Lemma length_climbS l r : length r = 32%nat -> length (climbS l r) = 32%nat.
Proof.
  revert r. induction l as [|[[] p] l IH]; intros r Hr; [done|..]; apply IH, sha256_length.
Qed.

Lemma climbS_snoc l x r : climbS (l ++ [x]) r = sha256 (step_input x (climbS l r)).
Proof. unfold climbS. rewrite climb_snoc. by destruct x as [[] p]. Qed.

Lemma queries_snoc l x r : queries (l ++ [x]) r = queries l r ++ [step_input x (climbS l r)].
Proof.
  revert r. induction l as [|y l IH]; intros r; [done|]. cbn [app queries]. rewrite IH. cbn [app].
  do 3 f_equal. by destruct y as [[] p].
Qed.

Lemma queriesF_snoc l d p r :
  queriesF (l ++ [(d, p)]) r
  = queriesF l r ++ match d with L => [step_input (L, p) (climbF l r)] | R => [] end.
Proof.
  revert r. induction l as [|[[] q] l IH]; intros r; [by destruct d|..]; cbn [app queriesF];
    rewrite IH; done.
Qed.

Lemma zip_snoc {A B} (l : list A) (k : list B) a b :
  length l = length k -> zip (l ++ [a]) (k ++ [b]) = zip l k ++ [(a, b)].
Proof. intros. by rewrite zip_with_app. Qed.

Lemma length_auth ds t t' : sub ds t = Some t' -> length (auth ds t) = length ds.
Proof.
  revert t. induction ds as [|d ds IH]; intros t Hs; [done|].
  destruct d, t as [|l r]; try done; simpl in *; by rewrite IH.
Qed.

Lemma words32_auth ds t t' : sub ds t = Some t' -> words32 (flatten t) -> words32 (auth ds t).
Proof.
  revert t. induction ds as [|d ds IH]; intros t Hs Hw; [constructor|].
  destruct d, t as [|l r]; try done; cbn [sub auth flatten] in *;
    apply Forall_app in Hw as [Hl Hr]; apply list.Forall_cons; (split; [by apply length_root|by apply IH]).
Qed.

Lemma words32_sub ds t t' : sub ds t = Some t' -> words32 (flatten t) -> words32 (flatten t').
Proof.
  revert t. induction ds as [|d ds IH]; intros t Hs Hw; [by simplify_eq/=|].
  destruct d, t as [|l r]; try done; cbn [sub flatten] in *;
    apply Forall_app in Hw as [Hl Hr]; by apply IH in Hs.
Qed.

(** A subtree and its siblings recompute the root. *)
Lemma climb_sub ds t t' :
  sub ds t = Some t' -> climbS (zip (rev ds) (rev (auth ds t))) (root t') = root t.
Proof.
  revert t. induction ds as [|d ds IH]; intros t Hs; [by simplify_eq/=|].
  destruct d, t as [|l r]; try done; cbn [sub auth rev] in *;
    rewrite zip_snoc by (rewrite !length_rev; erewrite length_auth by done; done);
    rewrite climbS_snoc, IH by done; done.
Qed.

(** The siblings on the left recompute the root of the prefix. *)
Lemma climbF_prefix m t t' :
  sub (cdirs m t) t = Some t' ->
  (exists l r, t = Node l r) ->
  climbF (zip (rev (cdirs m t)) (rev (auth (cdirs m t) t))) (root t') = root (prefix m t).
Proof.
  revert m. induction t as [y|l IHl r IHr]; intros m Hs Hn; [naive_solver|].
  cbn [cdirs prefix] in *. clear Hn.
  destruct (m =? size l); [|destruct (m <? size l)]; cbn [sub auth rev] in *.
  - by simplify_eq.
  - rewrite zip_snoc by (rewrite !length_rev; erewrite length_auth by done; done).
    unfold climbF. rewrite climb_snoc. fold climbF. cbn [act].
    destruct l as [z|l1 l2]; [cbn in *; by simplify_eq|]. apply IHl; eauto.
  - rewrite zip_snoc by (rewrite !length_rev; erewrite length_auth by done; done).
    unfold climbF. rewrite climb_snoc. fold climbF. cbn [act root].
    destruct r as [z|r1 r2]; [cbn in *; by simplify_eq|]. f_equal. apply IHr; eauto.
Qed.

Lemma input_inj a b a' b' :
  length a = length a' -> INNER_PREFIX ++ a ++ b = INNER_PREFIX ++ a' ++ b' -> a = a' /\ b = b'.
Proof. intros Hl [= E]. by apply app_inj_1. Qed.

Lemma snoc_of_length {A} (l : list A) n : length l = S n -> exists k x, l = k ++ [x] /\ length k = n.
Proof.
  intros Hl. destruct l as [|x k _] using rev_ind; [done|].
  exists k, x. split; [done|]. rewrite length_app in Hl. simpl in Hl. lia.
Qed.

(** Nothing but the subtree's root and the siblings' recomputes the root. *)
Lemma climb_inv ds t t' path r :
  sub ds t = Some t' -> words32 (flatten t) -> words32 path -> length r = 32%nat ->
  length path = length ds ->
  collision_free (inputs t ++ queries (zip (rev ds) path) r) ->
  climbS (zip (rev ds) path) r = root t ->
  r = root t' /\ path = rev (auth ds t).
Proof.
  revert t path. induction ds as [|d ds IH]; intros t path Hs Hw Hp Hr Hl Hc E.
  { destruct path; [|done]. by simplify_eq/=. }
  destruct t as [|a b]; [by destruct d|].
  apply snoc_of_length in Hl as (q & p & -> & Hq).
  apply Forall_app in Hp as [Hp1 Hp2]. apply list.Forall_cons in Hp2 as [Hp2 _].
  cbn [flatten] in Hw. apply Forall_app in Hw as [Hwa Hwb].
  pose proof (length_root a Hwa) as La. pose proof (length_root b Hwb) as Lb.
  cbn [rev] in *. rewrite zip_snoc in * by (rewrite length_rev; done).
  rewrite queries_snoc in Hc. rewrite climbS_snoc in E. cbn [root] in E.
  pose proof (length_climbS (zip (rev ds) q) r Hr) as Lc.
  apply Hc in E; [|set_solver..].
  destruct d; cbn [step_input sub auth rev] in *; apply input_inj in E as [E1 E2]; [|lia| |lia].
  - destruct (IH b q) as [-> ->]; try done; [|by rewrite E1].
    eapply collision_free_mono; [|exact Hc]. set_solver.
  - destruct (IH a q) as [-> ->]; try done; [|by rewrite E2].
    eapply collision_free_mono; [|exact Hc]. set_solver.
Qed.

(** The root determines the tree among those of its size. *)
Lemma root_inj t t' :
  balanced t -> balanced t' -> size t = size t' ->
  words32 (flatten t) -> words32 (flatten t') ->
  collision_free (inputs t ++ inputs t') -> root t = root t' -> t = t'.
Proof.
  revert t'. induction t as [x|a IHa b IHb]; intros t' B B' Hs Hw Hw' Hc E.
  - destruct t' as [y|l' r']; [by simplify_eq/=|]. simpl in Hs.
    pose proof (size_pos l'). pose proof (size_pos r'). lia.
  - destruct t' as [y|a' b'].
    { simpl in Hs. pose proof (size_pos a). pose proof (size_pos b). lia. }
    destruct (node_split_sizes a b a' b' B B' Hs) as [Ha Hb].
    destruct B as (_ & _ & Ba & Bb), B' as (_ & _ & Ba' & Bb').
    cbn [flatten inputs root] in *.
    apply Forall_app in Hw as [Hwa Hwb]. apply Forall_app in Hw' as [Hwa' Hwb'].
    apply Hc in E; [|set_solver..].
    apply input_inj in E as [E1 E2]; [|by rewrite !length_root].
    f_equal; [apply IHa|apply IHb]; try done; eapply collision_free_mono; [|done| |done]; set_solver.
Qed.

(** What a prefix hashes was hashed by the tree or by the climb. *)
Lemma inputs_prefix m t t' :
  sub (cdirs m t) t = Some t' -> (exists l r, t = Node l r) ->
  inputs (prefix m t)
  ⊆ inputs t ++ queriesF (zip (rev (cdirs m t)) (rev (auth (cdirs m t) t))) (root t').
Proof.
  revert m. induction t as [y|l IHl r IHr]; intros m Hs Hn; [naive_solver|]. clear Hn.
  cbn [cdirs prefix] in *.
  destruct (m =? size l); [|destruct (m <? size l)]; cbn [sub auth rev inputs] in *.
  - set_solver.
  - rewrite zip_snoc by (rewrite !length_rev; erewrite length_auth by done; done).
    rewrite queriesF_snoc, app_nil_r. destruct l as [z|l1 l2]; [cbn in *; set_solver|].
    specialize (IHl m Hs ltac:(eauto)). set_solver.
  - rewrite zip_snoc by (rewrite !length_rev; erewrite length_auth by done; done).
    rewrite queriesF_snoc. destruct r as [z|r1 r2].
    { cbn in *. simplify_eq. set_solver. }
    rewrite climbF_prefix by eauto. specialize (IHr (m - size l) Hs ltac:(eauto)).
    cbn [step_input]. set_solver.
Qed.
End Hashes.

(** Collision-freeness of a concrete list, by evaluation: the digests of its
    distinct elements are distinct. *)
Lemma collision_free_check `{Sha} (S : list bytes) :
  bool_decide (NoDup (sha256 <$> remove_dups S)) = true -> collision_free S.
Proof.
  rewrite bool_decide_eq_true. intros Hn x y Hx Hy.
  apply (NoDup_fmap_inj sha256 (remove_dups S)); [done|by apply elem_of_remove_dups..].
Qed.

(** * Correctness of the transparency log

    The index-walking tree hash and the proof generators of the code are
    related to [MerkleTree]; then: the verifiers accept the generated proofs,
    and, unless the digests of two different strings that were actually hashed
    coincide, they accept nothing else. *)
Open Scope Z_scope.

Section Link.
Context `{Sha}.

(** ** Leaves and hash lists *)

Definition is_leaf (h : ustr) (x : bytes) : Prop := leaf_of h = Ok x.

Lemma leaf_of_Ok h x :
  leaf_of h = Ok x <-> len h = 64 /\ exists b, fromhex h = Some b /\ x = sha256 (LEAF_PREFIX ++ b).
Proof.
  unfold leaf_of, leaf_hash, fromhex_exn. destruct (Z.eqb_spec (len h) 64); simpl; [|naive_solver].
  destruct (fromhex h) as [b|]; simpl; [|naive_solver]. rewrite fromhex_hex. naive_solver.
Qed.

Lemma leaf_of_Err h e : leaf_of h = Err e -> e = ValueError.
Proof.
  unfold leaf_of, leaf_hash, fromhex_exn. destruct (Z.eqb_spec (len h) 64); simpl; [|naive_solver].
  destruct (fromhex h) as [b|]; simpl; [|naive_solver]. by rewrite fromhex_hex.
Qed.

Lemma is_leaf_32 hs ls : Forall2 is_leaf hs ls -> words32 ls.
Proof.
  induction 1 as [|h x hs ls Hx _ IH]; constructor; [|done].
  apply leaf_of_Ok in Hx as (_ & b & _ & ->). apply sha256_length.
Qed.

Lemma is_leaf_upto hs ls k : Forall2 is_leaf hs ls -> Forall2 is_leaf (upto k hs) (upto k ls).
Proof. apply Forall2_take. Qed.
Lemma is_leaf_from hs ls k : Forall2 is_leaf hs ls -> Forall2 is_leaf (from k hs) (from k ls).
Proof. apply Forall2_drop. Qed.
Lemma is_leaf_len hs ls : Forall2 is_leaf hs ls -> len hs = len ls.
Proof. intros Hl. unfold len. f_equal. by eapply Forall2_length. Qed.

Lemma decode_hex l : words32 l -> decode_hash_list (hex <$> l) = Some l.
Proof.
  induction 1 as [|x l Hx _ IH]; [done|]. cbn [fmap list_fmap decode_hash_list].
  rewrite fromhex_hex. unfold len. by rewrite Hx, IH.
Qed.

Lemma decode_words32 items l : decode_hash_list items = Some l -> words32 l /\ length items = length l.
Proof.
  revert l. induction items as [|s items IH]; intros l; simpl.
  - intros [= <-]. split; [constructor|done].
  - destruct (fromhex s) as [b|]; [|done]. destruct (Z.eqb_spec (len b) 32) as [E|]; [|done]. simpl.
    destruct (decode_hash_list items) as [l'|]; [|done]. simpl. intros [= <-].
    destruct (IH l' eq_refl) as [Hw ->]. split; [|done]. constructor; [unfold len in E; lia|done].
Qed.

(** ** The tree hash *)

Lemma mth_tree t leaves fuel lo :
  balanced t -> 0 <= lo -> flatten t = upto (size t) (from lo leaves) ->
  (Z.to_nat (size t) <= fuel)%nat ->
  mth fuel leaves lo (lo + size t) = Ok (root t).
Proof.
  revert fuel lo. induction t as [x|l IHl r IHr]; intros fuel lo B Hlo F Hf.
  - destruct fuel as [|fuel]; [simpl in Hf; lia|]. cbn [mth size].
    replace (lo + 1 - lo) with 1 by lia. simpl. unfold upto, from in F. simpl in F.
    destruct (leaves !! Z.to_nat lo) as [y|] eqn:E.
    + erewrite drop_S in F by done. by simplify_eq/=.
    + apply lookup_ge_None in E. by rewrite drop_ge in F by done.
  - pose proof (size_pos l). pose proof (size_pos r). cbn [size] in *.
    destruct fuel as [|fuel]; [lia|]. cbn [mth].
    replace (lo + (size l + size r) - lo) with (size l + size r) by lia.
    rewrite (proj2 (Z.eqb_neq _ 1)) by lia.
    change (pow2_loop (Z.to_nat (Z.log2_up (size l + size r))) 1 (size l + size r))
      with (largest_power_of_two_below (size l + size r)).
    destruct B as ([e He] & Hr & Bl & Br).
    rewrite (largest_power_of_two_below_unique _ e), <- He by lia.
    unfold upto, from in *. cbn [flatten] in F.
    pose proof (size_flatten l) as Sl. pose proof (size_flatten r) as Sr. unfold len in *.
    assert (flatten l = take (Z.to_nat (size l)) (drop (Z.to_nat lo) leaves)) as Fl.
    { apply (f_equal (take (Z.to_nat (size l)))) in F. rewrite take_take, take_app_le in F by lia.
      rewrite take_ge in F by lia. rewrite F. f_equal. lia. }
    assert (flatten r = take (Z.to_nat (size r)) (drop (Z.to_nat (lo + size l)) leaves)) as Fr.
    { apply (f_equal (drop (Z.to_nat (size l)))) in F. rewrite skipn_firstn_comm, drop_drop in F.
      rewrite drop_app_ge in F by lia.
      replace (Z.to_nat (size l) - length (flatten l))%nat with 0%nat in F by lia.
      rewrite drop_0 in F. rewrite F. f_equal; [lia|]. f_equal. lia. }
    rewrite IHl by (done || lia). simpl. rewrite Z.add_assoc, IHr by (done || lia). done.
Qed.

Lemma merkle_root_leaves hs ls :
  Forall2 is_leaf hs ls -> hs <> [] -> merkle_root hs = Ok (hex (root (tree_of ls))).
Proof.
  intros Hl Hne. unfold merkle_root.
  assert (ls <> []) as Hne' by (destruct Hl; done).
  destruct (Z.eqb_spec (len hs) 0) as [E|_]; [destruct hs; [done|unfold len in E; simpl in E; lia]|].
  pose proof (flatten_tree_of ls Hne') as F. pose proof (size_flatten (tree_of ls)) as Sz.
  rewrite F in Sz. apply map_result_Ok in Hl as ->. simpl.
  change (len ls) with (0 + len ls). rewrite Sz, mth_tree; [done|by apply balanced_tree_of|done|..].
  - unfold upto, from, len in *. rewrite F. simpl. by rewrite drop_0, take_ge by lia.
  - unfold len in Sz. lia.
Qed.

Lemma merkle_root_tree hs t :
  Forall2 is_leaf hs (flatten t) -> balanced t -> merkle_root hs = Ok (hex (root t)).
Proof.
  intros Hl B. rewrite (merkle_root_leaves hs (flatten t)), tree_of_flatten; [done..|].
  intros ->. apply is_leaf_len in Hl. rewrite size_flatten in Hl.
  pose proof (size_pos t). unfold len in Hl. simpl in Hl. lia.
Qed.

Lemma merkle_root_Ok hs r :
  merkle_root hs = Ok r -> hs <> [] ->
  exists ls, Forall2 is_leaf hs ls /\ ls <> [] /\ r = hex (root (tree_of ls)).
Proof.
  intros Hr Hne. pose proof Hr as Hr'. unfold merkle_root in Hr'.
  destruct (Z.eqb_spec (len hs) 0) as [E|_]; [destruct hs; [done|unfold len in E; simpl in E; lia]|].
  apply result_bind_Ok in Hr' as (ls & Hls & _). apply map_result_Ok in Hls.
  exists ls. split; [done|]. rewrite (merkle_root_leaves hs ls) in Hr by done.
  split; [by destruct Hls|congruence].
Qed.

(** ** Generation *)

Lemma node_leaves hs l r k :
  Forall2 is_leaf hs (flatten (Node l r)) -> k = size l ->
  Forall2 is_leaf (upto k hs) (flatten l) /\ Forall2 is_leaf (from k hs) (flatten r).
Proof.
  intros Hl ->. cbn [flatten] in Hl. pose proof (size_flatten l) as Sl. unfold len in Sl.
  pose proof (is_leaf_upto _ _ (size l) Hl) as H1. pose proof (is_leaf_from _ _ (size l) Hl) as H2.
  unfold upto, from in *. rewrite take_app_length' in H1 by lia.
  by rewrite drop_app_length' in H2 by lia.
Qed.

Lemma leaves_size hs t : Forall2 is_leaf hs (flatten t) -> len hs = size t.
Proof. intros Hl. by rewrite (is_leaf_len _ _ Hl), size_flatten. Qed.

Lemma inclusion_path_tree t hs i fuel :
  balanced t -> Forall2 is_leaf hs (flatten t) -> 0 <= i < size t ->
  (Z.to_nat (size t) <= fuel)%nat ->
  inclusion_path_rec fuel i hs = Ok (hex <$> rev (auth (dirs i t) t)).
Proof.
  revert hs i fuel. induction t as [x|l IHl r IHr]; intros hs i fuel B Hl Hi Hf;
    (destruct fuel as [|fuel]; [cbn [size] in *; pose proof (size_pos (Leaf [])); lia|]);
    cbn [inclusion_path_rec]; rewrite (leaves_size _ _ Hl).
  - cbn [size] in *. replace i with 0 by lia. done.
  - destruct B as ([e He] & Hr & Bl & Br). pose proof (size_pos l). pose proof (size_pos r).
    rewrite (proj2 (Z.leb_le 0 i)), (proj2 (Z.ltb_lt i _)) by lia. cbn [size] in *.
    rewrite !(proj2 (Z.eqb_neq _ _)) by lia.
    cbn [andb negb]. rewrite (largest_power_of_two_below_unique _ e), <- He by lia.
    destruct (node_leaves hs l r (size l) Hl eq_refl) as [Hu Hd]. cbn [dirs].
    destruct (Z.ltb_spec i (size l)); cbn [auth rev].
    + rewrite (IHl _ i) by (done || lia). simpl. rewrite (merkle_root_tree _ r) by done. simpl.
      by rewrite fmap_app.
    + rewrite (IHr _ (i - size l)) by (done || lia). simpl. rewrite (merkle_root_tree _ l) by done.
      simpl. by rewrite fmap_app.
Qed.

(** Whether a direction list never turns right: the prefix is then a complete
    subtree and the proof leaves its root out. *)
Definition all_left (ds : list side) : bool := forallb (fun d => match d with R => true | L => false end) ds.

Lemma climbF_all_left ds path r :
  all_left ds = true -> climbF (zip (rev ds) path) r = r.
Proof.
  unfold all_left. rewrite forallb_forall. intros Ha.
  assert (forall d, d ∈ rev ds -> d = R) as Hd.
  { intros d Hin. rewrite list_elem_of_In, <- in_rev in Hin. apply Ha in Hin. by destruct d. }
  clear Ha. revert path Hd. generalize (rev ds) as es. clear ds.
  induction es as [|d es IH]; intros path Hd; [done|]. destruct path as [|p path]; [done|].
  assert (d = R) as -> by (apply Hd; set_solver). apply IH. intros. apply Hd. set_solver.
Qed.

Lemma subproof_tree t t' hs m fuel b :
  balanced t -> Forall2 is_leaf hs (flatten t) -> 0 < m < size t ->
  sub (cdirs m t) t = Some t' -> (Z.to_nat (size t) <= fuel)%nat ->
  subproof fuel m hs b
  = Ok (hex <$> (if b && all_left (cdirs m t) then [] else [root t']) ++ rev (auth (cdirs m t) t)).
Proof.
  revert hs m fuel b. induction t as [x|l IHl r IHr]; intros hs m fuel b B Hl Hm Hs Hf;
    [cbn [size] in *; lia|]. cbn [size] in *. pose proof (size_pos l). pose proof (size_pos r).
  destruct B as ([e He] & Hr & Bl & Br).
  destruct fuel as [|fuel]; [lia|]. cbn [subproof]. rewrite (leaves_size _ _ Hl). cbn [size].
  rewrite (proj2 (Z.eqb_neq m _)) by lia.
  rewrite (largest_power_of_two_below_unique _ e), <- He by lia.
  destruct (node_leaves hs l r (size l) Hl eq_refl) as [Hu Hd]. cbn [cdirs] in *.
  destruct (Z.leb_spec m (size l)).
  - destruct (Z.eqb_spec m (size l)) as [->|].
    + simpl in Hs. simplify_eq. cbn [auth rev all_left forallb andb].
      destruct fuel as [|fuel]; [lia|]. cbn [subproof].
      rewrite (leaves_size _ _ Hu), Z.eqb_refl.
      rewrite (merkle_root_tree _ r) by done.
      destruct b; [done|]. by rewrite (merkle_root_tree _ t').
    + rewrite (proj2 (Z.ltb_lt m (size l))) in Hs |- * by lia. cbn [sub] in Hs.
      rewrite IHl by (done || lia). simpl. rewrite (merkle_root_tree _ r) by done. simpl.
      by rewrite (app_assoc _ _ [_]), !fmap_app.
  - rewrite (proj2 (Z.eqb_neq _ _)), (proj2 (Z.ltb_ge m (size l))) in Hs |- * by lia. cbn [sub] in Hs.
    rewrite (IHr _ (m - size l)) by (done || lia). simpl. rewrite (merkle_root_tree _ l) by done. simpl.
    rewrite andb_false_r. simpl. by rewrite !fmap_app.
Qed.

(** [first_size & (first_size - 1) == 0] tells that case. *)
Lemma land_pred_pow2 e : Z.land (pow2 e) (pow2 e - 1) = 0.
Proof.
  unfold pow2. replace (2 ^ Z.of_nat e - 1) with (Z.ones (Z.of_nat e)) by (rewrite Z.ones_equiv; lia).
  rewrite Z.land_ones by lia. apply Z.mod_same. lia.
Qed.

Lemma testbit_top e x : pow2 e <= x < 2 * pow2 e -> Z.testbit x (Z.of_nat e) = true.
Proof.
  intros Hx. apply Z.testbit_true; [lia|]. fold (pow2 e).
  replace (x / pow2 e) with 1; [done|]. pose proof (pow2_pos e). Z.div_mod_to_equations; nia.
Qed.

Lemma land_pred_all_left t m :
  balanced t -> 0 < m < size t -> (Z.land m (m - 1) =? 0) = all_left (cdirs m t).
Proof.
  revert m. induction t as [x|l IHl r IHr]; intros m B Hm; cbn [size cdirs] in *; [lia|].
  destruct B as ([e He] & Hr & Bl & Br).
  destruct (Z.eqb_spec m (size l)) as [->|]; [by rewrite He, land_pred_pow2|].
  destruct (Z.ltb_spec m (size l)); [apply IHl; [done|lia]|].
  simpl. apply Z.eqb_neq. intros E. apply (f_equal (fun x => Z.testbit x (Z.of_nat e))) in E.
  rewrite Z.land_spec, Z.testbit_0_l, !testbit_top in E by lia. done.
Qed.
End Link.
