(* ===== verification/MerkleLog.v ===== *)
(** * Theorems on the transparency log

    Completeness and soundness of inclusion and consistency proofs, the
    reference meaning of the tree hash, and the length of accepted proofs.
    Soundness is stated for an arbitrary proof, under the assumption that no
    two different strings among those hashed by the log and by the verifier
    collide; the strings are listed by [log_inputs] and by the [..._queries]. *)
From Stdlib Require Import Init.Byte.
From S2P Require Import Prelude PyBytes Merkle MerkleShape MerkleTree.
Open Scope Z_scope.

Definition depth (n : Z) : nat := Z.to_nat (Z.log2_up n).

Lemma depth_bound n : 1 <= n -> n <= pow2 (depth n).
Proof.
  intros Hn. unfold pow2, depth. rewrite Z2Nat.id by apply Z.log2_up_nonneg.
  destruct (decide (n = 1)) as [->|]; [done|]. apply Z.log2_log2_up_spec. lia.
Qed.

Section Theorems.
Context `{Sha}.

(** What is hashed for a record, by the log over a list of records, and by
    the verifiers. *)
Definition leaf_input (h : ustr) : bytes := LEAF_PREFIX ++ default [] (fromhex h).
Definition log_inputs (D : list ustr) : list bytes :=
  (leaf_input <$> D) ++ inputs (tree_of ((fun h => sha256 (leaf_input h)) <$> D)).
Definition decoded (proof : list ustr) : list bytes := default [] (decode_hash_list proof).
Definition inclusion_queries (h : ustr) (i n : Z) (proof : list ustr) : list bytes :=
  leaf_input h
  :: queries (zip (levels (depth n) i (n - 1)) (decoded proof)) (sha256 (leaf_input h)).
Definition seeded (m : Z) (first_root : bytes) (path : list bytes) : list bytes :=
  if Z.land m (m - 1) =? 0 then first_root :: path else path.
Definition consistency_queries (m : Z) (r1 : ustr) (n : Z) (proof : list ustr) : list bytes :=
  match seeded m (default [] (fromhex r1)) (decoded proof) with
  | [] => []
  | p0 :: rest =>
      let l := zip (slevels (depth n) (m - 1) (n - 1)) rest in queries l p0 ++ queriesF l p0
  end.

Lemma leaf_of_input h x :
  leaf_of h = Ok x -> x = sha256 (leaf_input h) /\ fromhex h = Some (default [] (fromhex h)).
Proof. intros Hx. apply leaf_of_Ok in Hx as (_ & b & Hb & ->). unfold leaf_input. by rewrite Hb. Qed.

Lemma leaves_inputs hs ls :
  Forall2 is_leaf hs ls -> ls = (fun h => sha256 (leaf_input h)) <$> hs.
Proof.
  induction 1 as [|h x hs ls Hx _ IH]; [done|]. apply leaf_of_input in Hx as [-> _].
  by rewrite IH.
Qed.

Lemma words32_root ls : ls <> [] -> words32 ls -> length (root (tree_of ls)) = 32%nat.
Proof. intros Hne Hw. apply length_root. by rewrite flatten_tree_of. Qed.

Lemma tree_leaves hs ls :
  Forall2 is_leaf hs ls -> ls <> [] ->
  balanced (tree_of ls) /\ flatten (tree_of ls) = ls /\ size (tree_of ls) = len hs
  /\ words32 (flatten (tree_of ls)).
Proof.
  intros Hl Hne. pose proof (flatten_tree_of ls Hne) as F.
  split; [by apply balanced_tree_of|]. rewrite F. split; [done|].
  split; [by rewrite <- size_flatten, F, (is_leaf_len _ _ Hl)|by eapply is_leaf_32].
Qed.

Lemma len_pos {A} (D : list A) i x : D !! i = Some x -> D <> [] /\ Z.of_nat i < len D.
Proof.
  intros Hx. split; [by intros ->|]. apply lookup_lt_Some in Hx. unfold len. lia.
Qed.

Lemma leaves_records D D' ls :
  Forall2 is_leaf D ls -> Forall2 is_leaf D' ls ->
  collision_free ((leaf_input <$> D) ++ (leaf_input <$> D')) ->
  fromhex <$> D = fromhex <$> D'.
Proof.
  intros Hl. revert D'. induction Hl as [|h x D ls Hx Hl IH]; intros D' Hl' Hc; inversion Hl' as [|h' ? D1' ? Hx' Hl1']; subst; [done|].
  destruct (leaf_of_input _ _ Hx) as [E1 E2], (leaf_of_input _ _ Hx') as [E1' E2'].
  cbn [fmap list_fmap]. f_equal.
  - rewrite E1 in E1'. apply Hc in E1'; [|set_solver..]. injection E1' as E1'. by rewrite E2, E2', E1'.
  - apply IH; [done|]. eapply collision_free_mono; [|exact Hc]. cbn [fmap list_fmap]. set_solver.
Qed.

(** What the two verifiers accept, in terms of the levels of a climb. *)
Lemma verify_inclusion_decoded h i n proof rh r :
  0 <= i < n -> decode_hash_list [rh] = Some [r] ->
  verify_inclusion h i n proof rh = true <->
  exists x path, leaf_of h = Ok x /\ decode_hash_list proof = Some path
    /\ length path = length (levels (depth n) i (n - 1))
    /\ r = climbS (zip (levels (depth n) i (n - 1)) path) x.
Proof.
  intros Hi Hr. unfold verify_inclusion. pose proof (depth_bound n).
  rewrite (proj2 (Z.ltb_ge i 0)), (proj2 (Z.ltb_ge n 1)), (proj2 (Z.leb_gt n i)) by lia. cbn [orb].
  destruct (leaf_of h) as [x|]; [|naive_solver].
  rewrite Hr.
  destruct (decode_hash_list proof) as [path|]; [|naive_solver]. rewrite inclusion_loop_walk.
  pose proof (fun a => walk_levels node (fun p r => node r p) (depth n) path i (n - 1) x a) as W.
  destruct (walk _ _ path i (n - 1) x) as [[s a]|] eqn:E.
  - rewrite andb_true_iff, Z.eqb_eq, bool_decide_eq_true. split.
    + intros [-> <-]. destruct (proj1 (W a ltac:(lia) ltac:(lia)) eq_refl). eauto 10.
    + intros (? & ? & [= <-] & [= <-] & Hl & Hc). rewrite Hc.
      by pose proof (proj2 (W _ ltac:(lia) ltac:(lia)) (conj Hl eq_refl)) as [= -> ->].
  - split; [done|]. intros (? & ? & [= <-] & [= <-] & Hl & Hc).
    by pose proof (proj2 (W _ ltac:(lia) ltac:(lia)) (conj Hl eq_refl)).
Qed.

Lemma verify_inclusion_iff h i n proof r :
  0 <= i < n -> length r = 32%nat ->
  verify_inclusion h i n proof (hex r) = true <->
  exists x path, leaf_of h = Ok x /\ decode_hash_list proof = Some path
    /\ length path = length (levels (depth n) i (n - 1))
    /\ r = climbS (zip (levels (depth n) i (n - 1)) path) x.
Proof.
  intros Hi Hr. apply verify_inclusion_decoded; [done|].
  change [hex r] with (hex <$> [r]). apply decode_hex. by constructor.
Qed.

Lemma verify_consistency_decoded m n h1 h2 r1 r2 proof :
  0 < m < n -> decode_hash_list [h1; h2] = Some [r1; r2] ->
  verify_consistency m h1 n h2 proof = true <->
  exists path p0 rest, decode_hash_list proof = Some path /\ path <> []
    /\ seeded m r1 path = p0 :: rest
    /\ length rest = length (slevels (depth n) (m - 1) (n - 1))
    /\ r1 = climbF (zip (slevels (depth n) (m - 1) (n - 1)) rest) p0
    /\ r2 = climbS (zip (slevels (depth n) (m - 1) (n - 1)) rest) p0.
Proof.
  intros Hm Hr. unfold verify_consistency. pose proof (depth_bound n).
  rewrite (proj2 (Z.ltb_ge m 0)), (proj2 (Z.ltb_ge n m)) by lia. cbn [orb].
  rewrite Hr, (proj2 (Z.eqb_neq m 0)), (proj2 (Z.eqb_neq m n)) by lia.
  destruct (decode_hash_list proof) as [[|q path]|]; [naive_solver| |naive_solver].
  destruct (skip_odd_slevels (depth n) (m - 1) (n - 1)) as (f & s & -> & Hf & Hs & <-); [lia..|].
  fold (seeded m r1 (q :: path)). destruct (seeded m r1 (q :: path)) as [|p0 rest] eqn:Es;
    [by unfold seeded in Es; case_match|].
  rewrite consistency_loop_walk.
  pose proof (fun a => walk_levels both_left second_right (depth n) rest f s (p0, p0) a Hf Hs) as W.
  rewrite climb_pair in W.
  destruct (walk _ _ rest f s (p0, p0)) as [[s' [fr sr]]|] eqn:E; simpl.
  - rewrite !andb_true_iff, Z.eqb_eq, !bool_decide_eq_true. split.
    + intros [[<- <-] ->]. destruct (proj1 (W _) eq_refl) as [Hl [= -> ->]]. naive_solver.
    + intros (? & ? & ? & [= <-] & _ & Es' & Hl & Hc1 & Hc2). rewrite Es in Es'. simplify_eq.
      by pose proof (proj2 (W _) (conj Hl eq_refl)) as [= -> -> ->].
  - split; [done|]. intros (? & ? & ? & [= <-] & _ & Es' & Hl & Hc1 & Hc2).
    rewrite Es in Es'. simplify_eq. by pose proof (proj2 (W _) (conj Hl eq_refl)).
Qed.

Lemma verify_consistency_iff m n r1 r2 proof :
  0 < m < n -> length r1 = 32%nat -> length r2 = 32%nat ->
  verify_consistency m (hex r1) n (hex r2) proof = true <->
  exists path p0 rest, decode_hash_list proof = Some path /\ path <> []
    /\ seeded m r1 path = p0 :: rest
    /\ length rest = length (slevels (depth n) (m - 1) (n - 1))
    /\ r1 = climbF (zip (slevels (depth n) (m - 1) (n - 1)) rest) p0
    /\ r2 = climbS (zip (slevels (depth n) (m - 1) (n - 1)) rest) p0.
Proof.
  intros Hm H1 H2. apply verify_consistency_decoded; [done|].
  change [hex r1; hex r2] with (hex <$> [r1; r2]). apply decode_hex. by repeat constructor.
Qed.

(** The root is that of the tree over the hashes of the records. *)
Lemma merkle_root_records (D : list ustr) :
  merkle_root D =
    match D with
    | [] => Ok (hex (sha256 []))
    | _ => if decide (Forall (fun h => length h = 64%nat /\ is_Some (fromhex h)) D)
           then Ok (hex (root (tree_of ((fun h => sha256 (leaf_input h)) <$> D))))
           else Err ValueError
    end.
Proof.
  destruct D as [|h0 D0] eqn:ED; [done|]. rewrite <- ED.
  assert (D <> []) as Hne by (by rewrite ED). clear ED h0 D0. destruct (decide _) as [HF|HF].
  - rewrite (merkle_root_leaves D ((fun h => sha256 (leaf_input h)) <$> D)); [done| |done].
    clear Hne. induction HF as [|h l [Hh [b Hb]] _ IH]; constructor; [|done].
    apply leaf_of_Ok. split; [unfold len; lia|]. exists b. unfold leaf_input. by rewrite Hb.
  - unfold merkle_root. rewrite (proj2 (Z.eqb_neq (len D) 0)) by (destruct D; [done|unfold len; simpl; lia]).
    assert (map_result leaf_of D = Err ValueError) as ->; [|done].
    clear Hne. induction D as [|h D IH]; [by destruct HF|].
    simpl. destruct (leaf_of h) as [x|e] eqn:E; [|by apply leaf_of_Err in E as ->]. simpl.
    rewrite IH; [done|]. intros HD. apply HF. constructor; [|done].
    apply leaf_of_Ok in E as (Hl & b & Hb & _). unfold len in Hl. split; [lia|by eexists].
Qed.

(** *** The reference: RFC 9162, section 2.1 *)

(** The tree hash of a list of records: a list of more than one splits after its largest
    proper prefix whose length is a power of two. *)
Inductive MTH : list bytes -> bytes -> Prop :=
| MTH_empty : MTH [] (sha256 [])
| MTH_one d : MTH [d] (sha256 (x00 :: d))
| MTH_split k l r hl hr :
    length l = (2 ^ k)%nat -> (1 <= length r <= length l)%nat -> MTH l hl -> MTH r hr ->
    MTH (l ++ r) (sha256 (x01 :: hl ++ hr)).

(** Hexadecimal: two digits a byte. *)
Inductive digit : N -> N -> Prop :=
| digit_09 v : (v < 10)%N -> digit (48 + v) v
| digit_af v : (10 <= v < 16)%N -> digit (87 + v) v
| digit_AF v : (10 <= v < 16)%N -> digit (55 + v) v.
Inductive spells : ustr -> bytes -> Prop :=
| spells_nil : spells [] []
| spells_byte c d hi lo x s b :
    digit c hi -> digit d lo -> Byte.to_N x = (16 * hi + lo)%N -> spells s b -> spells (c :: d :: s) (x :: b).
Definition blank_char (c : N) : Prop := c ∈ [9; 10; 11; 12; 13; 32]%N.
(** [d] is the digest that [s] spells with 64 hex digits. *)
Definition record_of (s : ustr) (d : bytes) : Prop := length s = 64%nat /\ spells s d.

Lemma tree_MTH t ds :
  balanced t -> flatten t = (fun d => sha256 (x00 :: d)) <$> ds -> MTH ds (root t).
Proof.
  revert ds. induction t as [x|l IHl r IHr]; intros ds B F.
  - destruct ds as [|d [|]]; try discriminate F. injection F as ->. constructor.
  - destruct B as ([e He] & Hr & Bl & Br). cbn [flatten] in F. symmetry in F.
    apply fmap_app_inv in F as (ds1 & ds2 & F1 & F2 & ->).
    assert (L1 : Z.of_nat (length ds1) = size l) by (rewrite <- size_flatten, F1; unfold len; by rewrite length_fmap).
    assert (L2 : Z.of_nat (length ds2) = size r) by (rewrite <- size_flatten, F2; unfold len; by rewrite length_fmap).
    pose proof (size_pos r). change (root (Node l r)) with (sha256 (x01 :: root l ++ root r)). apply (MTH_split e); [|lia|by apply IHl|by apply IHr].
    apply Nat2Z.inj. rewrite L1, He. unfold pow2. rewrite Nat2Z.inj_pow. done.
Qed.
Lemma MTH_tree ds h :
  MTH ds h -> ds <> [] ->
  exists t, balanced t /\ flatten t = (fun d => sha256 (x00 :: d)) <$> ds /\ root t = h.
Proof.
  induction 1 as [|d|k l r hl hr Hl Hr _ IHl _ IHr]; intros Hne; [done|by exists (Leaf (sha256 (x00 :: d)))|].
  destruct IHl as (tl & Bl & Fl & <-); [intros ->; simpl in Hr; lia|].
  destruct IHr as (tr & Br & Fr & <-); [intros ->; simpl in Hr; lia|].
  exists (Node tl tr). cbn [balanced flatten root]. rewrite fmap_app, Fl, Fr. split_and!; try done.
  - exists k. rewrite <- size_flatten, Fl. unfold len, pow2. rewrite length_fmap, Hl, Nat2Z.inj_pow. done.
  - rewrite <- !size_flatten, Fl, Fr. unfold len. rewrite !length_fmap. lia.
Qed.
Lemma MTH_unique ds h h' : MTH ds h -> MTH ds h' -> h = h'.
Proof.
  intros M M'. destruct (decide (ds = [])) as [->|Hne].
  - assert (Hn : forall h, MTH [] h -> h = sha256 []).
    { clear. intros h M. remember [] as ds eqn:E. destruct M as [|d|k l r hl hr Hl Hr _ _]; [done|done|].
      apply app_eq_nil in E as [-> ->]. simpl in Hr. lia. }
    by rewrite (Hn h M), (Hn h' M').
  - destruct (MTH_tree _ _ M Hne) as (t & B & F & <-), (MTH_tree _ _ M' Hne) as (t' & B' & F' & <-).
    f_equal. apply balanced_unique; congruence.
Qed.

Lemma hexval_digit c v : hexval c = Some v <-> digit c v.
Proof.
  unfold hexval. split.
  - destruct ((48 <=? c) && (c <=? 57))%N eqn:E1; [|destruct ((97 <=? c) && (c <=? 102))%N eqn:E2; [|destruct ((65 <=? c) && (c <=? 70))%N eqn:E3; [|done]]];
      intros [= <-].
    + rewrite andb_true_iff, !N.leb_le in E1. replace c with (48 + (c - 48))%N at 1 by lia. apply digit_09. lia.
    + rewrite andb_true_iff, !N.leb_le in E2. replace c with (87 + (c - 87))%N at 1 by lia. apply digit_af. lia.
    + rewrite andb_true_iff, !N.leb_le in E3. replace c with (55 + (c - 55))%N at 1 by lia. apply digit_AF. lia.
  - intros [w Hw|w Hw|w Hw];
      repeat match goal with |- context [(?a <=? ?b)%N] => destruct (N.leb_spec a b); try lia end; simpl; f_equal; lia.
Qed.
Lemma digit_lt c v : digit c v -> (v < 16)%N.
Proof. intros [w Hw|w Hw|w Hw]; lia. Qed.
Lemma isspace_blank c : py_isspace c = true <-> blank_char c.
Proof.
  unfold py_isspace, blank_char. rewrite orb_true_iff, andb_true_iff, !N.leb_le, N.eqb_eq, !elem_of_cons, elem_of_nil. lia.
Qed.
Lemma digit_not_blank c v : digit c v -> py_isspace c = false.
Proof.
  intros Hd. apply not_true_iff_false. rewrite isspace_blank. unfold blank_char. rewrite !elem_of_cons, elem_of_nil.
  destruct Hd; lia.
Qed.
Lemma fromhex_spells n s b :
  (length s <= n)%nat -> Forall (fun c => ~ blank_char c) s -> fromhex s = Some b -> spells s b.
Proof.
  revert s b. induction n as [|n IH]; intros [|c s] b Hl Hs E; try (simpl in Hl; lia); try (injection E as <-; constructor).
  apply list.Forall_cons in Hs as [Hc Hs]. simpl in E. rewrite <- isspace_blank in Hc. apply not_true_iff_false in Hc. rewrite Hc in E.
  destruct (hexval c) as [hi|] eqn:Eh; [|done]. destruct s as [|d s]; [done|]. destruct (hexval d) as [lo|] eqn:El; [|done].
  destruct (fromhex s) as [b'|] eqn:Eb; [|done]. injection E as <-. apply hexval_digit in Eh, El.
  apply list.Forall_cons in Hs as [_ Hs]. apply (spells_byte c d hi lo); [done|done| |apply IH; [simpl in Hl; lia|done|done]].
  pose proof (digit_lt _ _ Eh). pose proof (digit_lt _ _ El). rewrite to_N_byte_of, N.mod_small; lia.
Qed.
Lemma spells_fromhex s b : spells s b -> fromhex s = Some b.
Proof.
  induction 1 as [|c d hi lo x s b Hc Hd Hx _ IH]; [done|]. simpl. rewrite (digit_not_blank c hi Hc).
  apply hexval_digit in Hc, Hd. rewrite Hc, Hd, IH, <- Hx. simpl. by rewrite byte_of_to_N.
Qed.

Lemma records_exist D :
  (forall s, s ∈ D -> exists d, record_of s d) ->
  exists ds, Forall2 record_of D ds /\ (fun h => sha256 (leaf_input h)) <$> D = (fun d => sha256 (x00 :: d)) <$> ds.
Proof.
  induction D as [|s D IH]; intros HD; [by exists []|]. destruct (HD s ltac:(by left)) as [d Hd].
  destruct IH as (ds & H2 & E); [intros s' Hs'; apply HD; by right|]. exists (d :: ds). split; [by constructor|].
  rewrite !fmap_cons, E. do 2 f_equal. unfold leaf_input. by rewrite (spells_fromhex s d (proj2 Hd)).
Qed.

(** C37. The tree hash the code computes by walking indices is the RFC 9162 tree hash
    ([MTH], which determines one value) of the digests its records spell, whatever their
    number, if each record is 64 hex digits; otherwise it raises ValueError, never an
    index error, and the recursion ends. Records are taken without ASCII blanks, which the
    decoder skips, so that a record with blanks may be accepted
    ([blank_record_accepted]). *)
Theorem merkle_root_reference (D : list ustr) :
  (forall s, s ∈ D -> Forall (fun c => ~ blank_char c) s) ->
  match merkle_root D with
  | Ok r => exists ds h, Forall2 record_of D ds /\ MTH ds h /\ (forall h', MTH ds h' -> h' = h) /\ r = hex h
  | Err e => e = ValueError /\ exists s, s ∈ D /\ forall d, ~ record_of s d
  end.
Proof.
  intros HD. assert (Hrec : forall s, s ∈ D -> length s = 64%nat /\ is_Some (fromhex s) <-> exists d, record_of s d).
  { intros s Hs. unfold record_of. split.
    - intros [Hl [d Ed]]. exists d. split; [done|]. apply (fromhex_spells (length s)); [lia|by apply HD|done].
    - intros (d & Hl & Hd). split; [done|]. exists d. by apply spells_fromhex. }
  rewrite merkle_root_records. destruct D as [|s0 D0] eqn:ED.
  { exists [], (sha256 []). split_and!; [constructor|constructor| |done]. intros h' M. by apply (MTH_unique [] h' (sha256 [])); [|constructor]. }
  assert (Hne : D <> []) by (by rewrite ED). rewrite <- ED in *. clear ED s0 D0. destruct (decide _) as [HF|HF].
  - destruct (records_exist D) as (ds & H2 & El); [intros s Hs; apply Hrec; [done|]; by apply (proj1 (list.Forall_forall _ _) HF)|].
    destruct D as [|s0 D0]; [done|]. rewrite El. set (ls := (fun d => _) <$> ds). assert (Hls : ls <> []) by (intros E%fmap_nil_inv; rewrite E in H2; inversion H2).
    assert (M : MTH ds (root (tree_of ls))) by (by apply tree_MTH; [apply balanced_tree_of|apply flatten_tree_of]).
    exists ds, (root (tree_of ls)). split_and!; [done|done| |done]. intros h' M'. by eapply MTH_unique.
  - apply not_Forall_Exists in HF; [|apply _]. apply list.Exists_exists in HF as (s & Hs & Hn).
    assert (Hall : exists s, s ∈ D /\ forall d, ~ record_of s d) by (exists s; split; [done|]; intros d Hd; apply Hn, Hrec; eauto).
    by destruct D as [|]; [apply elem_of_nil in Hs|].
Qed.

(** Inclusion proofs are complete: for every record of a log whose root
    can be computed, the generated path is accepted for that record, its index,
    the size of the log and its root. *)
Theorem inclusion_complete (D : list ustr) (i : nat) (h : ustr) (r : ustr) :
  merkle_root D = Ok r -> D !! i = Some h ->
  exists proof, inclusion_path (Z.of_nat i) D = Ok proof
    /\ verify_inclusion h (Z.of_nat i) (len D) proof r = true.
Proof.
  intros Hr Hi. destruct (len_pos D i h Hi) as [Hne Hlt].
  destruct (merkle_root_Ok D r Hr Hne) as (ls & Hl & Hne' & ->).
  destruct (tree_leaves D ls Hl Hne') as (B & F & Sz & Hw). set (t := tree_of ls) in *.
  assert (exists x, leaf_of h = Ok x /\ flatten t !! i = Some x) as (x & Hx & Hfx).
  { destruct (Forall2_lookup_l _ _ _ _ _ Hl Hi) as (x & Hlx & Hx). rewrite F. eauto. }
  exists (hex <$> rev (auth (dirs (Z.of_nat i) t) t)). split.
  - apply inclusion_path_tree; [done|by rewrite F|lia|]. unfold len in *. lia.
  - assert (sub (dirs (Z.of_nat i) t) t = Some (Leaf x)) as Hs by (apply dirs_sub; [lia|by rewrite Nat2Z.id]).
    rewrite verify_inclusion_iff by (lia || by apply length_root).
    exists x, (rev (auth (dirs (Z.of_nat i) t) t)). split; [done|].
    rewrite <- Sz, <- dirs_levels by (done || lia || by apply depth_bound; lia).
    split; [apply decode_hex|split].
    + apply Forall_rev. by eapply words32_auth.
    + by rewrite !length_rev, (length_auth _ _ (Leaf x)).
    + by rewrite (climb_sub _ _ (Leaf x)).
Qed.

(** C38. Inclusion proofs are sound: whatever the proof, if it is accepted for
    a record against the root of a log, at an index and for the size of that
    log, then the record is the one at that index (the two strings decode to
    the same bytes) and the proof decodes to the very siblings of the leaf,
    unless two different strings among those hashed by the log and by the
    verifier have the same digest. *)
Theorem inclusion_sound (D : list ustr) (h : ustr) (i : Z) (proof : list ustr) (r : ustr) :
  merkle_root D = Ok r -> verify_inclusion h i (len D) proof r = true ->
  collision_free (log_inputs D ++ inclusion_queries h i (len D) proof) ->
  exists d, D !! Z.to_nat i = Some d /\ fromhex d = fromhex h
    /\ exists path, inclusion_path i D = Ok path /\ decode_hash_list path = decode_hash_list proof.
Proof.
  intros Hr Hv Hc.
  assert (0 <= i < len D) as Hi.
  { unfold verify_inclusion in Hv. destruct (_ || _) eqn:E in Hv; [done|].
    rewrite !orb_false_iff, !Z.ltb_ge, Z.leb_gt in E. lia. }
  assert (D <> []) as Hne by (intros ->; unfold len in Hi; simpl in Hi; lia).
  destruct (merkle_root_Ok D r Hr Hne) as (ls & Hl & Hne' & ->).
  destruct (tree_leaves D ls Hl Hne') as (B & F & Sz & Hw).
  pose proof (leaves_inputs _ _ Hl) as Hin. unfold log_inputs in Hc. rewrite <- Hin in Hc.
  set (t := tree_of ls) in *.
  apply verify_inclusion_iff in Hv as (x & path & Hx & Hd & Hlen & Hroot); [|done|by apply length_root].
  destruct (leaf_of_input _ _ Hx) as [Ex Eh].
  destruct (lookup_lt_is_Some_2 D (Z.to_nat i)) as [d HD]; [unfold len in Hi; lia|].
  destruct (Forall2_lookup_l _ _ _ _ _ Hl HD) as (y & Hy & Hdy). rewrite <- F in Hy.
  destruct (leaf_of_input _ _ Hdy) as [Ey Ed].
  assert (sub (dirs i t) t = Some (Leaf y)) as Hs by (apply dirs_sub; [lia|done]).
  unfold inclusion_queries, decoded in Hc. rewrite Hd in Hc. simpl in Hc.
  rewrite <- Ex, <- Sz, <- dirs_levels in * by (done || lia || by apply depth_bound; lia).
  rewrite length_rev in Hlen. destruct (decode_words32 _ _ Hd) as [Hp32 _].
  destruct (climb_inv (dirs i t) t (Leaf y) path x) as [Exy Epath]; try done;
    [subst x; apply sha256_length|eapply collision_free_mono; [|exact Hc]; set_solver|].
  exists d. split; [done|]. split.
  - simpl in Exy. rewrite Ex, Ey in Exy. apply Hc in Exy.
    + unfold leaf_input in Exy. injection Exy as Exy. by rewrite Eh, Ed, Exy.
    + set_solver.
    + apply elem_of_app. left. apply elem_of_app. left. apply list_elem_of_fmap.
      exists d. split; [done|]. by eapply list_elem_of_lookup_2.
  - exists (hex <$> rev (auth (dirs i t) t)). split.
    + apply inclusion_path_tree; [done|by rewrite F|lia|]. unfold len in *. lia.
    + rewrite <- Epath, decode_hex by done. done.
Qed.

Lemma merkle_root_32 D r : merkle_root D = Ok r -> exists b, r = hex b /\ length b = 32%nat.
Proof.
  intros Hr. destruct (decide (D = [])) as [->|Hne].
  - injection Hr as <-. eexists. split; [done|apply sha256_length].
  - destruct (merkle_root_Ok D r Hr Hne) as (ls & Hl & Hne' & ->).
    eexists. split; [done|]. apply words32_root; [done|]. by eapply is_leaf_32.
Qed.

Lemma verify_consistency_same n r1 r2 proof :
  0 < n -> length r1 = 32%nat -> length r2 = 32%nat ->
  verify_consistency n (hex r1) n (hex r2) proof = true <-> proof = [] /\ r1 = r2.
Proof.
  intros Hn H1 H2. unfold verify_consistency.
  rewrite (proj2 (Z.ltb_ge n 0)), Z.ltb_irrefl by lia. cbn [orb].
  change [hex r1; hex r2] with (hex <$> [r1; r2]). rewrite decode_hex by (by repeat constructor).
  rewrite (proj2 (Z.eqb_neq n 0)), Z.eqb_refl, andb_true_iff, Z.eqb_eq, bool_decide_eq_true by lia.
  destruct proof; unfold len; simpl; [naive_solver|]. split; [lia|naive_solver].
Qed.

(** An accepted proof for the root of a tree: the first root is that of the
    prefix, and what the prefix hashes was hashed by the tree or by the
    verifier. *)
Lemma verify_consistency_root m r1 t2 proof :
  balanced t2 -> words32 (flatten t2) -> length r1 = 32%nat -> 0 < m < size t2 ->
  verify_consistency m (hex r1) (size t2) (hex (root t2)) proof = true ->
  collision_free (inputs t2 ++ consistency_queries m (hex r1) (size t2) proof) ->
  r1 = root (prefix m t2)
  /\ inputs (prefix m t2) ⊆ inputs t2 ++ consistency_queries m (hex r1) (size t2) proof.
Proof.
  intros B2 W2 H1 Hm Hv.
  apply verify_consistency_iff in Hv; [|lia|done|by apply length_root].
  destruct Hv as (path & p0 & rest & Hd & Hpn & Hseed & Hlen & Hf & Hs).
  unfold consistency_queries, decoded. rewrite fromhex_hex, Hd. cbn [default id from_option].
  rewrite Hseed. cbv zeta. intros Hc.
  rewrite <- (cdirs_levels t2) in * by (done || lia || by apply depth_bound; lia).
  destruct (cdirs_sub t2 m B2 Hm) as [t' Hsub].
  assert (exists l r, t2 = Node l r) as Hnode by (destruct t2 as [|l r]; [simpl in Hm; lia|eauto]).
  destruct (decode_words32 _ _ Hd) as [Hp32 _].
  assert (words32 (p0 :: rest)) as Hw32.
  { rewrite <- Hseed. unfold seeded. case_match; [|done]. by constructor. }
  apply list.Forall_cons in Hw32 as [Hp0 Hrest]. rewrite length_rev in Hlen.
  destruct (climb_inv (cdirs m t2) t2 t' rest p0) as [-> ->]; try done;
    [eapply collision_free_mono; [|exact Hc]; set_solver|].
  rewrite climbF_prefix in Hf by done. split; [done|].
  pose proof (inputs_prefix _ _ _ Hsub Hnode). set_solver.
Qed.

(** Between two trees of different sizes: the smaller is a prefix of the larger. *)
Lemma verify_consistency_prefix t1 t2 proof :
  balanced t1 -> balanced t2 -> words32 (flatten t1) -> words32 (flatten t2) ->
  size t1 < size t2 ->
  verify_consistency (size t1) (hex (root t1)) (size t2) (hex (root t2)) proof = true ->
  collision_free (inputs t1 ++ inputs t2
    ++ consistency_queries (size t1) (hex (root t1)) (size t2) proof) ->
  t1 = prefix (size t1) t2.
Proof.
  intros B1 B2 W1 W2 Hlt Hv Hc. pose proof (size_pos t1).
  destruct (verify_consistency_root (size t1) (root t1) t2 proof) as [Hr Hin];
    [done|done|by apply length_root|lia|done|eapply collision_free_mono; [|exact Hc]; set_solver|].
  destruct (prefix_spec t2 (size t1)) as [Fp Bp]; [done|lia|]. apply root_inj; try done.
  - rewrite <- (size_flatten (prefix _ _)), Fp, len_upto; [done|]. rewrite size_flatten. lia.
  - rewrite Fp. by apply Forall_take.
  - eapply collision_free_mono; [|exact Hc]. set_solver.
Qed.

Lemma consistency_path_accepted (D : list ustr) (m : Z) (r : ustr) :
  merkle_root D = Ok r -> 0 < m <= len D ->
  exists r1 proof, merkle_root (upto m D) = Ok r1 /\ consistency_path m D = Ok proof
    /\ verify_consistency m r1 (len D) r proof = true.
Proof.
  intros Hr Hm. unfold consistency_path.
  rewrite (proj2 (Z.ltb_lt 0 m)), (proj2 (Z.leb_le m _)) by lia. cbn [andb negb].
  assert (D <> []) as Hne by (intros ->; unfold len in Hm; simpl in Hm; lia).
  destruct (merkle_root_Ok D r Hr Hne) as (ls & Hl & Hne' & ->).
  destruct (tree_leaves D ls Hl Hne') as (B & F & Sz & Hw). set (t := tree_of ls) in *.
  destruct (Z.eqb_spec m (len D)) as [->|].
  { exists (hex (root t)), []. split; [|split; [done|]].
    - rewrite <- Hr. f_equal. apply take_ge. unfold len. lia.
    - by apply verify_consistency_same; [lia|apply length_root..|]. }
  assert (0 < m < size t) as Hm' by lia.
  destruct (cdirs_sub t m B Hm') as [t' Hs]. destruct (prefix_spec t m B Hm') as [Fp Bp].
  assert (exists l r, t = Node l r) as Hnode.
  { destruct t as [|l r]; [simpl in Hm'; lia|eauto]. }
  assert (words32 (flatten (prefix m t))) as Hwp by (rewrite Fp; by apply Forall_take).
  exists (hex (root (prefix m t))), (hex <$> (if true && all_left (cdirs m t) then [] else [root t'])
    ++ rev (auth (cdirs m t) t)).
  split; [|split].
  - apply merkle_root_tree; [|done]. rewrite Fp, F. by apply is_leaf_upto.
  - apply subproof_tree; [done|by rewrite F|done|done|]. unfold len in *. lia.
  - rewrite verify_consistency_iff by (lia || by apply length_root).
    rewrite <- Sz, <- cdirs_levels by (done || lia || by apply depth_bound; lia).
    assert (words32 (rev (auth (cdirs m t) t))) as Hwa by (apply Forall_rev; by eapply words32_auth).
    assert (length (root t') = 32%nat) as Ht'.
    { apply length_root. eapply words32_sub; [done|]. done. }
    assert (root (prefix m t) = climbF (zip (rev (cdirs m t)) (rev (auth (cdirs m t) t))) (root t')) as Ef
      by (by rewrite climbF_prefix).
    eexists _, (root t'), (rev (auth (cdirs m t) t)). split; [apply decode_hex|].
    { apply Forall_app. split; [|done]. destruct (true && _); by repeat constructor. }
    pose proof (length_auth _ _ _ Hs) as La.
    split; [|split; [|split; [|split; [done|by rewrite climb_sub]]]].
    + intros E. apply (f_equal length) in E. rewrite length_app, length_rev, La in E. revert E.
      destruct Hnode as (? & ? & ->). cbn [cdirs]. repeat case_match; simpl; lia.
    + unfold seeded. rewrite (land_pred_all_left t m B Hm'). cbn [andb].
      destruct (all_left (cdirs m t)) eqn:Ea; [|done]. cbn [app]. f_equal.
      rewrite Ef. apply climbF_all_left. by rewrite <- Ea.
    + by rewrite !length_rev, La.
Qed.

(** Consistency proofs are complete: for every log and every non-empty
    prefix of it, the generated proof is accepted for the two sizes and the
    two roots. *)
Theorem consistency_complete (D : list ustr) (m : Z) (r : ustr) :
  merkle_root D = Ok r -> 0 < m <= len D ->
  exists r1 proof, merkle_root (upto m D) = Ok r1 /\ consistency_path m D = Ok proof
    /\ verify_consistency m r1 (len D) r proof = true.
Proof. apply consistency_path_accepted. Qed.

(** C39. Consistency proofs are sound: whatever the proof, if it is accepted
    for the sizes and the roots of two logs, then the first log is a prefix of
    the second (record by record, up to the spelling of the hex strings),
    unless two different strings among those hashed by the two logs and by the
    verifier have the same digest. *)
Theorem consistency_sound (D1 D2 : list ustr) (r1 r2 : ustr) (proof : list ustr) :
  merkle_root D1 = Ok r1 -> merkle_root D2 = Ok r2 ->
  verify_consistency (len D1) r1 (len D2) r2 proof = true ->
  collision_free (log_inputs D1 ++ log_inputs D2 ++ consistency_queries (len D1) r1 (len D2) proof) ->
  fromhex <$> D1 = fromhex <$> take (length D1) D2.
Proof.
  intros Hr1 Hr2 Hv Hc.
  assert (len D1 <= len D2) as Hle.
  { unfold verify_consistency in Hv. destruct (_ || _) eqn:E in Hv; [done|].
    rewrite !orb_false_iff, !Z.ltb_ge in E. lia. }
  destruct (decide (D1 = [])) as [->|Hne1]; [done|].
  assert (0 < len D1) by (destruct D1; [done|unfold len; simpl; lia]).
  assert (D2 <> []) as Hne2 by (intros ->; unfold len in *; simpl in *; lia).
  destruct (merkle_root_Ok D1 r1 Hr1 Hne1) as (l1 & Hl1 & Hn1 & ->).
  destruct (merkle_root_Ok D2 r2 Hr2 Hne2) as (l2 & Hl2 & Hn2 & ->).
  destruct (tree_leaves D1 l1 Hl1 Hn1) as (B1 & F1 & S1 & W1).
  destruct (tree_leaves D2 l2 Hl2 Hn2) as (B2 & F2 & S2 & W2).
  unfold log_inputs in Hc. rewrite <- (leaves_inputs _ _ Hl1), <- (leaves_inputs _ _ Hl2) in Hc.
  set (t1 := tree_of l1) in *. set (t2 := tree_of l2) in *.
  enough (l1 = take (length D1) l2) as El.
  { apply leaves_records with l1; [done|by rewrite El; apply Forall2_take|].
    eapply collision_free_mono; [|exact Hc]. intros x Hx.
    apply elem_of_app in Hx as [Hx|Hx]; [set_solver|].
    apply list_elem_of_fmap in Hx as (h & -> & Hh). apply elem_of_take in Hh as (j & Hh & _).
    apply list_elem_of_lookup_2 in Hh. apply elem_of_app. right. apply elem_of_app. left.
    apply elem_of_app. left. apply list_elem_of_fmap. eauto. }
  destruct (decide (len D1 = len D2)) as [Elen|Hneq].
  - rewrite Elen in Hv. apply verify_consistency_same in Hv as [_ Er]; [|lia|by apply length_root..].
    assert (t1 = t2) as Et.
    { apply root_inj; try done; [lia|]. eapply collision_free_mono; [|exact Hc]. set_solver. }
    rewrite <- F1, Et, F2, take_ge; [done|]. pose proof (is_leaf_len _ _ Hl2). unfold len in *. lia.
  - rewrite <- S1, <- S2 in *.
    assert (t1 = prefix (size t1) t2) as Et.
    { eapply verify_consistency_prefix; try done; [lia|].
      eapply collision_free_mono; [|exact Hc]. set_solver. }
    destruct (prefix_spec t2 (size t1)) as [Fp _]; [done|lia|].
    rewrite <- F1, Et, Fp, F2, S1. unfold upto, len. by rewrite Nat2Z.id.
Qed.

Lemma decode_cons s l k :
  decode_hash_list (s :: l) = Some k -> exists x k', k = x :: k' /\ decode_hash_list l = Some k'.
Proof.
  simpl. destruct (fromhex s); [|done]. case_match; [done|].
  destruct (decode_hash_list l); [|done]. intros [= <-]. eauto.
Qed.

Lemma accepted_length (h r1 r2 : ustr) (i m n : Z) (proof : list ustr) :
  (verify_inclusion h i n proof r1 = true -> len proof <= Z.log2_up n)
  /\ (verify_consistency m r1 n r2 proof = true -> len proof <= Z.log2_up n + 1)
  /\ (n <= 2 ^ 62 -> Z.log2_up n + 1 <= 63).
Proof.
  pose proof (Z.log2_up_nonneg n). split; [|split].
  - intros Hv. assert (0 <= i < n) as Hi.
    { unfold verify_inclusion in Hv. destruct (_ || _) eqn:E in Hv; [done|].
      rewrite !orb_false_iff, !Z.ltb_ge, Z.leb_gt in E. lia. }
    destruct (decode_hash_list [r1]) as [k|] eqn:Ed.
    2:{ unfold verify_inclusion in Hv. rewrite Ed in Hv. repeat case_match; done. }
    destruct (decode_cons _ _ _ Ed) as (x & k' & -> & [= <-]).
    apply (verify_inclusion_decoded _ _ _ _ _ _ Hi Ed) in Hv as (y & path & _ & Hd & Hl & _).
    apply decode_words32 in Hd as [_ Hd]. pose proof (length_levels (depth n) i (n - 1)).
    unfold depth, len in *. lia.
  - intros Hv. destruct (decode_hash_list [r1; r2]) as [k|] eqn:Ed.
    2:{ unfold verify_consistency in Hv. rewrite Ed in Hv. repeat case_match; done. }
    destruct (decode_cons _ _ _ Ed) as (x & k' & -> & Ek).
    destruct (decode_cons _ _ _ Ek) as (y & k'' & -> & [= <-]).
    destruct (decide (0 < m < n)) as [Hm|Hm].
    + destruct (proj1 (verify_consistency_decoded _ _ _ _ _ _ _ Hm Ed) Hv)
        as (path & p0 & rest & Hd & _ & Hs & Hl & _).
      apply decode_words32 in Hd as [_ Hd].
      pose proof (length_slevels (depth n) (m - 1) (n - 1)).
      apply (f_equal length) in Hs. unfold seeded in Hs. unfold depth, len in *.
      case_match; simpl in Hs; lia.
    + unfold verify_consistency in Hv. rewrite Ed in Hv. destruct (_ || _) eqn:E in Hv; [done|].
      rewrite !orb_false_iff, !Z.ltb_ge in E.
      destruct (Z.eqb_spec m 0); [|destruct (Z.eqb_spec m n); [|lia]];
        apply andb_prop in Hv as [Hv _]; apply Z.eqb_eq in Hv; lia.
  - intros Hn. enough (Z.log2_up n <= 62) by lia. change 62 with (Z.log2_up (2 ^ 62)).
    by apply Z.log2_up_le_mono.
Qed.
(** Accepted proofs are short, whatever they and the roots are: an
    inclusion proof has at most as many nodes as the tree has levels, a
    consistency proof at most one more.  So the 63 proof lines that a request
    to a witness may carry are enough for every log of up to 2^62 records. *)
Theorem accepted_proof_length (h r1 r2 : ustr) (i m n : Z) (proof : list ustr) :
  (verify_inclusion h i n proof r1 = true -> len proof <= Z.log2_up n)
  /\ (verify_consistency m r1 n r2 proof = true -> len proof <= Z.log2_up n + 1)
  /\ (n <= 2 ^ 62 -> Z.log2_up n + 1 <= 63).
Proof. apply accepted_length. Qed.
End Theorems.

(** * Runs of the transparency log

    A log of three records under SHA-256, evaluated: its root, its proofs, and
    the witnesses of the theorems of [MerkleLog]. *)
Open Scope Z_scope.

#[local] Existing Instance sha256_fips.

(** Record hashes: 64 hex digits. *)
Definition record (n : N) : ustr := hex (replicate 31 x00 ++ [byte_of n]).
(** The same hashes in capitals. *)
Definition capital (c : string) : ustr := hex (replicate 31 x00) ++ u c.
Definition three : list ustr := [record 10; record 11; record 12].

Definition first_two : list ustr := [capital "0A"; capital "0B"].

Definition ok {A} (d : A) (r : result exn A) : A := match r with Ok a => a | Err _ => d end.
Definition three_root : ustr := Eval vm_compute in ok [] (merkle_root three).
Definition two_root : ustr := Eval vm_compute in ok [] (merkle_root first_two).
Definition path_1 : list ustr := Eval vm_compute in ok [] (inclusion_path 1 three).
Definition extension : list ustr := Eval vm_compute in ok [] (consistency_path 2 three).

Example three_root_ok : merkle_root three = Ok three_root.
Proof. vm_compute. reflexivity. Qed.
Example two_root_ok : merkle_root first_two = Ok two_root.
Proof. vm_compute. reflexivity. Qed.

Lemma merkle_root_reference_witness :
  exists ds h, Forall2 record_of three ds /\ MTH ds h /\ (forall h', MTH ds h' -> h' = h) /\ three_root = hex h.
Proof.
  pose proof (merkle_root_reference three) as Hm. rewrite three_root_ok in Hm. apply Hm.
  apply list.Forall_forall. unfold blank_char. apply (bool_decide_unpack _). vm_compute. exact I.
Defined.

Lemma inclusion_complete_witness :
  exists proof, inclusion_path 1 three = Ok proof
    /\ verify_inclusion (record 11) 1 (len three) proof three_root = true.
Proof. apply (inclusion_complete three 1 (record 11) three_root three_root_ok eq_refl). Defined.

Lemma inclusion_sound_witness :
  exists d, three !! 1%nat = Some d /\ fromhex d = fromhex (capital "0B")
    /\ exists path, inclusion_path 1 three = Ok path
       /\ decode_hash_list path = decode_hash_list path_1.
Proof.
  apply (inclusion_sound three (capital "0B") 1 path_1 three_root three_root_ok).
  - vm_compute. reflexivity.
  - apply collision_free_check. vm_compute. reflexivity.
Defined.

Lemma consistency_complete_witness :
  exists r1 proof, merkle_root (upto 2 three) = Ok r1 /\ consistency_path 2 three = Ok proof
    /\ verify_consistency 2 r1 (len three) three_root proof = true.
Proof. apply (consistency_complete three 2 three_root three_root_ok). by vm_compute. Defined.

Lemma consistency_sound_witness : fromhex <$> first_two = fromhex <$> take (length first_two) three.
Proof.
  apply (consistency_sound first_two three two_root three_root extension two_root_ok three_root_ok).
  - vm_compute. reflexivity.
  - apply collision_free_check. vm_compute. reflexivity.
Defined.

Lemma accepted_proof_length_witness :
  (verify_inclusion (record 11) 1 3 path_1 three_root = true -> len path_1 <= Z.log2_up 3)
  /\ (verify_consistency 2 three_root 3 three_root path_1 = true -> len path_1 <= Z.log2_up 3 + 1)
  /\ (3 <= 2 ^ 62 -> Z.log2_up 3 + 1 <= 63).
Proof. apply (accepted_proof_length (record 11) three_root three_root 1 2 3 path_1). Defined.

(** The verifiers reject another record, another index, another size, a
    truncated proof and a rewritten history. *)
Example wrong_record : verify_inclusion (record 12) 1 3 path_1 three_root = false.
Proof. vm_compute. reflexivity. Qed.
Example wrong_index : verify_inclusion (record 11) 0 3 path_1 three_root = false.
Proof. vm_compute. reflexivity. Qed.
Example truncated : verify_inclusion (record 11) 1 3 (take 1 path_1) three_root = false.
Proof. vm_compute. reflexivity. Qed.
Example rewritten_history : verify_consistency 2 three_root 3 three_root extension = false.
Proof. vm_compute. reflexivity. Qed.

(** [leaf_hash] asks for 64 characters, not for 64 hex digits: blanks are
    skipped by the decoder, so a record of 31 bytes is accepted. *)
Definition blank_record : ustr := hex (replicate 31 x00) ++ u "  ".
Example blank_record_accepted : is_ok (leaf_hash blank_record) = true /\ fromhex blank_record = Some (replicate 31 x00).
Proof. vm_compute. done. Qed.
