(* ===== verification/GixNote.v ===== *)
(** * Checkpoints and signed notes

    Models the note half of [interchange/gix.py]: the checkpoint body, its
    text form and parser, Ed25519 signed notes, and what of the standard
    library they use: base64 (the strict decoder of Python 3.12, which accepts
    stray padding after a complete group and ignores the unused bits of the
    last character), UTF-8, decimal integers (with the limit of 4300 digits of
    [int]).  The signature scheme and the digit tables of Unicode are
    interfaces. *)
From Stdlib Require Import Init.Byte.
From S2P Require Import Prelude PyBytes Merkle.
Open Scope N_scope.

(** ** Text *)

Definition NL : N := 10.
Definition SPACE : N := 32.

(** What precedes the first newline and what follows it. *)
Fixpoint cut_nl (s : ustr) : option (ustr * ustr) :=
  match s with
  | [] => None
  | c :: r =>
      if c =? NL then Some ([], r)
      else match cut_nl r with Some (a, b) => Some (c :: a, b) | None => None end
  end.
(** [i = s.find("\n\n")]: [s[:i+1]] and [s[i+2:]] *)
Fixpoint cut_blank (s : ustr) : option (ustr * ustr) :=
  match s with
  | [] => None
  | c :: r =>
      match r with
      | d :: r' =>
          if (c =? NL) && (d =? NL) then Some ([c], r')
          else match cut_blank r with Some (a, b) => Some (c :: a, b) | None => None end
      | [] => None
      end
  end.
(** [s.split("\n")] *)
Fixpoint split_nl (s : ustr) : list ustr :=
  match s with
  | [] => [[]]
  | c :: r =>
      if c =? NL then [] :: split_nl r
      else match split_nl r with w :: ws => (c :: w) :: ws | [] => [[c]] end
  end.
(** ["\n".join(lines)] *)
Fixpoint join_nl (lines : list ustr) : ustr :=
  match lines with
  | [] => []
  | [l] => l
  | l :: ls => l ++ NL :: join_nl ls
  end.
(** [i = s.rfind(c)]: [s[:i]] and [s[i+1:]] *)
Fixpoint rcut (c : N) (s : ustr) : option (ustr * ustr) :=
  match s with
  | [] => None
  | x :: r =>
      match rcut c r with
      | Some (a, b) => Some (x :: a, b)
      | None => if x =? c then Some ([], r) else None
      end
  end.
Fixpoint strip_prefix (p s : ustr) : option ustr :=
  match p, s with
  | [], _ => Some s
  | c :: p, d :: s => if c =? d then strip_prefix p s else None
  | _ :: _, [] => None
  end.
(** [s.endswith("\n")]: the text before the newline. *)
Fixpoint drop_last_nl (s : ustr) : option ustr :=
  match s with
  | [] => None
  | c :: r =>
      match r with
      | [] => if c =? NL then Some [] else None
      | _ => cons c <$> drop_last_nl r
      end
  end.
Definition isSome {A} (o : option A) : bool := match o with Some _ => true | None => false end.

(** ** Base64 *)

Definition b64char (n : N) : N :=
  if n <? 26 then 65 + n else if n <? 52 then 71 + n else if n <? 62 then n - 4
  else if n =? 62 then 43 else 47.
Definition b64val (c : N) : option N :=
  if (65 <=? c) && (c <=? 90) then Some (c - 65)
  else if (97 <=? c) && (c <=? 122) then Some (c - 71)
  else if (48 <=? c) && (c <=? 57) then Some (c + 4)
  else if c =? 43 then Some 62
  else if c =? 47 then Some 63 else None.
Definition PAD : N := 61.

Fixpoint b64encode (b : bytes) : ustr :=
  match b with
  | [] => []
  | [x] =>
      let n := Byte.to_N x in [b64char (n / 4); b64char (n mod 4 * 16); PAD; PAD]
  | [x; y] =>
      let n := Byte.to_N x in let m := Byte.to_N y in
      [b64char (n / 4); b64char (n mod 4 * 16 + m / 16); b64char (m mod 16 * 4); PAD]
  | x :: y :: z :: r =>
      let n := Byte.to_N x in let m := Byte.to_N y in let o := Byte.to_N z in
      b64char (n / 4) :: b64char (n mod 4 * 16 + m / 16)
      :: b64char (m mod 16 * 4 + o / 64) :: b64char (o mod 64) :: b64encode r
  end.

(** [binascii.a2b_base64(s, strict_mode=True)], from a position of the current
    group of four with the bits left over, the padding seen in the group and
    whether padding was seen at all. *)
Fixpoint a2b (s : ustr) (quad : nat) (left : N) (pads : nat) (padded : bool) : option bytes :=
  match s with
  | [] => if (quad =? 0)%nat then Some [] else None
  | c :: r =>
      if c =? PAD then
        if (2 <=? quad)%nat && (4 <=? quad + S pads)%nat
        then match r with [] => Some [] | _ => None end
        else a2b r quad left (if (2 <=? quad)%nat then S pads else pads) true
      else
        match b64val c with
        | None => None
        | Some v =>
            if padded then None
            else match quad with
                 | O => a2b r 1 v 0 false
                 | 1%nat => cons (byte_of (left * 4 + v / 16)) <$> a2b r 2 (v mod 16) 0 false
                 | 2%nat => cons (byte_of (left * 16 + v / 4)) <$> a2b r 3 (v mod 4) 0 false
                 | _ => cons (byte_of (left * 64 + v)) <$> a2b r 0 0 0 false
                 end
        end
  end.
(** [base64.b64decode(s, validate=True)]; [None] is any of its exceptions. *)
Definition b64decode (s : ustr) : option bytes :=
  match s with
  | c :: _ => if c =? PAD then None else a2b s 0 0 0 false
  | [] => Some []
  end.

(** ** UTF-8; [None] is the [UnicodeEncodeError] of a lone surrogate. *)
Definition utf8_char (c : N) : option bytes :=
  if c <? 128 then Some [byte_of c]
  else if c <? 2048 then Some [byte_of (192 + c / 64); byte_of (128 + c mod 64)]
  else if (55296 <=? c) && (c <=? 57343) then None
  else if c <? 65536 then
    Some [byte_of (224 + c / 4096); byte_of (128 + c / 64 mod 64); byte_of (128 + c mod 64)]
  else
    Some [byte_of (240 + c / 262144); byte_of (128 + c / 4096 mod 64);
          byte_of (128 + c / 64 mod 64); byte_of (128 + c mod 64)].
Fixpoint utf8 (s : ustr) : option bytes :=
  match s with
  | [] => Some []
  | c :: r => match utf8_char c, utf8 r with Some a, Some b => Some (a ++ b) | _, _ => None end
  end.
Definition encode (s : ustr) : result exn bytes :=
  match utf8 s with Some b => Ok b | None => Err ValueError end.

(** ** Decimal integers *)

Definition INT_MAX_STR_DIGITS : nat := 4300.

(** What the log relies on of the Unicode tables: [str.isdigit] and the
    decimal value of a character. *)
Class Unicode := {
  isdigit : N -> bool;
  decimal : N -> option N;
  isdigit_ascii : forall c, c < 128 -> isdigit c = (48 <=? c) && (c <=? 57);
  decimal_ascii : forall d, d < 10 -> decimal (48 + d) = Some d
}.

(** [str(n)] for [n >= 0] *)
Fixpoint digits (fuel : nat) (n : N) (acc : ustr) : ustr :=
  match fuel with
  | O => acc
  | S fuel =>
      let acc := (48 + n mod 10) :: acc in
      if n <? 10 then acc else digits fuel (n / 10) acc
  end.
Definition str_of_int (n : Z) : result exn ustr :=
  let s := digits (S (N.to_nat (N.log2 (Z.to_N n)))) (Z.to_N n) [] in
  if (INT_MAX_STR_DIGITS <? length s)%nat then Err ValueError else Ok s.

Section Digits.
Context `{Unicode}.
(** [int(s)] on a non-empty string of [isdigit] characters. *)
Fixpoint digits_value (acc : N) (s : ustr) : option N :=
  match s with
  | [] => Some acc
  | c :: r => match decimal c with Some d => digits_value (10 * acc + d) r | None => None end
  end.
Definition int_of_str (s : ustr) : result exn Z :=
  if (INT_MAX_STR_DIGITS <? length s)%nat then Err ValueError
  else match digits_value 0 s with Some n => Ok (Z.of_N n) | None => Err ValueError end.
(** [s.isdigit()] *)
Definition str_isdigit (s : ustr) : bool :=
  match s with [] => false | _ => forallb isdigit s end.
(** The size lines of a checkpoint and of a request: [s != "0" and (not
    s.isdigit() or s.startswith("0"))] is the error case. *)
Definition malformed_size (s : ustr) : bool :=
  negb (bool_decide (s = [48]))
  && (negb (str_isdigit s) || match s with c :: _ => c =? 48 | [] => false end).
End Digits.

(** ** Checkpoints *)

Definition has_control_chars (line : ustr) : bool := existsb (fun ch => ch <? 32) line.

Record Checkpoint := {
  origin : ustr;
  tree_size : Z;
  root_hash : bytes;
  extension_lines : list ustr
}.

#[export] Instance Checkpoint_eq : EqDecision Checkpoint.
Proof. solve_decision. Defined.

(** [Checkpoint(...)] with its [__post_init__]. *)
Definition new_checkpoint (origin : ustr) (tree_size : Z) (root_hash : bytes)
    (extension_lines : list ustr) : result exn Checkpoint :=
  if bool_decide (origin = []) || existsb (N.eqb NL) origin || has_control_chars origin
  then Err ValueError
  else if (tree_size <? 0)%Z then Err ValueError
  else if negb (len root_hash =? 32)%Z then Err ValueError
  else if existsb (fun line => bool_decide (line = []) || has_control_chars line) extension_lines
  then Err ValueError
  else Ok {| origin := origin; tree_size := tree_size; root_hash := root_hash;
             extension_lines := extension_lines |}.

Definition root_hash_hex (c : Checkpoint) : ustr := hex (root_hash c).

Definition note_text (c : Checkpoint) : result exn ustr :=
  size ← str_of_int (tree_size c);
  Ok (join_nl (origin c :: size :: b64encode (root_hash c) :: extension_lines c) ++ [NL]).

Definition parse `{Unicode} (note_text : ustr) : result exn Checkpoint :=
  match drop_last_nl note_text with
  | None => Err ValueError
  | Some text =>
      match split_nl text with
      | origin :: size_line :: root_line :: extensions =>
          if malformed_size size_line then Err ValueError
          else match b64decode root_line with
               | None => Err ValueError
               | Some root =>
                   size ← int_of_str size_line;
                   new_checkpoint origin size root extensions
               end
      | _ => Err ValueError
      end
  end.

(** ** Signed notes *)

Definition NOTE_ALG_ED25519 : bytes := [x01].
Definition SIG_LINE_PREFIX : ustr := [8212; 32].

(** The signature scheme: whether a signature of a message verifies under a
    raw public key. *)
Class Ed25519 := { ed25519_verify : bytes -> bytes -> bytes -> bool }.

Section Notes.
Context `{Sha} `{Ed25519}.

Definition ed25519_key_id (name : ustr) (alg_byte public_key_raw : bytes) : result exn bytes :=
  n ← encode name;
  Ok (take 4 (sha256 (n ++ [x0a] ++ alg_byte ++ public_key_raw))).

Record NoteVerifier := { v_name : ustr; public_key_raw : bytes }.
Definition new_verifier (name : ustr) (key : bytes) : result exn NoteVerifier :=
  if negb (len key =? 32)%Z then Err ValueError
  else Ok {| v_name := name; public_key_raw := key |}.
Definition key_id (v : NoteVerifier) : result exn bytes :=
  ed25519_key_id (v_name v) NOTE_ALG_ED25519 (public_key_raw v).
Definition v_verify (v : NoteVerifier) (message signature : bytes) : bool :=
  ed25519_verify (public_key_raw v) signature message.

(** A signer: its name, its public key, and what its private key computes. *)
Record NoteSigner := { s_name : ustr; s_public_raw : bytes; s_sign : bytes -> bytes }.
Definition new_signer (name : ustr) (public_raw : bytes) (sign : bytes -> bytes) : result exn NoteSigner :=
  if bool_decide (name = []) || existsb (N.eqb NL) name then Err ValueError
  else Ok {| s_name := name; s_public_raw := public_raw; s_sign := sign |}.
Definition verifier (s : NoteSigner) : result exn NoteVerifier :=
  new_verifier (s_name s) (s_public_raw s).

Definition sign_note (s : NoteSigner) (note_text : ustr) : result exn ustr :=
  if negb (isSome (drop_last_nl note_text)) || isSome (cut_blank note_text) then Err ValueError
  else
    m ← encode note_text;
    k ← ed25519_key_id (s_name s) NOTE_ALG_ED25519 (s_public_raw s);
    Ok (note_text ++ [NL] ++ SIG_LINE_PREFIX ++ s_name s ++ [SPACE]
        ++ b64encode (k ++ s_sign s m) ++ [NL]).

Definition is_sig_line (line : ustr) : bool := isSome (strip_prefix SIG_LINE_PREFIX line).

Definition split_signed_note (signed : ustr) : result exn (ustr * list ustr) :=
  match cut_blank signed with
  | None => Err ValueError
  | Some (text, sig_block) =>
      let lines := filter (fun line => line <> []) (split_nl sig_block) in
      match lines with
      | [] => Err ValueError
      | _ => if forallb is_sig_line lines then Ok (text, lines) else Err ValueError
      end
  end.

Definition parse_signature_line (line : ustr) : option (ustr * bytes) :=
  match strip_prefix SIG_LINE_PREFIX line with
  | None => None
  | Some rest =>
      match rcut SPACE rest with
      | None | Some ([], _) => None
      | Some (name, b64) =>
          match b64decode b64 with Some blob => Some (name, blob) | None => None end
      end
  end.

(** The keys of one name against one signature: [None] is the rejection of the
    whole note. *)
Fixpoint try_keys (vs : list NoteVerifier) (message key_id_ signature : bytes) (verified : list ustr)
    : result exn (option (list ustr)) :=
  match vs with
  | [] => Ok (Some verified)
  | v :: vs =>
      k ← key_id v;
      if negb (bool_decide (k = key_id_)) then try_keys vs message key_id_ signature verified
      else if v_verify v message signature
           then try_keys vs message key_id_ signature (verified ++ [v_name v])
           else Ok None
  end.

Fixpoint verify_lines (lines : list ustr) (vs : list NoteVerifier) (message : bytes) (verified : list ustr)
    : result exn (option (list ustr)) :=
  match lines with
  | [] => Ok (Some verified)
  | line :: lines =>
      match parse_signature_line line with
      | None => Ok None
      | Some (name, blob) =>
          if (len blob <? 4)%Z then Ok None
          else
            r ← try_keys (filter (fun v => v_name v = name) vs) message (take 4 blob) (drop 4 blob) verified;
            match r with
            | None => Ok None
            | Some verified => verify_lines lines vs message verified
            end
      end
  end.

(** [dict.fromkeys(l)]: the first occurrences. *)
Fixpoint first_occurrences (seen : list ustr) (l : list ustr) : list ustr :=
  match l with
  | [] => []
  | x :: l => if decide (x ∈ seen) then first_occurrences seen l else x :: first_occurrences (x :: seen) l
  end.

Definition verify_note (signed : ustr) (verifiers : list NoteVerifier) : result exn (list ustr) :=
  match split_signed_note signed with
  | Err _ => Ok []
  | Ok (text, sig_lines) =>
      message ← encode text;
      r ← verify_lines sig_lines verifiers message [];
      Ok (match r with None => [] | Some verified => first_occurrences [] verified end)
  end.

(** ** The publisher *)

Record SignedCheckpoint := {
  checkpoint : Checkpoint;
  signed_note : ustr;
  record_hashes : list ustr
}.

Definition build_add_checkpoint_body (old_size : Z) (proof_hex : list ustr) (signed_note : ustr)
    : result exn ustr :=
  if (old_size <? 0)%Z then Err ValueError
  else match decode_hash_list proof_hex with
       | None => Err ValueError
       | Some nodes =>
           size ← str_of_int old_size;
           Ok (join_nl ((u "old " ++ size) :: (b64encode <$> nodes)) ++ [NL; NL] ++ signed_note)
       end.

(** The publisher's origin and signer; the record hashes are what its source
    holds at the time of the call. *)
Record CheckpointPublisher := { p_origin : ustr; p_signer : NoteSigner }.

Definition current_signed_checkpoint (p : CheckpointPublisher) (hashes : list ustr)
    : result exn SignedCheckpoint :=
  root_hex ← merkle_root hashes;
  root ← fromhex_exn root_hex;
  c ← new_checkpoint (p_origin p) (len hashes) root [];
  text ← note_text c;
  signed ← sign_note (p_signer p) text;
  Ok {| checkpoint := c; signed_note := signed; record_hashes := hashes |}.

Definition build_add_checkpoint_request (p : CheckpointPublisher) (hashes : list ustr) (old_size : Z)
    : result exn ustr :=
  snapshot ← current_signed_checkpoint p hashes;
  let size := tree_size (checkpoint snapshot) in
  proof ← (if (old_size =? 0)%Z || (old_size =? size)%Z then Ok []
           else consistency_path old_size (record_hashes snapshot));
  build_add_checkpoint_body old_size proof (signed_note snapshot).

Definition inclusion_proof (leaf_index : Z) (snapshot : SignedCheckpoint) : result exn (list ustr) :=
  inclusion_path leaf_index (record_hashes snapshot).
End Notes.
