(* ===== verification/GixNoteSpec.v ===== *)
(** * Round trips of checkpoints and signed notes

    Base64 and decimals decode what they encode; a checkpoint's text parses
    back to the checkpoint; a signed note splits into its text and its
    signature line and verifies under the signer's key. *)
From Stdlib Require Import Init.Byte.
From S2P Require Import Prelude PyBytes Merkle GixNote.
Open Scope N_scope.

(** Linear arithmetic with division and remainder by constants. *)
Ltac divlia := zify; Z.to_euclidean_division_equations; lia.

(** ** Base64 *)

Lemma b64char_range n : n < 64 -> 43 <= b64char n < 123 /\ b64char n <> PAD.
Proof. unfold b64char, PAD. intros. repeat case_match; rewrite ?N.ltb_lt, ?N.ltb_ge, ?N.eqb_eq in *; lia. Qed.

Lemma b64val_char n : n < 64 -> b64val (b64char n) = Some n.
Proof.
  intros Hn. unfold b64char, b64val.
  repeat case_match; rewrite ?andb_true_iff, ?andb_false_iff, ?N.ltb_lt, ?N.ltb_ge, ?N.eqb_eq, ?N.eqb_neq,
    ?N.leb_le, ?N.leb_gt in *; try (f_equal; lia); try lia.
Qed.

Lemma a2b_char n s quad left :
  n < 64 ->
  a2b (b64char n :: s) quad left 0 false =
    match quad with
    | O => a2b s 1 n 0 false
    | 1%nat => cons (byte_of (left * 4 + n / 16)) <$> a2b s 2 (n mod 16) 0 false
    | 2%nat => cons (byte_of (left * 16 + n / 4)) <$> a2b s 3 (n mod 4) 0 false
    | _ => cons (byte_of (left * 64 + n)) <$> a2b s 0 0 0 false
    end.
Proof.
  intros Hn. cbn [a2b]. destruct (b64char_range n Hn) as [_ Hp].
  by rewrite (proj2 (N.eqb_neq _ PAD)), b64val_char.
Qed.

Lemma byte_of_eq b n : n = Byte.to_N b -> byte_of n = b.
Proof. intros ->. apply byte_of_to_N. Qed.

Lemma a2b_encode b : a2b (b64encode b) 0 0 0 false = Some b.
Proof.
  induction b as [b IH] using (induction_ltof1 _ (@length byte)). unfold ltof in IH.
  destruct b as [|x [|y [|z b]]]; cbn [b64encode]; [done|..];
    pose proof (to_N_lt x); try pose proof (to_N_lt y); try pose proof (to_N_lt z).
  - repeat (rewrite a2b_char by divlia; cbv match). cbn. do 2 f_equal. apply byte_of_eq. divlia.
  - repeat (rewrite a2b_char by divlia; cbv match). cbn. do 3 f_equal; [|f_equal]; apply byte_of_eq; divlia.
  - repeat (rewrite a2b_char by divlia; cbv match). rewrite IH by (simpl; lia). cbn.
    do 2 f_equal; [|f_equal; [|f_equal]]; apply byte_of_eq; divlia.
Qed.

Lemma b64decode_encode b : b64decode (b64encode b) = Some b.
Proof.
  pose proof (a2b_encode b) as Ha. unfold b64decode.
  destruct (b64encode b) as [|c s] eqn:E; [done|].
  rewrite (proj2 (N.eqb_neq c PAD)); [done|]. clear Ha.
  destruct b as [|x [|y [|z b]]]; simplify_eq/=; pose proof (to_N_lt x);
    by apply b64char_range; divlia.
Qed.

(** The characters of an encoding: above the space, so no separator. *)
Lemma b64encode_chars b : Forall (fun c => 32 < c) (b64encode b).
Proof.
  assert (forall n, n < 64 -> 32 < b64char n) as Hc.
  { intros n Hn. destruct (b64char_range n Hn). lia. }
  induction b as [b IH] using (induction_ltof1 _ (@length byte)). unfold ltof in IH.
  destruct b as [|x [|y [|z b]]]; cbn [b64encode]; [constructor|..];
    pose proof (to_N_lt x); try pose proof (to_N_lt y); try pose proof (to_N_lt z);
    repeat (apply list.Forall_cons; split); try (apply Hc; divlia); try done.
  apply IH. simpl. lia.
Qed.

(** ** Decimals *)

Lemma digits_app fuel n acc : digits fuel n acc = digits fuel n [] ++ acc.
Proof.
  revert n acc. induction fuel as [|fuel IH]; intros n acc; [done|]. cbn [digits].
  case_match; [done|]. rewrite (IH _ (_ :: acc)), (IH _ [_]), <- app_assoc. done.
Qed.

Lemma digits_S fuel n :
  digits (S fuel) n [] = if n <? 10 then [48 + n] else digits fuel (n / 10) [] ++ [48 + n mod 10].
Proof.
  cbn [digits]. destruct (N.ltb_spec n 10); [by rewrite N.mod_small|]. apply digits_app.
Qed.

Lemma digits_chars fuel n : Forall (fun c => 48 <= c < 58) (digits fuel n []).
Proof.
  revert n. induction fuel as [|fuel IH]; intros n; [constructor|]. rewrite digits_S.
  destruct (N.ltb_spec n 10); [by repeat constructor; lia|].
  apply Forall_app. split; [done|]. repeat constructor; divlia.
Qed.

Section Value.
Context `{Unicode}.

Lemma digits_value_app a x y :
  digits_value a (x ++ y) = match digits_value a x with Some a' => digits_value a' y | None => None end.
Proof. revert a. induction x as [|c x IH]; intros a; [done|]. cbn. by destruct (decimal c). Qed.

Lemma digits_value_digits fuel n :
  n < 2 ^ N.of_nat fuel -> (0 < fuel)%nat -> digits_value 0 (digits fuel n []) = Some n.
Proof.
  revert n. induction fuel as [|fuel IH]; intros n Hn Hf; [lia|]. rewrite digits_S.
  destruct (N.ltb_spec n 10); [cbn; by rewrite decimal_ascii|].
  rewrite Nat2N.inj_succ, N.pow_succ_r' in Hn.
  rewrite digits_value_app, IH.
  - cbn. rewrite decimal_ascii by divlia. f_equal. divlia.
  - remember (2 ^ N.of_nat fuel) as k. divlia.
  - destruct fuel; [cbn in Hn; lia|lia].
Qed.

Lemma digits_head fuel n :
  n < 2 ^ N.of_nat fuel -> (0 < fuel)%nat -> 0 < n ->
  exists c r, digits fuel n [] = c :: r /\ c <> 48.
Proof.
  revert n. induction fuel as [|fuel IH]; intros n Hn Hf H0; [lia|]. rewrite digits_S.
  destruct (N.ltb_spec n 10); [eexists _, _; split; [done|lia]|].
  rewrite Nat2N.inj_succ, N.pow_succ_r' in Hn.
  destruct (IH (n / 10)) as (c & r & -> & Hc); [|destruct fuel; [cbn in Hn; lia|lia]|divlia|].
  { remember (2 ^ N.of_nat fuel) as k. divlia. }
  by eexists _, _.
Qed.

Lemma log2_fuel n : n < 2 ^ N.of_nat (S (N.to_nat (N.log2 n))).
Proof.
  rewrite Nat2N.inj_succ, N2Nat.id. destruct (decide (n = 0)) as [->|]; [done|].
  apply N.log2_spec. lia.
Qed.

(** A size written by the code is accepted and read back. *)
Lemma str_of_int_spec n s :
  (0 <= n)%Z -> str_of_int n = Ok s ->
  malformed_size s = false /\ int_of_str s = Ok n /\ Forall (fun c => 32 < c) s.
Proof.
  intros Hn. unfold str_of_int, int_of_str. set (m := Z.to_N n).
  pose proof (log2_fuel m) as Hm. assert (0 < S (N.to_nat (N.log2 m)))%nat as Hf by lia. revert Hm Hf.
  generalize (S (N.to_nat (N.log2 m))) as fuel. intros fuel Hm Hf.
  destruct (_ <? _)%nat eqn:El; [done|]. intros [= <-]. rewrite El, digits_value_digits by (done || lia). split; [|split].
  - unfold malformed_size. destruct (decide (m = 0)) as [->|Hm0].
    { destruct fuel; [lia|]. by rewrite digits_S, bool_decide_eq_true_2. }
    pose proof (digits_chars fuel m) as Hc.
    destruct (digits_head fuel m) as (c & r & E & Hc48); [done|lia|lia|].
    rewrite E in Hc |- *. rewrite (proj2 (N.eqb_neq c 48)) by done. rewrite orb_false_r.
    unfold str_isdigit. apply andb_false_intro2. apply negb_false_iff, forallb_forall.
    intros d Hd. apply list_elem_of_In in Hd. rewrite list.Forall_forall in Hc. specialize (Hc d Hd).
    simpl in Hc. rewrite isdigit_ascii by lia. apply andb_true_iff. rewrite !N.leb_le. lia.
  - f_equal. subst m. lia.
  - eapply list.Forall_impl; [apply digits_chars|]. simpl. lia.
Qed.
End Value.

(** ** Lines *)

Lemma plain_no_nl l : Forall (fun c => 32 <= c) l -> NL ∉ l.
Proof. intros Hl Hin. rewrite list.Forall_forall in Hl. specialize (Hl _ Hin). unfold NL in Hl. simpl in Hl. lia. Qed.
Lemma above_no_nl l : Forall (fun c => 32 < c) l -> NL ∉ l.
Proof. intros Hl. apply plain_no_nl. eapply list.Forall_impl; [done|]. simpl. lia. Qed.
Lemma above_no_space l : Forall (fun c => 32 < c) l -> SPACE ∉ l.
Proof. intros Hl Hin. rewrite list.Forall_forall in Hl. specialize (Hl _ Hin). unfold SPACE in Hl. simpl in Hl. lia. Qed.

Lemma split_nl_line l r : NL ∉ l -> split_nl (l ++ NL :: r) = l :: split_nl r.
Proof.
  induction l as [|c l IH]; intros Hl; [done|]. rewrite not_elem_of_cons in Hl. destruct Hl as [Hc Hl].
  cbn [app split_nl]. by rewrite (proj2 (N.eqb_neq c NL)), IH by done.
Qed.
Lemma split_nl_last l : NL ∉ l -> split_nl l = [l].
Proof.
  induction l as [|c l IH]; intros Hl; [done|]. rewrite not_elem_of_cons in Hl. destruct Hl as [Hc Hl].
  cbn [split_nl]. by rewrite (proj2 (N.eqb_neq c NL)), IH by done.
Qed.
Lemma split_join lines : lines <> [] -> Forall (fun l => NL ∉ l) lines -> split_nl (join_nl lines) = lines.
Proof.
  intros Hne Hl. induction Hl as [|l lines Hl Hls IH]; [done|].
  destruct lines as [|k lines]; [by apply split_nl_last|].
  change (join_nl (l :: k :: lines)) with (l ++ NL :: join_nl (k :: lines)).
  by rewrite split_nl_line, IH.
Qed.

Lemma cut_nl_line l r : NL ∉ l -> cut_nl (l ++ NL :: r) = Some (l, r).
Proof.
  induction l as [|c l IH]; intros Hl; [done|]. rewrite not_elem_of_cons in Hl. destruct Hl as [Hc Hl].
  cbn [app cut_nl]. by rewrite (proj2 (N.eqb_neq c NL)), IH by done.
Qed.

Lemma drop_last_nl_snoc s : drop_last_nl (s ++ [NL]) = Some s.
Proof.
  induction s as [|c s IH]; [done|]. cbn [app drop_last_nl].
  destruct (s ++ [NL]) eqn:E; [by destruct s|]. by rewrite IH.
Qed.
Lemma drop_last_nl_Some s t : drop_last_nl s = Some t -> s = t ++ [NL].
Proof.
  revert t. induction s as [|c s IH]; intros t; [done|]. cbn [drop_last_nl].
  destruct s as [|d s]; [destruct (N.eqb_spec c NL) as [->|]; by intros [= <-]|].
  destruct (drop_last_nl (d :: s)) as [t'|]; [|done]. intros [= <-].
  by rewrite (IH t').
Qed.

(** The first blank line after a text without one that ends its last line. *)
Lemma cut_blank_text t r :
  cut_blank (t ++ [NL]) = None -> cut_blank (t ++ [NL; NL] ++ r) = Some (t ++ [NL], r).
Proof.
  induction t as [|c t IH]; intros Hn; [done|]. cbn [app] in Hn |- *.
  assert (forall x y s, cut_blank (x :: y :: s) =
    if (x =? NL) && (y =? NL) then Some ([x], s)
    else match cut_blank (y :: s) with Some (a, b) => Some (x :: a, b) | None => None end) as Hcb by done.
  destruct t as [|d t]; cbn [app] in *; rewrite Hcb in Hn |- *; (case_match; [done|]);
    (rewrite IH; [done|]); by destruct (cut_blank _) as [[??]|].
Qed.

Lemma rcut_none c s : c ∉ s -> rcut c s = None.
Proof.
  induction s as [|x s IH]; intros Hs; [done|]. rewrite not_elem_of_cons in Hs. destruct Hs as [Hx Hs].
  simpl. rewrite IH by done. by rewrite (proj2 (N.eqb_neq x c)) by done.
Qed.
Lemma rcut_last c a b : c ∉ b -> rcut c (a ++ c :: b) = Some (a, b).
Proof.
  intros Hb. induction a as [|x a IH]; simpl.
  - by rewrite rcut_none, N.eqb_refl.
  - by rewrite IH.
Qed.

Lemma strip_prefix_app p s : strip_prefix p (p ++ s) = Some s.
Proof. induction p as [|c p IH]; [done|]. simpl. by rewrite N.eqb_refl. Qed.

(** ** Checkpoints *)

Definition line_ok (line : ustr) : Prop := line <> [] /\ Forall (fun c => 32 <= c) line.

Lemma has_control_chars_false l : has_control_chars l = false <-> Forall (fun c => 32 <= c) l.
Proof.
  unfold has_control_chars. induction l as [|c l IH]; simpl; [by split|].
  rewrite orb_false_iff, N.ltb_ge, list.Forall_cons, IH. done.
Qed.

(** What [__post_init__] lets through. *)
Lemma new_checkpoint_Ok o n r e c :
  new_checkpoint o n r e = Ok c <->
  c = {| origin := o; tree_size := n; root_hash := r; extension_lines := e |}
  /\ line_ok o /\ (0 <= n)%Z /\ length r = 32%nat /\ Forall line_ok e.
Proof.
  unfold new_checkpoint, line_ok.
  destruct (bool_decide_reflect (o = [])) as [->|Ho]; [split; [done|naive_solver]|].
  destruct (has_control_chars o) eqn:Ec.
  { rewrite orb_true_r. split; [done|]. intros (_ & [_ Hp] & _).
    apply has_control_chars_false in Hp. congruence. }
  apply has_control_chars_false in Ec.
  assert (existsb (N.eqb NL) o = false) as ->.
  { apply not_true_iff_false. intros Hx. apply existsb_exists in Hx as (x & Hx & E).
    apply N.eqb_eq in E as <-. by eapply plain_no_nl, list_elem_of_In. }
  simpl. destruct (Z.ltb_spec n 0); [split; [done|lia]|].
  destruct (Z.eqb_spec (len r) 32) as [El|El]; simpl; [|split; [done|unfold len in El; lia]].
  destruct (existsb _ e) eqn:Ee.
  - split; [done|]. intros (_ & _ & _ & _ & He). apply existsb_exists in Ee as (l & Hl & E).
    rewrite list.Forall_forall in He. destruct (He l) as [Hl1 Hl2]; [by apply list_elem_of_In|].
    apply has_control_chars_false in Hl2. rewrite Hl2, bool_decide_eq_false_2 in E; done.
  - assert (Forall (fun l => l <> [] /\ Forall (fun c => 32 <= c) l) e) as He.
    { apply list.Forall_forall. intros l Hl. apply list_elem_of_In in Hl.
      apply not_true_iff_false in Ee. rewrite existsb_exists in Ee.
      destruct (decide (l = [])) as [->|Hl1]; [destruct Ee; exists []; done|]. split; [done|].
      apply has_control_chars_false. destruct (has_control_chars l) eqn:E; [|done].
      destruct Ee. exists l. by rewrite E, orb_true_r. }
    split; [intros [= <-]|intros (-> & _)]; [|done].
    unfold len in El. split; [done|]. split; [done|]. split; [done|]. split; [lia|done].
Qed.

Lemma parse_note_text `{Unicode} (o : ustr) (n : Z) (r : bytes) (e : list ustr) c text :
  new_checkpoint o n r e = Ok c -> note_text c = Ok text -> parse text = Ok c.
Proof.
  intros Hc Ht. pose proof Hc as Hc'. apply new_checkpoint_Ok in Hc' as (-> & [Ho1 Ho2] & Hn & Hr & He).
  unfold note_text in Ht. cbn [tree_size origin root_hash extension_lines] in Ht.
  destruct (str_of_int n) as [s|] eqn:Es; [|done].
  assert (text = join_nl (o :: s :: b64encode r :: e) ++ [NL]) as -> by (by inversion Ht).
  destruct (str_of_int_spec n s Hn Es) as (Hm & Hi & Hs).
  unfold parse. rewrite drop_last_nl_snoc, split_join; [|done|].
  - by rewrite Hm, b64decode_encode, Hi.
  - repeat (apply list.Forall_cons; split).
    + by apply plain_no_nl.
    + by apply above_no_nl.
    + apply above_no_nl, b64encode_chars.
    + eapply list.Forall_impl; [exact He|]. intros l [_ Hl]. by apply plain_no_nl.
Qed.

(** The text of a checkpoint parses back to it: origin, size, root and
    extension lines, for every checkpoint its constructor accepts (and
    whose size can be printed). *)
Theorem checkpoint_roundtrip `{Unicode} (o : ustr) (n : Z) (r : bytes) (e : list ustr) c text :
  new_checkpoint o n r e = Ok c -> note_text c = Ok text -> parse text = Ok c.
Proof. apply parse_note_text. Qed.

Section Signed.
Context `{Sha} `{Ed25519}.

Lemma length_key_id name alg pk k : ed25519_key_id name alg pk = Ok k -> length k = 4%nat.
Proof.
  unfold ed25519_key_id. intros Hk. apply result_bind_Ok in Hk as (b & _ & [= <-]).
  rewrite length_take, sha256_length. done.
Qed.

Lemma sign_note_shape s text signed :
  sign_note s text = Ok signed ->
  exists m k, encode text = Ok m
    /\ ed25519_key_id (s_name s) NOTE_ALG_ED25519 (s_public_raw s) = Ok k
    /\ cut_blank signed = Some (text, SIG_LINE_PREFIX ++ s_name s ++ [SPACE]
                                 ++ b64encode (k ++ s_sign s m) ++ [NL]).
Proof.
  unfold sign_note. destruct (drop_last_nl text) as [t|] eqn:Et; [|done].
  destruct (cut_blank text) eqn:Eb; [done|]. simpl. intros Hs.
  apply result_bind_Ok in Hs as (m & Hm & Hs). apply result_bind_Ok in Hs as (k & Hk & [= <-]).
  exists m, k. split; [done|]. split; [done|]. apply drop_last_nl_Some in Et as ->.
  rewrite <- app_assoc. by apply cut_blank_text.
Qed.

(** A signature line is one line, it is recognised, and it parses. *)
Lemma signature_line_parses s k sig :
  NL ∉ s_name s -> s_name s <> [] ->
  let line := SIG_LINE_PREFIX ++ s_name s ++ [SPACE] ++ b64encode (k ++ sig) in
  split_nl (line ++ [NL]) = [line; []] /\ is_sig_line line = true
  /\ parse_signature_line line = Some (s_name s, k ++ sig).
Proof.
  intros Hnl Hne line. pose proof (b64encode_chars (k ++ sig)) as Hb. split; [|split].
  - apply split_nl_line. subst line. rewrite !not_elem_of_app. split; [by compute_done|].
    split; [done|]. split; [by compute_done|by apply above_no_nl].
  - subst line. unfold is_sig_line. by rewrite strip_prefix_app.
  - subst line. unfold parse_signature_line. rewrite strip_prefix_app. cbn [app].
    rewrite rcut_last by (by apply above_no_space).
    rewrite b64decode_encode. by destruct (s_name s).
Qed.

Lemma verify_signed_note (name : ustr) (pk : bytes) (sign : bytes -> bytes) s v text signed :
  (forall m, ed25519_verify pk (sign m) m = true) ->
  new_signer name pk sign = Ok s -> verifier s = Ok v -> sign_note s text = Ok signed ->
  verify_note signed [v] = Ok [name]
  /\ exists lines, split_signed_note signed = Ok (text, lines).
Proof.
  intros Hver Hs Hv Hsig. unfold new_signer in Hs.
  destruct (bool_decide_reflect (name = [])) as [|Hne]; [done|]. simpl in Hs.
  destruct (existsb (N.eqb NL) name) eqn:En; [done|]. injection Hs as <-.
  assert (NL ∉ name) as Hnl.
  { intros Hin. apply not_true_iff_false in En. apply En, existsb_exists.
    exists NL. split; [by apply list_elem_of_In|done]. }
  unfold verifier, new_verifier in Hv. case_match; [done|]. injection Hv as <-.
  destruct (sign_note_shape _ _ _ Hsig) as (m & k & Hm & Hk & Hcut). cbn [s_name s_public_raw s_sign] in *.
  destruct (signature_line_parses {| s_name := name; s_public_raw := pk; s_sign := sign |} k (sign m))
    as (Hsp & His & Hp); [done..|]. cbn [s_name] in *.
  set (line := SIG_LINE_PREFIX ++ name ++ [SPACE] ++ b64encode (k ++ sign m)) in *.
  assert (split_signed_note signed = Ok (text, [line])) as Hsplit.
  { unfold split_signed_note. rewrite Hcut.
    replace (SIG_LINE_PREFIX ++ name ++ [SPACE] ++ b64encode (k ++ sign m) ++ [NL]) with (line ++ [NL])
      by (subst line; by rewrite <- !app_assoc). rewrite Hsp.
    rewrite filter_cons_True by done. rewrite filter_cons_False, filter_nil by naive_solver.
    cbn [forallb]. by rewrite His. }
  split; [|by eexists]. unfold verify_note. rewrite Hsplit, Hm. cbn [verify_lines mbind result_bind].
  rewrite Hp. pose proof (length_key_id _ _ _ _ Hk) as Lk.
  rewrite (proj2 (Z.ltb_ge _ 4)) by (unfold len; rewrite length_app; lia).
  rewrite filter_cons_True by done. cbn [filter list_filter try_keys]. unfold key_id. cbn [v_name public_key_raw].
  rewrite Hk. cbn [mbind result_bind]. rewrite take_app_length', drop_app_length' by done.
  rewrite bool_decide_eq_true_2 by done. unfold v_verify. cbn [public_key_raw negb]. by rewrite Hver.
Qed.
(** A note signed by a signer verifies under that signer's pinned key,
    and under it alone it reports exactly the signer's name; splitting it gives
    back the text that was signed. *)
Theorem signed_note_verifies (name : ustr) (pk : bytes) (sign : bytes -> bytes) s v text signed :
  (forall m, ed25519_verify pk (sign m) m = true) ->
  new_signer name pk sign = Ok s -> verifier s = Ok v -> sign_note s text = Ok signed ->
  verify_note signed [v] = Ok [name]
  /\ exists lines, split_signed_note signed = Ok (text, lines).
Proof. apply verify_signed_note. Qed.
End Signed.
