(* ===== verification/GixWitness.v ===== *)
(** * Witnesses

    Models [interchange/gix_witness.py]: the parser of a request, the
    add-checkpoint state machine of a witness, its cosignatures, and the
    relying party's verification of a cosigned checkpoint.  A call is a
    computation of [StateExn] on the witness: the lock makes it atomic, the
    clock is an argument, and an exception keeps the state reached so far.  The
    free-text reasons of the responses are left out. *)
From Stdlib Require Import Init.Byte.
From S2P Require Import Prelude StateExn PyBytes Merkle GixNote.
Open Scope Z_scope.

Definition COSIG_ALG_ED25519 : bytes := [x04].
Definition COSIG_HEADER : ustr := u "cosignature/v1" ++ [NL].
Definition MAX_PROOF_LINES : nat := 63.

Inductive WitnessProvenance := IN_PROCESS | SELF_HOSTED | EXTERNAL_FEDERATED.
#[export] Instance WitnessProvenance_eq : EqDecision WitnessProvenance.
Proof. solve_decision. Defined.

Inductive WitnessOutcome :=
| COSIGNED | MALFORMED | LOG_UNAUTHENTICATED | UNKNOWN_LOG | CONFLICT | BAD_CONSISTENCY_PROOF.
#[export] Instance WitnessOutcome_eq : EqDecision WitnessOutcome.
Proof. solve_decision. Defined.

Definition http_analog (o : WitnessOutcome) : Z :=
  match o with
  | COSIGNED => 200 | MALFORMED => 400 | LOG_UNAUTHENTICATED => 403
  | UNKNOWN_LOG => 404 | CONFLICT => 409 | BAD_CONSISTENCY_PROOF => 422
  end.

Record WitnessResponse := {
  outcome : WitnessOutcome;
  cosignature_line : option ustr;
  latest_size_hint : option Z
}.
Definition refuse (o : WitnessOutcome) : WitnessResponse :=
  {| outcome := o; cosignature_line := None; latest_size_hint := None |}.
Definition conflict (latest_size : Z) : WitnessResponse :=
  {| outcome := CONFLICT; cosignature_line := None; latest_size_hint := Some latest_size |}.
Definition cosigned (r : WitnessResponse) : bool := bool_decide (outcome r = COSIGNED).

Record WitnessDescriptor := {
  d_name : ustr;
  d_public_key_raw : bytes;
  d_provenance : WitnessProvenance
}.
Definition new_descriptor (name : ustr) (key : bytes) (p : WitnessProvenance)
    : result exn WitnessDescriptor :=
  if bool_decide (p = EXTERNAL_FEDERATED) then Err ValueError
  else if negb (len key =? 32) then Err ValueError
  else Ok {| d_name := name; d_public_key_raw := key; d_provenance := p |}.

(** The lines of the consistency proof, up to the blank line; [None] is a
    malformed body.  Each round consumes a newline, so a fuel above the length
    of the text is never spent. *)
Fixpoint proof_lines (fuel : nat) (rest : ustr) (proof : list ustr) : option (list ustr * ustr) :=
  match fuel with
  | O => None
  | S fuel =>
      match cut_nl rest with
      | None => None
      | Some (line, rest) =>
          if bool_decide (line = []) then Some (proof, rest)
          else if (MAX_PROOF_LINES <=? length proof)%nat then None
          else match b64decode line with
               | None => None
               | Some raw =>
                   if negb (len raw =? 32) then None
                   else proof_lines fuel rest (proof ++ [hex raw])
               end
      end
  end.

Section Body.
Context `{Unicode}.

(** [_parse_add_checkpoint_body]; [Ok None] is the returned reason. *)
Definition parse_add_checkpoint_body (body : ustr) : result exn (option (Z * list ustr * ustr)) :=
  match cut_nl body with
  | None => Ok None
  | Some (old_line, rest) =>
      match strip_prefix (u "old ") old_line with
      | None => Ok None
      | Some size_text =>
          if malformed_size size_text then Ok None
          else
            old_size ← int_of_str size_text;
            match proof_lines (S (length rest)) rest [] with
            | None => Ok None
            | Some (proof, rest) =>
                if bool_decide (rest = []) then Ok None else Ok (Some (old_size, proof, rest))
            end
      end
  end.
End Body.

(** ** The witness *)

Record witness := {
  w_name : ustr;
  w_provenance : WitnessProvenance;
  w_public_raw : bytes;
  w_sign : bytes -> bytes;
  trusted : gmap ustr NoteVerifier;
  latest : gmap ustr (Z * bytes)
}.
Definition set_latest (l : gmap ustr (Z * bytes)) (w : witness) : witness :=
  {| w_name := w_name w; w_provenance := w_provenance w; w_public_raw := w_public_raw w;
     w_sign := w_sign w; trusted := trusted w; latest := l |}.

Definition new_witness (name : ustr) (trusted_logs : gmap ustr NoteVerifier) (p : WitnessProvenance)
    (public_raw : bytes) (sign : bytes -> bytes) : result exn witness :=
  if bool_decide (p = EXTERNAL_FEDERATED) then Err ValueError
  else if bool_decide (name = []) || existsb (N.eqb NL) name then Err ValueError
  else Ok {| w_name := name; w_provenance := p; w_public_raw := public_raw; w_sign := sign;
             trusted := trusted_logs; latest := ∅ |}.

Definition descriptor (w : witness) : result exn WitnessDescriptor :=
  new_descriptor (w_name w) (w_public_raw w) (w_provenance w).

Definition latest_size (w : witness) (o : ustr) : Z :=
  match latest w !! o with Some (n, _) => n | None => 0 end.

Section Witness.
Context `{Sha} `{Ed25519} `{Unicode}.

Definition descriptor_key_id (d : WitnessDescriptor) : result exn bytes :=
  n ← encode (d_name d);
  Ok (take 4 (sha256 (n ++ [x0a] ++ COSIG_ALG_ED25519 ++ d_public_key_raw d))).

Definition time_line (t : Z) : result exn bytes :=
  s ← str_of_int t; encode (u "time " ++ s ++ [NL]).

(** The message a cosignature signs. *)
Definition cosign_message (t : Z) (note : ustr) : result exn bytes :=
  h ← encode COSIG_HEADER; l ← time_line t; n ← encode note; Ok (h ++ l ++ n).

(** [timestamp.to_bytes(8, "big")] *)
Definition be64 (t : Z) : result exn bytes :=
  if 2 ^ 64 <=? t then Err OverflowError else Ok (to_be 8 (Z.to_N t)).

Definition cosign (w : witness) (now : Z) (note : ustr) : result exn ustr :=
  let timestamp := Z.max 1 now in
  m ← cosign_message timestamp note;
  d ← descriptor w;
  k ← descriptor_key_id d;
  t ← be64 timestamp;
  Ok (SIG_LINE_PREFIX ++ w_name w ++ [SPACE] ++ b64encode (k ++ t ++ w_sign w m)).

(** The checks of one submission against the recorded checkpoint, in the
    code's order: [Ok None] lets it pass. *)
Definition check_against (entry : option (Z * bytes)) (old_size : Z) (c : Checkpoint)
    (proof : list ustr) : result exn (option WitnessResponse) :=
  let latest_size := match entry with Some (n, _) => n | None => 0 end in
  if negb (old_size =? latest_size) then Ok (Some (conflict latest_size))
  else if old_size =? tree_size c then
    if negb (bool_decide (proof = [])) then Ok (Some (refuse BAD_CONSISTENCY_PROOF))
    else match entry with
         | Some (_, latest_root) =>
             if negb (bool_decide (latest_root = root_hash c)) then Ok (Some (conflict latest_size))
             else Ok None
         | None =>
             if negb (bool_decide (hex (root_hash c) = empty_root))
             then Ok (Some (refuse BAD_CONSISTENCY_PROOF)) else Ok None
         end
  else if old_size =? 0 then
    if negb (bool_decide (proof = [])) then Ok (Some (refuse BAD_CONSISTENCY_PROOF)) else Ok None
  else match entry with
       | None => Err AssertionError
       | Some (_, latest_root) =>
           if verify_consistency old_size (hex latest_root) (tree_size c) (hex (root_hash c)) proof
           then Ok None else Ok (Some (refuse BAD_CONSISTENCY_PROOF))
       end.

(** The signed note of a request: its text and the checkpoint in it. *)
Definition read_note (signed : ustr) : result exn (ustr * Checkpoint) :=
  '(note, _) ← split_signed_note signed; c ← parse note; Ok (note, c).

Definition add_checkpoint (body : ustr) (now : Z) : stM witness exn WitnessResponse :=
  parsed ← lift (parse_add_checkpoint_body body);
  match parsed with
  | None => mret (refuse MALFORMED)
  | Some (old_size, proof, signed) =>
      match read_note signed with
      | Err _ => mret (refuse MALFORMED)
      | Ok (note, c) =>
          w ← get;
          match trusted w !! origin c with
          | None => mret (refuse UNKNOWN_LOG)
          | Some log_verifier =>
              names ← lift (verify_note signed [log_verifier]);
              if bool_decide (names = []) then mret (refuse LOG_UNAUTHENTICATED)
              else if tree_size c <? old_size then mret (refuse MALFORMED)
              else
                answer ← lift (check_against (latest w !! origin c) old_size c proof);
                match answer with
                | Some r => mret r
                | None =>
                    _ ← modify (set_latest (<[origin c := (tree_size c, root_hash c)]> (latest w)));
                    line ← lift (cosign w now note);
                    mret {| outcome := COSIGNED; cosignature_line := Some line; latest_size_hint := None |}
                end
          end
      end
  end.

(** ** The relying party *)

Fixpoint rstrip_nl (s : ustr) : ustr :=
  match s with
  | [] => []
  | c :: r => match rstrip_nl r with [] => if (c =? NL)%N then [] else [c] | r => c :: r end
  end.

Definition verify_cosignature_line (line note : ustr) (d : WitnessDescriptor) : result exn bool :=
  match strip_prefix SIG_LINE_PREFIX line with
  | None => Ok false
  | Some rest =>
      match rcut SPACE (rstrip_nl rest) with
      | None | Some ([], _) => Ok false
      | Some (name, b64) =>
          if negb (bool_decide (name = d_name d)) then Ok false
          else match b64decode b64 with
               | None => Ok false
               | Some blob =>
                   if negb (len blob =? 76) then Ok false
                   else
                     k ← descriptor_key_id d;
                     if negb (bool_decide (take 4 blob = k)) then Ok false
                     else
                       let timestamp := Z.of_N (from_be (take 8 (drop 4 blob))) in
                       if timestamp =? 0 then Ok false
                       else
                         m ← cosign_message timestamp note;
                         Ok (ed25519_verify (d_public_key_raw d) (drop 12 blob) m)
               end
      end
  end.

Record CosignedCheckpoint := {
  c_signed_note : ustr;
  cosignature_lines : list ustr;
  refusals : list (ustr * WitnessResponse)
}.

(** The submission of one body to several witnesses, each with its clock. *)
Fixpoint submit_all (body : ustr) (ws : list (witness * Z)) (lines : list ustr)
    (refs : list (ustr * WitnessResponse))
    : result exn (list ustr * list (ustr * WitnessResponse)) * list witness :=
  match ws with
  | [] => (Ok (lines, refs), [])
  | (w, now) :: ws =>
      match add_checkpoint body now w with
      | (Err e, w') => (Err e, w' :: (fst <$> ws))
      | (Ok r, w') =>
          let '(x, rest) :=
            match cosigned r, cosignature_line r with
            | true, Some (_ :: _ as line) => submit_all body ws (lines ++ [line]) refs
            | _, _ => submit_all body ws lines (refs ++ [(w_name w, r)])
            end in
          (x, w' :: rest)
      end
  end.

Definition gather_cosignatures (body : ustr) (ws : list (witness * Z))
    : result exn CosignedCheckpoint * list witness :=
  match parse_add_checkpoint_body body with
  | Err e => (Err e, fst <$> ws)
  | Ok None => (Err ValueError, fst <$> ws)
  | Ok (Some (_, _, signed)) =>
      let '(x, ws') := submit_all body ws [] [] in
      ((fun '(lines, refs) => {| c_signed_note := signed; cosignature_lines := lines; refusals := refs |}) <$> x, ws')
  end.

Record CheckpointVerification := {
  cv_checkpoint : option Checkpoint;
  log_signature_valid : bool;
  valid_cosigners : list ustr;
  quorum : Z;
  quorum_met : bool;
  federated : bool
}.
Definition failed_verification (q : Z) (c : option Checkpoint) : CheckpointVerification :=
  {| cv_checkpoint := c; log_signature_valid := false; valid_cosigners := []; quorum := q;
     quorum_met := false; federated := false |}.

(** [{d.name: d for d in roster}]: a repeated name keeps its place and takes
    the last descriptor. *)
Fixpoint dict_set (k : ustr) (d : WitnessDescriptor) (l : list (ustr * WitnessDescriptor))
    : list (ustr * WitnessDescriptor) :=
  match l with
  | [] => [(k, d)]
  | (k', d') :: l => if decide (k = k') then (k', d) :: l else (k', d') :: dict_set k d l
  end.
Definition by_name (roster : list WitnessDescriptor) : list (ustr * WitnessDescriptor) :=
  fold_left (fun l d => dict_set (d_name d) d l) roster [].

(** The first witness, not counted yet, for which a line verifies. *)
Fixpoint first_match (line note : ustr) (valid : list ustr) (items : list (ustr * WitnessDescriptor))
    : result exn (list ustr) :=
  match items with
  | [] => Ok valid
  | (name, d) :: items =>
      if decide (name ∈ valid) then first_match line note valid items
      else
        b ← verify_cosignature_line line note d;
        if (b : bool) then Ok (valid ++ [name]) else first_match line note valid items
  end.
Fixpoint count_cosigners (lines : list ustr) (note : ustr) (valid : list ustr)
    (items : list (ustr * WitnessDescriptor)) : result exn (list ustr) :=
  match lines with
  | [] => Ok valid
  | line :: lines =>
      valid ← first_match line note valid items;
      count_cosigners lines note valid items
  end.

Fixpoint dict_get (k : ustr) (l : list (ustr * WitnessDescriptor)) : option WitnessDescriptor :=
  match l with
  | [] => None
  | (k', d) :: l => if decide (k = k') then Some d else dict_get k l
  end.

Definition verify_cosigned_checkpoint (cosigned : CosignedCheckpoint) (log_verifier : NoteVerifier)
    (roster : list WitnessDescriptor) (q : Z) : result exn CheckpointVerification :=
  if q <? 1 then Err ValueError
  else
    match read_note (c_signed_note cosigned) with
    | Err _ => Ok (failed_verification q None)
    | Ok (note, c) =>
        names ← verify_note (c_signed_note cosigned) [log_verifier];
        if bool_decide (names = []) then Ok (failed_verification q (Some c))
        else
          let items := by_name roster in
          valid ← count_cosigners (cosignature_lines cosigned) note [] items;
          let quorum_met := q <=? len valid in
          let non_external :=
            filter (fun d => d_provenance d <> EXTERNAL_FEDERATED) (omap (fun n => dict_get n items) valid) in
          Ok {| cv_checkpoint := Some c; log_signature_valid := true; valid_cosigners := valid;
                quorum := q; quorum_met := quorum_met;
                federated := quorum_met && bool_decide (non_external = []) && (0 <? len valid) |}
    end.
End Witness.
