(* ===== verification/GixWitnessSpec.v ===== *)
(** * Non-equivocation

    A witness records, per log, the last checkpoint it cosigned.  [link] is
    what one accepted submission establishes between the old record and the
    new one; along a run of arbitrary submissions the records form a chain of
    links, and a chain is read backwards from the log behind its end: every
    earlier checkpoint is the root of a prefix of that log. *)
From Stdlib Require Import Init.Byte.
From S2P Require Import Prelude StateExn PyBytes Merkle MerkleShape MerkleTree MerkleLog GixNote GixNoteSpec.
From S2P Require Import GixWitness.
Open Scope Z_scope.

Section Spec.
Context `{Sha} `{Ed25519} `{Unicode}.

(** The checkpoint a request carries, and what the witness hashes to check its
    proof. *)
Definition request (body : ustr) : option (Z * list ustr * Checkpoint) :=
  match parse_add_checkpoint_body body with
  | Ok (Some (old_size, proof, signed)) =>
      match read_note signed with
      | Ok (_, c) => Some (old_size, proof, c)
      | Err _ => None
      end
  | _ => None
  end.
Definition checkpoint_of (body : ustr) : option Checkpoint := snd <$> request body.
Definition step_queries (w : witness) (body : ustr) : list bytes :=
  match request body with
  | Some (_, proof, c) =>
      match latest w !! origin c with
      | Some (m, r) => consistency_queries m (hex r) (tree_size c) proof
      | None => []
      end
  | None => []
  end.

(** A witness fed with requests, each with a reading of its clock. *)
Fixpoint run (w : witness) (inputs : list (ustr * Z)) : list (result exn WitnessResponse * witness) :=
  match inputs with
  | [] => []
  | (body, now) :: inputs =>
      let x := add_checkpoint body now w in x :: run (snd x) inputs
  end.
Fixpoint run_queries (w : witness) (inputs : list (ustr * Z)) : list bytes :=
  match inputs with
  | [] => []
  | (body, now) :: inputs =>
      step_queries w body ++ run_queries (snd (add_checkpoint body now w)) inputs
  end.

(** ** One submission *)

Definition good_entry (e : Z * bytes) : Prop :=
  0 <= e.1 /\ length e.2 = 32%nat /\ (e.1 = 0 -> hex e.2 = empty_root).

Definition link (Q : list bytes) (e e' : Z * bytes) : Prop :=
  e.1 <= e'.1 /\ (e.1 = e'.1 -> e.2 = e'.2)
  /\ (0 < e.1 < e'.1 -> exists proof,
        verify_consistency e.1 (hex e.2) e'.1 (hex e'.2) proof = true
        /\ consistency_queries e.1 (hex e.2) e'.1 proof ⊆ Q).

Definition entry_of (c : Checkpoint) : Z * bytes := (tree_size c, root_hash c).

Lemma parse_Ok text c : parse text = Ok c -> 0 <= tree_size c /\ length (root_hash c) = 32%nat.
Proof.
  unfold parse. repeat (case_match; try done). intros Hp.
  apply result_bind_Ok in Hp as (n & _ & Hp). apply new_checkpoint_Ok in Hp as (-> & _ & Hn & Hr & _). done.
Qed.

Lemma check_against_pass entry old c proof :
  check_against entry old c proof = Ok None ->
  match entry with
  | None => old = 0 /\ (tree_size c = 0 -> hex (root_hash c) = empty_root)
  | Some e => old = e.1 /\ (e.1 = tree_size c -> e.2 = root_hash c)
      /\ (e.1 <> tree_size c -> e.1 <> 0 ->
          verify_consistency e.1 (hex e.2) (tree_size c) (hex (root_hash c)) proof = true)
  end.
Proof.
  unfold check_against.
  destruct entry as [[m r]|]; simpl;
    (match goal with |- context [old =? ?y] => destruct (Z.eqb_spec old y) as [->|] end; simpl; [|done]).
  - destruct (Z.eqb_spec m (tree_size c)) as [->|Hne].
    + repeat case_bool_decide; simpl; try done.
    + destruct (Z.eqb_spec m 0) as [->|]; [repeat case_bool_decide; simpl; naive_solver|].
      destruct (verify_consistency _ _ _ _ _) eqn:Ev; naive_solver.
  - destruct (Z.eqb_spec 0 (tree_size c)) as [<-|]; repeat case_bool_decide; simpl; naive_solver.
Qed.

(** What a call changes: nothing, or the record of the request's origin, to the
    request's checkpoint, linked to what was recorded before. *)
Lemma add_checkpoint_step body now w x w' :
  add_checkpoint body now w = (x, w') -> map_Forall (fun _ => good_entry) (latest w) ->
  (latest w' = latest w /\ forall r, x = Ok r -> outcome r <> COSIGNED)
  \/ exists c, checkpoint_of body = Some c
      /\ latest w' = <[origin c := entry_of c]> (latest w) /\ good_entry (entry_of c)
      /\ forall e, latest w !! origin c = Some e -> link (step_queries w body) e (entry_of c).
Proof.
  intros Ha Hgood. unfold add_checkpoint, lift, mbind, M_bind, mret, M_ret, get in Ha.
  assert (forall o, o <> COSIGNED -> (Ok (refuse o) : result exn WitnessResponse, w) = (x, w') ->
    latest w' = latest w /\ forall r, x = Ok r -> outcome r <> COSIGNED) as Href.
  { intros o Ho [= <- <-]. split; [done|]. by intros r [= <-]. }
  destruct (parse_add_checkpoint_body body) as [[[[old proof] signed]|]|] eqn:Ep;
    [|left; by apply (Href MALFORMED)|by simplify_eq; left].
  destruct (read_note signed) as [[note c]|] eqn:En; [|left; by apply (Href MALFORMED)].
  destruct (trusted w !! origin c); [|left; by apply (Href UNKNOWN_LOG)].
  destruct (verify_note _ _) as [names|]; [|by simplify_eq; left].
  case_bool_decide; [left; by apply (Href LOG_UNAUTHENTICATED)|].
  destruct (Z.ltb_spec (tree_size c) old); [left; by apply (Href MALFORMED)|].
  destruct (check_against _ _ _ _) as [[r|]|] eqn:Ec; [| |by simplify_eq; left].
  { left. simplify_eq. split; [done|]. intros r' [= <-]. unfold check_against in Ec.
    repeat case_match; simplify_eq; done. }
  right. exists c.
  assert (latest w' = <[origin c := entry_of c]> (latest w)) as Hl.
  { unfold modify in Ha. destruct (cosign w now note); by simplify_eq. }
  assert (request body = Some (old, proof, c)) as Hreq by (unfold request; by rewrite Ep, En).
  assert (0 <= tree_size c /\ length (root_hash c) = 32%nat) as [Hn Hr].
  { unfold read_note in En. apply result_bind_Ok in En as ([t ls] & _ & En).
    apply result_bind_Ok in En as (c' & Hc' & [= <- <-]). by eapply parse_Ok. }
  apply check_against_pass in Ec. split; [unfold checkpoint_of; by rewrite Hreq|]. split; [done|].
  split.
  - split; [done|]. split; [done|]. simpl. intros Hn0. destruct (latest w !! origin c) as [e|] eqn:Ee; [|by apply Ec].
    destruct Ec as (-> & Heq & _). destruct (Hgood _ _ Ee) as (He1 & He2 & He3).
    rewrite <- Heq by lia. apply He3. lia.
  - intros e Ee. rewrite Ee in Ec. destruct Ec as (-> & Heq & Hver).
    split; [simpl; lia|]. split; [done|]. simpl. intros Hlt. exists proof. split; [apply Hver; lia|].
    unfold step_queries. rewrite Hreq, Ee. by destruct e.
Qed.

(** ** Runs *)

Definition good (w : witness) : Prop := map_Forall (fun _ => good_entry) (latest w).

Lemma good_step body now w : good w -> good (snd (add_checkpoint body now w)).
Proof.
  intros Hg. destruct (add_checkpoint body now w) as [x w'] eqn:E. simpl.
  destruct (add_checkpoint_step _ _ _ _ _ E Hg) as [[Hl _]|(c & _ & Hl & He & _)];
    unfold good; rewrite Hl; [done|]. by apply map_Forall_insert_2.
Qed.

Definition glink (Q : list bytes) (e e' : Z * bytes) : Prop :=
  good_entry e /\ good_entry e' /\ link Q e e'.

Lemma link_mono Q Q' e e' : Q ⊆ Q' -> link Q e e' -> link Q' e e'.
Proof.
  intros HQ (H1' & H2' & H3'). split; [done|]. split; [done|]. intros Hlt.
  destruct (H3' Hlt) as (proof & Hv & Hq). exists proof. split; [done|]. set_solver.
Qed.

Lemma glinks_mono Q Q' e e' : Q ⊆ Q' -> rtc (glink Q) e e' -> rtc (glink Q') e e'.
Proof.
  intros HQ. apply rtc_subrel. intros a b (Ha & Hb & Hl). split; [done|]. split; [done|].
  by eapply link_mono.
Qed.

(** The record of an origin at any later point is linked to the present one. *)
Lemma run_chain inputs w k x wk o e :
  good w -> run w inputs !! k = Some (x, wk) -> latest w !! o = Some e ->
  exists e', latest wk !! o = Some e' /\ rtc (glink (run_queries w inputs)) e e'.
Proof.
  revert w k e. induction inputs as [|[body now] inputs IH]; intros w k e Hg Hk He; [done|].
  cbn [run run_queries] in *. destruct (add_checkpoint body now w) as [x1 w1] eqn:E. simpl in *.
  pose proof (good_step body now w Hg) as Hg1. rewrite E in Hg1. simpl in Hg1.
  assert (exists e1, latest w1 !! o = Some e1 /\ rtc (glink (step_queries w body)) e e1) as (e1 & He1 & Hl1).
  { destruct (add_checkpoint_step _ _ _ _ _ E Hg) as [[Hl _]|(c & _ & Hl & Hge & Hlink)]; rewrite Hl.
    - exists e. split; [done|]. reflexivity.
    - destruct (decide (origin c = o)) as [<-|Hne].
      + rewrite lookup_insert_eq. eexists. split; [done|]. apply rtc_once.
        split; [by eapply Hg|]. split; [done|]. by apply Hlink.
      + rewrite lookup_insert_ne by done. exists e. split; [done|]. reflexivity. }
  destruct k as [|k]; simpl in Hk.
  - simplify_eq. exists e1. split; [done|]. eapply glinks_mono; [|done]. set_solver.
  - destruct (IH w1 k e1 Hg1 Hk He1) as (e' & He' & Hl'). exists e'. split; [done|].
    etransitivity; eapply glinks_mono; [|done| |done]; set_solver.
Qed.

(** Submission [i] of a run was answered by a cosignature of [c]. *)
Definition cosigned_at (w : witness) (inputs : list (ustr * Z)) (i : nat) (c : Checkpoint) : Prop :=
  exists body now r w', inputs !! i = Some (body, now) /\ run w inputs !! i = Some (Ok r, w')
    /\ outcome r = COSIGNED /\ checkpoint_of body = Some c.

Lemma cosigned_recorded w inputs i c :
  good w -> cosigned_at w inputs i c ->
  exists x wi, run w inputs !! i = Some (x, wi) /\ latest wi !! origin c = Some (entry_of c)
    /\ good wi.
Proof.
  revert w i. induction inputs as [|[body now] inputs IH]; intros w i Hg (b & t & r & w' & Hi & Hr & Ho & Hc); [done|].
  cbn [run] in *. pose proof (good_step body now w Hg) as Hg1.
  destruct i as [|i]; simpl in Hi, Hr.
  - simplify_eq. destruct (add_checkpoint b t w) as [x1 w1] eqn:E. simplify_eq/=.
    destruct (add_checkpoint_step _ _ _ _ _ E Hg) as [[_ Hne]|(c' & Hc' & Hl & _)]; [by destruct (Hne r)|].
    rewrite Hc in Hc'. simplify_eq. eexists _, _. split; [done|]. rewrite Hl, lookup_insert_eq. done.
  - apply (IH _ i Hg1). by exists b, t, r, w'.
Qed.

Lemma run_queries_drop w inputs i x wi :
  run w inputs !! i = Some (x, wi) -> run_queries wi (drop (S i) inputs) ⊆ run_queries w inputs.
Proof.
  revert w i. induction inputs as [|[body now] inputs IH]; intros w i Hr; [done|].
  cbn [run run_queries] in *. destruct i as [|i]; simpl in Hr |- *.
  - assert (add_checkpoint body now w = (x, wi)) as -> by congruence. simpl. rewrite drop_0. set_solver.
  - apply IH in Hr. set_solver.
Qed.

Lemma run_drop w inputs i x wi k :
  run w inputs !! i = Some (x, wi) -> run wi (drop (S i) inputs) !! k = run w inputs !! (S i + k)%nat.
Proof.
  revert w i. induction inputs as [|[body now] inputs IH]; intros w i Hr; [done|].
  cbn [run] in *. destruct i as [|i]; simpl in Hr |- *.
  - assert (add_checkpoint body now w = (x, wi)) as -> by congruence. simpl. by rewrite drop_0.
  - by apply IH.
Qed.

(** ** Reading a chain backwards *)

Definition explains (S : list bytes) (D : list ustr) (e : Z * bytes) : Prop :=
  e.1 <= len D /\ (e.1 = 0 -> hex e.2 = empty_root)
  /\ (0 < e.1 -> exists t, balanced t /\ Forall2 is_leaf (upto e.1 D) (flatten t)
                   /\ e.2 = root t /\ inputs t ⊆ S).

Lemma explains_root S D e : good_entry e -> explains S D e -> merkle_root (upto e.1 D) = Ok (hex e.2).
Proof.
  intros (Hn & _) (_ & H0 & Ht). destruct (decide (e.1 = 0)) as [E|].
  - rewrite (H0 E), E. done.
  - destruct Ht as (t & B & Hl & -> & _); [lia|]. by apply merkle_root_tree.
Qed.

Lemma explains_back S D e e' :
  collision_free S -> glink S e e' -> explains S D e' -> explains S D e.
Proof.
  destruct e as [n b], e' as [n' b'].
  intros Hc ((Hn & Hb & H0) & _ & (Hle & Heq & Hlt)) (HD & H0' & Ht). unfold explains. simpl in *.
  split; [lia|]. split; [done|]. intros Hpos.
  destruct (decide (n = n')) as [->|Hne]; [rewrite Heq by done; by apply Ht|].
  destruct Ht as (t & B & Hl & -> & Hin); [lia|]. destruct Hlt as (proof & Hv & Hq); [lia|].
  assert (size t = n') as Sz by (rewrite <- (leaves_size _ _ Hl); apply len_upto; lia).
  rewrite <- Sz in *.
  destruct (verify_consistency_root n b t proof) as [-> Hin2];
    [done|by eapply is_leaf_32|done|lia|done|eapply collision_free_mono; [|exact Hc]; set_solver|].
  destruct (prefix_spec t n B) as [Fp Bp]; [lia|].
  exists (prefix n t). split; [done|]. split; [|split; [done|set_solver]].
  rewrite Fp. replace (upto n D) with (upto n (upto (size t) D)); [by apply is_leaf_upto|].
  unfold upto. rewrite take_take. f_equal. lia.
Qed.

Lemma glinks_sizes Q e e' : rtc (glink Q) e e' -> e.1 <= e'.1 /\ (e.1 = e'.1 -> e.2 = e'.2).
Proof.
  induction 1 as [e|e e1 e' (_ & _ & Hle & Heq & _) _ [IH1 IH2]]; [done|].
  split; [lia|]. intros E. rewrite Heq by lia. apply IH2. lia.
Qed.

Lemma explains_chain S D e e' :
  collision_free S -> rtc (glink S) e e' -> explains S D e' -> explains S D e.
Proof. intros Hc Hl He. induction Hl; [done|]. eapply explains_back; [done..|]. auto. Qed.

Lemma log_explains S D c :
  good_entry (entry_of c) -> merkle_root D = Ok (root_hash_hex c) -> len D = tree_size c ->
  log_inputs D ⊆ S -> explains S D (entry_of c).
Proof.
  intros (Hn & Hr & _) HD Hlen Hin. unfold explains. simpl in *. split; [lia|]. split.
  - intros E. assert (D = []) as -> by (destruct D; [done|unfold len in *; simpl in *; lia]).
    change (merkle_root []) with (Ok empty_root : result exn ustr) in HD. unfold root_hash_hex in HD. congruence.
  - intros Hpos. assert (D <> []) as Hne by (intros ->; unfold len in *; simpl in *; lia).
    destruct (merkle_root_Ok D _ HD Hne) as (ls & Hl & Hne' & Er). apply hex_inj in Er.
    destruct (tree_leaves D ls Hl Hne') as (B & F & Sz & Hw).
    exists (tree_of ls). split; [done|]. rewrite F.
    split; [unfold upto; rewrite take_ge; [done|unfold len in *; lia]|]. split; [done|].
    rewrite (leaves_inputs _ _ Hl). unfold log_inputs in Hin. set_solver.
Qed.

Lemma cosigned_chain w inputs i j c c' :
  good w -> (i <= j)%nat -> cosigned_at w inputs i c -> cosigned_at w inputs j c' ->
  origin c = origin c' ->
  rtc (glink (run_queries w inputs)) (entry_of c) (entry_of c') /\ good_entry (entry_of c').
Proof.
  intros Hg Hij Hci Hcj Ho.
  destruct (cosigned_recorded _ _ _ _ Hg Hci) as (xi & wi & Hri & Hli & Hgi).
  destruct (cosigned_recorded _ _ _ _ Hg Hcj) as (xj & wj & Hrj & Hlj & Hgj).
  split; [|by eapply Hgj]. destruct (decide (i = j)) as [->|Hne].
  { assert (entry_of c = entry_of c') as -> by congruence. reflexivity. }
  assert (run wi (drop (S i) inputs) !! (j - S i)%nat = Some (xj, wj)) as Hk.
  { rewrite (run_drop w inputs i xi) by done. by replace (S i + (j - S i))%nat with j by lia. }
  destruct (run_chain _ _ _ _ _ _ _ Hgi Hk Hli) as (e' & He' & Hl). rewrite Ho, Hlj in He'.
  assert (e' = entry_of c') as -> by congruence.
  eapply glinks_mono; [|done]. by eapply run_queries_drop.
Qed.

(** C40. A witness does not equivocate.  Take a new witness and submit to it any
    sequence of requests; if it cosigns a checkpoint [c] and later (or at the
    same time) a checkpoint [c'] of the same log, then the size never goes
    down, the same size means the same root, and if [c'] is the checkpoint of a
    log [D], then [c] is the checkpoint of the prefix of [D] of its size,
    whatever was shown to the witness in between, unless two different strings
    among those hashed by [D] and by the witness have the same digest. *)
Theorem witness_non_equivocation (name : ustr) logs p pk sign w (inputs : list (ustr * Z)) i j c c' :
  new_witness name logs p pk sign = Ok w -> (i <= j)%nat ->
  cosigned_at w inputs i c -> cosigned_at w inputs j c' -> origin c = origin c' ->
  tree_size c <= tree_size c'
  /\ (tree_size c = tree_size c' -> root_hash c = root_hash c')
  /\ forall D, merkle_root D = Ok (root_hash_hex c') -> len D = tree_size c' ->
       collision_free (log_inputs D ++ run_queries w inputs) ->
       merkle_root (upto (tree_size c) D) = Ok (root_hash_hex c).
Proof.
  intros Hw Hij Hci Hcj Ho.
  assert (good w) as Hg.
  { unfold new_witness in Hw. repeat case_match; simplify_eq. apply map_Forall_empty. }
  destruct (cosigned_chain _ _ _ _ _ _ Hg Hij Hci Hcj Ho) as [Hl Hge'].
  pose proof (glinks_sizes _ _ _ Hl) as [Hsz Hroot]. simpl in *. split; [done|]. split; [done|].
  intros D HD Hlen Hc.
  destruct (cosigned_recorded _ _ _ _ Hg Hci) as (xi & wi & _ & Hli & Hgi).
  apply (explains_root (log_inputs D ++ run_queries w inputs) D (entry_of c)); [by eapply Hgi|].
  eapply explains_chain; [done|eapply glinks_mono; [|done]; set_solver|].
  apply log_explains; [done..|set_solver].
Qed.

(** Whether a submission was cosigned, by evaluation. *)
Definition cosigned_check (w : witness) (inputs : list (ustr * Z)) (i : nat) (c : Checkpoint) : bool :=
  match inputs !! i, run w inputs !! i with
  | Some (body, _), Some (Ok r, _) =>
      bool_decide (outcome r = COSIGNED) && bool_decide (checkpoint_of body = Some c)
  | _, _ => false
  end.
Lemma cosigned_check_at w inputs i c : cosigned_check w inputs i c = true -> cosigned_at w inputs i c.
Proof.
  unfold cosigned_check. destruct (inputs !! i) as [[body now]|] eqn:Ei; [|done].
  destruct (run w inputs !! i) as [[[r|] w']|] eqn:Er; [|done..].
  rewrite andb_true_iff, !bool_decide_eq_true. intros [Ho Hc]. by exists body, now, r, w'.
Qed.
End Spec.
