(* ===== verification/GixWitnessLive.v ===== *)
(** * Honest logs are cosigned, and what a quorum means

    The publisher and the witness composed: a request built from a log that
    extends what the witness recorded is parsed, authenticated, found
    consistent and cosigned.  Then the relying party: what a met quorum
    certifies. *)
From Stdlib Require Import Init.Byte.
From S2P Require Import Prelude StateExn PyBytes Merkle MerkleShape MerkleTree MerkleLog GixNote GixNoteSpec.
From S2P Require Import GixWitness GixWitnessSpec.
Open Scope Z_scope.

(** ** The request body *)

Definition as_lines (ls : list ustr) : ustr := ls ≫= fun l => l ++ [NL].

Lemma join_lines l ls s :
  join_nl (l :: ls) ++ [NL; NL] ++ s = l ++ NL :: as_lines ls ++ NL :: s.
Proof.
  revert l. induction ls as [|k ls IH]; intros l; [done|].
  change (join_nl (l :: k :: ls)) with (l ++ NL :: join_nl (k :: ls)).
  rewrite <- app_assoc. cbn [app]. f_equal. f_equal. rewrite IH.
  unfold as_lines. cbn [mbind list_bind]. rewrite <- !app_assoc. done.
Qed.

Lemma b64encode_nil b : b64encode b = [] -> b = [].
Proof. by destruct b as [|x [|y [|z b]]]. Qed.

Lemma proof_lines_encoded nodes fuel acc s :
  words32 nodes -> (length acc + length nodes <= MAX_PROOF_LINES)%nat -> (length nodes < fuel)%nat ->
  proof_lines fuel (as_lines (b64encode <$> nodes) ++ NL :: s) acc = Some (acc ++ (hex <$> nodes), s).
Proof.
  intros Hw. revert fuel acc. induction Hw as [|x nodes Hx _ IH]; intros fuel acc Hl Hf;
    (destruct fuel as [|fuel]; [simpl in *; lia|]); cbn [proof_lines].
  - by rewrite app_nil_r.
  - unfold as_lines. cbn [fmap list_fmap mbind list_bind]. rewrite <- !app_assoc. cbn [app].
    rewrite cut_nl_line by (apply above_no_nl, b64encode_chars).
    rewrite bool_decide_eq_false_2 by (intros E; apply b64encode_nil in E; by subst).
    rewrite b64decode_encode. unfold len. rewrite Hx.
    rewrite (proj2 (Nat.leb_gt _ _)) by (simpl in Hl; lia). cbn [Z.eqb negb Z.of_nat Pos.of_succ_nat].
    rewrite (IH fuel) by (rewrite ?length_app in *; simpl in *; lia).
    by rewrite <- app_assoc.
Qed.

Lemma length_as_lines ls : (length ls <= length (as_lines ls))%nat.
Proof.
  induction ls as [|l ls IH]; [done|]. unfold as_lines in *. cbn [mbind list_bind].
  rewrite !length_app. simpl. lia.
Qed.

Section Live.
Context `{Sha} `{Ed25519} `{Unicode}.

Lemma parse_body_built old nodes signed body :
  words32 nodes -> (length nodes <= MAX_PROOF_LINES)%nat -> signed <> [] ->
  build_add_checkpoint_body old (hex <$> nodes) signed = Ok body ->
  parse_add_checkpoint_body body = Ok (Some (old, hex <$> nodes, signed)).
Proof.
  intros Hw Hn Hs. unfold build_add_checkpoint_body. destruct (Z.ltb_spec old 0); [done|].
  rewrite decode_hex by done. destruct (str_of_int old) as [size|] eqn:Es; [|done].
  intros Hb. assert (body = join_nl ((u "old " ++ size) :: (b64encode <$> nodes)) ++ [NL; NL] ++ signed) as ->
    by (by inversion Hb). clear Hb. rewrite join_lines.
  destruct (str_of_int_spec old size) as (Hm & Hi & Hc); [done..|].
  unfold parse_add_checkpoint_body. rewrite cut_nl_line.
  2:{ rewrite not_elem_of_app. split; [by compute_done|by apply above_no_nl]. }
  rewrite strip_prefix_app, Hm, Hi. cbn [mbind result_bind].
  rewrite proof_lines_encoded; [|done|simpl; lia|].
  - by rewrite bool_decide_eq_false_2.
  - pose proof (length_as_lines (b64encode <$> nodes)) as Hl. rewrite length_fmap in Hl.
    rewrite length_app. simpl. lia.
Qed.

(** ** The cosignature *)

Lemma utf8_ascii s : Forall (fun c => (c < 128)%N) s -> is_Some (utf8 s).
Proof.
  induction 1 as [|c s Hc _ [b IH]]; [by eexists|]. simpl. unfold utf8_char.
  rewrite (proj2 (N.ltb_lt c 128)) by done. rewrite IH. by eexists.
Qed.
Lemma encode_Ok s : is_Some (utf8 s) -> is_Some (utf8 s) /\ exists b, encode s = Ok b.
Proof. intros [b Hb]. unfold encode. rewrite Hb. split; by eexists. Qed.

Lemma length_digits fuel n acc : (length (digits fuel n acc) <= fuel + length acc)%nat.
Proof.
  revert n acc. induction fuel as [|fuel IH]; intros n acc; [done|]. cbn [digits].
  case_match; simpl; [lia|]. specialize (IH (n / 10)%N ((48 + n mod 10)%N :: acc)). simpl in IH. lia.
Qed.

Lemma str_of_int_64 t : 0 <= t < 2 ^ 64 -> exists s, str_of_int t = Ok s /\ Forall (fun c => (c < 128)%N) s.
Proof.
  intros Ht. unfold str_of_int. set (fuel := S (N.to_nat (N.log2 (Z.to_N t)))).
  assert (fuel <= 65)%nat as Hf.
  { subst fuel. enough (N.log2 (Z.to_N t) <= 64)%N by lia.
    change 64%N with (N.log2 (2 ^ 64)). apply N.log2_le_mono.
    change (2 ^ 64)%N with (Z.to_N (2 ^ 64)). apply Z2N.inj_le; lia. }
  clearbody fuel. pose proof (length_digits fuel (Z.to_N t) []) as Hl. rewrite Nat.add_0_r in Hl.
  rewrite (proj2 (Nat.ltb_ge INT_MAX_STR_DIGITS _)) by (unfold INT_MAX_STR_DIGITS; lia). eexists. split; [done|].
  eapply list.Forall_impl; [apply digits_chars|]. simpl. lia.
Qed.

Lemma cosign_Ok w now note d m :
  descriptor w = Ok d -> is_Some (utf8 (w_name w)) -> now < 2 ^ 64 -> encode note = Ok m ->
  exists line, cosign w now note = Ok line.
Proof.
  intros Hd Hname Hnow Hm. unfold cosign, cosign_message, time_line, be64, descriptor_key_id.
  destruct (str_of_int_64 (Z.max 1 now)) as (s & -> & Hs); [lia|]. rewrite Hm, Hd. cbn [mbind result_bind].
  assert (d_name d = w_name w) as ->.
  { unfold descriptor, new_descriptor in Hd. repeat case_match; by simplify_eq. }
  destruct (encode_Ok (w_name w) Hname) as (_ & nb & ->).
  destruct (encode_Ok (u "time " ++ s ++ [NL])) as (_ & tb & ->).
  { apply utf8_ascii. apply Forall_app. split; [by repeat constructor|].
    apply Forall_app. split; [done|]. by repeat constructor. }
  rewrite (proj2 (Z.leb_gt _ _)) by lia. destruct (encode COSIG_HEADER) eqn:E; [by eexists|].
  vm_compute in E. done.
Qed.

(** ** An honest log *)

Lemma verify_consistency_ext m r1 n r2 p p' :
  decode_hash_list p = decode_hash_list p' -> length p = length p' ->
  verify_consistency m r1 n r2 p = verify_consistency m r1 n r2 p'.
Proof. intros E El. unfold verify_consistency, len. by rewrite E, El. Qed.

(** What the witness recorded of a log is a prefix of it. *)
Definition behind (w : witness) (o : ustr) (D : list ustr) : Prop :=
  match latest w !! o with
  | None => True
  | Some (m, b) => 0 <= m <= len D /\ merkle_root (upto m D) = Ok (hex b)
  end.

Definition extension_proof (D : list ustr) (m : Z) : result exn (list ustr) :=
  if (m =? 0) || (m =? len D) then Ok [] else consistency_path m D.

Lemma honest_check w o D b c proof nodes :
  behind w o D -> merkle_root D = Ok (hex b) -> tree_size c = len D -> root_hash c = b ->
  extension_proof D (latest_size w o) = Ok proof -> decode_hash_list proof = Some nodes ->
  check_against (latest w !! o) (latest_size w o) c (hex <$> nodes) = Ok None.
Proof.
  intros Hb HD Hsz Hrt. unfold behind, extension_proof, latest_size, check_against in *.
  destruct (latest w !! o) as [[m r]|].
  - destruct Hb as [Hm Hr]. rewrite Z.eqb_refl, Hsz. cbn [negb].
    destruct (Z.eqb_spec m (len D)) as [->|Hne].
    + rewrite orb_true_r. intros [= <-] [= <-]. simpl.
      assert (upto (len D) D = D) as Hall by (unfold upto; apply take_ge; unfold len; lia).
      rewrite Hall, HD in Hr. injection Hr as Hr. apply hex_inj in Hr as ->.
      by rewrite bool_decide_eq_true_2 by done.
    + destruct (Z.eqb_spec m 0) as [->|Hm0]; [by intros [= <-] [= <-]|].
      simpl. intros Hp Hd.
      destruct (consistency_path_accepted D m _ HD) as (r1 & p' & Hr1 & Hp' & Hv); [lia|].
      assert (p' = proof) as -> by congruence. assert (r1 = hex r) as -> by congruence.
      destruct (decode_words32 _ _ Hd) as [Hw Hl].
      rewrite (verify_consistency_ext _ _ _ _ _ proof), Hrt, Hv; [done|by rewrite decode_hex|].
      by rewrite length_fmap.
  - rewrite Z.eqb_refl. cbn [negb orb]. intros [= <-] [= <-]. rewrite Hsz. destruct (Z.eqb_spec 0 (len D)) as [E|]; [|done].
    assert (D = []) as -> by (destruct D; [done|unfold len in E; simpl in E; lia]). simpl.
    change (merkle_root []) with (Ok empty_root : result exn ustr) in HD.
    injection HD as HD. by rewrite bool_decide_eq_true_2 by congruence.
Qed.

Lemma extension_proof_length D m r proof :
  merkle_root D = Ok r -> 0 <= m <= len D -> len D <= 2 ^ 62 -> extension_proof D m = Ok proof ->
  (length proof <= MAX_PROOF_LINES)%nat.
Proof.
  intros HD Hm H62. unfold extension_proof.
  destruct (Z.eqb_spec m 0); [by intros [= <-]; unfold MAX_PROOF_LINES; simpl; lia|].
  destruct (Z.eqb_spec m (len D)); [by intros [= <-]; unfold MAX_PROOF_LINES; simpl; lia|]. simpl.
  intros Hp. destruct (consistency_path_accepted D m r HD) as (r1 & p' & _ & Hp' & Hv); [lia|].
  rewrite Hp in Hp'. simplify_eq.
  destruct (accepted_length [] r1 r 0 m (len D) p') as (_ & Hl & H63). specialize (Hl Hv). specialize (H63 H62).
  unfold len, MAX_PROOF_LINES in *. lia.
Qed.

Lemma snapshot_Ok p D snap :
  current_signed_checkpoint p D = Ok snap ->
  exists b c text, merkle_root D = Ok (hex b) /\ c = {| origin := p_origin p; tree_size := len D;
      root_hash := b; extension_lines := [] |}
    /\ new_checkpoint (p_origin p) (len D) b [] = Ok c /\ note_text c = Ok text
    /\ sign_note (p_signer p) text = Ok (signed_note snap)
    /\ checkpoint snap = c /\ record_hashes snap = D.
Proof.
  unfold current_signed_checkpoint. intros Hs.
  apply result_bind_Ok in Hs as (r & Hr & Hs). apply result_bind_Ok in Hs as (b & Hb & Hs).
  apply result_bind_Ok in Hs as (c & Hc & Hs). apply result_bind_Ok in Hs as (text & Ht & Hs).
  apply result_bind_Ok in Hs as (signed & Hsig & Hs). injection Hs as <-.
  destruct (merkle_root_32 D r Hr) as (b' & -> & _). unfold fromhex_exn in Hb. rewrite fromhex_hex in Hb.
  injection Hb as <-. exists b', c, text. pose proof Hc as Hc'. apply new_checkpoint_Ok in Hc' as (-> & _).
  done.
Qed.

Lemma sign_note_nonempty s text signed : sign_note s text = Ok signed -> signed <> [].
Proof.
  unfold sign_note. case_match; [done|]. intros Hs.
  apply result_bind_Ok in Hs as (m & _ & Hs). apply result_bind_Ok in Hs as (k & _ & [= <-]).
  by destruct text.
Qed.

Lemma build_request_Ok p D m body :
  build_add_checkpoint_request p D m = Ok body ->
  exists snap proof, current_signed_checkpoint p D = Ok snap /\ extension_proof D m = Ok proof
    /\ build_add_checkpoint_body m proof (signed_note snap) = Ok body.
Proof.
  unfold build_add_checkpoint_request. intros Hb.
  apply result_bind_Ok in Hb as (snap & Hsnap & Hb). apply result_bind_Ok in Hb as (proof & Hp & Hb).
  destruct (snapshot_Ok _ _ _ Hsnap) as (b & c & text & _ & -> & _ & _ & _ & Ec & Er).
  rewrite Ec, Er in Hp. by exists snap, proof.
Qed.

(** An honest log is cosigned.  Take a publisher over a log of at most
    2^62 records and a witness that trusts its key and whose record of the log
    is a prefix of it (or that has none yet): the request the publisher builds
    from the size the witness reports is answered with a cosignature, and the
    witness then records the size and the root of the log, and nothing else
    changes. *)
Theorem honest_log_cosigned (name : ustr) pk sign s v o D w now d body :
  (forall m, ed25519_verify pk (sign m) m = true) ->
  new_signer name pk sign = Ok s -> verifier s = Ok v ->
  trusted w !! o = Some v -> behind w o D -> len D <= 2 ^ 62 ->
  descriptor w = Ok d -> is_Some (utf8 (w_name w)) -> now < 2 ^ 64 ->
  build_add_checkpoint_request {| p_origin := o; p_signer := s |} D (latest_size w o) = Ok body ->
  exists line root, merkle_root D = Ok (hex root)
    /\ add_checkpoint body now w
       = (Ok {| outcome := COSIGNED; cosignature_line := Some line; latest_size_hint := None |},
          set_latest (<[o := (len D, root)]> (latest w)) w).
Proof.
  intros Hver Hs Hv Htr Hbeh H62 Hd Hutf Hnow Hreq.
  destruct (build_request_Ok _ _ _ _ Hreq) as (snap & proof & Hsnap & Hp & Hbody).
  destruct (snapshot_Ok _ _ _ Hsnap) as (b & c & text & HD & Ec & Hc & Ht & Hsig & _ & _).
  cbn [p_origin p_signer] in *.
  assert (exists nodes, decode_hash_list proof = Some nodes) as [nodes Hn].
  { unfold build_add_checkpoint_body in Hbody. repeat case_match; naive_solver. }
  destruct (decode_words32 _ _ Hn) as [Hw Hl].
  assert (0 <= latest_size w o <= len D) as Hm.
  { unfold latest_size, behind in *. destruct (latest w !! o) as [[m r]|]; [naive_solver|unfold len; lia]. }
  assert (parse_add_checkpoint_body body = Ok (Some (latest_size w o, hex <$> nodes, signed_note snap))) as Hparse.
  { apply parse_body_built; [done| |by eapply sign_note_nonempty|].
    - rewrite <- Hl. by eapply extension_proof_length.
    - rewrite <- Hbody. unfold build_add_checkpoint_body. by rewrite Hn, decode_hex. }
  destruct (verify_signed_note name pk sign s v text (signed_note snap)) as [Hvn [lines Hsplit]]; [done..|].
  assert (read_note (signed_note snap) = Ok (text, c)) as Hrd.
  { unfold read_note. rewrite Hsplit. cbn [mbind result_bind]. by rewrite (parse_note_text _ _ _ _ _ _ Hc Ht). }
  destruct (sign_note_shape _ _ _ Hsig) as (m & k & Hm' & _ & _).
  destruct (cosign_Ok w now text d m) as [line Hline]; [done..|].
  exists line, b. split; [done|]. unfold add_checkpoint, lift, mbind, M_bind, mret, M_ret, get, modify.
  assert (origin c = o /\ tree_size c = len D /\ root_hash c = b) as (Eo & Es & Er) by (by rewrite Ec).
  clear Ec. rewrite Hparse. cbn beta iota. rewrite Hrd. cbn beta iota. rewrite Eo, Htr. cbn beta iota.
  rewrite Hvn. cbn beta iota. rewrite bool_decide_eq_false_2, Es, (proj2 (Z.ltb_ge _ _)) by (done || lia).
  rewrite (honest_check w o D b c proof nodes) by done. cbn beta iota. by rewrite Hline, Er.
Qed.

(** ** Cosignatures verify *)

Lemma rstrip_nl_last s c : c <> NL -> rstrip_nl (s ++ [c]) = s ++ [c].
Proof.
  intros Hc. induction s as [|x s IH]; simpl.
  - by rewrite (proj2 (N.eqb_neq c NL)).
  - rewrite IH. by destruct s.
Qed.

(** A cosignature made by a witness verifies under the descriptor a
    relying party pins for it, for the note that was cosigned: the key id, the
    timestamp and the signed message are recovered from the line. *)
Theorem cosignature_verifies (w : witness) (d : WitnessDescriptor) (now : Z) (note line : ustr) :
  (forall m, ed25519_verify (w_public_raw w) (w_sign w m) m = true) ->
  (forall m, length (w_sign w m) = 64%nat) -> w_name w <> [] ->
  descriptor w = Ok d -> cosign w now note = Ok line ->
  verify_cosignature_line line note d = Ok true.
Proof.
  intros Hver Hlen Hne Hd Hc. unfold cosign in Hc.
  apply result_bind_Ok in Hc as (m & Hm & Hc). rewrite Hd in Hc. cbn [mbind result_bind] in Hc.
  apply result_bind_Ok in Hc as (k & Hk & Hc). apply result_bind_Ok in Hc as (t & Ht & Hc).
  set (blob := k ++ t ++ w_sign w m) in *.
  assert (line = SIG_LINE_PREFIX ++ w_name w ++ SPACE :: b64encode blob) as -> by (by inversion Hc). clear Hc.
  assert (d_name d = w_name w /\ d_public_key_raw d = w_public_raw w) as [Hdn Hdk].
  { unfold descriptor, new_descriptor in Hd. repeat case_match; by simplify_eq. }
  assert (length k = 4%nat) as Lk.
  { unfold descriptor_key_id in Hk. apply result_bind_Ok in Hk as (nb & _ & [= <-]).
    by rewrite length_take, sha256_length. }
  unfold be64 in Ht. destruct (Z.leb_spec (2 ^ 64) (Z.max 1 now)); [done|].
  assert (t = to_be 8 (Z.to_N (Z.max 1 now))) as Et by congruence.
  assert (length t = 8%nat) as Lt by (rewrite Et; apply length_to_be).
  assert (len blob = 76) as Lb by (unfold len, blob; rewrite !length_app, Lk, Lt, Hlen; done).
  unfold verify_cosignature_line. rewrite strip_prefix_app.
  assert (exists s c, b64encode blob = s ++ [c]) as (es & ec & Ee).
  { destruct (b64encode blob) as [|x es _] eqn:E using rev_ind; [|by eexists _, _].
    apply b64encode_nil in E. by rewrite E in Lb. }
  assert (ec <> NL) as Hec.
  { intros ->. pose proof (b64encode_chars blob) as Hb. rewrite Ee in Hb.
    apply Forall_app in Hb as [_ Hb]. apply list.Forall_cons in Hb as [Hb _]. unfold NL in Hb. simpl in Hb. lia. }
  replace (w_name w ++ SPACE :: b64encode blob) with ((w_name w ++ SPACE :: es) ++ [ec])
    by (rewrite Ee, <- app_assoc; done).
  rewrite rstrip_nl_last by done. rewrite <- app_assoc. cbn [app]. rewrite <- Ee.
  rewrite rcut_last by apply above_no_space, b64encode_chars.
  destruct (w_name w) as [|n0 nr] eqn:En; [done|]. rewrite Hdn, bool_decide_eq_true_2 by done. cbn [negb].
  rewrite b64decode_encode, Lb, Hk. cbn [negb Z.eqb mbind result_bind].
  assert (take 4 blob = k) as -> by (unfold blob; by apply take_app_length').
  assert (drop 4 blob = t ++ w_sign w m) as Ed4
    by (unfold blob; by apply drop_app_length').
  assert (drop 12 blob = w_sign w m) as ->.
  { change 12%nat with (4 + 8)%nat. rewrite <- drop_drop, Ed4. by apply drop_app_length'. }
  rewrite bool_decide_eq_true_2, Ed4, take_app_length' by done. cbn [negb].
  rewrite Et, from_to_be by (change (256 ^ N.of_nat 8)%N with (Z.to_N (2 ^ 64)); apply Z2N.inj_lt; lia).
  rewrite Z2N.id by lia. rewrite (proj2 (Z.eqb_neq _ 0)) by lia. rewrite Hm. cbn [mbind result_bind].
  by rewrite Hdk, Hver.
Qed.

(** ** The relying party *)

Lemma dict_set_in k d l k' d' :
  (k', d') ∈ dict_set k d l -> (k' = k /\ d' = d) \/ (k', d') ∈ l.
Proof.
  induction l as [|[k1 d1] l IH]; simpl; [set_solver|].
  case_decide; rewrite !elem_of_cons; naive_solver.
Qed.
Lemma by_name_in roster k d : (k, d) ∈ by_name roster -> d ∈ roster /\ k = d_name d.
Proof.
  unfold by_name. assert (forall acc, (k, d) ∈ fold_left (fun l d => dict_set (d_name d) d l) roster acc ->
    (d ∈ roster /\ k = d_name d) \/ (k, d) ∈ acc) as Hg.
  { induction roster as [|x roster IH]; intros acc Hin; simpl in *; [by right|].
    destruct (IH _ Hin) as [[? ?]|Hin']; [set_solver|].
    destruct (dict_set_in _ _ _ _ _ Hin') as [[-> ->]|?]; [set_solver|by right]. }
  intros Hin. destruct (Hg [] Hin) as [?|Hn]; [done|]. by apply not_elem_of_nil in Hn.
Qed.
Lemma dict_get_in l k d : (k, d) ∈ l -> exists d', dict_get k l = Some d' /\ (k, d') ∈ l.
Proof.
  induction l as [|[k1 d1] l IH]; simpl; [set_solver|]. case_decide; subst; [set_solver|].
  rewrite elem_of_cons. intros [|Hin]; [naive_solver|]. destruct (IH Hin) as (d' & ? & ?). set_solver.
Qed.

Definition certified (lines : list ustr) (note : ustr) (items : list (ustr * WitnessDescriptor)) (name : ustr) : Prop :=
  exists d line, (name, d) ∈ items /\ line ∈ lines /\ verify_cosignature_line line note d = Ok true.

Lemma first_match_spec line note valid items valid' :
  first_match line note valid items = Ok valid' -> NoDup valid ->
  NoDup valid' /\ forall n, n ∈ valid' -> n ∈ valid \/ certified [line] note items n.
Proof.
  revert valid'. induction items as [|[k d] items IH]; intros valid'; simpl; [naive_solver|].
  assert (forall n, certified [line] note items n -> certified [line] note ((k, d) :: items) n) as Hmono.
  { intros n (d' & l' & ? & ? & ?). exists d', l'. set_solver. }
  case_decide as Hin; [intros Hf Hnd; destruct (IH _ Hf Hnd); naive_solver|].
  intros Hf Hnd. apply result_bind_Ok in Hf as (b & Hb & Hf). destruct b.
  - injection Hf as <-. split.
    + apply list.NoDup_app. split; [done|]. split; [set_solver|]. apply NoDup_singleton.
    + intros n. rewrite elem_of_app, list_elem_of_singleton. intros [?| ->]; [by left|].
      right. exists d, line. set_solver.
  - destruct (IH _ Hf Hnd) as [? Hv]. split; [done|]. intros n Hn. destruct (Hv n Hn); naive_solver.
Qed.

Lemma count_cosigners_spec lines note valid items valid' :
  count_cosigners lines note valid items = Ok valid' -> NoDup valid ->
  NoDup valid' /\ forall n, n ∈ valid' -> n ∈ valid \/ certified lines note items n.
Proof.
  revert valid. induction lines as [|line lines IH]; intros valid; simpl; [naive_solver|].
  intros Hc Hnd. apply result_bind_Ok in Hc as (v1 & Hv1 & Hc).
  destruct (first_match_spec _ _ _ _ _ Hv1 Hnd) as [Hnd1 Hin1].
  destruct (IH v1 Hc Hnd1) as [Hnd2 Hin2]. split; [done|]. intros n Hn.
  destruct (Hin2 n Hn) as [Hn1|(d & l & ? & ? & ?)]; [|right; exists d, l; set_solver].
  destruct (Hin1 n Hn1) as [?|(d & l & ? & Hl & ?)]; [by left|]. right. exists d, l. set_solver.
Qed.

Lemma verify_cosignature_line_true line note d :
  verify_cosignature_line line note d = Ok true ->
  exists t m sig, 0 < t /\ cosign_message t note = Ok m
    /\ ed25519_verify (d_public_key_raw d) sig m = true.
Proof.
  unfold verify_cosignature_line. destruct (strip_prefix _ _); [|done].
  destruct (rcut _ _) as [[[|n0 name] b64]|]; [done| |done]. case_bool_decide; [|done]. cbn [negb].
  destruct (b64decode b64) as [blob|]; [|done]. destruct (len blob =? 76); [|done]. cbn [negb]. intros Hv.
  apply result_bind_Ok in Hv as (k & _ & Hv). case_bool_decide; [|done]. cbn [negb] in Hv.
  destruct (Z.eqb_spec (Z.of_N (from_be (take 8 (drop 4 blob)))) 0); [done|].
  apply result_bind_Ok in Hv as (m & Hm & Hv). exists (Z.of_N (from_be (take 8 (drop 4 blob)))), m, (drop 12 blob).
  split; [lia|]. split; [done|]. by injection Hv.
Qed.

(** A met quorum certifies what it says: the log's own signature verifies
    over the note, and there are at least [q] distinct witnesses of the
    relying party's roster, each with a public key under which a signature of
    that same note, with a non-zero time, verifies.  The verification never
    reports a federation, quorum or not: no descriptor that the constructor
    accepts is external. *)
Theorem quorum_certifies (cc : CosignedCheckpoint) (lv : NoteVerifier) roster (q : Z) cv :
  Forall (fun d => exists n k p, new_descriptor n k p = Ok d) roster ->
  verify_cosigned_checkpoint cc lv roster q = Ok cv ->
  federated cv = false
  /\ (quorum_met cv = true ->
      exists note c names, read_note (c_signed_note cc) = Ok (note, c) /\ cv_checkpoint cv = Some c
        /\ verify_note (c_signed_note cc) [lv] = Ok names /\ names <> []
        /\ NoDup (valid_cosigners cv) /\ q <= len (valid_cosigners cv)
        /\ forall name, name ∈ valid_cosigners cv ->
             exists d t m sig, d ∈ roster /\ d_name d = name /\ 0 < t
               /\ cosign_message t note = Ok m
               /\ ed25519_verify (d_public_key_raw d) sig m = true).
Proof.
  intros Hro Hv. unfold verify_cosigned_checkpoint in Hv.
  destruct (Z.ltb_spec q 1); [done|]. destruct (read_note (c_signed_note cc)) as [[note c]|]; [|by injection Hv as <-].
  apply result_bind_Ok in Hv as (names & Hn & Hv). case_bool_decide; [by injection Hv as <-|].
  apply result_bind_Ok in Hv as (valid & Hval & Hv). injection Hv as <-. simpl.
  destruct (count_cosigners_spec _ _ _ _ _ Hval) as [Hnd Hcert]; [constructor|]. split.
  - apply andb_false_iff. left. apply andb_false_iff.
    destruct valid as [|n valid]; [left; unfold len; simpl; apply Z.leb_gt; lia|]. right.
    apply bool_decide_eq_false_2. intros E.
    destruct (Hcert n) as [Hn0|(d & line & Hd & _)]; [set_solver|by apply not_elem_of_nil in Hn0|].
    destruct (dict_get_in _ _ _ Hd) as (d' & Hget & Hd'). apply by_name_in in Hd' as [Hd' _].
    rewrite list.Forall_forall in Hro. destruct (Hro d' Hd') as (n' & k & p & Hnew).
    assert (d_provenance d' <> EXTERNAL_FEDERATED) as Hp.
    { unfold new_descriptor in Hnew. case_bool_decide; [done|]. case_match; [done|]. by injection Hnew as <-. }
    cbn [omap list_omap] in E. rewrite Hget in E. by rewrite filter_cons_True in E.
  - intros Hq. apply Z.leb_le in Hq. exists note, c, names. do 6 (split; [done|]).
    intros name Hname. destruct (Hcert name Hname) as [Hn0|(d & line & Hd & _ & Hl)]; [by apply not_elem_of_nil in Hn0|].
    apply by_name_in in Hd as [Hd ->].
    destruct (verify_cosignature_line_true _ _ _ Hl) as (t & m & sig & ? & ? & ?). by exists d, t, m, sig.
Qed.
End Live.

(** * Runs of a publisher and a witness

    A log that grows from two records to three, submitted twice to a witness,
    under SHA-256, with a toy signature scheme and the digits of ASCII and
    Latin-1: the witnesses of the theorems on notes and witnesses, the
    refusals of a witness, and the one request that makes it raise. *)
Open Scope Z_scope.

#[local] Existing Instance sha256_fips.

(** A signature that only depends on the sum of the bytes signed. *)
Definition toy_sign (m : bytes) : bytes :=
  replicate 64 (byte_of (fold_left (fun a x => (a + Byte.to_N x)%N) m 0%N)).
#[local] Instance toy : Ed25519 :=
  {| ed25519_verify := fun _ sig m => bool_decide (sig = toy_sign m) |}.

(** ASCII digits, the superscripts of Latin-1, the Arabic-Indic digits. *)
Definition digit_excerpt (c : N) : bool :=
  ((48 <=? c) && (c <=? 57) || (c =? 178) || (c =? 179) || (c =? 185) || (1632 <=? c) && (c <=? 1641))%N.
Definition decimal_excerpt (c : N) : option N :=
  (if (48 <=? c) && (c <=? 57) then Some (c - 48)
   else if (1632 <=? c) && (c <=? 1641) then Some (c - 1632) else None)%N.
Lemma digit_excerpt_ascii c : (c < 128)%N -> digit_excerpt c = ((48 <=? c) && (c <=? 57))%N.
Proof.
  intros Hc. unfold digit_excerpt.
  rewrite !(proj2 (N.eqb_neq c _)), (proj2 (N.leb_gt 1632 c)) by lia. by rewrite !orb_false_r.
Qed.
Lemma decimal_excerpt_ascii d : (d < 10)%N -> decimal_excerpt (48 + d) = Some d.
Proof.
  intros Hd. unfold decimal_excerpt.
  rewrite (proj2 (N.leb_le 48 _)), (proj2 (N.leb_le _ 57)) by lia. cbn [andb]. f_equal. lia.
Qed.
#[local] Instance excerpt : Unicode :=
  {| isdigit := digit_excerpt; decimal := decimal_excerpt;
     isdigit_ascii := digit_excerpt_ascii; decimal_ascii := decimal_excerpt_ascii |}.

Definition log_name : ustr := u "tex.local/log".
Definition log_key : bytes := replicate 32 x07.
Definition signer : NoteSigner := {| s_name := log_name; s_public_raw := log_key; s_sign := toy_sign |}.
Definition log_key_pin : NoteVerifier := {| v_name := log_name; public_key_raw := log_key |}.
Definition publisher : CheckpointPublisher := {| p_origin := log_name; p_signer := signer |}.
Definition w0 : witness :=
  {| w_name := u "w1"; w_provenance := IN_PROCESS; w_public_raw := replicate 32 x08; w_sign := toy_sign;
     trusted := {[ log_name := log_key_pin ]}; latest := ∅ |}.

Lemma toy_verifies (pk m : bytes) : ed25519_verify pk (toy_sign m) m = true.
Proof. by apply bool_decide_eq_true_2. Qed.

(** The log at two records, then at three. *)
Definition two : list ustr := take 2 three.
Definition first_request : ustr := Eval vm_compute in ok [] (build_add_checkpoint_request publisher two 0).
Definition second_request : ustr := Eval vm_compute in ok [] (build_add_checkpoint_request publisher three 2).
Definition checkpoint_at (D : list ustr) : Checkpoint :=
  {| origin := log_name; tree_size := len D;
     root_hash := default [] (fromhex (ok [] (merkle_root D))); extension_lines := [] |}.
Definition c2 : Checkpoint := Eval vm_compute in checkpoint_at two.
Definition c3 : Checkpoint := Eval vm_compute in checkpoint_at three.
Definition inputs_23 : list (ustr * Z) := [(first_request, 100); (second_request, 200)].

Lemma checkpoint_roundtrip_witness :
  parse (ok [] (note_text c3)) = Ok c3.
Proof.
  apply (checkpoint_roundtrip log_name 3 (root_hash c3) [] c3 (ok [] (note_text c3))); vm_compute; reflexivity.
Defined.

Definition text_3 : ustr := Eval vm_compute in ok [] (note_text c3).
Definition signed_3 : ustr := Eval vm_compute in ok [] (sign_note signer text_3).
Lemma signed_note_verifies_witness :
  verify_note signed_3 [log_key_pin] = Ok [log_name]
  /\ exists lines, split_signed_note signed_3 = Ok (text_3, lines).
Proof.
  apply (signed_note_verifies log_name log_key toy_sign signer log_key_pin text_3 signed_3 (toy_verifies log_key));
    vm_compute; reflexivity.
Defined.

Lemma witness_non_equivocation_witness :
  tree_size c2 <= tree_size c3
  /\ (tree_size c2 = tree_size c3 -> root_hash c2 = root_hash c3)
  /\ merkle_root (upto (tree_size c2) three) = Ok (root_hash_hex c2).
Proof.
  destruct (witness_non_equivocation (u "w1") {[ log_name := log_key_pin ]} IN_PROCESS (replicate 32 x08)
    toy_sign w0 inputs_23 0 1 c2 c3) as (Hle & Heq & Hpre).
  - reflexivity.
  - lia.
  - apply cosigned_check_at. vm_compute. reflexivity.
  - apply cosigned_check_at. vm_compute. reflexivity.
  - reflexivity.
  - split; [exact Hle|split; [exact Heq|]]. apply Hpre.
    + vm_compute. reflexivity.
    + reflexivity.
    + apply collision_free_check. vm_compute. reflexivity.
Defined.

Lemma honest_log_cosigned_witness :
  exists line root, merkle_root two = Ok (hex root)
    /\ add_checkpoint first_request 100 w0
       = (Ok {| outcome := COSIGNED; cosignature_line := Some line; latest_size_hint := None |},
          set_latest (<[log_name := (2, root)]> (latest w0)) w0).
Proof.
  apply (honest_log_cosigned log_name log_key toy_sign signer log_key_pin log_name two w0 100
    {| d_name := u "w1"; d_public_key_raw := replicate 32 x08; d_provenance := IN_PROCESS |} first_request
    (toy_verifies log_key)); try (vm_compute; reflexivity).
  - vm_compute. discriminate.
  - vm_compute. eauto.
Defined.

Definition d0 : WitnessDescriptor :=
  {| d_name := u "w1"; d_public_key_raw := replicate 32 x08; d_provenance := IN_PROCESS |}.
Definition cosignature_3 : ustr := Eval vm_compute in ok [] (cosign w0 200 text_3).
Lemma cosignature_verifies_witness : verify_cosignature_line cosignature_3 text_3 d0 = Ok true.
Proof.
  apply (cosignature_verifies w0 d0 200 text_3 cosignature_3 (toy_verifies (replicate 32 x08)));
    first [vm_compute; reflexivity|discriminate].
Defined.

Definition cosigned_3 : CosignedCheckpoint :=
  {| c_signed_note := signed_3; cosignature_lines := [cosignature_3]; refusals := [] |}.
Lemma quorum_certifies_witness :
  exists cv, verify_cosigned_checkpoint cosigned_3 log_key_pin [d0] 1 = Ok cv /\ quorum_met cv = true
    /\ federated cv = false.
Proof.
  exists {| cv_checkpoint := Some c3; log_signature_valid := true; valid_cosigners := [u "w1"]; quorum := 1;
           quorum_met := true; federated := false |}.
  assert (verify_cosigned_checkpoint cosigned_3 log_key_pin [d0] 1 = Ok
    {| cv_checkpoint := Some c3; log_signature_valid := true; valid_cosigners := [u "w1"]; quorum := 1;
       quorum_met := true; federated := false |}) as E by (vm_compute; reflexivity).
  split; [exact E|]. split; [reflexivity|].
  apply (quorum_certifies cosigned_3 log_key_pin [d0] 1 _); [|exact E].
  repeat constructor. exists (u "w1"), (replicate 32 x08), IN_PROCESS. reflexivity.
Defined.

(** A second view of the log at the same size, and a log rewritten from its
    start, are refused after the first was cosigned. *)
Definition forked : list ustr := [record 10; record 99].
Definition fork_request : ustr := Eval vm_compute in ok [] (build_add_checkpoint_request publisher forked 2).
Definition rewritten : list ustr := [record 99; record 11; record 12].
Definition rewrite_request : ustr := Eval vm_compute in ok [] (build_add_checkpoint_request publisher rewritten 2).
Definition outcomes (l : list ustr) : list (option WitnessOutcome) :=
  (fun x => match fst x with Ok r => Some (outcome r) | Err _ => None end) <$> run w0 ((fun b => (b, 100)) <$> l).
Example fork_refused :
  outcomes [first_request; fork_request; rewrite_request; second_request; first_request]
  = [Some COSIGNED; Some CONFLICT; Some BAD_CONSISTENCY_PROOF; Some COSIGNED; Some CONFLICT].
Proof. vm_compute. reflexivity. Qed.

(** [isdigit] holds of a superscript two, [int] refuses it, and the parser of a
    request does not catch the exception. *)
Example superscript_raises :
  add_checkpoint (u "old " ++ [178%N; NL; NL] ++ u "x") 100 w0 = (Err ValueError, w0).
Proof. vm_compute. reflexivity. Qed.
(** Digits outside ASCII are read as a size. *)
Example arabic_digit_size :
  parse_add_checkpoint_body (u "old " ++ [1634%N; NL; NL] ++ u "x") = Ok (Some (2, [], u "x")).
Proof. vm_compute. reflexivity. Qed.
