(* ===== verification/PdpDomain.v ===== *)
(** * The decision point: requests, findings and rebuilt results

    [tex/domain/evaluation.py] ([EvaluationRequest], [AgentRuntimeIdentity]),
    the validated constructor of [tex/domain/finding.py], and the way every
    stage after the router rebuilds the frozen [RoutingResult]: the verdict and
    the lists change, the numbers and the annotations stay. *)
From S2P Require Import Prelude PyStr PyFloat PyVal ContractLtl RouterDomain RouterFusion Router PyFormat.
Import RouterDomain Router.
Open Scope string_scope.
Open Scope list_scope.
Open Scope nat_scope.

Module PdpDomain.

(** Exceptions of the pipeline: those of the router and the constructors, those of
    the contract enforcer, the
    [OverflowError] of [float()] on a large int, and one raised by a stream or
    ledger that is not modelled. *)
Inductive exn :=
| PydanticError (e : RouterDomain.exn) | ContractError (e : ContractLtl.exn)
| OverflowError | ParserFuel | External.

Definition of_router {A} (r : result RouterDomain.exn A) : result exn A :=
  match r with Ok a => Ok a | Err e => Err (PydanticError e) end.

(** ** Characters above 0xff in the program's own messages

    They are written with C1 control codes, which the messages do not use: one
    character each, no blanks, and folding to themselves, as the originals. *)
Definition emdash : string := String (ascii_of_nat 151) "".
Definition arrow : string := String (ascii_of_nat 128) "".
Definition leq_sign : string := String (ascii_of_nat 129) "".
Definition geq_sign : string := String (ascii_of_nat 130) "".
Definition theta : string := String (ascii_of_nat 131) "".
Definition times_sign : string := String (ascii_of_nat 215) "".

(** [s.upper()] as code points: the sharp s becomes two letters, the micro sign
    and the y with diaeresis leave the range. *)
Definition upper_char (c : ascii) : list N :=
  if in_range 223 223 c then [83; 83]%N
  else if in_range 181 181 c then [924]%N
  else if in_range 255 255 c then [376]%N
  else if in_range 97 122 c || in_range 224 246 c || in_range 248 254 c
       then [(code c - 32)%N]
  else [code c].
Fixpoint upper (s : string) : list N :=
  match s with
  | EmptyString => []
  | String c s => upper_char c ++ upper s
  end.
Fixpoint codes (s : string) : list N :=
  match s with
  | EmptyString => []
  | String c s => code c :: codes s
  end.

(** ** Requests *)

(** Without the fields that only the agent registry reads.  Ids are the texts
    [str()] gives. *)
Record AgentRuntimeIdentity := {
  rt_agent_id : option string;
  external_agent_id : option string;
  agent_name : option string;
  tenant_id : string;
  tools : list string;
  mcp_server_ids : list string
}.

(** [requested_at] is in microseconds since the epoch, the resolution of
    [datetime]. *)
Record EvaluationRequest := {
  request_id : string;
  action_type : string;
  content : string;
  recipient : option string;
  channel : string;
  environment : string;
  metadata : pydict;
  req_agent_id : option string;
  session_id : option string;
  agent_identity : option AgentRuntimeIdentity;
  requested_at : Z
}.

(** [requested_at.timestamp()]: the exact quotient, rounded once. *)
Definition timestamp (r : EvaluationRequest) : float :=
  float_of_dec (requested_at r <? 0)%Z (Z.abs (requested_at r)) (-6).

(** [metadata.get(k)] for an opt-in block: [None] unless it is a mapping. *)
Definition mapping_at (k : string) (d : pydict) : option pydict :=
  match dict_get k d with Some (PDict m) => Some m | _ => None end.

(** [bool(v)]. *)
Definition py_bool (v : pyval) : bool :=
  match v with
  | PNone => false
  | PBool b => b
  | PInt z => negb (z =? 0)%Z
  | PFloat f => negb (feqb f f_zero)
  | PStr s => negb (String.eqb s "")
  | PList l => negb (bool_decide (length l = 0))
  | PDict d => negb (bool_decide (length d = 0))
  | PObj _ => true
  end.

(** [str(v)]; the rendering of a float or a container is a parameter. *)
Definition py_str_of (str_other : pyval -> string) (v : pyval) : string :=
  match v with
  | PStr s => s
  | PNone => "None"
  | PBool b => if b then "True" else "False"
  | PInt z => z_str z
  | PObj s => s
  | PFloat _ | PList _ | PDict _ => str_other v
  end.

(** ** Findings

    The length bounds are checked on the text as given, then the text is
    stripped and must not be blank. *)
Definition valid_text (max : nat) (s : string) : bool :=
  (1 <=? String.length s) && (String.length s <=? max) && negb (String.eqb (strip s) "").

Definition new_finding (source rule_name : string) (severity : Severity) (message : string)
    (metadata : pydict) : result exn Finding :=
  if valid_text 100 source && valid_text 150 rule_name && valid_text 500 message
  then Ok {| source := strip source; rule_name := strip rule_name; severity := severity;
             message := strip message; matched_text := None; start_index := None;
             end_index := None; f_metadata := metadata |}
  else Err (PydanticError ValidationError).

(** ** Rebuilding a routed result *)

(** [d[k] = v] on the [scores] dict: the position of a present key is kept. *)
Fixpoint dict_set {A} (k : string) (v : A) (d : list (string * A)) : list (string * A) :=
  match d with
  | [] => [(k, v)]
  | (k', v') :: d => if String.eqb k k' then (k, v) :: d else (k', v') :: dict_set k v d
  end.

(** [RoutingResult(...)] with the given verdict, lists and scores, and the
    confidence, score, annotations and override flag of [base]. *)
Definition rebuild {A} (base : RoutingResult A) (v : Verdict) (reasons flags : list string)
    (fs : list Finding) (scores : list (string * float)) : result exn (RoutingResult A) :=
  of_router (new_result {|
    verdict := v; confidence := confidence base; final_score := final_score base;
    reasons := reasons; uncertainty_flags := flags; r_findings := fs; scores := scores;
    asi_findings := asi_findings base; override_fired := override_fired base |}).

(** ** Lemmas *)

Lemma of_router_Ok {A} (r : result RouterDomain.exn A) a : of_router r = Ok a <-> r = Ok a.
Proof. destruct r; simpl; split; congruence. Qed.

Lemma new_result_fields {A} (r r' : RoutingResult A) :
  new_result r = Ok r' ->
  verdict r' = verdict r /\ confidence r' = confidence r /\ final_score r' = final_score r
  /\ r_findings r' = r_findings r /\ scores r' = scores r /\ asi_findings r' = asi_findings r
  /\ override_fired r' = override_fired r
  /\ uncertainty_flags r' = dedupe (strip <$> uncertainty_flags r)
  /\ reasons r' = dedupe (strip <$> reasons r).
Proof.
  unfold new_result, normalize_string_sequences. intros H. inv_bind.
  repeat case_match; simplify_eq/=; done.
Qed.

(** What a rebuilt result keeps and what it takes from the arguments. *)
Lemma rebuild_fields {A} (base r : RoutingResult A) v rs fl fs sc :
  rebuild base v rs fl fs sc = Ok r ->
  verdict r = v /\ confidence r = confidence base /\ final_score r = final_score base
  /\ r_findings r = fs /\ scores r = sc /\ asi_findings r = asi_findings base
  /\ override_fired r = override_fired base
  /\ uncertainty_flags r = dedupe (strip <$> fl).
Proof. unfold rebuild. rewrite of_router_Ok. intros H%new_result_fields. naive_solver. Qed.

(** Deduplication loses no flag up to case. *)
Lemma dedupe_from_keeps seen l x :
  x ∈ l -> casefold x ∈ seen \/ exists y, y ∈ dedupe_from seen l /\ casefold y = casefold x.
Proof.
  revert seen. induction l as [|z l IH]; intros seen Hx; [set_solver|]. simpl.
  apply elem_of_cons in Hx as [-> |Hx].
  - case_decide; [by left|]. right. exists z. split; [left|done].
  - case_decide.
    + by apply IH.
    + destruct (IH (casefold z :: seen) Hx) as [Hin|(y & Hy & Heq)].
      * apply elem_of_cons in Hin as [Heq|Hin]; [|by left]. right. exists z. split; [left|done].
      * right. exists y. split; [by right|done].
Qed.
Lemma dedupe_keeps l x :
  x ∈ l -> exists y, y ∈ dedupe l /\ casefold y = casefold x.
Proof. intros Hx. destruct (dedupe_from_keeps [] l x Hx); [set_solver|done]. Qed.

Lemma dedupe_from_mem seen l x : x ∈ dedupe_from seen l -> x ∈ l.
Proof.
  revert seen. induction l as [|z l IH]; intros seen; simpl; [done|].
  case_decide; [intros Hx; right; by eapply IH|].
  rewrite !elem_of_cons. intros [-> |Hx]; [by left|right; by eapply IH].
Qed.

(** A flag given to [rebuild] is in the result up to case and blanks. *)
Lemma rebuild_flag {A} (base r : RoutingResult A) v rs fl fs sc x :
  rebuild base v rs fl fs sc = Ok r -> x ∈ fl ->
  exists y, y ∈ uncertainty_flags r /\ casefold y = casefold (strip x).
Proof.
  intros H%rebuild_fields Hx. destruct H as (_ & _ & _ & _ & _ & _ & _ & ->).
  by apply dedupe_keeps, list_elem_of_fmap_2.
Qed.

(** What every hold does to a result it acts on: a PERMIT becomes an ABSTAIN that
    carries the hold's flag, and the numbers stay. *)
Record demoted_with {A} (flag : string) (base out : RoutingResult A) : Prop := {
  dem_from : verdict base = PERMIT;
  dem_to : verdict out = ABSTAIN;
  dem_score : final_score out = final_score base;
  dem_confidence : confidence out = confidence base;
  dem_asi : asi_findings out = asi_findings base;
  dem_flag : exists y, y ∈ uncertainty_flags out /\ casefold y = casefold (strip flag)
}.

Lemma rebuild_demotes {A} flag (base out : RoutingResult A) rs fl fs sc :
  verdict base = PERMIT -> flag ∈ fl -> rebuild base ABSTAIN rs fl fs sc = Ok out ->
  demoted_with flag base out.
Proof.
  intros Hv Hf H. pose proof (rebuild_flag _ _ _ _ _ _ _ _ H Hf) as Hflag.
  apply rebuild_fields in H. constructor; naive_solver.
Qed.

(** The scores dict after an assignment. *)
Lemma dict_set_unit k v (d : list (string * float)) :
  unit_interval v = true -> forallb (fun kv => unit_interval kv.2) d = true ->
  forallb (fun kv => unit_interval kv.2) (dict_set k v d) = true.
Proof.
  intros Hv. induction d as [|[k' v'] d IH]; simpl; [by rewrite Hv|].
  intros [H1 H2]%andb_prop. destruct (String.eqb k k'); simpl; rewrite ?Hv, ?H1; auto.
Qed.

End PdpDomain.
