(* ===== verification/ActionClass.v ===== *)
(** * Structural contracts read from the request: action classes

    [tex/contracts/action_class.py]: the reversibility and blast-radius axes,
    their joins, the fixed cell map, and the classification of a declared list
    of steps.  The offline certificate of the same file is not modelled. *)
From stdpp Require Import pretty.
From S2P Require Import Prelude PyStr PyFloat PyVal RouterDomain PdpDomain.
Import PdpDomain.
Open Scope string_scope.
Open Scope list_scope.
Open Scope nat_scope.

Module ActionClass.

Inductive Reversibility := REVERSIBLE | RECOVERABLE | IRREVERSIBLE | R_UNKNOWN.
Inductive BlastRadius := SELF | TENANT | PUBLIC | B_UNKNOWN.
Inductive ActionClass := NEUTRAL | ABSTAIN | FORBID.
#[global] Instance Reversibility_eq : EqDecision Reversibility.
Proof. solve_decision. Defined.
#[global] Instance BlastRadius_eq : EqDecision BlastRadius.
Proof. solve_decision. Defined.
#[global] Instance ActionClass_eq : EqDecision ActionClass.
Proof. solve_decision. Defined.

(** [int()] of the members of the [IntEnum]s, and their names. *)
Definition rev_int (r : Reversibility) : nat :=
  match r with REVERSIBLE => 0 | RECOVERABLE => 1 | IRREVERSIBLE => 2 | R_UNKNOWN => 3 end.
Definition blast_int (b : BlastRadius) : nat :=
  match b with SELF => 0 | TENANT => 1 | PUBLIC => 2 | B_UNKNOWN => 3 end.
Definition class_int (c : ActionClass) : nat :=
  match c with NEUTRAL => 0 | ABSTAIN => 1 | FORBID => 2 end.
Definition rev_name (r : Reversibility) : string :=
  match r with REVERSIBLE => "REVERSIBLE" | RECOVERABLE => "RECOVERABLE"
  | IRREVERSIBLE => "IRREVERSIBLE" | R_UNKNOWN => "UNKNOWN" end.
Definition blast_name (b : BlastRadius) : string :=
  match b with SELF => "SELF" | TENANT => "TENANT" | PUBLIC => "PUBLIC" | B_UNKNOWN => "UNKNOWN" end.

Definition rev_join (a b : Reversibility) : Reversibility :=
  if rev_int a <? rev_int b then b else a.
Definition blast_join (a b : BlastRadius) : BlastRadius :=
  if blast_int a <? blast_int b then b else a.
Definition is_irreversible (r : Reversibility) : bool := rev_int IRREVERSIBLE <=? rev_int r.
Definition is_public (b : BlastRadius) : bool := blast_int PUBLIC <=? blast_int b.

(** [name in Enum.__members__], in the order of declaration. *)
Definition rev_members : list Reversibility := [REVERSIBLE; RECOVERABLE; IRREVERSIBLE; R_UNKNOWN].
Definition blast_members : list BlastRadius := [SELF; TENANT; PUBLIC; B_UNKNOWN].
Definition member {A} (name : A -> string) (l : list A) (key : list N) : option A :=
  List.find (fun m => bool_decide (codes (name m) = key)) l.

(** A value of the block is JSON, so it is never a member of the enum itself. *)
Definition coerce_rev (v : option pyval) : Reversibility :=
  match v with
  | Some (PStr s) => default R_UNKNOWN (member rev_name rev_members (upper (strip s)))
  | _ => R_UNKNOWN
  end.
Definition coerce_blast (v : option pyval) : BlastRadius :=
  match v with
  | Some (PStr s) => default B_UNKNOWN (member blast_name blast_members (upper (strip s)))
  | _ => B_UNKNOWN
  end.

Definition classify_action_class (r : Reversibility) (b : BlastRadius) : ActionClass :=
  if is_irreversible r && is_public b then FORBID
  else if is_irreversible r || is_public b then ABSTAIN
  else NEUTRAL.

(** The loop of [_join_steps]; a list of the block is a Python list. *)
Fixpoint join_steps (acc : Reversibility * BlastRadius * nat) (steps : list pyval)
    : Reversibility * BlastRadius * nat :=
  match steps with
  | [] => acc
  | PDict entry :: steps =>
      let '(rev, blast, n_valid) := acc in
      join_steps (rev_join rev (coerce_rev (dict_get "reversibility" entry)),
                  blast_join blast (coerce_blast (dict_get "blast_radius" entry)),
                  S n_valid) steps
  | _ :: steps => join_steps acc steps
  end.

Record ActionClassOutcome := {
  ac_fired : bool;
  action_class : ActionClass;
  worst_reversibility : Reversibility;
  worst_blast : BlastRadius;
  n_steps : nat;
  ac_reason : string
}.
Definition NEUTRAL_ACTION_CLASS : ActionClassOutcome := {|
  ac_fired := false; action_class := NEUTRAL; worst_reversibility := REVERSIBLE;
  worst_blast := SELF; n_steps := 0; ac_reason := "" |}.

Definition forbid_reason (r : Reversibility) (b : BlastRadius) (n : nat) : string :=
  "L4 ActionClass lattice: worst-step join is " +:+ rev_name r +:+ " reversibility " +:+ times_sign
  +:+ " " +:+ blast_name b +:+ " blast radius over " +:+ pretty (N.of_nat n)
  +:+ " declared step(s) " +:+ emdash
  +:+ " an irreversible, public-blast action with no proof of containment or undo. Structural FORBID.".
Definition hold_reason (r : Reversibility) (b : BlastRadius) : string :=
  "L4 ActionClass lattice: worst-step join is " +:+ rev_name r +:+ " " +:+ times_sign +:+ " "
  +:+ blast_name b +:+ " " +:+ emdash
  +:+ " one axis in its dangerous tier. Held for review (recorded; not yet surfaced this wave).".

Definition classify_action_class_block (raw : pydict) : ActionClassOutcome :=
  match dict_get "steps" raw with
  | Some (PList steps) =>
      let '(worst_rev, worst_blast, n_valid) := join_steps (REVERSIBLE, SELF, 0) steps in
      if n_valid =? 0 then NEUTRAL_ACTION_CLASS
      else
        let cell := classify_action_class worst_rev worst_blast in
        {| ac_fired := bool_decide (cell = FORBID);
           action_class := cell;
           worst_reversibility := worst_rev;
           worst_blast := worst_blast;
           n_steps := n_valid;
           ac_reason := match cell with
                        | FORBID => forbid_reason worst_rev worst_blast n_valid
                        | ABSTAIN => hold_reason worst_rev worst_blast
                        | NEUTRAL => ""
                        end |}
  | _ => NEUTRAL_ACTION_CLASS
  end.

Definition evaluate_action_class (r : EvaluationRequest) : ActionClassOutcome :=
  match mapping_at "action_class" (metadata r) with
  | Some raw => classify_action_class_block raw
  | None => NEUTRAL_ACTION_CLASS
  end.

(** ** What the contract decides

    The declared steps of a block, with their two labels. *)
Definition declared (raw : pydict) : list (Reversibility * BlastRadius) :=
  match dict_get "steps" raw with
  | Some (PList steps) =>
      omap (fun v => match v with
                     | PDict e => Some (coerce_rev (dict_get "reversibility" e),
                                        coerce_blast (dict_get "blast_radius" e))
                     | _ => None
                     end) steps
  | _ => []
  end.

(** The dangerous tier of a join is reached as soon as one step reaches it. *)
Lemma rev_join_irreversible a b :
  is_irreversible (rev_join a b) = is_irreversible a || is_irreversible b.
Proof. by destruct a, b. Qed.
Lemma blast_join_public a b : is_public (blast_join a b) = is_public a || is_public b.
Proof. by destruct a, b. Qed.

Lemma join_steps_spec steps rev blast n :
  let ls := omap (fun v => match v with
                     | PDict e => Some (coerce_rev (dict_get "reversibility" e),
                                        coerce_blast (dict_get "blast_radius" e))
                     | _ => None
                     end) steps in
  exists r b, join_steps (rev, blast, n) steps = (r, b, n + length ls)
  /\ is_irreversible r = is_irreversible rev || existsb (fun p => is_irreversible p.1) ls
  /\ is_public b = is_public blast || existsb (fun p => is_public p.2) ls.
Proof.
  simpl. revert rev blast n. induction steps as [|v steps IH]; intros rev blast n; simpl.
  - exists rev, blast. rewrite !orb_false_r, Nat.add_0_r. done.
  - destruct v; simpl; try apply IH.
    edestruct IH as (r & b & E & Hr & Hb). exists r, b. split; [rewrite E, Nat.add_succ_comm; done|].
    rewrite Hr, Hb, rev_join_irreversible, blast_join_public, !orb_assoc. done.
Qed.

Lemma classify_forbid r b :
  classify_action_class r b = FORBID <-> is_irreversible r = true /\ is_public b = true.
Proof. unfold classify_action_class. destruct (is_irreversible r), (is_public b); simpl; naive_solver. Qed.

(** A block forbids exactly when some declared step has no robust undo and some
    declared step, the same one or another, reaches the public. *)
Lemma block_forbids raw :
  action_class (classify_action_class_block raw) = FORBID <->
  Exists (fun p => is_irreversible p.1 = true) (declared raw)
  /\ Exists (fun p => is_public p.2 = true) (declared raw).
Proof.
  unfold classify_action_class_block, declared. rewrite !list.Exists_exists.
  destruct (dict_get "steps" raw) as [[| | | | |steps| |]|];
    try by (split; [done|intros [(p & Hp & _) _]; set_solver]).
  destruct (join_steps_spec steps REVERSIBLE SELF 0) as (r & b & -> & Hr & Hb). simpl in *.
  set (ls := omap _ steps) in *. clearbody ls.
  assert (existsb (fun p => is_irreversible p.1) ls = true <->
          exists p, p ∈ ls /\ is_irreversible p.1 = true) as E1.
  { rewrite existsb_exists. by setoid_rewrite list_elem_of_In. }
  assert (existsb (fun p => is_public p.2) ls = true <->
          exists p, p ∈ ls /\ is_public p.2 = true) as E2.
  { rewrite existsb_exists. by setoid_rewrite list_elem_of_In. }
  rewrite <- E1, <- E2, <- Hr, <- Hb. destruct (length ls =? 0) eqn:El; simpl.
  - apply Nat.eqb_eq, length_zero_iff_nil in El as ->. simpl in *. rewrite Hr, Hb. naive_solver.
  - rewrite classify_forbid. done.
Qed.

(** The cell map is monotone: raising an axis never lowers the class. *)
Lemma classify_monotone r r' b b' :
  rev_int r <= rev_int r' -> blast_int b <= blast_int b' ->
  class_int (classify_action_class r b) <= class_int (classify_action_class r' b').
Proof. destruct r, r', b, b'; vm_compute; lia. Qed.

End ActionClass.
