(* ===== verification/RuleOfTwo.v ===== *)
(** * Structural contracts read from the request: the rule of two

    [tex/contracts/rule_of_two.py], with the two label orders of
    [tex/camel/capability.py] it reads. *)
From S2P Require Import Prelude PyStr PyFloat PyVal RouterDomain PdpDomain.
Import PdpDomain.
Open Scope string_scope.
Open Scope list_scope.
Open Scope nat_scope.

Module RuleOfTwo.

Inductive CapabilityLevel := TRUSTED | USER | UNTRUSTED.
Inductive ConfidentialityLevel := PUBLIC | INTERNAL | CONFIDENTIAL | RESTRICTED.
#[global] Instance CapabilityLevel_eq : EqDecision CapabilityLevel.
Proof. solve_decision. Defined.
Definition level_name (l : CapabilityLevel) : string :=
  match l with TRUSTED => "TRUSTED" | USER => "USER" | UNTRUSTED => "UNTRUSTED" end.
Definition conf_name (c : ConfidentialityLevel) : string :=
  match c with PUBLIC => "PUBLIC" | INTERNAL => "INTERNAL" | CONFIDENTIAL => "CONFIDENTIAL"
  | RESTRICTED => "RESTRICTED" end.
Definition conf_int (c : ConfidentialityLevel) : nat :=
  match c with PUBLIC => 0 | INTERNAL => 1 | CONFIDENTIAL => 2 | RESTRICTED => 3 end.
Definition is_sensitive (c : ConfidentialityLevel) : bool := conf_int CONFIDENTIAL <=? conf_int c.

Definition find_member {A} (name : A -> string) (l : list A) (key : list N) : option A :=
  List.find (fun m => bool_decide (codes (name m) = key)) l.

(** [value.strip().casefold() in ("true", "1", "yes")]. *)
Definition as_bool (v : pyval) : bool :=
  match v with
  | PBool b => b
  | PInt z => (z =? 1)%Z
  | PFloat f => feqb f f_one
  | PStr s => bool_decide (casefold (strip s) ∈ codes <$> ["true"; "1"; "yes"])
  | _ => false
  end.
(** [_as_bool(raw.get(k))]. *)
Definition bool_at (k : string) (raw : pydict) : bool :=
  match dict_get k raw with Some v => as_bool v | None => false end.
(** [k in raw]. *)
Definition has_key (k : string) (raw : pydict) : bool := bool_decide (is_Some (dict_get k raw)).

Record RuleOfTwoOutcome := {
  fired : bool;
  untrusted_input : bool;
  sensitive_access : bool;
  state_change : bool;
  human_oversight : bool;
  r2_reason : string
}.
Definition NEUTRAL_RULE_OF_TWO : RuleOfTwoOutcome := {|
  fired := false; untrusted_input := false; sensitive_access := false; state_change := false;
  human_oversight := false; r2_reason := "" |}.

Definition TRIFECTA_REASON : string :=
  "Rule-of-Two trifecta proven: this flow simultaneously (A) ingests untrusted input, (B) accesses sensitive data, and (C) changes state or communicates externally, with no reliable human oversight. Per Meta's Agents Rule of Two, an autonomous agent must hold at most two of these three "
  +:+ emdash +:+ " all three is the lethal-trifecta exfiltration surface. Structural FORBID.".
Definition OVERSIGHT_REASON : string :=
  "Rule-of-Two trifecta present but declared under reliable human oversight " +:+ emdash
  +:+ " not autonomous, so not forbidden by this contract.".

Section Classify.
Context (str_container : pyval -> string).

Definition label (k : string) (entry : pydict) : list N :=
  upper (strip (match dict_get k entry with Some v => py_str_of str_container v | None => "" end)).

Definition is_untrusted_source (entry : pydict) : bool :=
  match find_member level_name [TRUSTED; USER; UNTRUSTED] (label "level" entry) with
  | Some l => bool_decide (l = UNTRUSTED)
  | None => false
  end.
Definition is_sensitive_source (entry : pydict) : bool :=
  match find_member conf_name [PUBLIC; INTERNAL; CONFIDENTIAL; RESTRICTED]
          (label "confidentiality" entry) with
  | Some c => is_sensitive c
  | None => false
  end.

(** The sources of a block; entries that are not mappings are skipped. *)
Definition sources (raw : pydict) : list pydict :=
  match dict_get "capabilities" raw with
  | Some (PList caps) => omap (fun v => match v with PDict e => Some e | _ => None end) caps
  | _ => []
  end.
Definition derive_from_capabilities (raw : pydict) : bool * bool :=
  (existsb is_untrusted_source (sources raw), existsb is_sensitive_source (sources raw)).

Definition derive_state_change (raw : pydict) : bool :=
  match mapping_at "action" raw with
  | Some action =>
      existsb (fun k => bool_at k action) ["state_change"; "external"; "irreversible"; "egress"]
  | None => false
  end.

Definition classify_rule_of_two (raw : pydict) : RuleOfTwoOutcome :=
  let '(untrusted, sensitive) :=
    if has_key "untrusted_input" raw || has_key "sensitive_access" raw
    then (bool_at "untrusted_input" raw, bool_at "sensitive_access" raw)
    else derive_from_capabilities raw in
  let state_change :=
    if has_key "state_change" raw then bool_at "state_change" raw else derive_state_change raw in
  let oversight := bool_at "human_oversight" raw in
  let trifecta := untrusted && sensitive && state_change in
  let fired := trifecta && negb oversight in
  {| fired := fired; untrusted_input := untrusted; sensitive_access := sensitive;
     state_change := state_change; human_oversight := oversight;
     r2_reason := if fired then TRIFECTA_REASON
                  else if trifecta && oversight then OVERSIGHT_REASON else "" |}.

Definition evaluate_rule_of_two (r : EvaluationRequest) : RuleOfTwoOutcome :=
  match mapping_at "rule_of_two" (metadata r) with
  | Some raw => classify_rule_of_two raw
  | None => NEUTRAL_RULE_OF_TWO
  end.

(** ** What the contract decides *)

(** The contract fires exactly on an unsupervised trifecta. *)
Lemma rule_of_two_fires raw :
  let o := classify_rule_of_two raw in
  fired o = untrusted_input o && sensitive_access o && state_change o && negb (human_oversight o).
Proof.
  unfold classify_rule_of_two, derive_from_capabilities.
  by destruct (has_key "untrusted_input" raw || has_key "sensitive_access" raw).
Qed.

(** One declared bucket switches the derivation from the labelled sources off:
    a block that declares [untrusted_input] and leaves [sensitive_access] out
    never fires, whatever its sources are. *)
Lemma declared_bucket_hides_sources raw :
  has_key "untrusted_input" raw = true -> has_key "sensitive_access" raw = false ->
  fired (classify_rule_of_two raw) = false.
Proof.
  intros Hu Hs. unfold classify_rule_of_two. rewrite Hu. simpl.
  assert (bool_at "sensitive_access" raw = false) as ->.
  { unfold bool_at, has_key in *. destruct (dict_get "sensitive_access" raw); [|done].
    apply bool_decide_eq_false in Hs. by destruct Hs. }
  by rewrite andb_false_r.
Qed.

End Classify.
End RuleOfTwo.
