(* ===== verification/Cadence.v ===== *)
(** * The action-cadence circuit breaker

    [tex/deterministic/cadence.py]: the settings, the sliding windows keyed by
    tenant and agent, the memo of assessments by request id, and the soft hold.
    The tracker's lock makes [assess] atomic; the model passes its state. *)
From stdpp Require Import pretty.
From S2P Require Import Prelude PyStr PyFloat PyVal RouterDomain Router PyFormat PdpDomain.
Import RouterDomain Router PdpDomain.
Open Scope string_scope.
Open Scope list_scope.
Open Scope Z_scope.

Module Cadence.

Inductive CadenceLevel := CLEAR | SOFT | HARD.
#[global] Instance CadenceLevel_eq : EqDecision CadenceLevel.
Proof. solve_decision. Defined.
Definition level_value (l : CadenceLevel) : string :=
  match l with CLEAR => "clear" | SOFT => "soft" | HARD => "hard" end.

(** ** Settings.  The three memory caps are not negative. *)
Record CadenceConfig := {
  enabled : bool;
  window_seconds : float;
  soft_actions : Z;
  hard_actions : Z;
  soft_fanout : Z;
  hard_fanout : Z;
  max_window_entries : nat;
  max_tracked_keys : nat;
  max_memo_entries : nat
}.
Definition DEFAULT_CONFIG : CadenceConfig := {|
  enabled := true; window_seconds := dec 10 0; soft_actions := 8; hard_actions := 20;
  soft_fanout := 6; hard_fanout := 15; max_window_entries := Z.to_nat 1024;
  max_tracked_keys := Z.to_nat 8192; max_memo_entries := Z.to_nat 4096 |}.

(** The environment, as its [get]. *)
Definition env_bool (env : string -> option string) (name : string) (default : bool) : bool :=
  match env name with
  | None => default
  | Some raw => bool_decide (casefold (strip raw) ∈ codes <$> ["1"; "true"; "yes"; "on"])
  end.
Definition env_int (env : string -> option string) (name : string) (default : Z) : Z :=
  match env name with
  | None => default
  | Some raw =>
      match int_of_string raw with
      | None => default
      | Some value => if 0 <? value then value else default
      end
  end.
Definition env_float (env : string -> option string) (name : string) (default : float) : float :=
  match env name with
  | None => default
  | Some raw =>
      match float_of_string raw with
      | None => default
      | Some value => if fltb f_zero value then value else default
      end
  end.

Definition from_env (e : string -> option string) : CadenceConfig :=
  let d := DEFAULT_CONFIG in
  let soft_a := env_int e "TEX_CADENCE_SOFT_ACTIONS" (soft_actions d) in
  let hard_a := env_int e "TEX_CADENCE_HARD_ACTIONS" (hard_actions d) in
  let soft_f := env_int e "TEX_CADENCE_SOFT_FANOUT" (soft_fanout d) in
  let hard_f := env_int e "TEX_CADENCE_HARD_FANOUT" (hard_fanout d) in
  {| enabled := env_bool e "TEX_CADENCE_ENABLED" (enabled d);
     window_seconds := env_float e "TEX_CADENCE_WINDOW_SECONDS" (window_seconds d);
     soft_actions := soft_a; hard_actions := Z.max hard_a soft_a;
     soft_fanout := soft_f; hard_fanout := Z.max hard_f soft_f;
     max_window_entries := max_window_entries d; max_tracked_keys := max_tracked_keys d;
     max_memo_entries := max_memo_entries d |}.

Definition classify (c : CadenceConfig) (action_count distinct_targets : Z) : CadenceLevel :=
  if (hard_actions c <=? action_count) || (hard_fanout c <=? distinct_targets) then HARD
  else if (soft_actions c <=? action_count) || (soft_fanout c <=? distinct_targets) then SOFT
  else CLEAR.

(** ** Assessments *)
Record CadenceAssessment := {
  level : CadenceLevel;
  tracked : bool;
  key : string;
  action_count : nat;
  distinct_targets : nat;
  a_config : CadenceConfig;
  reason : string;
  counterfactual : string
}.
Definition fired (a : CadenceAssessment) : bool := negb (bool_decide (level a = CLEAR)).

Definition n_str (n : nat) : string := pretty (N.of_nat n).

Definition assessment_metadata (a : CadenceAssessment) : pydict :=
  let c := a_config a in
  [("cadence_level", PStr (level_value (level a))); ("agent_key", PStr (key a));
   ("action_count", PInt (Z.of_nat (action_count a)));
   ("distinct_targets", PInt (Z.of_nat (distinct_targets a)));
   ("window_seconds", PFloat (window_seconds c)); ("soft_actions", PInt (soft_actions c));
   ("hard_actions", PInt (hard_actions c)); ("soft_fanout", PInt (soft_fanout c));
   ("hard_fanout", PInt (hard_fanout c)); ("counterfactual", PStr (counterfactual a));
   ("tier", PStr "action_cadence")].

Definition untracked_assessment (c : CadenceConfig) : CadenceAssessment := {|
  level := CLEAR; tracked := false; key := ""; action_count := 0; distinct_targets := 0;
  a_config := c; reason := ""; counterfactual := "" |}.

Definition build_reason (c : CadenceConfig) (k : string) (l : CadenceLevel) (n t : nat) : string :=
  let '(band, effect) :=
    match l with
    | HARD => ("hard threshold (>= " +:+ z_str (hard_actions c) +:+ " actions or >= "
               +:+ z_str (hard_fanout c) +:+ " distinct targets)", "structural FORBID")
    | _ => ("soft budget (>= " +:+ z_str (soft_actions c) +:+ " actions or >= "
            +:+ z_str (soft_fanout c) +:+ " distinct targets)", "held for review (PERMIT->ABSTAIN)")
    end in
  "Action-cadence circuit-breaker: agent '" +:+ k +:+ "' issued " +:+ n_str n
  +:+ " action(s) across " +:+ n_str t +:+ " distinct target(s) within the last "
  +:+ fmt_g (window_seconds c) +:+ "s window, crossing the " +:+ band +:+ " " +:+ emdash +:+ " "
  +:+ effect
  +:+ ". Machine-speed action cadence is a deterministic, paraphrase-proof signal of autonomous-attack fan-out (Anthropic Nov-2025 disclosure).".
Definition build_counterfactual (c : CadenceConfig) : string :=
  "Had this agent stayed within the soft budget (< " +:+ z_str (soft_actions c) +:+ " actions and < "
  +:+ z_str (soft_fanout c) +:+ " distinct targets per " +:+ fmt_g (window_seconds c)
  +:+ "s), no cadence hold would have fired.".

Definition build_assessment (c : CadenceConfig) (k : string) (l : CadenceLevel) (n t : nat)
    : CadenceAssessment := {|
  level := l; tracked := true; key := k; action_count := n; distinct_targets := t; a_config := c;
  reason := if bool_decide (l = CLEAR) then "" else build_reason c k l n t;
  counterfactual := if bool_decide (l = CLEAR) then "" else build_counterfactual c |}.

(** ** Reading the request *)
Definition nonempty (o : option string) : option string :=
  match o with Some "" => None | _ => o end.

Definition derive_key (r : EvaluationRequest) : option string :=
  let '(tenant, part) :=
    match agent_identity r with
    | None => ("default", None)
    | Some i =>
        (default "default" (nonempty (Some (tenant_id i))),
         match rt_agent_id i, nonempty (external_agent_id i), nonempty (agent_name i) with
         | Some a, _, _ => Some ("aid:" +:+ a)
         | None, Some e, _ => Some ("ext:" +:+ e)
         | None, None, Some n => Some ("name:" +:+ n)
         | None, None, None => None
         end)
    end in
  let part := match part with
              | Some p => Some p
              | None => (fun a => "aid:" +:+ a) <$> req_agent_id r
              end in
  (fun p => tenant +:+ "|" +:+ p) <$> part.

(** Targets are compared casefolded, hence sets of code-point lists. *)
Definition target (prefix : string) (s : string) : gset (list N) :=
  if String.eqb (strip s) "" then ∅ else {[ codes prefix ++ casefold (strip s) ]}.
Definition target_of_value (v : pyval) : gset (list N) :=
  match v with PStr s => target "target:" s | _ => ∅ end.

Definition derive_targets (r : EvaluationRequest) : gset (list N) :=
  from_option (target "recipient:") ∅ (recipient r)
  ∪ match agent_identity r with
    | Some i => ⋃ (target "tool:" <$> tools i) ∪ ⋃ (target "mcp:" <$> mcp_server_ids i)
    | None => ∅
    end
  ∪ match dict_get "cadence_targets" (metadata r) with
    | Some (PList l) => ⋃ (target_of_value <$> l)
    | _ => ∅
    end.

(** ** The tracker *)
Record WindowEntry := { ts : float; e_request_id : string; targets : gset (list N) }.

(** [OrderedDict]s, least recently used first. *)
Record tracker := {
  config : CadenceConfig;
  windows : list (string * list WindowEntry);
  memo : list (string * CadenceAssessment)
}.
Definition new_tracker (c : CadenceConfig) : tracker := {| config := c; windows := []; memo := [] |}.

Fixpoint od_get {A} (k : string) (d : list (string * A)) : option A :=
  match d with
  | [] => None
  | (k', v) :: d => if String.eqb k k' then Some v else od_get k d
  end.
(** [d[k] = v; d.move_to_end(k)]. *)
Definition od_put {A} (k : string) (v : A) (d : list (string * A)) : list (string * A) :=
  List.filter (fun kv => negb (String.eqb k kv.1)) d ++ [(k, v)].
(** [while len(d) > n: d.popitem(last=False)], and the same on a deque. *)
Definition keep_last {A} (n : nat) (l : list A) : list A := drop (length l - n) l.

(** [while window and window[0].ts <= horizon: window.popleft()]. *)
Fixpoint prune (horizon : float) (w : list WindowEntry) : list WindowEntry :=
  match w with
  | [] => []
  | e :: w' => if fleb (ts e) horizon then prune horizon w' else w
  end.

Definition horizon (c : CadenceConfig) (r : EvaluationRequest) : float :=
  fsub (timestamp r) (window_seconds c).
Definition entry_of (r : EvaluationRequest) : WindowEntry :=
  {| ts := timestamp r; e_request_id := request_id r; targets := derive_targets r |}.

(** The window after this request was observed. *)
Definition observe (c : CadenceConfig) (r : EvaluationRequest) (w : list WindowEntry)
    : list WindowEntry :=
  let w := prune (horizon c r) w in
  if existsb (fun e => String.eqb (e_request_id e) (request_id r)) w then w
  else keep_last (max_window_entries c) (w ++ [entry_of r]).

Definition assess (r : EvaluationRequest) (t : tracker) : CadenceAssessment * tracker :=
  let c := config t in
  if negb (enabled c) then (untracked_assessment c, t)
  else
    match derive_key r with
    | None => (untracked_assessment c, t)
    | Some k =>
        match (if String.eqb (request_id r) "" then None else od_get (request_id r) (memo t)) with
        | Some a => (a, {| config := c; windows := windows t; memo := od_put (request_id r) a (memo t) |})
        | None =>
            let w := observe c r (default [] (od_get k (windows t))) in
            let n := length w in
            let distinct := size (⋃ (targets <$> w)) in
            let a := build_assessment c k (classify c (Z.of_nat n) (Z.of_nat distinct)) n distinct in
            (a, {| config := c;
                   windows := keep_last (max_tracked_keys c) (od_put k w (windows t));
                   memo := if String.eqb (request_id r) "" then memo t
                           else keep_last (max_memo_entries c) (od_put (request_id r) a (memo t)) |})
        end
    end.

(** ** The soft hold *)
Definition CADENCE_HOLD_FLAG : string := "action_cadence_soft_budget_exceeded".

Definition apply_cadence_hold {A} (base : RoutingResult A) (r : EvaluationRequest) (t : tracker)
    : result exn (RoutingResult A) * tracker :=
  if negb (bool_decide (verdict base = PERMIT)) then (Ok base, t)
  else
    let '(a, t) := assess r t in
    if negb (fired a) then (Ok base, t)
    else
      let soft := bool_decide (level a = SOFT) in
      (f ← new_finding "deterministic.action_cadence"
             (if soft then "action_cadence_soft_hold" else "action_cadence_hard_hold")
             (if soft then WARNING else CRITICAL) (reason a) (assessment_metadata a);
       rebuild base ABSTAIN
         (reasons base ++ [reason a; "Counterfactual: " +:+ counterfactual a])
         (uncertainty_flags base ++ [CADENCE_HOLD_FLAG])
         (r_findings base ++ [f])
         (dict_set "action_cadence" (if bool_decide (level a = HARD) then f_one else dec 5 1)
            (scores base)), t).

End Cadence.
