(* ===== verification/CadenceSpec.v ===== *)
(** * The circuit breaker: theorems

    The state stays within its caps, a request is counted once however often
    it is assessed, and the windows hold exactly the recent actions. *)
From Stdlib Require Import Sorted.
From S2P Require Import Prelude PyStr PyFloat PyVal RouterDomain Router PyFormat PdpDomain Cadence.
Import RouterDomain Router PdpDomain Cadence.
Open Scope string_scope.
Open Scope list_scope.
Open Scope nat_scope.

Module CadenceSpec.

(** ** Ordered dictionaries *)
Lemma od_get_In {A} k (d : list (string * A)) v : od_get k d = Some v -> (k, v) ∈ d.
Proof.
  induction d as [|[k' v'] d IH]; simpl; [done|]. destruct (String.eqb_spec k k') as [-> |].
  - intros [= ->]. left.
  - intros H. right. by apply IH.
Qed.
Lemma od_get_None {A} k (d : list (string * A)) : od_get k d = None <-> k ∉ d.*1.
Proof.
  induction d as [|[k' v'] d IH]; simpl; [set_solver|].
  destruct (String.eqb_spec k k') as [-> |Hne]; [set_solver|]. rewrite IH. set_solver.
Qed.
Lemma od_get_app {A} k (d e : list (string * A)) :
  od_get k (d ++ e) = match od_get k d with Some v => Some v | None => od_get k e end.
Proof. induction d as [|[k' v'] d IH]; simpl; [done|]. by destruct (String.eqb k k'). Qed.

Abbreviation without k d := (List.filter (fun kv => negb (String.eqb k kv.1)) d).

Lemma without_get {A} k k' (d : list (string * A)) :
  od_get k' (without k d) = if String.eqb k k' then None else od_get k' d.
Proof.
  induction d as [|[k0 v0] d IH]; simpl; [by destruct (String.eqb k k')|].
  destruct (String.eqb_spec k k0) as [-> |Hne]; simpl.
  - rewrite IH. destruct (String.eqb_spec k0 k'); [done|].
    destruct (String.eqb_spec k' k0); [congruence|done].
  - rewrite IH. destruct (String.eqb_spec k' k0) as [-> |]; [|done].
    by destruct (String.eqb_spec k k0).
Qed.
Lemma without_fst {A} k (d : list (string * A)) x : x ∈ (without k d).*1 <-> x ∈ d.*1 /\ x <> k.
Proof.
  induction d as [|[k0 v0] d IH]; simpl; [set_solver|].
  destruct (String.eqb_spec k k0) as [-> |Hne]; simpl; rewrite ?elem_of_cons, IH; set_solver.
Qed.
Lemma without_NoDup {A} k (d : list (string * A)) : NoDup d.*1 -> NoDup (without k d).*1.
Proof.
  induction d as [|[k0 v0] d IH]; simpl; [done|]. rewrite list.NoDup_cons. intros [Hn Hd].
  destruct (String.eqb_spec k k0); simpl; [by apply IH|]. constructor; [|by apply IH].
  rewrite without_fst. naive_solver.
Qed.
Lemma without_id {A} k (d : list (string * A)) : k ∉ d.*1 -> without k d = d.
Proof.
  induction d as [|[k0 v0] d IH]; simpl; [done|]. rewrite not_elem_of_cons. intros [Hne Hd].
  destruct (String.eqb_spec k k0); [done|]. simpl. by rewrite IH.
Qed.
Lemma without_app {A} k (d e : list (string * A)) : without k (d ++ e) = without k d ++ without k e.
Proof. induction d as [|[k0 v0] d IH]; simpl; [done|]. destruct (String.eqb k k0); simpl; by rewrite IH. Qed.
Lemma without_length {A} k (d : list (string * A)) : length (without k d) <= length d.
Proof. induction d as [|[k0 v0] d IH]; simpl; [done|]. destruct (String.eqb k k0); simpl; lia. Qed.

Lemma od_put_NoDup {A} k (v : A) d : NoDup d.*1 -> NoDup (od_put k v d).*1.
Proof.
  intros Hd. unfold od_put. rewrite fmap_app. apply list.NoDup_app.
  split; [by apply without_NoDup|]. split; [|apply NoDup_singleton].
  intros x Hx. rewrite without_fst in Hx. simpl. set_solver.
Qed.
Lemma od_put_get {A} k k' (v : A) d :
  od_get k' (od_put k v d) = if String.eqb k k' then Some v else od_get k' d.
Proof.
  unfold od_put. rewrite od_get_app, without_get. simpl.
  destruct (String.eqb_spec k k') as [-> |Hne]; [by rewrite String.eqb_refl|].
  destruct (od_get k' d); [done|]. by destruct (String.eqb_spec k' k).
Qed.

Lemma keep_last_length {A} n (l : list A) : length (keep_last n l) <= n.
Proof. unfold keep_last. rewrite length_drop. lia. Qed.
Lemma keep_last_id {A} n (l : list A) : length l <= n -> keep_last n l = l.
Proof. intros H. unfold keep_last. by replace (length l - n) with 0 by lia. Qed.
Lemma keep_last_sub {A} n (l : list A) : sublist (keep_last n l) l.
Proof. apply sublist_drop. Qed.
Lemma keep_last_NoDup {A} n (l : list (string * A)) : NoDup l.*1 -> NoDup (keep_last n l).*1.
Proof. intros H. unfold keep_last. rewrite fmap_drop. by eapply sublist_NoDup, sublist_drop. Qed.

(** ** The state stays within its caps *)
Definition window_ok (c : CadenceConfig) (w : list WindowEntry) : Prop :=
  length w <= max_window_entries c /\ NoDup (e_request_id <$> w).

Record tracker_ok (t : tracker) : Prop := {
  keys_distinct : NoDup (windows t).*1;
  keys_bounded : length (windows t) <= max_tracked_keys (config t);
  windows_ok : Forall (fun kw => window_ok (config t) kw.2) (windows t);
  memo_distinct : NoDup (memo t).*1;
  memo_bounded : length (memo t) <= max_memo_entries (config t)
}.

Lemma prune_drop h w : exists k, prune h w = drop k w.
Proof.
  induction w as [|e w [k IH]]; simpl; [by exists 0|].
  destruct (fleb (ts e) h); [by exists (S k)|by exists 0].
Qed.

Lemma observe_ok c r w : window_ok c w -> window_ok c (observe c r w).
Proof.
  intros [Hl Hn]. unfold observe. destruct (prune_drop (horizon c r) w) as [k ->].
  set (p := drop k w).
  assert (NoDup (e_request_id <$> p)) as Hp.
  { unfold p. rewrite fmap_drop. eapply sublist_NoDup; [apply Hn|apply sublist_drop]. }
  destruct (existsb _ p) eqn:E.
  - split; [|done]. unfold p. rewrite length_drop. lia.
  - split; [apply keep_last_length|]. unfold keep_last. rewrite fmap_drop.
    eapply sublist_NoDup; [|apply sublist_drop].
    rewrite fmap_app. apply list.NoDup_app. split; [done|]. split; [|apply NoDup_singleton].
    intros x Hx Hin. simpl in Hin. apply list_elem_of_singleton in Hin as ->.
    apply list_elem_of_fmap in Hx as (e & He & Hin). apply not_true_iff_false in E. apply E.
    rewrite existsb_exists. exists e. rewrite <- list_elem_of_In. split; [done|].
    apply String.eqb_eq. by rewrite <- He.
Qed.

Lemma assess_config r t : config (assess r t).2 = config t.
Proof. unfold assess. repeat case_match; done. Qed.

Lemma assess_ok r t : tracker_ok t -> tracker_ok (assess r t).2.
Proof.
  intros [Hk Hkb Hw Hm Hmb]. unfold assess.
  destruct (negb (enabled (config t))); [done|].
  destruct (derive_key r) as [k|]; [|done].
  destruct (if String.eqb (request_id r) "" then None else od_get (request_id r) (memo t)) as [a|] eqn:E;
    constructor; simpl; try done.
  - by apply od_put_NoDup.
  - destruct (String.eqb (request_id r) ""); [done|]. apply od_get_In in E. unfold od_put. rewrite length_app. simpl.
    assert (length (without (request_id r) (memo t)) < length (memo t)); [|lia].
    clear -E. induction (memo t) as [|[k' v'] d IH]; [set_solver|]. simpl.
    destruct (String.eqb_spec (request_id r) k') as [-> |Hne]; simpl.
    + pose proof (without_length k' d). lia.
    + apply elem_of_cons in E as [[= <- <-]|E]; [done|]. specialize (IH E). lia.
  - by apply keep_last_NoDup, od_put_NoDup.
  - apply keep_last_length.
  - unfold keep_last. apply Forall_drop. unfold od_put. apply Forall_app. split.
    + apply list.Forall_forall. intros x Hx. rewrite list_elem_of_In, filter_In in Hx.
      rewrite list.Forall_forall in Hw. apply Hw, list_elem_of_In. naive_solver.
    + constructor; [|constructor]. simpl. apply observe_ok.
      destruct (od_get k (windows t)) as [w|] eqn:Ew; simpl.
      * apply od_get_In in Ew. rewrite list.Forall_forall in Hw. apply (Hw (k, w)), Ew.
      * split; simpl; [lia|constructor].
  - destruct (String.eqb (request_id r) ""); [done|]. by apply keep_last_NoDup, od_put_NoDup.
  - destruct (String.eqb (request_id r) ""); [done|]. apply keep_last_length.
Qed.

(** The tracker after a stream of requests. *)
Definition run (c : CadenceConfig) (rs : list EvaluationRequest) : tracker :=
  foldl (fun t r => (assess r t).2) (new_tracker c) rs.

Lemma run_snoc c rs r : run c (rs ++ [r]) = (assess r (run c rs)).2.
Proof. unfold run. by rewrite foldl_app. Qed.
Lemma run_config c rs : config (run c rs) = c.
Proof. induction rs as [|r rs IH] using rev_ind; [done|]. by rewrite run_snoc, assess_config. Qed.

Lemma run_ok c rs : tracker_ok (run c rs).
Proof.
  induction rs as [|r rs IH] using rev_ind.
  - constructor; simpl; try constructor; lia.
  - rewrite run_snoc. by apply assess_ok.
Qed.

(** The circuit breaker's memory is bounded whatever requests arrive: never
    more keys, entries per window or memoised assessments than the caps, no key
    twice, and no request counted twice in a window. *)
Theorem tracker_bounded c rs : tracker_ok (run c rs).
Proof. apply run_ok. Qed.

(** ** A request is assessed once

    [recent n id a t]: the memo holds [a] for [id], with at most [n] entries
    used more recently. *)
Definition recent (n : nat) (id : string) (a : CadenceAssessment) (t : tracker) : Prop :=
  exists pre post, memo t = pre ++ (id, a) :: post /\ length post <= n /\ id ∉ pre.*1.

Lemma recent_get n id a t : recent n id a t -> od_get id (memo t) = Some a.
Proof.
  intros (pre & post & -> & _ & Hn). rewrite od_get_app.
  apply od_get_None in Hn as ->. simpl. by rewrite String.eqb_refl.
Qed.

Lemma keep_last_app {A} n (pre post : list A) :
  length post <= n -> exists pre', keep_last n (pre ++ post) = pre' ++ post /\ sublist pre' pre.
Proof.
  intros H. unfold keep_last. exists (drop (length (pre ++ post) - n) pre). rewrite length_app.
  split; [|apply sublist_drop]. rewrite drop_app_le by lia. done.
Qed.

(** One more request moves an entry of the memo at most one place. *)
Lemma recent_step n id a r t :
  S n < max_memo_entries (config t) -> id <> "" -> recent n id a t -> recent (S n) id a (assess r t).2.
Proof.
  intros Hcap Hid HR. pose proof (recent_get _ _ _ _ HR) as Hget.
  destruct HR as (pre & post & Em & Hlen & Hpre). unfold assess.
  assert (recent (S n) id a t) as Hsame by (exists pre, post; auto with lia).
  destruct (negb (enabled (config t))); [done|].
  destruct (derive_key r) as [k|]; [|done].
  destruct (String.eqb_spec (request_id r) id) as [Eid|Hne].
  { rewrite Eid. destruct (String.eqb_spec id ""); [done|]. rewrite Hget. simpl.
    exists (without id (memo t)), []. split; [done|]. split; [simpl; lia|].
    rewrite without_fst. naive_solver. }
  assert (forall b, exists pre' post', od_put (request_id r) b (memo t) = pre' ++ (id, a) :: post'
            /\ length post' <= S n /\ id ∉ pre'.*1) as Hput.
  { intros b. exists (without (request_id r) pre), (without (request_id r) post ++ [(request_id r, b)]).
    unfold od_put. rewrite Em, without_app. simpl.
    destruct (String.eqb_spec (request_id r) id); [done|]. simpl. rewrite <- app_assoc. simpl.
    split; [done|]. rewrite length_app. pose proof (without_length (request_id r) post).
    simpl. split; [lia|]. rewrite without_fst. naive_solver. }
  destruct (if String.eqb (request_id r) "" then None else od_get (request_id r) (memo t)) as [b|];
    simpl; [apply Hput|].
  unfold recent. simpl. destruct (String.eqb (request_id r) ""); [apply Hsame|].
  edestruct Hput as (pre' & post' & Ep & Hl & Hn). rewrite Ep.
  destruct (keep_last_app (max_memo_entries (config t)) pre' ((id, a) :: post')) as (pre2 & -> & Hs);
    [simpl; lia|].
  exists pre2, post'. split; [done|]. split; [done|].
  intros Hin. apply Hn. apply list_elem_of_fmap in Hin as (x & -> & Hx).
  apply list_elem_of_fmap_2. by eapply elem_of_sublist.
Qed.

Definition assess_all (rs : list EvaluationRequest) (t : tracker) : tracker :=
  foldl (fun t r => (assess r t).2) t rs.

Lemma recent_steps rs n id a t :
  n + length rs < max_memo_entries (config t) -> id <> "" -> recent n id a t ->
  recent (n + length rs) id a (assess_all rs t).
Proof.
  revert n t. induction rs as [|r rs IH]; intros n t Hcap Hid HR; simpl in *.
  - by rewrite Nat.add_0_r.
  - replace (n + S (length rs)) with (S n + length rs) by lia. apply IH; [|done|].
    + rewrite assess_config. lia.
    + apply recent_step; [lia|done..].
Qed.

Lemma assess_recent r t :
  enabled (config t) = true -> is_Some (derive_key r) -> request_id r <> "" ->
  0 < max_memo_entries (config t) -> NoDup (memo t).*1 ->
  recent 0 (request_id r) (assess r t).1 (assess r t).2.
Proof.
  intros He [k Hk] Hid Hm Hnd. unfold assess. rewrite He, Hk. simpl.
  destruct (String.eqb_spec (request_id r) ""); [done|].
  destruct (od_get (request_id r) (memo t)) as [a|]; simpl.
  - exists (without (request_id r) (memo t)), []. split; [done|]. split; [done|].
    rewrite without_fst. naive_solver.
  - unfold recent, od_put. simpl.
    match goal with |- context [keep_last _ (_ ++ ?p)] =>
      destruct (keep_last_app (max_memo_entries (config t)) (without (request_id r) (memo t)) p)
        as (pre & -> & Hs); [simpl; lia|] end.
    exists pre, []. split; [done|]. split; [done|].
    intros Hin. apply list_elem_of_fmap in Hin as (x & Hx & Hin).
    assert (x.1 ∈ (without (request_id r) (memo t)).*1) as H2
      by (apply list_elem_of_fmap_2; by eapply elem_of_sublist).
    rewrite without_fst in H2. naive_solver.
Qed.

(** Within one evaluation the recognizer, the floor and the hold see the same
    assessment, and the action is counted once: assessing a request again, after
    fewer other requests than the memo holds, gives the same assessment and leaves
    the windows as they are. *)
Theorem assess_once c past r others :
  let t := run c past in
  let '(a, t1) := assess r t in
  let t2 := assess_all others t1 in
  enabled c = true -> is_Some (derive_key r) -> request_id r <> "" ->
  length others < max_memo_entries c ->
  (assess r t2).1 = a /\ windows (assess r t2).2 = windows t2.
Proof.
  simpl. destruct (assess r (run c past)) as [a t1] eqn:E. intros He Hk Hid Hl.
  pose proof (run_config c past) as Hc.
  pose proof (assess_recent r (run c past)) as HR. rewrite Hc, E in HR. simpl in HR.
  assert (config t1 = c) as Hc1 by (change t1 with (a, t1).2; by rewrite <- E, assess_config).
  assert (recent (0 + length others) (request_id r) a (assess_all others t1)) as HR2.
  { apply recent_steps; [rewrite Hc1; simpl; lia|done|]. apply HR; try done; [lia|].
    apply run_ok. }
  apply recent_get in HR2.
  assert (config (assess_all others t1) = c) as Hc2.
  { clear HR2. unfold assess_all. revert Hc1. generalize t1. induction others as [|q qs IH]; simpl; [done|].
    intros t' Ht'. simpl in Hl. apply IH; [lia|]. by rewrite assess_config. }
  unfold assess. rewrite Hc2, He. simpl. destruct Hk as [k ->].
  destruct (String.eqb_spec (request_id r) ""); [done|]. by rewrite HR2.
Qed.

(** ** Settings *)
Lemma env_int_pos e n d : (0 < d)%Z -> (0 < env_int e n d)%Z.
Proof.
  intros Hd. unfold env_int. destruct (e n); [|done]. destruct (int_of_string _); [|done].
  destruct (Z.ltb_spec 0 z); lia.
Qed.

(** Whatever the environment holds, the settings read from it are usable: a
    positive window, positive budgets, and hard thresholds at or above the soft
    ones, so that the breaker never forbids a cadence it would not already hold. *)
Theorem from_env_sane e :
  let c := from_env e in
  fltb f_zero (window_seconds c) = true
  /\ (1 <= soft_actions c <= hard_actions c)%Z /\ (1 <= soft_fanout c <= hard_fanout c)%Z
  /\ (forall n t, classify c n t = HARD -> soft_actions c <= n \/ soft_fanout c <= t)%Z.
Proof.
  intros c. subst c.
  pose proof (env_int_pos e "TEX_CADENCE_SOFT_ACTIONS" 8). pose proof (env_int_pos e "TEX_CADENCE_SOFT_FANOUT" 6).
  assert (fltb f_zero (window_seconds (from_env e)) = true) as Hw.
  { simpl. unfold env_float. destruct (e "TEX_CADENCE_WINDOW_SECONDS") as [raw|]; [|by vm_compute].
    destruct (float_of_string raw) as [x|]; [|by vm_compute].
    destruct (fltb f_zero x) eqn:E; [done|by vm_compute]. }
  split; [done|]. unfold classify. simpl in *. split_and!; try lia.
  intros n t. destruct (Z.leb_spec (Z.max (env_int e "TEX_CADENCE_HARD_ACTIONS" 20)
                                     (env_int e "TEX_CADENCE_SOFT_ACTIONS" 8)) n);
  destruct (Z.leb_spec (Z.max (env_int e "TEX_CADENCE_HARD_FANOUT" 15)
                          (env_int e "TEX_CADENCE_SOFT_FANOUT" 6)) t); simpl; try lia.
  repeat case_match; done.
Qed.

(** ** The soft hold lowers or leaves the result *)
Lemma cadence_hold_lowers {A} (base out : RoutingResult A) r t t' :
  apply_cadence_hold base r t = (Ok out, t') ->
  out = base \/ demoted_with CADENCE_HOLD_FLAG base out /\ fired (assess r t).1 = true.
Proof.
  unfold apply_cadence_hold. destruct (bool_decide_reflect (verdict base = PERMIT)) as [Hv|]; simpl.
  2: { intros [= ->]. by left. }
  destruct (assess r t) as [a t1]. simpl. destruct (fired a) eqn:Ef; simpl; [|intros [= ->]; by left].
  intros H. injection H as H _. inv_bind. right. split; [|done].
  eapply rebuild_demotes; [done| |done]. set_solver.
Qed.

(** A PERMIT that passes the hold was assessed and found clear. *)
Lemma cadence_hold_permit {A} (base out : RoutingResult A) r t t' :
  apply_cadence_hold base r t = (Ok out, t') -> verdict out = PERMIT -> fired (assess r t).1 = false.
Proof.
  intros H Hv. destruct (cadence_hold_lowers _ _ _ _ _ H) as [->|[Hd _]]; [|rewrite (dem_to _ _ _ Hd) in Hv; done].
  unfold apply_cadence_hold in H. rewrite (bool_decide_eq_true_2 _ Hv) in H. cbn [negb] in H.
  destruct (assess r t) as [a t1]. cbn [fst]. destruct (fired a); [|done]. cbn [negb] in H. injection H as H _. inv_bind.
  apply rebuild_fields in H as (Hr & _). congruence.
Qed.

(** It leaves anything but a PERMIT alone, and does not even look at the request. *)
Lemma cadence_hold_guard {A} (base : RoutingResult A) r t :
  verdict base <> PERMIT -> apply_cadence_hold base r t = (Ok base, t).
Proof. intros Hv. unfold apply_cadence_hold. by rewrite bool_decide_eq_false_2. Qed.

(** A request that advances the clock past the window meets an empty window. *)
Lemma stale_window_resets c r w :
  Forall (fun e => fleb (ts e) (horizon c r) = true) w ->
  observe c r w = keep_last (max_window_entries c) [entry_of r].
Proof.
  intros Hw. unfold observe. assert (prune (horizon c r) w = []) as ->; [|done].
  induction Hw as [|e w He Hw IH]; simpl; [done|]. by rewrite He.
Qed.
End CadenceSpec.
