(* ===== verification/CadenceWindow.v ===== *)
(** * The circuit breaker: what a window holds

    For a stream of distinct requests with timestamps in order, below the caps,
    the assessment counts exactly the actions of the same agent whose timestamp
    lies after the horizon: the sliding windows refine a filter on the history. *)
From stdpp Require Import sorting.
From S2P Require Import Prelude PyStr PyFloat PyVal RouterDomain Router PyFormat PdpDomain Cadence CadenceSpec.
Import RouterDomain Router PdpDomain Cadence CadenceSpec.
Open Scope string_scope.
Open Scope list_scope.
Open Scope nat_scope.

Module CadenceWindow.

(** Entries after a horizon. *)
Definition live (h : float) (w : list WindowEntry) : list WindowEntry :=
  filter (fun e => fleb (ts e) h = false) w.

Definition ts_le (a b : WindowEntry) : Prop := fleb (ts a) (ts b) = true.

Lemma live_app h v w : live h (v ++ w) = live h v ++ live h w.
Proof. apply list.filter_app. Qed.

(** On a window in time order, popping from the left is filtering. *)
Lemma prune_live h w : StronglySorted ts_le w -> prune h w = live h w.
Proof.
  induction 1 as [|e w Hs IH He]; simpl; [done|]. unfold live. rewrite filter_cons.
  destruct (fleb (ts e) h) eqn:E.
  - rewrite decide_False by done. apply IH.
  - rewrite decide_True by done. f_equal. clear IH Hs. induction He as [|x w Hx He IH]; [done|].
    rewrite filter_cons, decide_True; [by rewrite <- IH|].
    apply not_true_iff_false. intros Hle.
    apply not_true_iff_false in E. apply E. by eapply fleb_trans.
Qed.

Lemma live_live h h' w : fleb h' h = true -> live h (live h' w) = live h w.
Proof.
  intros Hle. apply list_filter_filter_l. intros e He. apply not_true_iff_false. intros H.
  apply not_true_iff_false in He. apply He. by eapply fleb_trans.
Qed.

Lemma sublist_sorted {A} (R : relation A) l k : sublist l k -> StronglySorted R k -> StronglySorted R l.
Proof.
  induction 1 as [|x l k Hs IH|x l k Hs IH]; intros Hk; [done| |].
  - apply StronglySorted_inv in Hk as [Hk Hx]. constructor; [by apply IH|].
    rewrite list.Forall_forall in Hx |- *. intros y Hy. apply Hx. by eapply elem_of_sublist.
  - apply StronglySorted_inv in Hk as [Hk _]. by apply IH.
Qed.

(** ** Streams in order, below the caps *)
Section Window.
Context (c : CadenceConfig).

Definition in_order (q q' : EvaluationRequest) : Prop :=
  fleb (timestamp q) (timestamp q') = true /\ fleb (horizon c q) (horizon c q') = true.

Record calm (rs : list EvaluationRequest) : Prop := {
  calm_ids : NoDup (request_id <$> rs);
  calm_named : "" ∉ request_id <$> rs;
  calm_order : StronglySorted in_order rs;
  calm_keys : size (list_to_set (omap derive_key rs) : gset string) <= max_tracked_keys c;
  calm_length : length rs <= max_window_entries c
}.

Definition of_key (k : string) (rs : list EvaluationRequest) : list EvaluationRequest :=
  filter (fun q => derive_key q = Some k) rs.
Definition entries (k : string) (rs : list EvaluationRequest) : list WindowEntry :=
  entry_of <$> of_key k rs.

Lemma calm_prefix past r : calm (past ++ [r]) -> calm past.
Proof.
  intros [Hi Hn Ho Hk Hl]. rewrite fmap_app in Hi, Hn. rewrite omap_app in Hk.
  rewrite length_app in Hl. constructor.
  - by apply list.NoDup_app in Hi as [? _].
  - set_solver.
  - by apply StronglySorted_app_1_l in Ho.
  - etrans; [|apply Hk]. apply subseteq_size. set_solver.
  - simpl in Hl. lia.
Qed.

Lemma entries_sorted k rs : StronglySorted in_order rs -> StronglySorted ts_le (entries k rs).
Proof.
  induction 1 as [|q rs Hs IH Hq]; [constructor|]. unfold entries, of_key. rewrite filter_cons.
  case_decide; [|apply IH]. constructor; [apply IH|].
  apply list.Forall_forall. intros e He.
  apply list_elem_of_fmap in He as (q' & -> & Hq'). apply list_elem_of_filter in Hq' as [_ Hq'].
  apply (proj1 (list.Forall_forall _ _) Hq _ Hq').
Qed.

Lemma entries_snoc k rs r :
  entries k (rs ++ [r]) = entries k rs ++ (if decide (derive_key r = Some k) then [entry_of r] else []).
Proof.
  unfold entries, of_key. rewrite list.filter_app, fmap_app. f_equal. rewrite filter_cons.
  by case_decide.
Qed.

(** What the state remembers of the past. *)
Record tracks (past : list EvaluationRequest) (t : tracker) : Prop := {
  tr_config : config t = c;
  tr_memo : (memo t).*1 ⊆ request_id <$> past;
  tr_keys : (windows t).*1 ⊆ omap derive_key past;
  tr_sub k : sublist (default [] (od_get k (windows t))) (entries k past);
  tr_live k h : (forall q, q ∈ of_key k past -> fleb (horizon c q) h = true) ->
    live h (default [] (od_get k (windows t))) = live h (entries k past)
}.

Lemma NoDup_length_size (l : list string) (s : gset string) :
  NoDup l -> (forall x, x ∈ l -> x ∈ s) -> length l <= size s.
Proof.
  intros Hl Hs. rewrite <- (size_list_to_set (C := gset string) l Hl). apply subseteq_size. set_solver.
Qed.

(** The window of the requesting agent after the observation. *)
Lemma observe_tracks past r k w :
  calm (past ++ [r]) -> sublist w (entries k past) -> derive_key r = Some k ->
  observe c r w = live (horizon c r) w ++ [entry_of r].
Proof.
  intros Hc Hs Hk. unfold observe. rewrite prune_live.
  2: { eapply sublist_sorted; [done|]. apply entries_sorted. apply (calm_order _ (calm_prefix _ _ Hc)). }
  set (p := live (horizon c r) w).
  assert (sublist p (entries k past)) as Hp by (etrans; [apply sublist_filter|done]).
  destruct (existsb _ p) eqn:E.
  - exfalso. apply existsb_exists in E as (e & He & Heq). apply String.eqb_eq in Heq.
    rewrite <- list_elem_of_In in He.
    assert (e ∈ entries k past) as He' by (by eapply elem_of_sublist).
    apply list_elem_of_fmap in He' as (q & -> & Hq). apply list_elem_of_filter in Hq as [_ Hq].
    pose proof (calm_ids _ Hc) as Hn. rewrite fmap_app in Hn. apply list.NoDup_app in Hn as (_ & Hn & _).
    apply (Hn (request_id r)); [|set_solver]. simpl in Heq. rewrite <- Heq. by apply list_elem_of_fmap_2.
  - apply keep_last_id. rewrite length_app. simpl. apply sublist_length in Hp.
    assert (length (entries k past) <= length past) as Hle.
    { unfold entries, of_key. rewrite length_fmap. apply length_filter. }
    pose proof (calm_length _ Hc) as Hl. rewrite length_app in Hl. simpl in Hl. lia.
Qed.

(** A request that carries an agent and was not seen before is observed. *)
Lemma assess_fresh past r k t :
  enabled c = true -> calm (past ++ [r]) -> tracks past t -> NoDup (windows t).*1 ->
  derive_key r = Some k ->
  let w := live (horizon c r) (default [] (od_get k (windows t))) ++ [entry_of r] in
  (assess r t).1 = build_assessment c k
    (classify c (Z.of_nat (length w)) (Z.of_nat (size (⋃ (targets <$> w)))))
    (length w) (size (⋃ (targets <$> w)))
  /\ windows (assess r t).2 = od_put k w (windows t)
  /\ (memo (assess r t).2).*1 ⊆ request_id <$> (past ++ [r]).
Proof.
  intros He Hc Ht Hnd Hk w. pose proof Ht as [Hcf Hm Hks Hsub _]. unfold assess.
  rewrite Hcf, He, Hk. cbn [negb].
  assert (("" ∉ request_id <$> (past ++ [r])) /\ (request_id r ∉ (memo t).*1)) as [Hnamed Hfresh].
  { split; [apply (calm_named _ Hc)|]. intros Hin. apply Hm in Hin.
    pose proof (calm_ids _ Hc) as Hn. rewrite fmap_app in Hn. apply list.NoDup_app in Hn as (_ & Hn & _).
    apply (Hn _ Hin). set_solver. }
  destruct (String.eqb_spec (request_id r) "") as [E|_].
  { exfalso. apply Hnamed. rewrite fmap_app, <- E. set_solver. }
  apply od_get_None in Hfresh. rewrite Hfresh. cbn [fst snd windows memo].
  rewrite (observe_tracks past r k _ Hc (Hsub k) Hk). fold w. split; [done|]. split.
  - apply keep_last_id. transitivity (length (od_put k w (windows t)).*1); [by rewrite length_fmap|].
    etrans; [|apply (calm_keys _ Hc)]. apply NoDup_length_size; [by apply od_put_NoDup|].
    intros x Hx. unfold od_put in Hx. rewrite fmap_app in Hx. rewrite omap_app. simpl. rewrite Hk.
    apply elem_of_app in Hx as [Hx|Hx].
    + apply without_fst in Hx as [Hx _]. apply Hks in Hx. set_solver.
    + set_solver.
  - intros x Hx. apply list_elem_of_fmap in Hx as (y & -> & Hy). unfold keep_last in Hy.
    apply elem_of_sublist with (l2 := od_put (request_id r)
      (build_assessment c k (classify c (Z.of_nat (length w)) (Z.of_nat (size (⋃ (targets <$> w)))))
         (length w) (size (⋃ (targets <$> w)))) (memo t)) in Hy; [|apply sublist_drop].
    unfold od_put in Hy. rewrite fmap_app. apply elem_of_app in Hy as [Hy|Hy].
    + apply elem_of_app. left. apply Hm, (without_fst (request_id r)). by apply list_elem_of_fmap_2.
    + apply list_elem_of_singleton in Hy as ->. set_solver.
Qed.

Lemma tracks_step past r t :
  enabled c = true -> calm (past ++ [r]) -> tracks past t -> NoDup (windows t).*1 ->
  tracks (past ++ [r]) (assess r t).2.
Proof.
  intros He Hc Ht Hnd. pose proof Ht as [Hcf Hm Hks Hsub Hlive].
  destruct (derive_key r) as [k|] eqn:Hk.
  - destruct (assess_fresh past r k t He Hc Ht Hnd Hk) as (_ & Ew & Em).
    set (w := live _ _ ++ _) in Ew. constructor.
    + by rewrite assess_config.
    + done.
    + rewrite Ew. intros x Hx. unfold od_put in Hx. rewrite fmap_app in Hx.
      rewrite omap_app. simpl. rewrite Hk. apply elem_of_app in Hx as [Hx|Hx]; [|set_solver].
      apply without_fst in Hx as [Hx _]. apply Hks in Hx. set_solver.
    + intros k'. rewrite Ew, od_put_get, entries_snoc, Hk.
      destruct (String.eqb_spec k k') as [-> |Hne]; simpl.
      * rewrite decide_True by done. apply sublist_app; [|done].
        etrans; [apply sublist_filter|apply Hsub].
      * rewrite decide_False by congruence. rewrite app_nil_r. apply Hsub.
    + intros k' h Hh. rewrite Ew, od_put_get, entries_snoc, Hk.
      assert (forall q, q ∈ of_key k' past -> fleb (horizon c q) h = true) as Hpast.
      { intros q Hq. apply Hh. unfold of_key in *. rewrite list.filter_app. set_solver. }
      destruct (String.eqb_spec k k') as [-> |Hne]; simpl.
      * rewrite decide_True by done. unfold w. rewrite !live_app, live_live, (Hlive k' h Hpast); [done|].
        apply Hh. unfold of_key. rewrite list.filter_app, filter_cons, decide_True by done. set_solver.
      * rewrite decide_False by congruence. rewrite app_nil_r. by apply Hlive.
  - assert ((assess r t).2 = t) as -> by (unfold assess; rewrite Hk; by destruct (negb _)).
    constructor; [done| | | |].
    + rewrite fmap_app. set_solver.
    + rewrite omap_app. set_solver.
    + intros k. rewrite entries_snoc, Hk, decide_False, app_nil_r by done. apply Hsub.
    + intros k h Hh. rewrite entries_snoc, Hk, decide_False, app_nil_r by done. apply Hlive.
      intros q Hq. apply Hh. unfold of_key in *. rewrite list.filter_app. set_solver.
Qed.

Lemma run_tracks past : enabled c = true -> calm past -> tracks past (run c past).
Proof.
  intros He. induction past as [|r past IH] using rev_ind; intros Hc.
  - constructor; simpl; done.
  - rewrite run_snoc. apply tracks_step; [done..| |apply run_ok].
    by apply IH, calm_prefix with r.
Qed.

(** The past actions of the same agent after the horizon of this request, and
    the request itself. *)
Definition recent_actions (past : list EvaluationRequest) (r : EvaluationRequest) (k : string)
    : list EvaluationRequest :=
  filter (fun q => derive_key q = Some k /\ fleb (timestamp q) (horizon c r) = false) past ++ [r].

Lemma live_entries h k past :
  live h (entries k past)
  = entry_of <$> filter (fun q => derive_key q = Some k /\ fleb (timestamp q) h = false) past.
Proof.
  induction past as [|q past IH]; [done|]. unfold entries, of_key in *. rewrite !filter_cons.
  destruct (decide (derive_key q = Some k)) as [Hk|Hk].
  - rewrite fmap_cons. unfold live in *. rewrite filter_cons. simpl.
    destruct (decide (fleb (timestamp q) h = false)) as [Hh|Hh].
    + rewrite decide_True by done. rewrite IH. done.
    + rewrite decide_False by naive_solver. apply IH.
  - rewrite decide_False by naive_solver. apply IH.
Qed.

Lemma window_counts past r k :
  enabled c = true -> calm (past ++ [r]) -> derive_key r = Some k ->
  let a := (assess r (run c past)).1 in
  let seen := recent_actions past r k in
  action_count a = length seen
  /\ distinct_targets a = size (⋃ (derive_targets <$> seen))
  /\ level a = classify c (Z.of_nat (length seen)) (Z.of_nat (size (⋃ (derive_targets <$> seen)))).
Proof.
  intros He Hc Hk a seen. pose proof (run_tracks past He (calm_prefix _ _ Hc)) as Ht.
  destruct (assess_fresh past r k _ He Hc Ht) as (Ea & _); [apply run_ok|done|].
  rewrite (tr_live _ _ Ht) in Ea.
  2: { intros q Hq. apply list_elem_of_filter in Hq as [_ Hq].
       apply (StronglySorted_app_1_elem_of in_order past [r] q r (calm_order _ Hc)); set_solver. }
  rewrite live_entries in Ea.
  assert (forall l : list EvaluationRequest,
            targets <$> (entry_of <$> l) ++ [entry_of r] = derive_targets <$> l ++ [r]) as Et.
  { intros l. rewrite !fmap_app, <- list_fmap_compose. done. }
  assert (forall l : list EvaluationRequest,
            length ((entry_of <$> l) ++ [entry_of r]) = length (l ++ [r])) as El.
  { intros l. by rewrite !length_app, length_fmap. }
  rewrite Et, El in Ea. unfold a. rewrite Ea. done.
Qed.
End Window.

(** ** Who acts, and on what *)

(** An agent, by its id, its external id or its name. *)
Inductive principal := Aid (s : string) | Ext (s : string) | Named (s : string).
#[global] Instance principal_eq_dec : EqDecision principal.
Proof. solve_decision. Defined.

(** The tenant and the agent of a request: the runtime identity goes first, with an empty
    name counting as none, then the request's own agent id. *)
Definition tenant_of (r : EvaluationRequest) : string :=
  match agent_identity r with
  | Some i => if String.eqb (tenant_id i) "" then "default" else tenant_id i
  | None => "default"
  end.
Definition principal_of (r : EvaluationRequest) : option principal :=
  let named (f : string -> principal) (o : option string) :=
    match o with Some s => if String.eqb s "" then None else Some (f s) | None => None end in
  let candidates := match agent_identity r with
    | Some i => [Aid <$> rt_agent_id i; named Ext (external_agent_id i); named Named (agent_name i)]
    | None => [] end ++ [Aid <$> req_agent_id r] in
  head (omap id candidates).
Definition actor (r : EvaluationRequest) : option (string * principal) :=
  (fun p => (tenant_of r, p)) <$> principal_of r.

(** What a request acts on: its recipient, the tools and servers of the identity, and the
    declared targets, compared without surrounding blanks and casefolded. *)
Inductive place := Recipient | Tool | Server | Declared.
Inductive touches (r : EvaluationRequest) : place -> list N -> Prop :=
| touches_recipient s : recipient r = Some s -> strip s <> "" -> touches r Recipient (casefold (strip s))
| touches_tool i s : agent_identity r = Some i -> s ∈ tools i -> strip s <> "" -> touches r Tool (casefold (strip s))
| touches_server i s : agent_identity r = Some i -> s ∈ mcp_server_ids i -> strip s <> "" -> touches r Server (casefold (strip s))
| touches_declared l s : dict_get "cadence_targets" (metadata r) = Some (PList l) -> PStr s ∈ l -> strip s <> "" ->
    touches r Declared (casefold (strip s)).

(** The key of a window stands for the tenant and the agent, if tenants have no bar. *)
Definition principal_text (p : principal) : string :=
  match p with Aid s => "aid:" +:+ s | Ext s => "ext:" +:+ s | Named s => "name:" +:+ s end.
Definition actor_key (x : string * principal) : string := x.1 +:+ "|" +:+ principal_text x.2.
Lemma derive_key_actor r : derive_key r = actor_key <$> actor r.
Proof.
  unfold derive_key, actor, principal_of, tenant_of. destruct (agent_identity r) as [i|]; [|by destruct (req_agent_id r)].
  unfold nonempty, default, from_option. destruct (tenant_id i); cbn [String.eqb];
    (destruct (rt_agent_id i); [done|]); destruct (external_agent_id i) as [[|]|]; try done;
    destruct (agent_name i) as [[|]|]; try done; by destruct (req_agent_id r).
Qed.
Lemma principal_text_inj p q : principal_text p = principal_text q -> p = q.
Proof. destruct p, q; simpl; intros H; by simplify_eq. Qed.
Lemma bar_inj a b x y : has_char "|" a = false -> has_char "|" b = false -> a +:+ "|" +:+ x = b +:+ "|" +:+ y -> a = b /\ x = y.
Proof.
  unfold has_char. revert b. induction a as [|c a IH]; intros [|d b]; rewrite ?str_app_nil, ?str_app_cons; cbn [str_any];
    intros Ha Hb H; [by simplify_eq|..].
  - injection H as <- _. discriminate Hb.
  - injection H as -> _. discriminate Ha.
  - injection H as -> H. apply orb_false_iff in Ha as [_ Ha], Hb as [_ Hb]. destruct (IH b Ha Hb H) as [-> ->]. done.
Qed.
Lemma actor_key_inj x y : has_char "|" x.1 = false -> has_char "|" y.1 = false -> actor_key x = actor_key y -> x = y.
Proof.
  destruct x as [t p], y as [u q]. unfold actor_key. simpl. intros Ht Hu H.
  destruct (bar_inj _ _ _ _ Ht Hu H) as [-> ->%principal_text_inj]. done.
Qed.

Definition encode (x : place * list N) : list N :=
  codes match x.1 with Recipient => "recipient:" | Tool => "tool:" | Server => "mcp:" | Declared => "target:" end ++ x.2.
#[global] Instance encode_inj : Inj (=) (=) encode.
Proof. intros [[] x] [[] y] H; unfold encode in H; simpl in H; by simplify_eq. Qed.
Lemma target_elem prefix s y : y ∈ target prefix s <-> strip s <> "" /\ y = codes prefix ++ casefold (strip s).
Proof. unfold target. destruct (String.eqb_spec (strip s) "") as [->|]; set_solver. Qed.
Lemma derive_targets_touches r y : y ∈ derive_targets r <-> exists p x, y = encode (p, x) /\ touches r p x.
Proof.
  unfold derive_targets. split.
  - rewrite !elem_of_union. intros [[H|H]|H].
    + destruct (recipient r) as [s|] eqn:E; [|set_solver]. apply target_elem in H as [Hs ->].
      exists Recipient, (casefold (strip s)). split; [done|]. by constructor.
    + destruct (agent_identity r) as [i|] eqn:E; [|set_solver].
      apply elem_of_union in H as [H|H]; apply elem_of_union_list in H as (S & HS & Hy);
        apply list_elem_of_fmap in HS as (s & -> & Hs); apply target_elem in Hy as [Hne ->].
      * exists Tool, (casefold (strip s)). split; [done|]. by econstructor.
      * exists Server, (casefold (strip s)). split; [done|]. by econstructor.
    + destruct (dict_get _ _) as [[| | | | |l| |]|] eqn:E; try set_solver.
      apply elem_of_union_list in H as (S & HS & Hy). apply list_elem_of_fmap in HS as (v & -> & Hv).
      destruct v; try set_solver. apply target_elem in Hy as [Hne ->].
      exists Declared, (casefold (strip s)). split; [done|]. by econstructor.
  - intros (p & x & -> & [s E Hs|i s E Hi Hs|i s E Hi Hs|l s E Hi Hs]); rewrite E, !elem_of_union; [left; left|left; right|left; right|right].
    + by apply target_elem.
    + left. apply elem_of_union_list. exists (target "tool:" s). split; [by apply list_elem_of_fmap_2|by apply target_elem].
    + right. apply elem_of_union_list. exists (target "mcp:" s). split; [by apply list_elem_of_fmap_2|by apply target_elem].
    + apply elem_of_union_list. exists (target "target:" s). split; [by apply (list_elem_of_fmap_2 target_of_value _ (PStr s))|by apply target_elem].
Qed.

(** The targets of some requests, counted. *)
Lemma preimage {A B} (f : A -> B) (l : list B) : (forall y, y ∈ l -> exists x, y = f x) -> exists k : list A, f <$> k = l.
Proof.
  induction l as [|y l IH]; intros H; [by exists []|]. destruct (H y ltac:(by left)) as [x ->].
  destruct IH as [k <-]; [intros z Hz; apply H; by right|]. by exists (x :: k).
Qed.
Lemma targets_counted rs :
  exists ts : list (place * list N), NoDup ts /\ size (⋃ (derive_targets <$> rs)) = length ts
    /\ forall p x, (p, x) ∈ ts <-> exists q, q ∈ rs /\ touches q p x.
Proof.
  set (S := ⋃ (derive_targets <$> rs)).
  assert (HS : forall y, y ∈ elements S <-> exists q p x, q ∈ rs /\ y = encode (p, x) /\ touches q p x).
  { intros y. rewrite elem_of_elements. unfold S. rewrite elem_of_union_list. setoid_rewrite list_elem_of_fmap. split.
    - intros (? & (q & -> & Hq) & Hy). apply derive_targets_touches in Hy as (p & x & -> & Ht). eauto 10.
    - intros (q & p & x & Hq & -> & Ht). exists (derive_targets q). split; [eauto|]. apply derive_targets_touches. eauto. }
  destruct (preimage encode (elements S)) as [ts Hts].
  { intros y (q & p & x & _ & -> & _)%HS. eauto. }
  exists ts. split_and!.
  - apply (NoDup_fmap_1 encode). rewrite Hts. apply NoDup_elements.
  - unfold size, set_size. simpl. by rewrite <- Hts, length_fmap.
  - intros p x. rewrite <- (list_elem_of_fmap_inj encode), Hts, HS. split.
    + intros (q & p' & x' & Hq & E%encode_inj & Ht). simplify_eq. eauto.
    + intros (q & Hq & Ht). eauto 10.
Qed.

Section Exact.
Context (c : CadenceConfig).

(** Distinct requests, in order of time, of few enough actors, none of whose tenants has
    a bar in its name. *)
Record orderly (rs : list EvaluationRequest) : Prop := {
  ord_ids : NoDup (request_id <$> rs);
  ord_named : "" ∉ request_id <$> rs;
  ord_time : StronglySorted (in_order c) rs;
  ord_actors : exists xs, length xs <= max_tracked_keys c /\ forall r x, r ∈ rs -> actor r = Some x -> x ∈ xs;
  ord_length : length rs <= max_window_entries c;
  ord_tenants : forall r, r ∈ rs -> has_char "|" (tenant_of r) = false
}.
Lemma orderly_calm rs : orderly rs -> calm c rs.
Proof.
  intros [Hi Hn Ho (xs & Hl & Hxs) Hw _]. constructor; try done. etrans; [|exact Hl].
  rewrite <- (length_fmap actor_key xs). transitivity (size (list_to_set (actor_key <$> xs) : gset string)).
  - apply subseteq_size. intros k Hk. apply elem_of_list_to_set, list_elem_of_omap in Hk as (r & Hr & E).
    rewrite derive_key_actor in E. destruct (actor r) as [x|] eqn:Ea; [|done]. injection E as <-.
    apply elem_of_list_to_set, list_elem_of_fmap_2. by eapply Hxs.
  - clear. induction (actor_key <$> xs) as [|y l IH]; [done|]. cbn [list_to_set length]. rewrite size_union_alt, size_singleton.
    pose proof (subseteq_size (list_to_set l ∖ {[y]} : gset string) (list_to_set l) ltac:(set_solver)). lia.
Qed.

(** The actions of the same tenant and agent after the horizon, and the request itself. *)
Definition recent (past : list EvaluationRequest) (r : EvaluationRequest) : list EvaluationRequest :=
  filter (fun q => actor q = actor r /\ fleb (timestamp q) (horizon c r) = false) past ++ [r].

Lemma recent_same past r x :
  orderly (past ++ [r]) -> actor r = Some x -> recent_actions c past r (actor_key x) = recent past r.
Proof.
  intros Ho Hx. unfold recent_actions, recent. f_equal. pose proof (ord_tenants _ Ho) as Ht. clear Ho.
  assert (Hs : forall q, q ∈ past -> derive_key q = Some (actor_key x) <-> actor q = actor r).
  { intros q Hq. rewrite derive_key_actor, Hx. destruct (actor q) as [y|] eqn:Ey; [|done]. simpl. split; [|by intros [= ->]].
    intros [= E]. f_equal. unfold actor in Hx, Ey. destruct (principal_of q), (principal_of r); simplify_eq/=.
    apply actor_key_inj in E; [done|apply Ht; set_solver..]. }
  clear Ht. induction past as [|q past IH]; [done|]. rewrite !filter_cons.
  pose proof (Hs q ltac:(by left)) as Hq. rewrite IH by (intros q' Hq'; apply Hs; by right).
  destruct (decide (actor q = actor r /\ _)) as [H|H], (decide (derive_key q = Some (actor_key x) /\ _)) as [H'|H']; try done; exfalso; tauto.
Qed.

(** C33. The sliding window refines a filter on the history: for distinct requests with
    ordered timestamps (and horizons), below the caps on actors and on entries, whose
    tenants contain no bar (with one, two tenants can share a window: [key_collision]),
    the assessment counts exactly the actions of the same tenant and agent whose timestamp
    lies after the horizon, and the distinct recipients, tools, servers and declared
    targets of those actions, and the level follows from the two counts. *)
Theorem window_exact past r x :
  enabled c = true -> orderly (past ++ [r]) -> actor r = Some x ->
  let a := (assess r (run c past)).1 in
  let seen := recent past r in
  action_count a = length seen
  /\ exists ts : list (place * list N), NoDup ts
       /\ (forall p y, (p, y) ∈ ts <-> exists q, q ∈ seen /\ touches q p y)
       /\ distinct_targets a = length ts
       /\ level a = classify c (Z.of_nat (length seen)) (Z.of_nat (length ts)).
Proof.
  intros He Ho Hx a seen. assert (Hk : derive_key r = Some (actor_key x)) by (by rewrite derive_key_actor, Hx).
  destruct (window_counts c past r _ He (orderly_calm _ Ho) Hk) as (H1 & H2 & H3).
  rewrite (recent_same past r x Ho Hx) in H1, H2, H3. fold seen a in H1, H2, H3.
  destruct (targets_counted seen) as (ts & Hn & Hs & Ht). rewrite Hs in H2, H3. eauto 10.
Qed.
End Exact.
End CadenceWindow.

(** * The circuit breaker: concrete streams *)
Import RouterDomain Router PdpDomain Cadence CadenceSpec CadenceWindow.
Open Scope string_scope.
Open Scope list_scope.
Open Scope nat_scope.

Module CadenceRuns.

Definition agent (tenant name : string) : AgentRuntimeIdentity := {|
  rt_agent_id := None; external_agent_id := None; agent_name := Some name; tenant_id := tenant;
  tools := []; mcp_server_ids := [] |}.
(** A request to [recipient] at [s] seconds. *)
Definition request (id : string) (i : AgentRuntimeIdentity) (to : string) (s : Z) : EvaluationRequest := {|
  request_id := id; action_type := "send_email"; content := "hello"; recipient := Some to; channel := "email";
  environment := "production"; metadata := []; req_agent_id := None; session_id := None;
  agent_identity := Some i; requested_at := (s * 1000000)%Z |}.

Definition tight : CadenceConfig := {|
  enabled := true; window_seconds := dec 10 0; soft_actions := 2; hard_actions := 4;
  soft_fanout := 6; hard_fanout := 15; max_window_entries := 16; max_tracked_keys := 4;
  max_memo_entries := 4 |}.

Definition bot := agent "acme" "bot".
Definition stream : list EvaluationRequest :=
  [request "r1" bot "a@x" 100; request "r2" (agent "acme" "other") "b@x" 101;
   request "r3" bot "b@x" 105].
Definition last_request := request "r4" bot "A@X" 112.

Ltac vm_decide := by vm_compute.

Lemma assess_once_witness :
  (assess last_request (assess_all [request "q1" bot "c@x" 112; request "q2" bot "d@x" 113]
                          (assess last_request (run tight stream)).2)).1
  = (assess last_request (run tight stream)).1.
Proof.
  pose proof (assess_once tight stream last_request
    [request "q1" bot "c@x" 112; request "q2" bot "d@x" 113]) as H.
  cbv zeta in H. destruct (assess last_request (run tight stream)) as [a t1].
  apply H; [reflexivity| |done|simpl; lia]. by eexists.
Defined.

Lemma orderly_stream : orderly tight (stream ++ [last_request]).
Proof.
  constructor.
  - apply (bool_decide_unpack _). vm_decide.
  - apply (bool_decide_unpack _). vm_decide.
  - repeat (constructor || split); vm_decide.
  - exists [("acme", Named "bot"); ("acme", Named "other")]. split; [simpl; lia|]. intros q x Hq. apply list_elem_of_In in Hq.
    simpl in Hq. destruct Hq as [<-|[<-|[<-|[<-|[]]]]]; intros [= <-]; set_solver.
  - vm_compute. lia.
  - intros q Hq. apply list_elem_of_In in Hq. simpl in Hq. by destruct Hq as [<-|[<-|[<-|[<-|[]]]]].
Qed.

(** The request at 100 s has left the window of the request at 112 s. *)
Lemma window_exact_witness :
  let a := (assess last_request (run tight stream)).1 in
  action_count a = 2
  /\ exists ts, NoDup ts /\ (forall p y, (p, y) ∈ ts <-> exists q, q ∈ recent tight stream last_request /\ touches q p y)
     /\ distinct_targets a = length ts /\ level a = classify tight 2 (Z.of_nat (length ts)).
Proof. exact (window_exact tight stream last_request ("acme", Named "bot") eq_refl orderly_stream eq_refl). Defined.
Example window_run :
  let a := (assess last_request (run tight stream)).1 in action_count a = 2 /\ distinct_targets a = 2 /\ level a = SOFT.
Proof. vm_compute. done. Qed.

(** Tenant and agent are joined by a bar that both may contain, so agents of
    different tenants can share a window. *)
Example key_collision :
  derive_key (request "r" (agent "acme" "b|name:c") "x" 0)
  = derive_key (request "r" (agent "acme|name:b" "c") "x" 0).
Proof. reflexivity. Qed.

(** The same four actions trip the hard threshold when the timestamps say how
    fast they came, and none of them is even held when each is dated eleven
    seconds after the previous one. *)
Definition burst (step : Z) : list EvaluationRequest :=
  [request "r1" bot "a@x" 100; request "r2" bot "b@x" (100 + step); request "r3" bot "c@x" (100 + 2 * step)].
Example forged_clock :
  level (assess (request "r4" bot "d@x" 103) (run tight (burst 1))).1 = HARD
  /\ level (assess (request "r4" bot "d@x" 133) (run tight (burst 11))).1 = CLEAR.
Proof. vm_compute. done. Qed.

Fixpoint repeat_char (n : nat) (c : ascii) : string :=
  match n with O => "" | S n => String c (repeat_char n c) end.
Definition routed : RoutingResult unit := {|
  verdict := PERMIT; confidence := dec 9 1; final_score := dec 1 1; reasons := ["clean"];
  uncertainty_flags := []; r_findings := []; scores := []; asi_findings := (); override_fired := false |}.

(** The message of the hold contains the key; with the longest names the request
    schema allows it exceeds the 500 characters of a finding, and the hold raises
    instead of lowering the verdict. *)
Example long_key_raises :
  (apply_cadence_hold routed (request "r9" (agent "acme" (repeat_char 200 "n")) "x" 1)
     (run tight [request "r8" (agent "acme" (repeat_char 200 "n")) "x" 0])).1
  = Err (PydanticError ValidationError).
Proof. vm_compute. done. Qed.
Example short_key_holds :
  is_ok (apply_cadence_hold routed (request "r9" bot "x" 1) (run tight [request "r8" bot "x" 0])).1 = true.
Proof. vm_compute. done. Qed.

End CadenceRuns.
