(* ===== verification/Rv4Path.v ===== *)
(** * Structural contracts read from the request: RV4 path policies

    [tex/contracts/rv4_path.py]: the policies of a request are classified on
    the declared trace extended with the candidate action; a permanent violation
    is a structural deny, a recoverable one a hold. *)
From S2P Require Import Prelude PyStr PyFloat PyVal Ltlf LtlfEval LtlfParse RouterDomain PyFormat PdpDomain.
Import PdpDomain LtlfEval.
Open Scope string_scope.
Open Scope list_scope.
Open Scope nat_scope.

Module Rv4Path.

Record RV4PathViolation := {
  policy_id : string;
  v_verdict : RV4Verdict;
  formula : string;
  v_reason : string
}.
Definition is_permanent (v : RV4PathViolation) : bool :=
  match v_verdict v with PERMANENTLY_VIOLATED => true | _ => false end.

(** [checked] and [violations]. *)
Record RV4PathOutcome := { checked : bool; violations : list RV4PathViolation }.
Definition NEUTRAL_RV4_PATH : RV4PathOutcome := {| checked := false; violations := [] |}.
Definition permanent (o : RV4PathOutcome) : list RV4PathViolation :=
  List.filter is_permanent (violations o).
Definition recoverable (o : RV4PathOutcome) : list RV4PathViolation :=
  List.filter (fun v => negb (is_permanent v)) (violations o).

(** [raw.get(k, {})] of a step, which must be a mapping. *)
Definition field (k : string) (d : pydict) : option pydict :=
  match dict_get k d with
  | None => Some []
  | Some (PDict m) => Some m
  | Some _ => None
  end.
Definition coerce_step (raw : pyval) : option step :=
  match raw with
  | PList [PDict st; PDict act; PDict obs] => Some (Step st act obs)
  | PDict d =>
      match field "state" d, field "action" d, field "observation" d with
      | Some st, Some act, Some obs => Some (Step st act obs)
      | _, _, _ => None
      end
  | _ => None
  end.

Definition default_candidate (r : EvaluationRequest) : pydict :=
  [("tool", PStr (action_type r)); ("type", PStr (action_type r)); ("channel", PStr (channel r));
   ("recipient", PStr (default "" (recipient r)))].
Definition candidate_of (raw : pydict) (r : EvaluationRequest) : pydict :=
  default (default_candidate r) (mapping_at "candidate_action" raw).
(** The steps of [raw["trace"]] that can be coerced. *)
Definition past_steps (raw : pydict) : list step :=
  match dict_get "trace" raw with Some (PList l) => omap coerce_step l | _ => [] end.

Definition build_trace (raw : pydict) (r : EvaluationRequest) : list step :=
  past_steps raw ++ [Step [] (candidate_of raw r) []].

Section Classify.
Context (str_container : pyval -> string).
(** [str(exc)] of the parse error of a formula. *)
Context (parse_error_text : string -> string).

Definition quoted (s : string) : string := "'" +:+ s +:+ "'".
Definition parse_failure_reason (id f : string) : string :=
  "RV4 path policy " +:+ quoted id +:+ " formula failed to parse (" +:+ parse_error_text f
  +:+ "); held for review.".
Definition permanent_reason (id f : string) : string :=
  "RV4 path policy " +:+ quoted id +:+ " is permanently violated (bad prefix: no future step can satisfy "
  +:+ quoted f +:+ ") " +:+ emdash +:+ " structural FORBID.".
Definition recoverable_reason (id f : string) : string :=
  "RV4 path policy " +:+ quoted id
  +:+ " is currently violated but recoverable (a future step could satisfy " +:+ quoted f +:+ ") "
  +:+ emdash +:+ " held for review.".

Definition of_ltlf (e : Ltlf.exn) : exn :=
  match e with Ltlf.OverflowError => OverflowError | _ => ParserFuel end.

(** The policy of an entry: its id and its formula, when it constrains anything. *)
Definition policy_of (entry : pyval) : option (string * string) :=
  match entry with
  | PDict d =>
      match dict_get "policy_id" d with
      | Some (PStr id) =>
          let f := match dict_get "ltl_formula" d with
                   | Some v => py_str_of str_container v
                   | None => ""
                   end in
          if String.eqb (strip id) "" || String.eqb (strip f) "" then None else Some (id, f)
      | _ => None
      end
  | _ => None
  end.

(** One turn of the loop over the policies. *)
Definition classify_policy (trace : list step) (id f : string) : result exn (list RV4PathViolation) :=
  let violation v reason := {| policy_id := id; v_verdict := v; formula := f; v_reason := reason |} in
  match Ltlf.compile_formula f with
  | Err Ltlf.LtlfParseError => Ok [violation CURRENTLY_VIOLATED (parse_failure_reason id f)]
  | Err e => Err (of_ltlf e)
  | Ok ast =>
      match evaluate_rv4_compiled str_container ast trace with
      | Err e => Err (of_ltlf e)
      | Ok v =>
          Ok (if is_satisfied v then []
              else match v with
                   | PERMANENTLY_VIOLATED => [violation v (permanent_reason id f)]
                   | _ => [violation v (recoverable_reason id f)]
                   end)
      end
  end.

Fixpoint classify_all (trace : list step) (ps : list (string * string))
    : result exn (list RV4PathViolation) :=
  match ps with
  | [] => Ok []
  | (id, f) :: ps =>
      vs ← classify_policy trace id f; rest ← classify_all trace ps; Ok (vs ++ rest)
  end.

Definition classify (r : EvaluationRequest) : result exn RV4PathOutcome :=
  match mapping_at "rv4_path_policies" (metadata r) with
  | None => Ok NEUTRAL_RV4_PATH
  | Some raw =>
      match dict_get "policies" raw with
      | Some (PList (p :: ps)) =>
          vs ← classify_all (build_trace raw r) (omap policy_of (p :: ps));
          Ok {| checked := true; violations := vs |}
      | Some (PStr (String _ _)) => Ok {| checked := true; violations := [] |}
      | _ => Ok NEUTRAL_RV4_PATH
      end
  end.

(** ** What a violation proves *)

Lemma classify_policy_spec trace id f vs v :
  classify_policy trace id f = Ok vs -> v ∈ vs ->
  policy_id v = id /\ formula v = f
  /\ if is_permanent v
     then exists ast, Ltlf.parse f = Ok ast
                      /\ forall ext, ~ sat str_container ast (trace ++ ext) 0
     else match Ltlf.parse f with
          | Ok ast => ~ sat str_container ast trace 0
          | Err _ => True
          end.
Proof.
  unfold classify_policy, Ltlf.compile_formula.
  destruct (Ltlf.parse f) as [ast|[]] eqn:Hp; [|by intros [= <-] ->%list_elem_of_singleton|done..].
  pose proof (rv4_sound str_container ast trace) as Hs.
  destruct (evaluate_rv4_compiled str_container ast trace) as [x|]; [|done].
  destruct x; simpl; intros [= <-] Hv; try by apply elem_of_nil in Hv.
  - apply list_elem_of_singleton in Hv as ->. simpl. split_and!; [done..|]. apply (Hs []).
  - apply list_elem_of_singleton in Hv as ->. simpl. split_and!; [done..|]. exists ast.
    split; [done|]. exact Hs.
Qed.

Lemma classify_all_In trace ps vs v :
  classify_all trace ps = Ok vs -> v ∈ vs ->
  exists id f ws, (id, f) ∈ ps /\ classify_policy trace id f = Ok ws /\ v ∈ ws.
Proof.
  revert vs. induction ps as [|[id f] ps IH]; simpl; intros vs H Hv.
  - inv_bind. by apply elem_of_nil in Hv.
  - inv_bind. apply elem_of_app in Hv as [Hv|Hv].
    + exists id, f, x. split; [left|done].
    + destruct (IH _ H1 Hv) as (id' & f' & ws & Hin & Hc & Hw). exists id', f', ws.
      split; [by right|done].
Qed.

(** The structural floor's RV4 denies are proofs: the formula of a permanent
    violation parses, and no continuation of the declared path and the candidate
    action satisfies it.  A formula that does not parse is never one of them. *)
Lemma permanent_is_bad_prefix r o v :
  classify r = Ok o -> v ∈ permanent o ->
  exists raw ast, mapping_at "rv4_path_policies" (metadata r) = Some raw
    /\ Ltlf.parse (formula v) = Ok ast
    /\ forall ext, ~ sat str_container ast (build_trace raw r ++ ext) 0.
Proof.
  unfold permanent, classify. intros H Hv. rewrite list_elem_of_In, filter_In, <- list_elem_of_In in Hv.
  destruct Hv as [Hv Hp].
  destruct (mapping_at "rv4_path_policies" (metadata r)) as [raw|]; [|by inv_bind; apply elem_of_nil in Hv].
  destruct (dict_get "policies" raw) as [[| | | |[]|[|p ps]| |]|]; inv_bind; try by apply elem_of_nil in Hv.
  destruct (classify_all_In _ _ _ _ H0 Hv) as (id & f & ws & _ & Hc & Hw).
  destruct (classify_policy_spec _ _ _ _ _ Hc Hw) as (_ & -> & Hs). rewrite Hp in Hs.
  destruct Hs as (ast & Hparse & Hs). by exists raw, ast.
Qed.

(** Classification always answers when the ints on the path fit a float. *)
Lemma classify_total r :
  (forall raw, mapping_at "rv4_path_policies" (metadata r) = Some raw ->
     in_float_range (build_trace raw r)) ->
  exists o, classify r = Ok o.
Proof.
  intros Hr. unfold classify. destruct (mapping_at "rv4_path_policies" (metadata r)) as [raw|]; [|eauto].
  specialize (Hr raw eq_refl).
  destruct (dict_get "policies" raw) as [[| | | |[]|[|p ps]| |]|]; eauto.
  assert (forall l, exists vs, classify_all (build_trace raw r) l = Ok vs) as Hall.
  { induction l as [|[id f] l [vs IH]]; simpl; [eauto|].
    assert (exists ws, classify_policy (build_trace raw r) id f = Ok ws) as [ws Hw].
    { unfold classify_policy, Ltlf.compile_formula. destruct (Ltlf.parse f) as [ast|e] eqn:Hp.
      - unfold evaluate_rv4_compiled.
        destruct (eval_at_total str_container ast _ 0 Hr) as [b ->].
        destruct (can_become_total str_container ast _ 0 Hr) as [[x ->] [y ->]].
        destruct b, x, y; simpl; eauto.
      - apply LtlfParse.parse_err in Hp as ->. eauto. }
    rewrite Hw, IH. simpl. eauto. }
  destruct (Hall (omap policy_of (p :: ps))) as [vs Hvs]. rewrite Hvs. simpl. eauto.
Qed.

End Classify.
End Rv4Path.
