(* ===== verification/PathBridge.v ===== *)
(** * The decision point: path policies of a request

    [tex/engine/path_policy_bridge.py]: the policies and the trace of the
    request's metadata are coerced, replayed into a fresh checker, and its answer
    is mapped to block, warn and audit signals.  The time measurement and the
    telemetry event are left out. *)
From S2P Require Import Prelude PyStr PyFloat PyVal Ltlf LtlfEval PathChecker RouterDomain PyFormat PdpDomain.
From S2P Require Import Rv4Path.
Import RouterDomain PdpDomain LtlfEval.
Open Scope string_scope.
Open Scope list_scope.
Open Scope nat_scope.

Module PathBridge.

Definition PATH_POLICY_FINDING_SOURCE : string := "path_policy.runtime".
Definition PATH_BLOCK_FORBID_REASON : string :=
  "behavioral path policy hard violation (block) " +:+ emdash
  +:+ " action forbidden by its position in the agent's execution path".
Definition SOFT_PATH_UNCERTAINTY_FLAG : string := "path_policy_soft_violation".

Record PathPolicyOutcome := {
  checked : bool;
  has_block : bool;
  has_warn : bool;
  violated_policy_ids : list string;
  block_policy_ids : list string;
  warn_policy_ids : list string;
  audit_policy_ids : list string;
  violation_score : float;
  p_findings : list Finding;
  forbid_reason : option string;
  soft_uncertainty_flags : list string;
  n_policies : nat;
  history_length : nat
}.
Definition NEUTRAL_PATH_OUTCOME : PathPolicyOutcome := {|
  checked := false; has_block := false; has_warn := false; violated_policy_ids := [];
  block_policy_ids := []; warn_policy_ids := []; audit_policy_ids := []; violation_score := f_zero;
  p_findings := []; forbid_reason := None; soft_uncertainty_flags := []; n_policies := 0;
  history_length := 0 |}.

Definition severity_label (s : PathChecker.severity) : string :=
  match s with PathChecker.block => "block" | PathChecker.warn => "warn" | PathChecker.audit => "audit" end.
Definition finding_severity (s : PathChecker.severity) : Severity :=
  match s with PathChecker.block => CRITICAL | PathChecker.warn => WARNING | PathChecker.audit => INFO end.

(** A severity that is not one of the three strings is an audit. *)
Definition coerce_severity (v : option pyval) : PathChecker.severity :=
  match v with
  | Some (PStr "block") => PathChecker.block
  | Some (PStr "warn") => PathChecker.warn
  | _ => PathChecker.audit
  end.

Section Bridge.
Context (str_container : pyval -> string).

Definition text_at (k : string) (d : pydict) : string :=
  match dict_get k d with Some v => py_str_of str_container v | None => "" end.

Definition coerce_policy (entry : pyval) : option PathChecker.PathPolicy :=
  match entry with
  | PDict d =>
      match dict_get "policy_id" d with
      | Some (PStr id) =>
          if String.eqb (strip id) "" then None
          else Some {| PathChecker.policy_id := id;
                       PathChecker.description := text_at "description" d;
                       PathChecker.ltl_formula := text_at "ltl_formula" d;
                       PathChecker.p_severity := coerce_severity (dict_get "severity" d) |}
      | _ => None
      end
  | _ => None
  end.
Definition coerce_policies (v : option pyval) : list PathChecker.PathPolicy :=
  match v with Some (PList l) => omap coerce_policy l | _ => [] end.

(** [window_size]: an int, which a bool is, or 256. *)
Definition window_of (raw : pydict) : Z :=
  match dict_get "window_size" raw with
  | Some (PInt z) => if (z <=? 0)%Z then 256 else z
  | Some (PBool true) => 1
  | _ => 256
  end.

(** [severity_by_id]: later policies overwrite. *)
Definition severity_by_id (ps : list PathChecker.PathPolicy) (id : string)
    : option PathChecker.severity :=
  PathChecker.p_severity <$> List.find (fun p => String.eqb (PathChecker.policy_id p) id) (rev ps).
Definition severity_of (ps : list PathChecker.PathPolicy) (id : string) : PathChecker.severity :=
  default PathChecker.audit (severity_by_id ps id).

Definition ids_with (s : PathChecker.severity) (ps : list PathChecker.PathPolicy) (ids : list string)
    : list string :=
  List.filter (fun id => bool_decide (severity_of ps id = s)) ids.

Definition path_message (id : string) (s : PathChecker.severity) (n : nat) : string :=
  "Path policy " +:+ "'" +:+ id +:+ "' (" +:+ severity_label s
  +:+ ") violated by the candidate action given the " +:+ z_str (Z.of_nat n)
  +:+ "-step execution path.".
Definition path_finding (ps : list PathChecker.PathPolicy) (score : float) (n : nat) (id : string)
    : result exn Finding :=
  let s := severity_of ps id in
  new_finding PATH_POLICY_FINDING_SOURCE id (finding_severity s) (path_message id s n)
    [("policy_id", PStr id); ("severity_label", PStr (severity_label s));
     ("violation_score", PFloat (round_ndigits score 6));
     ("history_length", PInt (Z.of_nat n))].

Definition of_checker {A} (x : result PathChecker.error A) : result exn A :=
  match x with
  | Ok a => Ok a
  | Err PathChecker.ValueError => Err (PydanticError ValueError)
  | Err (PathChecker.Eval e) => Err (Rv4Path.of_ltlf e)
  end.

(** The checker after the past steps were replayed into its window. *)
Definition replay (steps : list step) (c : PathChecker.checker) : PathChecker.checker :=
  fold_left (fun c s => PathChecker.record (state s) (action s) (observation s) c) steps c.

(** The bridge accepts the same two shapes of a step, and derives the candidate
    in the same way, as the RV4 contract. *)
Definition evaluate_path_policies_for_request (r : EvaluationRequest)
    : result exn PathPolicyOutcome :=
  match mapping_at "path_policy" (metadata r) with
  | None => Ok NEUTRAL_PATH_OUTCOME
  | Some raw =>
      let ps := coerce_policies (dict_get "policies" raw) in
      if bool_decide (length ps = 0) then Ok NEUTRAL_PATH_OUTCOME
      else
        let agent := default "default-agent" (req_agent_id r) in
        let steps := Rv4Path.past_steps raw in
        checker ← of_checker (PathChecker.init ps [] (window_of raw) agent []);
        '(checker, (_, violated)) ←
          of_checker (PathChecker.check str_container (Rv4Path.candidate_of raw r)
                        (replay steps checker));
        let score := PathChecker.last_violation_score checker in
        fs ← map_result (path_finding ps score (length steps)) violated;
        let blocks := ids_with PathChecker.block ps violated in
        let warns := ids_with PathChecker.warn ps violated in
        Ok {| checked := true;
              has_block := negb (bool_decide (blocks = []));
              has_warn := negb (bool_decide (warns = []));
              violated_policy_ids := violated;
              block_policy_ids := blocks;
              warn_policy_ids := warns;
              audit_policy_ids := ids_with PathChecker.audit ps violated;
              violation_score := score;
              p_findings := fs;
              forbid_reason := if bool_decide (blocks = []) then None else Some PATH_BLOCK_FORBID_REASON;
              soft_uncertainty_flags := if bool_decide (warns = []) then [] else [SOFT_PATH_UNCERTAINTY_FLAG];
              n_policies := length ps;
              history_length := length steps |}
  end.

(** ** What the bridge decides *)

Lemma replay_snoc l s c :
  replay (l ++ [s]) c = PathChecker.record (state s) (action s) (observation s) (replay l c).
Proof. unfold replay. by rewrite fold_left_app. Qed.

(** Replaying changes the window only, which then holds the latest steps. *)
Lemma replay_spec steps c :
  PathChecker.policies (replay steps c) = PathChecker.policies c
  /\ PathChecker.callable_policies (replay steps c) = PathChecker.callable_policies c
  /\ PathChecker.compiled_of (replay steps c) = PathChecker.compiled_of c
  /\ PathChecker.window_size (replay steps c) = PathChecker.window_size c
  /\ (PathChecker.history c = [] -> 0 < PathChecker.window_size c ->
      PathChecker.history (replay steps c)
      = drop (length steps - PathChecker.window_size c) steps).
Proof.
  induction steps as [|s steps IH] using rev_ind; [done|].
  destruct IH as (H1 & H2 & H3 & H4 & H5). rewrite replay_snoc. simpl. split_and!; try done.
  intros Hh Hw. rewrite H4, (H5 Hh Hw), PathChecker.deque_append_window by done. by destruct s.
Qed.

Lemma severity_of_unique ps p :
  NoDup (PathChecker.policy_id <$> ps) -> p ∈ ps ->
  severity_of ps (PathChecker.policy_id p) = PathChecker.p_severity p.
Proof.
  intros Hnd Hp. unfold severity_of, severity_by_id.
  destruct (List.find _ (rev ps)) as [q|] eqn:E.
  - apply find_some in E as [Hq Heq]. apply String.eqb_eq in Heq. rewrite <- in_rev, <- list_elem_of_In in Hq.
    simpl. f_equal. by apply (NoDup_fmap_inj PathChecker.policy_id ps).
  - exfalso. eapply find_none in E; [|rewrite <- in_rev, <- list_elem_of_In; apply Hp].
    by rewrite String.eqb_refl in E.
Qed.

Lemma ids_with_nonempty s ps ids :
  negb (bool_decide (ids_with s ps ids = [])) = true <->
  exists id, id ∈ ids /\ severity_of ps id = s.
Proof.
  rewrite negb_true_iff, bool_decide_eq_false. unfold ids_with. split.
  - intros H. destruct (List.filter _ ids) as [|id l] eqn:E; [done|].
    assert (List.In id (id :: l)) as Hin by (by left). rewrite <- E, filter_In in Hin.
    exists id. rewrite list_elem_of_In. rewrite bool_decide_eq_true in Hin. done.
  - intros (id & Hin & Hs) H. assert (List.In id []) as []. rewrite <- H, filter_In, <- list_elem_of_In.
    by rewrite bool_decide_eq_true.
Qed.

(** The trace the policies are judged on: the last steps the window holds, and
    the candidate. *)
Definition judged_trace (raw : pydict) (r : EvaluationRequest) : list step :=
  let steps := Rv4Path.past_steps raw in
  drop (length steps - Z.to_nat (window_of raw)) steps
  ++ [Step [] (Rv4Path.candidate_of raw r) []].

Lemma window_of_pos raw : (0 < window_of raw)%Z.
Proof. unfold window_of. repeat case_match; try lia. Qed.

Lemma bridge_spec r raw o :
  mapping_at "path_policy" (metadata r) = Some raw ->
  let ps := coerce_policies (dict_get "policies" raw) in
  NoDup (PathChecker.policy_id <$> ps) ->
  evaluate_path_policies_for_request r = Ok o ->
  let violated s := exists p, p ∈ ps /\ PathChecker.p_severity p = s
                      /\ PathChecker.violates_ltlf str_container (judged_trace raw r) p in
  (has_block o = true <-> violated PathChecker.block)
  /\ (has_warn o = true <-> violated PathChecker.warn).
Proof.
  intros Hraw ps Hnd H. unfold evaluate_path_policies_for_request in H. rewrite Hraw in H. fold ps in H.
  destruct (bool_decide_reflect (length ps = 0)) as [Hz|Hz].
  { injection H as <-. simpl. apply length_zero_iff_nil in Hz. rewrite Hz. set_solver. }
  inv_bind. destruct x0 as [c2 [allowed ids]]. inv_bind. simpl.
  destruct (PathChecker.init ps [] (window_of raw) (default "default-agent" (req_agent_id r)) [])
    as [c0|[]] eqn:Hi; simpl in *; try done. injection H0 as <-.
  unfold PathChecker.init in Hi. pose proof (window_of_pos raw) as Hw.
  destruct (Z.leb_spec (window_of raw) 0); [lia|]. inv_bind.
  set (c0 := {| PathChecker.policies := ps |}) in *.
  destruct (replay_spec (Rv4Path.past_steps raw) c0) as (Rp & Rc & Rm & Rw & Rh).
  destruct (PathChecker.check str_container (Rv4Path.candidate_of raw r)
              (replay (Rv4Path.past_steps raw) c0)) as [[c3 [al vids]]|[]] eqn:Hck; simpl in *; try done.
  injection H1 as <- <- <-.
  destruct (PathChecker.check_spec str_container _ _ _ _ _ ltac:(rewrite Rp, Rm; exact H0)
              ltac:(rewrite Rp; exact Hnd) Hck) as [_ Hids].
  rewrite Rp, Rc in Hids. simpl in Hids. unfold PathChecker.candidate_trace in Hids.
  rewrite Rh in Hids; [|done|lia]. fold (judged_trace raw r) in Hids.
  assert (forall s, (exists id, id ∈ vids /\ severity_of ps id = s) <->
            exists p, p ∈ ps /\ PathChecker.p_severity p = s
              /\ PathChecker.violates_ltlf str_container (judged_trace raw r) p) as Hsev.
  { intros s. split.
    - intros (id & Hid & Hs). apply Hids in Hid as [(p & Hp & <- & Hv)|(p & Hp & _)];
        [|by apply elem_of_nil in Hp].
      rewrite (severity_of_unique ps p Hnd Hp) in Hs. by exists p.
    - intros (p & Hp & Hs & Hv). exists (PathChecker.policy_id p). split; [|by rewrite severity_of_unique].
      apply Hids. left. by exists p. }
  rewrite !ids_with_nonempty, !Hsev. done.
Qed.

End Bridge.
End PathBridge.
