(* ===== verification/StructuralFloor.v ===== *)
(** * The structural FORBID floor

    [tex/specialists/structural_floor.py]: the deny signatures of the four
    structural specialists, and the denies read from the request (rule of two,
    permanent RV4 violations, action class, hard cadence).  Assessing the cadence
    observes the request, so detection runs in the state of the tracker. *)
From S2P Require Import Prelude StateExn PyStr PyFloat PyVal RouterDomain PyFormat PdpDomain ActionClass.
From S2P Require Import RuleOfTwo Cadence Rv4Path.
Import RouterDomain PdpDomain Cadence.
Open Scope string_scope.
Open Scope list_scope.
Open Scope nat_scope.

Module StructuralFloor.

Definition IFC_HARD_VIOLATION_CODES : list string :=
  ["ifc.flow_integrity"; "ifc.min_trust_floor"; "ifc.causality_laundering"; "ifc.ci_norm_violation";
   "ifc.neurotaint_cross_session"; "ifc.rule_of_two_trifecta"; "ifc.secret_egress_noninterference"].
Definition ARGUS_HARD_CODES : list string := ["ARGUS_DECISION_OBSERVATION_DRIVEN"].
Definition CAMEL_DENY_CODES : list string := ["camel.capability_denied"; "camel.interpreter_halt"].
(** [_DENY_RISK - _EPS]. *)
Definition DENY_RISK : float := fsub f_one (dec 1 9).
Definition FINDING_SOURCE : string := "structural_floor".

Record StructuralDeny := { specialist : string; d_reason : string; d_codes : list string }.

Definition hits (codes ids : list string) : list string :=
  List.filter (fun c => bool_decide (c ∈ codes)) ids.

Definition PCAS_REASON : string :=
  "PCAS Datalog reference monitor returned a deterministic DENY (toxic-flow rule matched over the provenance graph).".
Definition CAMEL_REASON : string :=
  "CaMeL capability interpreter denied the action (unauthorized data flow / capability violation, or fail-closed interpreter error).".
Definition ARGUS_REASON : string :=
  "ARGUS counterfactual test proved the decision was driven by injected observation content (ARGUS_DECISION_OBSERVATION_DRIVEN).".

Definition classify_result (r : SpecialistResult) : option StructuralDeny :=
  let name := specialist_name r in
  let ids := matched_policy_clause_ids r in
  let deny reason codes := Some {| specialist := name; d_reason := reason; d_codes := codes |} in
  if String.eqb name "pcas" && fleb DENY_RISK (risk_score r) then deny PCAS_REASON ids
  else if String.eqb name "camel"
          && (fleb DENY_RISK (risk_score r) || negb (bool_decide (hits CAMEL_DENY_CODES ids = [])))
       then deny CAMEL_REASON ids
  else if String.eqb name "ifc" && negb (bool_decide (hits IFC_HARD_VIOLATION_CODES ids = []))
       then deny ("IFC lattice proved a typed flow violation: "
                  +:+ String.concat ", " (hits IFC_HARD_VIOLATION_CODES ids) +:+ ".")
              (hits IFC_HARD_VIOLATION_CODES ids)
  else if String.eqb name "argus" && negb (bool_decide (hits ARGUS_HARD_CODES ids = []))
       then deny ARGUS_REASON (hits ARGUS_HARD_CODES ids)
  else None.

Record StructuralFloorResult := {
  fl_fired : bool;
  denies : list StructuralDeny;
  fl_findings : list Finding
}.
Definition NEUTRAL_STRUCTURAL_FLOOR : StructuralFloorResult :=
  {| fl_fired := false; denies := []; fl_findings := [] |}.
Definition denying_specialists (f : StructuralFloorResult) : list string := specialist <$> denies f.
Definition fl_reasons (f : StructuralFloorResult) : list string := d_reason <$> denies f.

Definition deny_finding (d : StructuralDeny) : result exn Finding :=
  new_finding (FINDING_SOURCE +:+ "." +:+ specialist d) (specialist d +:+ "_structural_deny")
    CRITICAL (d_reason d)
    [("specialist", PStr (specialist d)); ("codes", PStr (String.concat "," (d_codes d)));
     ("tier", PStr "structural_floor")].

Section Floor.
Context (str_container : pyval -> string) (parse_error_text : string -> string).

Definition rule_of_two_deny (r : EvaluationRequest) : list StructuralDeny :=
  let o := RuleOfTwo.evaluate_rule_of_two str_container r in
  if RuleOfTwo.fired o
  then [{| specialist := "rule_of_two"; d_reason := RuleOfTwo.r2_reason o; d_codes := ["rule_of_two.trifecta"] |}]
  else [].

Definition action_class_deny (r : EvaluationRequest) : list StructuralDeny :=
  let o := ActionClass.evaluate_action_class r in
  if bool_decide (ActionClass.action_class o = ActionClass.FORBID)
  then [{| specialist := "action_class"; d_reason := ActionClass.ac_reason o;
           d_codes := ["action_class.irreversible_public"] |}]
  else [].

Definition cadence_deny (a : CadenceAssessment) : list StructuralDeny :=
  if bool_decide (level a = HARD)
  then [{| specialist := "action_cadence"; d_reason := reason a; d_codes := ["cadence.hard_threshold"] |}]
  else [].

Definition rv4_permanent_denies (o : Rv4Path.RV4PathOutcome) : list StructuralDeny :=
  (fun v => {| specialist := "rv4_path"; d_reason := Rv4Path.v_reason v;
               d_codes := [Rv4Path.policy_id v] |}) <$> Rv4Path.permanent o.

(** [assess] as a method of the shared tracker. *)
Definition assess_for_floor (r : EvaluationRequest) : stM tracker exn CadenceAssessment :=
  fun t => let '(a, t) := assess r t in (Ok a, t).

Definition request_denies (r : EvaluationRequest) : stM tracker exn (list StructuralDeny) :=
  o ← lift (Rv4Path.classify str_container parse_error_text r);
  a ← assess_for_floor r;
  mret (rule_of_two_deny r ++ rv4_permanent_denies o ++ action_class_deny r ++ cadence_deny a).

Definition detect_structural_floor (bundle : SpecialistBundle) (request : option EvaluationRequest)
    : stM tracker exn StructuralFloorResult :=
  let from_bundle := omap classify_result bundle in
  ds ← match request with
       | None => mret []
       | Some r => request_denies r
       end;
  let ds := from_bundle ++ ds in
  if bool_decide (ds = []) then mret NEUTRAL_STRUCTURAL_FLOOR
  else
    fs ← lift (map_result deny_finding ds);
    mret {| fl_fired := true; denies := ds; fl_findings := fs |}.

(** ** When the floor fires *)

(** The deny signatures of a specialist result. *)
Definition proves_violation (r : SpecialistResult) : Prop :=
  (specialist_name r = "pcas" /\ fleb DENY_RISK (risk_score r) = true)
  \/ (specialist_name r = "camel" /\ (fleb DENY_RISK (risk_score r) = true
        \/ exists c, c ∈ matched_policy_clause_ids r /\ c ∈ CAMEL_DENY_CODES))
  \/ (specialist_name r = "ifc" /\ exists c, c ∈ matched_policy_clause_ids r /\ c ∈ IFC_HARD_VIOLATION_CODES)
  \/ (specialist_name r = "argus" /\ exists c, c ∈ matched_policy_clause_ids r /\ c ∈ ARGUS_HARD_CODES).

Lemma hits_spec codes ids :
  negb (bool_decide (hits codes ids = [])) = true <-> exists c, c ∈ ids /\ c ∈ codes.
Proof.
  rewrite negb_true_iff, bool_decide_eq_false. unfold hits. split.
  - intros H. destruct (List.filter _ ids) as [|c l] eqn:E; [done|].
    assert (List.In c (c :: l)) as Hin by (by left). rewrite <- E, filter_In in Hin.
    exists c. rewrite list_elem_of_In. rewrite bool_decide_eq_true in Hin. done.
  - intros (c & Hc & Hin) H. assert (List.In c []) as []. rewrite <- H, filter_In, <- list_elem_of_In.
    by rewrite bool_decide_eq_true.
Qed.

Lemma is_Some_ifs {A} (b1 b2 b3 b4 : bool) (x1 x2 x3 x4 : A) :
  is_Some (if b1 then Some x1 else if b2 then Some x2 else if b3 then Some x3
           else if b4 then Some x4 else None)
  <-> b1 = true \/ b2 = true \/ b3 = true \/ b4 = true.
Proof.
  destruct b1, b2, b3, b4; split; intros H;
    first [by eexists|tauto|by destruct H|intuition discriminate].
Qed.

Lemma classify_result_spec r : is_Some (classify_result r) <-> proves_violation r.
Proof.
  unfold classify_result, proves_violation. cbv zeta.
  rewrite is_Some_ifs, !andb_true_iff, orb_true_iff, !String.eqb_eq, !hits_spec. done.
Qed.

Lemma omap_nil {A B} (f : A -> option B) l :
  omap f l = [] <-> forall x, x ∈ l -> ~ is_Some (f x).
Proof.
  induction l as [|y l IH]; simpl; [set_solver|]. destruct (f y) as [z|] eqn:E.
  - split; [done|]. intros H. destruct (H y); [left|by rewrite E; eexists].
  - rewrite IH. setoid_rewrite elem_of_cons. split; [|naive_solver].
    intros H x [-> |Hx]; [|by apply H]. rewrite E. by intros [? ?].
Qed.

(** The sources of a deny in a request, with the assessment of its cadence. *)
Definition request_proves (r : EvaluationRequest) (o : Rv4Path.RV4PathOutcome) (a : CadenceAssessment)
    : Prop :=
  RuleOfTwo.fired (RuleOfTwo.evaluate_rule_of_two str_container r) = true
  \/ Rv4Path.permanent o <> []
  \/ ActionClass.action_class (ActionClass.evaluate_action_class r) = ActionClass.FORBID
  \/ level a = HARD.

Lemma request_denies_spec r t ds t' :
  request_denies r t = (Ok ds, t') ->
  exists o, Rv4Path.classify str_container parse_error_text r = Ok o /\ t' = (assess r t).2
    /\ (ds <> [] <-> request_proves r o (assess r t).1).
Proof.
  unfold request_denies, mbind, M_bind, lift, assess_for_floor.
  destruct (Rv4Path.classify str_container parse_error_text r) as [o|]; [|done].
  destruct (assess r t) as [a t1]. intros H. injection H as <- <-. exists o. split; [done|].
  split; [done|]. unfold request_proves, rule_of_two_deny, rv4_permanent_denies, action_class_deny, cadence_deny.
  destruct (RuleOfTwo.fired _); simpl; [naive_solver|].
  destruct (Rv4Path.permanent o); simpl; [|naive_solver].
  repeat case_bool_decide; simpl; naive_solver.
Qed.

(** The floor fires exactly on a proof: a deny signature in the bundle, or one
    of the four contracts read from the request. *)
Lemma floor_fires_iff bundle r t f t' :
  detect_structural_floor bundle (Some r) t = (Ok f, t') ->
  t' = (assess r t).2
  /\ exists o, Rv4Path.classify str_container parse_error_text r = Ok o
     /\ (fl_fired f = true <->
         (exists s, s ∈ bundle /\ proves_violation s) \/ request_proves r o (assess r t).1).
Proof.
  unfold detect_structural_floor. intros H. apply M_bind_Ok in H as (ds & t1 & Hd & H).
  destruct (request_denies_spec _ _ _ _ Hd) as (o & Ho & -> & Hds).
  pose proof (omap_nil classify_result bundle) as Hb. setoid_rewrite classify_result_spec in Hb.
  assert ((exists s, s ∈ bundle /\ proves_violation s) <-> omap classify_result bundle <> []) as Hex.
  { split; [naive_solver|]. intros Hne. destruct (omap classify_result bundle) as [|d l] eqn:E; [done|].
    assert (d ∈ omap classify_result bundle) as Hd' by (rewrite E; left).
    apply list_elem_of_omap in Hd' as (s & Hs & Hc). exists s. split; [done|].
    apply classify_result_spec. by eexists. }
  case_bool_decide as Hnil.
  - injection H as <- <-. split; [done|]. exists o. split; [done|]. simpl.
    apply app_eq_nil in Hnil. rewrite Hex, <- Hds. naive_solver.
  - apply M_bind_Ok in H as (fs & t2 & Hf & H). injection Hf as _ <-. injection H as <- <-.
    split; [done|]. exists o. split; [done|]. simpl. rewrite Hex, <- Hds. split; [|done]. intros _.
    destruct (omap classify_result bundle); [right|left]; done.
Qed.

End Floor.
End StructuralFloor.
