(* ===== verification/CrcGate.v ===== *)
(** * The conformal risk gate

    [tex/engine/crc_gate.py]: the Hoeffding-Bentkus bound, the calibration of the
    permit and forbid cutoffs on a grid, the collars, and [apply], the last stage
    that can lower a verdict.  [log] and [pow] of the C library, whose rounding
    no standard fixes, are parameters; [sqrt] is exact. *)
From Stdlib Require Import SpecFloat.
From S2P Require Import Prelude PyStr PyFloat RouterDomain PyFormat PdpDomain.
Import RouterDomain PdpDomain.
Open Scope string_scope.
Open Scope list_scope.
Open Scope nat_scope.

Module CrcGate.

Inductive crc_exn := ValueError | ZeroDivisionError | CrcOverflow.

Record CalibrationRecord := { cal_score : float; unsafe : bool }.
Definition new_record (s : float) (u : bool) : result crc_exn CalibrationRecord :=
  if unit_interval s then Ok {| cal_score := s; unsafe := u |} else Err ValueError.

Definition fnat (n : nat) : float := float_of_Ze (Z.of_nat n) 0.
(** [math.e]. *)
Definition math_e : float := dec 2718281828459045 15.

(** [math.ceil(x)]. *)
Definition ceilZ (x : float) : Z :=
  match x with
  | S754_finite s m e =>
      let z := if s then Zneg m else Zpos m in
      if (0 <=? e)%Z then (z * 2 ^ e)%Z else (- (- z / 2 ^ (- e)))%Z
  | _ => 0%Z
  end.

(** [math.comb(n, k)], by the rows of factors. *)
Fixpoint comb_loop (i : nat) (n : Z) (acc : Z) : Z :=
  match i with
  | O => acc
  | S i => let acc := comb_loop i n acc in (acc * (n - Z.of_nat i) / (Z.of_nat i + 1))%Z
  end.
Definition comb (n k : nat) : Z := comb_loop k (Z.of_nat n) 1.

Section Bounds.
Context (log : float -> float) (pow : float -> nat -> float).

Definition hoeffding_ucb (r_hat : float) (n : nat) (delta : float) : float :=
  if n =? 0 then f_one
  else fmin f_one (fadd r_hat (SFsqrt prec emax
                                 (fdiv (log (fdiv f_one delta)) (fmul (dec 2 0) (fnat n))))).

(** The terms [i .. i + count - 1] of the sum; an int that exceeds the range of
    floats raises. *)
Fixpoint binom_terms (count i n : nat) (p total : float) : result crc_exn float :=
  match count with
  | O => Ok total
  | S count =>
      match float_of_Z (comb n i) with
      | None => Err CrcOverflow
      | Some c =>
          binom_terms count (S i) n p
            (fadd total (fmul (fmul c (pow p i)) (pow (fsub f_one p) (n - i))))
      end
  end.
Definition binom_cdf (k : Z) (n : nat) (p : float) : result crc_exn float :=
  if fleb p f_zero then Ok f_one
  else if fleb f_one p then Ok (if (Z.of_nat n <=? k)%Z then f_one else f_zero)
  else
    let k := Z.min k (Z.of_nat n) in
    total ← binom_terms (Z.to_nat (k + 1)) 0 n p f_zero;
    Ok (fmin f_one total).

Fixpoint bisect (steps : nat) (k : Z) (n : nat) (delta lo hi : float) : result crc_exn float :=
  match steps with
  | O => Ok hi
  | S steps =>
      let mid := fdiv (fadd lo hi) (dec 2 0) in
      c ← binom_cdf k n mid;
      if fleb delta (fmul math_e c) then bisect steps k n delta mid hi
      else bisect steps k n delta lo mid
  end.
Definition bentkus_ucb (r_hat : float) (n : nat) (delta : float) : result crc_exn float :=
  if n =? 0 then Ok f_one
  else
    let k := ceilZ (fmul (fnat n) r_hat) in
    if (Z.of_nat n <=? k)%Z then Ok f_one
    else hi ← bisect 60 k n delta r_hat f_one; Ok (fmin f_one hi).

Definition hoeffding_bentkus_ucb (r_hat : float) (n : nat) (delta : float) : result crc_exn float :=
  b ← bentkus_ucb r_hat n delta; Ok (fmin (hoeffding_ucb r_hat n delta) b).
(** A coefficient beyond the float range raises, however small its term is. *)
Lemma binom_terms_overflow count i n p total j :
  i <= j < i + count -> float_of_Z (comb n j) = None ->
  binom_terms count i n p total = Err CrcOverflow.
Proof.
  revert i total. induction count as [|count IH]; intros i total Hj Hn; [lia|]. cbn [binom_terms].
  destruct (float_of_Z (comb n i)) eqn:E; [|done]. apply IH; [|done].
  destruct (decide (j = i)) as [-> |]; [congruence|lia].
Qed.
End Bounds.

(** ** Calibration

    Parametrised by the bound, which the theorems do not open. *)
Section Gate.
Context (ucb : float -> nat -> float -> result crc_exn float).

Record SideCalibration := {
  cutoff_grid : float;
  empirical_marginal : float;
  marginal_ucb : float;
  empirical_selective : float;
  selective_ucb : float;
  n_acted : nat
}.

(** The node [lam] of the grid, and the two risks at it. *)
Definition grid_node (grid_size i : nat) : float := fsub f_one (int_div i (grid_size - 1)).
Definition ratio (hits n : nat) : float := if n =? 0 then f_zero else int_div hits n.
Definition acted (inside : float -> bool) (cal : list CalibrationRecord) : list CalibrationRecord :=
  List.filter (fun c => inside (cal_score c)) cal.
Definition count_bad (bad : CalibrationRecord -> bool) (cal : list CalibrationRecord) : nat :=
  length (List.filter bad cal).

(** The counts of one node: acted points, marginal and selective risk. *)
Definition node_risks (inside : float -> bool) (bad : CalibrationRecord -> bool)
    (cal : list CalibrationRecord) : nat * float * float :=
  let a := acted inside cal in
  let hits := count_bad bad a in
  (length a, int_div hits (length cal), ratio hits (length a)).

Definition gated_ucb (selective : bool) (delta : float) (n : nat) (risks : nat * float * float)
    : result crc_exn float :=
  let '(na, rm, rs) := risks in
  if selective then ucb rs na delta else ucb rm n delta.

(** The side's record once its cutoff is chosen: the other bound is computed once. *)
Definition side_at (selective : bool) (delta : float) (n : nat) (lam gated : float)
    (risks : nat * float * float) : result crc_exn SideCalibration :=
  let '(na, rm, rs) := risks in
  other ← (if selective then ucb rm n delta else ucb rs na delta);
  Ok {| cutoff_grid := lam; empirical_marginal := rm;
        marginal_ucb := if selective then other else gated;
        empirical_selective := rs;
        selective_ucb := if selective then gated else other;
        n_acted := na |}.
Definition no_side (cutoff : float) : SideCalibration := {|
  cutoff_grid := cutoff; empirical_marginal := f_zero; marginal_ucb := f_one;
  empirical_selective := f_zero; selective_ucb := f_one; n_acted := 0 |}.

Definition minus_one : float := float_of_dec true 1 0.
Definition two : float := dec 2 0.

Definition permit_risks (cal : list CalibrationRecord) (lam : float) : nat * float * float :=
  node_risks (fun s => fleb s lam) unsafe cal.
Definition forbid_risks (cal : list CalibrationRecord) (lam : float) : nat * float * float :=
  node_risks (fun s => fleb lam s) (fun c => negb (unsafe c)) cal.

(** The sweep of [_calibrate], from [lam = 1.0] down: the first node within the
    budget. *)
Fixpoint calibrate_loop (count i grid_size : nat) (cal : list CalibrationRecord)
    (alpha delta : float) (selective : bool) : result crc_exn SideCalibration :=
  match count with
  | O => Ok (no_side minus_one)
  | S count =>
      let lam := grid_node grid_size i in
      let risks := permit_risks cal lam in
      gated ← gated_ucb selective delta (length cal) risks;
      if fleb gated alpha then side_at selective delta (length cal) lam gated risks
      else calibrate_loop count (S i) grid_size cal alpha delta selective
  end.
Definition calibrate (grid_size : nat) (cal : list CalibrationRecord) (alpha delta : float)
    (selective : bool) : result crc_exn SideCalibration :=
  if grid_size =? 1 then Err ZeroDivisionError
  else calibrate_loop grid_size 0 grid_size cal alpha delta selective.

(** The sweep of [_calibrate_forbid]: the last node before the first violation. *)
Fixpoint forbid_loop (count i grid_size : nat) (cal : list CalibrationRecord)
    (alpha delta : float) (selective : bool) (best : option (float * float))
    : result crc_exn (option (float * float)) :=
  match count with
  | O => Ok best
  | S count =>
      let lam := grid_node grid_size i in
      gated ← gated_ucb selective delta (length cal) (forbid_risks cal lam);
      if fleb gated alpha
      then forbid_loop count (S i) grid_size cal alpha delta selective (Some (lam, gated))
      else Ok best
  end.
Definition calibrate_forbid (grid_size : nat) (cal : list CalibrationRecord) (alpha delta : float)
    (selective : bool) : result crc_exn SideCalibration :=
  if grid_size =? 1 then Err ZeroDivisionError
  else
    best ← forbid_loop grid_size 0 grid_size cal alpha delta selective None;
    match best with
    | None => Ok (no_side two)
    | Some (lam, gated) =>
        side_at selective delta (length cal) lam gated (forbid_risks cal lam)
    end.

(** ** The gate *)
Record ConformalRiskGate := {
  alpha : float;
  delta : float;
  enabled : bool;
  lambda_hat : float;
  empirical_risk : float;
  risk_ucb : float;
  n_cal : nat;
  certified : bool;
  alpha_forbid : float;
  lambda_forbid : float;
  empirical_forbid_risk : float;
  forbid_risk_ucb : float;
  forbid_certified : bool;
  delta_permit : float;
  delta_forbid : float;
  epsilon : float;
  risk_estimand : string;
  acted_permit_ucb : float;
  acted_forbid_ucb : float;
  n_acted_permit : nat;
  n_acted_forbid : nat
}.

Definition collar_permit (eps cutoff : float) : float :=
  if fltb cutoff f_zero then minus_one
  else let collared := fsub cutoff eps in if fleb f_zero collared then collared else minus_one.
Definition collar_forbid (eps cutoff : float) : float :=
  if fltb f_one cutoff then two
  else let collared := fadd cutoff eps in if fleb collared f_one then collared else two.

Definition open_unit (x : float) : bool := fltb f_zero x && fltb x f_one.

Definition new_gate (cal : list CalibrationRecord) (a d : float) (a_forbid : option float)
    (grid_size : nat) (split : float) (collar : option float) (estimand : string)
    : result crc_exn ConformalRiskGate :=
  if negb (open_unit a) || negb (open_unit d) || negb (open_unit split)
     || negb (bool_decide (estimand ∈ ["marginal"; "selective"]))
  then Err ValueError
  else
    let af := default a a_forbid in
    if negb (open_unit af) then Err ValueError
    else
      let dp := fmul d split in
      let df := fmul d (fsub f_one split) in
      eps ← match collar with
            | Some e => Ok e
            | None =>
                if grid_size =? 1 then Err ZeroDivisionError
                else Ok (if grid_size =? 0 then minus_one else fdiv f_one (fnat (grid_size - 1)))
            end;
      if fltb eps f_zero then Err ValueError
      else
        let selective := String.eqb estimand "selective" in
        match cal with
        | [] =>
            Ok {| alpha := a; delta := d; enabled := false; lambda_hat := f_one;
                  empirical_risk := f_zero; risk_ucb := f_one; n_cal := 0; certified := false;
                  alpha_forbid := af; lambda_forbid := two; empirical_forbid_risk := f_zero;
                  forbid_risk_ucb := f_one; forbid_certified := false; delta_permit := dp;
                  delta_forbid := df; epsilon := eps; risk_estimand := estimand;
                  acted_permit_ucb := f_one; acted_forbid_ucb := f_one; n_acted_permit := 0;
                  n_acted_forbid := 0 |}
        | _ =>
            p ← calibrate grid_size cal a dp selective;
            f ← calibrate_forbid grid_size cal af df selective;
            let lh := collar_permit eps (cutoff_grid p) in
            let lf := collar_forbid eps (cutoff_grid f) in
            Ok {| alpha := a; delta := d; enabled := true; lambda_hat := lh;
                  empirical_risk := empirical_marginal p;
                  risk_ucb := if selective then selective_ucb p else marginal_ucb p;
                  n_cal := length cal; certified := fleb f_zero lh;
                  alpha_forbid := af; lambda_forbid := lf;
                  empirical_forbid_risk := empirical_marginal f;
                  forbid_risk_ucb := if selective then selective_ucb f else marginal_ucb f;
                  forbid_certified := fleb lf f_one; delta_permit := dp; delta_forbid := df;
                  epsilon := eps; risk_estimand := estimand;
                  acted_permit_ucb := selective_ucb p; acted_forbid_ucb := selective_ucb f;
                  n_acted_permit := n_acted p; n_acted_forbid := n_acted f |}
        end.

Definition hold_certified (g : ConformalRiskGate) : bool :=
  certified g && forbid_certified g && fltb (lambda_hat g) (lambda_forbid g).
Definition in_hold_band (g : ConformalRiskGate) (s : float) : bool :=
  hold_certified g && (fltb (lambda_hat g) s && fltb s (lambda_forbid g)).

(** What [apply] returns besides the certificate, a read-out of the gate's state. *)
Record CRCGateResult := {
  c_verdict : Verdict;
  demoted : bool;
  c_reasons : list string;
  c_flags : list string
}.
Definition CRC_FLAG : string := "crc_permit_region_exceeded".

Definition apply (g : ConformalRiskGate) (v : Verdict) (s : float) : CRCGateResult :=
  let f3 := fixed 3 in
  if negb (enabled g) || negb (bool_decide (v = PERMIT))
  then {| c_verdict := v; demoted := false; c_reasons := []; c_flags := [] |}
  else if certified g && fleb s (lambda_hat g)
  then {| c_verdict := PERMIT; demoted := false;
          c_reasons := ["CRC gate: PERMIT certified " +:+ emdash +:+ " fused score " +:+ f3 s
            +:+ " <= cutoff " +:+ f3 (lambda_hat g) +:+ "; false-permit rate bounded <= "
            +:+ f3 (risk_ucb g) +:+ " at confidence " +:+ f3 (fsub f_one (delta_permit g))
            +:+ " (estimand=" +:+ risk_estimand g +:+ ")."];
          c_flags := [] |}
  else {| c_verdict := ABSTAIN; demoted := true;
          c_reasons := [if certified g
            then "CRC gate: PERMIT demoted to ABSTAIN " +:+ emdash +:+ " fused score " +:+ f3 s
                 +:+ " exceeds certified permit cutoff " +:+ f3 (lambda_hat g)
                 +:+ " (risk budget alpha=" +:+ f3 (alpha g) +:+ ")."
            else "CRC gate: PERMIT demoted to ABSTAIN " +:+ emdash
                 +:+ " no permit cutoff satisfies the risk budget alpha=" +:+ f3 (alpha g)
                 +:+ " at confidence " +:+ f3 (fsub f_one (delta_permit g))
                 +:+ " on the calibration set."];
          c_flags := [CRC_FLAG] |}.

(** ** What the calibration establishes *)

(** Node [j] of the grid is within the permit budget, with bound [u]. *)
Definition within (grid_size : nat) (cal : list CalibrationRecord) (a d : float) (selective : bool)
    (j : nat) (u : float) : Prop :=
  gated_ucb selective d (length cal) (permit_risks cal (grid_node grid_size j)) = Ok u
  /\ fleb u a = true.
Definition beyond (grid_size : nat) (cal : list CalibrationRecord) (a d : float) (selective : bool)
    (j : nat) : Prop :=
  exists u, gated_ucb selective d (length cal) (permit_risks cal (grid_node grid_size j)) = Ok u
            /\ fleb u a = false.

Lemma side_at_spec sel d n lam gated risks side :
  side_at sel d n lam gated risks = Ok side ->
  cutoff_grid side = lam /\ (if sel then selective_ucb side else marginal_ucb side) = gated.
Proof. unfold side_at. destruct risks as [[na rm] rs]. intros H. inv_bind. by destruct sel. Qed.

(** The sweep stops at the most permissive node within the budget. *)
Lemma calibrate_loop_spec count i grid cal a d sel side :
  calibrate_loop count i grid cal a d sel = Ok side ->
  (side = no_side minus_one /\ forall j, i <= j < i + count -> beyond grid cal a d sel j)
  \/ exists j u, i <= j < i + count /\ within grid cal a d sel j u
       /\ cutoff_grid side = grid_node grid j
       /\ (if sel then selective_ucb side else marginal_ucb side) = u
       /\ forall j', i <= j' < j -> beyond grid cal a d sel j'.
Proof.
  revert i. induction count as [|count IH]; intros i; cbn [calibrate_loop]; cbv zeta.
  - intros [= <-]. left. split; [done|lia].
  - intros H. apply result_bind_Ok in H as (u & Hu & H). destruct (fleb u a) eqn:E.
    + right. exists i, u. apply side_at_spec in H as [-> Hs].
      split_and!; [lia|lia|split; done|done|done|lia].
    + assert (beyond grid cal a d sel i) as Hi by (by exists u).
      destruct (IH _ H) as [[-> Hb]|(j & v & Hj & Hw & Hc & Hr & Hb)].
      * left. split; [done|]. intros j Hj. destruct (decide (j = i)) as [-> |]; [done|]. apply Hb. lia.
      * right. exists j, v. split_and!; [lia|lia|done..|].
        intros j' Hj'. destruct (decide (j' = i)) as [-> |]; [done|]. apply Hb. lia.
Qed.

Lemma collar_permit_spec eps cut :
  fleb f_zero (collar_permit eps cut) = true -> collar_permit eps cut = fsub cut eps.
Proof. unfold collar_permit. destruct (fltb cut f_zero); [done|]. by destruct (fleb f_zero (fsub cut eps)). Qed.

Lemma apply_cases g v s :
  (c_verdict (apply g v s) = v /\ demoted (apply g v s) = false)
  \/ (v = PERMIT /\ c_verdict (apply g v s) = ABSTAIN /\ demoted (apply g v s) = true
      /\ c_flags (apply g v s) = [CRC_FLAG]).
Proof.
  unfold apply. destruct (enabled g); simpl; [|by left].
  destruct (bool_decide_reflect (v = PERMIT)) as [-> |]; simpl; [|by left].
  destruct (certified g && fleb s (lambda_hat g)); simpl; [by left|by right].
Qed.

(** With a calibrated gate, the permitted scores are those up to the cutoff. *)
Lemma permit_region g s :
  enabled g = true ->
  c_verdict (apply g PERMIT s) = PERMIT <-> certified g = true /\ fleb s (lambda_hat g) = true.
Proof using.
  intros He. unfold apply. rewrite He. simpl. destruct (certified g), (fleb s (lambda_hat g)); simpl;
    split; intros H; try done; by destruct H.
Qed.

(** C4. A PERMIT that passes a calibrated gate is certified: its score is at most
    the cutoff, the cutoff is a grid node lowered by the collar, the confidence
    bound on the false-permit risk of that node over the calibration set is within
    the budget, every more permissive node exceeds it, and the rate the gate reports
    is that bound.  Anything else than such a PERMIT leaves the gate as an ABSTAIN
    or as it came. *)
Theorem permit_is_certified cal a d af grid split collar est g v s :
  new_gate cal a d af grid split collar est = Ok g -> cal <> [] ->
  let sel := String.eqb est "selective" in
  let r := apply g v s in
  (c_verdict r = PERMIT ->
     v = PERMIT /\ fleb s (lambda_hat g) = true
     /\ exists j u, j < grid /\ within grid cal a (delta_permit g) sel j u
          /\ lambda_hat g = fsub (grid_node grid j) (epsilon g) /\ risk_ucb g = u
          /\ forall j', j' < j -> beyond grid cal a (delta_permit g) sel j')
  /\ (c_verdict r <> v -> v = PERMIT /\ c_verdict r = ABSTAIN).
Proof.
  intros H Hne sel r. unfold new_gate in H. repeat (case_match; [done|]). inv_bind.
  case_match; [done|]. destruct cal as [|c0 cal]; [done|]. inv_bind. subst r.
  match goal with |- context [apply ?g0 v s] => set (g := g0) in * end.
  split.
  - intros Hv. destruct (apply_cases g v s) as [[E _]|(_ & E & _)]; [|by rewrite E in Hv].
    rewrite E in Hv. subst v. split; [done|]. apply (permit_region g s eq_refl) in E as [Hc Hs].
    split; [done|]. simpl in Hc. apply collar_permit_spec in Hc as Hl.
    match goal with Hc : calibrate _ _ _ _ _ = Ok _ |- _ => rename Hc into Hcal end.
    unfold calibrate in Hcal. destruct (grid =? 1); [done|].
    destruct (calibrate_loop_spec _ _ _ _ _ _ _ _ Hcal) as [[-> _]|(j & u & Hj & Hw & Hcut & Hr & Hb)].
    { exfalso. revert Hc. unfold collar_permit. simpl. by vm_compute. }
    exists j, u. simpl. rewrite Hl, Hcut. split_and!; [lia|done..|]. intros j' Hj'. apply Hb. lia.
  - destruct (apply_cases g v s) as [[-> _]|(-> & -> & _)]; done.
Qed.

(** The forbid side certifies the unbroken run of nodes within the budget from
    the top of the grid: a deeper node that happens to pass is not used. *)
Lemma forbid_loop_spec count i grid cal a d sel best b :
  forbid_loop count i grid cal a d sel best = Ok b ->
  exists k, k <= count
    /\ (forall j, i <= j < i + k -> exists u,
          gated_ucb sel d (length cal) (forbid_risks cal (grid_node grid j)) = Ok u /\ fleb u a = true)
    /\ (k < count -> exists u,
          gated_ucb sel d (length cal) (forbid_risks cal (grid_node grid (i + k))) = Ok u
          /\ fleb u a = false)
    /\ match k with
       | O => b = best
       | S k' => exists u, b = Some (grid_node grid (i + k'), u)
                 /\ gated_ucb sel d (length cal) (forbid_risks cal (grid_node grid (i + k'))) = Ok u
       end.
Proof.
  revert i best. induction count as [|count IH]; intros i best; cbn [forbid_loop]; cbv zeta.
  - intros [= <-]. exists 0. split_and!; [lia|lia|lia|done].
  - intros H. apply result_bind_Ok in H as (u & Hu & H). destruct (fleb u a) eqn:E.
    + destruct (IH _ _ H) as (k & Hk & Hin & Hout & Hb). exists (S k).
      replace (i + S k) with (S i + k) by lia. split_and!; [lia| |intros; apply Hout; lia|].
      * intros j Hj. destruct (decide (j = i)) as [-> |]; [by exists u|]. apply Hin. lia.
      * destruct k as [|k]; [exists u; by rewrite Nat.add_0_r|].
        by replace (i + S k) with (S i + k) by lia.
    + injection H as <-. exists 0. rewrite Nat.add_0_r. split_and!; [lia|lia|by exists u|done].
Qed.

End Gate.
End CrcGate.

(** * The conformal risk gate: a calibrated gate

    The real Hoeffding-Bentkus bound on a small calibration set.  [log] is only
    called at [1 / delta]; its value there is given. *)
Import RouterDomain PdpDomain CrcGate.
Open Scope string_scope.
Open Scope list_scope.
Open Scope nat_scope.

Module CrcRuns.

(** [log(40)]. *)
Definition log40 (_ : float) : float := dec 3688879454113936 15.
Fixpoint power (p : float) (n : nat) : float :=
  match n with O => f_one | S n => fmul p (power p n) end.
Definition bound := hoeffding_bentkus_ucb log40 power.

(** Twenty safe actions of low score and three unsafe ones of high score. *)
Definition calibration : list CalibrationRecord :=
  repeat {| cal_score := dec 1 1; unsafe := false |} 20
  ++ repeat {| cal_score := dec 9 1; unsafe := true |} 3.

Definition build := new_gate bound calibration (dec 3 1) (dec 5 2) (Some (dec 1 3)) 3 (dec 5 1)
  (Some (dec 1 2)) "marginal".
Definition calibrated : ConformalRiskGate :=
  Eval vm_compute in match build with
                     | Ok g => g
                     | Err _ => {| alpha := f_zero; delta := f_zero; enabled := false; lambda_hat := f_zero;
                         empirical_risk := f_zero; risk_ucb := f_zero; n_cal := 0; certified := false;
                         alpha_forbid := f_zero; lambda_forbid := f_zero; empirical_forbid_risk := f_zero;
                         forbid_risk_ucb := f_zero; forbid_certified := false; delta_permit := f_zero;
                         delta_forbid := f_zero; epsilon := f_zero; risk_estimand := "";
                         acted_permit_ucb := f_zero; acted_forbid_ucb := f_zero; n_acted_permit := 0;
                         n_acted_forbid := 0 |}
                     end.

(** The budget excludes the node [1.0], where the unsafe actions are, and the
    collar lowers the node [0.5]. *)
Lemma build_calibrated :
  build = Ok calibrated /\ lambda_hat calibrated = dec 49 2 /\ certified calibrated = true.
Proof. vm_compute. split_and!; reflexivity. Qed.

Lemma permit_is_certified_witness :
  c_verdict (apply calibrated PERMIT (dec 3 1)) = PERMIT
  /\ exists j u, j < 3 /\ within bound 3 calibration (dec 3 1) (delta_permit calibrated) false j u.
Proof.
  destruct build_calibrated as (E & _ & _).
  assert (c_verdict (apply calibrated PERMIT (dec 3 1)) = PERMIT) as Hv by (vm_compute; reflexivity).
  split; [exact Hv|].
  assert (calibration <> []) as Hne by discriminate.
  destruct (permit_is_certified bound calibration _ _ _ _ _ _ _ calibrated PERMIT (dec 3 1) E Hne) as [H _].
  destruct (H Hv) as (_ & _ & j & u & Hj & Hw & _). exists j, u. split; [exact Hj|exact Hw].
Defined.

(** A score above the cutoff is held. *)
Example score_above_cutoff : demoted (apply calibrated PERMIT (dec 7 1)) = true.
Proof. vm_compute. reflexivity. Qed.

(** Binomial coefficients are ints that are converted to floats: with 1030
    calibration points, half of them unsafe, the bound raises. *)
Example large_calibration_raises : binom_cdf power 515 1030 (dec 6 1) = Err CrcOverflow.
Proof.
  assert (float_of_Z (comb 1030 515) = None) as H by (vm_compute; reflexivity).
  assert (binom_terms power 516 0 1030 (dec 6 1) f_zero = Err CrcOverflow) as Hb.
  { apply (binom_terms_overflow power 516 0 1030 (dec 6 1) f_zero 515); [lia|exact H]. }
  unfold binom_cdf. replace (Z.to_nat (Z.min 515 (Z.of_nat 1030) + 1)) with 516 by lia.
  rewrite Hb. reflexivity.
Qed.

End CrcRuns.
