(* ===== verification/Precedent.v ===== *)
(** * Precedent auto-resolution

    [tex/engine/precedent_influence.py]: the one stage that moves a verdict
    towards PERMIT, with its gates.  The ledger is a parameter: appending a fact
    succeeds or fails, and the caller only sees which. *)
From stdpp Require Import pretty.
From S2P Require Import Prelude PyStr PyFloat PyVal RouterDomain RouterFusion Router PyFormat PdpDomain.
Import RouterDomain RouterFusion Router PdpDomain.
Open Scope string_scope.
Open Scope list_scope.
Open Scope nat_scope.

Module Precedent.

Definition PRECEDENT_AUTORESOLVE_FLAG : string := "precedent_autoresolved".
Definition CITATION_REASON_PREFIX : string := "precedent auto-resolve:".
Definition DISCRETIONARY_ABSTAIN_FLAGS : list string :=
  ["borderline_fused_score"; "low_confidence_semantic_dimension"; "weak_semantic_evidence";
   "confidence_below_policy_minimum"; "cold_start"; "no_behavioral_history"].

(** The settings of the policy snapshot that this stage reads. *)
Record PrecedentPolicy := {
  precedent_autoresolve : bool;
  autoresolve_min_count : Z;
  autoresolve_freshness_days : Z;
  autoresolve_min_confidence : float
}.

Record RetrievedPrecedent := {
  decision_id : string;
  pr_action_type : option string;
  pr_channel : option string;
  pr_environment : option string;
  pr_metadata : pydict
}.

(** The verdict is kept as the code points of its upper case. *)
Record PrecedentResolution := {
  pr_tenant_id : string;
  resolution_verdict : list N;
  resolved_by_human : bool;
  resolved_at : Z;
  res_confidence : float;
  record_hash : string
}.

Definition edge_class_signature (a c e : option string) : option (string * string * string) :=
  match a, c, e with
  | Some a, Some c, Some e => Some (str_lower (strip a), str_lower (strip c), str_lower (strip e))
  | _, _, _ => None
  end.

Definition was_precedent_autoresolved (flags : list string) : bool :=
  bool_decide (PRECEDENT_AUTORESOLVE_FLAG ∈ flags).

Definition request_tenant (r : EvaluationRequest) : option string :=
  match agent_identity r with
  | None => None
  | Some i => if String.eqb (strip (tenant_id i)) "" then None else Some (strip (tenant_id i))
  end.

Section Parse.
(** [datetime.fromisoformat(s)] of an aware datetime, in microseconds; [None] for
    a naive or malformed one. *)
Context (fromisoformat : string -> option Z).

Definition nonblank (v : option pyval) : option string :=
  match v with
  | Some (PStr s) => if String.eqb (strip s) "" then None else Some (strip s)
  | _ => None
  end.

(** The metadata of a stored precedent is JSON: [resolved_at] is a text.
    [float(confidence)]: a [TypeError] or [ValueError] drops the precedent, the
    [OverflowError] of a large int escapes. *)
Definition parse_confidence (v : pyval) : result exn (option float) :=
  match to_float v with
  | FOk f => Ok (if unit_interval f then Some f else None)
  | FValueError | FTypeError => Ok None
  | FOverflowError => Err OverflowError
  end.

Definition parse (p : RetrievedPrecedent) : result exn (option PrecedentResolution) :=
  match mapping_at "precedent_resolution" (pr_metadata p) with
  | None => Ok None
  | Some raw =>
      match dict_get "tenant_id" raw, dict_get "resolution_verdict" raw,
            dict_get "resolved_by_human" raw, dict_get "resolved_at" raw,
            dict_get "resolution_confidence" raw, dict_get "record_hash" raw with
      | Some tenant, Some verdict, Some human, Some at_, Some conf, Some hash =>
          match nonblank (Some tenant), nonblank (Some verdict), human, nonblank (Some hash) with
          | Some tenant, Some verdict, PBool human, Some hash =>
              conf ← parse_confidence conf;
              Ok match conf, at_ with
                 | Some conf, PStr s =>
                     (fun t => {| pr_tenant_id := tenant; resolution_verdict := upper verdict;
                                  resolved_by_human := human; resolved_at := t;
                                  res_confidence := conf; record_hash := hash |})
                     <$> fromisoformat s
                 | _, _ => None
                 end
          | _, _, _, _ => Ok None
          end
      | _, _, _, _, _, _ => Ok None
      end
  end.

(** [timedelta(days=d)], in microseconds. *)
Definition days (d : Z) : Z := (d * 86400 * 1000000)%Z.

(** The gates of one precedent. *)
Definition eligible (tenant : string) (edge : string * string * string) (now freshness : Z)
    (min_conf : float) (p : RetrievedPrecedent) (res : PrecedentResolution) : bool :=
  resolved_by_human res
  && String.eqb (pr_tenant_id res) tenant
  && bool_decide (edge_class_signature (pr_action_type p) (pr_channel p) (pr_environment p) = Some edge)
  && negb (fltb (res_confidence res) min_conf)
  && negb (now <? resolved_at res)%Z
  && negb (freshness <? now - resolved_at res)%Z.

Fixpoint eligible_survivors (tenant : string) (edge : string * string * string) (now freshness : Z)
    (min_conf : float) (ps : list RetrievedPrecedent)
    : result exn (list (RetrievedPrecedent * PrecedentResolution)) :=
  match ps with
  | [] => Ok []
  | p :: ps =>
      res ← parse p;
      rest ← eligible_survivors tenant edge now freshness min_conf ps;
      Ok match res with
         | Some res => if eligible tenant edge now freshness min_conf p res
                       then (p, res) :: rest else rest
         | None => rest
         end
  end.

(** The sealed fact: what it cites. *)
Record PrecedentFact := {
  subject_id : string;
  edge_class : string;
  fact_tenant : string;
  consistent_count : nat;
  required_min_count : Z;
  freshness_days : Z;
  min_confidence : float;
  driving_record_hashes : list string;
  driving_decision_ids : list string
}.

Context {A L : Type} (append : PrecedentFact -> L -> bool * L).

Definition sorted_set (l : list string) : list string := sorted (remove_dups l).

Definition edge_str (e : string * string * string) : string :=
  let '(a, c, v) := e in a +:+ "/" +:+ c +:+ "/" +:+ v.

Definition citation (edge : string * string * string) (tenant : string) (n : nat) (min : Z)
    (hashes : list string) : string :=
  CITATION_REASON_PREFIX +:+ " ABSTAIN" +:+ arrow +:+ "PERMIT on edge-class " +:+ edge_str edge
  +:+ " for tenant " +:+ tenant +:+ " from " +:+ pretty (N.of_nat n)
  +:+ " consistent prior human PERMIT resolution(s) (min " +:+ z_str min
  +:+ "); driving record_hash(es): " +:+ String.concat ", " hashes
  +:+ "; structural floor untouched".

(** Gates 0 to 5 come first and leave the ledger alone.  [ledger] is [None] when
    the decision point has none. *)
Definition apply_precedent_autoresolve (base : RoutingResult A) (r : EvaluationRequest)
    (policy : PrecedentPolicy) (precedents : list RetrievedPrecedent) (ledger : option L)
    : result exn (RoutingResult A) * option L :=
  let flags := uncertainty_flags base in
  let edge := edge_class_signature (Some (action_type r)) (Some (channel r)) (Some (environment r)) in
  match ledger, request_tenant r, edge with
  | Some l, Some tenant, Some edge =>
      if negb (precedent_autoresolve policy) || negb (bool_decide (verdict base = ABSTAIN))
         || bool_decide (flags = [])
         || negb (forallb (fun f => bool_decide (f ∈ DISCRETIONARY_ABSTAIN_FLAGS)) flags)
      then (Ok base, ledger)
      else
        match eligible_survivors tenant edge (requested_at r) (days (autoresolve_freshness_days policy))
                (autoresolve_min_confidence policy) precedents with
        | Err e => (Err e, ledger)
        | Ok survivors =>
            if (Z.of_nat (length survivors) <? autoresolve_min_count policy)%Z
               || bool_decide (survivors = [])
               || negb (forallb (fun s => bool_decide (resolution_verdict s.2 = codes "PERMIT")) survivors)
            then (Ok base, ledger)
            else
              let hashes := sorted_set ((fun s => record_hash s.2) <$> survivors) in
              let fact := {|
                subject_id := request_id r; edge_class := edge_str edge; fact_tenant := tenant;
                consistent_count := length survivors;
                required_min_count := autoresolve_min_count policy;
                freshness_days := autoresolve_freshness_days policy;
                min_confidence := autoresolve_min_confidence policy;
                driving_record_hashes := hashes;
                driving_decision_ids := sorted_set ((fun s => decision_id s.1) <$> survivors) |} in
              let '(sealed, l) := append fact l in
              if negb sealed then (Ok base, Some l)
              else (rebuild base PERMIT
                      (reasons base ++ [citation edge tenant (length survivors)
                                          (autoresolve_min_count policy) hashes])
                      (flags ++ [PRECEDENT_AUTORESOLVE_FLAG]) (r_findings base)
                      (dict_set "precedent_autoresolve" f_one (scores base)), Some l)
        end
  | _, _, _ => (Ok base, ledger)
  end.
(** ** What an auto-resolved PERMIT rests on *)

(** A sealed human resolution of the same case: same tenant and edge class,
    PERMIT, confident, and resolved within the freshness window before the request. *)
Record supports (policy : PrecedentPolicy) (r : EvaluationRequest) (tenant : string)
    (edge : string * string * string) (p : RetrievedPrecedent) (res : PrecedentResolution) : Prop := {
  sup_parse : parse p = Ok (Some res);
  sup_human : resolved_by_human res = true;
  sup_tenant : pr_tenant_id res = tenant;
  sup_edge : edge_class_signature (pr_action_type p) (pr_channel p) (pr_environment p) = Some edge;
  sup_confidence : fltb (res_confidence res) (autoresolve_min_confidence policy) = false;
  sup_fresh : (0 <= requested_at r - resolved_at res <= days (autoresolve_freshness_days policy))%Z;
  sup_verdict : resolution_verdict res = codes "PERMIT"
}.

Record autoresolved (base out : RoutingResult A) (r : EvaluationRequest) (policy : PrecedentPolicy)
    (ps : list RetrievedPrecedent) (ledger ledger' : option L) : Prop := {
  res_enabled : precedent_autoresolve policy = true;
  res_from : verdict base = ABSTAIN;
  res_to : verdict out = PERMIT;
  res_score : final_score out = final_score base;
  res_flags : uncertainty_flags base <> []
              /\ Forall (fun f => f ∈ DISCRETIONARY_ABSTAIN_FLAGS) (uncertainty_flags base);
  res_rests_on : exists tenant edge survivors fact l l',
    request_tenant r = Some tenant
    /\ edge_class_signature (Some (action_type r)) (Some (channel r)) (Some (environment r)) = Some edge
    /\ sublist (fst <$> survivors) ps
    /\ (autoresolve_min_count policy <= Z.of_nat (length survivors))%Z
    /\ Forall (fun s => supports policy r tenant edge s.1 s.2) survivors
    /\ driving_record_hashes fact = sorted_set ((fun s => record_hash s.2) <$> survivors)
    /\ ledger = Some l /\ append fact l = (true, l') /\ ledger' = Some l'
}.

Lemma survivors_spec tenant edge now fresh conf ps survivors :
  eligible_survivors tenant edge now fresh conf ps = Ok survivors ->
  sublist (fst <$> survivors) ps
  /\ Forall (fun s => parse s.1 = Ok (Some s.2) /\ eligible tenant edge now fresh conf s.1 s.2 = true)
       survivors.
Proof.
  revert survivors. induction ps as [|p ps IH]; simpl; intros survivors H.
  - inv_bind. split; constructor.
  - inv_bind. destruct (IH _ H1) as [Hs Hf]. destruct x as [res|].
    + destruct (eligible tenant edge now fresh conf p res) eqn:E; simpl.
      * split; [by constructor|]. constructor; [by split|done].
      * split; [by constructor|done].
    + split; [by constructor|done].
Qed.

Lemma eligible_supports policy r tenant edge p res :
  eligible tenant edge (requested_at r) (days (autoresolve_freshness_days policy))
    (autoresolve_min_confidence policy) p res = true ->
  parse p = Ok (Some res) -> resolution_verdict res = codes "PERMIT" ->
  supports policy r tenant edge p res.
Proof.
  unfold eligible. rewrite !andb_true_iff, !negb_true_iff, String.eqb_eq, bool_decide_eq_true.
  rewrite !Z.ltb_ge. intros (((((? & ?) & ?) & ?) & ?) & ?) Hp Hv. constructor; auto. lia.
Qed.

(** Precedent leaves a result alone, or turns a discretionary ABSTAIN into a
    PERMIT that rests on enough consistent human resolutions and is sealed. *)
Lemma autoresolve_spec base r policy ps ledger out ledger' :
  apply_precedent_autoresolve base r policy ps ledger = (Ok out, ledger') ->
  out = base \/ autoresolved base out r policy ps ledger ledger'.
Proof.
  unfold apply_precedent_autoresolve. destruct ledger as [l|]; [|intros [= ->]; by left].
  destruct (request_tenant r) as [tenant|] eqn:Ht; [|intros [= ->]; by left].
  destruct (edge_class_signature _ _ _) as [edge|] eqn:Hedge; [|intros [= ->]; by left].
  destruct (precedent_autoresolve policy) eqn:He; simpl; [|intros [= ->]; by left].
  destruct (bool_decide_reflect (verdict base = ABSTAIN)) as [Hv|]; simpl; [|intros [= ->]; by left].
  destruct (bool_decide_reflect (uncertainty_flags base = [])) as [|Hne]; simpl; [intros [= ->]; by left|].
  destruct (forallb _ (uncertainty_flags base)) eqn:Hall; simpl; [|intros [= ->]; by left].
  destruct (eligible_survivors _ _ _ _ _ ps) as [survivors|] eqn:Hs; [|done].
  destruct (Z.ltb_spec (Z.of_nat (length survivors)) (autoresolve_min_count policy)); simpl;
    [intros [= ->]; by left|].
  destruct (bool_decide (survivors = [])); simpl; [intros [= ->]; by left|].
  destruct (forallb _ survivors) eqn:Hp; simpl; [|intros [= ->]; by left].
  match goal with |- context [append ?f l] => set (fact := f) end.
  destruct (append fact l) as [sealed l1] eqn:Happ.
  destruct sealed; simpl; [|intros [= ->]; by left]. intros H'; injection H' as H' <-. right.
  apply rebuild_fields in H' as (Hto & _ & Hscore & _). destruct (survivors_spec _ _ _ _ _ _ _ Hs) as [Hsub Hsup].
  constructor; try done.
  - split; [done|]. apply list.Forall_forall. intros f Hf. rewrite forallb_forall in Hall.
    eapply bool_decide_eq_true, Hall. by apply list_elem_of_In.
  - exists tenant, edge, survivors, fact, l, l1. split_and!; try done.
    apply list.Forall_forall. intros s Hin. rewrite list.Forall_forall in Hsup.
    destruct (Hsup s Hin) as [Hparse Hel]. apply eligible_supports; [done..|].
    rewrite forallb_forall in Hp. eapply bool_decide_eq_true, Hp. by apply list_elem_of_In.
Qed.

(** Anything but an ABSTAIN is out of its reach. *)
Lemma autoresolve_guard base r policy ps ledger :
  verdict base <> ABSTAIN ->
  apply_precedent_autoresolve base r policy ps ledger = (Ok base, ledger).
Proof.
  intros Hv. unfold apply_precedent_autoresolve.
  destruct ledger, (request_tenant r); try done.
  destruct (edge_class_signature _ _ _); try done.
  rewrite (bool_decide_eq_false_2 _ Hv). simpl. by rewrite orb_true_r.
Qed.

(** A flag outside the allowlist refuses the resolution. *)
Lemma autoresolve_refuses base r policy ps ledger f :
  f ∈ uncertainty_flags base -> f ∉ DISCRETIONARY_ABSTAIN_FLAGS ->
  apply_precedent_autoresolve base r policy ps ledger = (Ok base, ledger).
Proof.
  intros Hf Hn. unfold apply_precedent_autoresolve.
  destruct ledger, (request_tenant r); try done.
  destruct (edge_class_signature _ _ _); try done.
  assert (forallb (fun f => bool_decide (f ∈ DISCRETIONARY_ABSTAIN_FLAGS)) (uncertainty_flags base) = false)
    as ->; [|by rewrite !orb_true_r].
  apply not_true_iff_false. rewrite forallb_forall. intros H. apply Hn.
  eapply bool_decide_eq_true, H. by apply list_elem_of_In.
Qed.
End Parse.
End Precedent.
