(* ===== verification/Probguard.v ===== *)
(** * Predictive lookahead: a discrete-time Markov chain over 27 states

    [tex/systemic/probguard.py]: the band abstraction of the ecosystem, the
    learned chain with its cached transition matrix, bounded reachability by
    absorbing states, and the lookahead of a request.  The chain is written over
    an interface of arithmetic, which the program instantiates with floats; its
    theorems instantiate it with exact rationals. *)
From Stdlib Require Import SpecFloat.
From stdpp Require Import pretty.
From S2P Require Import Prelude PyStr PyFloat PyVal RouterDomain RouterFusion PyFormat PdpDomain.
Import RouterFusion PdpDomain.
Open Scope string_scope.
Open Scope list_scope.
Open Scope nat_scope.

Module Probguard.

(** ** The state abstraction *)

Definition AGENT_COUNT_BANDS : list (float * string) :=
  [(dec 1 0, "agent_none"); (dec 10 0, "agent_few"); (dec 10000 0, "agent_many")].
Definition CAPABILITY_PRESSURE_BANDS : list (float * string) :=
  [(dec 1 0, "cap_low"); (dec 5 0, "cap_med"); (dec 1000000000 0, "cap_high")].
Definition COMPROMISE_BANDS : list (float * string) :=
  [(dec 20 2, "compromise_low"); (dec 50 2, "compromise_med"); (dec 101 2, "compromise_high")].

(** The first band whose bound the value does not exceed, or the last one. *)
Fixpoint band (value : float) (table : list (float * string)) (last : string) : string :=
  match table with
  | [] => last
  | (upper, label) :: table => if fleb value upper then label else band value table label
  end.

Definition abstract_features (agent_count capability_grant_rate compromise_ratio : float) : string :=
  band agent_count AGENT_COUNT_BANDS "" +:+ ":"
  +:+ band capability_grant_rate CAPABILITY_PRESSURE_BANDS "" +:+ ":"
  +:+ band compromise_ratio COMPROMISE_BANDS "".

Definition ALL_STATES : list string :=
  Eval vm_compute in
  sorted (a ← AGENT_COUNT_BANDS; c ← CAPABILITY_PRESSURE_BANDS; m ← COMPROMISE_BANDS;
          [a.2 +:+ ":" +:+ c.2 +:+ ":" +:+ m.2]).
Definition n_states : nat := length ALL_STATES.

(** [_STATE_INDEX.get(s)]. *)
Definition state_index (s : string) : option nat :=
  fst <$> list_find (fun s' => s' = s) ALL_STATES.

(** [s.endswith(suffix)]. *)
Fixpoint endswith (suffix s : string) : bool :=
  String.eqb s suffix || match s with EmptyString => false | String _ s => endswith suffix s end.
Definition is_unsafe (s : string) : bool := endswith "compromise_high" s.

(** ** The chain *)

(** What the chain uses of its numbers. *)
Class Arith (R : Type) := {
  a0 : R;
  a1 : R;
  aadd : R -> R -> R;
  amul : R -> R -> R;
  adiv : R -> R -> R;
  asum : list R -> R;
  aiszero : R -> bool
}.
(** [n], an int that meets a number. *)
Definition anat {R} `{Arith R} (n : nat) : R := Nat.iter n (fun x => aadd x a1) a0.

#[export] Instance float_arith : Arith float := {|
  a0 := f_zero; a1 := f_one; aadd := fadd; amul := fmul; adiv := fdiv; asum := py_sum;
  aiszero := fun x => feqb x f_zero |}.

Section Chain.
Context {R : Type} `{Arith R}.

Record DTMCModel := {
  smoothing_alpha : R;
  self_loop_prior : R;
  counts : list (list R);
  dirty : bool;
  cached_matrix : option (list (list R))
}.

Definition new_model (alpha prior : R) : DTMCModel := {|
  smoothing_alpha := alpha; self_loop_prior := prior;
  counts := replicate n_states (replicate n_states a0); dirty := true; cached_matrix := None |}.

Definition observe_transition (from_state to_state : string) (m : DTMCModel) : DTMCModel :=
  match state_index from_state, state_index to_state with
  | Some i, Some j => {|
      smoothing_alpha := smoothing_alpha m; self_loop_prior := self_loop_prior m;
      counts := alter (alter (fun c => aadd c a1) j) i (counts m);
      dirty := true; cached_matrix := cached_matrix m |}
  | _, _ => m
  end.

(** Row [i] of the smoothed matrix. *)
Definition smoothed_row (alpha prior : R) (i : nat) (row : list R) : list R :=
  let row_total := aadd (aadd (asum row) (amul alpha (anat n_states))) prior in
  imap (fun j c =>
          let cell := aadd c alpha in
          adiv (if i =? j then aadd cell prior else cell) row_total) row.
Definition smoothed (m : DTMCModel) : list (list R) :=
  imap (smoothed_row (smoothing_alpha m) (self_loop_prior m)) (counts m).

Definition transition_matrix (m : DTMCModel) : list (list R) * DTMCModel :=
  match dirty m, cached_matrix m with
  | false, Some p => (p, m)
  | _, _ =>
      let p := smoothed m in
      (p, {| smoothing_alpha := smoothing_alpha m; self_loop_prior := self_loop_prior m;
             counts := counts m; dirty := false; cached_matrix := Some p |})
  end.

Definition one_hot (i : nat) : list R := <[i := a1]> (replicate n_states a0).

Definition unsafe_at (i : nat) : bool :=
  match ALL_STATES !! i with Some s => is_unsafe s | None => false end.
Definition absorbing_matrix (p : list (list R)) : list (list R) :=
  imap (fun i row => if unsafe_at i then one_hot i else row) p.

(** One step of the distribution: the rows of the states that carry mass. *)
Definition propagate (p : list (list R)) (pi : list R) : list R :=
  foldl (fun acc '(w, row) =>
           if aiszero w then acc else zip_with (fun a r => aadd a (amul w r)) acc row)
        (replicate n_states a0) (zip pi p).

(** [unsafe_order] is the order in which the set of unsafe states is iterated;
    [None] is the [ValueError] of a horizon below 1. *)
Definition reachability_probability (unsafe_order : list string) (m : DTMCModel)
    (initial_state : string) (horizon_k : Z) : option (R * DTMCModel) :=
  if (horizon_k <? 1)%Z then None
  else match state_index initial_state with
       | None => Some (a0, m)
       | Some i =>
           let '(p, m) := transition_matrix m in
           let pi := Z.iter horizon_k (propagate (absorbing_matrix p)) (one_hot i) in
           Some (asum ((fun s => default a0 (i ← state_index s; pi !! i)) <$> unsafe_order), m)
       end.
End Chain.
#[global] Arguments DTMCModel R : clear implicits.

(** ** The lookahead of a request *)

Record SystemicLookaheadOutcome := {
  lk_checked : bool;
  predictive_risk : float;
  lk_threshold : float;
  lk_horizon : pyval;
  initial_state : string;
  exceeds : bool;
  lk_reason : string
}.
Definition DEFAULT_LOOKAHEAD_THRESHOLD : float := dec 5 1.
Definition DEFAULT_LOOKAHEAD_HORIZON : Z := 10.
Definition NEUTRAL_LOOKAHEAD : SystemicLookaheadOutcome := {|
  lk_checked := false; predictive_risk := f_zero; lk_threshold := DEFAULT_LOOKAHEAD_THRESHOLD;
  lk_horizon := PInt DEFAULT_LOOKAHEAD_HORIZON; initial_state := ""; exceeds := false; lk_reason := "" |}.

(** [_as_float]: an [OverflowError] is not caught. *)
Definition as_float (v : option pyval) (default : float) : result exn float :=
  match to_float (from_option id PNone v) with
  | FOk f => Ok f
  | FTypeError | FValueError => Ok default
  | FOverflowError => Err OverflowError
  end.

(** [int(v)]; [Ok None] is a [TypeError] or [ValueError], which skips the entry;
    the [OverflowError] of an infinity is not caught. *)
Definition to_int (v : pyval) : result exn (option Z) :=
  match v with
  | PBool b => Ok (Some (if b then 1 else 0)%Z)
  | PInt z => Ok (Some z)
  | PFloat (S754_infinity _) => Err OverflowError
  | PFloat S754_nan => Ok None
  | PFloat (S754_zero _) => Ok (Some 0%Z)
  | PFloat (S754_finite s m e) =>
      let k := if (0 <=? e)%Z then (Zpos m * 2 ^ e)%Z else (Zpos m / 2 ^ (- e))%Z in
      Ok (Some (if s then (- k)%Z else k))
  | PStr s => Ok (int_of_string s)
  | PNone | PList _ | PDict _ | PObj _ => Ok None
  end.

Section Lookahead.
Context (str_container : pyval -> string).
Context (unsafe_order : list string).

Definition observe_triple (triple : pyval) (m : DTMCModel float) : result exn (DTMCModel float) :=
  match triple with
  | PList [frm; to; count] =>
      n ← to_int count;
      Ok match n with
         | None => m
         | Some n =>
             Z.iter (Z.max 0 (Z.min n 100000))
               (observe_transition (py_str_of str_container frm) (py_str_of str_container to)) m
         end
  | _ => Ok m
  end.
Fixpoint observe_triples (l : list pyval) (m : DTMCModel float) : result exn (DTMCModel float) :=
  match l with
  | [] => Ok m
  | t :: l => m ← observe_triple t m; observe_triples l m
  end.
Definition fresh_model : DTMCModel float := new_model (dec 5 2) (dec 50 0).
Definition model_from_counts (raw : option pyval) : result exn (DTMCModel float) :=
  match raw with Some (PList l) => observe_triples l fresh_model | _ => Ok fresh_model end.

(** An [int], which a bool is, of at least 1, with the value to iterate. *)
Definition horizon_of (raw : pydict) : pyval * Z :=
  match dict_get "horizon_k" raw with
  | Some (PInt z) => if (z <? 1)%Z then (PInt DEFAULT_LOOKAHEAD_HORIZON, DEFAULT_LOOKAHEAD_HORIZON)
                     else (PInt z, z)
  | Some (PBool true) => (PBool true, 1%Z)
  | _ => (PInt DEFAULT_LOOKAHEAD_HORIZON, DEFAULT_LOOKAHEAD_HORIZON)
  end.

Definition initial_state_of (raw : pydict) : result exn string :=
  let features :=
    a ← as_float (dict_get "agent_count" raw) f_zero;
    c ← as_float (dict_get "capability_grant_rate" raw) f_zero;
    m ← as_float (dict_get "compromise_ratio" raw) f_zero;
    Ok (abstract_features a c m) in
  match dict_get "abstraction_id" raw with
  | Some (PStr s) => if bool_decide (s ∈ ALL_STATES) then Ok s else features
  | _ => features
  end.

Definition lookahead_reason (h : pyval) (s : string) (risk threshold : float) : string :=
  "Pro2Guard predictive lookahead: P[reach unsafe " +:+ leq_sign +:+ py_str_of str_container h
  +:+ " steps | " +:+ s +:+ "] = " +:+ fixed 3 risk +:+ " " +:+ geq_sign +:+ " " +:+ theta +:+ "="
  +:+ fixed 3 threshold +:+ " " +:+ emdash
  +:+ " forward-looking systemic risk; holding for review (PERMIT" +:+ arrow +:+ "ABSTAIN).".

Definition evaluate_systemic_lookahead (r : EvaluationRequest) : result exn SystemicLookaheadOutcome :=
  match mapping_at "systemic_lookahead" (metadata r) with
  | None => Ok NEUTRAL_LOOKAHEAD
  | Some raw =>
      s ← initial_state_of raw;
      let '(h, k) := horizon_of raw in
      t ← as_float (dict_get "threshold" raw) DEFAULT_LOOKAHEAD_THRESHOLD;
      let t := fmax f_zero (fmin f_one t) in
      m ← model_from_counts (dict_get "transition_counts" raw);
      match reachability_probability unsafe_order m s k with
      | None => Err (PydanticError RouterDomain.ValueError)
      | Some (risk, _) =>
          let exceeds := fleb t risk in
          Ok {| lk_checked := true; predictive_risk := risk; lk_threshold := t; lk_horizon := h;
                initial_state := s; exceeds := exceeds;
                lk_reason := if exceeds then lookahead_reason h s risk t else "" |}
      end
  end.
End Lookahead.
End Probguard.
