(* ===== verification/ProbguardSpec.v ===== *)
(** * Bounded reachability of the predictive lookahead

    The abstraction lands in the 27 states, the cached matrix is the one the
    counts give, and in exact arithmetic the absorbing-state propagation computes
    bounded reachability: the recursion on the first step of the chain. *)
From Stdlib Require Import Qcanon.
From stdpp Require Import numbers.
From Stdlib Require Import QArith Qcanon.
From S2P Require Import Prelude PyStr PyFloat PyVal PdpDomain Probguard.
Import PdpDomain Probguard.
Open Scope string_scope.
Open Scope list_scope.
Open Scope nat_scope.

Module ProbguardSpec.

(** ** The abstraction *)

Lemma band_cases value a b c x y z last :
  band value [(a, x); (b, y); (c, z)] last ∈ [x; y; z].
Proof. simpl. repeat case_match; set_solver. Qed.

(** C36. The abstraction of any three numbers, infinities and NaN included, is
    one of the 27 states of the chain: the state space is exhaustive. *)
Theorem abstraction_exhaustive a c m : is_Some (state_index (abstract_features a c m)).
Proof.
  unfold abstract_features.
  pose proof (band_cases a (dec 1 0) (dec 10 0) (dec 10000 0) "agent_none" "agent_few" "agent_many" "") as Ha.
  pose proof (band_cases c (dec 1 0) (dec 5 0) (dec 1000000000 0) "cap_low" "cap_med" "cap_high" "") as Hc.
  pose proof (band_cases m (dec 20 2) (dec 50 2) (dec 101 2)
                "compromise_low" "compromise_med" "compromise_high" "") as Hm.
  fold AGENT_COUNT_BANDS in Ha. fold CAPABILITY_PRESSURE_BANDS in Hc. fold COMPROMISE_BANDS in Hm.
  rewrite !elem_of_cons, elem_of_nil in Ha, Hc, Hm.
  destruct Ha as [-> |[-> |[-> |[]]]], Hc as [-> |[-> |[-> |[]]]], Hm as [-> |[-> |[-> |[]]]];
    vm_compute; eauto.
Qed.

(** ** The cache *)

Section Cache.
Context {R : Type} `{Arith R}.

Definition cache_ok (m : DTMCModel R) : Prop :=
  dirty m = false -> cached_matrix m = Some (smoothed m).

(** The models the program reaches from a fresh one. *)
Inductive learned (alpha prior : R) : DTMCModel R -> Prop :=
| learned_new : learned alpha prior (new_model alpha prior)
| learned_observe m a b : learned alpha prior m -> learned alpha prior (observe_transition a b m)
| learned_read m : learned alpha prior m -> learned alpha prior (transition_matrix m).2.

Lemma transition_matrix_fresh m : cache_ok m -> (transition_matrix m).1 = smoothed m.
Proof.
  unfold transition_matrix. intros Hc.
  destruct (dirty m) eqn:Hd; [done|]. by rewrite (Hc Hd).
Qed.
Lemma transition_matrix_keeps m :
  counts (transition_matrix m).2 = counts m
  /\ smoothing_alpha (transition_matrix m).2 = smoothing_alpha m
  /\ self_loop_prior (transition_matrix m).2 = self_loop_prior m.
Proof. unfold transition_matrix. by repeat case_match. Qed.
Lemma observe_keeps a b m :
  smoothing_alpha (observe_transition a b m) = smoothing_alpha m
  /\ self_loop_prior (observe_transition a b m) = self_loop_prior m.
Proof. unfold observe_transition. by repeat case_match. Qed.

Lemma learned_cache alpha prior m : learned alpha prior m -> cache_ok m.
Proof.
  induction 1 as [|m a b _ IH|m _ IH]; [done| |].
  - unfold observe_transition. by repeat case_match.
  - unfold transition_matrix. destruct (dirty m) eqn:Hd; [done|].
    by rewrite (IH Hd).
Qed.
End Cache.

(** ** Exact arithmetic *)

Open Scope Qc_scope.

Fixpoint qsum (l : list Qc) : Qc :=
  match l with [] => 0 | x :: l => x + qsum l end.
#[export] Instance exact_arith : Arith Qc := {|
  a0 := 0; a1 := 1; aadd := Qcplus; amul := Qcmult; adiv := Qcdiv; asum := qsum;
  aiszero := fun x => bool_decide (x = 0) |}.

Definition dot (u v : list Qc) : Qc := qsum (zip_with Qcmult u v).

Lemma qsum_scale w l : qsum ((fun x => w * x) <$> l) = w * qsum l.
Proof. induction l as [|x l IH]; [cbn; ring|]. rewrite fmap_cons. cbn [qsum]. rewrite IH. ring. Qed.
Lemma qsum_perm l l' : l ≡ₚ l' -> qsum l = qsum l'.
Proof. induction 1; simpl; try congruence. ring. Qed.

Lemma dot_axpy w acc row v :
  length acc = length row ->
  dot (zip_with (fun a r => a + w * r) acc row) v = dot acc v + w * dot row v.
Proof.
  unfold dot. revert row v. induction acc as [|a acc IH]; intros [|r row] v Hl; simplify_eq/=; [ring|].
  destruct v as [|x v]; simpl; [ring|]. rewrite IH by done. ring.
Qed.
Lemma dot_zero n v : dot (replicate n 0) v = 0.
Proof.
  unfold dot. revert v. induction n as [|n IH]; intros [|x v]; simpl; try done. rewrite IH. ring.
Qed.
Lemma dot_one_hot n i v :
  length v = n -> dot (<[i := 1]> (replicate n 0)) v = default 0 (v !! i).
Proof.
  intros <-. revert i. induction v as [|x v IH]; intros [|i]; unfold dot in *; simpl; try done.
  - fold (dot (replicate (length v) 0) v). rewrite dot_zero. ring.
  - rewrite IH. ring.
Qed.

Definition square (p : list (list Qc)) : Prop :=
  length p = n_states /\ Forall (fun row => length row = n_states) p.

Lemma propagate_length (p : list (list Qc)) pi :
  Forall (fun row => length row = n_states) p -> length (propagate p pi) = n_states.
Proof.
  unfold propagate. generalize (length_replicate n_states (0 : Qc)). change (@a0 Qc _) with 0.
  generalize (replicate n_states 0) as acc. revert pi.
  induction p as [|row p IH]; intros [|w pi] acc Hacc Hp; simpl; try done.
  inversion Hp; subst. apply IH; [|done]. case_bool_decide; [done|].
  rewrite length_zip_with. lia.
Qed.

(** Pushing a distribution through the matrix, then weighing it, is weighing it
    with the matrix applied to the weights. *)
Lemma dot_propagate (p : list (list Qc)) pi v :
  Forall (fun row => length row = n_states) p ->
  dot (propagate p pi) v = dot pi ((fun row => dot row v) <$> p).
Proof.
  unfold propagate. change (@a0 Qc _) with 0. intros Hp.
  assert (forall acc, length acc = n_states ->
    dot (foldl (fun acc '(w, row) =>
           if aiszero w then acc else zip_with (fun a r => aadd a (amul w r)) acc row) acc (zip pi p)) v
    = dot acc v + dot pi ((fun row => dot row v) <$> p)) as Hgen.
  { revert pi. induction Hp as [|row p Hrow Hp IH]; intros [|w pi] acc Hacc; unfold dot; simpl; try ring.
    fold (dot pi ((fun row => dot row v) <$> p)). fold (dot row v).
    match goal with |- qsum (zip_with _ ?a _) = _ => change (dot a v = dot acc v + (w * dot row v + dot pi ((fun row => dot row v) <$> p))) end.
    case_bool_decide as Hw.
    - rewrite IH by done. subst w. ring.
    - rewrite IH by (rewrite length_zip_with; lia). rewrite dot_axpy by lia. ring. }
  rewrite Hgen by apply length_replicate. rewrite dot_zero. ring.
Qed.

(** ** Bounded reachability *)

Definition row_at (p : list (list Qc)) (i : nat) : list Qc := default [] (p !! i).

(** The probability of meeting an unsafe state within [k] steps from state [i]. *)
Fixpoint reach_within (p : list (list Qc)) (k i : nat) : Qc :=
  if unsafe_at i then 1
  else match k with
       | O => 0
       | S k => dot (row_at p i) (reach_within p k <$> seq 0 n_states)
       end.
Definition reach_vec (p : list (list Qc)) (k : nat) : list Qc := reach_within p k <$> seq 0 n_states.

Lemma reach_vec_length p k : length (reach_vec p k) = n_states.
Proof. unfold reach_vec. by rewrite length_fmap, length_seq. Qed.
Lemma reach_vec_lookup p k i : (i < n_states)%nat -> reach_vec p k !! i = Some (reach_within p k i).
Proof. intros Hi. unfold reach_vec. rewrite list_lookup_fmap, lookup_seq_lt; done. Qed.

(** One backward step over the absorbing matrix. *)
Lemma backward_step p k :
  square p -> (fun row => dot row (reach_vec p k)) <$> absorbing_matrix p = reach_vec p (S k).
Proof.
  intros [Hl Hr]. apply list_eq. intros i. unfold absorbing_matrix.
  rewrite list_lookup_fmap, list_lookup_imap.
  destruct (decide (i < n_states)%nat) as [Hi|Hi].
  - rewrite reach_vec_lookup by done. destruct (lookup_lt_is_Some_2 p i) as [row Hrow]; [lia|].
    rewrite Hrow. simpl. unfold row_at. rewrite Hrow. simpl. destruct (unsafe_at i) eqn:Hu; [|done].
    unfold one_hot. change (@a1 Qc _) with 1. change (@a0 Qc _) with 0.
    rewrite dot_one_hot by apply reach_vec_length. rewrite reach_vec_lookup by done. simpl.
    by destruct k; simpl; rewrite Hu.
  - rewrite (lookup_ge_None_2 p) by lia. symmetry. apply lookup_ge_None_2.
    rewrite reach_vec_length. lia.
Qed.

Lemma one_hot_length i : length (one_hot i : list Qc) = n_states.
Proof. unfold one_hot. by rewrite length_insert, length_replicate. Qed.
Lemma absorbing_rows p :
  square p -> Forall (fun row => length row = n_states) (absorbing_matrix p).
Proof.
  intros [_ Hp]. unfold absorbing_matrix. apply Forall_lookup. intros i row. rewrite list_lookup_imap.
  destruct (p !! i) as [row'|] eqn:E; [|done]. intros [= <-]. destruct (unsafe_at i).
  - apply one_hot_length.
  - eapply Forall_lookup in Hp; done.
Qed.
Lemma distribution_length p k i :
  square p -> length (Nat.iter k (propagate (absorbing_matrix p)) (one_hot i)) = n_states.
Proof.
  intros Hp. destruct k; [apply one_hot_length|]. apply propagate_length, absorbing_rows, Hp.
Qed.

Lemma propagate_reach p k j pi :
  square p ->
  dot (Nat.iter k (propagate (absorbing_matrix p)) pi) (reach_vec p j) = dot pi (reach_vec p (k + j)).
Proof.
  intros Hp. pose proof (absorbing_rows p Hp) as Ha.
  revert j. induction k as [|k IH]; intros j; simpl; [done|].
  rewrite dot_propagate by done. rewrite backward_step by done. rewrite IH.
  by rewrite Nat.add_succ_r.
Qed.

Lemma state_index_lt s i : state_index s = Some i -> (i < n_states)%nat.
Proof.
  unfold state_index. intros ([j x] & E & ->)%fmap_Some. apply list_find_Some in E as [E _].
  by apply lookup_lt_Some in E.
Qed.

(** The unsafe states, whatever the order of the set. *)
Definition unsafe_set : list string := List.filter is_unsafe ALL_STATES.
Definition unsafe_indices : list nat := List.filter unsafe_at (seq 0 n_states).

Lemma unsafe_set_indices : state_index <$> unsafe_set = Some <$> unsafe_indices.
Proof. vm_compute. reflexivity. Qed.

Lemma sum_indicator (g : nat -> bool) (pi : list Qc) o :
  qsum ((fun i => default 0 (pi !! (i - o)%nat)) <$> List.filter g (seq o (length pi)))
  = dot pi ((fun i => if g i then 1 else 0) <$> seq o (length pi)).
Proof.
  revert o. induction pi as [|x pi IH]; intros o; [done|]. cbn [length seq]. rewrite fmap_cons.
  unfold dot. cbn [zip_with qsum]. fold (dot pi ((fun i => if g i then 1 else 0) <$> seq (S o) (length pi))).
  rewrite <- IH. cbn [List.filter].
  assert ((fun i => default 0 ((x :: pi) !! (i - o)%nat)) <$> List.filter g (seq (S o) (length pi))
          = (fun i => default 0 (pi !! (i - S o)%nat)) <$> List.filter g (seq (S o) (length pi))) as Heq.
  { apply list_fmap_ext. intros k i Hi. f_equal. apply list_elem_of_lookup_2, list_elem_of_In, filter_In in Hi as [Hi _].
    apply in_seq in Hi. replace (i - o)%nat with (S (i - S o)) by lia. done. }
  destruct (g o); [rewrite fmap_cons; cbn [qsum]; rewrite Nat.sub_diag; simpl|]; rewrite Heq; ring.
Qed.

Lemma unsafe_mass p order pi :
  order ≡ₚ unsafe_set -> length pi = n_states ->
  qsum ((fun s => default 0 (i ← state_index s; pi !! i)) <$> order) = dot pi (reach_vec p 0).
Proof.
  intros Ho Hl. rewrite (qsum_perm _ _ (fmap_Permutation _ _ _ Ho)).
  set (mass := fun o : option nat => default 0 (i ← o; pi !! i)).
  transitivity (qsum (mass <$> (state_index <$> unsafe_set))); [by rewrite <- list_fmap_compose|].
  rewrite unsafe_set_indices, <- list_fmap_compose.
  pose proof (sum_indicator unsafe_at pi 0) as H. rewrite Hl in H.
  transitivity (dot pi ((fun i => if unsafe_at i then 1 else 0) <$> seq 0 n_states)); [|done].
  rewrite <- H. apply f_equal, list_fmap_ext. intros k i _. simpl. by rewrite Nat.sub_0_r.
Qed.

Lemma smoothed_square (m : DTMCModel Qc) : square (counts m) -> square (smoothed m).
Proof.
  intros [Hl Hr]. unfold smoothed. split; [by rewrite length_imap|].
  apply Forall_lookup. intros i row. rewrite list_lookup_imap.
  destruct (counts m !! i) as [row'|] eqn:E; [|done]. intros [= <-].
  unfold smoothed_row. rewrite length_imap. eapply Forall_lookup in Hr; done.
Qed.

(** The lookahead's number is bounded reachability. *)
Lemma reachability_spec (m : DTMCModel Qc) order s i k :
  square (counts m) -> cache_ok m -> order ≡ₚ unsafe_set -> state_index s = Some i -> (1 <= k)%Z ->
  fst <$> reachability_probability order m s k = Some (reach_within (smoothed m) (Z.to_nat k) i).
Proof.
  intros Hsq Hc Ho Hs Hk. unfold reachability_probability. rewrite (proj2 (Z.ltb_ge _ _)) by lia.
  rewrite Hs. destruct (transition_matrix m) as [p m'] eqn:Hp.
  assert (p = smoothed m) as ->.
  { pose proof (transition_matrix_fresh m Hc) as H. by rewrite Hp in H. }
  simpl. f_equal. apply smoothed_square in Hsq.
  assert (Z.iter k (propagate (absorbing_matrix (smoothed m))) (one_hot i)
          = Nat.iter (Z.to_nat k) (propagate (absorbing_matrix (smoothed m))) (one_hot i)) as ->.
  { rewrite iter_nat_of_Z by lia. by rewrite Zabs2Nat.abs_nat_nonneg by lia. }
  change (@asum Qc _) with qsum. change (@a0 Qc _) with 0.
  pose proof (state_index_lt _ _ Hs) as Hi.
  rewrite (unsafe_mass (smoothed m)) by (done || by apply distribution_length).
  rewrite propagate_reach by done. rewrite Nat.add_0_r. unfold one_hot.
  change (@a1 Qc _) with 1. change (@a0 Qc _) with 0.
  rewrite dot_one_hot by apply reach_vec_length. by rewrite reach_vec_lookup.
Qed.

(** ** Probabilities *)

Definition nonneg (l : list Qc) : Prop := Forall (fun x => 0 <= x) l.

Lemma qsum_nonneg l : nonneg l -> 0 <= qsum l.
Proof. induction 1; cbn [qsum]; [apply Qcle_refl|]. by apply Qcplus_nonneg_nonneg. Qed.
Lemma dot_mono row v w :
  nonneg row -> Forall2 Qcle v w -> dot row v <= dot row w.
Proof.
  intros Hr. revert v w. induction Hr as [|x row Hx Hr IH]; intros v w Hvw; [apply Qcle_refl|].
  destruct Hvw as [|a b v w Hab Hvw]; [apply Qcle_refl|].
  unfold dot. cbn [zip_with qsum]. apply Qcplus_le_compat; [|by apply IH].
  by apply Qcmult_le_mono_nonneg_l.
Qed.
Lemma dot_const row n c : length row = n -> dot row (replicate n c) = c * qsum row.
Proof.
  intros <-. induction row as [|x row IH]; unfold dot in *; cbn; [ring|]. rewrite IH. ring.
Qed.

(** A row of a transition matrix: one probability per state. *)
Definition distribution (row : list Qc) : Prop :=
  length row = n_states /\ nonneg row /\ qsum row = 1.

Lemma dot_bounds row v :
  distribution row -> length v = n_states -> Forall (fun x => 0 <= x /\ x <= 1) v ->
  0 <= dot row v /\ dot row v <= 1.
Proof.
  intros (Hl & Hn & Hs) Hv Hb.
  assert (Forall2 Qcle (replicate n_states 0) v /\ Forall2 Qcle v (replicate n_states 1)) as [H0 H1].
  { rewrite <- Hv. clear Hv. induction Hb as [|x v [? ?] _ [IH0 IH1]]; simpl; split; constructor; done. }
  apply (dot_mono row) in H0; [|done]. apply (dot_mono row) in H1; [|done].
  rewrite dot_const in H0, H1 by done. rewrite Hs in *.
  replace (0 * 1) with 0 in H0 by ring. by replace (1 * 1) with 1 in H1 by ring.
Qed.

Lemma row_at_distribution p i : Forall distribution p -> (i < length p)%nat -> distribution (row_at p i).
Proof.
  intros Hp Hi. unfold row_at. destruct (lookup_lt_is_Some_2 p i Hi) as [row E]. rewrite E.
  by eapply Forall_lookup in Hp.
Qed.

Section Chain.
Context (p : list (list Qc)) (Hlen : length p = n_states) (Hdist : Forall distribution p).

Lemma reach_unit k i : (i < n_states)%nat -> 0 <= reach_within p k i /\ reach_within p k i <= 1.
Proof.
  revert i. induction k as [|k IH]; intros i Hi; cbn [reach_within]; destruct (unsafe_at i); try done.
  apply dot_bounds; [apply row_at_distribution; [done|lia]|apply (reach_vec_length p k)|].
  apply list.Forall_forall. intros x (j & -> & Hj)%list_elem_of_fmap. apply IH.
  apply elem_of_seq in Hj. lia.
Qed.

Lemma reach_step k i : (i < n_states)%nat -> reach_within p k i <= reach_within p (S k) i.
Proof.
  revert i. induction k as [|k IH]; intros i Hi.
  - pose proof (reach_unit 1 i Hi) as Hb. cbn [reach_within] in *.
    destruct (unsafe_at i); [apply Qcle_refl|apply Hb].
  - cbn [reach_within]. destruct (unsafe_at i) eqn:Hu; [apply Qcle_refl|].
    apply dot_mono; [apply (row_at_distribution p i Hdist); lia|].
    fold (reach_vec p k). change (Forall2 Qcle (reach_vec p k) (reach_vec p (S k))).
    apply Forall2_fmap, Forall_Forall2_diag, list.Forall_forall. intros j Hj.
    apply IH. apply elem_of_seq in Hj. lia.
Qed.
Lemma reach_mono k k' i :
  (k <= k')%nat -> (i < n_states)%nat -> reach_within p k i <= reach_within p k' i.
Proof.
  intros Hk Hi. induction Hk as [|k' Hk IH]; [apply Qcle_refl|].
  eapply Qcle_trans; [exact IH|by apply reach_step].
Qed.
End Chain.

(** ** The learned matrix *)

Lemma anat_S n : anat (S n) = anat n + 1 :> Qc.
Proof. done. Qed.

(** The numerators of a row off the diagonal, and with it. *)
Lemma sum_plain alpha t (row : list Qc) :
  qsum (imap (fun _ c => (c + alpha) / t) row) = (qsum row + alpha * anat (length row)) / t.
Proof.
  induction row as [|c row IH]; [cbn; unfold Qcdiv; ring|].
  rewrite imap_cons. cbn [qsum length]. unfold compose. rewrite IH, anat_S. unfold Qcdiv. ring.
Qed.
Lemma sum_cells alpha prior t i (row : list Qc) :
  (i < length row)%nat ->
  qsum (imap (fun j c => (if (i =? j)%nat then c + alpha + prior else c + alpha) / t) row)
  = (qsum row + alpha * anat (length row) + prior) / t.
Proof.
  revert i. induction row as [|c row IH]; cbn [length]; intros i Hi; [lia|].
  rewrite imap_cons. cbn [qsum]. unfold compose. destruct i as [|i]; cbn [Nat.eqb].
  - rewrite sum_plain, anat_S. unfold Qcdiv. ring.
  - rewrite IH by lia. rewrite anat_S. unfold Qcdiv. ring.
Qed.

Section Learned.
Context (alpha prior : Qc) (Halpha : 0 < alpha) (Hprior : 0 <= prior).

Lemma row_total_pos row :
  nonneg row -> 0 < qsum row + alpha * anat n_states + prior.
Proof.
  intros Hn. apply Qcplus_pos_nonneg; [|done]. apply Qcplus_nonneg_pos; [by apply qsum_nonneg|].
  apply Qcmult_pos_pos; [done|]. vm_compute. done.
Qed.

Lemma smoothed_row_distribution i row :
  length row = n_states -> nonneg row -> (i < n_states)%nat ->
  distribution (smoothed_row alpha prior i row).
Proof.
  intros Hl Hn Hi. pose proof (row_total_pos row Hn) as Ht. unfold smoothed_row, distribution.
  change (@aadd Qc _) with Qcplus. change (@amul Qc _) with Qcmult. change (@adiv Qc _) with Qcdiv.
  change (@asum Qc _) with qsum. set (t := qsum row + alpha * anat n_states + prior) in *.
  split_and!.
  - by rewrite length_imap.
  - apply Forall_lookup. intros j x. rewrite list_lookup_imap.
    destruct (row !! j) as [c|] eqn:E; [|done]. intros [= <-]. apply Qcmult_nonneg_nonneg.
    + assert (0 <= c) by (by eapply Forall_lookup in Hn).
      assert (0 <= c + alpha) by (apply Qcplus_nonneg_nonneg; [done|by apply Qclt_le_weak]).
      destruct (i =? j)%nat; [by apply Qcplus_nonneg_nonneg|done].
    + by apply Qclt_le_weak, Qcinv_pos.
  - rewrite sum_cells by lia. rewrite Hl. fold t. apply Qcmult_inv_r.
    intros H. by rewrite H in Ht.
Qed.

(** What holds of every model reached from a fresh one. *)
Record wf (m : DTMCModel Qc) : Prop := {
  wf_alpha : smoothing_alpha m = alpha;
  wf_prior : self_loop_prior m = prior;
  wf_square : square (counts m);
  wf_nonneg : Forall nonneg (counts m)
}.

Lemma Forall_alter_keeps {A} (P : A -> Prop) f i l :
  (forall x, P x -> P (f x)) -> Forall P l -> Forall P (alter f i l).
Proof. intros Hf Hl. apply Forall_alter; [done|]. intros x _ Hx. by apply Hf. Qed.

Lemma learned_wf m : learned alpha prior m -> wf m.
Proof.
  induction 1 as [|m a b _ [Ha Hp [Hl Hs] Hn]|m _ [Ha Hp Hs Hn]].
  - constructor; [done..| |].
    + split; [apply length_replicate|]. apply Forall_replicate, length_replicate.
    + apply Forall_replicate, Forall_replicate. apply Qcle_refl.
  - destruct (observe_keeps a b m) as [Hka Hkp].
    constructor; [by rewrite Hka|by rewrite Hkp|..]; unfold observe_transition; repeat case_match; try done; simpl.
    + split; [by rewrite length_alter|]. apply Forall_alter_keeps; [|done].
      intros row. by rewrite length_alter.
    + apply Forall_alter_keeps; [|done]. intros row Hrow. apply Forall_alter_keeps; [|done].
      intros x Hx. by apply Qcplus_nonneg_nonneg.
  - destruct (transition_matrix_keeps m) as (Hkc & Hka & Hkp).
    constructor; rewrite ?Hkc, ?Hka, ?Hkp; done.
Qed.

Lemma smoothed_distributions m : wf m -> Forall distribution (smoothed m).
Proof.
  intros [Ha Hp [Hl Hs] Hn]. apply Forall_lookup. intros i row. unfold smoothed.
  rewrite list_lookup_imap. destruct (counts m !! i) as [c|] eqn:E; [|done]. intros [= <-].
  rewrite Ha, Hp. apply smoothed_row_distribution.
  - by eapply Forall_lookup in Hs.
  - by eapply Forall_lookup in Hn.
  - rewrite <- Hl. by apply lookup_lt_Some in E.
Qed.
End Learned.

(** C34. The absorbing-state propagation computes bounded reachability: for any
    model learned from observations, any horizon and any order in which the set of
    unsafe states is iterated, its exact value is the first-step recursion over
    the smoothed matrix. *)
Theorem reachability_exact alpha prior m order s i k :
  0 < alpha -> 0 <= prior -> learned alpha prior m -> order ≡ₚ unsafe_set ->
  state_index s = Some i -> (1 <= k)%Z ->
  fst <$> reachability_probability order m s k = Some (reach_within (smoothed m) (Z.to_nat k) i).
Proof.
  intros Ha Hp Hm. apply reachability_spec; [by eapply learned_wf|by eapply learned_cache].
Qed.

(** C35. In exact (rational) arithmetic that number is a probability, and looking further
    ahead never lowers it, for any model learned from observations with a positive
    smoothing and any order of the unsafe states. The code computes the same expressions in
    floats, whose rounding can carry the number above 1 ([float_exceeds_one]). *)
Theorem reachability_is_probability alpha prior m order s k k' :
  0 < alpha -> 0 <= prior -> learned alpha prior m -> order ≡ₚ unsafe_set ->
  is_Some (state_index s) -> (1 <= k <= k')%Z ->
  exists x x', fst <$> reachability_probability order m s k = Some x
    /\ fst <$> reachability_probability order m s k' = Some x'
    /\ 0 <= x /\ x <= x' /\ x' <= 1.
Proof.
  intros Ha Hp Hm Ho [i Hs] Hk. pose proof (learned_wf _ _ _ Hm) as Hwf.
  pose proof (smoothed_distributions _ _ Ha Hp _ Hwf) as Hd. pose proof (state_index_lt _ _ Hs) as Hi.
  destruct (smoothed_square m) as [Hl _]; [apply Hwf|].
  exists (reach_within (smoothed m) (Z.to_nat k) i), (reach_within (smoothed m) (Z.to_nat k') i).
  split_and!; [apply reachability_spec; (apply Hwf || by eapply learned_cache || lia || done)..| | |].
  - by apply reach_unit.
  - apply reach_mono; [done..|lia|done].
  - by apply reach_unit.
Qed.

End ProbguardSpec.

(** * Predictive lookahead: a small chain *)
Import Probguard ProbguardSpec.
Open Scope string_scope.
Open Scope list_scope.
Open Scope Qc_scope.

Module ProbguardRuns.

Definition alpha : Qc := Q2Qc (1 # 20).
Definition prior : Qc := Q2Qc 50.
Definition calm_state : string := "agent_few:cap_low:compromise_low".
Definition unsafe_state : string := "agent_few:cap_low:compromise_high".

(** The program's smoothing, after one transition into an unsafe state. *)
Definition chain : DTMCModel Qc := observe_transition calm_state unsafe_state (new_model alpha prior).
Lemma chain_learned : learned alpha prior chain.
Proof. apply learned_observe, learned_new. Qed.

Lemma alpha_pos : 0 < alpha.
Proof. reflexivity. Qed.
Lemma prior_nonneg : 0 <= prior.
Proof. discriminate. Qed.

Lemma reachability_exact_witness :
  fst <$> reachability_probability unsafe_set chain calm_state 3
  = Some (reach_within (smoothed chain) 3 (default 0%nat (state_index calm_state))).
Proof.
  apply (reachability_exact alpha prior chain unsafe_set calm_state _ 3 alpha_pos prior_nonneg
           chain_learned (Permutation_refl _)); [vm_compute; reflexivity|lia].
Defined.

Lemma reachability_is_probability_witness :
  exists x x', fst <$> reachability_probability unsafe_set chain calm_state 1 = Some x
    /\ fst <$> reachability_probability unsafe_set chain calm_state 10 = Some x'
    /\ 0 <= x /\ x <= x' /\ x' <= 1.
Proof.
  apply (reachability_is_probability alpha prior chain unsafe_set calm_state 1 10 alpha_pos prior_nonneg
           chain_learned (Permutation_refl _)); [eexists; vm_compute; reflexivity|lia].
Defined.

(** The float instance: 220 transitions from every safe state into one unsafe state, and
    the sum of the absorbed mass after twenty steps is above 1. *)
Definition seen_220 (m : DTMCModel float) (s : string) : DTMCModel float :=
  if is_unsafe s then m else Nat.iter 220 (observe_transition s "agent_few:cap_high:compromise_high") m.
Example float_exceeds_one :
  (fun r => fltb f_one r.1) <$> reachability_probability unsafe_set (foldl seen_220 fresh_model ALL_STATES) calm_state 20
  = Some true.
Proof. vm_compute. reflexivity. Qed.

End ProbguardRuns.
