(* ===== verification/Holds.v ===== *)
(** * The monotone holds after routing

    [apply_predictive_holds] of [tex/systemic/probguard.py], [apply_risk_spine]
    of [tex/engine/risk_spine.py] and [apply_pq_durability_hold] of
    [tex/pqcrypto/pq_durability.py]: each may turn a PERMIT into an ABSTAIN that
    carries its flag, and does nothing else.  What the risk spine observed is an
    argument; so are the id of the signing backend and the ledger. *)
From S2P Require Import Prelude PyStr PyFloat PyVal LtlfEval RouterDomain RouterFusion Router PyFormat PdpDomain.
From S2P Require Import Rv4Path Probguard.
Import RouterDomain RouterFusion Router PdpDomain.
Open Scope string_scope.
Open Scope list_scope.
Open Scope nat_scope.

Module Holds.

Definition is_permit {A} (base : RoutingResult A) : bool := bool_decide (verdict base = PERMIT).

(** ** Predictive holds *)

Definition SYSTEMIC_LOOKAHEAD_FLAG : string := "systemic_lookahead_risk".
Definition RV4_RECOVERABLE_FLAG : string := "rv4_recoverable_violation".

Definition rv4_value (v : LtlfEval.RV4Verdict) : string :=
  match v with
  | LtlfEval.CURRENTLY_SATISFIED => "currently_satisfied"
  | LtlfEval.CURRENTLY_VIOLATED => "currently_violated"
  | LtlfEval.PERMANENTLY_SATISFIED => "permanently_satisfied"
  | LtlfEval.PERMANENTLY_VIOLATED => "permanently_violated"
  end.

Section Predictive.
Context (str_container : pyval -> string) (parse_error_text : string -> string).
Context (unsafe_order : list string).

Definition lookahead_finding (k : Probguard.SystemicLookaheadOutcome) : result exn Finding :=
  new_finding "systemic.probguard" "systemic_lookahead_predictive_risk" WARNING (Probguard.lk_reason k)
    [("predictive_risk", PFloat (round_ndigits (Probguard.predictive_risk k) 6));
     ("threshold", PFloat (Probguard.lk_threshold k)); ("horizon_k", Probguard.lk_horizon k);
     ("initial_state", PStr (Probguard.initial_state k)); ("tier", PStr "predictive_hold")].

Definition recoverable_finding (v : Rv4Path.RV4PathViolation) : result exn Finding :=
  new_finding "contracts.rv4_path" ("rv4_recoverable:" +:+ Rv4Path.policy_id v) WARNING
    (Rv4Path.v_reason v)
    [("policy_id", PStr (Rv4Path.policy_id v)); ("rv4_verdict", PStr (rv4_value (Rv4Path.v_verdict v)));
     ("tier", PStr "predictive_hold")].

Definition apply_predictive_holds {A} (base : RoutingResult A) (r : EvaluationRequest)
    : result exn (RoutingResult A) :=
  if negb (is_permit base) then Ok base
  else
    lookahead ← Probguard.evaluate_systemic_lookahead str_container unsafe_order r;
    o ← Rv4Path.classify str_container parse_error_text r;
    let rec := Rv4Path.recoverable o in
    let exceeds := Probguard.exceeds lookahead in
    if negb exceeds && bool_decide (length rec = 0) then Ok base
    else
      look ← (if exceeds : bool then f ← lookahead_finding lookahead; Ok [f] else Ok []);
      recs ← map_result recoverable_finding rec;
      let scores := if exceeds : bool
                    then dict_set "systemic_lookahead"
                           (fmax f_zero (fmin f_one (Probguard.predictive_risk lookahead))) (scores base)
                    else scores base in
      rebuild base ABSTAIN
        (reasons base ++ (if exceeds : bool then [Probguard.lk_reason lookahead] else [])
           ++ (Rv4Path.v_reason <$> rec))
        (uncertainty_flags base ++ (if exceeds : bool then [SYSTEMIC_LOOKAHEAD_FLAG] else [])
           ++ (if bool_decide (length rec = 0) then [] else [RV4_RECOVERABLE_FLAG]))
        (r_findings base ++ look ++ recs)
        (if bool_decide (length rec = 0) then scores else dict_set "rv4_recoverable" f_one scores).
End Predictive.

(** ** The risk spine *)

Definition RISK_SPINE_FLAG : string := "risk_spine_drift_breach".

(** The fields of the spine's signal that this stage reads; [combined] is there
    whenever the signal acts. *)
Record SpineSignal := {
  acted : bool;
  s_reason : string;
  ville_p_value : option float;
  log_e_value : float;
  action_log_e_threshold : float;
  anytime_valid : bool;
  n_components : nat;
  combiner : string
}.

Definition spine_finding (s : SpineSignal) : result exn Finding :=
  new_finding "engine.risk_spine" "risk_spine_drift_breach" WARNING (s_reason s)
    [("log_e_value", PFloat (round_ndigits (log_e_value s) 6));
     ("action_log_e_threshold", PFloat (round_ndigits (action_log_e_threshold s) 6));
     ("anytime_valid", PBool (anytime_valid s)); ("n_components", PInt (Z.of_nat (n_components s)));
     ("combiner", PStr (combiner s)); ("tier", PStr "anytime_valid_hold")].

(** [signal] is what the spine reports after it observed the request; [None] when
    no spine is wired. *)
Definition apply_risk_spine {A} (signal : option SpineSignal) (base : RoutingResult A)
    : result exn (RoutingResult A) :=
  match signal with
  | None => Ok base
  | Some s =>
      if negb (acted s) then Ok base
      else if negb (is_permit base) then Ok base
      else
        f ← spine_finding s;
        rebuild base ABSTAIN (reasons base ++ [s_reason s]) (uncertainty_flags base ++ [RISK_SPINE_FLAG])
          (r_findings base ++ [f])
          (match ville_p_value s with
           | Some p => dict_set "risk_spine_ville_p" (fmax f_zero (fmin f_one p)) (scores base)
           | None => scores base
           end)
  end.

(** ** Maturity of the signer *)

Inductive SignerDurability := NONE | RESEARCH_ONLY | DURABLE.
#[export] Instance SignerDurability_eq_dec : EqDecision SignerDurability.
Proof. solve_decision. Defined.
Definition durability_value (d : SignerDurability) : string :=
  match d with NONE => "none" | RESEARCH_ONLY => "research_only" | DURABLE => "durable" end.

Definition durability_for_backend_id (id : option string) : SignerDurability :=
  match id with
  | Some "pyca-cryptography-native" => DURABLE
  | Some "liboqs" => RESEARCH_ONLY
  | _ => NONE
  end.

Record PQDurabilityAssessment := {
  signer_maturity : SignerDurability;
  active_backend_id : option string;
  claim_requested : bool
}.
Definition pq_durable (a : PQDurabilityAssessment) : bool := bool_decide (signer_maturity a = DURABLE).
Definition claim_honored (a : PQDurabilityAssessment) : bool := claim_requested a && pq_durable a.
Definition lowers_verdict (a : PQDurabilityAssessment) : bool := claim_requested a && negb (pq_durable a).

Definition backend_repr (id : option string) : string :=
  match id with Some s => repr_str s | None => "None" end.
Definition pq_reason (a : PQDurabilityAssessment) : string :=
  "PQ-durable=false: PQ-non-repudiation claim cannot be honored by a '"
  +:+ durability_value (signer_maturity a) +:+ "' signer (ML-DSA backend id: "
  +:+ backend_repr (active_backend_id a) +:+ "); resolving to ABSTAIN".

Definition pq_finding_metadata (a : PQDurabilityAssessment) : pydict :=
  [("pq_durable", PBool (pq_durable a)); ("signer_maturity", PStr (durability_value (signer_maturity a)));
   ("ml_dsa_backend_id",
     PStr (match active_backend_id a with Some (String c s) => String c s | _ => "<none>" end));
   ("pq_non_repudiation_claim_requested", PBool (claim_requested a));
   ("pq_non_repudiation_claim_honored", PBool (claim_honored a)); ("tier", PStr "pq_maturity_hold")].

Definition PQ_NON_REPUDIATION_FLAG : string := "pq_non_repudiation_unavailable".

Definition pq_claim_requested (r : EvaluationRequest) : bool :=
  match dict_get "pq_non_repudiation" (metadata r) with Some v => py_bool v | None => false end.
Definition pq_assess (backend_id : option string) (r : EvaluationRequest) : PQDurabilityAssessment := {|
  signer_maturity := durability_for_backend_id backend_id; active_backend_id := backend_id;
  claim_requested := pq_claim_requested r |}.

Section Pq.
(** [ledger.append] of the assessment's fact: a failure to append is swallowed, so
    only the ledger shows it. *)
Context {L : Type} (append : PQDurabilityAssessment -> EvaluationRequest -> L -> bool * L).

Definition seal_pq_durability (ledger : option L) (a : PQDurabilityAssessment) (r : EvaluationRequest)
    : option L :=
  match ledger with
  | Some l => if lowers_verdict a then Some (append a r l).2 else ledger
  | None => None
  end.

Definition apply_pq_durability_hold {A} (backend_id : option string) (base : RoutingResult A)
    (r : EvaluationRequest) (ledger : option L) : result exn (RoutingResult A) * option L :=
  if negb (is_permit base) then (Ok base, ledger)
  else
    let a := pq_assess backend_id r in
    if negb (lowers_verdict a) then (Ok base, ledger)
    else
      match new_finding "pqcrypto.pq_durability" "pq_non_repudiation_unavailable" WARNING (pq_reason a)
              (pq_finding_metadata a) with
      | Err e => (Err e, ledger)
      | Ok f =>
          (rebuild base ABSTAIN (reasons base ++ [pq_reason a])
             (uncertainty_flags base ++ [PQ_NON_REPUDIATION_FLAG]) (r_findings base ++ [f])
             (dict_set "pq_durable" f_zero (scores base)), seal_pq_durability ledger a r)
      end.
End Pq.

(** ** What the holds do *)

Lemma is_permit_spec {A} (base : RoutingResult A) : is_permit base = true <-> verdict base = PERMIT.
Proof. apply bool_decide_eq_true. Qed.

Lemma predictive_spec {A} sc pe order (base out : RoutingResult A) r :
  apply_predictive_holds sc pe order base r = Ok out ->
  out = base \/ demoted_with SYSTEMIC_LOOKAHEAD_FLAG base out
  \/ demoted_with RV4_RECOVERABLE_FLAG base out.
Proof.
  unfold apply_predictive_holds. destruct (is_permit base) eqn:Hp; simpl; [|intros [= ->]; by left].
  apply is_permit_spec in Hp. intros H.
  apply result_bind_Ok in H as (k & _ & H). apply result_bind_Ok in H as (o & _ & H).
  destruct (Probguard.exceeds k); simpl in H.
  - inv_bind. right. left. eapply rebuild_demotes; [done| |eassumption]. set_solver.
  - case_bool_decide; [inv_bind; by left|]. inv_bind. right. right.
    eapply rebuild_demotes; [done| |eassumption]. set_solver.
Qed.

Lemma spine_spec {A} s (base out : RoutingResult A) :
  apply_risk_spine s base = Ok out -> out = base \/ demoted_with RISK_SPINE_FLAG base out.
Proof.
  unfold apply_risk_spine. destruct s as [s|]; [|intros [= ->]; by left].
  destruct (acted s); simpl; [|intros [= ->]; by left].
  destruct (is_permit base) eqn:Hp; simpl; [|intros [= ->]; by left].
  apply is_permit_spec in Hp. intros H. inv_bind. right.
  eapply rebuild_demotes; [done| |eassumption]. set_solver.
Qed.

(** A PERMIT that passes the spine met no breach. *)
Lemma spine_permit {A} s (base out : RoutingResult A) :
  apply_risk_spine s base = Ok out -> verdict out = PERMIT -> forall b, s = Some b -> acted b = false.
Proof.
  intros H Hv b ->. destruct (spine_spec _ _ _ H) as [->|Hd]; [|rewrite (dem_to _ _ _ Hd) in Hv; done].
  unfold apply_risk_spine in H. destruct (acted b); [|done]. cbn [negb] in H.
  rewrite (proj2 (is_permit_spec base) Hv) in H. cbn [negb] in H. inv_bind. apply rebuild_fields in H as (Hr & _). congruence.
Qed.

(** The hold acts exactly on a PERMIT whose claim the signer cannot carry. *)
Lemma pq_spec {A L} (append : _ -> _ -> L -> bool * L) id (base out : RoutingResult A) r l l' :
  apply_pq_durability_hold append id base r l = (Ok out, l') ->
  (out = base /\ l' = l
   /\ (verdict base = PERMIT -> pq_claim_requested r = true -> id = Some "pyca-cryptography-native"))
  \/ demoted_with PQ_NON_REPUDIATION_FLAG base out.
Proof.
  unfold apply_pq_durability_hold. destruct (is_permit base) eqn:Hp; simpl.
  2:{ intros [= -> ->]. left. split_and!; [done..|]. intros Hv. apply is_permit_spec in Hv. congruence. }
  apply is_permit_spec in Hp. destruct (lowers_verdict (pq_assess id r)) eqn:Hl; simpl.
  - destruct (new_finding _ _ _ _ _) as [f|]; [|done]. intros [= H <-]. right.
    eapply rebuild_demotes; [done| |eassumption]. set_solver.
  - intros [= -> ->]. left. split_and!; [done..|]. intros _ Hc.
    unfold lowers_verdict, pq_durable in Hl. simpl in Hl. rewrite Hc in Hl. simpl in Hl.
    apply negb_false_iff, bool_decide_eq_true in Hl. unfold durability_for_backend_id in Hl.
    by repeat case_match.
Qed.

(** A non-PERMIT passes through every hold. *)
Lemma predictive_guard {A} sc pe order (base : RoutingResult A) r :
  verdict base <> PERMIT -> apply_predictive_holds sc pe order base r = Ok base.
Proof. intros Hv. unfold apply_predictive_holds, is_permit. by rewrite (bool_decide_eq_false_2 _ Hv). Qed.
Lemma spine_guard {A} s (base : RoutingResult A) :
  verdict base <> PERMIT -> apply_risk_spine s base = Ok base.
Proof.
  intros Hv. unfold apply_risk_spine, is_permit. rewrite (bool_decide_eq_false_2 _ Hv).
  destruct s as [s|]; [|done]. by destruct (acted s).
Qed.
Lemma pq_guard {A L} (append : _ -> _ -> L -> bool * L) id (base : RoutingResult A) r l :
  verdict base <> PERMIT -> apply_pq_durability_hold append id base r l = (Ok base, l).
Proof. intros Hv. unfold apply_pq_durability_hold, is_permit. by rewrite (bool_decide_eq_false_2 _ Hv). Qed.

End Holds.
