(* ===== verification/ContractBridge.v ===== *)
(** * The contract bridge

    [tex/engine/contract_bridge.py]: the LRU registry of one enforcer per
    (agent, session), the replay of the agent's recorded actions into a new
    enforcer, and the translation of an enforcement pass into what the decision
    point reads. *)
From S2P Require Import Prelude StateExn PyStr PyFloat PyVal ContractLtl ContractAtoms ContractEnforcer.
From S2P Require Import RouterDomain PyFormat PdpDomain.
Import RouterDomain PdpDomain.
Open Scope string_scope.
Open Scope list_scope.
Open Scope nat_scope.

Module ContractBridge.

Definition CONTRACT_FINDING_SOURCE : string := "contracts.behavioral".
Definition SOFT_VIOLATION_UNCERTAINTY_FLAG : string := "contract_soft_violation".
Definition HARD_VIOLATION_FORBID_REASON : string :=
  "behavioral contract hard violation detected " +:+ emdash
  +:+ " pipeline short-circuited to FORBID before fusion".
Definition NEUTRAL_STATE_HASH : string :=
  "0000000000000000000000000000000000000000000000000000000000000000".
Definition DEFAULT_REPLAY_WINDOW : nat := 32.

(** Without [contracts_ms], a measured time. *)
Record ContractEvaluationOutcome := {
  has_hard_violation : bool;
  has_soft_violation : bool;
  c_findings : list Finding;
  c_forbid_reason : option string;
  c_soft_flags : list string;
  raw_violations : list ContractEnforcer.ContractViolation;
  session_key : option string;
  replayed_window_size : nat;
  step_index_at_check : nat
}.
Definition NEUTRAL_OUTCOME : ContractEvaluationOutcome := {|
  has_hard_violation := false; has_soft_violation := false; c_findings := []; c_forbid_reason := None;
  c_soft_flags := []; raw_violations := []; session_key := None; replayed_window_size := 0;
  step_index_at_check := 0 |}.

(** ** The registry *)

Abbreviation enforcer W := (ContractEnforcer.enforcer (W := W)).
Record ReplayState := { primed : bool; primed_at_count : nat }.

(** [_enforcers] from the least to the most recently used. *)
Record registry (W : Type) := {
  g_contracts : list ContractEnforcer.BehavioralContract;
  g_enforcers : list (string * enforcer W);
  g_prime : list (string * ReplayState);
  g_capacity : nat
}.
Arguments g_contracts {W} _.
Arguments g_enforcers {W} _.
Arguments g_prime {W} _.
Arguments g_capacity {W} _.

Definition DEFAULT_KEY : string := "__default__".
Definition session_key_for (agent_id session_id : option string) : string :=
  match agent_id, session_id with
  | None, None => DEFAULT_KEY
  | _, _ => default "_anonymous" agent_id +:+ "::" +:+ default "_no_session" session_id
  end.

Definition od_get {A} (k : string) (d : list (string * A)) : option A :=
  snd <$> List.find (fun kv => String.eqb kv.1 k) d.
Definition od_del {A} (k : string) (d : list (string * A)) : list (string * A) :=
  List.filter (fun kv => negb (String.eqb kv.1 k)) d.

Section Registry.
Context {W : Type} (fresh_world : W).

Definition new_registry (contracts : list ContractEnforcer.BehavioralContract) (capacity : Z)
    : result exn (registry W) :=
  match contracts with
  | [] => Err (PydanticError ValueError)
  | _ => if (capacity <? 1)%Z then Err (PydanticError ValueError)
         else Ok {| g_contracts := contracts; g_enforcers := []; g_prime := [];
                    g_capacity := Z.to_nat capacity |}
  end.

(** The enforcer of a session has no ledger and no dispatcher; its ids and times
    come from a source of its own. *)
Definition new_enforcer (contracts : list ContractEnforcer.BehavioralContract) : result exn (enforcer W) :=
  match ContractEnforcer.init None contracts false "_contract_enforcer" fresh_world with
  | Ok e => Ok e
  | Err e => Err (ContractError e)
  end.

(** [while len > capacity: popitem(last=False)], with the prime state of each. *)
Definition evict (g : registry W) : registry W :=
  let n := length (g_enforcers g) - g_capacity g in
  {| g_contracts := g_contracts g;
     g_enforcers := drop n (g_enforcers g);
     g_prime := foldl (fun d kv => od_del kv.1 d) (g_prime g) (take n (g_enforcers g));
     g_capacity := g_capacity g |}.

(** [_enforcers[key] = e] for a key that is not there or has moved to the end. *)
Definition put_last (k : string) (e : enforcer W) (g : registry W) : registry W :=
  {| g_contracts := g_contracts g; g_enforcers := od_del k (g_enforcers g) ++ [(k, e)];
     g_prime := g_prime g; g_capacity := g_capacity g |}.
Definition set_prime (k : string) (s : ReplayState) (g : registry W) : registry W :=
  {| g_contracts := g_contracts g; g_enforcers := g_enforcers g;
     g_prime := dict_set k s (g_prime g); g_capacity := g_capacity g |}.

Definition get_or_create (key : string) (g : registry W) : result exn (enforcer W) * registry W :=
  match od_get key (g_enforcers g) with
  | Some e => (Ok e, put_last key e g)
  | None =>
      match new_enforcer (g_contracts g) with
      | Err x => (Err x, g)
      | Ok e => (Ok e, evict (set_prime key {| primed := false; primed_at_count := 0 |} (put_last key e g)))
      end
  end.

Definition is_primed (key : string) (g : registry W) : bool :=
  match od_get key (g_prime g) with Some s => primed s | None => false end.
Definition mark_primed (key : string) (after_count : nat) (g : registry W) : registry W :=
  set_prime key {| primed := true; primed_at_count := after_count |} g.
Definition forget (key : string) (g : registry W) : bool * registry W :=
  match od_get key (g_enforcers g) with
  | None => (false, g)
  | Some _ => (true, {| g_contracts := g_contracts g; g_enforcers := od_del key (g_enforcers g);
                        g_prime := od_del key (g_prime g); g_capacity := g_capacity g |})
  end.
End Registry.

(** ** Events *)

(** The fields the replay reads; [recorded_at] as its [isoformat()]. *)
Record ActionLedgerEntry := {
  l_agent_id : string; l_session_id : option string; l_verdict : string; l_action_type : string;
  l_channel : string; l_environment : string; l_recipient : option string;
  l_final_score : float; l_confidence : float; l_content_sha256 : string;
  l_policy_version : option string; l_evidence_hash : option string;
  capability_violations : list string; asi_short_codes : list string;
  l_tools : list string; l_mcp_server_ids : list string; recorded_at : string
}.

Definition opt_str (o : option string) : pyval := match o with Some s => PStr s | None => PNone end.
Definition opt_field (k : string) (o : option string) : pydict :=
  match o with Some s => [(k, PStr s)] | None => [] end.
Definition list_field (k : string) (l : list string) : pydict :=
  match l with [] => [] | _ => [(k, PList (PStr <$> l))] end.

Definition proposed_event_from_ledger_entry (e : ActionLedgerEntry) : ContractAtoms.ProposedEvent := {|
  ContractAtoms.event_kind := "guardrail." +:+ l_action_type e;
  ContractAtoms.actor_entity_id := l_agent_id e;
  ContractAtoms.target_entity_id := l_recipient e;
  ContractAtoms.payload :=
    [("action_type", PStr (l_action_type e)); ("channel", PStr (l_channel e));
     ("environment", PStr (l_environment e)); ("verdict", PStr (l_verdict e));
     ("final_score", PFloat (l_final_score e)); ("confidence", PFloat (l_confidence e));
     ("content_sha256", PStr (l_content_sha256 e)); ("policy_version", opt_str (l_policy_version e));
     ("evidence_hash", opt_str (l_evidence_hash e))]
    ++ opt_field "recipient" (l_recipient e) ++ opt_field "session_id" (l_session_id e)
    ++ list_field "capability_violations" (capability_violations e)
    ++ list_field "asi_short_codes" (asi_short_codes e) ++ list_field "tools" (l_tools e)
    ++ list_field "mcp_server_ids" (l_mcp_server_ids e);
  ContractAtoms.proposed_at := recorded_at e;
  ContractAtoms.session_id := l_session_id e;
  ContractAtoms.upstream_event_ids := [] |}.

(** [action_ledger.list_for_agent(agent, limit=n)]; [None] when it raises. *)
Definition action_ledger : Type := string -> nat -> option (list ActionLedgerEntry).

(** [l[-n:]]. *)
Definition last_n {A} (n : nat) (l : list A) : list A :=
  if n =? 0 then l else drop (length l - n) l.

Definition ledger_window_for (ledger : action_ledger) (agent : string) (session : option string)
    (limit : nat) : list ContractAtoms.ProposedEvent :=
  let entries := default [] (ledger agent (match session with Some _ => limit * 4 | None => limit end)) in
  let filtered := match session with
                  | Some _ => List.filter (fun e => bool_decide (l_session_id e = session)) entries
                  | None => entries
                  end in
  proposed_event_from_ledger_entry <$> last_n limit filtered.

Section Bridge.
Context {W : Type} (uuid_hex : W -> string * W) (now : W -> string * W) (fresh_world : W).
Context (py_str : pyval -> string) (str_tuple : list string -> string).
Context (re_search : string -> string -> result ContractLtl.exn bool).
(** [requested_at.isoformat()] and [str(requested_at)]. *)
Context (isoformat str_time : Z -> string).

Definition build_proposed_event (r : EvaluationRequest) : ContractAtoms.ProposedEvent :=
  let kind := match dict_get "contract_event_kind" (metadata r) with
              | Some (PStr s) => if String.eqb (strip s) "" then "guardrail." +:+ action_type r else strip s
              | _ => "guardrail." +:+ action_type r
              end in
  {| ContractAtoms.event_kind := kind;
     ContractAtoms.actor_entity_id := default "_anonymous" (req_agent_id r);
     ContractAtoms.target_entity_id := recipient r;
     ContractAtoms.payload :=
       [("action_type", PStr (action_type r)); ("content", PStr (content r));
        ("channel", PStr (channel r)); ("environment", PStr (environment r));
        ("request_id", PStr (request_id r))]
       ++ opt_field "recipient" (recipient r) ++ opt_field "session_id" (session_id r)
       ++ match metadata r with [] => [] | m => [("metadata", PDict m)] end;
     ContractAtoms.proposed_at := isoformat (requested_at r);
     ContractAtoms.session_id := session_id r;
     ContractAtoms.upstream_event_ids := [] |}.

Definition build_neutral_state (r : EvaluationRequest) : ContractAtoms.EcosystemState := {|
  ContractAtoms.snapshot_at := str_time (requested_at r);
  ContractAtoms.state_hash := NEUTRAL_STATE_HASH;
  ContractAtoms.active_agent_ids := []; ContractAtoms.active_tool_ids := [];
  ContractAtoms.active_capability_ids := []; ContractAtoms.active_governance_graph_id := "pdp-neutral";
  ContractAtoms.aggregate_drift_signals := [];
  ContractAtoms.sliding_window_compromise_ratio := f_zero |}.

(** [check_pre] of an enforcer, whatever its ledger and dispatcher. *)
Definition checker : Type :=
  string -> ContractAtoms.ProposedEvent -> ContractAtoms.EcosystemState ->
  list ContractAtoms.ProposedEvent -> stM (enforcer W) ContractLtl.exn (bool * list string).
Definition session_check : checker :=
  ContractEnforcer.check_pre uuid_hex now None None py_str str_tuple re_search.

(** Each past event is checked, an exception is swallowed, and the log is put back. *)
Definition prime_enforcer_with_history (history : list ContractAtoms.ProposedEvent) (agent_key : string)
    (st : ContractAtoms.EcosystemState) (e : enforcer W) : enforcer W :=
  match history with
  | [] => e
  | _ => ContractEnforcer.with_violations (ContractEnforcer.violations e)
           (foldl (fun e ev => (session_check agent_key ev st [] e).2) e history)
  end.

Definition violation_message (v : ContractEnforcer.ContractViolation) : string :=
  "contract=" +:+ repr_str (ContractEnforcer.v_contract_id v)
  +:+ " clause=" +:+ ContractEnforcer.clause_name (ContractEnforcer.violated_clause v)
  +:+ " step=" +:+ z_str (Z.of_nat (ContractEnforcer.v_step_index v))
  +:+ " ltl=" +:+ repr_str (ContractEnforcer.clause_ltl v)
  +:+ (if fltb f_zero (ContractEnforcer.compliance_gap v)
       then " compliance_gap=" +:+ fixed 3 (ContractEnforcer.compliance_gap v) else "").

Definition violation_metadata (key : option string) (replayed : nat)
    (v : ContractEnforcer.ContractViolation) : pydict :=
  [("contract_id", PStr (ContractEnforcer.v_contract_id v));
   ("violated_clause", PStr (ContractEnforcer.clause_name (ContractEnforcer.violated_clause v)));
   ("clause_ltl", PStr (ContractEnforcer.clause_ltl v));
   ("step_index", PInt (Z.of_nat (ContractEnforcer.v_step_index v)));
   ("compliance_gap", PFloat (ContractEnforcer.compliance_gap v));
   ("severity_class", PStr (ContractEnforcer.severity_name (ContractEnforcer.v_severity v)));
   ("is_soft", PBool (ContractEnforcer.is_soft_clause (ContractEnforcer.violated_clause v)))]
  ++ opt_field "session_key" key
  ++ (if 0 <? replayed then [("replayed_window_size", PInt (Z.of_nat replayed))] else [])
  ++ match ContractEnforcer.recovery_deadline_step v with
     | Some d => [("recovery_deadline_step", PInt d)]
     | None => []
     end.

Definition violation_finding (key : option string) (replayed : nat)
    (v : ContractEnforcer.ContractViolation) : result exn Finding :=
  let soft := ContractEnforcer.is_soft_clause (ContractEnforcer.violated_clause v) in
  new_finding CONTRACT_FINDING_SOURCE
    ("contract:" +:+ ContractEnforcer.v_contract_id v +:+ ":"
     +:+ ContractEnforcer.clause_name (ContractEnforcer.violated_clause v))
    (if soft then WARNING else CRITICAL) (violation_message v) (violation_metadata key replayed v).

(** The violations of one pass, summarised. *)
Definition outcome_of (key : option string) (replayed step : nat)
    (new_violations : list ContractEnforcer.ContractViolation) : result exn ContractEvaluationOutcome :=
  let soft v := ContractEnforcer.is_soft_clause (ContractEnforcer.violated_clause v) in
  let hard_seen := existsb (fun v => negb (soft v)) new_violations in
  let soft_seen := existsb soft new_violations in
  fs ← map_result (violation_finding key replayed) new_violations;
  Ok {| has_hard_violation := hard_seen;
        has_soft_violation := soft_seen && negb hard_seen;
        c_findings := fs;
        c_forbid_reason := if hard_seen then Some HARD_VIOLATION_FORBID_REASON else None;
        c_soft_flags := if soft_seen && negb hard_seen then [SOFT_VIOLATION_UNCERTAINTY_FLAG] else [];
        raw_violations := new_violations; session_key := key; replayed_window_size := replayed;
        step_index_at_check := step |}.

(** The live check of one enforcer, and what it added to the log. *)
Definition run_check (check : checker) (ledger : option action_ledger) (limit : nat)
    (key : option string) (replayed : nat) (r : EvaluationRequest) (e : enforcer W)
    : result exn ContractEvaluationOutcome * enforcer W :=
  let window := match ledger, req_agent_id r with
                | Some l, Some a => ledger_window_for l a (session_id r) limit
                | _, _ => []
                end in
  match check (default "_anonymous" (req_agent_id r)) (build_proposed_event r) (build_neutral_state r)
          window e with
  | (Err x, e') => (Err (ContractError x), e')
  | (Ok _, e') =>
      (outcome_of key replayed (S (ContractEnforcer.step_index e))
         (drop (length (ContractEnforcer.violations e)) (ContractEnforcer.violations e')), e')
  end.

(** The enforcer of the session, primed on its first request with an agent. *)
Definition prime (ledger : option action_ledger) (limit : nat) (key : string) (r : EvaluationRequest)
    (e : enforcer W) (g : registry W) : nat * enforcer W * registry W :=
  match ledger, req_agent_id r with
  | Some l, Some a =>
      if is_primed key g then (0, e, g)
      else
        let history := ledger_window_for l a (session_id r) limit in
        let e := prime_enforcer_with_history history (default "_anonymous" (req_agent_id r))
                   (build_neutral_state r) e in
        (length history, e, mark_primed key (length history) g)
  | _, _ => (0, e, g)
  end.

(** The enforcer object is shared with the registry: what is done to it there is
    seen by the next request of the session. *)
Definition evaluate_session (ledger : option action_ledger) (limit : nat) (r : EvaluationRequest)
    (g : registry W) : result exn ContractEvaluationOutcome * registry W :=
  let key := session_key_for (req_agent_id r) (session_id r) in
  match get_or_create fresh_world key g with
  | (Err x, g) => (Err x, g)
  | (Ok e, g) =>
      let '(replayed, e, g) := prime ledger limit key r e g in
      let '(o, e) := run_check session_check ledger limit (Some key) replayed r e in
      (o, put_last key e g)
  end.

(** The wiring of the decision point: no contracts, one enforcer, or a registry. *)
Inductive contract_layer := Inert | Stateless (check : checker) (e : enforcer W) | Sessions (g : registry W).

Definition evaluate_contracts_for_request (ledger : option action_ledger) (limit : nat)
    (r : EvaluationRequest) (c : contract_layer)
    : result exn ContractEvaluationOutcome * contract_layer :=
  match c with
  | Inert => (Ok NEUTRAL_OUTCOME, Inert)
  | Stateless check e =>
      let '(o, e) := run_check check ledger limit None 0 r e in (o, Stateless check e)
  | Sessions g =>
      let '(o, g) := evaluate_session ledger limit r g in (o, Sessions g)
  end.
End Bridge.
End ContractBridge.
