(* ===== verification/ContractBridgeSpec.v ===== *)
(** * The contract bridge: what an outcome says

    The bridge never reads the enforcer's verdict: it reads the log.  Here the log
    of a completed check is related to the verdict, and the registry to the
    sessions it keeps apart. *)
From S2P Require Import Prelude StateExn PyStr PyFloat PyVal ContractLtl ContractAtoms ContractEnforcer.
From S2P Require Import ContractEnforcerInv ContractEnforcerVerdict ContractEnforcerSpec ContractErrors.
From S2P Require Import RouterDomain PdpDomain ContractBridge.
Import PdpDomain.
Import ContractAtoms ContractEnforcer ContractEnforcerInv ContractEnforcerVerdict ContractEnforcerSpec.
Import ContractBridge.
Open Scope string_scope.
Open Scope list_scope.
Open Scope nat_scope.

Module ContractBridgeSpec.

Definition hard_record (v : ContractViolation) : bool := negb (is_soft_clause (violated_clause v)).

Section Log.
Context {W : Type} (uuid_hex : W -> string * W) (now : W -> string * W).
Context (ledger : option (ProposedEvent -> W -> result ContractLtl.exn string * W)).
Context (recovery : option (ContractViolation -> EcosystemState -> W -> W)).
Context (py_str : pyval -> string) (str_tuple : list string -> string).
Context (re_search : string -> string -> result ContractLtl.exn bool).

Abbreviation St := (ContractEnforcer.enforcer (W := W)).
Abbreviation recordM := (ContractEnforcer.record uuid_hex now ledger recovery).
Abbreviation handle := (handle_soft_violation uuid_hex now ledger recovery).
Abbreviation sweepM := (sweep_loop uuid_hex now ledger recovery).
Abbreviation checkB := (check_boundary uuid_hex now ledger recovery py_str str_tuple re_search).
Abbreviation checkH := (check_hard uuid_hex now ledger recovery py_str str_tuple re_search).
Abbreviation checkS := (check_soft uuid_hex now ledger recovery py_str str_tuple re_search).
Abbreviation checkC := (check_contract uuid_hex now ledger recovery py_str str_tuple re_search).
Abbreviation checkCs := (check_contracts uuid_hex now ledger recovery py_str str_tuple re_search).
Abbreviation checkM := (check uuid_hex now ledger recovery py_str str_tuple re_search).

(** The number of hard records in the log. *)
Definition hard_count (l : list ContractViolation) : nat := length (List.filter hard_record l).
Definition hards (s : St) : nat := hard_count (violations s).

Lemma hard_count_app l l' : hard_count (l ++ l') = hard_count l + hard_count l'.
Proof. unfold hard_count. by rewrite List.filter_app, length_app. Qed.
Lemma hard_count_marked l l' : Forall2 marked l l' -> hard_count l' = hard_count l.
Proof.
  induction 1 as [|v v' l l' Hv Hl IH]; [done|]. unfold hard_count in *. simpl.
  assert (hard_record v' = hard_record v) as -> by (by destruct Hv as [-> |(_ & _ & n & ->)]).
  destruct (hard_record v); simpl; by rewrite IH.
Qed.
Lemma hard_count_existsb l : existsb hard_record l = (0 <? hard_count l).
Proof. induction l as [|v l IH]; [done|]. unfold hard_count in *. simpl. by destruct (hard_record v). Qed.

(** Between two points of a check: the hard records added account for the flag. *)
Definition tracks (a : counters) (s : St) (a' : counters) (s' : St) : Prop :=
  exists n, hards s' = hards s + n /\ any_hard a' = any_hard a || (0 <? n).

Lemma tracks_trans a s a1 s1 a2 s2 : tracks a s a1 s1 -> tracks a1 s1 a2 s2 -> tracks a s a2 s2.
Proof.
  intros (n & H1 & H2) (m & H3 & H4). exists (n + m). split; [lia|]. rewrite H4, H2, <- orb_assoc.
  f_equal. destruct n, m; simpl; done.
Qed.
Lemma tracks_refl a s : tracks a s a s.
Proof. exists 0. split; [lia|]. by rewrite orb_false_r. Qed.

Lemma record_hards c ltl cl soft ev st step d so to (s s' : St) :
  recordM c ltl cl soft ev st step d so to s = (Ok (), s') ->
  hards s' = hards s + (if is_soft_clause cl then 0 else 1).
Proof.
  intros H. destruct (record_violations uuid_hex now ledger recovery c ltl cl soft ev st step d so to s)
    as [w Hw]. rewrite H in Hw. destruct Hw as (v & (_ & _ & Hcl & _) & ->). unfold hards. simpl.
  rewrite hard_count_app. f_equal. unfold hard_count, hard_record. simpl. rewrite Hcl.
  by destruct (is_soft_clause cl).
Qed.

Lemma handle_hards k c ltl cl ev st step (s s' : St) :
  is_soft_clause cl = true -> handle k c ltl cl ev st step s = (Ok (), s') -> hards s' = hards s.
Proof.
  intros Hcl. unfold handle_soft_violation. intros H. inv_M.
  destruct (pending_get k (soft_pending x)); [by inv_M|]. destruct k as [[[agent cid] cl'] i].
  apply M_bind_Ok in H as ([] & s2 & Hm & H). unfold modify in Hm. simplify_eq.
  apply record_hards in H. rewrite H, Hcl, Nat.add_0_r. done.
Qed.
Lemma discharge_hards k n (s s' : St) :
  discharge_recovery k n s = (Ok (), s') -> hards s' = hards s.
Proof.
  unfold discharge_recovery. intros H. inv_M. destruct (pending_get k (soft_pending x)) as [e|]; [|by inv_M].
  destruct (deadline_step e <? Z.of_nat n)%Z; [by inv_M|].
  apply M_bind_Ok in H as ([] & s2 & Hm & H). unfold modify in Hm. simplify_eq.
  destruct (mark_last e n (violations _)) as [vs|] eqn:E; [|by inv_M].
  unfold modify in H. simplify_eq. unfold hards. simpl. by apply mark_last_marked, hard_count_marked in E.
Qed.

Lemma boundary_tracks ev st step ctx c f ltl cl a (s s' : St) a' :
  is_soft_clause cl = false -> checkB ev st step ctx c f ltl cl a s = (Ok a', s') -> tracks a s a' s'.
Proof.
  intros Hcl. unfold check_boundary. destruct f as [f|]; intros H; inv_M; [|apply tracks_refl].
  destruct x; inv_M.
  - exists 0. split; [lia|]. simpl. by rewrite !orb_false_r.
  - destruct x0. apply record_hards in Hm0. rewrite Hcl in Hm0. by exists 1.
Qed.
Lemma hard_tracks ev st step ctx c cl ltls i fs a (s s' : St) a' :
  is_soft_clause cl = false -> checkH ev st step ctx c cl ltls i fs a s = (Ok a', s') -> tracks a s a' s'.
Proof.
  intros Hcl. revert i a s. induction fs as [|f fs IH]; intros i a s; cbn [check_hard]; intros H; inv_M;
    [apply tracks_refl|].
  apply IH in H. eapply tracks_trans; [|exact H]. destruct x; inv_M.
  - exists 0. split; [lia|]. simpl. by rewrite !orb_false_r.
  - destruct x0. unfold nth_ltl in Hm1. destruct (ltls !! i); [|done]. inv_M. apply record_hards in Hm0.
    rewrite Hcl in Hm0. by exists 1.
Qed.
Lemma soft_tracks agent ev st step ctx c cl ltls i fs a (s s' : St) a' :
  is_soft_clause cl = true -> checkS agent ev st step ctx c cl ltls i fs a s = (Ok a', s') ->
  tracks a s a' s'.
Proof.
  intros Hcl. revert i a s. induction fs as [|f fs IH]; intros i a s; cbn [check_soft]; intros H; inv_M;
    [apply tracks_refl|].
  apply IH in H. eapply tracks_trans; [|exact H]. exists 0. split; [|simpl; by rewrite orb_false_r].
  rewrite Nat.add_0_r. destruct x0. destruct x; inv_M.
  - destruct (pending_get _ _); [by apply discharge_hards in Hm0|by inv_M].
  - unfold nth_ltl in Hm1. destruct (ltls !! i); [|done]. inv_M. by apply handle_hards in Hm0.
Qed.
Lemma contract_tracks agent ev st step ctx ph c a (s s' : St) a' :
  checkC agent ev st step ctx ph c a s = (Ok a', s') -> tracks a s a' s'.
Proof.
  unfold check_contract. intros H. inv_M. destruct (assoc _ _) as [p|]; [|done]. inv_M.
  assert (tracks (begin_contract a) x x0 s) as H0 by
    (destruct ph; (eapply boundary_tracks; [|exact Hm]); done).
  apply hard_tracks in Hm0, Hm1; [|done..]. apply soft_tracks in Hm2, Hm3; [|done..].
  pose proof (tracks_trans _ _ _ _ _ _ H0 (tracks_trans _ _ _ _ _ _ Hm0 (tracks_trans _ _ _ _ _ _ Hm1
    (tracks_trans _ _ _ _ _ _ Hm2 Hm3)))) as (n & ? & ?). by exists n.
Qed.
Lemma contracts_tracks agent ev st step ctx ph cs a (s s' : St) a' :
  checkCs agent ev st step ctx ph cs a s = (Ok a', s') -> tracks a s a' s'.
Proof.
  revert a s. induction cs as [|c cs IH]; intros a s; cbn [check_contracts]; intros H; inv_M;
    [apply tracks_refl|].
  eapply tracks_trans; [by eapply contract_tracks|by apply IH].
Qed.

Lemma sweep_hards ks ev st step (s s' : St) :
  wf s -> step_index s = step -> sweepM ks ev st step s = (Ok (), s') -> hards s' = hards s.
Proof.
  revert s. induction ks as [|k ks IH]; intros s Hwf Hst H; [by injection H as <-|].
  destruct (pending_get k (soft_pending s)) as [e|] eqn:Ek.
  2:{ cbn [sweep_loop] in H. inv_M. by rewrite Ek in H. }
  destruct (sweep_cons uuid_hex now ledger recovery k ks ev st step s e Hwf Ek) as (c & Hc & _ & Heq).
  rewrite Heq in H. apply M_bind_Ok in H as ([] & s1 & He & H).
  pose proof (escalate_keeps uuid_hex now ledger recovery k e c ev st step _ Hc s eq_refl Hst Hwf) as Hk.
  rewrite He in Hk. destruct Hk as (_ & Hst1 & Hwf1). rewrite (IH s1 Hwf1 Hst1 H).
  destruct Hwf as (_ & _ & Hf & _).
  destruct (proj1 (list.Forall_forall _ _) Hf _ (pending_get_elem _ _ _ Ek)) as (_ & Hsoft & Ht & _).
  apply escalate_effect in He as (_ & v & Hv & (_ & _ & Hcl & _)); [|done].
  unfold hards. rewrite Hv, hard_count_app. unfold hard_count at 2, hard_record. simpl.
  rewrite Hcl. simpl in Hsoft. rewrite Hsoft. simpl. lia.
Qed.

(** What a completed check adds to the log has a hard record exactly when the
    check is not satisfied. *)
Lemma check_log_verdict ph agent ev st window (s s' : St) ok ids :
  wf s -> checkM ph agent ev st window s = (Ok (ok, ids), s') ->
  existsb hard_record (drop (length (violations s)) (violations s')) = negb ok.
Proof.
  intros Hwf H.
  pose proof (check_completed uuid_hex now ledger recovery py_str str_tuple re_search
                _ _ _ _ _ _ _ _ _ Hwf H) as (a & s1 & Hcs & Hwf1 & _ & Hst1 & -> & _ & Hsw).
  assert (log_grows s s') as (old & new & Hv & Hold).
  { pose proof (violations_append_only uuid_hex now ledger recovery py_str str_tuple re_search
      ph agent ev st window s) as Hl. by rewrite H in Hl. }
  apply contracts_tracks in Hcs as (n & Hn & Ha). apply sweep_hards in Hsw; [|done|done].
  rewrite negb_involutive, Ha. cbn [any_hard counters0 orb]. rewrite Hv.
  rewrite (Forall2_length Hold). rewrite drop_app_length, hard_count_existsb.
  unfold hards in *. cbn [violations with_step with_histories] in *.
  rewrite Hv, hard_count_app, (hard_count_marked _ _ Hold), Hn in Hsw. f_equal. lia.
Qed.

(** The records a check adds carry its step. *)
Definition log_at (step : nat) (s s' : St) : Prop :=
  exists old new, violations s' = old ++ new /\ Forall2 marked (violations s) old
    /\ Forall (fun v => v_step_index v = step) new.
#[local] Instance log_at_preorder step : PreOrder (log_at step).
Proof.
  split.
  - intros s. exists (violations s), []. rewrite app_nil_r. split_and!; [done|reflexivity|done].
  - intros x y z (o1 & n1 & E1 & H1 & F1) (o2 & n2 & E2 & H2 & F2). rewrite E1 in H2.
    apply Forall2_app_inv_l in H2 as (a & b & Ha & Hb & ->).
    exists a, (b ++ n2). rewrite E2, app_assoc. split_and!; [done|by transitivity o1|].
    apply Forall_app. split; [|done]. clear -Hb F1.
    induction Hb as [|v v' l l' Hv Hl IH]; [constructor|]. inversion F1; subst.
    constructor; [by destruct Hv as [-> |(_ & _ & n & ->)]|by apply IH].
Qed.
Lemma log_at_same step (s s' : St) : violations s' = violations s -> log_at step s s'.
Proof. intros H. exists (violations s), []. rewrite app_nil_r. split_and!; [done|reflexivity|done]. Qed.

Lemma record_at c ltl cl soft ev st step d so to :
  respects (log_at step) (recordM c ltl cl soft ev st step d so to).
Proof.
  intros s. destruct (record_violations uuid_hex now ledger recovery c ltl cl soft ev st step d so to s)
    as [w Hw]. destruct (recordM _ _ _ _ _ _ _ _ _ _ s) as [[[]|e] s']; simpl.
  - destruct Hw as (v & (_ & _ & _ & _ & Hst & _) & ->). exists (violations s), [v].
    split_and!; [done|reflexivity|by repeat constructor].
  - subst. by apply log_at_same.
Qed.

Lemma sweep_at ks ev st step : respects (log_at step) (sweepM ks ev st step).
Proof.
  induction ks as [|k ks IH]; simpl; [apply respects_ret; apply _|].
  apply respects_bind; [apply _|apply respects_get; apply _|intros s].
  destruct (pending_get k _); [|apply respects_lift; apply _].
  apply respects_bind; [apply _|intros s'; by apply log_at_same|intros _].
  apply respects_bind; [apply _| |done].
  case_match; [apply record_at|apply respects_ret; apply _].
Qed.

Lemma check_at ph agent ev st window (s : St) :
  log_at (S (step_index s)) s (checkM ph agent ev st window s).2.
Proof.
  rewrite check_unfold. cbv zeta. transitivity (with_step (S (step_index s)) s); [by apply log_at_same|].
  assert (respects (log_at (S (step_index s))) (checkCs agent ev st (S (step_index s))
    {| proposed_event := ev; state := st; event_window := window |} ph
    (active_contracts (contracts s) agent (event_kind ev)) counters0)) as Hc.
  { apply contracts_respects with (CS := contracts s); try apply _; intros; try (by eapply active_subset).
    - apply record_at.
    - apply handle_respects; [apply _|intros; apply record_at|]. intros s' _. by apply log_at_same.
    - apply discharge_respects; [apply _|intros; by apply log_at_same|].
      intros s' e vs Hm%mark_last_marked. exists vs, []. rewrite app_nil_r. split_and!; done. }
  specialize (Hc (with_step (S (step_index s)) s)).
  destruct (checkCs _ _ _ _ _ _ _ _ _) as [[a|e] s1]; [|done]. simpl in Hc.
  etransitivity; [exact Hc|]. set (s2 := with_histories _ _ s1).
  transitivity s2; [by apply log_at_same|].
  pose proof (sweep_at (expired (S (step_index s)) (soft_pending s2)).*1 ev st (S (step_index s)) s2) as Hs.
  by destruct (sweepM _ ev st _ s2) as [[[]|e] s3].
Qed.
End Log.

(** ** The registry *)

Section Registry.
Context {W : Type} (fresh_world : W).
Abbreviation reg := (registry W).

Definition keys {A} (d : list (string * A)) : list string := fst <$> d.

Record registry_ok (g : reg) : Prop := {
  ok_keys : NoDup (keys (g_enforcers g));
  ok_size : length (g_enforcers g) <= g_capacity g;
  ok_capacity : 1 <= g_capacity g;
  ok_enforcers : Forall (fun ke => wf ke.2 /\ contracts ke.2 = g_contracts g) (g_enforcers g);
  ok_prime : forall k, k ∈ keys (g_prime g) -> k ∈ keys (g_enforcers g)
}.

Lemma od_del_keys {A} k (d : list (string * A)) : keys (od_del k d) = List.filter (fun x => negb (String.eqb x k)) (keys d).
Proof.
  unfold keys, od_del. induction d as [|[k' a] d IH]; simpl; [done|].
  destruct (String.eqb k' k); simpl; [|f_equal]; apply IH.
Qed.
Lemma elem_of_del_keys {A} k k' (d : list (string * A)) : k' ∈ keys (od_del k d) <-> k' ∈ keys d /\ k' <> k.
Proof.
  rewrite od_del_keys, list_elem_of_In, filter_In, <- list_elem_of_In, negb_true_iff, String.eqb_neq. done.
Qed.
Lemma od_del_NoDup {A} k (d : list (string * A)) : NoDup (keys d) -> NoDup (keys (od_del k d)).
Proof. rewrite od_del_keys, !NoDup_ListNoDup. apply List.NoDup_filter. Qed.
Lemma od_del_absent {A} k (d : list (string * A)) : k ∉ keys d -> od_del k d = d.
Proof.
  unfold keys, od_del. induction d as [|[k' a] d IH]; simpl; [done|]. rewrite not_elem_of_cons.
  intros [Hk Hd]. destruct (String.eqb_spec k' k); [congruence|]. simpl. f_equal. by apply IH.
Qed.

Lemma session_get_None {A} k (d : list (string * A)) : od_get k d = None <-> k ∉ keys d.
Proof.
  unfold od_get, keys. induction d as [|[k' a] d IH]; simpl; [set_solver|].
  rewrite not_elem_of_cons. destruct (String.eqb_spec k' k); simpl; [naive_solver|]. rewrite IH. naive_solver.
Qed.
Lemma od_get_elem {A} k (d : list (string * A)) a : od_get k d = Some a -> (k, a) ∈ d.
Proof.
  unfold od_get. intros ([k' a'] & Hf & ->)%fmap_Some. apply find_some in Hf as [Hin Hk].
  apply String.eqb_eq in Hk. simpl in *. subst. by apply list_elem_of_In.
Qed.
Lemma session_get_app {A} k (d d' : list (string * A)) :
  od_get k (d ++ d') = match od_get k d with Some a => Some a | None => od_get k d' end.
Proof. unfold od_get. induction d as [|[k' a] d IH]; simpl; [done|]. by destruct (String.eqb k' k). Qed.
Lemma od_get_del {A} k k' (d : list (string * A)) :
  od_get k' (od_del k d) = if decide (k' = k) then None else od_get k' d.
Proof.
  unfold od_get, od_del. induction d as [|[x a] d IH]; simpl; [by case_decide|].
  destruct (String.eqb_spec x k); simpl; [|destruct (String.eqb_spec x k'); simpl]; subst.
  - rewrite IH. case_decide; [done|]. destruct (String.eqb_spec k k'); congruence.
  - by rewrite decide_False.
  - apply IH.
Qed.
Lemma dict_set_keys {A} k (a : A) d x : x ∈ keys (PdpDomain.dict_set k a d) <-> x = k \/ x ∈ keys d.
Proof.
  unfold keys. induction d as [|[k' a'] d IH]; simpl; [set_solver|].
  destruct (String.eqb_spec k k'); simpl; set_solver.
Qed.

(** Reordering changes no lookup but that of its key. *)
Lemma put_last_get k e (g : reg) k' :
  od_get k' (g_enforcers (put_last k e g))
  = if decide (k' = k) then Some e else od_get k' (g_enforcers g).
Proof.
  simpl. rewrite session_get_app, od_get_del. case_decide as Hk; subst.
  - unfold od_get. simpl. by rewrite String.eqb_refl.
  - destruct (od_get k' (g_enforcers g)); [done|]. unfold od_get. simpl.
    destruct (String.eqb_spec k k'); [congruence|done].
Qed.

Lemma put_last_keys k e (g : reg) x : x ∈ keys (g_enforcers (put_last k e g)) <-> x = k \/ x ∈ keys (g_enforcers g).
Proof.
  unfold keys. simpl. rewrite fmap_app, elem_of_app. fold (keys (od_del k (g_enforcers g))).
  rewrite elem_of_del_keys. simpl. rewrite list_elem_of_singleton. destruct (decide (x = k)); naive_solver.
Qed.
Lemma put_last_NoDup k e (g : reg) :
  NoDup (keys (g_enforcers g)) -> NoDup (keys (g_enforcers (put_last k e g))).
Proof.
  intros H. unfold keys. simpl. rewrite fmap_app. apply list.NoDup_app. split_and!.
  - by apply od_del_NoDup.
  - intros x Hx Hin. apply list_elem_of_singleton in Hin. simpl in Hin. subst.
    by apply elem_of_del_keys in Hx as [_ ?].
  - apply list.NoDup_singleton.
Qed.
Lemma od_del_Forall {A} (P : string * A -> Prop) k d : Forall P d -> Forall P (od_del k d).
Proof.
  rewrite !list.Forall_forall. unfold od_del. intros H x Hx.
  apply list_elem_of_In, filter_In in Hx as [Hx _]. by apply H, list_elem_of_In.
Qed.
Lemma put_last_length k e (g : reg) :
  NoDup (keys (g_enforcers g)) ->
  length (g_enforcers (put_last k e g))
  = if decide (k ∈ keys (g_enforcers g)) then length (g_enforcers g) else S (length (g_enforcers g)).
Proof.
  intros Hn. simpl. rewrite length_app. simpl. case_decide as Hk.
  - unfold keys, od_del in *. induction (g_enforcers g) as [|[x a] d IH]; simpl in *; [set_solver|].
    apply list.NoDup_cons in Hn as [Hx Hn]. destruct (String.eqb_spec x k); simpl.
    + subst. fold (od_del k d). rewrite od_del_absent by done. lia.
    + rewrite <- IH; [done|done|set_solver].
  - rewrite od_del_absent by done. lia.
Qed.

(** A session's enforcer, put back. *)
Lemma put_back_ok k e (g : reg) :
  registry_ok g -> k ∈ keys (g_enforcers g) -> wf e -> contracts e = g_contracts g ->
  registry_ok (put_last k e g).
Proof.
  intros [Hk Hs Hc He Hp] Hin Hwf Hcs. constructor.
  - by apply put_last_NoDup.
  - rewrite put_last_length by done. by rewrite decide_True.
  - done.
  - simpl. apply Forall_app. split; [by apply od_del_Forall|by apply list.Forall_singleton].
  - intros x Hx. apply put_last_keys. right. by apply Hp.
Qed.

Lemma od_elem_get {A} k (d : list (string * A)) a : NoDup (keys d) -> (k, a) ∈ d -> od_get k d = Some a.
Proof.
  unfold keys, od_get. induction d as [|[x b] d IH]; simpl; [set_solver|].
  rewrite list.NoDup_cons, elem_of_cons. intros [Hx Hn] [?|Hin]; simplify_eq.
  - by rewrite String.eqb_refl.
  - destruct (String.eqb_spec x k); [|by apply IH]. subst. destruct Hx. by apply (list_elem_of_fmap_2 fst) in Hin.
Qed.
Lemma foldl_del_keys {A B} (ks : list (string * B)) (d : list (string * A)) x :
  x ∈ keys (foldl (fun d kv => od_del kv.1 d) d ks) <-> x ∈ keys d /\ x ∉ keys ks.
Proof.
  revert d. induction ks as [|[k b] ks IH]; intros d; simpl; [set_solver|].
  rewrite IH, elem_of_del_keys. unfold keys. simpl. rewrite not_elem_of_cons. tauto.
Qed.
Lemma drop_keys {A} n (d : list (string * A)) x : x ∈ keys (drop n d) -> x ∈ keys d.
Proof.
  intros H. rewrite <- (take_drop n d). unfold keys in *. rewrite fmap_app. set_solver.
Qed.
Lemma drop_NoDup {A} n (d : list (string * A)) : NoDup (keys d) -> NoDup (keys (drop n d)).
Proof. intros H. rewrite <- (take_drop n d) in H. unfold keys in *. rewrite fmap_app, list.NoDup_app in H. apply H. Qed.

(** A new session: the oldest one leaves when the registry is full. *)
Lemma evict_one k e (g : reg) p :
  registry_ok g -> k ∉ keys (g_enforcers g) -> wf e -> contracts e = g_contracts g ->
  let g' := evict (set_prime k p (put_last k e g)) in
  let n := S (length (g_enforcers g)) - g_capacity g in
  registry_ok g' /\ g_enforcers g' = drop n (g_enforcers g) ++ [(k, e)].
Proof.
  intros [Hk Hs Hc He Hp] Hin Hwf Hcs g' n.
  assert (g_enforcers g' = drop n (g_enforcers g) ++ [(k, e)]) as Hg.
  { subst g' n. unfold evict. simpl. rewrite od_del_absent by done. rewrite length_app. simpl.
    rewrite Nat.add_1_r. apply drop_app_le. lia. }
  split; [|done].
  assert (forall x, x ∈ keys (g_enforcers g') <-> x = k \/ x ∈ keys (drop n (g_enforcers g))) as Hkeys.
  { intros x. rewrite Hg. unfold keys. rewrite fmap_app, elem_of_app. simpl. set_solver. }
  constructor.
  - rewrite Hg. unfold keys. rewrite fmap_app. apply list.NoDup_app. split_and!.
    + by apply drop_NoDup.
    + intros x Hx Hin'. apply list_elem_of_singleton in Hin'. simpl in Hin'. subst. apply Hin.
      apply drop_keys in Hx. done.
    + apply list.NoDup_singleton.
  - rewrite Hg, length_app, length_drop. simpl. lia.
  - done.
  - rewrite Hg. apply Forall_app. split; [by apply Forall_drop|by apply list.Forall_singleton].
  - intros x Hx. apply Hkeys. simpl in Hx. rewrite od_del_absent in Hx by done.
    apply foldl_del_keys in Hx as [Hx Ht]. apply dict_set_keys in Hx as [-> |Hx]; [by left|]. right.
    apply Hp in Hx. rewrite length_app, Nat.add_1_r in Ht. fold n in Ht.
    rewrite take_app_le in Ht by lia. rewrite <- (take_drop n (g_enforcers g)) in Hx.
    unfold keys in *. rewrite fmap_app in Hx. set_solver.
Qed.

Lemma new_enforcer_wf cs e : new_enforcer fresh_world cs = Ok e -> wf e /\ contracts e = cs.
Proof.
  unfold new_enforcer. destruct (init None cs false _ fresh_world) as [e'|] eqn:E; intros [= ->].
  split; [by eapply init_wf|]. unfold init in E. destruct cs as [|c cs]; [done|].
  destruct (xorb _ _); [done|]. destruct (has_duplicate _ _); [done|]. by inv_bind.
Qed.

(** What [get_or_create] leaves of the other sessions. *)
Record opens (k : string) (g g' : reg) : Prop := {
  op_contracts : g_contracts g' = g_contracts g;
  op_capacity : g_capacity g' = g_capacity g;
  op_others : forall k' e, k' <> k -> od_get k' (g_enforcers g') = Some e ->
    od_get k' (g_enforcers g) = Some e;
  op_room : k ∈ keys (g_enforcers g) \/ length (g_enforcers g) < g_capacity g ->
    forall k', k' <> k -> od_get k' (g_enforcers g') = od_get k' (g_enforcers g)
}.

Lemma opens_refl k g : opens k g g.
Proof. by constructor. Qed.
Lemma opens_put k e (g : reg) : opens k g (put_last k e g).
Proof.
  constructor; try done.
  - intros k' e' Hne. rewrite put_last_get. by rewrite decide_False.
  - intros _ k' Hne. rewrite put_last_get. by rewrite decide_False.
Qed.

Lemma get_or_create_spec k (g g' : reg) r :
  registry_ok g -> get_or_create fresh_world k g = (r, g') ->
  registry_ok g' /\ opens k g g'
  /\ match r with
     | Ok e => od_get k (g_enforcers g') = Some e /\ wf e /\ contracts e = g_contracts g
     | Err _ => True
     end.
Proof.
  intros Hok. unfold get_or_create. destruct (od_get k (g_enforcers g)) as [e|] eqn:E.
  - intros [= <- <-]. pose proof (od_get_elem _ _ _ E) as Hin.
    destruct (proj1 (list.Forall_forall _ _) (ok_enforcers _ Hok) _ Hin) as [Hwf Hcs].
    split_and!; [|apply opens_put|by rewrite put_last_get, decide_True|done|done].
    apply put_back_ok; try done. by apply (list_elem_of_fmap_2 fst) in Hin.
  - apply session_get_None in E. destruct (new_enforcer fresh_world (g_contracts g)) as [e|x] eqn:En;
      intros [= <- <-]; [|split_and!; [done|apply opens_refl|done]].
    apply new_enforcer_wf in En as [Hwf Hcs].
    destruct (evict_one k e g {| primed := false; primed_at_count := 0 |} Hok E Hwf Hcs) as [Hok' Hg].
    set (g' := evict _) in *. set (n := S _ - _) in *. split_and!; try done.
    + constructor; try done; rewrite Hg.
      * intros k' e' Hne H. rewrite session_get_app in H.
        destruct (od_get k' (drop n (g_enforcers g))) as [e1|] eqn:E1.
        -- simplify_eq. apply od_get_elem in E1. apply od_elem_get; [apply Hok|].
           rewrite <- (take_drop n (g_enforcers g)). set_solver.
        -- unfold od_get in H. simpl in H. destruct (String.eqb_spec k k'); [congruence|done].
      * intros [Hin|Hroom] k' Hne; [done|]. replace n with 0 by lia. rewrite drop_0, session_get_app.
        destruct (od_get k' (g_enforcers g)); [done|]. unfold od_get. simpl.
        destruct (String.eqb_spec k k'); [congruence|done].
    + rewrite Hg, session_get_app.
      destruct (od_get k (drop n (g_enforcers g))) as [e1|] eqn:E1.
      * apply od_get_elem, (list_elem_of_fmap_2 fst) in E1. by apply drop_keys in E1.
      * unfold od_get. simpl. by rewrite String.eqb_refl.
Qed.
End Registry.

(** ** One evaluation *)

Section Sessions.
Context {W : Type} (uuid_hex : W -> string * W) (now : W -> string * W) (fresh_world : W).
Context (py_str : pyval -> string) (str_tuple : list string -> string).
Context (re_search : string -> string -> result ContractLtl.exn bool).
Context (isoformat str_time : Z -> string).
Abbreviation reg := (registry W).
Abbreviation evaluateS := (evaluate_session uuid_hex now fresh_world py_str str_tuple re_search isoformat str_time).
Abbreviation checkM := (session_check uuid_hex now py_str str_tuple re_search).
Abbreviation event := (build_proposed_event isoformat).
Abbreviation nstate := (build_neutral_state str_time).

Lemma primed_wf history agent st (e : ContractEnforcer.enforcer (W := W)) :
  wf e ->
  wf (prime_enforcer_with_history uuid_hex now py_str str_tuple re_search history agent st e)
  /\ contracts (prime_enforcer_with_history uuid_hex now py_str str_tuple re_search history agent st e)
     = contracts e.
Proof.
  intros Hwf. destruct history as [|ev history]; [done|]. unfold prime_enforcer_with_history.
  set (l := ev :: history). clearbody l.
  assert (forall e1, wf e1 -> contracts e1 = contracts e -> step_index e <= step_index e1 ->
    let e2 := foldl (fun e ev => (checkM agent ev st [] e).2) e1 l in
    wf e2 /\ contracts e2 = contracts e /\ step_index e <= step_index e2) as Hgo.
  { induction l as [|x l IH]; intros e1 H1 Hc Hs; [done|]. simpl.
    destruct (check_keeps uuid_hex now None None py_str str_tuple re_search pre agent x st [] e1 H1)
      as (Hc1 & Hs1 & H2).
    apply IH; [done|unfold session_check, check_pre; congruence|unfold session_check, check_pre; lia]. }
  destruct (Hgo e Hwf eq_refl (le_n _)) as ((Hp & Hn & He & _) & Hc & Hs).
  set (e2 := foldl _ _ _) in *. split; [|done]. split_and!; try done. simpl.
  destruct Hwf as (_ & _ & _ & Hv). eapply list.Forall_impl; [exact Hv|]. simpl.
  intros v [Hst Hin]. rewrite Hc. split; [lia|done].
Qed.

Lemma prime_spec ledger limit key r e (g : reg) n e' g' :
  registry_ok g -> od_get key (g_enforcers g) = Some e -> wf e -> contracts e = g_contracts g ->
  prime uuid_hex now py_str str_tuple re_search str_time ledger limit key r e g = (n, e', g') ->
  registry_ok g' /\ g_enforcers g' = g_enforcers g /\ g_contracts g' = g_contracts g
  /\ g_capacity g' = g_capacity g /\ wf e' /\ contracts e' = contracts e.
Proof.
  intros Hok Hget Hwf Hcs. unfold prime. destruct ledger as [l|]; [|by intros [= <- <- <-]].
  destruct (req_agent_id r) as [a|]; [|by intros [= <- <- <-]].
  destruct (is_primed key g); [by intros [= <- <- <-]|]. intros [= <- <- <-].
  destruct (primed_wf (ledger_window_for l a (PdpDomain.session_id r) limit) (default "_anonymous" (Some a))
    (nstate r) e Hwf) as [Hwf' Hcs']. split_and!; try done.
  destruct Hok as [Hk Hs Hc He Hp]. constructor; try done. intros x Hx. simpl in Hx.
  apply dict_set_keys in Hx as [-> |Hx]; [|by apply Hp].
  apply od_get_elem, (list_elem_of_fmap_2 fst) in Hget. done.
Qed.

Lemma run_check_wf ledger limit key n r (e : ContractEnforcer.enforcer (W := W)) :
  wf e ->
  wf (run_check isoformat str_time checkM ledger limit key n r e).2
  /\ contracts (run_check isoformat str_time checkM ledger limit key n r e).2 = contracts e.
Proof.
  intros Hwf. unfold run_check. set (window := match ledger with Some _ => _ | None => _ end).
  destruct (check_keeps uuid_hex now None None py_str str_tuple re_search pre
    (default "_anonymous" (req_agent_id r)) (event r) (nstate r) window e Hwf) as (Hc & _ & Hw).
  unfold session_check, check_pre. by destruct (check _ _ _ _ _ _ _ pre _ _ _ window e) as [[]?].
Qed.

(** The registry after an evaluation, and the check that was made. *)
Lemma evaluate_session_spec ledger limit r (g g' : reg) o :
  registry_ok g -> evaluateS ledger limit r g = (o, g') ->
  let key := session_key_for (req_agent_id r) (PdpDomain.session_id r) in
  registry_ok g' /\ opens key g g'
  /\ match o with
     | Err _ => True
     | Ok o => exists n (e : ContractEnforcer.enforcer (W := W)),
         wf e /\ contracts e = g_contracts g
         /\ fst (run_check isoformat str_time checkM ledger limit (Some key) n r e) = Ok o
     end.
Proof.
  intros Hok. unfold evaluate_session. set (key := session_key_for _ _).
  destruct (get_or_create fresh_world key g) as [[e|x] g1] eqn:Eg.
  2:{ intros [= <- <-]. by destruct (get_or_create_spec _ _ _ _ _ Hok Eg) as (? & ? & _). }
  destruct (get_or_create_spec _ _ _ _ _ Hok Eg) as (Hok1 & Hop & Hget & Hwf & Hcs).
  destruct (prime _ _ _ _ _ _ ledger limit key r e g1) as [[n e1] g2] eqn:Ep.
  rewrite <- (op_contracts _ _ _ Hop) in Hcs.
  destruct (prime_spec _ _ _ _ _ _ _ _ _ Hok1 Hget Hwf Hcs Ep) as (Hok2 & Hg2 & Hc2 & Hcap2 & Hwf1 & Hcs1).
  destruct (run_check _ _ _ ledger limit (Some key) n r e1) as [o1 e2] eqn:Er. intros [= <- <-].
  pose proof (run_check_wf ledger limit (Some key) n r e1 Hwf1) as [Hwf2 Hcs2]. rewrite Er in Hwf2, Hcs2.
  simpl in Hwf2, Hcs2. split_and!.
  - apply put_back_ok; [done| |done|congruence]. rewrite Hg2.
    apply od_get_elem, (list_elem_of_fmap_2 fst) in Hget. done.
  - destruct Hop as [Hoc Hocap Hoth Hroom]. constructor; try (simpl; congruence).
    + intros k' e' Hne. rewrite put_last_get, decide_False, Hg2 by done. by apply Hoth.
    + intros Hr k' Hne. rewrite put_last_get, decide_False, Hg2 by done. by apply Hroom.
  - destruct o1 as [o1|]; [|done]. exists n, e1. rewrite Er. split_and!; [done| |done].
    rewrite <- (op_contracts _ _ _ Hop). congruence.
Qed.

(** ** Guarantees *)

(** The registries the program reaches. *)
Inductive reachable_registry : reg -> Prop :=
| registry_new cs cap g : new_registry cs cap = Ok g -> reachable_registry g
| registry_evaluate ledger limit r g :
    reachable_registry g -> reachable_registry (evaluateS ledger limit r g).2
| registry_forget k g : reachable_registry g -> reachable_registry (forget k g).2.

Lemma forget_ok k (g : reg) : registry_ok g -> registry_ok (forget k g).2.
Proof.
  intros Hok. pose proof Hok as [Hk Hs Hc He Hp]. unfold forget. destruct (od_get _ _); [|done]. simpl.
  constructor; simpl; try done.
  - by apply od_del_NoDup.
  - etransitivity; [|exact Hs]. unfold od_del. apply List.filter_length_le.
  - by apply od_del_Forall.
  - intros x [Hx Hne]%elem_of_del_keys. apply elem_of_del_keys. split; [by apply Hp|done].
Qed.

Lemma reachable_registry_ok g : reachable_registry g -> registry_ok g.
Proof.
  induction 1 as [cs cap g Hnew|ledger limit r g _ IH|k g _ IH].
  - unfold new_registry in Hnew. destruct cs as [|c cs]; [done|].
    destruct (Z.ltb_spec cap 1); simplify_eq. constructor; simpl; try lia; [constructor..|done].
  - destruct (evaluateS ledger limit r g) as [o g'] eqn:E.
    by destruct (evaluate_session_spec _ _ _ _ _ _ IH E) as (? & _).
  - by apply forget_ok.
Qed.

(** Invariant of the session registry, over any sequence of evaluations
    (those that raise included) and removals: one enforcer per key, never more
    than the capacity, each a well-formed enforcer of the registry's own
    contracts, and no replay mark without a session. *)
Theorem registry_invariant g : reachable_registry g -> registry_ok g.
Proof. apply reachable_registry_ok. Qed.

(** Sessions are isolated: an evaluation leaves every other session's
    enforcer as it was, or drops it, and drops none while the session exists or
    there is room. *)
Theorem sessions_isolated ledger limit r g o g' :
  reachable_registry g -> evaluateS ledger limit r g = (o, g') ->
  let key := session_key_for (req_agent_id r) (PdpDomain.session_id r) in
  (forall k e, k <> key -> od_get k (g_enforcers g') = Some e -> od_get k (g_enforcers g) = Some e)
  /\ (key ∈ keys (g_enforcers g) \/ length (g_enforcers g) < g_capacity g ->
      forall k, k <> key -> od_get k (g_enforcers g') = od_get k (g_enforcers g)).
Proof.
  intros Hg%reachable_registry_ok H. destruct (evaluate_session_spec _ _ _ _ _ _ Hg H) as (_ & [_ _ H1 H2] & _).
  by split.
Qed.

(** The bridge reports a hard violation exactly when a hard clause of an
    applicable contract fails on the live event, although it never reads the
    enforcer's verdict but only the log; and it surfaces the records of this
    check alone, not those of the replayed history. *)
Theorem hard_violation_exact ledger limit r g o g' :
  reachable_registry g -> evaluateS ledger limit r g = (Ok o, g') ->
  let window := match ledger, req_agent_id r with
                | Some l, Some a => ledger_window_for l a (PdpDomain.session_id r) limit
                | _, _ => []
                end in
  let ctx := {| proposed_event := event r; state := nstate r; event_window := window |} in
  (has_hard_violation o = false <->
   forall c, c ∈ active_contracts (g_contracts g) (default "_anonymous" (req_agent_id r)) (event_kind (event r)) ->
     exists p, parsed_formulas c = Ok p /\ all_hold py_str str_tuple re_search ctx (hard_formulas pre p))
  /\ Forall (fun v => v_step_index v = step_index_at_check o) (raw_violations o).
Proof.
  intros Hg%reachable_registry_ok H window ctx.
  destruct (evaluate_session_spec _ _ _ _ _ _ Hg H) as (_ & _ & n & e & Hwf & Hcs & Hr).
  unfold run_check in Hr. fold window in Hr. unfold session_check, check_pre in Hr.
  destruct (check _ _ _ _ _ _ _ pre _ _ _ window e) as [[[ok ids]|x] e'] eqn:Hc; [|done].
  simpl in Hr. unfold outcome_of in Hr. inv_bind. cbn [has_hard_violation step_index_at_check raw_violations].
  split.
  - change (fun v => negb (is_soft_clause (violated_clause v))) with hard_record.
    rewrite (check_log_verdict _ _ _ _ _ _ _ _ _ _ _ _ _ _ _ _ Hwf Hc).
    rewrite negb_false_iff, <- Hcs.
    apply (check_verdict_wf _ _ _ _ _ _ _ _ _ _ _ _ _ _ _ _ Hwf Hc).
  - pose proof (check_at uuid_hex now None None py_str str_tuple re_search pre
      (default "_anonymous" (req_agent_id r)) (event r) (nstate r) window e) as Hat.
    rewrite Hc in Hat. destruct Hat as (old & new & Hv & Hold & Hnew). simpl in Hv.
    rewrite Hv, (Forall2_length Hold), drop_app_length. done.
Qed.
End Sessions.
End ContractBridgeSpec.

(** * The contract bridge: sessions of two agents *)
Import PdpDomain ContractEnforcer ContractRuns ContractBridge ContractBridgeSpec.
Open Scope string_scope.
Open Scope list_scope.
Open Scope nat_scope.

Module ContractBridgeRuns.

(** No text messages, and a production send should carry a recipient. *)
Definition no_sms : BehavioralContract := {|
  contract_id := "no-sms"; ContractEnforcer.agent_id := "*"; description := "no text messages";
  precondition_ltl := "true"; postcondition_ltl := "true";
  invariants_ltl := ["field:channel!=sms"]; soft_invariants_ltl := ["field:recipient!=nobody"];
  hard_governance_ltl := []; soft_governance_ltl := [];
  covered_event_kinds := ["*"]; severity_on_violation := block;
  recovery_window_k := 1; delta_tolerance := dec 1 1; satisfaction_p := dec 95 2 |}.

Definition request_to (to agent session chan : string) : EvaluationRequest := {|
  request_id := "r"; action_type := "send"; content := "hello"; recipient := Some to; channel := chan;
  environment := "production"; metadata := []; req_agent_id := Some agent;
  PdpDomain.session_id := Some session; agent_identity := None; requested_at := 0 |}.
Definition request : string -> string -> string -> EvaluationRequest := request_to "a@x".

Definition time0 (_ : Z) : string := "2026-01-01T00:00:00+00:00".
Abbreviation evaluate0 := (evaluate_session uuid0 now0 0 py_str0 str_tuple0 re_search0 time0 time0).
Abbreviation reachable0 := (reachable_registry uuid0 now0 0 py_str0 str_tuple0 re_search0 time0 time0).

Definition empty_registry : registry nat :=
  {| g_contracts := [no_sms]; g_enforcers := []; g_prime := []; g_capacity := 2 |}.
Lemma empty_reachable : reachable0 empty_registry.
Proof. by apply (registry_new _ _ _ _ _ _ _ _ [no_sms] 2). Qed.

Definition after (r : EvaluationRequest) (g : registry nat) : registry nat := (evaluate0 None 32 r g).2.
Lemma after_reachable r g : reachable0 g -> reachable0 (after r g).
Proof. apply registry_evaluate. Qed.

Definition one : registry nat := after (request "a" "s1" "email") empty_registry.
Definition two : registry nat := after (request "b" "s2" "email") one.
Lemma two_reachable : reachable0 two.
Proof. apply after_reachable, after_reachable, empty_reachable. Qed.

(** A third session evicts the least recently used of two. *)
Lemma registry_invariant_witness :
  registry_ok (after (request "c" "s3" "email") two)
  /\ keys (g_enforcers (after (request "c" "s3" "email") two)) = ["b::s2"; "c::s3"].
Proof.
  split; [|vm_compute; reflexivity].
  apply (registry_invariant uuid0 now0 0 py_str0 str_tuple0 re_search0 time0 time0).
  apply after_reachable, two_reachable.
Defined.

(** A violation in one session leaves the other's enforcer as it was. *)
Lemma sessions_isolated_witness :
  let g := after (request "b" "s2" "sms") two in
  od_get "a::s1" (g_enforcers g) = od_get "a::s1" (g_enforcers two).
Proof.
  intros g.
  assert (evaluate0 None 32 (request "b" "s2" "sms") two
          = ((evaluate0 None 32 (request "b" "s2" "sms") two).1, g)) as E
    by (subst g; unfold after; destruct (evaluate0 _ _ _ _); reflexivity).
  apply (proj2 (sessions_isolated uuid0 now0 0 py_str0 str_tuple0 re_search0 time0 time0
                  None 32 (request "b" "s2" "sms") two _ g two_reachable E)); [|discriminate].
  left. apply (bool_decide_unpack _). vm_compute. exact I.
Defined.

Definition outcome0 (r : EvaluationRequest) (g : registry nat) : ContractEvaluationOutcome :=
  match (evaluate0 None 32 r g).1 with Ok o => o | Err _ => NEUTRAL_OUTCOME end.

(** The email breaks no hard clause; the text message is reported. *)
Lemma hard_violation_exact_witness :
  has_hard_violation (outcome0 (request "b" "s2" "sms") two) = true
  /\ has_hard_violation (outcome0 (request "b" "s2" "email") two) = false
  /\ Forall (fun v => v_step_index v = 2) (raw_violations (outcome0 (request "b" "s2" "sms") two)).
Proof.
  split; [vm_compute; reflexivity|]. split; [vm_compute; reflexivity|].
  assert (evaluate0 None 32 (request "b" "s2" "sms") two
          = (Ok (outcome0 (request "b" "s2" "sms") two), after (request "b" "s2" "sms") two)) as E
    by (vm_compute; reflexivity).
  exact (proj2 (hard_violation_exact uuid0 now0 0 py_str0 str_tuple0 re_search0 time0 time0
                  None 32 (request "b" "s2" "sms") two _ _ two_reachable E)).
Defined.

(** The key of a request without a session is that of a session with the name of
    the placeholder. *)
Example session_key_collision :
  session_key_for (Some "a") None = session_key_for (Some "a") (Some "_no_session").
Proof. reflexivity. Qed.

(** An obligation that was not met in time is logged with the severity of a
    block, and still only reported as a soft violation. *)
Definition nobody : EvaluationRequest := request_to "nobody" "a" "s1" "email".
Definition overdue : registry nat := after nobody (after nobody one).
Example expired_recovery_stays_soft :
  let o := outcome0 nobody overdue in
  (v_severity <$> raw_violations o) = [block]
  /\ has_hard_violation o = false /\ has_soft_violation o = true.
Proof. vm_compute. split_and!; reflexivity. Qed.

End ContractBridgeRuns.
