(* ===== verification/Pdp.v ===== *)
(** * The decision point

    [PolicyDecisionPoint.evaluate] of [tex/engine/pdp.py], from the streams to the
    final routing result: the hard-violation short circuit, the router, the
    soft signals and holds in their order, the conformal gate, and precedent.
    The evidence streams (recognizers, retrieval, agent evaluators, specialists,
    semantic analyzer), the risk spine and the ledger are arguments; the objects
    the evaluation mutates are its state, and an exception keeps what was done
    before it. *)
From S2P Require Import Prelude StateExn PyStr PyFloat PyVal ContractLtl ContractAtoms ContractEnforcer.
From S2P Require Import RouterDomain RouterFusion Router PyFormat PdpDomain Cadence PathBridge StructuralFloor.
From S2P Require Import CrcGate Precedent Holds ContractBridge.
Import RouterDomain RouterFusion Router PdpDomain ContractBridge Precedent Holds.
Open Scope string_scope.
Open Scope list_scope.
Open Scope nat_scope.

Module Pdp.

(** ** Results built by the decision point *)

Section Results.
Context {A : Type}.

(** [forbid_reason or default]. *)
Definition reason_or (r : option string) (d : string) : string :=
  match r with Some (String c s) => String c s | _ => d end.

Definition hard_reasons (c : ContractEvaluationOutcome) (p : PathBridge.PathPolicyOutcome)
    (f : StructuralFloor.StructuralFloorResult) : list string :=
  let rs :=
    (if has_hard_violation c then [reason_or (c_forbid_reason c) "behavioral contract hard violation"] else [])
    ++ (if PathBridge.has_block p
        then [reason_or (PathBridge.forbid_reason p) "path policy hard violation (block)"] else [])
    ++ (if StructuralFloor.fl_fired f then StructuralFloor.fl_reasons f else []) in
  match rs with [] => ["structural hard violation"] | _ => rs end.

Definition hard_scores (c : ContractEvaluationOutcome) (p : PathBridge.PathPolicyOutcome)
    (f : StructuralFloor.StructuralFloorResult) : list (string * float) :=
  let d := if has_hard_violation c then [("contracts", f_one)] else [] in
  let d := if PathBridge.has_block p then dict_set "path_policy" f_one d else d in
  let d := if StructuralFloor.fl_fired f
           then foldl (fun d n => dict_set ("structural_" +:+ n) f_one d)
                  (dict_set "structural_floor" f_one d) (StructuralFloor.denying_specialists f)
           else d in
  match d with [] => [("contracts", f_one)] | _ => d end.

Definition build_hard_forbid_routing_result (c : ContractEvaluationOutcome)
    (p : PathBridge.PathPolicyOutcome) (f : StructuralFloor.StructuralFloorResult)
    (deterministic_findings : list Finding) (asi : A) : result exn (RoutingResult A) :=
  of_router (new_result {|
    verdict := FORBID; confidence := f_one; final_score := f_one;
    reasons := hard_reasons c p f;
    uncertainty_flags := [];
    r_findings := deterministic_findings ++ c_findings c ++ PathBridge.p_findings p
                    ++ StructuralFloor.fl_findings f;
    scores := hard_scores c p f; asi_findings := asi; override_fired := false |}).

Definition SOFT_CONTRACT_REASON : string :=
  "behavioral contract soft violation " +:+ emdash +:+ " promoted to ABSTAIN".
Definition merge_soft_contract_signals (base : RoutingResult A) (c : ContractEvaluationOutcome)
    : result exn (RoutingResult A) :=
  let permit := is_permit base in
  rebuild base (if permit then ABSTAIN else verdict base)
    (if permit then reasons base ++ [SOFT_CONTRACT_REASON] else reasons base)
    (uncertainty_flags base ++ c_soft_flags c)
    (r_findings base ++ c_findings c)
    (dict_set "contracts_soft"
       (fmin f_one (fadd (dec 5 1) (fmul (dec 1 1) (CrcGate.fnat (length (c_findings c))))))
       (scores base)).

Definition SOFT_PATH_REASON : string :=
  "path policy soft violation (warn) " +:+ emdash +:+ " promoted to ABSTAIN".
Definition merge_path_signals (base : RoutingResult A) (p : PathBridge.PathPolicyOutcome)
    : result exn (RoutingResult A) :=
  let demote := PathBridge.has_warn p && is_permit base in
  rebuild base (if demote then ABSTAIN else verdict base)
    (if demote then reasons base ++ [SOFT_PATH_REASON] else reasons base)
    (uncertainty_flags base ++ PathBridge.soft_uncertainty_flags p)
    (r_findings base ++ PathBridge.p_findings p)
    (if bool_decide (PathBridge.violated_policy_ids p = []) then scores base
     else dict_set "path_policy" (fmin f_one (fmax f_zero (PathBridge.violation_score p))) (scores base)).

Definition apply_crc_demotion (base : RoutingResult A) (crc : CrcGate.CRCGateResult)
    : result exn (RoutingResult A) :=
  rebuild base ABSTAIN (reasons base ++ CrcGate.c_reasons crc)
    (uncertainty_flags base ++ CrcGate.c_flags crc) (r_findings base) (scores base).
End Results.

(** ** The evaluation *)

(** What is sealed on the way to the verdict. *)
Inductive sealed_fact :=
| AttemptFact (r : EvaluationRequest)
| PQFact (a : PQDurabilityAssessment) (r : EvaluationRequest)
| PrecedentFactOf (f : PrecedentFact).

(** What the evaluation knows of its inputs when the verdict is final. *)
Record decision (A : Type) := {
  d_signals : signals;
  d_contract : ContractEvaluationOutcome;
  d_path : PathBridge.PathPolicyOutcome;
  d_floor : StructuralFloor.StructuralFloorResult;
  routed_base : option (RoutingResult A);
  held : RoutingResult A;
  gated : RoutingResult A;
  final : RoutingResult A
}.
Arguments d_signals {A} _.
Arguments d_contract {A} _.
Arguments d_path {A} _.
Arguments d_floor {A} _.
Arguments routed_base {A} _.
Arguments held {A} _.
Arguments gated {A} _.
Arguments final {A} _.

(** The streams, each of which may raise. *)
Record streams := {
  gate_evaluate : EvaluationRequest -> result exn DeterministicGateResult;
  retrieve : EvaluationRequest -> result exn (list RetrievedPrecedent);
  agent_evaluate : EvaluationRequest -> result exn AgentEvaluationBundle;
  specialists_evaluate : EvaluationRequest -> result exn SpecialistBundle;
  semantic_analyze : EvaluationRequest -> result exn SemanticAnalysis
}.

Section Evaluate.
Context {W L S A : Type}.
Context (uuid_hex : W -> string * W) (now : W -> string * W) (fresh_world : W).
Context (py_str : pyval -> string) (str_tuple : list string -> string).
Context (re_search : string -> string -> result ContractLtl.exn bool).
Context (isoformat str_time : Z -> string) (fromisoformat : string -> option Z).
Context (parse_error_text : string -> string) (unsafe_order : list string).
Context (active_backend_id : option string).
Context (append : sealed_fact -> L -> bool * L).
Context (spine_evaluate : EvaluationRequest -> S -> SpineSignal * S).
Context (rule : SelectiveRiskRule).
Context (build_asi_findings : DeterministicGateResult -> SpecialistBundle -> SemanticAnalysis -> bool ->
                              result RouterDomain.exn A).
Context (st : streams) (action_ledger : option action_ledger).
Context (crc_gate : CrcGate.ConformalRiskGate).
Context (policy : PolicySnapshot) (precedent_policy : PrecedentPolicy).

(** The tracker is the module's own, shared by every decision point. *)
Record pdp := {
  contract_layer_of : @contract_layer W;
  cadence : Cadence.tracker;
  decision_ledger : option L;
  risk_spine : option S
}.
Abbreviation M := (stM pdp exn).

Definition on_contracts {B} (f : @contract_layer W -> result exn B * @contract_layer W) : M B := fun s =>
  let '(b, c) := f (contract_layer_of s) in
  (b, {| contract_layer_of := c; cadence := cadence s; decision_ledger := decision_ledger s;
         risk_spine := risk_spine s |}).
Definition on_cadence {B} (f : Cadence.tracker -> result exn B * Cadence.tracker) : M B := fun s =>
  let '(b, t) := f (cadence s) in
  (b, {| contract_layer_of := contract_layer_of s; cadence := t; decision_ledger := decision_ledger s;
         risk_spine := risk_spine s |}).
Definition on_ledger {B} (f : option L -> result exn B * option L) : M B := fun s =>
  let '(b, l) := f (decision_ledger s) in
  (b, {| contract_layer_of := contract_layer_of s; cadence := cadence s; decision_ledger := l;
         risk_spine := risk_spine s |}).
Definition on_spine (r : EvaluationRequest) : M (option SpineSignal) := fun s =>
  match risk_spine s with
  | None => (Ok None, s)
  | Some sp =>
      let '(b, sp) := spine_evaluate r sp in
      (Ok (Some b), {| contract_layer_of := contract_layer_of s; cadence := cadence s;
                       decision_ledger := decision_ledger s; risk_spine := Some sp |})
  end.

(** [seal_attempt]: a failure to append is swallowed. *)
Definition seal_attempt (r : EvaluationRequest) : M unit :=
  on_ledger (fun l => (Ok (), (fun l => (append (AttemptFact r) l).2) <$> l)).

(** The holds on a routed result, in the order of the code. *)
Definition apply_holds (c : ContractEvaluationOutcome) (p : PathBridge.PathPolicyOutcome)
    (r : EvaluationRequest) (base : RoutingResult A) : M (RoutingResult A) :=
  x ← lift (if has_soft_violation c then merge_soft_contract_signals base c else Ok base);
  x ← lift (if PathBridge.checked p
               && (PathBridge.has_warn p || negb (bool_decide (length (PathBridge.p_findings p) = 0)))
            then merge_path_signals x p else Ok x);
  x ← lift (apply_predictive_holds py_str parse_error_text unsafe_order x r);
  x ← on_cadence (Cadence.apply_cadence_hold x r);
  signal ← on_spine r;
  x ← lift (apply_risk_spine signal x);
  on_ledger (apply_pq_durability_hold (fun a r => append (PQFact a r)) active_backend_id x r).

Definition apply_crc (x : RoutingResult A) : result exn (RoutingResult A) :=
  let crc := CrcGate.apply crc_gate (verdict x) (final_score x) in
  if CrcGate.demoted crc then apply_crc_demotion x crc else Ok x.

Definition is_hard (c : ContractEvaluationOutcome) (p : PathBridge.PathPolicyOutcome)
    (f : StructuralFloor.StructuralFloorResult) : bool :=
  has_hard_violation c || PathBridge.has_block p || StructuralFloor.fl_fired f.

Definition evaluate (r : EvaluationRequest) : M (decision A) :=
  _ ← seal_attempt r;
  det ← lift (gate_evaluate st r);
  precedents ← lift (retrieve st r);
  agent ← lift (agent_evaluate st r);
  specialists ← lift (specialists_evaluate st r);
  semantic ← lift (semantic_analyze st r);
  let s := {| deterministic_result := det; specialist_bundle := specialists;
              semantic_analysis := semantic; agent_bundle := Some agent |} in
  c ← on_contracts (evaluate_contracts_for_request uuid_hex now fresh_world py_str str_tuple re_search
                      isoformat str_time action_ledger DEFAULT_REPLAY_WINDOW r);
  p ← lift (PathBridge.evaluate_path_policies_for_request py_str r);
  f ← on_cadence (StructuralFloor.detect_structural_floor py_str parse_error_text specialists (Some r));
  '(base, h) ←
    (if is_hard c p f then
       asi ← lift (of_router (build_asi_findings det specialists semantic false));
       x ← lift (build_hard_forbid_routing_result c p f (findings det) asi);
       mret (None, x)
     else
       base ← lift (of_router (route rule build_asi_findings s policy (action_type r) (channel r)
                                 (environment r)));
       x ← apply_holds c p r base;
       mret (Some base, x));
  g ← lift (apply_crc h);
  x ← on_ledger (apply_precedent_autoresolve fromisoformat (fun f => append (PrecedentFactOf f)) g r
                   precedent_policy precedents);
  mret {| d_signals := s; d_contract := c; d_path := p; d_floor := f; routed_base := base;
          held := h; gated := g; final := x |}.
End Evaluate.
End Pdp.
