(* ===== verification/PdpSpec.v ===== *)
(** * The decision point: what a verdict rests on *)
From S2P Require Import Prelude StateExn PyStr PyFloat PyVal ContractLtl RouterDomain RouterFusion Router.
From S2P Require Import RouterSpec PyFormat PdpDomain Cadence CadenceSpec Rv4Path PathBridge StructuralFloor.
From S2P Require Import CrcGate Precedent Probguard Holds ContractBridge Pdp.
Import RouterDomain RouterFusion Router RouterSpec PdpDomain ContractBridge Precedent Holds Pdp.
Open Scope string_scope.
Open Scope list_scope.
Open Scope nat_scope.

Module PdpSpec.

(** ** Flags that no precedent clears *)

Lemma lstrip_idem s : lstrip (lstrip s) = lstrip s.
Proof. induction s as [|c s IH]; simpl; [done|]. destruct (isspace c) eqn:E; [done|]. simpl. by rewrite E. Qed.
Lemma rstrip_tail c s : rstrip (String c s) = String c s -> rstrip s = s.
Proof. simpl. destruct (rstrip s) eqn:E; [|congruence]. destruct (isspace c); [done|congruence]. Qed.
Lemma rstrip_idem s : rstrip (rstrip s) = rstrip s.
Proof.
  induction s as [|c s IH]; simpl; [done|]. destruct (rstrip s) as [|d t] eqn:E.
  - destruct (isspace c) eqn:Ec; [done|]. simpl. by rewrite Ec.
  - change (rstrip (String c (String d t)))
      with (match rstrip (String d t) with
            | EmptyString => if isspace c then "" else String c ""
            | r => String c r
            end). by rewrite IH.
Qed.
Lemma rstrip_lstrip s : rstrip s = s -> rstrip (lstrip s) = lstrip s.
Proof.
  induction s as [|c s IH]; intros H; [done|]. cbn [lstrip]. destruct (isspace c); [|done].
  by apply rstrip_tail, IH in H.
Qed.
Lemma strip_idem s : strip (strip s) = strip s.
Proof. unfold strip. rewrite (rstrip_lstrip (rstrip s)) by apply rstrip_idem. apply lstrip_idem. Qed.

Section Flags.
Context {A : Type}.

(** A flag that is not, in any case, one of those precedent may clear. *)
Definition stands (x : RoutingResult A) : Prop :=
  exists y, y ∈ uncertainty_flags x /\ casefold y ∉ casefold <$> DISCRETIONARY_ABSTAIN_FLAGS.
Definition normal (x : RoutingResult A) : Prop := Forall (fun f => strip f = f) (uncertainty_flags x).

Definition hold_flags : list string :=
  [SOFT_VIOLATION_UNCERTAINTY_FLAG; PathBridge.SOFT_PATH_UNCERTAINTY_FLAG; SYSTEMIC_LOOKAHEAD_FLAG;
   RV4_RECOVERABLE_FLAG; Cadence.CADENCE_HOLD_FLAG; RISK_SPINE_FLAG; PQ_NON_REPUDIATION_FLAG;
   CrcGate.CRC_FLAG].
Lemma hold_flag_casefold f :
  f ∈ hold_flags -> casefold (strip f) ∉ casefold <$> DISCRETIONARY_ABSTAIN_FLAGS.
Proof.
  intros Hf. assert (Forall (fun f => casefold (strip f) ∉ casefold <$> DISCRETIONARY_ABSTAIN_FLAGS) hold_flags)
    as H by (apply (bool_decide_unpack _); vm_compute; exact I).
  exact (proj1 (list.Forall_forall _ _) H f Hf).
Qed.

Lemma demoted_stands f (base x : RoutingResult A) : demoted_with f base x -> f ∈ hold_flags -> stands x.
Proof.
  intros H Hf. destruct (dem_flag _ _ _ H) as (y & Hy & Hc). exists y. split; [done|].
  rewrite Hc. by apply hold_flag_casefold.
Qed.

Lemma rebuild_normal (base x : RoutingResult A) v rs fl fs sc :
  rebuild base v rs fl fs sc = Ok x -> normal x.
Proof.
  intros H%rebuild_fields. unfold normal. destruct H as (_ & _ & _ & _ & _ & _ & _ & ->).
  apply list.Forall_forall. intros y Hy%dedupe_from_mem. apply list_elem_of_fmap in Hy as (z & -> & _).
  apply strip_idem.
Qed.
Lemma rebuild_stands (base x : RoutingResult A) v rs fl fs sc :
  rebuild base v rs fl fs sc = Ok x -> normal base -> stands base -> uncertainty_flags base ⊆ fl -> stands x.
Proof.
  intros H Hn (y & Hy & Hc) Hsub. destruct (rebuild_flag _ _ _ _ _ _ _ y H (Hsub y Hy)) as (z & Hz & Heq).
  exists z. split; [done|]. rewrite Heq.
  rewrite (proj1 (list.Forall_forall _ _) Hn y Hy). done.
Qed.

Lemma stands_refused fromiso {L} (append : _ -> L -> bool * L) (x : RoutingResult A) r policy ps l :
  stands x -> apply_precedent_autoresolve fromiso append x r policy ps l = (Ok x, l).
Proof.
  intros (y & Hy & Hc). eapply autoresolve_refuses; [exact Hy|]. intros Hin. apply Hc.
  by apply list_elem_of_fmap_2.
Qed.

(** ** What a stage does *)

(** The score stays; the verdict stays, or falls from PERMIT to an ABSTAIN that
    precedent will not clear. *)
Record lowers (base x : RoutingResult A) : Prop := {
  low_score : final_score x = final_score base;
  low_verdict : verdict x = verdict base \/ (verdict base = PERMIT /\ verdict x = ABSTAIN /\ stands x)
}.

Lemma lowers_refl x : lowers x x.
Proof. constructor; [done|by left]. Qed.
Lemma demoted_lowers f base x : demoted_with f base x -> f ∈ hold_flags -> lowers base x.
Proof.
  intros H Hf. constructor; [apply H|]. right. split_and!; [apply H|apply H|by eapply demoted_stands].
Qed.
(** A hold after stages that lowered: it leaves the result alone or demotes it. *)
Lemma stage_lowers base x y :
  lowers base x -> (y = x \/ exists f, f ∈ hold_flags /\ demoted_with f x y) ->
  lowers base y /\ (verdict y = PERMIT -> y = x).
Proof.
  intros [Hs Hv] [-> |(f & Hf & Hd)]; [by split; [constructor|]|].
  pose proof (dem_from _ _ _ Hd) as Hx. pose proof (dem_to _ _ _ Hd) as Hy.
  split; [|congruence]. constructor; [rewrite (dem_score _ _ _ Hd); done|]. right.
  destruct Hv as [Hv|(_ & Ha & _)]; [|congruence]. split_and!; [congruence|done|by eapply demoted_stands].
Qed.

Lemma merge_soft_lowers (base x : RoutingResult A) c :
  c_soft_flags c = [SOFT_VIOLATION_UNCERTAINTY_FLAG] -> merge_soft_contract_signals base c = Ok x ->
  lowers base x /\ normal x /\ verdict x <> PERMIT.
Proof.
  intros Hc H. unfold merge_soft_contract_signals in H. pose proof (rebuild_normal _ _ _ _ _ _ _ H) as Hn.
  destruct (is_permit base) eqn:Hp.
  - apply is_permit_spec in Hp.
    eapply (rebuild_demotes SOFT_VIOLATION_UNCERTAINTY_FLAG) in H; [|done|rewrite Hc; set_solver].
    split_and!; [|done|by rewrite (dem_to _ _ _ H)].
    eapply demoted_lowers; [exact H|unfold hold_flags; set_solver].
  - apply rebuild_fields in H as (Hv & _ & Hs & _). split_and!; [|done|].
    + constructor; [done|by left].
    + rewrite Hv. intros E. apply is_permit_spec in E. congruence.
Qed.

Lemma merge_path_lowers (base b x : RoutingResult A) p :
  (PathBridge.has_warn p = true -> PathBridge.soft_uncertainty_flags p = [PathBridge.SOFT_PATH_UNCERTAINTY_FLAG]) ->
  merge_path_signals b p = Ok x -> lowers base b -> normal b ->
  lowers base x /\ (verdict x = PERMIT -> PathBridge.has_warn p = false /\ verdict b = PERMIT).
Proof.
  intros Hw H [Hs Hv] Hn. unfold merge_path_signals in H.
  destruct (PathBridge.has_warn p) eqn:Ew; simpl in H; [destruct (is_permit b) eqn:Hp|].
  - apply is_permit_spec in Hp. destruct Hv as [Hv|(_ & Ha & _)]; [|congruence].
    eapply (rebuild_demotes PathBridge.SOFT_PATH_UNCERTAINTY_FLAG) in H; [|done|rewrite Hw; set_solver].
    split; [|rewrite (dem_to _ _ _ H); done].
    constructor; [rewrite (dem_score _ _ _ H); done|]. right. split_and!; [congruence|apply H|].
    eapply demoted_stands; [exact H|unfold hold_flags; set_solver].
  - pose proof (rebuild_stands _ _ _ _ _ _ _ H Hn) as Hst.
    apply rebuild_fields in H as (Hv' & _ & Hs' & _). split.
    + constructor; [congruence|]. destruct Hv as [Hv|(? & ? & ?)]; [left; congruence|right].
      split_and!; [done|congruence|apply Hst; [done|set_solver]].
    + rewrite Hv'. intros E. apply is_permit_spec in E. congruence.
  - pose proof (rebuild_stands _ _ _ _ _ _ _ H Hn) as Hst.
    apply rebuild_fields in H as (Hv' & _ & Hs' & _). split; [|intros; split; congruence].
    constructor; [congruence|]. destruct Hv as [Hv|(? & ? & ?)]; [left; congruence|right].
    split_and!; [done|congruence|apply Hst; [done|set_solver]].
Qed.
End Flags.

Lemma route_normal {A} rule (build : _ -> _ -> _ -> _ -> result RouterDomain.exn A) s p a c e x :
  route rule build s p a c e = Ok x -> normal x.
Proof.
  unfold route. intros H. inv_bind. destruct x0 as [[x0 fin] conf]. inv_bind.
  apply new_result_fields in H. unfold normal. destruct H as (_ & _ & _ & _ & _ & _ & _ & -> & _).
  apply list.Forall_forall. intros y Hy%dedupe_from_mem. apply list_elem_of_fmap in Hy as (z & -> & _).
  apply strip_idem.
Qed.

(** ** The evaluation *)

Section Evaluate.
Context {W L S A : Type}.
Context (uuid_hex : W -> string * W) (now : W -> string * W) (fresh_world : W).
Context (py_str : pyval -> string) (str_tuple : list string -> string).
Context (re_search : string -> string -> result ContractLtl.exn bool).
Context (isoformat str_time : Z -> string) (fromisoformat : string -> option Z).
Context (parse_error_text : string -> string) (unsafe_order : list string).
Context (active_backend_id : option string).
Context (append : sealed_fact -> L -> bool * L).
Context (spine_evaluate : EvaluationRequest -> S -> SpineSignal * S).
Context (rule : SelectiveRiskRule).
Context (build_asi_findings : DeterministicGateResult -> SpecialistBundle -> SemanticAnalysis -> bool ->
                              result RouterDomain.exn A).
Context (st : streams) (actions : option action_ledger).
Context (crc_gate : CrcGate.ConformalRiskGate).
Context (policy : PolicySnapshot) (precedent_policy : PrecedentPolicy).

Abbreviation state := (@pdp W L S).
Abbreviation holdsM := (@apply_holds W L S A py_str parse_error_text unsafe_order active_backend_id append
  spine_evaluate).
Abbreviation evaluateM := (evaluate uuid_hex now fresh_world py_str str_tuple re_search isoformat str_time
  fromisoformat parse_error_text unsafe_order active_backend_id append spine_evaluate rule
  build_asi_findings st actions crc_gate policy precedent_policy).

(** The signals that keep a verdict from PERMIT after routing are all absent: [t] is the
    tracker that the cadence hold assesses the request with, [sp] the risk spine. *)
Record clear_of_holds (c : ContractEvaluationOutcome) (p : PathBridge.PathPolicyOutcome)
    (r : EvaluationRequest) (t : Cadence.tracker) (sp : option S) : Prop := {
  no_soft_contract : has_soft_violation c = false;
  no_warn : PathBridge.checked p = true -> PathBridge.has_warn p = false;
  no_lookahead : exists k, Probguard.evaluate_systemic_lookahead py_str unsafe_order r = Ok k
                           /\ Probguard.exceeds k = false;
  no_recoverable : exists o, Rv4Path.classify py_str parse_error_text r = Ok o /\ Rv4Path.recoverable o = [];
  no_cadence : Cadence.fired (Cadence.assess r t).1 = false;
  no_breach : forall e, sp = Some e -> acted (spine_evaluate r e).1 = false;
  pq_honored : pq_claim_requested r = true -> active_backend_id = Some "pyca-cryptography-native"
}.

Lemma on_ledger_Ok {B} (f : option L -> result exn B * option L) (s s' : state) b :
  on_ledger f s = (Ok b, s') -> exists l, f (decision_ledger s) = (Ok b, l).
Proof. unfold on_ledger. destruct (f (decision_ledger s)) as [b' l]. intros [= -> _]. by exists l. Qed.
Lemma on_cadence_Ok {B} (f : Cadence.tracker -> result exn B * Cadence.tracker) (s s' : state) b :
  on_cadence f s = (Ok b, s') -> exists t, f (cadence s) = (Ok b, t).
Proof. unfold on_cadence. destruct (f (cadence s)) as [b' l]. intros [= -> _]. by exists l. Qed.

Lemma on_spine_Ok r (s s' : state) b :
  on_spine spine_evaluate r s = (Ok b, s') -> b = (fun e => (spine_evaluate r e).1) <$> risk_spine s.
Proof. unfold on_spine. destruct (risk_spine s) as [e|]; [|by intros [= <-]]. cbn [fmap option_fmap option_map]. destruct (spine_evaluate r e). by intros [= <- _]. Qed.

Lemma permit_dec (x : RoutingResult A) : verdict x = PERMIT \/ verdict x <> PERMIT.
Proof. destruct (verdict x); [by left|by right..]. Qed.

(** The predictive holds leave a PERMIT alone only without their signals. *)
Lemma predictive_permit (x y : RoutingResult A) r :
  apply_predictive_holds py_str parse_error_text unsafe_order x r = Ok y -> verdict y = PERMIT ->
  (exists k, Probguard.evaluate_systemic_lookahead py_str unsafe_order r = Ok k /\ Probguard.exceeds k = false)
  /\ exists o, Rv4Path.classify py_str parse_error_text r = Ok o /\ Rv4Path.recoverable o = [].
Proof.
  intros H Hy. destruct (predictive_spec _ _ _ _ _ _ H) as [-> |[Hd|Hd]];
    [|by rewrite (dem_to _ _ _ Hd) in Hy..].
  unfold apply_predictive_holds in H. rewrite (proj2 (is_permit_spec x) Hy) in H. simpl in H.
  apply result_bind_Ok in H as (k & Hk & H). apply result_bind_Ok in H as (o & Ho & H).
  destruct (Probguard.exceeds k) eqn:Ek; simpl in H.
  - inv_bind. apply rebuild_fields in H as (Hv & _). congruence.
  - case_bool_decide as Hl; [|inv_bind; apply rebuild_fields in H as (Hv & _); congruence].
    apply length_zero_iff_nil in Hl. by eauto 10.
Qed.

Lemma apply_holds_spec c p r (base x : RoutingResult A) (s s' : state) :
  (has_soft_violation c = true -> c_soft_flags c = [SOFT_VIOLATION_UNCERTAINTY_FLAG]) ->
  (PathBridge.has_warn p = true -> PathBridge.soft_uncertainty_flags p = [PathBridge.SOFT_PATH_UNCERTAINTY_FLAG]) ->
  normal base -> holdsM c p r base s = (Ok x, s') ->
  lowers base x /\ (verdict x = PERMIT -> clear_of_holds c p r (cadence s) (risk_spine s)).
Proof.
  intros Hc Hp Hn H. unfold apply_holds in H. apply M_bind_Ok in H as (x1 & s1 & H1 & H).
  apply M_bind_Ok in H as (x2 & s2 & H2 & H). apply M_bind_Ok in H as (x3 & s3 & H3 & H).
  apply M_bind_Ok in H as (x4 & s4 & H4 & H). apply M_bind_Ok in H as (sig & s5 & Hsig & H).
  apply M_bind_Ok in H as (x6 & s6 & H6 & H).
  unfold lift in H1, H2, H3, H6. injection H1 as H1 <-. injection H2 as H2 <-. injection H3 as H3 <-.
  injection H6 as H6 <-. apply on_spine_Ok in Hsig.
  assert (risk_spine s4 = risk_spine s) as Hsp.
  { unfold on_cadence in H4. destruct (Cadence.apply_cadence_hold _ _ _). by injection H4 as _ <-. }
  rewrite Hsp in Hsig. apply on_cadence_Ok in H4 as [t H4]. apply on_ledger_Ok in H as [l H].
  assert (lowers base x1 /\ normal x1 /\ (verdict x1 = PERMIT -> has_soft_violation c = false)) as (L1 & N1 & P1).
  { destruct (has_soft_violation c); [|injection H1 as <-; split_and!; [apply lowers_refl|done|done]].
    destruct (merge_soft_lowers _ _ _ (Hc eq_refl) H1) as (? & ? & ?). by split_and!. }
  assert (lowers base x2 /\ (verdict x2 = PERMIT -> verdict x1 = PERMIT
          /\ (PathBridge.checked p = true -> PathBridge.has_warn p = false))) as (L2 & P2).
  { destruct (PathBridge.checked p) eqn:Ech; simpl in H2; [|injection H2 as <-; by split].
    destruct (_ || _) eqn:Eor in H2.
    - destruct (merge_path_lowers _ _ _ _ Hp H2 L1 N1) as [Hlow P]. split; [done|]. intros E. by apply P in E as [? ?].
    - apply orb_false_iff in Eor as [Ew _]. injection H2 as <-. by split. }
  destruct (stage_lowers base x2 x3 L2) as [L3 P3].
  { destruct (predictive_spec _ _ _ _ _ _ H3) as [?|[?|?]]; [by left|right..];
      eexists; (split; [|eassumption]); unfold hold_flags; clear; set_solver. }
  destruct (stage_lowers base x3 x4 L3) as [L4 P4].
  { destruct (CadenceSpec.cadence_hold_lowers _ _ _ _ _ H4) as [?|[? _]]; [by left|right].
    eexists; (split; [|eassumption]); unfold hold_flags; clear; set_solver. }
  destruct (stage_lowers base x4 x6 L4) as [L6 P6].
  { destruct (spine_spec _ _ _ H6) as [?|?]; [by left|right].
    eexists; (split; [|eassumption]); unfold hold_flags; clear; set_solver. }
  pose proof (pq_spec _ _ _ _ _ _ _ H) as Hq. destruct (stage_lowers base x6 x L6) as [L7 P7].
  { destruct Hq as [(-> & _)|?]; [by left|right].
    eexists; (split; [|eassumption]); unfold hold_flags; clear; set_solver. }
  split; [done|]. intros Hx. pose proof (P7 Hx) as ->. pose proof (P6 Hx) as ->. pose proof (P4 Hx) as ->.
  pose proof (CadenceSpec.cadence_hold_permit _ _ _ _ _ H4 Hx) as Hcad. pose proof (spine_permit _ _ _ H6 Hx) as Hacted.
  destruct (predictive_permit _ _ _ H3 Hx) as [Hk Ho]. pose proof (P3 Hx) as ->.
  destruct (P2 Hx) as [Hx1 Hw]. constructor; auto.
  { intros e He. apply Hacted. by rewrite Hsig, He. }
  destruct Hq as [(_ & _ & Hq)|Hd]; [by apply Hq|]. apply dem_to in Hd. congruence.
Qed.

(** ** What the bridges promise *)

Lemma outcome_flags key n step vs c :
  outcome_of key n step vs = Ok c -> has_soft_violation c = true ->
  c_soft_flags c = [SOFT_VIOLATION_UNCERTAINTY_FLAG].
Proof. unfold outcome_of. intros H. inv_bind. simpl. by intros ->. Qed.
Lemma contract_flags (layer layer' : @contract_layer W) limit r c :
  evaluate_contracts_for_request uuid_hex now fresh_world py_str str_tuple re_search isoformat str_time
    actions limit r layer = (Ok c, layer') ->
  has_soft_violation c = true -> c_soft_flags c = [SOFT_VIOLATION_UNCERTAINTY_FLAG].
Proof.
  unfold evaluate_contracts_for_request. destruct layer as [|check e|g]; [by intros [= <- _]| |].
  - unfold run_check. destruct (check _ _ _ _ e) as [[?|?] e']; [|done]. intros [= H _].
    by eapply outcome_flags.
  - unfold evaluate_session. destruct (get_or_create _ _ _) as [[e|?] g1]; [|done].
    destruct (prime _ _ _ _ _ _ _ _ _ _ _ _) as [[n e1] g2]. unfold run_check.
    destruct (session_check _ _ _ _ _ _ _ _ _ e1) as [[?|?] e']; [|done]. intros [= H _].
    by eapply outcome_flags.
Qed.
Lemma path_flags r p :
  PathBridge.evaluate_path_policies_for_request py_str r = Ok p -> PathBridge.has_warn p = true ->
  PathBridge.soft_uncertainty_flags p = [PathBridge.SOFT_PATH_UNCERTAINTY_FLAG].
Proof.
  unfold PathBridge.evaluate_path_policies_for_request. destruct (mapping_at _ _); [|by intros [= <-]].
  case_bool_decide; [by intros [= <-]|]. intros H'. inv_bind. destruct x0 as [c' [al v]]. inv_bind. simpl.
  by case_bool_decide.
Qed.

Lemma crc_spec (x y : RoutingResult A) :
  apply_crc crc_gate x = Ok y ->
  (y = x /\ (verdict x = PERMIT -> CrcGate.enabled crc_gate = true ->
             CrcGate.certified crc_gate = true /\ fleb (final_score x) (CrcGate.lambda_hat crc_gate) = true))
  \/ demoted_with CrcGate.CRC_FLAG x y.
Proof using.
  unfold apply_crc. destruct (CrcGate.apply_cases crc_gate (verdict x) (final_score x)) as [[Hv Hd]|(Hx & _ & Hd & Hf)].
  - rewrite Hd. intros [= ->]. left. split; [done|]. intros Hp He. rewrite Hp in Hv.
    exact (proj1 (CrcGate.permit_region crc_gate _ He) Hv).
  - rewrite Hd. intros H. right. eapply rebuild_demotes; [done| |exact H]. rewrite Hf. clear. set_solver.
Qed.

(** A completed evaluation, stage by stage. *)
Record run (r : EvaluationRequest) (s : state) (d : decision A) : Prop := {
  run_cadence : exists t, StructuralFloor.detect_structural_floor py_str parse_error_text
      (specialist_bundle (d_signals d)) (Some r) (cadence s) = (Ok (d_floor d), t);
  run_hard : is_hard (d_contract d) (d_path d) (d_floor d) = true ->
    routed_base d = None /\ verdict (held d) = FORBID /\ final_score (held d) = f_one;
  run_routed : is_hard (d_contract d) (d_path d) (d_floor d) = false ->
    exists base, routed_base d = Some base
      /\ route rule build_asi_findings (d_signals d) policy (action_type r) (channel r) (environment r) = Ok base
      /\ lowers base (held d)
      /\ (verdict (held d) = PERMIT -> clear_of_holds (d_contract d) (d_path d) r (Cadence.assess r (cadence s)).2 (risk_spine s));
  run_crc : apply_crc crc_gate (held d) = Ok (gated d);
  run_precedent : exists ps l l', retrieve st r = Ok ps
    /\ apply_precedent_autoresolve fromisoformat (fun f => append (PrecedentFactOf f)) (gated d) r
         precedent_policy ps l = (Ok (final d), l')
}.

Lemma evaluate_run r (s s' : state) d : evaluateM r s = (Ok d, s') -> run r s d.
Proof.
  intros H. unfold evaluate in H. apply M_bind_Ok in H as ([] & s1 & H1 & H).
  apply M_bind_Ok in H as (det & s2 & Hdet & H). apply M_bind_Ok in H as (ps & s3 & Hps & H).
  apply M_bind_Ok in H as (ag & s4 & Hag & H). apply M_bind_Ok in H as (sp & s5 & Hsp & H).
  apply M_bind_Ok in H as (sem & s6 & Hsem & H). apply M_bind_Ok in H as (c & s7 & Hc & H).
  apply M_bind_Ok in H as (p & s8 & Hp & H). apply M_bind_Ok in H as (f & s9 & Hf & H).
  apply M_bind_Ok in H as ([base h] & s10 & Hh & H). apply M_bind_Ok in H as (g & s11 & Hg & H).
  apply M_bind_Ok in H as (x & s12 & Hx & H).
  unfold lift in Hdet, Hps, Hag, Hsp, Hsem, Hp, Hg. unfold mret, M_ret in H. injection H as <- <-.
  injection Hdet as Hdet <-. injection Hps as Hps <-. injection Hag as Hag <-. injection Hsp as Hsp <-.
  injection Hsem as Hsem <-. injection Hp as Hp <-. injection Hg as Hg <-.
  assert (cadence s7 = cadence s /\ risk_spine s7 = risk_spine s) as [Hcad Hspine].
  { unfold on_contracts in Hc. destruct (evaluate_contracts_for_request _ _ _ _ _ _ _ _ _ _ _ _) in Hc.
    injection Hc as _ <-. simpl. unfold seal_attempt, on_ledger in H1. by injection H1 as <-. }
  assert (cadence s9 = (Cadence.assess r (cadence s)).2 /\ risk_spine s9 = risk_spine s) as [Hcad' Hspine'].
  { unfold on_cadence in Hf. destruct (StructuralFloor.detect_structural_floor _ _ _ _ _) as [f' t'] eqn:Ef.
    injection Hf as -> <-. apply StructuralFloor.floor_fires_iff in Ef as [-> _]. cbn [cadence risk_spine]. by rewrite Hcad. }
  unfold on_contracts in Hc.
  destruct (evaluate_contracts_for_request _ _ _ _ _ _ _ _ _ _ _ _) as [c' layer] eqn:Ec in Hc.
  injection Hc as -> _. apply on_cadence_Ok in Hf as [t Hf]. apply on_ledger_Ok in Hx as [l Hx].
  constructor; cbn [d_signals d_contract d_path d_floor routed_base held gated final specialist_bundle].
  - rewrite <- Hcad. by exists t.
  - intros Hhard. rewrite Hhard in Hh. apply M_bind_Ok in Hh as (asi & ? & _ & Hh).
    apply M_bind_Ok in Hh as (x' & ? & Hb & Hh). unfold mret, M_ret in Hh. injection Hh as <- <- _.
    unfold lift in Hb. injection Hb as Hb _. unfold build_hard_forbid_routing_result in Hb.
    apply of_router_Ok, new_result_fields in Hb as (? & _ & ? & _). done.
  - intros Hhard. rewrite Hhard in Hh. apply M_bind_Ok in Hh as (b & s13 & Hb & Hh).
    apply M_bind_Ok in Hh as (x' & ? & Hold & Hh). unfold mret, M_ret in Hh. injection Hh as <- <- _.
    unfold lift in Hb. injection Hb as Hb <-. apply of_router_Ok in Hb. exists b. rewrite <- Hcad', <- Hspine'. split_and!; [done|done|..];
    eapply apply_holds_spec; try exact Hold; eauto using contract_flags, path_flags, route_normal.
  - done.
  - by exists ps, (decision_ledger s10), l.
Qed.

(** The verdict before precedent, from the routed one. *)
Lemma gated_lowers r (s : state) d base :
  run r s d -> routed_base d = Some base -> lowers base (gated d).
Proof using.
  intros H Hb. destruct (is_hard (d_contract d) (d_path d) (d_floor d)) eqn:Hh.
  { destruct (run_hard _ _ _ H Hh) as [? _]. congruence. }
  destruct (run_routed _ _ _ H Hh) as (b & Hb' & _ & Hl & _). rewrite Hb in Hb'. injection Hb' as <-.
  eapply stage_lowers; [exact Hl|]. destruct (crc_spec _ _ (run_crc _ _ _ H)) as [[? _]|?]; [by left|right].
  eexists; (split; [|eassumption]); unfold hold_flags; clear; set_solver.
Qed.

(** What precedent made of the gated result. *)
Definition resolved_by_precedent (r : EvaluationRequest) (d : decision A) : Prop :=
  exists ps l l', retrieve st r = Ok ps
    /\ autoresolved fromisoformat (fun f => append (PrecedentFactOf f)) (gated d) (final d) r
         precedent_policy ps l l'.

Lemma final_cases r (s : state) d :
  run r s d -> final d = gated d \/ (~ stands (gated d) /\ resolved_by_precedent r d).
Proof.
  intros H. destruct (run_precedent _ _ _ H) as (ps & l & l' & Hps & Hx).
  destruct (autoresolve_spec _ _ _ _ _ _ _ _ _ Hx) as [?|Hr]; [by left|]. right. split; [|by exists ps, l, l'].
  intros Hst. rewrite (stands_refused _ _ _ _ _ _ _ Hst) in Hx. injection Hx as Hx _.
  pose proof (res_from _ _ _ _ _ _ _ _ _ Hr). pose proof (res_to _ _ _ _ _ _ _ _ _ Hr). congruence.
Qed.

(** A hard violation is out of reach of the gate and of precedent. *)
Lemma hard_final r (s : state) d :
  run r s d -> is_hard (d_contract d) (d_path d) (d_floor d) = true ->
  verdict (final d) = FORBID /\ final_score (final d) = f_one /\ routed_base d = None.
Proof using.
  intros H Hh. destruct (run_hard _ _ _ H Hh) as (Hb & Hv & Hs).
  destruct (crc_spec _ _ (run_crc _ _ _ H)) as [[Hg _]|Hd]; [|apply dem_from in Hd; congruence].
  destruct (final_cases _ _ _ H) as [-> |(_ & ps & l & l' & _ & Hr)]; [by rewrite Hg|].
  pose proof (res_from _ _ _ _ _ _ _ _ _ Hr). congruence.
Qed.

(** C1. A proof of violation is final.  When a specialist of the bundle carries a
    structural deny, the labels of the request prove one (rule of two, permanent
    path violation, action class, hard cadence), a contract is violated hard or a
    path policy blocks, the verdict is FORBID at score 1.0 and the router is not
    run: no score, hold, gate or precedent enters. *)
Theorem proof_forbids r (s s' : state) d :
  evaluateM r s = (Ok d, s') ->
  (exists x, x ∈ specialist_bundle (d_signals d) /\ StructuralFloor.proves_violation x)
  \/ (exists o, Rv4Path.classify py_str parse_error_text r = Ok o
        /\ StructuralFloor.request_proves py_str r o (Cadence.assess r (cadence s)).1)
  \/ has_hard_violation (d_contract d) = true \/ PathBridge.has_block (d_path d) = true ->
  verdict (final d) = FORBID /\ final_score (final d) = f_one /\ routed_base d = None.
Proof.
  intros H%evaluate_run Hp.
  assert (is_hard (d_contract d) (d_path d) (d_floor d) = true) as Hh.
  { unfold is_hard. destruct (run_cadence _ _ _ H) as [t Ht].
    destruct (StructuralFloor.floor_fires_iff _ _ _ _ _ _ _ Ht) as (_ & o & Ho & Hf).
    rewrite !orb_true_iff. destruct Hp as [Hp|[(o' & Ho' & Hp)|[Hp|Hp]]]; [| |by left; left|by left; right];
      right; apply Hf; [by left|]. right. congruence. }
  by apply (hard_final _ _ _ H).
Qed.

(** C3. Only precedent relaxes.  After routing a verdict moves towards caution or
    stays, except that a routed ABSTAIN may become a PERMIT that precedent resolved;
    and a PERMIT that any hold or the gate has demoted stays demoted, whatever
    precedents there are. *)
Theorem only_precedent_relaxes r (s s' : state) d base :
  evaluateM r s = (Ok d, s') -> routed_base d = Some base ->
  (caution (verdict base) <= caution (verdict (final d))
   \/ verdict base = ABSTAIN /\ verdict (final d) = PERMIT /\ resolved_by_precedent r d)
  /\ (verdict base = PERMIT -> verdict (gated d) <> PERMIT -> final d = gated d)
  /\ final_score (final d) = final_score base.
Proof.
  intros H%evaluate_run Hb. pose proof (gated_lowers _ _ _ _ H Hb) as [Hs Hv].
  destruct (final_cases _ _ _ H) as [-> |(Hst & Hr)].
  - split_and!; [left|done|done]. destruct Hv as [-> |(-> & -> & _)]; simpl; lia.
  - pose proof Hr as (ps & l & l' & _ & Ha). pose proof (res_from _ _ _ _ _ _ _ _ _ Ha) as Hf.
    pose proof (res_to _ _ _ _ _ _ _ _ _ Ha) as Ht. pose proof (res_score _ _ _ _ _ _ _ _ _ Ha) as Hsc.
    destruct Hv as [Hv|(_ & _ & Hst')]; [|done]. split_and!; [right|congruence|congruence].
    split_and!; [congruence|done|done].
Qed.

(** C2. What a PERMIT rests on: no structural violation, a routed result, and
    either a routed PERMIT with none of the hold signals present (no soft contract
    violation, no warning of a path policy, no lookahead above its threshold, no
    recoverable path violation, no cadence beyond the soft budget, no breach of the risk
    spine, no post-quantum claim that the signer cannot carry) and, where the conformal
    gate is enabled, a score inside its certified region; or a routed ABSTAIN whose flags
    are all discretionary and which enough consistent human resolutions of the tenant,
    sealed in the ledger, resolved. *)
Theorem permit_rests_on r (s s' : state) d :
  evaluateM r s = (Ok d, s') -> verdict (final d) = PERMIT ->
  is_hard (d_contract d) (d_path d) (d_floor d) = false
  /\ exists base, routed_base d = Some base
     /\ route rule build_asi_findings (d_signals d) policy (action_type r) (channel r) (environment r) = Ok base
     /\ ((verdict base = PERMIT /\ clear_of_holds (d_contract d) (d_path d) r (Cadence.assess r (cadence s)).2 (risk_spine s)
          /\ (CrcGate.enabled crc_gate = true -> CrcGate.certified crc_gate = true
              /\ fleb (final_score base) (CrcGate.lambda_hat crc_gate) = true))
         \/ (verdict base = ABSTAIN /\ resolved_by_precedent r d)).
Proof.
  intros H%evaluate_run Hp. destruct (is_hard (d_contract d) (d_path d) (d_floor d)) eqn:Hh.
  { destruct (hard_final _ _ _ H Hh) as [? _]. congruence. }
  split; [done|]. destruct (run_routed _ _ _ H Hh) as (base & Hb & Hr & Hl & Hclear).
  exists base. split_and!; [done|done|]. pose proof (gated_lowers _ _ _ _ H Hb) as [Hs Hv].
  destruct (final_cases _ _ _ H) as [Hf|(Hst & Hres)].
  - left. rewrite Hf in Hp. destruct Hv as [Hv|(_ & Ha & _)]; [|congruence].
    destruct (crc_spec _ _ (run_crc _ _ _ H)) as [[Hg Hcrc]|Hd]; [|apply dem_to in Hd; congruence].
    rewrite Hg in *. split_and!; [congruence|by apply Hclear|]. rewrite <- Hs. by apply Hcrc.
  - right. split; [|done]. destruct Hres as (ps & l & l' & _ & Ha).
    pose proof (res_from _ _ _ _ _ _ _ _ _ Ha). destruct Hv as [Hv|(_ & _ & ?)]; [congruence|done].
Qed.
End Evaluate.
End PdpSpec.
