(* ===== verification/Transcript.v ===== *)
(** * The verdict transcript and its monotonicity witness

    [tex/engine/verdict_transcript.py]: the ordered stages recorded for a verdict
    and the pure relation that an offline checker recomputes over them.  The texts
    of a violation's [detail] are left out; the hash of the canonical JSON is a
    parameter. *)
From Stdlib Require Import SpecFloat.
From S2P Require Import Prelude StateExn PyStr PyFloat PyVal RouterDomain RouterFusion Router RouterSpec.
From S2P Require Import PdpDomain PathBridge StructuralFloor ContractBridge Pdp.
Import RouterDomain RouterFusion Router RouterSpec PdpDomain ContractBridge Pdp.
Open Scope string_scope.
Open Scope list_scope.
Open Scope nat_scope.

Module Transcript.

(** [1e-9]. *)
Definition EPS : float := dec 1 9.

Inductive StageDirection := EVIDENCE | HELD | TOWARD_CAUTION | TOWARD_PERMIT.
#[export] Instance StageDirection_eq_dec : EqDecision StageDirection.
Proof. solve_decision. Defined.

Definition round_score (x : float) : float := round_ndigits (fmin f_one (fmax f_zero x)) 6.

Record TranscriptStage := {
  index : nat;
  stage : string;
  signal_id : string;
  verdict_before : Verdict;
  verdict_after : Verdict;
  risk_before : float;
  risk_after : float;
  direction : StageDirection;
  applied : bool;
  signal_score : option float;
  detail : pydict
}.

Record VerdictTranscript := {
  t_request_id : string;
  t_policy_id : string;
  t_policy_version : string;
  t_content_sha256 : string;
  t_fingerprint : string;
  final_verdict : Verdict;
  final_risk_score : float;
  structural_floor_fired : bool;
  hard_violation : bool;
  stages : list TranscriptStage
}.

(** ** The witness *)

Inductive violation_kind :=
| continuity_break | verdict_raised_toward_permit | risk_score_decreased | floor_not_forbid | final_mismatch.
Record WitnessViolation := {
  stage_index : nat;
  v_stage : string;
  kind : violation_kind;
  v_verdict_before : Verdict;
  v_verdict_after : Verdict;
  v_risk_before : float;
  v_risk_after : float
}.

Record MonotonicityWitness := {
  w_transcript_hash : string;
  holds : bool;
  w_final_verdict : Verdict;
  n_stages : nat;
  n_transforming_stages : nat;
  w_floor_fired : bool;
  floor_forced_forbid : bool;
  violations : list WitnessViolation
}.

Definition FLOOR_STAGE : string := "structural_forbid_floor".

(** [abs(a - b) > _EPS]. *)
Definition apart (a b : float) : bool := fltb EPS (SFabs (fsub a b)).

Definition violation (s : TranscriptStage) (k : violation_kind) : WitnessViolation := {|
  stage_index := index s; v_stage := stage s; kind := k; v_verdict_before := verdict_before s;
  v_verdict_after := verdict_after s; v_risk_before := risk_before s; v_risk_after := risk_after s |}.

(** The local variables of the walk: the running state is [None] until a
    transforming stage has set it. *)
Record walk := {
  running : option (Verdict * float);
  n_transforming : nat;
  forced : bool;
  found : list WitnessViolation
}.

Definition when (b : bool) (v : WitnessViolation) : list WitnessViolation := if b then [v] else [].

(** A forced FORBID at risk 1.0. *)
Definition forces (s : TranscriptStage) : bool :=
  bool_decide (verdict_after s = FORBID) && fleb (fsub f_one EPS) (risk_after s).
Definition is_floor (s : TranscriptStage) : bool := String.eqb (stage s) FLOOR_STAGE && applied s.

(** What one stage violates, given the running state. *)
Definition stage_violations (run : option (Verdict * float)) (s : TranscriptStage) : list WitnessViolation :=
  if bool_decide (direction s = EVIDENCE) then
    when (negb (bool_decide (verdict_before s = verdict_after s)) || apart (risk_after s) (risk_before s))
      (violation s continuity_break)
  else
    when (match run with
          | Some (v, x) => negb (bool_decide (verdict_before s = v)) || apart (risk_before s) x
          | None => false
          end) (violation s continuity_break)
    ++ when (caution (verdict_after s) <? caution (verdict_before s)) (violation s verdict_raised_toward_permit)
    ++ when (fltb (risk_after s) (fsub (risk_before s) EPS)) (violation s risk_score_decreased)
    ++ when (is_floor s && negb (forces s)) (violation s floor_not_forbid).

Definition step (w : walk) (s : TranscriptStage) : walk :=
  let vs := found w ++ stage_violations (running w) s in
  if bool_decide (direction s = EVIDENCE)
  then {| running := running w; n_transforming := n_transforming w; forced := forced w; found := vs |}
  else {| running := Some (verdict_after s, risk_after s); n_transforming := S (n_transforming w);
          forced := forced w || (is_floor s && forces s); found := vs |}.

Definition start : walk := {| running := None; n_transforming := 0; forced := false; found := [] |}.
Definition walk_of (ss : list TranscriptStage) : walk := foldl step start ss.

Section Witness.
Context (transcript_hash : VerdictTranscript -> string).

(** The two checks after the walk. *)
Definition closing_violations (t : VerdictTranscript) (w : walk) : list WitnessViolation :=
  let at_end stage k v x := {|
    stage_index := length (stages t); v_stage := stage; kind := k; v_verdict_before := v;
    v_verdict_after := final_verdict t; v_risk_before := x; v_risk_after := final_risk_score t |} in
  match running w with
  | Some (v, x) => when (negb (bool_decide (v = final_verdict t)) || apart x (final_risk_score t))
                     (at_end "<final>" final_mismatch v (round_score x))
  | None => []
  end
  ++ when (structural_floor_fired t && negb (forced w)) (at_end FLOOR_STAGE floor_not_forbid PERMIT f_zero).

Definition derive_monotonicity_witness (t : VerdictTranscript) : MonotonicityWitness :=
  let w := walk_of (stages t) in
  let vs := found w ++ closing_violations t w in
  {| w_transcript_hash := transcript_hash t; holds := bool_decide (length vs = 0);
     w_final_verdict := final_verdict t; n_stages := length (stages t);
     n_transforming_stages := n_transforming w; w_floor_fired := structural_floor_fired t;
     floor_forced_forbid := forced w; violations := vs |}.
End Witness.

(** ** The builder *)

Definition classify_direction (vb : Verdict) (rb : float) (va : Verdict) (ra : float) : StageDirection :=
  if caution va <? caution vb then TOWARD_PERMIT
  else if caution vb <? caution va then TOWARD_CAUTION
  else if fltb (fadd rb EPS) ra then TOWARD_CAUTION
  else if fltb ra (fsub rb EPS) then TOWARD_PERMIT
  else HELD.

Definition severity_score (s : Severity) : float :=
  match s with CRITICAL => f_one | WARNING => dec 55 2 | INFO => dec 20 2 end.
Definition deterministic_signal_score (d : DeterministicGateResult) : float :=
  if blocked d then f_one
  else foldl (fun w f => fmax w (severity_score (severity f))) f_zero (findings d).

Definition evidence_stage (i : nat) (name id : string) (score : option float) (detail : pydict)
    : TranscriptStage := {|
  index := i; stage := name; signal_id := id; verdict_before := PERMIT; verdict_after := PERMIT;
  risk_before := f_zero; risk_after := f_zero; direction := EVIDENCE; applied := false;
  signal_score := round_score <$> score; detail := detail |}.
Definition held_stage (i : nat) (name id : string) (v : Verdict) (risk : float) (detail : pydict)
    : TranscriptStage := {|
  index := i; stage := name; signal_id := id; verdict_before := v; verdict_after := v;
  risk_before := round_score risk; risk_after := round_score risk; direction := HELD; applied := false;
  signal_score := None; detail := detail |}.

(** [AgentEvaluationBundle.aggregate_risk_score]. *)
Definition aggregate_risk_score (b : AgentEvaluationBundle) : float :=
  fmin f_one (fdiv (fadd (fadd (id_risk_score (identity b)) (cap_risk_score (capability b)))
                      (beh_risk_score (behavioral b))) (dec 3 0)).

Definition skipped : pydict :=
  [("skipped", PBool true); ("reason", PStr "short-circuited by structural floor")].
Definition has_key (k : string) (d : pydict) : bool := bool_decide (is_Some (dict_get k d)).

(** The routed scores, by name, without the confidences of the streams. *)
Definition score_detail (d : list (string * float)) : pydict :=
  (fun k => (k, PFloat (round_score (default f_zero (ContractBridge.od_get k d)))))
  <$> List.filter (fun k => negb (String.prefix "conf_stream:" k)) (sorted d.*1).

Section Build.
Context {A : Type}.

Definition evidence_stages (s : signals) (c : ContractEvaluationOutcome) (p : PathBridge.PathPolicyOutcome)
    : list TranscriptStage :=
  let d := deterministic_result s in
  let present := match agent_bundle s with Some b => agent_present b | None => false end in
  [evidence_stage 1 "deterministic_recognizers" "deterministic_recognizers"
     (Some (deterministic_signal_score d))
     [("blocked", PBool (blocked d)); ("finding_count", PInt (Z.of_nat (length (findings d))));
      ("enabled_recognizers", PList (PStr <$> enabled_recognizers d))];
   evidence_stage 2 "agent_governance" "agent_governance_streams"
     (match agent_bundle s with
      | Some b => if agent_present b then Some (round_score (aggregate_risk_score b)) else None
      | None => None
      end) [("agent_present", PBool present)];
   evidence_stage 3 "specialist_judges" "specialist_judges"
     (Some (round_score (max_risk_score (specialist_bundle s))))
     [("judge_count", PInt (Z.of_nat (length (specialist_bundle s))));
      ("max_risk_score", PFloat (round_score (max_risk_score (specialist_bundle s))))];
   evidence_stage 4 "semantic_judge" "semantic_judge"
     (Some (round_score (max_dimension_score (semantic_analysis s))))
     [("recommended_verdict",
         PStr (verdict_value (rec_verdict (recommended_verdict (semantic_analysis s)))))];
   evidence_stage 5 "behavioral_contracts" "behavioral_contracts" None
     [("has_hard_violation", PBool (has_hard_violation c)); ("has_soft_violation", PBool (has_soft_violation c))];
   evidence_stage 6 "path_policies" "path_policies" None
     [("checked", PBool (PathBridge.checked p)); ("has_block", PBool (PathBridge.has_block p));
      ("has_soft_violation", PBool (PathBridge.has_warn p))]].

Definition pipeline_entry : TranscriptStage := {|
  index := 0; stage := "pipeline_entry"; signal_id := "pipeline_entry"; verdict_before := PERMIT;
  verdict_after := PERMIT; risk_before := f_zero; risk_after := f_zero; direction := HELD;
  applied := false; signal_score := None;
  detail := [("note", PStr "permissive prior; only signals may lower from here")] |}.

(** A hard violation: the floor, with the router and the holds skipped. *)
Definition hard_stages (c : ContractEvaluationOutcome) (p : PathBridge.PathPolicyOutcome)
    (f : StructuralFloor.StructuralFloorResult) : list TranscriptStage :=
  [{| index := 7; stage := FLOOR_STAGE; signal_id := "structural_floor"; verdict_before := PERMIT;
      verdict_after := FORBID; risk_before := f_zero; risk_after := f_one; direction := TOWARD_CAUTION;
      applied := true; signal_score := None;
      detail := [("structural_deny_fired", PBool (StructuralFloor.fl_fired f));
                 ("denying_specialists", PList (PStr <$> StructuralFloor.denying_specialists f));
                 ("contract_hard_violation", PBool (has_hard_violation c));
                 ("path_block", PBool (PathBridge.has_block p));
                 ("reasons", PList (PStr <$> StructuralFloor.fl_reasons f))] |};
   held_stage 8 "routing_fusion" "routing_fusion" FORBID f_one skipped;
   held_stage 9 "monotone_holds" "monotone_holds" FORBID f_one skipped].

Definition active_monotone_layers (r : EvaluationRequest) (c : ContractEvaluationOutcome)
    (p : PathBridge.PathPolicyOutcome) (base final : Verdict) : pydict :=
  [("soft_contract", PBool (has_soft_violation c)); ("path_warn", PBool (PathBridge.has_warn p));
   ("predictive_holds_opt_in",
      PBool (has_key "systemic_lookahead" (metadata r) || has_key "rv4_path_policies" (metadata r)));
   ("pq_non_repudiation_opt_in", PBool (has_key "pq_non_repudiation" (metadata r)));
   ("verdict_lowered", PBool (negb (bool_decide (base = final))))].

(** The floor that did not fire, the routed verdict, and the holds in one stage. *)
Definition routed_stages (r : EvaluationRequest) (c : ContractEvaluationOutcome)
    (p : PathBridge.PathPolicyOutcome) (base : option (RoutingResult A)) (out : RoutingResult A)
    : list TranscriptStage :=
  let bv := verdict (default out base) in
  let br := round_score (final_score (default out base)) in
  let fr := round_score (final_score out) in
  [held_stage 7 FLOOR_STAGE "structural_floor" PERMIT f_zero [("structural_deny_fired", PBool false)];
   {| index := 8; stage := "routing_fusion"; signal_id := "routing_fusion"; verdict_before := PERMIT;
      verdict_after := bv; risk_before := f_zero; risk_after := br;
      direction := classify_direction PERMIT f_zero bv br; applied := true; signal_score := None;
      detail := [("scores", PDict (score_detail (from_option scores [] base)));
                 ("routed_base_captured", PBool (bool_decide (is_Some base)))] |};
   {| index := 9; stage := "monotone_holds"; signal_id := "monotone_holds"; verdict_before := bv;
      verdict_after := verdict out; risk_before := br; risk_after := fr;
      direction := classify_direction bv br (verdict out) fr;
      applied := negb (bool_decide (bv = verdict out)) || apart fr br; signal_score := None;
      detail := [("layers", PStr "soft_contract,path_warn,predictive_holds,risk_spine,pq_durability,crc_gate");
                 ("attribution", PStr "endpoints captured; per-layer flags below are which layers were active, not an exact ordering");
                 ("active", PDict (active_monotone_layers r c p bv (verdict out)))] |}].

Definition build_verdict_transcript (r : EvaluationRequest) (policy_id policy_version content_sha256
    fingerprint : string) (d : decision A) : VerdictTranscript :=
  let c := d_contract d in
  let p := d_path d in
  let f := d_floor d in
  let hard := has_hard_violation c || PathBridge.has_block p || StructuralFloor.fl_fired f in
  {| t_request_id := request_id r; t_policy_id := policy_id; t_policy_version := policy_version;
     t_content_sha256 := content_sha256; t_fingerprint := fingerprint;
     final_verdict := verdict (final d); final_risk_score := round_score (final_score (final d));
     structural_floor_fired := StructuralFloor.fl_fired f; hard_violation := hard;
     stages := pipeline_entry :: evidence_stages (d_signals d) c p
               ++ (if hard then hard_stages c p f else routed_stages r c p (routed_base d) (final d)) |}.
End Build.
End Transcript.
