(* ===== verification/TranscriptSpec.v ===== *)
(** * The monotonicity witness: soundness, and what it says of a run *)
From Stdlib Require Import SpecFloat.
From S2P Require Import Prelude StateExn PyStr PyFloat PyVal ContractLtl ContractErrors RouterDomain.
From S2P Require Import RouterFusion Router RouterSpec PyFormat PdpDomain Cadence CadenceWindow PathBridge.
From S2P Require Import StructuralFloor CrcGate Precedent Probguard Holds ContractBridge Pdp PdpSpec Transcript.
Import RouterDomain RouterFusion Router RouterSpec PdpDomain ContractBridge Precedent Holds Pdp PdpSpec Transcript.
Open Scope string_scope.
Open Scope list_scope.
Open Scope nat_scope.

Module TranscriptSpec.

(** ** The walk *)

Definition transforming (s : TranscriptStage) : bool := negb (bool_decide (direction s = EVIDENCE)).

Lemma when_nil b v : when b v = [] -> b = false.
Proof. by destruct b. Qed.

Lemma step_found w s : found (step w s) = found w ++ stage_violations (running w) s.
Proof. unfold step. by case_bool_decide. Qed.
Lemma walk_found w ss : exists vs, found (foldl step w ss) = found w ++ vs.
Proof.
  revert w. induction ss as [|s ss IH]; intros w; simpl; [exists []; by rewrite app_nil_r|].
  destruct (IH (step w s)) as [vs ->]. rewrite step_found, <- app_assoc. eauto.
Qed.

(** A transforming stage without violation continues the running state and does
    not relax. *)
Lemma stage_clean run s :
  transforming s = true -> stage_violations run s = [] ->
  (forall v x, run = Some (v, x) -> verdict_before s = v)
  /\ caution (verdict_before s) <= caution (verdict_after s)
  /\ (is_floor s = true -> forces s = true).
Proof.
  unfold transforming, stage_violations. destruct (bool_decide (direction s = EVIDENCE)); [done|]. intros _ H.
  apply app_eq_nil in H as [Hc H]. apply app_eq_nil in H as [Hm H]. apply app_eq_nil in H as [_ Hf].
  apply when_nil in Hc, Hm, Hf. split_and!.
  - intros v x ->. apply orb_false_iff in Hc as [Hc _]. by apply negb_false_iff, bool_decide_eq_true in Hc.
  - apply Nat.ltb_ge in Hm. done.
  - intros Hs. rewrite Hs in Hf. by apply negb_false_iff in Hf.
Qed.

Definition below (run : option (Verdict * float)) (n : nat) : Prop :=
  forall v x, run = Some (v, x) -> caution v <= n.

Lemma walk_monotone ss w :
  found (foldl step w ss) = [] ->
  (forall s, s ∈ ss -> transforming s = true -> below (running w) (caution (verdict_after s)))
  /\ (forall s v x, s ∈ ss -> transforming s = true -> running (foldl step w ss) = Some (v, x) ->
        caution (verdict_after s) <= caution v)
  /\ (forall v x, running (foldl step w ss) = Some (v, x) -> below (running w) (caution v))
  /\ (forced (foldl step w ss) = true ->
        forced w = true \/ exists s, s ∈ ss /\ transforming s = true /\ verdict_after s = FORBID)
  /\ (running (foldl step w ss) = None -> forall s, s ∈ ss -> transforming s = false).
Proof.
  revert w. induction ss as [|s ss IH]; intros w Hf; simpl in *.
  { split_and!; [by intros s ?%elem_of_nil|by intros s v x ?%elem_of_nil| |by left|by intros _ s ?%elem_of_nil].
    intros v x Hv v' x' Hv'. rewrite Hv in Hv'. by injection Hv' as <- <-. }
  destruct (IH (step w s) Hf) as (H1 & H2 & H3 & H4 & H5).
  destruct (walk_found (step w s) ss) as [vs Hvs]. rewrite Hf, step_found in Hvs.
  symmetry in Hvs. apply app_eq_nil in Hvs as [Hvs _]. apply app_eq_nil in Hvs as [_ Hs].
  destruct (transforming s) eqn:Ht.
  - destruct (stage_clean _ _ Ht Hs) as (Hcont & Hmono & Hfl).
    assert (running (step w s) = Some (verdict_after s, risk_after s)) as Hrun.
    { unfold step. unfold transforming in Ht. by destruct (bool_decide (direction s = EVIDENCE)). }
    assert (below (running w) (caution (verdict_after s))) as Hb.
    { intros v x Hv. by rewrite <- (Hcont v x Hv). }
    split_and!.
    + intros s' [-> |Hs']%elem_of_cons Ht'; [done|]. intros v x Hv.
      etransitivity; [exact (Hb v x Hv)|]. eapply (H1 s' Hs' Ht'). exact Hrun.
    + intros s' v x [-> |Hs']%elem_of_cons Ht' Hv; [by eapply H3|by eapply H2].
    + intros v x Hv v' x' Hv'. etransitivity; [by eapply Hb|]. by eapply H3.
    + intros Hforced. destruct (H4 Hforced) as [Hfw|(s' & Hs' & ? & ?)]; [|right; exists s'; split; [by right|done]].
      pose proof Ht as Ht'. unfold step in Hfw. unfold transforming in Ht.
      destruct (bool_decide (direction s = EVIDENCE)) in Ht, Hfw; [done|]. simpl in Hfw. apply orb_true_iff in Hfw as [?|Hfw]; [by left|right].
      apply andb_true_iff in Hfw as [_ Hfw]. unfold forces in Hfw.
      apply andb_true_iff in Hfw as [Hfw _]. apply bool_decide_eq_true in Hfw. exists s. split; [by left|done].
    + intros Hn s' [-> |Hs']%elem_of_cons; [|by apply H5].
      exfalso. clear -Hn Hrun. assert (forall ss w, is_Some (running w) -> is_Some (running (foldl step w ss))) as Hk.
      { clear. induction ss as [|s ss IH]; intros w Hw; [done|]. apply IH. unfold step. case_bool_decide; [done|].
        by eexists. }
      destruct (Hk ss (step w s)) as [? E]; [rewrite Hrun; by eexists|congruence].
  - assert (running (step w s) = running w /\ forced (step w s) = forced w) as [Hr Hfo].
    { unfold step. unfold transforming in Ht. by destruct (bool_decide (direction s = EVIDENCE)). }
    rewrite Hr in H1, H3. rewrite Hfo in H4. split_and!.
    + intros s' [-> |Hs']%elem_of_cons Ht'; [congruence|by apply H1].
    + intros s' v x [-> |Hs']%elem_of_cons Ht' Hv; [congruence|by eapply H2].
    + done.
    + intros Hforced. destruct (H4 Hforced) as [?|(s' & ? & ? & ?)]; [by left|right; exists s'; split; [by right|done]].
    + intros Hn s' [-> |Hs']%elem_of_cons; [done|by apply H5].
Qed.

(** A witness that holds is a proof: whatever produced the transcript, no
    transforming stage ends at more caution than the final verdict, and a floor
    recorded as fired means the final verdict is FORBID. *)
Theorem witness_sound hash t :
  holds (derive_monotonicity_witness hash t) = true ->
  (forall s, s ∈ stages t -> transforming s = true ->
     caution (verdict_after s) <= caution (final_verdict t))
  /\ (structural_floor_fired t = true -> final_verdict t = FORBID).
Proof.
  unfold derive_monotonicity_witness. cbn [holds]. rewrite bool_decide_eq_true.
  intros H%length_zero_iff_nil. apply app_eq_nil in H as [Hf Hc]. unfold walk_of in *.
  destruct (walk_monotone (stages t) start Hf) as (_ & H2 & _ & H4 & H5).
  apply app_eq_nil in Hc as [Hend Hfloor]. apply when_nil in Hfloor.
  assert (forall s, s ∈ stages t -> transforming s = true ->
            caution (verdict_after s) <= caution (final_verdict t)) as Hall.
  { intros s Hs Ht. destruct (running (foldl step start (stages t))) as [[v x]|] eqn:E.
    - apply when_nil, orb_false_iff in Hend as [Hv _]. apply negb_false_iff, bool_decide_eq_true in Hv.
      subst v. by eapply H2.
    - by rewrite (H5 eq_refl s Hs) in Ht. }
  split; [done|]. intros Hfired. rewrite Hfired in Hfloor. apply negb_false_iff in Hfloor.
  destruct (H4 Hfloor) as [?|(s & Hs & Ht & Hv)]; [done|].
  apply caution_forbid. pose proof (Hall s Hs Ht) as Hle. by rewrite Hv in Hle.
Qed.

(** ** Floats that do not move *)

Lemma apart_refl x : apart x x = false.
Proof.
  unfold apart, fsub. destruct x as [[]|[]| |sx mx ex]; try done.
  cbn [SFsub]. rewrite Z.sub_diag. done.
Qed.

(** Rounding keeps the sign of a non-negative number. *)
Definition sign_free (x : float) : Prop :=
  match x with S754_infinity true | S754_finite true _ _ => False | _ => True end.
Lemma sign_free_ltb x m e : sign_free x -> fltb x (S754_finite true m e) = false.
Proof. unfold fltb, SFltb. by destruct x as [|[]| |[]]. Qed.
Lemma binary_round_sign_free m e : sign_free (binary_round prec emax false m e).
Proof.
  unfold binary_round. destruct (shl_align m e _) as [mz ez].
  unfold binary_round_aux. destruct (shr_fexp _ _ _ _ _) as [mrs' e']. destruct (shr_fexp _ _ _ _ _) as [mrs'' e''].
  destruct (shr_m mrs''); try done. by destruct (e'' <=? emax - prec)%Z.
Qed.
Lemma float_of_Ze_sign_free m e : (0 <= m)%Z -> sign_free (float_of_Ze m e).
Proof.
  unfold float_of_Ze, binary_normalize. destruct m; [done|intros _; apply binary_round_sign_free|lia].
Qed.

Lemma clamp_cases x :
  fmin f_one (fmax f_zero x) = f_one \/ fmin f_one (fmax f_zero x) = f_zero
  \/ exists m e, fmin f_one (fmax f_zero x) = S754_finite false m e.
Proof.
  unfold fmin, fmax. destruct (fltb f_zero x) eqn:E.
  - destruct (fltb x f_one) eqn:E1; [|by left]. right. right.
    destruct x as [[]|[]| |[] m e]; try done. eauto.
  - right. left. done.
Qed.

Lemma round_half_even_nonneg a b : (0 <= a)%Z -> (0 < b)%Z -> (0 <= round_half_even a b)%Z.
Proof.
  intros Ha Hb. pose proof (Z.div_pos a b Ha Hb). unfold round_half_even. repeat case_match; lia.
Qed.
Lemma float_of_dec_sign_free k n : (0 <= k)%Z -> sign_free (float_of_dec false k n).
Proof.
  intros Hk. unfold float_of_dec, float_of_dec_abs. destruct (Z.leb_spec 0 n); apply float_of_Ze_sign_free.
  - pose proof (Z.pow_nonneg 10 n). lia.
  - assert (0 <= k * 2 ^ Z.max 0 (Z.log2 (10 ^ - n) - Z.log2 k + 66) / 10 ^ - n)%Z.
    { apply Z.div_pos; [|lia]. pose proof (Z.pow_nonneg 2 (Z.max 0 (Z.log2 (10 ^ - n) - Z.log2 k + 66))). lia. }
    case_match; lia.
Qed.

Lemma round_score_sign_free x : sign_free (round_score x).
Proof.
  unfold round_score. destruct (clamp_cases x) as [-> |[-> |(m & e & ->)]]; [done|done|].
  unfold round_ndigits. apply float_of_dec_sign_free. destruct (Z.leb_spec 0 e).
  - pose proof (Z.pow_nonneg 2 e). lia.
  - apply round_half_even_nonneg; [lia|]. apply Z.pow_pos_nonneg; lia.
Qed.

Lemma rounded_not_below x : fltb (round_score x) (fsub f_zero EPS) = false.
Proof.
  pose proof (round_score_sign_free x) as H. assert (exists m e, fsub f_zero EPS = S754_finite true m e) as (m & e & ->).
  { vm_compute. eauto. }
  by apply sign_free_ltb.
Qed.

(** ** The transcript of a run *)

Definition anchored : walk := {| running := Some (PERMIT, f_zero); n_transforming := 1; forced := false; found := [] |}.

Lemma walk_prefix s c p ss :
  walk_of (pipeline_entry :: evidence_stages s c p ++ ss) = foldl step anchored ss.
Proof. unfold walk_of. simpl. f_equal. Qed.

Lemma direction_transforms vb rb va ra : bool_decide (classify_direction vb rb va ra = EVIDENCE) = false.
Proof. unfold classify_direction. by repeat case_match. Qed.

Lemma stage_step w s v x :
  running w = Some (v, x) -> bool_decide (direction s = EVIDENCE) = false -> is_floor s = false ->
  verdict_before s = v -> apart (risk_before s) x = false ->
  fltb (risk_after s) (fsub (risk_before s) EPS) = false ->
  step w s = {| running := Some (verdict_after s, risk_after s); n_transforming := S (n_transforming w);
                forced := forced w;
                found := found w ++ when (caution (verdict_after s) <? caution v)
                                      (violation s verdict_raised_toward_permit) |}.
Proof.
  intros Hr Hd Hf Hv Ha Hx. unfold step, stage_violations. rewrite Hr, Hd, Hf, Hv, Ha, Hx.
  rewrite bool_decide_eq_true_2 by done. simpl. by rewrite app_nil_r, orb_false_r.
Qed.

Lemma routed_holds {A} hash r pid pv sha fp (d : decision A) base :
  is_hard (d_contract d) (d_path d) (d_floor d) = false -> routed_base d = Some base ->
  final_score (final d) = final_score base ->
  (let x := round_score (final_score (final d)) in fltb x (fsub x EPS) = false) ->
  holds (derive_monotonicity_witness hash (build_verdict_transcript r pid pv sha fp d)) = true
  <-> caution (verdict base) <= caution (verdict (final d)).
Proof.
  intros Hh Hb Hs Hx. unfold is_hard in Hh. unfold derive_monotonicity_witness, build_verdict_transcript.
  cbn [holds stages]. rewrite Hh, Hb, walk_prefix. unfold routed_stages. cbn [default from_option id].
  rewrite <- Hs. cbv zeta in Hx. set (x := round_score (final_score (final d))) in *. cbn [foldl].
  erewrite (stage_step anchored) by (reflexivity || apply apart_refl).
  match goal with |- context [step (step ?w ?s) _] => erewrite (stage_step w s);
    [|reflexivity|apply direction_transforms|reflexivity..|apply rounded_not_below] end.
  match goal with |- context [step ?w ?s] => erewrite (stage_step w s);
    [|reflexivity|apply direction_transforms|reflexivity|reflexivity|apply apart_refl|exact Hx] end.
  cbn [found running forced anchored]. unfold closing_violations.
  cbn [running forced final_verdict final_risk_score structural_floor_fired stages].
  fold x. cbn [verdict_after risk_after held_stage caution].
  change (caution (verdict base) <? 0) with false. change (0 <? 0) with false.
  rewrite (bool_decide_eq_true_2 (verdict (final d) = verdict (final d))) by done. rewrite apart_refl.
  apply orb_false_iff in Hh as [_ ->]. cbn [negb orb andb when app]. rewrite app_nil_r.
  rewrite bool_decide_eq_true. destruct (Nat.ltb_spec (caution (verdict (final d))) (caution (verdict base)));
    simpl; split; intros; try lia; done.
Qed.

Lemma hard_holds {A} hash r pid pv sha fp (d : decision A) :
  is_hard (d_contract d) (d_path d) (d_floor d) = true ->
  verdict (final d) = FORBID -> final_score (final d) = f_one ->
  holds (derive_monotonicity_witness hash (build_verdict_transcript r pid pv sha fp d)) = true.
Proof.
  intros Hh Hv Hs. unfold is_hard in Hh. unfold derive_monotonicity_witness, build_verdict_transcript.
  cbn [holds stages]. rewrite Hh, walk_prefix, Hv, Hs. unfold closing_violations. cbn [structural_floor_fired].
  change (running (foldl step anchored (hard_stages (d_contract d) (d_path d) (d_floor d))))
    with (Some (FORBID, round_score f_one)).
  change (forced (foldl step anchored (hard_stages (d_contract d) (d_path d) (d_floor d)))) with true.
  change (found (foldl step anchored (hard_stages (d_contract d) (d_path d) (d_floor d)))) with (@nil WitnessViolation).
  cbn [final_verdict final_risk_score]. rewrite apart_refl, andb_false_r. done.
Qed.

Section Evaluate.
Context {W L S A : Type}.
Context (uuid_hex : W -> string * W) (now : W -> string * W) (fresh_world : W).
Context (py_str : pyval -> string) (str_tuple : list string -> string).
Context (re_search : string -> string -> result ContractLtl.exn bool).
Context (isoformat str_time : Z -> string) (fromisoformat : string -> option Z).
Context (parse_error_text : string -> string) (unsafe_order : list string).
Context (active_backend_id : option string).
Context (append : sealed_fact -> L -> bool * L).
Context (spine_evaluate : EvaluationRequest -> S -> SpineSignal * S).
Context (rule : SelectiveRiskRule).
Context (build_asi_findings : DeterministicGateResult -> SpecialistBundle -> SemanticAnalysis -> bool ->
                              result RouterDomain.exn A).
Context (st : streams) (actions : option action_ledger).
Context (crc_gate : CrcGate.ConformalRiskGate).
Context (policy : PolicySnapshot) (precedent_policy : PrecedentPolicy).
Abbreviation evaluateM := (evaluate uuid_hex now fresh_world py_str str_tuple re_search isoformat str_time
  fromisoformat parse_error_text unsafe_order active_backend_id append spine_evaluate rule
  build_asi_findings st actions crc_gate policy precedent_policy).

(** C6. The witness sealed with a verdict is exact: it holds for every completed
    evaluation whose verdict precedent did not resolve, and for those that
    precedent resolved it reports the relaxation.  (The hypothesis on the rounded
    score is a fact of float subtraction, that it does not exceed its first
    operand.) *)
Theorem witness_exact hash pid pv sha fp r (s s' : @pdp W L S) d :
  evaluateM r s = (Ok d, s') ->
  (let x := round_score (final_score (final d)) in fltb x (fsub x EPS) = false) ->
  holds (derive_monotonicity_witness hash (build_verdict_transcript r pid pv sha fp d)) = true
  <-> ~ resolved_by_precedent fromisoformat append st precedent_policy r d.
Proof.
  intros H%evaluate_run Hx. destruct (is_hard (d_contract d) (d_path d) (d_floor d)) eqn:Hh.
  { eapply hard_final in H as (Hv & Hs & _); [|done].
    split; [|intros _; by apply hard_holds]. intros _ (ps & l & l' & _ & Hr).
    pose proof (res_to _ _ _ _ _ _ _ _ _ Hr). congruence. }
  pose proof H as Hg. eapply run_routed in Hg as (base & Hb & _); [|done].
  pose proof H as Hl. eapply gated_lowers in Hl as [Hscore Hv]; [|exact Hb].
  eapply final_cases in H as [Hf|[Hst Hr]].
  - rewrite (routed_holds _ _ _ _ _ _ _ _ Hh Hb) by (congruence || done). rewrite Hf. split.
    + intros _ (ps & l & l' & _ & Hr). pose proof (res_from _ _ _ _ _ _ _ _ _ Hr).
      pose proof (res_to _ _ _ _ _ _ _ _ _ Hr). congruence.
    + intros _. destruct Hv as [-> |(-> & -> & _)]; simpl; lia.
  - pose proof Hr as (ps & l & l' & _ & Ha).
    rewrite (routed_holds _ _ _ _ _ _ _ _ Hh Hb); [|rewrite (res_score _ _ _ _ _ _ _ _ _ Ha); congruence|done].
    split; [|done]. rewrite (res_to _ _ _ _ _ _ _ _ _ Ha). pose proof (res_from _ _ _ _ _ _ _ _ _ Ha) as Hab.
    destruct Hv as [Hv|(_ & _ & ?)]; [|done]. rewrite <- Hv, Hab. simpl. lia.
Qed.
End Evaluate.
End TranscriptSpec.

(** * The decision point: concrete evaluations *)
Import RouterDomain RouterFusion Router RouterSpec PdpDomain ContractBridge Precedent Holds Pdp PdpSpec.
Import Transcript TranscriptSpec.
Open Scope string_scope.
Open Scope list_scope.
Open Scope nat_scope.

Module PdpRuns.

(** The same human resolution of a send, by email, in production. *)
Definition resolution (id : string) : RetrievedPrecedent := {|
  decision_id := id; pr_action_type := Some "send_email"; pr_channel := Some "email";
  pr_environment := Some "production";
  pr_metadata := [("precedent_resolution", PDict
    [("tenant_id", PStr "acme"); ("resolution_verdict", PStr "permit"); ("resolved_by_human", PBool true);
     ("resolved_at", PStr "1970-01-01T00:01:00+00:00"); ("resolution_confidence", PFloat (dec 9 1));
     ("record_hash", PStr ("hash-" +:+ id))])] |}.
Definition minute (_ : string) : option Z := Some 60000000%Z.
Definition seal (f : sealed_fact) (l : list sealed_fact) : bool * list sealed_fact := (true, l ++ [f]).

Definition precedent_on : PrecedentPolicy := {|
  precedent_autoresolve := true; autoresolve_min_count := 3; autoresolve_freshness_days := 30;
  autoresolve_min_confidence := dec 8 1 |}.

(** Streams that answer as given. *)
Definition streams_of (sp : SpecialistBundle) (v : Verdict) (top : float) : streams := {|
  gate_evaluate := fun _ => Ok (RouterRuns.gate false);
  retrieve := fun _ => Ok [resolution "d1"; resolution "d2"; resolution "d3"];
  agent_evaluate := fun _ => Ok (RouterRuns.agent "ACTIVE" false);
  specialists_evaluate := fun _ => Ok sp;
  semantic_analyze := fun _ => Ok (RouterRuns.semantic v top) |}.
Definition no_spine (_ : EvaluationRequest) (s : unit) : SpineSignal * unit :=
  ({| acted := false; s_reason := ""; ville_p_value := None; log_e_value := f_zero;
      action_log_e_threshold := f_one; anytime_valid := true; n_components := 0; combiner := "" |}, s).

Definition initial : @pdp nat (list sealed_fact) unit := {|
  contract_layer_of := Inert; cadence := Cadence.new_tracker CadenceRuns.tight;
  decision_ledger := Some []; risk_spine := None |}.
Definition send : EvaluationRequest := CadenceRuns.request "r1" CadenceRuns.bot "a@x" 100.

Abbreviation evaluate0 st g := (evaluate (A := unit) ContractRuns.uuid0 ContractRuns.now0 0
  ContractRuns.py_str0 ContractRuns.str_tuple0 ContractRuns.re_search0
  (fun _ => "") (fun _ => "") minute (fun s => s) [] None seal no_spine
  DEFAULT_SELECTIVE_RISK_RULE RouterRuns.build st None g RouterRuns.policy precedent_on).

Definition calm : streams := streams_of [RouterRuns.specialist "mage" (dec 2 1)] PERMIT (dec 3 1).
Definition border : streams := streams_of [RouterRuns.specialist "argus" (dec 2 1)] PERMIT (dec 75 2).
Definition denied : streams := streams_of [RouterRuns.specialist "pcas" f_one] PERMIT (dec 3 1).

Definition result_of (st : streams) (g : CrcGate.ConformalRiskGate) (r : EvaluationRequest) : option (decision unit) :=
  match (evaluate0 st g r initial).1 with Ok d => Some d | Err _ => None end.
Definition after (st : streams) := (evaluate0 st CrcRuns.calibrated send initial).2.

Definition blank : decision unit :=
  let r := Build_RoutingResult unit FORBID f_zero f_zero [] [] [] [] () false in
  {| d_signals := RouterRuns.request [] PERMIT f_zero None; d_contract := NEUTRAL_OUTCOME;
     d_path := PathBridge.NEUTRAL_PATH_OUTCOME; d_floor := StructuralFloor.NEUTRAL_STRUCTURAL_FLOOR; routed_base := None;
     held := r; gated := r; final := r |}.
Definition decided (st : streams) : decision unit := default blank (result_of st CrcRuns.calibrated send).

(** A specialist's structural deny. *)
Lemma proof_forbids_witness :
  evaluate0 denied CrcRuns.calibrated send initial = (Ok (decided denied), after denied)
  /\ verdict (final (decided denied)) = FORBID.
Proof.
  assert (evaluate0 denied CrcRuns.calibrated send initial = (Ok (decided denied), after denied)) as E
    by (vm_compute; reflexivity).
  split; [exact E|].
  refine (proj1 (proof_forbids _ _ _ _ _ _ _ _ _ _ _ _ _ _ _ _ _ _ _ _ _ _ _ _ _ E _)).
  left. exists (RouterRuns.specialist "pcas" f_one). split; [left|]. left. split; vm_compute; reflexivity.
Defined.

(** Precedent resolves a borderline score. *)
Lemma only_precedent_relaxes_witness :
  verdict (final (decided border)) = PERMIT
  /\ exists base, routed_base (decided border) = Some base /\ verdict base = ABSTAIN
     /\ final_score (final (decided border)) = final_score base.
Proof.
  split; [vm_compute; reflexivity|].
  assert (evaluate0 border CrcRuns.calibrated send initial = (Ok (decided border), after border)) as E
    by (vm_compute; reflexivity).
  assert (exists base, routed_base (decided border) = Some base /\ verdict base = ABSTAIN) as (base & Hb & Hv)
    by (eexists; split; vm_compute; reflexivity).
  exists base. split; [exact Hb|]. split; [exact Hv|].
  exact (proj2 (proj2 (only_precedent_relaxes _ _ _ _ _ _ _ _ _ _ _ _ _ _ _ _ _ _ _ _ _ _ _ _ _ _ E Hb))).
Defined.

Lemma permit_rests_on_witness :
  evaluate0 calm CrcRuns.calibrated send initial = (Ok (decided calm), after calm)
  /\ is_hard (d_contract (decided calm)) (d_path (decided calm)) (d_floor (decided calm)) = false.
Proof.
  assert (evaluate0 calm CrcRuns.calibrated send initial = (Ok (decided calm), after calm)) as E
    by (vm_compute; reflexivity).
  split; [exact E|].
  refine (proj1 (permit_rests_on _ _ _ _ _ _ _ _ _ _ _ _ _ _ _ _ _ _ _ _ _ _ _ _ _ E _)).
  vm_compute. reflexivity.
Defined.

Definition transcript_of (d : decision unit) : VerdictTranscript :=
  build_verdict_transcript send "policy" "1" "sha" "fp" d.
Definition hash0 (_ : VerdictTranscript) : string := "".

Lemma witness_sound_witness :
  forall s, s ∈ stages (transcript_of (decided calm)) -> transforming s = true ->
    caution (verdict_after s) <= caution PERMIT.
Proof.
  refine (proj1 (witness_sound hash0 (transcript_of (decided calm)) _)). vm_compute. reflexivity.
Defined.

(** The witness of the routed PERMIT holds, so precedent played no part; that of
    the resolved one does not. *)
Lemma witness_exact_witness :
  ~ resolved_by_precedent minute seal calm precedent_on send (decided calm)
  /\ holds (derive_monotonicity_witness hash0 (transcript_of (decided border))) = false.
Proof.
  split; [|vm_compute; reflexivity].
  assert (evaluate0 calm CrcRuns.calibrated send initial = (Ok (decided calm), after calm)) as E
    by (vm_compute; reflexivity).
  refine (proj1 (witness_exact _ _ _ _ _ _ _ _ _ _ _ _ _ _ _ _ _ _ _ _ _ hash0 "policy" "1" "sha" "fp"
                   _ _ _ _ E _) _); vm_compute; reflexivity.
Defined.

(** ** Precedent after the holds

    An action that claims post-quantum non-repudiation over a classical backend is
    held when it is routed to PERMIT.  Routed to ABSTAIN on a borderline score, the
    hold and a gate without a certificate both pass it on without a mark, and
    precedent permits it. *)
Definition uncertified : CrcGate.ConformalRiskGate :=
  match CrcGate.new_gate CrcRuns.bound (repeat {| CrcGate.cal_score := dec 1 1; CrcGate.unsafe := true |} 3)
          (dec 3 1) (dec 5 2) (Some (dec 1 3)) 3 (dec 5 1) (Some (dec 1 2)) "marginal" with
  | Ok g => g
  | Err _ => CrcRuns.calibrated
  end.
Definition pq_send : EvaluationRequest := {|
  request_id := "r1"; action_type := "send_email"; content := "hello"; recipient := Some "a@x"; channel := "email";
  environment := "production"; metadata := [("pq_non_repudiation", PBool true)];
  req_agent_id := None; session_id := None;
  agent_identity := Some CadenceRuns.bot; requested_at := 100000000%Z |}.
Definition course (o : option (decision unit)) : option (Verdict * Verdict * Verdict) :=
  (fun d => (verdict (held d), verdict (gated d), verdict (final d))) <$> o.
Example precedent_skips_holds :
  course (result_of calm CrcRuns.calibrated pq_send) = Some (ABSTAIN, ABSTAIN, ABSTAIN)
  /\ course (result_of calm uncertified send) = Some (PERMIT, ABSTAIN, ABSTAIN)
  /\ course (result_of border uncertified pq_send) = Some (ABSTAIN, ABSTAIN, PERMIT).
Proof. vm_compute. split_and!; reflexivity. Qed.

End PdpRuns.
