(* ===== verification/PcasLang.v ===== *)
(** * PCAS policies: the syntax tree

    [tex/pcas/language/ast.py]: terms, atoms, rules and programs of the Datalog
    policy language, with the validators of their constructors.  Source positions,
    which only enter messages, are left out, and so are the messages. *)
From S2P Require Import Prelude PyStr Parsing PyFormat.
Open Scope string_scope.
Open Scope list_scope.
Open Scope nat_scope.

Module PcasAst.

(** The exceptions of the package.  [OutOfFuel] is the model's own; it is never
    raised.  [ValidationError] is pydantic's, a [ValueError]. *)
Inductive exn :=
| LexerError | ParseError | ValidationError | ValueError
| StratificationError | EvaluationError | IndexError | KeyError | OutOfFuel.

(** ** Values *)

Inductive FactValue := VStr (s : string) | VInt (z : Z) | VBool (b : bool).
#[export] Instance FactValue_eq_dec : EqDecision FactValue.
Proof. solve_decision. Defined.

(** [x == y]: a bool is the int 0 or 1. *)
Definition num (v : FactValue) : option Z :=
  match v with VStr _ => None | VInt z => Some z | VBool b => Some (if b then 1 else 0)%Z end.
Definition py_eq (x y : FactValue) : bool :=
  match x, y with
  | VStr s, VStr t => String.eqb s t
  | VStr _, _ | _, VStr _ => false
  | _, _ => bool_decide (num x = num y)
  end.

(** ** Terms, atoms, rules *)

Inductive Term := Var (name : string) | Constant (value : FactValue).
#[export] Instance Term_eq_dec : EqDecision Term.
Proof. solve_decision. Defined.

Definition name_char (c : ascii) : bool := isalnum c || Ascii.eqb c "_".
Definition starts_with_char (p : ascii -> bool) (s : string) : bool :=
  match s with EmptyString => false | String c _ => p c end.
Definition valid_name (first : ascii -> bool) (s : string) : bool :=
  (1 <=? String.length s) && (String.length s <=? 64) && starts_with_char first s && str_all name_char s.
Definition valid_variable : string -> bool := valid_name (fun c => isupper c || Ascii.eqb c "_").
Definition valid_predicate : string -> bool := valid_name islower.

Definition new_variable (name : string) : result exn Term :=
  if valid_variable name then Ok (Var name) else Err ValidationError.

(** [Variable.is_anonymous]. *)
Definition is_anonymous (name : string) : bool := starts_with_char (Ascii.eqb "_") name.

Record Atom := { predicate : string; args : list Term }.
#[export] Instance Atom_eq_dec : EqDecision Atom.
Proof. solve_decision. Defined.
Definition new_atom (predicate : string) (args : list Term) : result exn Atom :=
  if valid_predicate predicate then Ok {| predicate := predicate; args := args |} else Err ValidationError.
Definition arity (a : Atom) : nat := length (args a).
(** The names of [atom.variables]. *)
Definition term_variables (ts : list Term) : list string :=
  omap (fun t => match t with Var x => Some x | Constant _ => None end) ts.
Definition variables (a : Atom) : list string := term_variables (args a).

Inductive BodyElement :=
| PositiveAtom (a : Atom) | NegatedAtom (a : Atom) | HelperCall (name : string) (hargs : list Term).
#[export] Instance BodyElement_eq_dec : EqDecision BodyElement.
Proof. solve_decision. Defined.

Inductive RuleAnnotation := authorize | deny | plain_rule.
#[export] Instance RuleAnnotation_eq_dec : EqDecision RuleAnnotation.
Proof. solve_decision. Defined.

Record Rule := { annotation : RuleAnnotation; head : Atom; body : list BodyElement }.
#[export] Instance Rule_eq_dec : EqDecision Rule.
Proof. solve_decision. Defined.

Definition is_fact (r : Rule) : bool := match body r with [] => true | _ => false end.
Definition body_positive_atoms (r : Rule) : list Atom :=
  omap (fun b => match b with PositiveAtom a => Some a | _ => None end) (body r).
Definition body_negated_atoms (r : Rule) : list Atom :=
  omap (fun b => match b with NegatedAtom a => Some a | _ => None end) (body r).
Definition body_helpers (r : Rule) : list (string * list Term) :=
  omap (fun b => match b with HelperCall n ts => Some (n, ts) | _ => None end) (body r).

Record Program := { rules : list Rule }.
(** [authorize_predicates] and [deny_predicates], as lists. *)
Definition annotated (a : RuleAnnotation) (p : Program) : list string :=
  remove_dups (omap (fun r => if bool_decide (annotation r = a) then Some (predicate (head r)) else None)
                 (rules p)).

(** ** Lemmas *)

Definition plain (v : FactValue) : Prop := match v with VBool _ => False | _ => True end.

(** Python's equality is equality where there are no bools. *)
Lemma py_eq_plain x y : plain x -> plain y -> py_eq x y = true <-> x = y.
Proof.
  destruct x as [s|z|b], y as [t|z'|b']; simpl; try done; intros _ _.
  - rewrite String.eqb_eq. naive_solver.
  - unfold py_eq, num. rewrite bool_decide_eq_true. naive_solver.
Qed.
Lemma py_eq_refl x : py_eq x x = true.
Proof. destruct x; unfold py_eq; [apply String.eqb_refl|by apply bool_decide_eq_true..]. Qed.
Lemma py_eq_sym x y : py_eq x y = py_eq y x.
Proof.
  destruct x as [s|z|b], y as [t|z'|b']; unfold py_eq; try done; [apply String.eqb_sym|..];
    apply bool_decide_ext; naive_solver.
Qed.

Lemma elem_of_positive r a : a ∈ body_positive_atoms r <-> PositiveAtom a ∈ body r.
Proof. unfold body_positive_atoms. rewrite list_elem_of_omap. split; [intros ([| |] & ? & ?)|]; naive_solver. Qed.
Lemma elem_of_negated r a : a ∈ body_negated_atoms r <-> NegatedAtom a ∈ body r.
Proof. unfold body_negated_atoms. rewrite list_elem_of_omap. split; [intros ([| |] & ? & ?)|]; naive_solver. Qed.
Lemma elem_of_helpers r h : h ∈ body_helpers r <-> HelperCall h.1 h.2 ∈ body r.
Proof.
  destruct h as [n ts]. unfold body_helpers. rewrite list_elem_of_omap.
  split; [intros ([| |] & ? & ?)|]; naive_solver.
Qed.
Lemma elem_of_annotated a p q :
  q ∈ annotated a p <-> exists r, r ∈ rules p /\ annotation r = a /\ predicate (head r) = q.
Proof.
  unfold annotated. rewrite elem_of_remove_dups, list_elem_of_omap.
  split; intros (r & Hr & H); exists r; split; auto; [case_bool_decide; naive_solver|].
  destruct H as [Ha Hq]. by rewrite bool_decide_eq_true_2, Hq by done.
Qed.

End PcasAst.

(** * PCAS policies: lexer and parser

    [tex/pcas/language/lexer.py] and [parser.py].  A token is its kind and text;
    positions are left out.  Every error of the lexer is one [LexerError], every
    error of the parser one [ParseError]; the constructors of the syntax tree
    raise pydantic's [ValidationError], and [int()] raises [ValueError] on the
    digits that are not decimal. *)
Import PcasAst.
Open Scope string_scope.
Open Scope list_scope.
Open Scope nat_scope.

Module PcasParser.

Inductive TokenKind :=
| IDENT | INTEGER | STRING | BOOL | LPAREN | RPAREN | COMMA | DOT | COLON_DASH
| NOT | AT_AUTH | AT_DENY | EOF.
#[export] Instance TokenKind_eq_dec : EqDecision TokenKind.
Proof. solve_decision. Defined.
Record Token := { kind : TokenKind; text : string }.
Definition tok (k : TokenKind) (s : string) : Token := {| kind := k; text := s |}.

(** ** The lexer *)

Definition newline : ascii := ascii_of_nat 10.
Definition tab : ascii := ascii_of_nat 9.
Definition return_ : ascii := ascii_of_nat 13.
Definition quote : ascii := ascii_of_nat 34.
Definition backslash : ascii := ascii_of_nat 92.

(** [% ...] up to the newline, which stays. *)
Definition skip_line (s : string) : string := (span (fun c => negb (Ascii.eqb c newline)) s).2.
(** What follows the first [*/]. *)
Fixpoint skip_block (s : string) : option string :=
  match s with
  | String c ((String d rest) as s') =>
      if Ascii.eqb c "*" && Ascii.eqb d "/" then Some rest else skip_block s'
  | _ => None
  end.

Definition escape (c : ascii) : option ascii :=
  if Ascii.eqb c quote then Some quote
  else if Ascii.eqb c backslash then Some backslash
  else if Ascii.eqb c "n" then Some newline
  else if Ascii.eqb c "t" then Some tab
  else if Ascii.eqb c "r" then Some return_
  else None.
(** The body of a string literal, and what follows its closing quote. *)
Fixpoint read_string (s : string) : result exn (string * string) :=
  match s with
  | EmptyString => Err LexerError
  | String c s' =>
      if Ascii.eqb c quote then Ok ("", s')
      else if Ascii.eqb c backslash then
        match s' with
        | EmptyString => Err LexerError
        | String d s'' =>
            match escape d with
            | None => Err LexerError
            | Some e => '(t, r) ← read_string s''; Ok (String e t, r)
            end
        end
      else if Ascii.eqb c newline then Err LexerError
      else '(t, r) ← read_string s'; Ok (String c t, r)
  end.

Definition keyword_kind (w : string) : TokenKind :=
  if String.eqb w "not" then NOT
  else if String.eqb w "true" || String.eqb w "false" then BOOL else IDENT.
Definition annotation_kind (w : string) : option TokenKind :=
  if String.eqb w "authorize" then Some AT_AUTH
  else if String.eqb w "deny" then Some AT_DENY else None.
Definition punctuation (c : ascii) : option TokenKind :=
  if Ascii.eqb c "(" then Some LPAREN else if Ascii.eqb c ")" then Some RPAREN
  else if Ascii.eqb c "," then Some COMMA else if Ascii.eqb c "." then Some DOT else None.

(** A minus starts an integer at the beginning, after a bracket or a comma. *)
Definition minus_allowed (prev : option TokenKind) : bool :=
  match prev with None | Some LPAREN | Some COMMA => true | _ => false end.

(** One turn of the loop: the token it adds, if any, and the rest. *)
Definition lex_step (prev : option TokenKind) (c : ascii) (rest : string)
    : result exn (option Token * string) :=
  if Ascii.eqb c newline || Ascii.eqb c " " || Ascii.eqb c tab || Ascii.eqb c return_ then Ok (None, rest)
  else if Ascii.eqb c "%" then Ok (None, skip_line rest)
  else if Ascii.eqb c "/" && starts_with_char (Ascii.eqb "*") rest then
    match skip_block (match rest with String _ r => r | _ => "" end) with
    | Some r => Ok (None, r)
    | None => Err LexerError
    end
  else match punctuation c with
  | Some k => Ok (Some (tok k (String c "")), rest)
  | None =>
  if Ascii.eqb c ":" then
    match rest with
    | String "-" r => Ok (Some (tok COLON_DASH ":-"), r)
    | _ => Err LexerError
    end
  else if Ascii.eqb c "@" then
    let '(w, r) := span name_char rest in
    match annotation_kind w with
    | Some k => Ok (Some (tok k (String "@" w)), r)
    | None => Err LexerError
    end
  else if Ascii.eqb c quote then '(t, r) ← read_string rest; Ok (Some (tok STRING t), r)
  else if isdigit c then
    let '(w, r) := span isdigit rest in Ok (Some (tok INTEGER (String c w)), r)
  else if Ascii.eqb c "-" && starts_with_char isdigit rest && minus_allowed prev then
    let '(w, r) := span isdigit rest in Ok (Some (tok INTEGER (String c w)), r)
  else if isalpha c || Ascii.eqb c "_" then
    let '(w, r) := span name_char rest in
    Ok (Some (tok (keyword_kind (String c w)) (String c w)), r)
  else Err LexerError
  end.

Fixpoint lex (fuel : nat) (prev : option TokenKind) (s : string) : result exn (list Token) :=
  match s with
  | EmptyString => Ok [tok EOF ""]
  | String c rest =>
      match fuel with
      | 0 => Err OutOfFuel
      | S fuel =>
          '(t, r) ← lex_step prev c rest;
          match t with
          | None => lex fuel prev r
          | Some t => ts ← lex fuel (Some (kind t)) r; Ok (t :: ts)
          end
      end
  end.
Definition tokens (source : string) : result exn (list Token) := lex (String.length source) None source.

(** ** The parser *)

(** The stream ends with [EOF], which no production consumes. *)
Definition peek (ts : list Token) : TokenKind := match ts with t :: _ => kind t | [] => EOF end.
Definition at_ (k : TokenKind) (ts : list Token) : bool := bool_decide (peek ts = k).
Definition consume (k : TokenKind) (ts : list Token) : result exn (string * list Token) :=
  match ts with
  | t :: ts' => if bool_decide (kind t = k) then Ok (text t, ts') else Err ParseError
  | [] => Err ParseError
  end.

Definition parse_term (ts : list Token) : result exn (Term * list Token) :=
  match ts with
  | t :: ts' =>
      match kind t with
      | IDENT => v ← new_variable (text t); Ok (v, ts')
      | STRING => Ok (Constant (VStr (text t)), ts')
      | INTEGER => match int_of_run (text t) with
                   | Some z => Ok (Constant (VInt z), ts')
                   | None => Err ValueError
                   end
      | BOOL => Ok (Constant (VBool (String.eqb (text t) "true")), ts')
      | _ => Err ParseError
      end
  | [] => Err ParseError
  end.

(** [item ("," item)*], for terms and for body elements. *)
Fixpoint comma_list {A} (item : list Token -> result exn (A * list Token)) (fuel : nat) (ts : list Token)
    : result exn (list A * list Token) :=
  match fuel with
  | 0 => Err OutOfFuel
  | S fuel =>
      '(x, ts) ← item ts;
      if at_ COMMA ts then
        '(_, ts) ← consume COMMA ts; '(xs, ts) ← comma_list item fuel ts; Ok (x :: xs, ts)
      else Ok ([x], ts)
  end.

Definition parse_args (ts : list Token) : result exn (list Term * list Token) :=
  if at_ LPAREN ts then
    '(_, ts) ← consume LPAREN ts;
    '(xs, ts) ← (if at_ RPAREN ts then Ok ([], ts) else comma_list parse_term (S (length ts)) ts);
    '(_, ts) ← consume RPAREN ts;
    Ok (xs, ts)
  else Ok ([], ts).
Definition parse_atom (ts : list Token) : result exn (Atom * list Token) :=
  '(name, ts) ← consume IDENT ts;
  '(xs, ts) ← parse_args ts;
  a ← new_atom name xs;
  Ok (a, ts).
Definition parse_body_element (ts : list Token) : result exn (BodyElement * list Token) :=
  if at_ NOT ts then
    '(_, ts) ← consume NOT ts; '(a, ts) ← parse_atom ts; Ok (NegatedAtom a, ts)
  else '(a, ts) ← parse_atom ts; Ok (PositiveAtom a, ts).
Definition parse_body (ts : list Token) : result exn (list BodyElement * list Token) :=
  comma_list parse_body_element (S (length ts)) ts.

Definition accept_annotation (ts : list Token) : RuleAnnotation * list Token :=
  match ts with
  | t :: ts' => match kind t with
                | AT_AUTH => (authorize, ts')
                | AT_DENY => (deny, ts')
                | _ => (plain_rule, ts)
                end
  | [] => (plain_rule, [])
  end.
Definition parse_rule (ts : list Token) : result exn (Rule * list Token) :=
  let '(ann, ts) := accept_annotation ts in
  '(h, ts) ← parse_atom ts;
  '(b, ts) ← (if at_ COLON_DASH ts then '(_, ts) ← consume COLON_DASH ts; parse_body ts else Ok ([], ts));
  '(_, ts) ← consume DOT ts;
  Ok ({| annotation := ann; head := h; body := b |}, ts).

Fixpoint parse_rules (fuel : nat) (ts : list Token) : result exn (list Rule) :=
  if at_ EOF ts then Ok []
  else match fuel with
       | 0 => Err OutOfFuel
       | S fuel => '(r, ts) ← parse_rule ts; rs ← parse_rules fuel ts; Ok (r :: rs)
       end.
Definition parse (ts : list Token) : result exn Program :=
  rs ← parse_rules (length ts) ts; Ok {| rules := rs |}.

Definition parse_program (source : string) : result exn Program := ts ← tokens source; parse ts.

(** ** Examples *)

Definition nl : string := String newline "".
Example parse_ex :
  parse_program ("% reachability" +:+ nl +:+ "p(X, Z) :- q(X, Y), not r(Y, -3), /* */ p(Y,Z)." +:+ nl
                 +:+ "@deny ok.")
  = Ok {| rules := [
      {| annotation := plain_rule; head := {| predicate := "p"; args := [Var "X"; Var "Z"] |};
         body := [PositiveAtom {| predicate := "q"; args := [Var "X"; Var "Y"] |};
                  NegatedAtom {| predicate := "r"; args := [Var "Y"; Constant (VInt (-3))] |};
                  PositiveAtom {| predicate := "p"; args := [Var "Y"; Var "Z"] |}] |};
      {| annotation := deny; head := {| predicate := "ok"; args := [] |}; body := [] |}] |}.
Proof. vm_compute. reflexivity. Qed.

(** A bareword in a term position is a variable whose name is not valid: the
    exception is pydantic's and not a [ParseError]. *)
Example bareword_term : parse_program "@deny d(a)." = Err ValidationError.
Proof. vm_compute. reflexivity. Qed.
(** The superscript two is a digit for the lexer and not for [int]. *)
Example superscript_two : parse_program ("d(" +:+ String (ascii_of_nat 178) ").") = Err ValueError.
Proof. vm_compute. reflexivity. Qed.

End PcasParser.
