(* ===== verification/PcasParserSpec.v ===== *)
(** * PCAS policies: the parser answers, and inverts a printer *)
From stdpp Require Import pretty.
From S2P Require Import Prelude PyStr Parsing PyFormat PcasLang.
Import PcasAst PcasParser.
Open Scope string_scope.
Open Scope list_scope.
Open Scope nat_scope.

Module PcasParserSpec.

(** ** The fuel suffices *)

Abbreviation fuelled := (fun e : exn => e <> OutOfFuel).

Lemma span_shorter p s : String.length (span p s).2 <= String.length s.
Proof. destruct (span p s) as [a b] eqn:E. apply span_length in E. simpl. lia. Qed.
Lemma skip_block_shorter s r : skip_block s = Some r -> String.length r <= String.length s.
Proof.
  induction s as [|c s IH]; simpl; [done|]. destruct s as [|d s']; [done|].
  destruct (_ && _).
  - intros [= ->]. simpl. lia.
  - intros H%IH. simpl in *. lia.
Qed.
Lemma read_string_ok n s : String.length s <= n ->
  match read_string s with Ok (_, r) => String.length r < String.length s | Err e => fuelled e end.
Proof.
  revert s. induction n as [|n IH]; intros [|c s] Hn; simpl in *; try done; try lia.
  destruct (Ascii.eqb c quote); [simpl; lia|]. destruct (Ascii.eqb c backslash).
  - destruct s as [|d s]; [done|]. destruct (escape d); [|done]. simpl in Hn.
    specialize (IH s ltac:(lia)). destruct (read_string s) as [[t r]|e]; simpl in *; [lia|done].
  - destruct (Ascii.eqb c newline); [done|]. specialize (IH s ltac:(lia)).
    destruct (read_string s) as [[t r]|e]; simpl in *; [lia|done].
Qed.

Lemma lex_step_ok prev c rest :
  match lex_step prev c rest with
  | Ok (_, r) => String.length r <= String.length rest
  | Err e => fuelled e
  end.
Proof.
  unfold lex_step. destruct (_ || _); [done|]. destruct (Ascii.eqb c "%"); [apply span_shorter|].
  destruct (_ && _).
  { destruct rest as [|d rest]; [done|]. destruct (skip_block rest) eqn:E; [|done].
    apply skip_block_shorter in E. simpl. lia. }
  destruct (punctuation c); [done|]. destruct (Ascii.eqb c ":").
  { destruct rest as [|[[] [] [] [] [] [] [] []] r]; simpl; try done; lia. }
  destruct (Ascii.eqb c "@").
  { pose proof (span_shorter name_char rest). destruct (span name_char rest) as [w r].
    destruct (annotation_kind w); simpl in *; [lia|done]. }
  destruct (Ascii.eqb c quote).
  { pose proof (read_string_ok _ rest (le_n _)). destruct (read_string rest) as [[t r]|e]; simpl; [lia|done]. }
  pose proof (span_shorter isdigit rest). pose proof (span_shorter name_char rest).
  destruct (span isdigit rest), (span name_char rest). simpl in *.
  destruct (isdigit c); [done|]. destruct (_ && _); [done|]. by destruct (_ || _).
Qed.

Lemma lex_fuelled fuel prev s e : String.length s <= fuel -> lex fuel prev s = Err e -> fuelled e.
Proof.
  revert prev s. induction fuel as [|fuel IH]; intros prev [|c s]; simpl; intros Hn; try done; try lia.
  pose proof (lex_step_ok prev c s) as Hs. destruct (lex_step prev c s) as [[t r]|e']; simpl.
  - destruct t as [t|]; [|apply IH; lia].
    destruct (lex fuel (Some (kind t)) r) eqn:E; simpl; [done|]. intros [= <-].
    eapply IH; [|exact E]. lia.
  - by intros [= <-].
Qed.

(** Sequencing: the first production consumes, the second may not. *)
Lemma then_ok {A B} (ts : list Token) (m : result exn (A * list Token))
    (f : A * list Token -> result exn (B * list Token)) :
  consumes fuelled true ts m -> (forall a ts', consumes fuelled false ts' (f (a, ts'))) ->
  consumes fuelled true ts (m ≫= f).
Proof.
  destruct m as [[a ts']|e]; simpl; [|done]. intros Hm Hf. specialize (Hf a ts').
  destruct (f (a, ts')) as [[b ts'']|e]; simpl in *; [lia|done].
Qed.
Lemma consumes_weaken {A} ts (m : result exn (A * list Token)) :
  consumes fuelled true ts m -> consumes fuelled false ts m.
Proof. destruct m as [[a ts']|e]; simpl; [lia|done]. Qed.
Ltac next := apply consumes_weaken, then_ok; [|intros ? ?].

Lemma consume_ok k ts : consumes fuelled true ts (consume k ts).
Proof. unfold consume. destruct ts; simpl; [done|]. case_bool_decide; simpl; [lia|done]. Qed.
Lemma new_atom_ok n xs e : new_atom n xs = Err e -> fuelled e.
Proof. unfold new_atom. case_match; [done|]. by intros [= <-]. Qed.

Lemma parse_term_ok ts : consumes fuelled true ts (parse_term ts).
Proof.
  unfold parse_term. destruct ts as [|t ts]; [done|]. destruct (kind t); simpl; try done; try lia.
  - unfold new_variable. case_match; simpl; [lia|done].
  - case_match; simpl; [lia|done].
Qed.

(** A list of items, when each item leaves fewer tokens. *)
Lemma comma_list_ok {A} (item : list Token -> result exn (A * list Token)) fuel ts :
  (forall ts, consumes fuelled true ts (item ts)) -> length ts < fuel ->
  consumes fuelled true ts (comma_list item fuel ts).
Proof.
  intros Hi. revert ts. induction fuel as [|fuel IH]; intros ts Hn; [lia|]. cbn [comma_list].
  specialize (Hi ts) as H1. destruct (item ts) as [[x ts1]|e]; simpl in *; [|done].
  destruct (at_ COMMA ts1); [|simpl; lia]. pose proof (consume_ok COMMA ts1) as H2.
  destruct (consume COMMA ts1) as [[y ts2]|e]; simpl in *; [|done].
  specialize (IH ts2 ltac:(lia)). destruct (comma_list item fuel ts2) as [[z ts3]|e]; simpl in *; [lia|done].
Qed.

Lemma parse_args_ok ts : consumes fuelled false ts (parse_args ts).
Proof.
  unfold parse_args. destruct (at_ LPAREN ts); [|simpl; lia]. next; [apply consume_ok|].
  destruct (at_ RPAREN _).
  - cbn [mbind result_bind]. next; [apply consume_ok|]. simpl. lia.
  - next; [apply comma_list_ok; [apply parse_term_ok|lia]|]. next; [apply consume_ok|]. simpl. lia.
Qed.
Lemma parse_atom_ok ts : consumes fuelled true ts (parse_atom ts).
Proof.
  unfold parse_atom. apply then_ok; [apply consume_ok|]. intros name ts1.
  pose proof (parse_args_ok ts1). destruct (parse_args ts1) as [[xs ts2]|e]; simpl in *; [|done].
  destruct (new_atom name xs) eqn:E; simpl; [lia|by eapply new_atom_ok].
Qed.
Lemma parse_body_element_ok ts : consumes fuelled true ts (parse_body_element ts).
Proof.
  unfold parse_body_element. destruct (at_ NOT ts).
  - apply then_ok; [apply consume_ok|]. intros. next; [apply parse_atom_ok|]. simpl. lia.
  - apply then_ok; [apply parse_atom_ok|]. intros. simpl. lia.
Qed.
Lemma parse_rule_ok ts : consumes fuelled true ts (parse_rule ts).
Proof.
  unfold parse_rule. assert (length (accept_annotation ts).2 <= length ts) as Ha.
  { unfold accept_annotation. destruct ts as [|t ts]; [done|]. destruct (kind t); simpl; lia. }
  destruct (accept_annotation ts) as [ann ts0]. simpl in Ha.
  assert (consumes fuelled true ts0 ('(h, ts) ← parse_atom ts0;
    '(b, ts) ← (if at_ COLON_DASH ts then '(_, ts) ← consume COLON_DASH ts; parse_body ts else Ok ([], ts));
    '(_, ts) ← consume DOT ts; Ok ({| annotation := ann; head := h; body := b |}, ts))) as H.
  { apply then_ok; [apply parse_atom_ok|]. intros h ts1.
    assert (consumes fuelled false ts1
      (if at_ COLON_DASH ts1 then '(_, ts) ← consume COLON_DASH ts1; parse_body ts else Ok ([], ts1))) as Hb.
    { destruct (at_ COLON_DASH ts1); [|simpl; lia]. next; [apply consume_ok|].
      apply consumes_weaken, comma_list_ok; [apply parse_body_element_ok|lia]. }
    destruct (if at_ COLON_DASH ts1 then _ else _) as [[b ts2]|e]; simpl in *; [|done].
    pose proof (consume_ok DOT ts2). destruct (consume DOT ts2) as [[y ts3]|e]; simpl in *; [lia|done]. }
  destruct (_ ≫= _) as [[r ts']|e]; simpl in *; [lia|done].
Qed.
Lemma parse_rules_fuelled fuel ts e : length ts <= fuel -> parse_rules fuel ts = Err e -> fuelled e.
Proof.
  revert ts. induction fuel as [|fuel IH]; intros ts Hn; cbn [parse_rules].
  - destruct ts; [done|simpl in Hn; lia].
  - destruct (at_ EOF ts); [done|]. pose proof (parse_rule_ok ts) as H.
    destruct (parse_rule ts) as [[r ts1]|e']; simpl in *; [|by intros [= <-]].
    destruct (parse_rules fuel ts1) eqn:E; simpl; [done|]. intros [= <-]. eapply IH; [|exact E]. lia.
Qed.

(** Every policy text is parsed or rejected by an exception of the source: the
    loops of lexer and parser end. *)
Theorem parse_program_total source : parse_program source <> Err OutOfFuel.
Proof.
  unfold parse_program, tokens, parse. destruct (lex _ _ _) as [ts|e] eqn:E; simpl.
  - destruct (parse_rules (length ts) ts) as [rs|e] eqn:Er; simpl; [done|]. intros [= ->].
    by eapply parse_rules_fuelled in Er.
  - intros [= ->]. by eapply lex_fuelled in E.
Qed.

(** ** Printing *)

Definition esc_char (c : ascii) : string :=
  if Ascii.eqb c quote || Ascii.eqb c backslash then String backslash (String c "")
  else if Ascii.eqb c newline then String backslash "n" else String c "".
Fixpoint esc (s : string) : string :=
  match s with EmptyString => "" | String c s => esc_char c +:+ esc s end.

Definition term_token (t : Term) : Token :=
  match t with
  | Var x => tok IDENT x
  | Constant (VStr s) => tok STRING s
  | Constant (VInt z) => tok INTEGER (z_str z)
  | Constant (VBool b) => tok BOOL (if b then "true" else "false")
  end.
Fixpoint separated {A} (f : A -> list Token) (l : list A) : list Token :=
  match l with
  | [] => []
  | [x] => f x
  | x :: l => f x ++ tok COMMA "," :: separated f l
  end.
Definition atom_tokens (a : Atom) : list Token :=
  tok IDENT (predicate a) ::
  match args a with
  | [] => []
  | ts => tok LPAREN "(" :: separated (fun t => [term_token t]) ts ++ [tok RPAREN ")"]
  end.
Definition element_tokens (b : BodyElement) : list Token :=
  match b with
  | PositiveAtom a => atom_tokens a
  | NegatedAtom a => tok NOT "not" :: atom_tokens a
  | HelperCall n ts => atom_tokens {| predicate := n; args := ts |}
  end.
Definition annotation_tokens (a : RuleAnnotation) : list Token :=
  match a with
  | authorize => [tok AT_AUTH "@authorize"]
  | deny => [tok AT_DENY "@deny"]
  | plain_rule => []
  end.
Definition rule_tokens (r : Rule) : list Token :=
  annotation_tokens (annotation r) ++ atom_tokens (head r)
  ++ match body r with [] => [] | b => tok COLON_DASH ":-" :: separated element_tokens b end
  ++ [tok DOT "."].
Definition print_token (t : Token) : string :=
  match kind t with
  | STRING => String quote (esc (text t)) +:+ String quote ""
  | _ => text t
  end.
Fixpoint render (ts : list Token) : string :=
  match ts with [] => "" | t :: ts => print_token t +:+ " " +:+ render ts end.
Definition print_program (p : Program) : string := render (rules p ≫= rule_tokens).

(** What the language can write: valid names that are not keywords, and no
    helper calls, which only the stratifier makes. *)
Definition ident (w : string) : Prop := keyword_kind w = IDENT.
Definition wf_term (t : Term) : Prop := match t with Var x => valid_variable x = true | _ => True end.
Definition wf_atom (a : Atom) : Prop :=
  valid_predicate (predicate a) = true /\ ident (predicate a) /\ Forall wf_term (args a).
Definition wf_element (b : BodyElement) : Prop :=
  match b with PositiveAtom a | NegatedAtom a => wf_atom a | HelperCall _ _ => False end.
Definition wf_rule (r : Rule) : Prop := wf_atom (head r) /\ Forall wf_element (body r).

(** *** The parser on printed tokens *)

Lemma parse_term_print t ts : wf_term t -> parse_term (term_token t :: ts) = Ok (t, ts).
Proof.
  destruct t as [x|[s|z|b]]; simpl; intros H.
  - unfold new_variable. by rewrite H.
  - done.
  - by rewrite int_of_z_str.
  - by destruct b.
Qed.

(** The next token ends a list of items. *)
Definition stops (ts : list Token) : Prop := at_ COMMA ts = false.

Lemma comma_list_print {A} (f : A -> list Token) (item : list Token -> result exn (A * list Token))
    (wf : A -> Prop) (ends : list Token -> Prop) l fuel ts :
  (forall x ts, wf x -> ends ts -> item (f x ++ ts) = Ok (x, ts)) ->
  (forall ts, ends (tok COMMA "," :: ts)) ->
  l <> [] -> Forall wf l -> ends ts -> stops ts -> length l <= fuel ->
  comma_list item fuel (separated f l ++ ts) = Ok (l, ts).
Proof.
  intros Hi He. revert fuel. induction l as [|x l IH]; intros fuel; [done|]. intros _ Hwf Hts Hst Hn.
  apply list.Forall_cons in Hwf as [Hx Hl]. destruct fuel as [|fuel]; [simpl in Hn; lia|].
  destruct l as [|y l].
  - cbn [separated comma_list]. rewrite Hi by done. simpl. unfold stops in Hst. by rewrite Hst.
  - cbn [separated comma_list]. rewrite <- app_assoc. rewrite Hi; [|done|apply He]. simpl.
    assert (length (y :: l) <= fuel) as Hn' by (simpl in *; lia).
    assert (y :: l <> []) as Hne by done. pose proof (IH fuel Hne Hl Hts Hst Hn') as E.
    cbn [separated] in E |- *. by rewrite E.
Qed.

Lemma separated_length {A} (f : A -> list Token) l : length l <= S (length (separated f l)).
Proof.
  induction l as [|x [|y l] IH]; [simpl; lia..|]. cbn [separated length] in *. rewrite length_app. simpl in *. lia.
Qed.

Definition no_args (ts : list Token) : Prop := at_ LPAREN ts = false.
Lemma parse_atom_print a ts : wf_atom a -> no_args ts -> parse_atom (atom_tokens a ++ ts) = Ok (a, ts).
Proof.
  destruct a as [n xs]. intros (Hn & _ & Hxs) Hts. unfold parse_atom, atom_tokens. cbn [predicate args] in *.
  destruct xs as [|x xs]; cbn [app consume].
  - rewrite bool_decide_eq_true_2 by done. simpl. unfold parse_args. rewrite Hts. simpl.
    unfold new_atom. by rewrite Hn.
  - rewrite bool_decide_eq_true_2 by done. cbn [mbind result_bind text tok]. unfold parse_args.
    change (at_ LPAREN (tok LPAREN "(" :: ?t)) with true. cbn [consume app].
    rewrite bool_decide_eq_true_2 by done. cbn [mbind result_bind].
    assert (at_ RPAREN ((separated (fun t => [term_token t]) (x :: xs) ++ [tok RPAREN ")"]) ++ ts) = false) as Hr.
    { destruct xs; cbn; destruct x as [|[]]; done. }
    rewrite Hr. rewrite <- app_assoc.
    rewrite (comma_list_print (fun t => [term_token t]) parse_term wf_term (fun _ => True)); try done.
    + simpl. unfold new_atom. by rewrite Hn.
    + intros y ts' Hy _. by apply parse_term_print.
    + pose proof (separated_length (fun t => [term_token t]) (x :: xs)). rewrite length_app. lia.
Qed.
Lemma parse_element_print b ts :
  wf_element b -> no_args ts -> parse_body_element (element_tokens b ++ ts) = Ok (b, ts).
Proof.
  destruct b as [a|a|]; [..|done]; intros Hwf Hts; cbn [element_tokens]; unfold parse_body_element.
  - assert (at_ NOT (atom_tokens a ++ ts) = false) as -> by done. by rewrite parse_atom_print.
  - change (at_ NOT ((tok NOT "not" :: atom_tokens a) ++ ts)) with true. cbn [app consume].
    rewrite bool_decide_eq_true_2 by done. cbn [mbind result_bind]. by rewrite parse_atom_print.
Qed.
Lemma accept_print ann h ts :
  accept_annotation (annotation_tokens ann ++ atom_tokens h ++ ts) = (ann, atom_tokens h ++ ts).
Proof. by destruct ann. Qed.
Lemma parse_rule_print r ts : wf_rule r -> parse_rule (rule_tokens r ++ ts) = Ok (r, ts).
Proof.
  destruct r as [ann h b]. intros [Hh Hb]. cbn [head body] in *. unfold parse_rule, rule_tokens.
  cbn [annotation head body]. rewrite <- !app_assoc, accept_print.
  rewrite parse_atom_print; [|done|by destruct b]. cbn [mbind result_bind].
  destruct b as [|x b]; cbn [app].
  - change (at_ COLON_DASH (tok DOT "." :: ts)) with false. done.
  - change (at_ COLON_DASH (tok COLON_DASH ":-" :: ?t)) with true. cbn [consume].
    rewrite bool_decide_eq_true_2 by done. cbn [mbind result_bind]. unfold parse_body.
    rewrite (comma_list_print element_tokens parse_body_element wf_element no_args); try done.
    + intros; by apply parse_element_print.
    + pose proof (separated_length element_tokens (x :: b)). rewrite length_app. lia.
Qed.
Lemma parse_rules_print rs fuel :
  Forall wf_rule rs -> length rs <= fuel ->
  parse_rules fuel ((rs ≫= rule_tokens) ++ [tok EOF ""]) = Ok rs.
Proof.
  revert fuel. induction rs as [|r rs IH]; intros fuel Hwf Hn; [by destruct fuel|].
  apply list.Forall_cons in Hwf as [Hr Hrs]. destruct fuel as [|fuel]; [simpl in Hn; lia|].
  cbn [parse_rules]. rewrite bind_cons, <- app_assoc.
  assert (at_ EOF (rule_tokens r ++ (rs ≫= rule_tokens) ++ [tok EOF ""]) = false) as ->
    by (unfold rule_tokens; by destruct (annotation r)).
  rewrite parse_rule_print by done. simpl. simpl in Hn. by rewrite IH by (done || lia).
Qed.

(** *** The lexer on a printed text *)

Definition token_ok (prev : option TokenKind) (t : Token) : Prop :=
  match kind t with
  | IDENT => ident (text t) /\ str_all name_char (text t) = true
             /\ starts_with_char (fun c => isalpha c || Ascii.eqb c "_") (text t) = true
  | INTEGER => exists z, text t = z_str z /\ ((z < 0)%Z -> minus_allowed prev = true)
  | STRING => True
  | BOOL => text t = "true" \/ text t = "false"
  | LPAREN => text t = "(" | RPAREN => text t = ")" | COMMA => text t = "," | DOT => text t = "."
  | COLON_DASH => text t = ":-" | NOT => text t = "not"
  | AT_AUTH => text t = "@authorize" | AT_DENY => text t = "@deny"
  | EOF => False
  end.
Fixpoint tokens_ok (prev : option TokenKind) (ts : list Token) : Prop :=
  match ts with
  | [] => True
  | t :: ts => token_ok prev t /\ tokens_ok (Some (kind t)) ts
  end.
Definition last_kind (prev : option TokenKind) (ts : list Token) : option TokenKind :=
  foldl (fun _ t => Some (kind t)) prev ts.
Lemma tokens_ok_app prev a b :
  tokens_ok prev (a ++ b) <-> tokens_ok prev a /\ tokens_ok (last_kind prev a) b.
Proof. revert prev. induction a as [|t a IH]; intros prev; simpl; [naive_solver|]. rewrite IH. naive_solver. Qed.

(** The branch the first character of a name or of a number takes. *)
Lemma lex_name prev c rest :
  isalpha c || Ascii.eqb c "_" = true ->
  lex_step prev c rest
  = let '(w, r) := span name_char rest in Ok (Some (tok (keyword_kind (String c w)) (String c w)), r).
Proof.
  intros H. unfold lex_step. destruct (span name_char rest), (span isdigit rest).
  destruct c as [[] [] [] [] [] [] [] []]; try (vm_compute in H; discriminate H); reflexivity.
Qed.
Lemma lex_digit prev c rest :
  isdecimal c = true ->
  lex_step prev c rest = let '(w, r) := span isdigit rest in Ok (Some (tok INTEGER (String c w)), r).
Proof.
  intros H. unfold lex_step. destruct (span isdigit rest).
  destruct c as [[] [] [] [] [] [] [] []]; try (vm_compute in H; discriminate H); reflexivity.
Qed.


Lemma read_escaped d e s :
  escape d = Some e ->
  read_string (String backslash (String d s)) = '(t, r) ← read_string s; Ok (String e t, r).
Proof. intros H. cbn [read_string]. rewrite H. reflexivity. Qed.
Lemma read_string_esc s rest : read_string (esc s +:+ String quote rest) = Ok (s, rest).
Proof.
  induction s as [|c s IH]; [done|]. cbn [esc]. rewrite str_app_assoc. unfold esc_char.
  destruct (Ascii.eqb_spec c quote) as [-> |Hq];
    [change (?a +:+ ?b) with (String backslash (String quote b)); by rewrite (read_escaped _ quote), IH|].
  destruct (Ascii.eqb_spec c backslash) as [-> |Hb];
    [change (?a +:+ ?b) with (String backslash (String backslash b)); by rewrite (read_escaped _ backslash), IH|].
  destruct (Ascii.eqb_spec c newline) as [-> |Hn];
    [change (?a +:+ ?b) with (String backslash (String "n" b)); by rewrite (read_escaped _ newline), IH|].
  cbn [orb]. rewrite str_app_cons, str_app_nil. cbn [read_string].
  rewrite (proj2 (Ascii.eqb_neq _ _) Hq), (proj2 (Ascii.eqb_neq _ _) Hb), (proj2 (Ascii.eqb_neq _ _) Hn).
  by rewrite IH.
Qed.

Lemma decimal_isdigit w : str_all isdecimal w = true -> str_all isdigit w = true.
Proof.
  induction w as [|c w IH]; simpl; [done|]. intros [Hc Hw]%andb_prop. rewrite IH by done.
  unfold isdigit. unfold isdecimal in Hc. by rewrite Hc.
Qed.

Lemma lex_integer prev z rest :
  ((z < 0)%Z -> minus_allowed prev = true) ->
  exists c r, z_str z +:+ String " " rest = String c r
    /\ lex_step prev c r = Ok (Some (tok INTEGER (z_str z)), String " " rest).
Proof.
  intros Hm. destruct (decide (z < 0)%Z) as [Hz|Hz].
  - destruct z as [|p|p]; try lia. destruct (pretty_pos_digits p) as (H1 & _ & c & t & E).
    exists "-"%char, (pretty (N.pos p) +:+ String " " rest).
    change (z_str (Z.neg p)) with (String "-" (pretty (N.pos p))). split; [done|].
    assert (span isdigit (pretty (N.pos p) +:+ String " " rest) = (pretty (N.pos p), String " " rest)) as Hs
      by (apply span_word; [by apply decimal_isdigit|done]).
    unfold lex_step. rewrite Hs, E, str_app_cons. rewrite (Hm Hz).
    rewrite E in H1. cbn [str_all] in H1. apply andb_prop in H1 as [Hc _].
    cbn [starts_with_char]. replace (isdigit c) with true by (unfold isdigit; unfold isdecimal in Hc; by rewrite Hc).
    reflexivity.
  - assert (exists c t, z_str z = String c t /\ str_all isdecimal (String c t) = true) as (c & t & E & H).
    { destruct z as [|p|p]; [by exists "0"%char, ""| |lia].
      destruct (pretty_pos_digits p) as (H1 & _ & c & t & E). exists c, t.
      change (z_str (Z.pos p)) with (pretty (N.pos p)). split; [done|by rewrite <- E]. }
    exists c, (t +:+ String " " rest). rewrite E. split; [done|]. cbn [str_all] in H. apply andb_prop in H as [Hc Ht].
    rewrite lex_digit by done. by rewrite span_word by (done || by apply decimal_isdigit).
Qed.

Lemma lex_token prev t rest :
  token_ok prev t ->
  exists c r, print_token t +:+ String " " rest = String c r
    /\ lex_step prev c r = Ok (Some t, String " " rest).
Proof.
  destruct t as [k w]. unfold token_ok, print_token. cbn [kind text].
  destruct k; try (intros ->; cbn; eexists _, _; split; reflexivity); try done.
  - intros (Hi & Hw & Hc). destruct w as [|c w]; [done|]. cbn [starts_with_char str_all] in Hc, Hw.
    apply andb_prop in Hw as [_ Hw]. exists c, (w +:+ String " " rest). split; [done|].
    rewrite lex_name by done. rewrite span_word by done. unfold ident in Hi. by rewrite Hi.
  - intros (z & -> & Hm). by apply lex_integer.
  - intros _. exists quote, (esc w +:+ String quote (String " " rest)). split; [by rewrite !str_app_cons, str_app_assoc|].
    change (lex_step prev quote ?u) with ('(t, r) ← read_string u; Ok (Some (tok STRING t), r)).
    by rewrite read_string_esc.
  - intros [-> | ->]; cbn; eexists _, _; split; reflexivity.
Qed.

Lemma print_nonempty prev t : token_ok prev t -> 1 <= String.length (print_token t).
Proof.
  intros H. destruct (lex_token prev t "" H) as (c & r & E & Hs).
  destruct (print_token t) eqn:Ep; [|simpl; lia]. exfalso. cbn in E. injection E as <- <-.
  cbn in Hs. discriminate Hs.
Qed.

Lemma lex_render prev ts fuel :
  tokens_ok prev ts -> String.length (render ts) <= fuel ->
  lex fuel prev (render ts) = Ok (ts ++ [tok EOF ""]).
Proof.
  revert prev fuel. induction ts as [|t ts IH]; intros prev fuel Ht Hn; [by destruct fuel|].
  destruct Ht as [Ht Hts]. cbn [render] in *. destruct (lex_token prev t (render ts) Ht) as (c & r & E & Hs).
  change (" " +:+ render ts) with (String " " (render ts)) in *. rewrite E in *.
  destruct fuel as [|fuel]; [simpl in Hn; lia|]. cbn [lex]. rewrite Hs. cbn [mbind result_bind].
  pose proof (f_equal String.length E) as El. rewrite str_length_app in El. simpl in El, Hn.
  assert (lex fuel (Some (kind t)) (String " " (render ts)) = Ok (ts ++ [tok EOF ""])) as ->; [|done].
  destruct fuel as [|fuel].
  - exfalso. revert El Hn. pose proof (print_nonempty prev t Ht). lia.
  - cbn [lex]. change (lex_step ?k " " ?u) with (Ok (A := option Token * string) (E := exn) (None, u)).
    cbn [mbind result_bind]. apply IH; [done|]. pose proof (print_nonempty prev t Ht). lia.
Qed.

Lemma valid_name_parts first s :
  valid_name first s = true -> starts_with_char first s = true /\ str_all name_char s = true.
Proof. unfold valid_name. intros [[_ ?]%andb_prop ?]%andb_prop. done. Qed.
Lemma starts_with_impl (p q : ascii -> bool) s :
  (forall c, p c = true -> q c = true) -> starts_with_char p s = true -> starts_with_char q s = true.
Proof. destruct s; simpl; auto. Qed.
Lemma variable_ident x : valid_variable x = true -> ident x.
Proof.
  intros [H _]%valid_name_parts. unfold ident, keyword_kind.
  destruct (String.eqb_spec x "not") as [-> |_]; [by vm_compute in H|].
  destruct (String.eqb_spec x "true") as [-> |_]; [by vm_compute in H|].
  by destruct (String.eqb_spec x "false") as [-> |_]; [vm_compute in H|].
Qed.
Lemma term_token_ok prev t : minus_allowed prev = true -> wf_term t -> token_ok prev (term_token t).
Proof.
  intros Hm. destruct t as [x|[s|z|[]]]; unfold token_ok; cbn [term_token kind text tok]; eauto. intros H.
  pose proof (variable_ident _ H). apply valid_name_parts in H as [Hs Hn]. split_and!; [done..|].
  eapply starts_with_impl; [|exact Hs]. intros c. simpl. unfold isalpha.
  destruct (isupper c); [done|]. simpl. intros ->. by rewrite orb_true_r.
Qed.
Lemma last_kind_app prev a b : last_kind prev (a ++ b) = last_kind (last_kind prev a) b.
Proof. unfold last_kind. by rewrite foldl_app. Qed.

Lemma separated_ok {A} (f : A -> list Token) (wf : A -> Prop) (after : option TokenKind -> Prop) prev l :
  (forall prev x, after prev -> wf x -> tokens_ok prev (f x)) -> after (Some COMMA) ->
  after prev -> Forall wf l -> tokens_ok prev (separated f l).
Proof.
  intros Hf Hc. revert prev. induction l as [|x [|y l] IH]; intros prev Hp Hl; [done|..];
    apply list.Forall_cons in Hl as [Hx Hl]; [by apply Hf|].
  cbn [separated] in *. rewrite tokens_ok_app. split; [by apply Hf|]. split; [done|]. by apply IH.
Qed.
Lemma atom_tokens_ok prev a : wf_atom a -> tokens_ok prev (atom_tokens a).
Proof.
  destruct a as [n xs]. intros (Hn & Hi & Hxs). cbn [predicate args] in *. unfold atom_tokens. cbn [predicate args].
  apply valid_name_parts in Hn as [Hs Hn].
  assert (starts_with_char (fun c => isalpha c || Ascii.eqb c "_") n = true) as Hs'.
  { eapply starts_with_impl; [|exact Hs]. intros c. simpl. unfold isalpha. intros ->. by rewrite orb_true_r. }
  split; [done|]. destruct xs as [|x xs]; [done|]. split; [done|]. rewrite tokens_ok_app. split; [|done].
  apply (separated_ok _ wf_term (fun k => minus_allowed k = true)); [|done..]. intros p t Hp Ht. split; [by apply term_token_ok|done].
Qed.
Lemma rule_tokens_ok prev r : wf_rule r -> tokens_ok prev (rule_tokens r).
Proof.
  intros [Hh Hb]. unfold rule_tokens. rewrite !tokens_ok_app. split_and!; [by destruct (annotation r)|..].
  - by apply atom_tokens_ok.
  - destruct (body r) as [|x b]; [done|]. split; [done|].
    apply (separated_ok _ wf_element (fun _ => True)); [|done..]. intros p [t|t|] _ Ht; cbn [element_tokens].
    + by apply atom_tokens_ok.
    + split; [done|by apply atom_tokens_ok].
    + done.
  - done.
Qed.

(** C11. Parsing inverts printing: every program the language can write is what
    the parser returns on its printed text, with strings escaped and negative
    integers included. *)
Theorem parse_print_policy p :
  Forall wf_rule (rules p) -> parse_program (print_program p) = Ok p.
Proof.
  intros Hwf. unfold parse_program, print_program, tokens. rewrite lex_render; [|..|done].
  - simpl. unfold parse. rewrite parse_rules_print; [by destruct p|done|].
    rewrite length_app. assert (length (rules p) <= length (rules p ≫= rule_tokens)); [|lia].
    induction (rules p) as [|r rs IH]; [done|]. apply list.Forall_cons in Hwf as [_ Hwf].
    rewrite bind_cons, length_app. specialize (IH Hwf).
    assert (1 <= length (rule_tokens r)) by (unfold rule_tokens; rewrite !length_app; simpl; lia). simpl. lia.
  - generalize (@None TokenKind). induction (rules p) as [|r rs IH]; intros prev; [done|].
    apply list.Forall_cons in Hwf as [Hr Hwf]. rewrite bind_cons, tokens_ok_app.
    split; [by apply rule_tokens_ok|by apply IH].
Qed.
End PcasParserSpec.
