(* ===== verification/PcasStratify.v ===== *)
(** * PCAS policies: stratification

    [tex/pcas/language/stratify.py]: helper calls, range restriction, the
    dependency graph, Tarjan's strongly connected components with an explicit
    stack, and the strata.  The order in which Python iterates a set of strings is
    a parameter. *)
From S2P Require Import Prelude PyStr RouterFusion PcasLang.
Import PcasAst.
Open Scope string_scope.
Open Scope list_scope.
Open Scope nat_scope.

Module PcasStratify.

(** ** Helper calls and safety *)

Definition disambiguate_element (helper_names : list string) (b : BodyElement) : result exn BodyElement :=
  match b with
  | PositiveAtom a => Ok (if bool_decide (predicate a ∈ helper_names)
                          then HelperCall (predicate a) (args a) else b)
  | NegatedAtom a => if bool_decide (predicate a ∈ helper_names) then Err StratificationError else Ok b
  | HelperCall _ _ => Ok b
  end.
Definition disambiguate_rule (helper_names : list string) (r : Rule) : result exn Rule :=
  b ← map_result (disambiguate_element helper_names) (body r);
  Ok {| annotation := annotation r; head := head r; body := b |}.
Definition disambiguate_program (p : Program) (helper_names : list string) : result exn Program :=
  rs ← map_result (disambiguate_rule helper_names) (rules p);
  Ok {| rules := rs |}.

(** The variables that positive atoms bind. *)
Definition positive_vars (r : Rule) : list string :=
  List.filter (fun x => negb (is_anonymous x)) (body_positive_atoms r ≫= variables).
Definition bound_in (bound : list string) (x : string) : bool := is_anonymous x || bool_decide (x ∈ bound).

(** No head variable is anonymous, and every variable of the head, of a negated
    atom or of a helper call is bound; anonymous ones are passed over in the
    latter two. *)
Definition safe_rule (r : Rule) : bool :=
  let bound := positive_vars r in
  forallb (fun x => negb (is_anonymous x) && bool_decide (x ∈ bound)) (variables (head r))
  && forallb (fun a => forallb (bound_in bound) (variables a)) (body_negated_atoms r)
  && forallb (fun h => forallb (bound_in bound) (term_variables h.2)) (body_helpers r).
Definition check_safety (p : Program) : result exn unit :=
  if forallb safe_rule (rules p) then Ok () else Err StratificationError.

(** ** The dependency graph *)

Record PredicateGraph := {
  nodes : gset string;
  pos_edges : gmap string (gset string);
  neg_edges : gmap string (gset string)
}.
Definition setdefault (p : string) (m : gmap string (gset string)) : gmap string (gset string) :=
  match m !! p with None => <[p := ∅]> m | Some _ => m end.
Definition add_edge (p q : string) (m : gmap string (gset string)) : gmap string (gset string) :=
  <[p := default ∅ (m !! p) ∪ {[q]}]> m.
Definition edges (m : gmap string (gset string)) (p : string) : gset string := default ∅ (m !! p).

Definition add_positive (p : string) (g : PredicateGraph) (a : Atom) : PredicateGraph :=
  let q := predicate a in
  {| nodes := nodes g ∪ {[q]}; pos_edges := setdefault q (add_edge p q (pos_edges g));
     neg_edges := setdefault q (neg_edges g) |}.
Definition add_negative (p : string) (g : PredicateGraph) (a : Atom) : PredicateGraph :=
  let q := predicate a in
  {| nodes := nodes g ∪ {[q]}; pos_edges := setdefault q (pos_edges g);
     neg_edges := setdefault q (add_edge p q (neg_edges g)) |}.
Definition add_rule (g : PredicateGraph) (r : Rule) : PredicateGraph :=
  let p := predicate (head r) in
  let g := {| nodes := nodes g ∪ {[p]}; pos_edges := setdefault p (pos_edges g);
              neg_edges := setdefault p (neg_edges g) |} in
  let g := foldl (add_positive p) g (body_positive_atoms r) in
  foldl (add_negative p) g (body_negated_atoms r).
Definition build_dependency_graph (p : Program) : PredicateGraph :=
  foldl add_rule {| nodes := ∅; pos_edges := ∅; neg_edges := ∅ |} (rules p).

(** ** Strongly connected components *)

(** Both stacks have their top at the head; [sys_stack] holds the frames of the
    search with the neighbours still to visit. *)
Record search := {
  next_index : nat;
  stack : list string;
  on_stack : gset string;
  indices : gmap string nat;
  lowlinks : gmap string nat;
  sccs : list (list string);
  sys_stack : list (string * list string)
}.
Definition initial_search : search := {|
  next_index := 0; stack := []; on_stack := ∅; indices := ∅; lowlinks := ∅; sccs := []; sys_stack := [] |}.

Section Tarjan.
(** The neighbours of a node in the order they are popped. *)
Context (succs : string -> list string).

Definition visit (n : string) (s : search) : search := {|
  next_index := S (next_index s);
  stack := n :: stack s; on_stack := {[n]} ∪ on_stack s;
  indices := <[n := next_index s]> (indices s); lowlinks := <[n := next_index s]> (lowlinks s);
  sccs := sccs s; sys_stack := (n, succs n) :: sys_stack s |}.

Definition with_sys (sys : list (string * list string)) (s : search) : search := {|
  next_index := next_index s; stack := stack s; on_stack := on_stack s; indices := indices s;
  lowlinks := lowlinks s; sccs := sccs s; sys_stack := sys |}.
(** [lowlinks[n] = min(lowlinks[n], k)]. *)
Definition lower (n : string) (k : nat) (s : search) : search := {|
  next_index := next_index s; stack := stack s; on_stack := on_stack s; indices := indices s;
  lowlinks := <[n := (lowlinks s !!! n) `min` k]> (lowlinks s); sccs := sccs s; sys_stack := sys_stack s |}.

(** [while True: w = stack.pop(); ...; if w == node: break]. *)
Fixpoint pop_until (node : string) (st : list string) : list string * list string :=
  match st with
  | [] => ([], [])
  | w :: st => if String.eqb w node then ([w], st)
               else let '(c, st) := pop_until node st in (w :: c, st)
  end.
Definition pop_component (node : string) (s : search) : search :=
  let '(component, st) := pop_until node (stack s) in {|
  next_index := next_index s; stack := st; on_stack := on_stack s ∖ list_to_set component;
  indices := indices s; lowlinks := lowlinks s; sccs := sccs s ++ [component]; sys_stack := sys_stack s |}.

Definition follow (node neighbour : string) (s : search) : search :=
  if bool_decide (is_Some (indices s !! neighbour)) then
    if bool_decide (neighbour ∈ on_stack s) then lower node (indices s !!! neighbour) s else s
  else visit neighbour s.
Definition finish (node : string) (s : search) : search :=
  let s := if lowlinks s !!! node =? indices s !!! node then pop_component node s else s in
  match sys_stack s with
  | (parent, _) :: _ => lower parent (lowlinks s !!! node) s
  | [] => s
  end.

(** The [while] loop over the frames. *)
Fixpoint run (fuel : nat) (s : search) : result exn search :=
  match sys_stack s with
  | [] => Ok s
  | (node, remaining) :: sys =>
      match fuel with
      | 0 => Err OutOfFuel
      | S fuel =>
          match remaining with
          | neighbour :: remaining => run fuel (follow node neighbour (with_sys ((node, remaining) :: sys) s))
          | [] => run fuel (finish node (with_sys sys s))
          end
      end
  end.

(** Every turn takes a neighbour from a frame or removes a frame. *)
Definition fuel_for (ns : list string) : nat := sum_list_with (fun n => S (length (succs n))) ns.
Fixpoint search_from (fuel : nat) (starts : list string) (s : search) : result exn search :=
  match starts with
  | [] => Ok s
  | n :: starts =>
      if bool_decide (is_Some (indices s !! n)) then search_from fuel starts s
      else s ← run fuel (visit n s); search_from fuel starts s
  end.
Definition tarjan_sccs (ns : list string) : result exn (list (list string)) :=
  s ← search_from (fuel_for ns) ns initial_search; Ok (sccs s).
End Tarjan.

(** ** Strata *)

Definition negative_cycle (g : PredicateGraph) (component : list string) : bool :=
  existsb (fun u => existsb (fun v => bool_decide (v ∈ edges (neg_edges g) u)) component) component.
Definition check_no_negative_cycles (g : PredicateGraph) (cs : list (list string)) : result exn unit :=
  if existsb (negative_cycle g) cs then Err StratificationError else Ok ().

Record Stratum := { s_predicates : list string; s_rules : list Rule }.

Section Stratify.
(** [list(s)] of a set of strings. *)
Context (set_list : gset string -> list string).

Definition rules_for (p : Program) (q : string) : list Rule :=
  List.filter (fun r => String.eqb (predicate (head r)) q) (rules p).
Definition stratum_of (p : Program) (component : list string) : Stratum :=
  {| s_predicates := component; s_rules := component ≫= rules_for p |}.

Definition stratify (p : Program) (helper_names : list string) : result exn (Program * list Stratum) :=
  p ← disambiguate_program p helper_names;
  _ ← check_safety p;
  let g := build_dependency_graph p in
  let edges_of n := edges (pos_edges g) n ∪ edges (neg_edges g) n in
  cs ← tarjan_sccs (fun n => rev (set_list (edges_of n))) (RouterFusion.sorted (elements (nodes g)));
  _ ← check_no_negative_cycles g cs;
  Ok (p, stratum_of p <$> cs).
End Stratify.

End PcasStratify.
