(* ===== verification/PcasStratifySpec.v ===== *)
(** * Tarjan's algorithm, as the stratifier runs it

    The components partition the nodes, every edge leads to the same or an earlier
    component, and the nodes of a component reach each other.  The invariant cuts
    the stack at the nodes of the search frames. *)
From stdpp Require Import sorting relations.
From S2P Require Import Prelude RouterFusion PcasLang PcasStratify.
Import PcasAst PcasStratify.
Open Scope string_scope.
Open Scope list_scope.
Open Scope nat_scope.

Module PcasTarjan.
Section Tarjan.
Context (succs : string -> list string).

Definition edge (x y : string) : Prop := y ∈ succs x.
Abbreviation reach := (rtc edge).

Definition idx (s : search) (x : string) : nat := indices s !!! x.
Definition low (s : search) (x : string) : nat := lowlinks s !!! x.
Definition visited (s : search) (x : string) : Prop := is_Some (indices s !! x).

(** An edge that was followed: an end still on the stack bounds the lowlink. *)
Definition seen (s : search) (x y : string) : Prop := visited s y /\ (y ∈ stack s -> low s x <= idx s y).

(** Above the node of a frame lie finished nodes of its subtree. *)
Record below (s : search) (g x : string) : Prop := {
  b_low : low s x < idx s x;
  b_frame : low s g <= low s x;
  b_edges : forall y, edge x y -> seen s x y;
  b_reach : reach g x
}.
Inductive frames (s : search) : list (string * list string) -> list string -> Prop :=
| frames_nil : frames s [] []
| frames_cons g rem seg fs st :
    frames s fs st ->
    (forall x, x ∈ seg -> below s g x) ->
    (forall y, edge g y -> y ∈ rem \/ seen s g y) ->
    (forall y, y ∈ rem -> edge g y) ->
    (forall g' rem' fs', fs = (g', rem') :: fs' -> edge g' g) ->
    frames s ((g, rem) :: fs) (seg ++ g :: st).

(** The components emitted so far. *)
Record components (cs : list (list string)) : Prop := {
  c_down : forall i c x y, cs !! i = Some c -> x ∈ c -> edge x y -> exists j c', j <= i /\ cs !! j = Some c' /\ y ∈ c';
  c_strong : forall c x y, c ∈ cs -> x ∈ c -> y ∈ c -> reach x y;
  c_nonempty : [] ∉ cs
}.

Record inv (s : search) : Prop := {
  i_frames : frames s (sys_stack s) (stack s);
  i_sorted : StronglySorted (fun x y => idx s y < idx s x) (stack s);
  i_next : forall x, visited s x -> idx s x < next_index s;
  i_on : on_stack s = list_to_set (stack s);
  i_nodup : NoDup (stack s ++ concat (sccs s));
  i_visited : forall x, visited s x <-> x ∈ stack s \/ x ∈ concat (sccs s);
  i_low : forall x, x ∈ stack s -> low s x <= idx s x
             /\ exists y, y ∈ stack s /\ idx s y = low s x /\ reach x y;
  i_components : components (sccs s)
}.

Lemma elem_of_concat {A} (x : A) ls : x ∈ concat ls <-> exists l, l ∈ ls /\ x ∈ l.
Proof. rewrite list_elem_of_In, in_concat. setoid_rewrite list_elem_of_In. done. Qed.

(** ** Transport of the frames *)

(** The frames only look at the maps and the stack through these facts. *)
Lemma seen_mono s s' x y :
  (visited s y -> visited s' y) -> (visited s y -> y ∈ stack s' -> y ∈ stack s) ->
  low s' x <= low s x -> (visited s y -> idx s' y = idx s y) ->
  seen s x y -> seen s' x y.
Proof. intros Hv Hs Hl Hi [Hy Ho]. split; [auto|]. intros H. rewrite Hi by done. etransitivity; [exact Hl|]. auto. Qed.

Lemma frames_visited s fs st x : frames s fs st -> x ∈ fst <$> fs -> x ∈ st.
Proof. induction 1 as [|g rem seg fs st H IH]; [set_solver|]. set_solver. Qed.

Lemma frames_mono s s' fs st :
  (forall x, visited s x -> visited s' x /\ idx s' x = idx s x) ->
  (forall x, visited s x -> x ∈ stack s' -> x ∈ stack s) ->
  (forall x, x ∈ st -> low s' x = low s x) ->
  (forall x, x ∈ st -> visited s x) ->
  frames s fs st -> frames s' fs st.
Proof.
  intros Hv Hs Hl Hst. induction 1 as [|g rem seg fs st H IH Hseg Hg Hrem Hch]; [constructor|].
  assert (forall x y, x ∈ seg ++ g :: st -> seen s x y -> seen s' x y) as Hseen.
  { intros x y Hx. apply seen_mono; [naive_solver|naive_solver|rewrite Hl by done; lia|naive_solver]. }
  constructor; [apply IH; intros; (apply Hl || apply Hst); set_solver| |..].
  - intros x Hx. destruct (Hseg x Hx) as [H1 H2 H3 H4]. constructor; [..|done].
    + rewrite Hl by set_solver. by rewrite (proj2 (Hv x (Hst x ltac:(set_solver)))).
    + rewrite !Hl by set_solver. done.
    + intros y Hy. apply Hseen; [set_solver|auto].
  - intros y Hy. destruct (Hg y Hy); [by left|right]. apply Hseen; [set_solver|done].
  - done.
  - done.
Qed.

Lemma sorted_ext {A} (R R' : A -> A -> Prop) l :
  (forall x y, x ∈ l -> y ∈ l -> R x y -> R' x y) -> StronglySorted R l -> StronglySorted R' l.
Proof.
  intros H Hs. induction Hs as [|x l Hs IH Hx]; constructor.
  - apply IH. set_solver.
  - rewrite list.Forall_forall in *. intros y Hy. apply H; [left|by right|auto].
Qed.
Lemma sorted_split {A} (R : A -> A -> Prop) l1 x l2 :
  StronglySorted R (l1 ++ x :: l2) -> Forall (fun y => R y x) l1 /\ Forall (R x) l2.
Proof.
  induction l1 as [|y l1 IH]; simpl; intros H; apply StronglySorted_inv in H as [H1 H2].
  - done.
  - destruct (IH H1). split; [|done]. constructor; [|done]. rewrite list.Forall_forall in H2. apply H2. set_solver.
Qed.

(** The functions of a state after each update. *)
Lemma low_lower s g k x : low (lower g k s) x = if decide (x = g) then low s g `min` k else low s x.
Proof.
  unfold low. simpl. case_decide as H; subst.
  - by rewrite lookup_total_insert_eq.
  - by rewrite lookup_total_insert_ne.
Qed.
Lemma low_lower_le s g k x : low (lower g k s) x <= low s x.
Proof. rewrite low_lower. case_decide; subst; lia. Qed.
Lemma low_lower_ne s g k x : x <> g -> low (lower g k s) x = low s x.
Proof. intros H. rewrite low_lower. by case_decide. Qed.

Lemma frames_inv s g rem fs st :
  frames s ((g, rem) :: fs) st ->
  exists seg st', st = seg ++ g :: st' /\ frames s fs st'
    /\ (forall x, x ∈ seg -> below s g x) /\ (forall y, edge g y -> y ∈ rem \/ seen s g y)
    /\ (forall y, y ∈ rem -> edge g y) /\ (forall g' rem' fs', fs = (g', rem') :: fs' -> edge g' g).
Proof. inversion 1; subst. eauto 10. Qed.

Lemma with_sys_frames s sys fs st : (forall x, x ∈ st -> visited s x) -> frames s fs st -> frames (with_sys sys s) fs st.
Proof. intros Hst. by apply frames_mono. Qed.

Lemma drop_neighbour s g nb rem fs st :
  frames s ((g, nb :: rem) :: fs) st -> seen s g nb -> frames s ((g, rem) :: fs) st.
Proof.
  intros (seg & st' & -> & Hf & Hs & Hg & Hr & Hc)%frames_inv Hn. constructor; auto.
  - intros y Hy. destruct (Hg y Hy) as [[-> |?]%elem_of_cons|?]; auto.
  - set_solver.
Qed.

Lemma lower_seen s g k x y : seen s x y -> seen (lower g k s) x y.
Proof. apply seen_mono; auto. apply low_lower_le. Qed.
Lemma lower_below s g k p x : x <> g -> below s p x -> below (lower g k s) p x.
Proof.
  intros Hx [H1 H2 H3 H4]. constructor; auto using lower_seen.
  - rewrite low_lower_ne by done. done.
  - pose proof (low_lower_le s g k p). rewrite (low_lower_ne s g k x) by done. lia.
Qed.
Lemma lower_frames s g k rem fs st :
  NoDup st -> (forall x, x ∈ st -> visited s x) ->
  frames s ((g, rem) :: fs) st -> frames (lower g k s) ((g, rem) :: fs) st.
Proof.
  intros Hnd Hst (seg & st' & -> & Hf & Hs & Hg & Hr & Hc)%frames_inv.
  apply list.NoDup_app in Hnd as (_ & Hnd & [Hnd' _]%list.NoDup_cons). constructor; auto.
  - eapply frames_mono; [..|exact Hf]; auto.
    + intros x Hx. apply low_lower_ne. by intros ->.
    + intros x Hx. apply Hst. set_solver.
  - intros x Hx. apply lower_below; [|by apply Hs]. intros ->. apply (Hnd g Hx). set_solver.
  - intros y Hy. destruct (Hg y Hy); auto using lower_seen.
Qed.

Lemma stack_visited s x : inv s -> x ∈ stack s -> visited s x.
Proof. intros H Hx. apply (i_visited _ H). by left. Qed.
Lemma stack_nodup s : inv s -> NoDup (stack s).
Proof. intros H. pose proof (i_nodup _ H) as Hn. by apply list.NoDup_app in Hn as (? & _). Qed.

(** Lowering the lowlink of the top frame, when something on the stack with the
    new index is reachable. *)
Lemma lower_inv s g k rem fs :
  inv s -> sys_stack s = (g, rem) :: fs ->
  low s g <= k \/ (exists y, y ∈ stack s /\ idx s y = k /\ reach g y) -> inv (lower g k s).
Proof.
  intros H Hsys Hk. constructor; simpl; try apply H.
  - rewrite Hsys. apply lower_frames; [by apply stack_nodup|by intros; apply stack_visited|].
    rewrite <- Hsys. apply H.
  - intros x Hx. destruct (i_low _ H x Hx) as [Hl (y & Hy & Hyl & Hr)]. pose proof (low_lower_le s g k x).
    split; [change (idx (lower g k s) x) with (idx s x); lia|]. rewrite low_lower.
    case_decide as Hd; [subst x|by exists y].
    destruct (decide (low s g <= k)) as [Hle|Hle].
    + exists y. split_and!; [done| |done]. change (idx (lower g k s) y) with (idx s y). lia.
    + destruct Hk as [?|(z & Hz & Hzk & Hrz)]; [lia|]. exists z. split_and!; [done| |done].
      change (idx (lower g k s) z) with (idx s z). lia.
Qed.

(** ** The turns of the loop *)

(** The state with the neighbour taken from the top frame, when the edge was seen. *)
Lemma drop_inv s g nb rem fs :
  inv s -> sys_stack s = (g, nb :: rem) :: fs -> seen s g nb -> inv (with_sys ((g, rem) :: fs) s).
Proof.
  intros H Hsys Hn. constructor; simpl; try apply H.
  apply with_sys_frames; [by intros; apply stack_visited|]. eapply drop_neighbour; [|exact Hn].
  rewrite <- Hsys. apply H.
Qed.

Lemma idx_visit s n x : x <> n -> idx (visit succs n s) x = idx s x.
Proof. intros Hx. unfold idx. simpl. by rewrite lookup_total_insert_ne. Qed.
Lemma low_visit s n x : x <> n -> low (visit succs n s) x = low s x.
Proof. intros Hx. unfold low. simpl. by rewrite lookup_total_insert_ne. Qed.
Lemma idx_visit_eq s n : idx (visit succs n s) n = next_index s.
Proof. unfold idx. simpl. by rewrite lookup_total_insert_eq. Qed.
Lemma low_visit_eq s n : low (visit succs n s) n = next_index s.
Proof. unfold low. simpl. by rewrite lookup_total_insert_eq. Qed.
Lemma visited_visit s n x : visited (visit succs n s) x <-> x = n \/ visited s x.
Proof.
  unfold visited. simpl. destruct (decide (x = n)) as [-> |Hx].
  - rewrite lookup_insert_eq. naive_solver.
  - rewrite lookup_insert_ne by done. naive_solver.
Qed.

(** Visiting a new node: at the start of a search, or along an edge of the top frame. *)
Lemma visit_inv s n fs :
  inv s -> ~ visited s n -> frames (visit succs n s) fs (stack s) ->
  (forall g rem fs', fs = (g, rem) :: fs' -> edge g n) ->
  inv (visit succs n (with_sys fs s)).
Proof.
  intros H Hn Hf Hg.
  assert (forall x, visited s x -> x <> n) as Hne by naive_solver.
  assert (forall x, x ∈ stack s -> x <> n) as Hst by (intros x Hx; by apply Hne, stack_visited).
  constructor; simpl; try apply H.
  - apply (frames_cons _ n (succs n) [] fs (stack s)); [|set_solver|intros y Hy; by left|done|done].
    eapply frames_mono; [..|exact Hf]; try done. intros x Hx. apply visited_visit. right. by apply stack_visited.
  - constructor.
    + eapply sorted_ext; [|apply H]. intros x y Hx Hy. cbn beta.
      change (idx (visit succs n (with_sys fs s)) ?z) with (idx (visit succs n s) z).
      by rewrite !idx_visit by auto.
    + apply list.Forall_forall. intros x Hx.
      change (idx (visit succs n (with_sys fs s)) ?z) with (idx (visit succs n s) z).
      rewrite idx_visit_eq, idx_visit by auto. by apply (i_next _ H), stack_visited.
  - intros x Hx. change (idx (visit succs n (with_sys fs s)) ?z) with (idx (visit succs n s) z).
    destruct (decide (x = n)) as [-> |Hxn]; [rewrite idx_visit_eq; lia|]. rewrite idx_visit by done.
    apply Nat.lt_lt_succ_r, (i_next _ H). by apply visited_visit in Hx as [?|?].
  - rewrite (i_on _ H). set_solver.
  - apply list.NoDup_cons. split; [|apply H]. rewrite elem_of_app. intros Hx. by apply Hn, (i_visited _ H).
  - intros x. change (visited (visit succs n (with_sys fs s)) x) with (visited (visit succs n s) x).
    rewrite visited_visit, (i_visited _ H), elem_of_cons. tauto.
  - intros x. change (idx (visit succs n (with_sys fs s))) with (idx (visit succs n s)).
    change (low (visit succs n (with_sys fs s))) with (low (visit succs n s)).
    rewrite elem_of_cons. intros [-> |Hx].
    + rewrite low_visit_eq, idx_visit_eq. split; [lia|]. exists n. split_and!; [left|apply idx_visit_eq|constructor].
    + rewrite low_visit, idx_visit by auto. destruct (i_low _ H x Hx) as [Hl (y & Hy & Hyl & Hr)]. split; [done|].
      exists y. split_and!; [by right|by rewrite idx_visit by auto|done].
Qed.

Lemma on_stack_spec s x : inv s -> x ∈ on_stack s <-> x ∈ stack s.
Proof. intros H. rewrite (i_on _ H). apply elem_of_list_to_set. Qed.

Lemma follow_inv s g nb rem fs :
  inv s -> sys_stack s = (g, nb :: rem) :: fs -> inv (follow succs g nb (with_sys ((g, rem) :: fs) s)).
Proof.
  intros H Hsys. pose proof (i_frames _ H) as Hf. rewrite Hsys in Hf.
  pose proof (frames_inv _ _ _ _ _ Hf) as (seg & st & Hst & _ & _ & _ & Hrem & _).
  assert (edge g nb) as Hedge by (apply Hrem; left).
  assert (g ∈ stack s) as Hg by (rewrite Hst; set_solver).
  unfold follow. cbn [indices with_sys on_stack]. case_bool_decide as Hv.
  - case_bool_decide as Ho.
    + apply on_stack_spec in Ho; [|done].
      change (lower g (indices s !!! nb) (with_sys ((g, rem) :: fs) s))
        with (with_sys ((g, rem) :: fs) (lower g (idx s nb) s)).
      assert (inv (lower g (idx s nb) s)) as H'.
      { eapply lower_inv; [done|done|]. right. exists nb. split_and!; [done|done|]. by apply rtc_once. }
      eapply (drop_inv _ _ nb); [done|done|]. split; [done|]. intros _. rewrite low_lower, decide_True by done.
      change (idx (lower g (idx s nb) s) nb) with (idx s nb). lia.
    + eapply (drop_inv _ _ nb); [done|done|]. split; [done|]. intros Hn. by rewrite on_stack_spec in Ho.
  - apply visit_inv; [done|done| |].
    + assert (frames (visit succs nb s) ((g, nb :: rem) :: fs) (stack s)) as Hf'.
      { eapply frames_mono; [..|exact Hf].
        - intros x Hx. split; [apply visited_visit; by right|]. apply idx_visit. by intros ->.
        - intros x Hx. simpl. rewrite elem_of_cons. intros [-> |?]; [done|done].
        - intros x Hx%(stack_visited _ _ H). apply low_visit. by intros ->.
        - intros x Hx. by apply stack_visited. }
      eapply drop_neighbour; [exact Hf'|]. split; [apply visited_visit; by left|]. intros _.
      rewrite low_visit by (intros ->; by apply Hv, stack_visited). rewrite idx_visit_eq.
      destruct (i_low _ H g Hg) as [Hl _]. pose proof (i_next _ H g (stack_visited _ _ H Hg)). lia.
    + intros g' rem' fs' [= <- _ _]. done.
Qed.

Lemma pop_until_split g seg st : g ∉ seg -> pop_until g (seg ++ g :: st) = (seg ++ [g], st).
Proof.
  induction seg as [|x seg IH]; simpl; intros Hg.
  - by rewrite String.eqb_refl.
  - destruct (String.eqb_spec x g) as [-> |Hx]; [set_solver|]. rewrite IH by set_solver. done.
Qed.

(** When the lowlink of the top frame is its index, the part of the stack above
    it is closed under edges and strongly connected. *)
Section Root.
Context (s : search) (g : string) (fs : list (string * list string)) (seg st : list string).
Context (H : inv s) (Hsys : sys_stack s = (g, []) :: fs) (Hst : stack s = seg ++ g :: st).
Context (Hf : frames s fs st) (Hseg : forall x, x ∈ seg -> below s g x).
Context (Hedges : forall y, edge g y -> seen s g y) (Hroot : low s g = idx s g).

Lemma root_order : Forall (fun y => idx s g < idx s y) seg /\ Forall (fun y => idx s y < idx s g) st.
Proof. pose proof (i_sorted _ H) as Hs. rewrite Hst in Hs. by apply sorted_split in Hs. Qed.
Lemma root_component y : y ∈ stack s -> idx s g <= idx s y -> y ∈ seg ++ [g].
Proof.
  destruct root_order as [_ Hlt]. rewrite list.Forall_forall in Hlt. rewrite Hst, !elem_of_app, elem_of_cons.
  intros [?|[-> |Hy]] Hle; [by left|right; left|]. apply Hlt in Hy. lia.
Qed.
Lemma root_low x : x ∈ seg ++ [g] -> low s g <= low s x.
Proof. rewrite elem_of_app, list_elem_of_singleton. intros [?| ->]; [by apply Hseg|done]. Qed.
Lemma root_closed x y : x ∈ seg ++ [g] -> edge x y -> y ∈ seg ++ [g] \/ y ∈ concat (sccs s).
Proof.
  intros Hx Hy. assert (seen s x y) as [Hv Ho].
  { rewrite elem_of_app, list_elem_of_singleton in Hx. destruct Hx as [Hx| ->]; [by eapply b_edges; [apply Hseg|]|auto]. }
  apply (i_visited _ H) in Hv as [Hv|Hv]; [left|by right]. apply root_component; [done|].
  specialize (Ho Hv). pose proof (root_low x Hx). lia.
Qed.
Lemma root_up x : x ∈ seg ++ [g] -> reach x g.
Proof.
  remember (idx s x) as n eqn:En. revert x En. induction (lt_wf n) as [n _ IH]; intros x -> Hx.
  rewrite elem_of_app, list_elem_of_singleton in Hx. destruct Hx as [Hx| ->]; [|constructor].
  assert (x ∈ stack s) as Hxs by (rewrite Hst; set_solver).
  destruct (i_low _ H x Hxs) as [_ (y & Hy & Hyl & Hr)]. destruct (Hseg x Hx) as [Hb Hg _ _].
  etransitivity; [exact Hr|]. eapply (IH (idx s y)); [lia|done|]. apply root_component; [done|]. lia.
Qed.
Lemma root_down x : x ∈ seg ++ [g] -> reach g x.
Proof. rewrite elem_of_app, list_elem_of_singleton. intros [?| ->]; [by apply Hseg|constructor]. Qed.

Lemma pop_component_inv : inv (pop_component g (with_sys fs s)).
Proof.
  pose proof (stack_nodup _ H) as Hnd. rewrite Hst in Hnd. apply list.NoDup_app in Hnd as (Hn1 & Hn2 & Hn3).
  assert (g ∉ seg) as Hg by (intros Hx; apply (Hn2 g Hx); left).
  unfold pop_component. cbn [stack with_sys]. rewrite Hst, pop_until_split by done.
  pose proof (i_sorted _ H) as Hs. rewrite Hst in Hs. apply StronglySorted_app in Hs as (_ & _ & Hs).
  apply StronglySorted_inv in Hs as [Hs _].
  constructor; cbn [sys_stack stack on_stack sccs next_index].
  - eapply frames_mono; [..|exact Hf]; try done.
    + intros x _ Hx. cbn [stack] in Hx. rewrite Hst. set_solver.
    + intros x Hx. apply (stack_visited _ _ H). rewrite Hst. set_solver.
  - done.
  - apply H.
  - cbn [with_sys on_stack]. rewrite (i_on _ H), Hst. apply list.NoDup_cons in Hn3 as [Hn3 _].
    apply set_eq. intros x. rewrite elem_of_difference, !elem_of_list_to_set, !elem_of_app, elem_of_cons, list_elem_of_singleton.
    split; [tauto|]. intros Hx. split; [tauto|]. intros [Hx'| ->]; [|done]. apply (Hn2 x Hx'). by right.
  - rewrite concat_app. cbn [concat app]. rewrite app_nil_r. pose proof (i_nodup _ H) as Hall. rewrite Hst in Hall.
    eapply (NoDup_Permutation_proper _ _); [|exact Hall]. rewrite <- app_assoc. cbn [app].
    rewrite (Permutation_app_comm (concat (sccs s)) (seg ++ [g])), (Permutation_app_comm st).
    rewrite <- !app_assoc. cbn [app]. rewrite (Permutation_app_comm (concat _) st). done.
  - intros x. change (visited _ x) with (visited s x). rewrite (i_visited _ H), Hst, concat_app. cbn [concat].
    rewrite app_nil_r, !elem_of_app, elem_of_cons, list_elem_of_singleton. tauto.
  - intros x Hx. change (idx _) with (idx s). change (low _) with (low s).
    assert (x ∈ stack s) as Hxs by (rewrite Hst; set_solver).
    destruct (i_low _ H x Hxs) as [Hl (y & Hy & Hyl & Hr)]. split; [done|]. exists y. split_and!; [|done|done].
    destruct root_order as [_ Hlt]. rewrite list.Forall_forall in Hlt. pose proof (Hlt x Hx).
    rewrite Hst, elem_of_app, elem_of_cons in Hy. destruct root_order as [Hgt _]. rewrite list.Forall_forall in Hgt.
    destruct Hy as [Hy|[-> |Hy]]; [specialize (Hgt y Hy); lia|lia|done].
  - destruct (i_components _ H) as [Hd Hstr Hne]. constructor.
    + intros i c x y Hi Hx Hy. apply lookup_app_Some in Hi as [Hi|[Hi Hc]].
      * destruct (Hd _ _ _ _ Hi Hx Hy) as (j & c' & Hj & Hc' & Hyc). exists j, c'. split_and!; [done| |done].
        by apply lookup_app_l_Some.
      * apply list_lookup_singleton_Some in Hc as [Hi' <-].
        destruct (root_closed x y Hx Hy) as [Hin|Hin].
        -- exists i, (seg ++ [g]). split_and!; [done| |done]. rewrite lookup_app_r by done.
           by rewrite Hi'.
        -- apply elem_of_concat in Hin as (c' & Hc' & Hyc). 
           apply list_elem_of_lookup in Hc' as [j Hj]. exists j, c'.
           pose proof (lookup_lt_Some _ _ _ Hj). cbn [sccs with_sys] in *. split_and!; [lia|by apply lookup_app_l_Some|done].
    + intros c x y Hc Hx Hy. apply elem_of_app in Hc as [Hc|Hc%list_elem_of_singleton]; [by eapply Hstr|]. subst c.
      etransitivity; [by apply root_up|by apply root_down].
    + rewrite elem_of_app, list_elem_of_singleton. intros [?|Hc]; [done|]. by destruct seg.
Qed.
End Root.

Definition propagate_low (g : string) (s : search) : search :=
  match sys_stack s with (parent, _) :: _ => lower parent (lowlinks s !!! g) s | [] => s end.

Lemma finish_root_inv s g fs :
  inv s -> sys_stack s = (g, []) :: fs -> low s g = idx s g ->
  inv (propagate_low g (pop_component g (with_sys fs s))).
Proof.
  intros H Hsys Hroot. pose proof (i_frames _ H) as Hf. rewrite Hsys in Hf.
  apply frames_inv in Hf as (seg & st & Hst & Hf & Hseg & Hg & _ & _).
  assert (forall y, edge g y -> seen s g y) as Hedges by (intros y Hy; destruct (Hg y Hy); [set_solver|done]).
  unfold propagate_low.
  pose proof (pop_component_inv s g fs seg st H Hsys Hst Hf Hseg Hedges Hroot) as Hp.
  assert (sys_stack (pop_component g (with_sys fs s)) = fs) as Es
    by (unfold pop_component; by destruct (pop_until g _)).
  assert (forall x, low (pop_component g (with_sys fs s)) x = low s x) as El
    by (intros x; unfold pop_component; by destruct (pop_until g _)).
  assert (forall x, idx (pop_component g (with_sys fs s)) x = idx s x) as Ei
    by (intros x; unfold pop_component; by destruct (pop_until g _)).
  set (s' := pop_component g (with_sys fs s)) in *. rewrite Es.
  destruct fs as [|[p rem] fs]; [done|]. eapply lower_inv; [done|done|]. left.
  change (lowlinks s' !!! g) with (low s' g). rewrite !El, Hroot.
  apply frames_inv in Hf as (seg' & st' & Hst' & _).
  assert (p ∈ stack s) as Hp' by (rewrite Hst, Hst'; set_solver).
  destruct (i_low _ H p Hp') as [Hl _].
  destruct (root_order s g seg st H Hst) as [_ Hlt]. rewrite list.Forall_forall in Hlt.
  specialize (Hlt p). rewrite Hst' in Hlt. specialize (Hlt ltac:(set_solver)). lia.
Qed.
Lemma finish_inner_inv s g fs :
  inv s -> sys_stack s = (g, []) :: fs -> low s g <> idx s g -> inv (propagate_low g (with_sys fs s)).
Proof.
  intros H Hsys Hroot. pose proof (i_frames _ H) as Hf. rewrite Hsys in Hf.
  apply frames_inv in Hf as (seg & st & Hst & Hf & Hseg & Hg & _ & Hch).
  assert (forall y, edge g y -> seen s g y) as Hedges by (intros y Hy; destruct (Hg y Hy); [set_solver|done]).
  assert (g ∈ stack s) as Hgs by (rewrite Hst; set_solver).
  unfold propagate_low. cbn [sys_stack with_sys].
  destruct (i_low _ H g Hgs) as [Hlg (w & Hw & Hwl & Hrw)].
  destruct fs as [|[p rem] fs].
  { exfalso. inversion Hf; subst. rewrite Hst in Hw. destruct (root_order s g seg [] H Hst) as [Hgt _].
    rewrite list.Forall_forall in Hgt. rewrite elem_of_app, list_elem_of_singleton in Hw.
    destruct Hw as [Hw| ->]; [|lia]. specialize (Hgt w Hw). lia. }
  pose proof (Hch _ _ _ eq_refl) as Hpg. change (lowlinks (with_sys _ s) !!! g) with (low s g).
  pose proof (stack_nodup _ H) as Hnd. rewrite Hst in Hnd.
  apply frames_inv in Hf as (seg' & st' & -> & Hf & Hseg' & Hp & Hrem & Hch').
  assert (forall x, x ∈ seg ++ g :: seg' -> x <> p) as Hne.
  { intros x Hx ->. apply elem_of_app in Hx as [Hx|[-> |Hx]%elem_of_cons].
    - apply list.NoDup_app in Hnd as (_ & Hnd & _). apply (Hnd p Hx). set_solver.
    - apply list.NoDup_app in Hnd as (_ & _ & Hnd). apply list.NoDup_cons in Hnd as [Hnd _]. set_solver.
    - apply list.NoDup_app in Hnd as (_ & _ & Hnd). apply list.NoDup_cons in Hnd as [_ Hnd].
      apply list.NoDup_app in Hnd as (_ & Hnd & _). apply (Hnd p Hx). set_solver. }
  change (lower p (low s g) (with_sys ((p, rem) :: fs) s)) with (with_sys ((p, rem) :: fs) (lower p (low s g) s)).
  assert (forall x, x ∈ stack s -> visited s x) as Hvis by (intros; by apply stack_visited).
  assert (p ∈ stack s) as Hps by (rewrite Hst; set_solver).
  pose proof (low_lower s p (low s g) p) as Hlp. rewrite decide_True in Hlp by done.
  constructor; cbn [with_sys sys_stack stack on_stack sccs next_index lower]; try apply H.
  + apply with_sys_frames; [done|]. rewrite Hst. replace (seg ++ g :: seg' ++ p :: st')
      with ((seg ++ g :: seg') ++ p :: st') by (by rewrite <- app_assoc).
    constructor; [| |intros y Hy; destruct (Hp y Hy); auto using lower_seen|done|done].
    * eapply frames_mono; [..|exact Hf]; auto.
      -- intros x Hx. apply low_lower_ne. intros ->. rewrite app_comm_cons, app_assoc in Hnd.
         apply list.NoDup_app in Hnd as (_ & _ & [Hnd _]%list.NoDup_cons). done.
      -- intros x Hx. apply Hvis. rewrite Hst. set_solver.
    * intros x Hx. pose proof (Hne x Hx) as Hxp.
      apply elem_of_app in Hx as [Hx|[-> |Hx]%elem_of_cons].
      -- destruct (Hseg x Hx) as [B1 B2 B3 B4]. constructor.
         ++ rewrite low_lower_ne by done. done.
         ++ rewrite Hlp, low_lower_ne by done. lia.
         ++ auto using lower_seen.
         ++ eapply rtc_l; [exact Hpg|done].
      -- constructor; [| |auto using lower_seen|by apply rtc_once].
         ++ rewrite low_lower_ne by done. change (idx (lower p (low s g) s) g) with (idx s g). lia.
         ++ rewrite Hlp, low_lower_ne by done. lia.
      -- apply lower_below; auto.
  + intros x Hx. change (idx (with_sys _ (lower _ _ s))) with (idx s).
    change (low (with_sys _ (lower p (low s g) s)) x) with (low (lower p (low s g) s) x).
    destruct (i_low _ H x Hx) as [Hl (y & Hy & Hyl & Hr)]. pose proof (low_lower_le s p (low s g) x).
    split; [lia|]. rewrite low_lower. case_decide as Hd; [subst x|by exists y].
    destruct (decide (low s p <= low s g)).
    * exists y. split_and!; [done|lia|done].
    * exists w. split_and!; [done|lia|]. by eapply rtc_l.
Qed.
Lemma finish_inv s g fs :
  inv s -> sys_stack s = (g, []) :: fs -> inv (finish g (with_sys fs s)).
Proof.
  intros H Hsys. change (finish g (with_sys fs s)) with
    (propagate_low g (if low s g =? idx s g then pop_component g (with_sys fs s) else with_sys fs s)).
  destruct (Nat.eqb_spec (low s g) (idx s g)); [by apply finish_root_inv|by apply finish_inner_inv].
Qed.

(** ** Termination *)

Section Universe.
Context (ns : list string) (Hns : NoDup ns) (Hclosed : forall x y, x ∈ ns -> edge x y -> y ∈ ns).

Definition weight (n : string) : nat := S (length (succs n)).
Definition unvisited (s : search) (l : list string) : list string :=
  List.filter (fun n => bool_decide (indices s !! n = None)) l.
Definition pending (s : search) : nat := sum_list_with weight (unvisited s ns).
Definition measure (s : search) : nat :=
  sum_list_with (fun f => S (length f.2)) (sys_stack s) + pending s.

Lemma pending_same s s' : (forall x, visited s' x <-> visited s x) -> pending s' = pending s.
Proof.
  intros H. unfold pending, unvisited. f_equal. apply List.filter_ext. intros x. apply bool_decide_ext.
  rewrite !eq_None_not_Some. by rewrite (H x).
Qed.
Lemma pending_visit s n : n ∈ ns -> ~ visited s n -> pending s = weight n + pending (visit succs n s).
Proof.
  unfold pending. intros Hn Hv.
  assert (forall l, NoDup l -> sum_list_with weight (unvisited s l)
    = (if bool_decide (n ∈ l) then weight n else 0) + sum_list_with weight (unvisited (visit succs n s) l)) as E.
  { induction l as [|x l IH]; intros Hl; [done|]. apply list.NoDup_cons in Hl as [Hx Hl]. specialize (IH Hl).
    unfold unvisited in *. cbn [List.filter]. cbn [visit indices] in *.
    destruct (decide (x = n)) as [-> |Hxn].
    - rewrite lookup_insert_eq. rewrite (bool_decide_eq_true_2 (indices s !! n = None)) by (by apply eq_None_not_Some).
      rewrite (bool_decide_eq_true_2 (n ∈ n :: l)) by set_solver. rewrite (bool_decide_eq_false_2 (n ∈ l)) in IH by done.
      rewrite bool_decide_eq_false_2 by done. cbn [sum_list_with]. rewrite IH. lia.
    - rewrite lookup_insert_ne by done. rewrite (bool_decide_ext (n ∈ x :: l) (n ∈ l)) by set_solver.
      destruct (bool_decide (indices s !! x = None)); cbn [sum_list_with]; lia. }
  rewrite E by done. by rewrite bool_decide_eq_true_2.
Qed.

Definition inside (s : search) : Prop := forall x, visited s x -> x ∈ ns.

Lemma frame_edge s g nb rem fs : inv s -> sys_stack s = (g, nb :: rem) :: fs -> g ∈ stack s /\ edge g nb.
Proof.
  intros H Hsys. pose proof (i_frames _ H) as Hf. rewrite Hsys in Hf.
  apply frames_inv in Hf as (seg & st & Hst & _ & _ & _ & Hr & _). split; [rewrite Hst; set_solver|apply Hr; left].
Qed.
Lemma visited_finish s g fs x : visited (finish g (with_sys fs s)) x <-> visited s x.
Proof.
  unfold finish, pop_component. cbn [stack with_sys]. destruct (pop_until g (stack s)).
  destruct (_ =? _); cbn [sys_stack with_sys]; destruct fs as [|[] ?]; done.
Qed.

Lemma run_total fuel s :
  inv s -> inside s -> measure s <= fuel ->
  exists s', run succs fuel s = Ok s' /\ inv s' /\ inside s' /\ sys_stack s' = []
    /\ forall x, visited s x -> visited s' x.
Proof.
  revert s. induction fuel as [|fuel IH]; intros s H Hin Hm; cbn [run];
    destruct (sys_stack s) as [|[g rem] fs] eqn:Hsys; try by (exists s).
  { unfold measure in Hm. rewrite Hsys in Hm. simpl in Hm. lia. }
  unfold measure in Hm. rewrite Hsys in Hm. destruct rem as [|nb rem]; cbn [sum_list_with length snd] in Hm.
  - edestruct (IH (finish g (with_sys fs s))) as (s' & Hr & H1 & H2 & H3 & H4).
    + by apply finish_inv.
    + intros x Hx. apply Hin. by apply visited_finish in Hx.
    + unfold measure. rewrite (pending_same s) by apply visited_finish.
      assert (sys_stack (finish g (with_sys fs s)) = fs) as ->; [|lia].
      unfold finish, pop_component. cbn [stack with_sys]. destruct (pop_until g (stack s)).
      destruct (_ =? _); cbn [sys_stack with_sys]; by destruct fs as [|[] ?].
    + exists s'. split_and!; auto. intros x Hx. apply H4. by apply visited_finish.
  - pose proof (frame_edge _ _ _ _ _ H Hsys) as [Hg Hedge]. pose proof (follow_inv _ _ _ _ _ H Hsys) as Hi.
    assert (nb ∈ ns) as Hnb by (apply (Hclosed g); [by apply Hin, stack_visited|done]).
    revert Hi. unfold follow. cbn [indices with_sys on_stack]. case_bool_decide as Hv.
    + assert (forall s1, visited s1 = visited s -> sys_stack s1 = (g, rem) :: fs -> inv s1 ->
        exists s', run succs fuel s1 = Ok s' /\ inv s' /\ inside s' /\ sys_stack s' = []
          /\ forall x, visited s x -> visited s' x) as Hsame.
      { intros s1 Ev Es Hi. rewrite <- Ev. apply IH; [done|unfold inside; by rewrite Ev|].
        unfold measure. rewrite Es, (pending_same s) by (by rewrite Ev). cbn [sum_list_with length snd]. lia. }
      case_bool_decide; intros Hi; by apply Hsame.
    + intros Hi. edestruct IH as (s' & Hr & H1 & H2 & H3 & H4); [exact Hi| | |].
      * intros x Hx. apply visited_visit in Hx as [-> |Hx]; [done|by apply Hin].
      * unfold measure. pose proof (pending_visit s nb Hnb Hv) as Hp. unfold weight in Hp.
        cbn [sys_stack visit with_sys sum_list_with length snd]. 
        change (pending (visit succs nb (with_sys ((g, rem) :: fs) s))) with (pending (visit succs nb s)). lia.
      * exists s'. split_and!; auto. intros x Hx. apply H4, visited_visit. by right.
Qed.

Lemma idle_stack s : inv s -> sys_stack s = [] -> stack s = [].
Proof. intros H Hs. pose proof (i_frames _ H) as Hf. rewrite Hs in Hf. by inversion Hf. Qed.

Lemma start_inv s n : inv s -> sys_stack s = [] -> ~ visited s n -> inv (visit succs n s).
Proof.
  intros H Hs Hv. replace (visit succs n s) with (visit succs n (with_sys [] s))
    by (destruct s; simpl in Hs; by subst). apply visit_inv; [done|done| |done].
  rewrite (idle_stack s H Hs). constructor.
Qed.
Lemma pending_fuel s : pending s <= fuel_for succs ns.
Proof.
  unfold pending, fuel_for, unvisited. clear. induction ns as [|x l IH]; [done|]. cbn [List.filter sum_list_with].
  destruct (bool_decide _); cbn [sum_list_with]; unfold weight in *; lia.
Qed.

Lemma search_total starts s :
  inv s -> inside s -> sys_stack s = [] -> (forall x, x ∈ starts -> x ∈ ns) ->
  exists s', search_from succs (fuel_for succs ns) starts s = Ok s' /\ inv s' /\ inside s' /\ sys_stack s' = []
    /\ forall x, visited s x \/ x ∈ starts -> visited s' x.
Proof.
  revert s. induction starts as [|n starts IH]; intros s H Hin Hs Hst; cbn [search_from].
  { exists s. split_and!; auto. intros x [?|?]; [done|set_solver]. }
  case_bool_decide as Hv.
  - destruct (IH s H Hin Hs) as (s' & Hr & H1 & H2 & H3 & H4); [set_solver|]. exists s'. split_and!; auto.
    intros x [?|[-> |?]%elem_of_cons]; auto.
  - destruct (run_total (fuel_for succs ns) (visit succs n s)) as (s1 & Hr & H1 & H2 & H3 & H4).
    + by apply start_inv.
    + intros x Hx. apply visited_visit in Hx as [-> |Hx]; [apply Hst; left|by apply Hin].
    + pose proof (pending_visit s n (Hst n ltac:(left)) Hv) as Hp. unfold measure. cbn [visit sys_stack]. rewrite Hs.
      cbn [sum_list_with length snd]. pose proof (pending_fuel s). unfold weight in Hp.
      change (pending (visit succs n s)) with (pending (visit succs n s)) in *. lia.
    + rewrite Hr. cbn [mbind result_bind]. destruct (IH s1 H1 H2 H3) as (s' & Hr' & H1' & H2' & H3' & H4'); [set_solver|].
      exists s'. split_and!; auto. intros x [?|[-> |?]%elem_of_cons]; auto.
      * apply H4'. left. apply H4, visited_visit. by right.
      * apply H4'. left. apply H4, visited_visit. by left.
Qed.

Lemma initial_inv : inv initial_search.
Proof.
  assert (forall x, ~ visited initial_search x) as Hno
    by (intros x [? Hx]; simpl in Hx; by rewrite lookup_empty in Hx).
  constructor; simpl.
  - constructor.
  - constructor.
  - intros x Hx. by apply Hno in Hx.
  - done.
  - constructor.
  - intros x. split; [intros Hx; by apply Hno in Hx|set_solver].
  - set_solver.
  - constructor; [done|set_solver..].
Qed.

(** The components partition the nodes, edges lead to the same or an earlier one,
    and the nodes of one reach each other. *)
Lemma tarjan_correct :
  exists cs, tarjan_sccs succs ns = Ok cs /\ components cs /\ NoDup (concat cs)
    /\ forall x, x ∈ concat cs <-> x ∈ ns.
Proof.
  destruct (search_total ns initial_search initial_inv) as (s & Hr & H & Hin & Hs & Hall); [|done|done|].
  { intros x [? Hx]. simpl in Hx. by rewrite lookup_empty in Hx. }
  exists (sccs s). unfold tarjan_sccs. rewrite Hr. split_and!; [done|apply H|..].
  - pose proof (i_nodup _ H) as Hn. by rewrite (idle_stack _ H Hs) in Hn.
  - intros x. pose proof (i_visited _ H x) as Hv. rewrite (idle_stack _ H Hs) in Hv. split.
    + intros Hx. apply Hin, Hv. by right.
    + intros Hx. destruct (proj1 Hv) as [?|?]; [apply Hall; by right|set_solver|done].
Qed.
End Universe.
End Tarjan.
End PcasTarjan.

(** * PCAS policies: what stratification establishes

    [stratify] accepts exactly the safe programs without recursion through
    negation, and its strata are in evaluation order. *)
Import PcasAst PcasStratify PcasTarjan.
Open Scope string_scope.
Open Scope list_scope.
Open Scope nat_scope.

Module PcasStratifySpec.

(** ** The dependency graph *)

(** [p] is defined by a rule that uses [q] positively, or negated. *)
Definition uses_pos (p : Program) (x y : string) : Prop :=
  exists r, r ∈ rules p /\ (predicate (head r) = x /\ exists a, a ∈ body_positive_atoms r /\ predicate a = y).
Definition uses_neg (p : Program) (x y : string) : Prop :=
  exists r, r ∈ rules p /\ (predicate (head r) = x /\ exists a, a ∈ body_negated_atoms r /\ predicate a = y).
Definition uses (p : Program) (x y : string) : Prop := uses_pos p x y \/ uses_neg p x y.
Definition mentioned (p : Program) (x : string) : Prop :=
  exists r, r ∈ rules p
    /\ (predicate (head r) = x \/ (exists a, a ∈ body_positive_atoms r /\ predicate a = x)
        \/ exists a, a ∈ body_negated_atoms r /\ predicate a = x).

Lemma ex_snoc {A} (P : A -> Prop) l x : (exists y, y ∈ l ++ [x] /\ P y) <-> (exists y, y ∈ l /\ P y) \/ P x.
Proof. setoid_rewrite elem_of_app. setoid_rewrite list_elem_of_singleton. naive_solver. Qed.

Lemma edges_setdefault q m x : edges (setdefault q m) x = edges m x.
Proof.
  unfold edges, setdefault. destruct (m !! q) eqn:E; [done|]. destruct (decide (x = q)) as [-> |Hx].
  - by rewrite lookup_insert_eq, E.
  - by rewrite lookup_insert_ne.
Qed.
Lemma edges_add p q m x y : y ∈ edges (add_edge p q m) x <-> y ∈ edges m x \/ (x = p /\ y = q).
Proof.
  unfold edges, add_edge. destruct (decide (x = p)) as [-> |Hx].
  - rewrite lookup_insert_eq. simpl. set_solver.
  - rewrite lookup_insert_ne by done. naive_solver.
Qed.

Lemma fold_positive p g l :
  let g' := foldl (add_positive p) g l in
  (forall x, x ∈ nodes g' <-> x ∈ nodes g \/ exists a, a ∈ l /\ predicate a = x)
  /\ (forall x y, y ∈ edges (pos_edges g') x <-> y ∈ edges (pos_edges g) x \/ (x = p /\ exists a, a ∈ l /\ predicate a = y))
  /\ (forall x y, y ∈ edges (neg_edges g') x <-> y ∈ edges (neg_edges g) x).
Proof.
  revert g. induction l as [|a l IH]; intros g; simpl; [set_solver|].
  destruct (IH (add_positive p g a)) as (H1 & H2 & H3). split_and!.
  - intros x. rewrite H1. cbn [add_positive nodes]. set_solver.
  - intros x y. rewrite H2. cbn [add_positive pos_edges]. rewrite edges_setdefault, edges_add. set_solver.
  - intros x y. rewrite H3. cbn [add_positive neg_edges]. by rewrite edges_setdefault.
Qed.
Lemma fold_negative p g l :
  let g' := foldl (add_negative p) g l in
  (forall x, x ∈ nodes g' <-> x ∈ nodes g \/ exists a, a ∈ l /\ predicate a = x)
  /\ (forall x y, y ∈ edges (neg_edges g') x <-> y ∈ edges (neg_edges g) x \/ (x = p /\ exists a, a ∈ l /\ predicate a = y))
  /\ (forall x y, y ∈ edges (pos_edges g') x <-> y ∈ edges (pos_edges g) x).
Proof.
  revert g. induction l as [|a l IH]; intros g; simpl; [set_solver|].
  destruct (IH (add_negative p g a)) as (H1 & H2 & H3). split_and!.
  - intros x. rewrite H1. cbn [add_negative nodes]. set_solver.
  - intros x y. rewrite H2. cbn [add_negative neg_edges]. rewrite edges_setdefault, edges_add. set_solver.
  - intros x y. rewrite H3. cbn [add_negative pos_edges]. by rewrite edges_setdefault.
Qed.

Lemma graph_spec p :
  let g := build_dependency_graph p in
  (forall x, x ∈ nodes g <-> mentioned p x)
  /\ (forall x y, y ∈ edges (pos_edges g) x <-> uses_pos p x y)
  /\ (forall x y, y ∈ edges (neg_edges g) x <-> uses_neg p x y).
Proof.
  destruct p as [rs]. unfold build_dependency_graph. cbn [rules]. induction rs as [|r rs IH] using rev_ind.
  - split_and!; intros; unfold mentioned, uses_pos, uses_neg, edges; simpl; rewrite ?lookup_empty; simpl;
      split; (set_solver || intros; naive_solver (set_solver)).
  - rewrite foldl_app. cbn [foldl]. set (g := foldl add_rule _ rs) in *. destruct IH as (I1 & I2 & I3).
    unfold add_rule. set (q := predicate (head r)).
    set (g0 := {| nodes := nodes g ∪ {[q]}; pos_edges := setdefault q (pos_edges g); neg_edges := setdefault q (neg_edges g) |}).
    destruct (fold_positive q g0 (body_positive_atoms r)) as (P1 & P2 & P3).
    set (g1 := foldl (add_positive q) g0 _) in *.
    destruct (fold_negative q g1 (body_negated_atoms r)) as (N1 & N2 & N3). split_and!.
    + intros x. rewrite N1, P1. cbn [nodes g0]. rewrite elem_of_union, I1, elem_of_singleton. unfold mentioned.
      cbn [rules]. rewrite ex_snoc. fold q. intuition congruence.
    + intros x y. rewrite N3, P2. cbn [pos_edges g0]. rewrite edges_setdefault, I2. unfold uses_pos.
      cbn [rules]. rewrite ex_snoc. fold q. intuition congruence.
    + intros x y. rewrite N2, P3. cbn [neg_edges g0]. rewrite edges_setdefault, I3. unfold uses_neg.
      cbn [rules]. rewrite ex_snoc. fold q. intuition congruence.
Qed.

(** ** The strata *)

Lemma insert_sorted_perm x l : RouterFusion.insert_sorted x l ≡ₚ x :: l.
Proof. induction l as [|y l IH]; simpl; [done|]. case_match; [|done]. rewrite IH. constructor. Qed.
Lemma sorted_perm l : RouterFusion.sorted l ≡ₚ l.
Proof. unfold RouterFusion.sorted. induction l as [|x l IH]; simpl; [done|]. by rewrite insert_sorted_perm, IH. Qed.

(** Strata in evaluation order: each holds the rules of its predicates; what a rule
    uses is in the same or an earlier stratum, what it negates in an earlier one. *)
Record stratification (p : Program) (strata : list Stratum) : Prop := {
  st_rules : forall s r, s ∈ strata -> r ∈ s_rules s <-> r ∈ rules p /\ predicate (head r) ∈ s_predicates s;
  st_cover : forall x, mentioned p x -> exists i s, strata !! i = Some s /\ x ∈ s_predicates s;
  st_disjoint : forall i j s s' x,
    strata !! i = Some s -> strata !! j = Some s' -> x ∈ s_predicates s -> x ∈ s_predicates s' -> i = j;
  st_pos : forall i s x y, strata !! i = Some s -> x ∈ s_predicates s -> uses_pos p x y ->
    exists j s', j <= i /\ strata !! j = Some s' /\ y ∈ s_predicates s';
  st_neg : forall i s x y, strata !! i = Some s -> x ∈ s_predicates s -> uses_neg p x y ->
    exists j s', j < i /\ strata !! j = Some s' /\ y ∈ s_predicates s'
}.

Lemma concat_disjoint {A} (cs : list (list A)) i j c c' x :
  NoDup (concat cs) -> cs !! i = Some c -> cs !! j = Some c' -> x ∈ c -> x ∈ c' -> i = j.
Proof.
  revert i j. induction cs as [|d cs IH]; intros i j Hn Hi Hj Hx Hx'; [done|].
  cbn [concat] in Hn. apply list.NoDup_app in Hn as (_ & Hd & Hn).
  destruct i as [|i], j as [|j]; simpl in Hi, Hj; simplify_eq; try done.
  - exfalso. apply (Hd x Hx), elem_of_concat. exists c'. split; [by eapply list_elem_of_lookup_2|done].
  - exfalso. apply (Hd x Hx'), elem_of_concat. exists c. split; [by eapply list_elem_of_lookup_2|done].
  - f_equal. by eapply IH.
Qed.

Lemma elem_of_rules_for p q r : r ∈ rules_for p q <-> r ∈ rules p /\ predicate (head r) = q.
Proof. unfold rules_for. by rewrite list_elem_of_In, filter_In, String.eqb_eq, <- list_elem_of_In. Qed.

Section Stratify.
Context (set_list : gset string -> list string) (set_list_spec : forall X, set_list X ≡ₚ elements X).

Section Program.
Context (p : Program).
Abbreviation g := (build_dependency_graph p).
Abbreviation succs := (fun n => rev (set_list (edges (pos_edges g) n ∪ edges (neg_edges g) n))).
Abbreviation ns := (RouterFusion.sorted (elements (nodes g))).

Lemma succs_spec x y : y ∈ succs x <-> uses p x y.
Proof.
  rewrite list_elem_of_In, <- in_rev, <- list_elem_of_In, set_list_spec, elem_of_elements, elem_of_union.
  destruct (graph_spec p) as (_ & Hp & Hn). by rewrite Hp, Hn.
Qed.
Lemma ns_spec x : x ∈ ns <-> mentioned p x.
Proof. rewrite sorted_perm, elem_of_elements. apply (graph_spec p). Qed.

Lemma uses_mentioned x y : uses p x y -> mentioned p x /\ mentioned p y.
Proof. unfold uses, uses_pos, uses_neg, mentioned. intros [(r & ? & ? & ?)|(r & ? & ? & ?)]; split; eauto 10. Qed.

(** Along the dependencies the index of the component does not grow. *)
Lemma reach_down cs x y i c :
  components succs cs -> rtc (uses p) x y -> cs !! i = Some c -> x ∈ c ->
  exists j c', j <= i /\ cs !! j = Some c' /\ y ∈ c'.
Proof.
  intros Hc Hr. revert i c. induction Hr as [x|x z y Hxz _ IH]; intros i c Hi Hx; [eauto|].
  destruct (c_down _ _ Hc i c x z Hi Hx) as (j & c' & Hj & Hc' & Hz); [by apply succs_spec|].
  destruct (IH j c' Hc' Hz) as (k & c'' & Hk & ?). exists k, c''. split; [lia|done].
Qed.

Lemma components_found :
  exists cs, tarjan_sccs succs ns = Ok cs /\ components succs cs /\ NoDup (concat cs)
    /\ forall x, x ∈ concat cs <-> mentioned p x.
Proof.
  destruct (tarjan_correct succs ns) as (cs & H1 & H2 & H3 & H4).
  - rewrite sorted_perm. apply NoDup_elements.
  - intros x y _ Hy. apply ns_spec. apply succs_spec in Hy. by apply (uses_mentioned x y).
  - exists cs. split_and!; auto. intros x. by rewrite H4, ns_spec.
Qed.

(** A component with a negative edge inside is a cycle through negation. *)
Lemma negative_cycle_spec cs :
  components succs cs -> NoDup (concat cs) -> (forall x, x ∈ concat cs <-> mentioned p x) ->
  existsb (negative_cycle g) cs = true <-> exists x y, uses_neg p x y /\ rtc (uses p) y x.
Proof.
  intros Hc Hn Hall. destruct (graph_spec p) as (_ & _ & Hneg). split.
  - intros (c & Hin & (u & Hu & (v & Hv & Huv)%existsb_exists)%existsb_exists)%existsb_exists.
    apply bool_decide_eq_true, Hneg in Huv. exists u, v. split; [done|].
    apply list_elem_of_In in Hin, Hu, Hv.
    eapply rtc_subrel; [|exact (c_strong _ _ Hc c v u Hin Hv Hu)]. intros a b. apply succs_spec.
  - intros (x & y & Hxy & Hyx). assert (x ∈ concat cs) as Hx by (apply Hall; destruct (uses_mentioned x y); [by right|done]).
    apply elem_of_concat in Hx as (c & [i Hi]%list_elem_of_lookup & Hxc).
    destruct (c_down _ _ Hc i c x y Hi Hxc) as (j & c' & Hj & Hc' & Hy); [apply succs_spec; by right|].
    destruct (reach_down cs y x j c' Hc Hyx Hc' Hy) as (k & c'' & Hk & Hc'' & Hx').
    pose proof (concat_disjoint cs i k c c'' x Hn Hi Hc'' Hxc Hx') as ->. assert (j = k) as -> by lia.
    simplify_eq. apply existsb_exists. exists c. split; [apply list_elem_of_In; by eapply list_elem_of_lookup_2|].
    apply existsb_exists. exists x. split; [by apply list_elem_of_In|]. apply existsb_exists.
    exists y. split; [by apply list_elem_of_In|]. by apply bool_decide_eq_true, Hneg.
Qed.

Lemma strata_ok cs :
  components succs cs -> NoDup (concat cs) -> (forall x, x ∈ concat cs <-> mentioned p x) ->
  existsb (negative_cycle g) cs = false -> stratification p (stratum_of p <$> cs).
Proof.
  intros Hc Hn Hall Hneg.
  assert (forall i s, (stratum_of p <$> cs) !! i = Some s -> exists c, cs !! i = Some c /\ s = stratum_of p c) as Hlk.
  { intros i s. rewrite list_lookup_fmap, fmap_Some. done. }
  assert (forall i c x y, cs !! i = Some c -> x ∈ c -> uses p x y ->
            exists j s', j <= i /\ (stratum_of p <$> cs) !! j = Some s' /\ y ∈ s_predicates s') as Huse.
  { intros i c x y Hi Hx Hxy. destruct (c_down _ _ Hc i c x y Hi Hx) as (j & c' & Hj & Hc' & Hy); [by apply succs_spec|].
    exists j, (stratum_of p c'). rewrite list_lookup_fmap, Hc'. done. }
  constructor.
  - intros s r (c & -> & Hin)%list_elem_of_fmap. cbn [stratum_of s_rules s_predicates].
    rewrite list_elem_of_bind. setoid_rewrite elem_of_rules_for. naive_solver.
  - intros x Hx. apply Hall, elem_of_concat in Hx as (c & [i Hi]%list_elem_of_lookup & Hxc).
    exists i, (stratum_of p c). by rewrite list_lookup_fmap, Hi.
  - intros i j s s' x (c & Hi & ->)%Hlk (c' & Hj & ->)%Hlk. by eapply concat_disjoint.
  - intros i s x y (c & Hi & ->)%Hlk Hx Hxy. eapply Huse; [exact Hi|exact Hx|by left].
  - intros i s x y (c & Hi & ->)%Hlk Hx Hxy. destruct (Huse i c x y Hi Hx (or_intror Hxy)) as (j & s' & Hj & Hs' & Hy).
    exists j, s'. split_and!; [|done|done]. destruct (decide (j = i)) as [-> |]; [exfalso|lia].
    apply Hlk in Hs' as (c' & Hi' & ->). simplify_eq.
    assert (existsb (negative_cycle g) cs = true) as Ht; [|congruence].
    apply existsb_exists. exists c. split; [apply list_elem_of_In; by eapply list_elem_of_lookup_2|].
    apply existsb_exists. exists x. split; [by apply list_elem_of_In|]. apply existsb_exists.
    exists y. split; [by apply list_elem_of_In|]. apply bool_decide_eq_true. by apply graph_spec.
Qed.
End Program.

(** Recursion through negation. *)
Definition negative_recursion (p : Program) : Prop := exists x y, uses_neg p x y /\ rtc (uses p) y x.

Lemma safe_rules l : Forall (fun r => safe_rule r = true) l <-> forallb safe_rule l = true.
Proof. by rewrite forallb_forall, list.Forall_forall; setoid_rewrite list_elem_of_In. Qed.
Lemma disambiguate_error p hs e : disambiguate_program p hs = Err e -> e = StratificationError.
Proof.
  unfold disambiguate_program. destruct (map_result _ _) eqn:E; simpl; [done|]. intros [= <-].
  apply map_result_Err in E as (r & _ & E). unfold disambiguate_rule in E.
  destruct (map_result _ (body r)) eqn:Eb; simpl in E; [done|]. injection E as ->.
  apply map_result_Err in Eb as (b & _ & Eb). destruct b; simpl in Eb; repeat case_bool_decide; congruence.
Qed.

Lemma stratify_Ok p hs p' strata :
  stratify set_list p hs = Ok (p', strata) ->
  disambiguate_program p hs = Ok p' /\ Forall (fun r => safe_rule r = true) (rules p') /\ stratification p' strata.
Proof.
  unfold stratify. intros H. apply result_bind_Ok in H as (q & Hd & H). rewrite Hd.
  apply result_bind_Ok in H as ([] & Hs & H). unfold check_safety in Hs.
  destruct (forallb safe_rule (rules q)) eqn:Esafe; [|done]. apply safe_rules in Esafe.
  destruct (components_found q) as (cs & Ht & Hc & Hn & Hall). rewrite Ht in H. simpl in H.
  unfold check_no_negative_cycles in H. destruct (existsb _ cs) eqn:En; [done|]. simpl in H. injection H as <- <-.
  split_and!; [done|done|by apply strata_ok].
Qed.

Lemma stratify_safe p hs p' :
  disambiguate_program p hs = Ok p' -> Forall (fun r => safe_rule r = true) (rules p') ->
  (negative_recursion p' /\ stratify set_list p hs = Err StratificationError)
  \/ (~ negative_recursion p' /\ exists strata, stratify set_list p hs = Ok (p', strata)).
Proof.
  intros Hd Hs. rewrite safe_rules in Hs. unfold stratify. rewrite Hd. simpl. unfold check_safety. rewrite Hs. simpl.
  destruct (components_found p') as (cs & Ht & Hc & Hn & Hall). rewrite Ht. simpl.
  unfold check_no_negative_cycles. pose proof (negative_cycle_spec p' cs Hc Hn Hall) as Hneg.
  fold (negative_recursion p') in Hneg. destruct (existsb _ cs); simpl.
  - left. split; [by apply Hneg|done].
  - right. split; [|eauto]. rewrite <- Hneg. done.
Qed.

(** Levels that no use raises and every negation lowers rule out such recursion. *)
Lemma levels_no_recursion (level : string -> nat) p :
  (forall x y, uses_pos p x y -> level y <= level x) -> (forall x y, uses_neg p x y -> level y < level x) ->
  ~ negative_recursion p.
Proof.
  intros Hp Hn (x & y & Hxy%Hn & Hyx). assert (level x <= level y); [|lia]. clear Hxy.
  induction Hyx as [x|a b c Hab _ IH]; [done|]. destruct Hab as [?%Hp|?%Hn]; lia.
Qed.

(** ** Acceptance, read off the policy as it is written

    Independently of the lifted program and of the order of the checks: the atoms of a
    helper's name are helper calls, the other positive atoms bind variables. *)
Lemma Forall2_elem_l {A B} (R : A -> B -> Prop) l k x : Forall2 R l k -> x ∈ l -> exists y, y ∈ k /\ R x y.
Proof. induction 1 as [|a b l k Hab H IH]; [by intros ?%not_elem_of_nil|]. set_solver. Qed.
Lemma Forall2_elem_r {A B} (R : A -> B -> Prop) l k y : Forall2 R l k -> y ∈ k -> exists x, x ∈ l /\ R x y.
Proof. induction 1 as [|a b l k Hab H IH]; [by intros ?%not_elem_of_nil|]. set_solver. Qed.
Section Accepted.
Context (hs : list string).

Definition reads (r : Rule) (a : Atom) : Prop := PositiveAtom a ∈ body r /\ (predicate a ∉ hs).
Definition negates (r : Rule) (a : Atom) : Prop := NegatedAtom a ∈ body r.
Definition calls (r : Rule) (ts : list Term) : Prop :=
  (exists a, PositiveAtom a ∈ body r /\ predicate a ∈ hs /\ args a = ts) \/ exists n, HelperCall n ts ∈ body r.
(** Every variable occurs in a positive atom. *)
Definition covered (r : Rule) (ts : list Term) : Prop :=
  forall x, Var x ∈ ts -> exists a, reads r a /\ Var x ∈ args a.
Definition range_restricted (r : Rule) : Prop :=
  covered r (args (head r)) /\ (forall a, negates r a -> covered r (args a)) /\ (forall ts, calls r ts -> covered r ts).
(** No anonymous variable (one whose name starts with an underscore) in the head, under a
    negation or in a helper call. *)
Definition all_named (ts : list Term) : Prop := forall x s, Var x ∈ ts -> x <> String "_" s.
Definition rule_named (r : Rule) : Prop :=
  all_named (args (head r)) /\ (forall a, negates r a -> all_named (args a)) /\ (forall ts, calls r ts -> all_named ts).

Definition depends_neg (p : Program) (x y : string) : Prop :=
  exists r a, r ∈ rules p /\ predicate (head r) = x /\ negates r a /\ predicate a = y.
Definition depends (p : Program) (x y : string) : Prop :=
  depends_neg p x y \/ exists r a, r ∈ rules p /\ predicate (head r) = x /\ reads r a /\ predicate a = y.
(** No negated helper, every rule range restricted, no cycle with a negative edge. *)
Definition acceptable (p : Program) : Prop :=
  (forall r a, r ∈ rules p -> negates r a -> predicate a ∉ hs)
  /\ (forall r, r ∈ rules p -> range_restricted r)
  /\ ~ exists x y, depends_neg p x y /\ rtc (depends p) y x.

(** What lifting the helper calls makes of a rule. *)
Record lifted (r r' : Rule) : Prop := {
  lift_head : head r' = head r;
  lift_pos : forall a, a ∈ body_positive_atoms r' <-> reads r a;
  lift_neg : forall a, a ∈ body_negated_atoms r' <-> negates r a;
  lift_call : forall ts, (exists n, (n, ts) ∈ body_helpers r') <-> calls r ts;
  lift_fine : forall a, negates r a -> predicate a ∉ hs
}.
Lemma lift_rule r r' : disambiguate_rule hs r = Ok r' -> lifted r r'.
Proof.
  unfold disambiguate_rule. intros (b & Hb & H)%result_bind_Ok. injection H as <-. apply map_result_Ok in Hb.
  assert (Hin : forall y, y ∈ b <-> exists x, x ∈ body r /\ disambiguate_element hs x = Ok y).
  { intros y. split.
    - intros Hy. by apply (Forall2_elem_r _ _ _ _ Hb).
    - intros (x & Hx & He). destruct (Forall2_elem_l _ _ _ _ Hb Hx) as (y' & Hy' & He'). congruence. }
  split; cbn [head body]; [done|..].
  - intros a. rewrite elem_of_positive. cbn [body]. rewrite Hin. unfold reads. split.
    + intros ([a'|a'|n ts] & Hx & He); simpl in He; [|by case_bool_decide|done]. case_bool_decide; [done|]. by injection He as ->.
    + intros [Ha Hn]. exists (PositiveAtom a). split; [done|]. simpl. by rewrite bool_decide_eq_false_2.
  - intros a. rewrite elem_of_negated. cbn [body]. rewrite Hin. unfold negates. split.
    + intros ([a'|a'|n ts] & Hx & He); simpl in He; [by case_bool_decide| |done]. case_bool_decide; [done|]. by injection He as ->.
    + intros Ha. destruct (Forall2_elem_l _ _ _ _ Hb Ha) as (y & Hy & He). exists (NegatedAtom a). split; [done|]. rewrite He.
      simpl in He. case_bool_decide; congruence.
  - intros ts. unfold calls. split.
    + intros (n & Hn). rewrite elem_of_helpers in Hn. cbn [body fst snd] in Hn. apply Hin in Hn as ([a'|a'|n' ts'] & Hx & He); simpl in He.
      * case_bool_decide; [|done]. injection He as _ <-. left. by exists a'.
      * by case_bool_decide.
      * injection He as -> ->. right. by exists n.
    + intros [(a & Ha & Hp & <-)|(n & Hn)].
      * exists (predicate a). rewrite elem_of_helpers. cbn [body fst snd]. apply Hin. exists (PositiveAtom a). split; [done|].
        simpl. by rewrite bool_decide_eq_true_2.
      * exists n. rewrite elem_of_helpers. cbn [body fst snd]. apply Hin. by exists (HelperCall n ts).
  - intros a Ha Hp. destruct (Forall2_elem_l _ _ _ _ Hb Ha) as (y & _ & He). simpl in He. by rewrite bool_decide_eq_true_2 in He.
Qed.
Lemma lift_program p p' : disambiguate_program p hs = Ok p' -> Forall2 lifted (rules p) (rules p').
Proof.
  unfold disambiguate_program. intros (rs & Hr & H)%result_bind_Ok. injection H as <-. apply map_result_Ok in Hr. cbn [rules].
  eapply Forall2_impl; [|exact Hr]. intros r r'. apply lift_rule.
Qed.
Lemma lift_fails p e : disambiguate_program p hs = Err e -> exists r a, r ∈ rules p /\ negates r a /\ predicate a ∈ hs.
Proof.
  unfold disambiguate_program. destruct (map_result _ _) as [|x] eqn:E; simpl; [done|]. intros _.
  apply map_result_Err in E as (r & Hr & E). unfold disambiguate_rule in E.
  destruct (map_result _ (body r)) eqn:Eb; simpl in E; [done|].
  apply map_result_Err in Eb as (b & Hb & Eb). destruct b as [a|a|]; simpl in Eb; [by case_bool_decide| |done].
  case_bool_decide as Ha; [|done]. by exists r, a.
Qed.

Lemma named_spec x : is_anonymous x = false <-> forall s, x <> String "_" s.
Proof.
  unfold is_anonymous, starts_with_char. destruct x as [|c x]; [naive_solver|].
  destruct (Ascii.eqb_spec "_" c) as [<-|Hne]; naive_solver.
Qed.
Lemma elem_of_term_variables x ts : x ∈ term_variables ts <-> Var x ∈ ts.
Proof.
  unfold term_variables. rewrite list_elem_of_omap. split; [|by exists (Var x)]. intros ([y|v] & Hy & E); [|done]. by injection E as ->.
Qed.
Lemma elem_of_positive_vars r r' x :
  lifted r r' -> x ∈ positive_vars r' <-> is_anonymous x = false /\ exists a, reads r a /\ Var x ∈ args a.
Proof.
  intros Hl. unfold positive_vars. rewrite list_elem_of_In, filter_In, <- list_elem_of_In, list_elem_of_bind, negb_true_iff.
  setoid_rewrite (lift_pos _ _ Hl). unfold variables. setoid_rewrite elem_of_term_variables. naive_solver.
Qed.
Lemma safe_covered r r' ts :
  lifted r r' -> all_named ts ->
  forallb (bound_in (positive_vars r')) (term_variables ts) = true <-> covered r ts.
Proof.
  intros Hl Hn. rewrite forallb_forall. unfold covered, bound_in. setoid_rewrite <- list_elem_of_In.
  setoid_rewrite elem_of_term_variables. split; intros H x Hx; specialize (H x Hx);
    assert (is_anonymous x = false) as Ha by (apply named_spec; intros s; by apply Hn).
  - rewrite Ha in H. simpl in H. apply bool_decide_eq_true in H. by apply (elem_of_positive_vars r r' x Hl) in H as [_ ?].
  - rewrite Ha. apply bool_decide_eq_true. by apply (elem_of_positive_vars r r' x Hl).
Qed.
Lemma safe_restricted r r' : lifted r r' -> rule_named r -> safe_rule r' = true <-> range_restricted r.
Proof.
  intros Hl (Hh & Hn & Hc). unfold safe_rule, range_restricted. rewrite !andb_true_iff.
  assert (forallb (fun x => negb (is_anonymous x) && bool_decide (x ∈ positive_vars r')) (variables (head r')) = true
          <-> covered r (args (head r))) as ->.
  { rewrite <- (safe_covered r r' (args (head r)) Hl Hh), (lift_head _ _ Hl). unfold variables, bound_in. rewrite !forallb_forall.
    setoid_rewrite <- list_elem_of_In. setoid_rewrite elem_of_term_variables. split; intros H x Hx; specialize (H x Hx);
      assert (is_anonymous x = false) as Ha by (apply named_spec; intros s; by apply Hh); rewrite Ha in *; done. }
  assert (forallb (fun a => forallb (bound_in (positive_vars r')) (variables a)) (body_negated_atoms r') = true
          <-> forall a, negates r a -> covered r (args a)) as ->.
  { rewrite forallb_forall. setoid_rewrite <- list_elem_of_In. setoid_rewrite (lift_neg _ _ Hl).
    split; intros H a Ha; specialize (H a Ha); by apply (safe_covered r r' (args a) Hl (Hn a Ha)). }
  assert (forallb (fun h => forallb (bound_in (positive_vars r')) (term_variables h.2)) (body_helpers r') = true
          <-> forall ts, calls r ts -> covered r ts) as ->; [|tauto].
  rewrite forallb_forall. setoid_rewrite <- list_elem_of_In. split.
  - intros H ts Hts. pose proof Hts as (n & Hin)%(lift_call _ _ Hl). by apply (safe_covered r r' ts Hl (Hc ts Hts)), (H (n, ts)).
  - intros H [n ts] Hin. assert (calls r ts) as Hts by (apply (lift_call _ _ Hl); by exists n).
    by apply (safe_covered r r' ts Hl (Hc ts Hts)), H.
Qed.
Lemma lifted_uses p p' x y :
  Forall2 lifted (rules p) (rules p') ->
  (uses_neg p' x y <-> depends_neg p x y) /\ (uses p' x y <-> depends p x y).
Proof.
  intros Hl. assert (Hn : uses_neg p' x y <-> depends_neg p x y).
  { split.
    - intros (r' & Hr & Hx & a & Ha & Hy). destruct (Forall2_elem_r _ _ _ _ Hl Hr) as (r & Hr' & H).
      exists r, a. rewrite <- (lift_head _ _ H). split_and!; [done..|by apply (lift_neg _ _ H)|done].
    - intros (r & a & Hr & Hx & Ha & Hy). destruct (Forall2_elem_l _ _ _ _ Hl Hr) as (r' & Hr' & H).
      exists r'. split; [done|]. rewrite (lift_head _ _ H). split; [done|]. exists a. split; [by apply (lift_neg _ _ H)|done]. }
  assert (Hp : uses_pos p' x y <-> exists r a, r ∈ rules p /\ predicate (head r) = x /\ reads r a /\ predicate a = y).
  { split.
    - intros (r' & Hr & Hx & a & Ha & Hy). destruct (Forall2_elem_r _ _ _ _ Hl Hr) as (r & Hr' & H).
      exists r, a. rewrite <- (lift_head _ _ H). split_and!; [done..|by apply (lift_pos _ _ H)|done].
    - intros (r & a & Hr & Hx & Ha & Hy). destruct (Forall2_elem_l _ _ _ _ Hl Hr) as (r' & Hr' & H).
      exists r'. split; [done|]. rewrite (lift_head _ _ H). split; [done|]. exists a. split; [by apply (lift_pos _ _ H)|done]. }
  split; [done|]. unfold uses, depends. rewrite Hn, Hp. tauto.
Qed.
End Accepted.

(** C10. For policies without anonymous variables in heads, under negations and in helper
    calls, [stratify] accepts exactly the policies that negate no helper, whose rules are
    range restricted (every variable of the head, of a negated atom or of a helper call
    occurs in a positive atom that is no helper call) and that have no dependency cycle
    with a negative edge, all read off the policy as written; it then returns strata in
    evaluation order.  Every other such policy is rejected with a [StratificationError].
    (The fuel of the model's component search always suffices.) *)
Theorem stratify_exact p hs :
  (forall r, r ∈ rules p -> rule_named hs r) ->
  (acceptable hs p /\ exists p' strata, stratify set_list p hs = Ok (p', strata) /\ stratification p' strata)
  \/ (~ acceptable hs p /\ stratify set_list p hs = Err StratificationError).
Proof.
  intros Hn. destruct (disambiguate_program p hs) as [p'|e] eqn:Hd.
  2: { right. pose proof (disambiguate_error _ _ _ Hd) as ->. destruct (lift_fails _ _ _ Hd) as (r & a & Hr & Ha & Hp).
       split; [|by unfold stratify; rewrite Hd]. intros (H & _). by apply (H r a). }
  pose proof (lift_program _ _ _ Hd) as Hl.
  assert (Forall (fun r => safe_rule r = true) (rules p') <-> forall r, r ∈ rules p -> range_restricted hs r) as Hsafe.
  { rewrite list.Forall_forall. split.
    - intros H r Hr. destruct (Forall2_elem_l _ _ _ _ Hl Hr) as (r' & Hr' & Hlr). apply (safe_restricted hs r r' Hlr (Hn r Hr)). by apply H.
    - intros H r' Hr'. destruct (Forall2_elem_r _ _ _ _ Hl Hr') as (r & Hr & Hlr). by apply (safe_restricted hs r r' Hlr (Hn r Hr)), H. }
  assert (negative_recursion p' <-> exists x y, depends_neg p x y /\ rtc (depends hs p) y x) as Hrec.
  { assert (forall y x, rtc (uses p') y x <-> rtc (depends hs p) y x) as Hrtc.
    { intros y x. split; apply rtc_subrel; intros u v Huv; by apply (lifted_uses hs p p' u v Hl). }
    unfold negative_recursion. setoid_rewrite Hrtc.
    split; intros (x & y & Hxy & H); exists x, y; (split; [by apply (lifted_uses hs p p' x y Hl)|done]). }
  assert (forall r a, r ∈ rules p -> negates r a -> predicate a ∉ hs) as Hfine.
  { intros r a Hr. destruct (Forall2_elem_l _ _ _ _ Hl Hr) as (r' & _ & Hlr). apply (lift_fine _ _ _ Hlr). }
  destruct (decide (Forall (fun r => safe_rule r = true) (rules p'))) as [Hs|Hs].
  - destruct (stratify_safe p hs p' Hd Hs) as [[Hr He]|[Hr (strata & He)]].
    + right. split; [|done]. intros (_ & _ & H). by apply H, Hrec.
    + left. split; [split_and!; [done|by apply Hsafe|by rewrite <- Hrec]|].
      exists p', strata. split; [done|]. by apply (stratify_Ok p hs).
  - right. split; [intros (_ & H & _); by apply Hs, Hsafe|]. rewrite safe_rules in Hs. apply not_true_is_false in Hs.
    unfold stratify, check_safety. rewrite Hd. simpl. by rewrite Hs.
Qed.
End Stratify.
End PcasStratifySpec.
