(* ===== verification/PcasEval.v ===== *)
(** * PCAS policies: relations, helpers and the evaluator

    [tex/pcas/runtime/relation.py], [helpers.py] and [evaluator.py].  A frozenset of
    facts is a list without duplicates under Python's equality; the order in which
    it is iterated is a parameter, and so is the order of a set of strings. *)
From S2P Require Import Prelude PyStr PcasLang PcasStratify.
Import PcasAst PcasStratify.
Open Scope string_scope.
Open Scope list_scope.
Open Scope nat_scope.

Module PcasEval.

(** ** Relations *)

Abbreviation fact := (list FactValue).
(** Equality of tuples, and membership in a set of them. *)
Fixpoint tuple_eq (f g : fact) : bool :=
  match f, g with
  | [], [] => true
  | v :: f, w :: g => py_eq v w && tuple_eq f g
  | _, _ => false
  end.
Definition mem (f : fact) (l : list fact) : bool := existsb (tuple_eq f) l.
(** [set.add]: an equal element that is there stays. *)
Definition set_add (l : list fact) (f : fact) : list fact := if mem f l then l else l ++ [f].

Record Relation := { r_name : string; r_arity : nat; facts : list fact }.

(** [Relation(name=..., arity=..., facts=...)]. *)
Definition new_relation (name : string) (arity : nat) (fs : list fact) : result exn Relation :=
  if starts_with_char islower name && forallb (fun f => length f =? arity) fs
  then Ok {| r_name := name; r_arity := arity; facts := foldl set_add [] fs |}
  else Err ValueError.
Definition with_facts (r : Relation) (fs : list fact) : result exn Relation :=
  new_relation (r_name r) (r_arity r) (foldl set_add (facts r) fs).

(** [tuple(f[c] for c in columns)]. *)
Definition key_of (columns : list nat) (f : fact) : result exn fact :=
  map_result (fun c => match f !! c with Some v => Ok v | None => Err IndexError end) columns.
(** [out.setdefault(key, []).append(f)]. *)
Fixpoint index_add (key f : fact) (idx : list (fact * list fact)) : list (fact * list fact) :=
  match idx with
  | [] => [(key, [f])]
  | (k, fs) :: idx => if tuple_eq k key then (k, fs ++ [f]) :: idx else (k, fs) :: index_add key f idx
  end.
Fixpoint build_index (columns : list nat) (fs : list fact) (out : list (fact * list fact))
    : result exn (list (fact * list fact)) :=
  match fs with
  | [] => Ok out
  | f :: fs => key ← key_of columns f; build_index columns fs (index_add key f out)
  end.
Definition index_get (idx : list (fact * list fact)) (values : fact) : list fact :=
  match find (fun kf => tuple_eq kf.1 values) idx with Some (_, fs) => fs | None => [] end.

(** ** Helpers *)

Inductive helper_kind := Predicate | Function.
(** The call of [fn]; [None] when it raises, or returns no fact value. *)
Record HelperFunction := { h_arity : nat; kind : helper_kind; fn : list FactValue -> option FactValue }.

Definition truthy (v : FactValue) : bool :=
  match v with VStr s => negb (String.eqb s "") | VInt z => negb (z =? 0)%Z | VBool b => b end.

Definition equals (x y : FactValue) : bool := py_eq x y.
Definition not_equals (x y : FactValue) : bool := negb (py_eq x y).
Definition greater (x y : FactValue) : bool :=
  match x, y with
  | VInt a, VInt b => (b <? a)%Z
  | VStr s, VStr t => str_ltb t s
  | _, _ => false
  end.
Definition less (x y : FactValue) : bool :=
  match x, y with
  | VInt a, VInt b => (a <? b)%Z
  | VStr s, VStr t => str_ltb s t
  | _, _ => false
  end.
Definition has_substring (x y : FactValue) : bool :=
  match x, y with VStr s, VStr t => contains t s | _, _ => false end.
Definition starts_with (x y : FactValue) : bool :=
  match x, y with VStr s, VStr t => startswith t s | _, _ => false end.

Inductive json :=
| JNull | JBool (b : bool) | JInt (z : Z) | JFloat (repr : string) | JStr (s : string)
| JArr (l : list json) | JObj (l : list (string * json)).

(** [int(key)]: white space, a sign, digits with single underscores between. *)
Definition py_nat (s : string) : option Z :=
  let groups := split "_" s in
  if forallb (fun g => negb (String.eqb g "") && str_all isdecimal g) groups
  then Some (foldl digits_val 0%Z groups) else None.
Definition py_int (s : string) : option Z :=
  match strip s with
  | String "-" s => Z.opp <$> py_nat s
  | String "+" s => py_nat s
  | s => py_nat s
  end.
(** [l[i]], negative indices counting from the end. *)
Definition py_index {A} (l : list A) (i : Z) : option A :=
  if (i <? - Z.of_nat (length l))%Z then None
  else if (i <? 0)%Z then l !! Z.to_nat (i + Z.of_nat (length l)) else l !! Z.to_nat i.

Section Json.
Context (loads : string -> option json) (dumps : json -> string).

(** One step of the path; [None] is the [return ""]. *)
Definition walk (cur : option json) (key : string) : option json :=
  match cur with
  | Some (JObj l) => snd <$> find (fun kv => String.eqb kv.1 key) l
  | Some (JArr l) => i ← py_int key; py_index l i
  | _ => None
  end.
Definition json_extract (x y : FactValue) : FactValue :=
  match x, y with
  | VStr json_str, VStr path =>
      match loads json_str with
      | None => VStr ""
      | Some doc =>
          match foldl walk (Some doc) (split "." path) with
          | None | Some JNull => VStr ""
          | Some (JBool b) => VBool b
          | Some (JInt z) => VInt z
          | Some (JStr s) => VStr s
          | Some cur => VStr (dumps cur)
          end
      end
  | _, _ => VStr ""
  end.

Definition binary (f : FactValue -> FactValue -> FactValue) (l : list FactValue) : option FactValue :=
  match l with [x; y] => Some (f x y) | _ => None end.
Definition predicate_helper (f : FactValue -> FactValue -> bool) : HelperFunction :=
  {| h_arity := 2; kind := Predicate; fn := binary (fun x y => VBool (f x y)) |}.
Definition HELPER_REGISTRY : gmap string HelperFunction := list_to_map [
  ("equals", predicate_helper equals);
  ("not_equals", predicate_helper not_equals);
  ("greater", predicate_helper greater);
  ("less", predicate_helper less);
  ("has_substring", predicate_helper has_substring);
  ("starts_with", predicate_helper starts_with);
  ("json_extract", {| h_arity := 3; kind := Function; fn := binary json_extract |})].
End Json.

(** ** Terms under a substitution *)

Abbreviation subst := (gmap string FactValue).

(** [_UNBOUND] is [None]. *)
Definition resolve_term (sub : subst) (t : Term) : option FactValue :=
  match t with
  | Constant v => Some v
  | Var x => if is_anonymous x then None else sub !! x
  end.
Definition ground_terms (sub : subst) (ts : list Term) : option fact := mapM (resolve_term sub) ts.
Definition ground_atom (a : Atom) (sub : subst) : option fact := ground_terms sub (args a).

(** The loop over the arguments for one candidate; [None] when it does not match. *)
Fixpoint match_args (i : nat) (ts : list Term) (f : fact) (sub : subst) : result exn (option subst) :=
  match ts with
  | [] => Ok (Some sub)
  | Constant v :: ts =>
      match f !! i with
      | None => Err IndexError
      | Some w => if py_eq w v then match_args (S i) ts f sub else Ok None
      end
  | Var x :: ts =>
      if is_anonymous x then match_args (S i) ts f sub
      else match f !! i with
           | None => Err IndexError
           | Some w => match sub !! x with
                       | Some v => if py_eq v w then match_args (S i) ts f sub else Ok None
                       | None => match_args (S i) ts f (<[x := w]> sub)
                       end
           end
  end.

(** The columns that the substitution fixes, with their values. *)
Definition bound_columns (sub : subst) (ts : list Term) : list (nat * FactValue) :=
  omap (fun it => pair it.1 <$> resolve_term sub it.2) (imap pair ts).

Fixpoint filter_map_result {A B} (f : A -> result exn (option B)) (l : list A) : result exn (list B) :=
  match l with
  | [] => Ok []
  | x :: l => y ← f x; ys ← filter_map_result f l; Ok (match y with Some y => y :: ys | None => ys end)
  end.
Fixpoint concat_result {A B} (f : A -> result exn (list B)) (l : list A) : result exn (list B) :=
  match l with
  | [] => Ok []
  | x :: l => ys ← f x; zs ← concat_result f l; Ok (ys ++ zs)
  end.

Section Evaluator.
Context (iter : list fact -> list fact) (set_list : gset string -> list string).
Context (helpers : gmap string HelperFunction).

(** The index cache of a relation returns what it would compute again. *)
Definition lookup_columns (r : Relation) (columns : list nat) (values : fact) : result exn (list fact) :=
  match columns with
  | [] => Ok (iter (facts r))
  | _ => idx ← build_index columns (iter (facts r)) []; Ok (index_get idx values)
  end.

Abbreviation database := (gmap string Relation).

Definition join_one (a : Atom) (r : Relation) (sub : subst) : result exn (list subst) :=
  let bound := bound_columns sub (args a) in
  candidates ← lookup_columns r bound.*1 bound.*2;
  filter_map_result (fun f => match_args 0 (args a) f sub) candidates.
Definition join_atom (a : Atom) (subs : list subst) (db : database) : result exn (list subst) :=
  match db !! predicate a with
  | None => Ok []
  | Some r => concat_result (join_one a r) subs
  end.
(** The loop over the positive atoms, left early when nothing matches. *)
Fixpoint join_atoms (atoms : list Atom) (subs : list subst) (db : database) : result exn (list subst) :=
  match atoms with
  | [] => Ok subs
  | a :: atoms =>
      subs ← join_atom a subs db;
      match subs with [] => Ok [] | _ => join_atoms atoms subs db end
  end.

(** One substitution under one helper call. *)
Definition call_helper (reg : HelperFunction) (ts : list Term) (sub : subst) : list subst :=
  match kind reg with
  | Predicate =>
      match ground_terms sub ts with
      | None => []
      | Some vs => if match fn reg vs with Some v => truthy v | None => false end then [sub] else []
      end
  | Function =>
      match ground_terms sub (take (pred (length ts)) ts) with
      | None => []
      | Some vs =>
          match fn reg vs, list.last ts with
          | Some v, Some (Constant c) => if py_eq v c then [sub] else []
          | Some v, Some (Var x) =>
              if is_anonymous x then [sub]
              else match sub !! x with
                   | Some w => if py_eq w v then [sub] else []
                   | None => [<[x := v]> sub]
                   end
          | _, _ => []
          end
      end
  end.
Fixpoint apply_helpers (hs : list (string * list Term)) (subs : list subst) : result exn (list subst) :=
  match hs with
  | [] => Ok subs
  | (name, ts) :: hs =>
      match helpers !! name with
      | None => Ok []
      | Some reg =>
          if negb (length ts =? h_arity reg) then Err EvaluationError
          else match kind reg, ts with
               | Function, [] => Err IndexError
               | _, _ => match subs ≫= call_helper reg ts with
                         | [] => Ok []
                         | subs => apply_helpers hs subs
                         end
               end
      end
  end.

Definition passes_negated (db : database) (sub : subst) (a : Atom) : bool :=
  match ground_atom a sub with
  | None => false
  | Some f => match db !! predicate a with None => true | Some r => negb (mem f (facts r)) end
  end.
Definition filter_negated (negated : list Atom) (subs : list subst) (db : database) : list subst :=
  List.filter (fun sub => forallb (passes_negated db sub) negated) subs.

Definition derive (r : Rule) (db : database) : result exn (list fact) :=
  subs ← join_atoms (body_positive_atoms r) [∅] db;
  match subs with
  | [] => Ok []
  | _ =>
      subs ← apply_helpers (body_helpers r) subs;
      Ok (omap (ground_atom (head r)) (filter_negated (body_negated_atoms r) subs db))
  end.

(** ** Strata *)

Abbreviation additions := (list (string * list fact)).
(** [new_facts_by_pred.setdefault(pred, set()).update(additions)]. *)
Fixpoint bucket_update (q : string) (fs : list fact) (new : additions) : additions :=
  match new with
  | [] => [(q, foldl set_add [] fs)]
  | (q', b) :: new => if String.eqb q' q then (q', foldl set_add b fs) :: new else (q', b) :: bucket_update q fs new
  end.
Fixpoint collect (rs : list Rule) (db : database) (new : additions) : result exn additions :=
  match rs with
  | [] => Ok new
  | r :: rs =>
      if is_fact r then collect rs db new
      else
        derived ← derive r db;
        match derived with
        | [] => collect rs db new
        | _ =>
            match db !! predicate (head r) with
            | None => Err KeyError
            | Some rel =>
                match List.filter (fun f => negb (mem f (facts rel))) derived with
                | [] => collect rs db new
                | fs => collect rs db (bucket_update (predicate (head r)) fs new)
                end
            end
        end
  end.
Fixpoint commit (new : additions) (db : database) : result exn database :=
  match new with
  | [] => Ok db
  | (q, fs) :: new =>
      match fs with
      | [] => commit new db
      | _ => match db !! q with
             | None => Err KeyError
             | Some rel => rel ← with_facts rel fs; commit new (<[q := rel]> db)
             end
      end
  end.

Definition MAX_ITERATIONS : nat := 1024.
(** [fuel] counts down the iterations that are left. *)
Fixpoint evaluate_rounds (fuel : nat) (rs : list Rule) (db : database) : result exn database :=
  match fuel with
  | 0 => Err EvaluationError
  | S fuel =>
      new ← collect rs db [];
      if existsb (fun b => match b.2 with [] => false | _ => true end) new
      then db ← commit new db; evaluate_rounds fuel rs db
      else Ok db
  end.
Definition evaluate_stratum (s : Stratum) (db : database) : result exn database :=
  evaluate_rounds MAX_ITERATIONS (s_rules s) db.

(** ** The evaluator *)

Record Evaluator := { program : Program; strata : list Stratum; relation_arities : gmap string nat }.

Definition arity_default (m : gmap string nat) (a : Atom) : gmap string nat :=
  match m !! predicate a with None => <[predicate a := arity a]> m | Some _ => m end.
Fixpoint gather_arities (rs : list Rule) (m : gmap string nat) : result exn (gmap string nat) :=
  match rs with
  | [] => Ok m
  | r :: rs =>
      let m := arity_default m (head r) in
      if bool_decide (m !! predicate (head r) = Some (arity (head r)))
      then gather_arities rs (foldl arity_default (foldl arity_default m (body_positive_atoms r)) (body_negated_atoms r))
      else Err EvaluationError
  end.
Definition new_evaluator (p : Program) : result exn Evaluator :=
  ps ← stratify set_list p (elements (dom helpers));
  m ← gather_arities (rules ps.1) ∅;
  Ok {| program := ps.1; strata := ps.2; relation_arities := m |}.

Definition arity_ok (m : gmap string nat) (name : string) (rel : Relation) : bool :=
  match m !! name with None => true | Some n => r_arity rel =? n end.
(** [for pred, arity in arities: if pred not in facts: facts[pred] = Relation(...)]. *)
Fixpoint add_missing (preds : list (string * nat)) (db : database) : result exn database :=
  match preds with
  | [] => Ok db
  | (q, n) :: preds =>
      match db !! q with
      | Some _ => add_missing preds db
      | None => rel ← new_relation q n []; add_missing preds (<[q := rel]> db)
      end
  end.
Fixpoint seed_facts (rs : list Rule) (db : database) : result exn database :=
  match rs with
  | [] => Ok db
  | r :: rs =>
      if is_fact r then
        match ground_atom (head r) ∅ with
        | None => Err EvaluationError
        | Some f =>
            match db !! predicate (head r) with
            | None => Err KeyError
            | Some rel => rel ← with_facts rel [f]; seed_facts rs (<[predicate (head r) := rel]> db)
            end
        end
      else seed_facts rs db
  end.
Fixpoint evaluate_strata (ss : list Stratum) (db : database) : result exn database :=
  match ss with
  | [] => Ok db
  | s :: ss => db ← evaluate_stratum s db; evaluate_strata ss db
  end.
Definition evaluate (e : Evaluator) (edb : database) : result exn database :=
  if forallb (fun nr => arity_ok (relation_arities e) nr.1 nr.2) (map_to_list edb) then
    db ← add_missing (map_to_list (relation_arities e)) edb;
    db ← seed_facts (rules (program e)) db;
    evaluate_strata (strata e) db
  else Err EvaluationError.
End Evaluator.

End PcasEval.
