(* ===== verification/PcasJoin.v ===== *)
(** * PCAS policies: the meaning of a policy

    Stable models of a policy over a set of extensional facts: an interpretation is
    stable when it is the least one closed under the rules, negation being read in
    the interpretation itself.  A stratified policy has at most one. *)
From stdpp Require Import relations.
From S2P Require Import Prelude PyStr PcasLang PcasStratify PcasStratifySpec PcasEval.
Import PcasAst PcasStratify PcasStratifySpec PcasEval.
Open Scope string_scope.
Open Scope list_scope.
Open Scope nat_scope.

Module PcasModel.

Abbreviation interp := (string -> fact -> Prop).

(** A term matches a value; an anonymous variable matches any. *)
Definition term_matches (σ : subst) (t : Term) (v : FactValue) : Prop :=
  match t with Constant c => v = c | Var x => is_anonymous x = true \/ σ !! x = Some v end.
Definition matches (σ : subst) (ts : list Term) (f : fact) : Prop := Forall2 (term_matches σ) ts f.

Section Model.
Context (helpers : gmap string HelperFunction).

(** The helper call holds: a predicate returns something true, a function returns
    the value of its last argument. *)
Definition call_holds (reg : HelperFunction) (ts : list Term) (σ : subst) : bool :=
  match kind reg with
  | Predicate =>
      match ground_terms σ ts ≫= fn reg with Some v => truthy v | None => false end
  | Function =>
      match ground_terms σ (take (pred (length ts)) ts) ≫= fn reg, list.last ts with
      | Some v, Some t =>
          match t with Var x => is_anonymous x | Constant _ => false end
          || match resolve_term σ t with Some w => py_eq w v | None => false end
      | _, _ => false
      end
  end.
Definition helper_holds (σ : subst) (h : string * list Term) : bool :=
  match helpers !! h.1 with Some reg => call_holds reg h.2 σ | None => false end.

(** Rule [r] derives [t] where positive atoms hold in [I] and negated ones fail in [N]. *)
Definition fires (N I : interp) (r : Rule) (t : fact) : Prop :=
  exists σ,
    (forall a, a ∈ body_positive_atoms r -> exists f, I (predicate a) f /\ matches σ (args a) f)
    /\ (forall h, h ∈ body_helpers r -> helper_holds σ h = true)
    /\ (forall a, a ∈ body_negated_atoms r -> exists f, ground_atom a σ = Some f /\ ~ N (predicate a) f)
    /\ ground_atom (head r) σ = Some t.

Section Policy.
Context (p : Program) (edb : interp).

Definition closed (N I : interp) : Prop :=
  (forall q t, edb q t -> I q t)
  /\ forall r t, r ∈ rules p -> fires N I r t -> I (predicate (head r)) t.
Definition least (N : interp) : interp := fun q t => forall I, closed N I -> I q t.
Definition stable (M : interp) : Prop := forall q t, M q t <-> least M q t.

Lemma fires_mono (N N' I I' : interp) r t :
  (forall a f, a ∈ body_positive_atoms r -> I (predicate a) f -> I' (predicate a) f) ->
  (forall a f, a ∈ body_negated_atoms r -> N' (predicate a) f -> N (predicate a) f) ->
  fires N I r t -> fires N' I' r t.
Proof.
  intros HI HN (σ & H1 & H2 & H3 & H4). exists σ. split_and!; [|done| |done].
  - intros a Ha. destruct (H1 a Ha) as (f & ? & ?). exists f. split; [by eapply HI|done].
  - intros a Ha. destruct (H3 a Ha) as (f & ? & Hn). exists f. split; [done|]. intros ?. by eapply Hn, HN.
Qed.

Lemma least_closed N : closed N (least N).
Proof.
  split; [intros q t He I [HI _]; by apply HI|].
  intros r t Hr Hf I HI. apply HI; [done|]. eapply fires_mono; [|done|exact Hf]. intros a f _ Hl. by apply Hl.
Qed.
Lemma stable_closed M : stable M -> closed M M.
Proof.
  intros HM. destruct (least_closed M) as [H1 H2]. split; [intros q t He; by apply HM, H1|].
  intros r t Hr Hf. apply HM, H2; [done|]. eapply fires_mono; [|done|exact Hf]. intros a f _. apply HM.
Qed.

(** ** Uniqueness *)

Section Strata.
Context (ss : list Stratum) (Hs : stratification p ss).

(** Every stratum of [q] comes before the [n]-th. *)
Definition before (n : nat) (q : string) : Prop := forall j s, ss !! j = Some s -> q ∈ s_predicates s -> j < n.

Lemma head_level r : r ∈ rules p -> exists i s, ss !! i = Some s /\ predicate (head r) ∈ s_predicates s.
Proof. intros Hr. apply (st_cover _ _ Hs). exists r. eauto. Qed.
Lemma before_pos n r a : r ∈ rules p -> before n (predicate (head r)) -> a ∈ body_positive_atoms r -> before n (predicate a).
Proof.
  intros Hr Hn Ha j s Hj Hq. destruct (head_level r Hr) as (i & s' & Hi & Hh).
  destruct (st_pos _ _ Hs i s' _ (predicate a) Hi Hh) as (k & s'' & Hk & Hk' & Hq'); [by exists r; eauto 6|].
  pose proof (st_disjoint _ _ Hs j k s s'' _ Hj Hk' Hq Hq'). specialize (Hn i s' Hi Hh). lia.
Qed.
Lemma before_neg n r a :
  r ∈ rules p -> before n (predicate (head r)) -> a ∈ body_negated_atoms r -> exists m, m < n /\ before m (predicate a).
Proof.
  intros Hr Hn Ha. destruct (head_level r Hr) as (i & s' & Hi & Hh). exists i. split; [by eapply Hn|].
  intros j s Hj Hq.
  destruct (st_neg _ _ Hs i s' _ (predicate a) Hi Hh) as (k & s'' & Hk & Hk' & Hq'); [by exists r; eauto 6|].
  pose proof (st_disjoint _ _ Hs j k s s'' _ Hj Hk' Hq Hq'). lia.
Qed.

Lemma stable_below n M M' :
  stable M -> stable M' -> (forall m q t, m < n -> before m q -> M' q t <-> M q t) ->
  forall q t, before n q -> M q t -> M' q t.
Proof.
  intros HM HM' Hlow q t Hq Ht. destruct (stable_closed M HM) as [HE HR]. destruct (stable_closed M' HM') as [HE' HR'].
  apply HM in Ht. specialize (Ht (fun q t => M q t /\ (before n q -> M' q t))). apply Ht; [|done].
  split; [eauto|]. intros r u Hr Hf. split.
  - apply HR; [done|]. eapply fires_mono; [|done|exact Hf]. naive_solver.
  - intros Hh. apply HR'; [done|]. eapply fires_mono; [| |exact Hf].
    + intros a f Ha [_ H]. apply H. by eapply before_pos.
    + intros a f Ha. destruct (before_neg n r a Hr Hh Ha) as (m & Hm & Hb). by apply (Hlow m).
Qed.

Lemma stable_agree n M M' : stable M -> stable M' -> forall q t, before n q -> M q t <-> M' q t.
Proof.
  intros HM HM'. induction n as [n IH] using lt_wf_ind. intros q t Hq. split; intros Ht.
  - eapply (stable_below n M M'); try done. intros m q' t' Hm Hb. symmetry. by apply (IH m).
  - eapply (stable_below n M' M); try done. intros m q' t' Hm Hb. by apply (IH m).
Qed.

(** A stratified policy has at most one stable model. *)
Lemma stable_unique M M' : stable M -> stable M' -> forall q t, M q t <-> M' q t.
Proof.
  intros HM HM' q t. apply (stable_agree (length ss)); [done|done|]. intros j s Hj _. by eapply lookup_lt_Some.
Qed.
End Strata.
End Policy.

(** Only the extensional facts matter. *)
Lemma stable_ext p (edb edb' M : interp) : (forall q t, edb q t <-> edb' q t) -> stable p edb M -> stable p edb' M.
Proof.
  intros He HM q t. rewrite (HM q t). unfold least, closed. setoid_rewrite He. done.
Qed.
End Model.

End PcasModel.

(** * PCAS policies: one rule

    The facts [derive] returns are those the rule derives in the semantics, over a
    database whose relations are well formed and hold no bools. *)
Import PcasAst PcasStratify PcasEval PcasModel.
Open Scope string_scope.
Open Scope list_scope.
Open Scope nat_scope.

Module PcasJoin.

(** ** Equality of tuples *)

Definition canon (v : FactValue) : FactValue :=
  match v with VBool b => VInt (if b then 1 else 0)%Z | _ => v end.
Lemma py_eq_canon v w : py_eq v w = true <-> canon v = canon w.
Proof.
  destruct v as [s|z|b], w as [t|z'|b']; unfold py_eq, num; simpl; rewrite ?String.eqb_eq, ?bool_decide_eq_true;
    split; congruence.
Qed.
Lemma tuple_eq_canon f g : tuple_eq f g = true <-> canon <$> f = canon <$> g.
Proof.
  revert g. induction f as [|v f IH]; intros [|w g]; try done.
  cbn [tuple_eq]. rewrite !fmap_cons, andb_true_iff, py_eq_canon, IH. split; [by intros [-> ->]|by intros [= -> ->]].
Qed.

Abbreviation plain_fact f := (Forall plain f).
Lemma canon_plain v : plain v -> canon v = v.
Proof. by destruct v. Qed.
Lemma canon_plain_fact f : plain_fact f -> canon <$> f = f.
Proof. induction 1; [done|]. by rewrite fmap_cons, canon_plain, IHForall. Qed.
Lemma tuple_eq_plain f g : plain_fact f -> plain_fact g -> tuple_eq f g = true <-> f = g.
Proof. intros. by rewrite tuple_eq_canon, !canon_plain_fact. Qed.
Lemma mem_plain f l : plain_fact f -> Forall (fun g => plain_fact g) l -> mem f l = true <-> f ∈ l.
Proof.
  intros Hf Hl. unfold mem. rewrite existsb_exists. setoid_rewrite <- list_elem_of_In.
  rewrite list.Forall_forall in Hl. split.
  - intros (g & Hg & Heq). apply tuple_eq_plain in Heq as ->; auto.
  - intros Hin. exists f. split; [done|]. by apply tuple_eq_plain.
Qed.

(** ** The index *)

Lemma index_get_add key f idx values :
  index_get (index_add key f idx) values =
  if tuple_eq key values then index_get idx values ++ [f] else index_get idx values.
Proof.
  induction idx as [|[k fs] idx IH]; unfold index_get in *; simpl.
  - by destruct (tuple_eq key values).
  - destruct (tuple_eq k key) eqn:Ek; simpl.
    + assert (tuple_eq key values = tuple_eq k values) as ->.
      { apply eq_true_iff_eq. rewrite !tuple_eq_canon in *. by rewrite Ek. }
      by destruct (tuple_eq k values).
    + destruct (tuple_eq k values) eqn:Ev; [|exact IH].
      destruct (tuple_eq key values) eqn:Ekv; [|done]. exfalso. apply not_true_iff_false in Ek. apply Ek.
      rewrite !tuple_eq_canon in *. congruence.
Qed.
Lemma build_index_spec columns fs out idx f values :
  build_index columns fs out = Ok idx ->
  f ∈ index_get idx values <->
    f ∈ index_get out values \/ (f ∈ fs /\ exists key, key_of columns f = Ok key /\ tuple_eq key values = true).
Proof.
  revert out. induction fs as [|g fs IH]; intros out; simpl.
  - intros [= <-]. set_solver.
  - intros (key & Hk & H)%result_bind_Ok. rewrite (IH _ H), index_get_add. destruct (tuple_eq key values) eqn:E.
    + rewrite elem_of_app, list_elem_of_singleton, elem_of_cons. split; [|naive_solver].
      intros [[?| ->]|[? ?]]; eauto 8.
    + rewrite elem_of_cons. split; [naive_solver|]. intros [?|[[->|?] (key' & Hk' & E')]]; [auto|congruence|eauto].
Qed.
Lemma build_index_total columns fs out :
  (forall f, f ∈ fs -> exists key, key_of columns f = Ok key) -> exists idx, build_index columns fs out = Ok idx.
Proof.
  revert out. induction fs as [|g fs IH]; intros out H; simpl; [eauto|].
  destruct (H g) as [key ->]; [set_solver|]. simpl. apply IH. set_solver.
Qed.

(** ** Substitutions *)

Definition plain_subst (σ : subst) : Prop := forall x v, σ !! x = Some v -> plain v.
Definition plain_terms (ts : list Term) : Prop := forall v, Constant v ∈ ts -> plain v.
(** The variables that matching binds. *)
Definition named (ts : list Term) : gset string :=
  list_to_set (List.filter (fun x => negb (is_anonymous x)) (term_variables ts)).

Lemma elem_of_named x ts : x ∈ named ts <-> Var x ∈ ts /\ is_anonymous x = false.
Proof.
  unfold named, term_variables. rewrite elem_of_list_to_set, list_elem_of_In, filter_In, <- list_elem_of_In, negb_true_iff,
    list_elem_of_omap.
  split; [intros [([y|c] & ? & ?) ?]; naive_solver|]. intros [? ?]. split; [by exists (Var x)|done].
Qed.
Lemma resolve_weaken (σ τ : subst) t v : σ ⊆ τ -> resolve_term σ t = Some v -> resolve_term τ t = Some v.
Proof. destruct t as [x|c]; simpl; [|done]. destruct (is_anonymous x); [done|]. intros Hs Hv. by eapply lookup_weaken. Qed.
Lemma matches_weaken (σ τ : subst) ts f : σ ⊆ τ -> matches σ ts f -> matches τ ts f.
Proof.
  intros Hs. apply Forall2_impl. intros [x|c] v; simpl; [|done]. intros [?|?]; [by left|right; by eapply lookup_weaken].
Qed.

Lemma resolve_agree (σ τ : subst) t : σ ⊆ τ -> named [t] ⊆ dom σ -> resolve_term σ t = resolve_term τ t.
Proof.
  intros Hs Hd. destruct t as [x|c]; simpl; [|done]. destruct (is_anonymous x) eqn:E; [done|].
  assert (x ∈ dom σ) as Hx by (apply Hd, elem_of_named; set_solver).
  apply elem_of_dom in Hx as [v Hv]. rewrite Hv. symmetry. by eapply lookup_weaken.
Qed.
Lemma named_mono ts us : ts ⊆ us -> named ts ⊆ named us.
Proof. intros Hs x. rewrite !elem_of_named. intros [? ?]. auto. Qed.

(** Terms whose named variables are bound resolve alike under an extension. *)
Lemma ground_terms_agree (σ τ : subst) ts : σ ⊆ τ -> named ts ⊆ dom σ -> ground_terms σ ts = ground_terms τ ts.
Proof.
  intros Hs Hd. unfold ground_terms.
  assert (Forall (fun t => resolve_term σ t = resolve_term τ t) ts) as H.
  { apply list.Forall_forall. intros t Ht. apply resolve_agree; [done|]. etrans; [|exact Hd].
    apply named_mono. set_solver. }
  clear Hd. induction H as [|t ts Ht _ IH]; simpl; [done|]. by rewrite Ht, IH.
Qed.
Lemma ground_agree (σ τ : subst) a : σ ⊆ τ -> named (args a) ⊆ dom σ -> ground_atom a σ = ground_atom a τ.
Proof. apply ground_terms_agree. Qed.

Lemma match_args_sound i ts f σ τ :
  plain_subst σ -> plain_terms ts -> plain_fact f -> i + length ts = length f ->
  match_args i ts f σ = Ok (Some τ) ->
  σ ⊆ τ /\ plain_subst τ /\ matches τ ts (drop i f) /\ dom τ = dom σ ∪ named ts.
Proof.
  revert i σ. induction ts as [|t ts IH]; intros i σ Hp Hc Hf Hl H; simpl in *.
  - injection H as <-. rewrite drop_ge by lia. split_and!; [done|done|by constructor|set_solver].
  - destruct (lookup_lt_is_Some_2 f i) as [w Hw]; [lia|]. rewrite (drop_S _ _ _ Hw).
    assert (plain w) as Hpw by (rewrite list.Forall_forall in Hf; apply Hf; by eapply list_elem_of_lookup_2).
    assert (plain_terms ts) as Hc' by (intros v Hv; apply Hc; set_solver).
    destruct t as [x|c].
    + assert (named (Var x :: ts) = (if is_anonymous x then ∅ else {[x]}) ∪ named ts) as ->.
      { apply set_eq. intros y. rewrite elem_of_union, !elem_of_named, elem_of_cons.
        destruct (is_anonymous x) eqn:Ex; [rewrite elem_of_empty|rewrite elem_of_singleton]; split.
        - intros [[[= ->]|?] ?]; [congruence|auto].
        - intros [[]|[? ?]]; auto.
        - intros [[[= ->]|?] ?]; auto.
        - intros [-> |[? ?]]; auto. }
      destruct (is_anonymous x) eqn:Ex.
      * apply IH in H as (? & ? & ? & ->); [|done|done|done|lia].
        split_and!; [done|done| |set_solver]. constructor; [by left|done].
      * rewrite Hw in H. destruct (σ !! x) as [v|] eqn:Ev.
        -- destruct (py_eq v w) eqn:Evw; [|done]. apply py_eq_plain in Evw as ->; [|by eapply Hp|done].
           apply IH in H as (Hs & ? & ? & ->); [|done|done|done|lia]. split_and!; [done|done| |].
           ++ constructor; [right; by eapply lookup_weaken|done].
           ++ apply elem_of_dom_2 in Ev. set_solver.
        -- apply IH in H as (Hs & ? & ? & Hd); [|by intros y v; rewrite lookup_insert_Some; naive_solver|done|done|lia].
           split_and!; [etrans; [by apply insert_subseteq|done]|done| |].
           ++ constructor; [right; eapply lookup_weaken; [|done]; apply lookup_insert_eq|done].
           ++ rewrite Hd, dom_insert_L. set_solver.
    + rewrite Hw in H. destruct (py_eq w c) eqn:E; [|done].
      apply py_eq_plain in E as ->; [|done|apply Hc; set_solver].
      apply IH in H as (? & ? & ? & ->); [|done|done|done|lia]. split_and!; [done|done|by constructor|].
      f_equal.
Qed.

Lemma match_args_complete i ts f σ τ :
  i + length ts = length f -> σ ⊆ τ -> matches τ ts (drop i f) ->
  exists ρ, match_args i ts f σ = Ok (Some ρ) /\ ρ ⊆ τ.
Proof.
  revert i σ. induction ts as [|t ts IH]; intros i σ Hl Hs Hm; simpl in *; [eauto|].
  destruct (lookup_lt_is_Some_2 f i) as [w Hw]; [lia|]. rewrite (drop_S _ _ _ Hw) in Hm.
  apply Forall2_cons_1 in Hm as [Ht Hm]. rewrite Hw. destruct t as [x|c]; simpl in Ht.
  - destruct (is_anonymous x); [by apply IH; [lia| |]|]. destruct Ht as [?|Ht]; [done|].
    destruct (σ !! x) as [v|] eqn:Ev.
    + pose proof (lookup_weaken _ _ _ _ Ev Hs). simplify_eq. rewrite py_eq_refl. by apply IH; [lia| |].
    + apply IH; [lia| |done]. by apply insert_subseteq_l.
  - subst. rewrite py_eq_refl. by apply IH; [lia| |].
Qed.

Lemma match_args_total i ts f σ :
  i + length ts = length f -> exists o, match_args i ts f σ = Ok o.
Proof.
  revert i σ. induction ts as [|t ts IH]; intros i σ Hl; simpl in *; [eauto|].
  destruct (lookup_lt_is_Some_2 f i) as [w Hw]; [lia|]. rewrite Hw.
  destruct t; repeat case_match; eauto; apply IH; lia.
Qed.

(** ** Joins *)

Lemma filter_map_spec {A B} (g : A -> result exn (option B)) l k y :
  filter_map_result g l = Ok k -> y ∈ k <-> exists x, x ∈ l /\ g x = Ok (Some y).
Proof.
  revert k. induction l as [|x l IH]; intros k; simpl; [intros [= <-]; set_solver|].
  intros (o & Ho & H)%result_bind_Ok. apply result_bind_Ok in H as (ys & Hys & [= <-]). specialize (IH _ Hys).
  setoid_rewrite elem_of_cons. destruct o as [z|]; rewrite ?elem_of_cons, IH; split.
  - intros [-> |(x' & ? & ?)]; eauto.
  - intros (x' & [-> |?] & ?); [left; congruence|eauto].
  - intros (x' & ? & ?); eauto.
  - intros (x' & [-> |?] & ?); [congruence|eauto].
Qed.
Lemma filter_map_total {A B} (g : A -> result exn (option B)) l :
  (forall x, x ∈ l -> exists o, g x = Ok o) -> exists k, filter_map_result g l = Ok k.
Proof.
  induction l as [|x l IH]; intros H; simpl; [eauto|]. destruct (H x) as [o ->]; [set_solver|]. simpl.
  destruct IH as [k ->]; [set_solver|]. simpl. eauto.
Qed.
Lemma concat_result_spec {A B} (g : A -> result exn (list B)) l k y :
  concat_result g l = Ok k -> y ∈ k <-> exists x ys, x ∈ l /\ g x = Ok ys /\ y ∈ ys.
Proof.
  revert k. induction l as [|x l IH]; intros k; simpl; [intros [= <-]; set_solver|].
  intros (ys & Hy & H)%result_bind_Ok. apply result_bind_Ok in H as (zs & Hz & [= <-]). specialize (IH _ Hz).
  setoid_rewrite elem_of_cons. rewrite elem_of_app, IH. split.
  - intros [?|(x' & ys' & ? & ? & ?)]; eauto 8.
  - intros (x' & ys' & [-> |?] & ? & ?); [left; congruence|eauto 8].
Qed.
Lemma concat_result_total {A B} (g : A -> result exn (list B)) l :
  (forall x, x ∈ l -> exists ys, g x = Ok ys) -> exists k, concat_result g l = Ok k.
Proof.
  induction l as [|x l IH]; intros H; simpl; [eauto|]. destruct (H x) as [o ->]; [set_solver|]. simpl.
  destruct IH as [k ->]; [set_solver|]. simpl. eauto.
Qed.

(** ** Databases *)

Abbreviation database := (gmap string Relation).
Definition holds (db : database) : interp := fun q t => exists rel, db !! q = Some rel /\ t ∈ facts rel.

(** A relation of the given arity, without bools. *)
Record wf_rel (n : nat) (rel : Relation) : Prop := {
  wf_arity : r_arity rel = n;
  wf_name : starts_with_char islower (r_name rel) = true;
  wf_nodup : NoDup (facts rel);
  wf_facts : forall f, f ∈ facts rel -> length f = n /\ plain_fact f
}.
(** Every relation is well formed, with the arity of the table [m] if it has one there. *)
Definition wf_db (m : gmap string nat) (db : database) : Prop :=
  forall q rel, db !! q = Some rel -> wf_rel (default (r_arity rel) (m !! q)) rel.

Definition atom_ok (m : gmap string nat) (a : Atom) : Prop :=
  m !! predicate a = Some (arity a) /\ plain_terms (args a).

Lemma holds_wf m db a f : wf_db m db -> atom_ok m a -> holds db (predicate a) f -> length f = arity a /\ plain_fact f.
Proof. intros Hdb [Ha _] (rel & Hr & Hf). specialize (Hdb _ _ Hr). rewrite Ha in Hdb. by apply Hdb. Qed.

Lemma elem_of_bound c v σ ts :
  (c, v) ∈ bound_columns σ ts <-> exists t, ts !! c = Some t /\ resolve_term σ t = Some v.
Proof.
  unfold bound_columns. rewrite list_elem_of_omap. setoid_rewrite elem_of_lookup_imap. split.
  - intros ([i t] & (j & t' & [= -> ->] & Hj) & Hv). simpl in Hv. destruct (resolve_term σ t') eqn:E; [|done].
    simpl in Hv. simplify_eq. eauto.
  - intros (t & Ht & Hv). exists (c, t). split; [eauto|]. simpl. by rewrite Hv.
Qed.

Lemma key_of_total (b : list (nat * FactValue)) f :
  (forall c v, (c, v) ∈ b -> c < length f) -> exists key, key_of b.*1 f = Ok key.
Proof.
  unfold key_of. induction b as [|[c v] b IH]; intros H; [simpl; eauto|]. rewrite fmap_cons. cbn [map_result fst].
  destruct (lookup_lt_is_Some_2 f c) as [w ->]; [apply (H c v); set_solver|].
  destruct IH as [key Hk]; [intros c' v' ?; apply (H c' v'); set_solver|]. exists (w :: key).
  by cbn [mbind result_bind]; rewrite Hk.
Qed.
Lemma key_of_exact (b : list (nat * FactValue)) f :
  (forall c v, (c, v) ∈ b -> f !! c = Some v) -> key_of b.*1 f = Ok b.*2.
Proof.
  unfold key_of. induction b as [|[c v] b IH]; intros H; [done|]. rewrite !fmap_cons. cbn [map_result fst snd].
  rewrite (H c v) by set_solver. cbn [mbind result_bind]. rewrite IH; [done|]. intros; apply H; set_solver.
Qed.
Lemma bound_lt c v σ ts (f : fact) : length f = length ts -> (c, v) ∈ bound_columns σ ts -> c < length f.
Proof. intros -> (t & Ht & _)%elem_of_bound. by eapply lookup_lt_Some. Qed.
Lemma bound_matches c v (σ τ : subst) ts f :
  σ ⊆ τ -> matches τ ts f -> (c, v) ∈ bound_columns σ ts -> f !! c = Some v.
Proof.
  intros Hs Hm (t & Ht & Hv)%elem_of_bound. apply (resolve_weaken σ τ) in Hv; [|done].
  destruct (Forall2_lookup_l _ _ _ _ _ Hm Ht) as (w & Hw & Htm). rewrite Hw. f_equal.
  destruct t as [x|c']; simpl in *; [|congruence]. destruct (is_anonymous x); [done|]. destruct Htm; congruence.
Qed.

Section Join.
Context (iter : list fact -> list fact) (iter_spec : forall l, iter l ≡ₚ l).

Lemma lookup_total σ ts rel :
  (forall f, f ∈ facts rel -> length f = length ts) ->
  exists l, lookup_columns iter rel (bound_columns σ ts).*1 (bound_columns σ ts).*2 = Ok l.
Proof using iter_spec.
  intros Hf. unfold lookup_columns. destruct ((bound_columns σ ts).*1) as [|c cs] eqn:E; [eauto|]. rewrite <- E.
  destruct (build_index_total (bound_columns σ ts).*1 (iter (facts rel)) []) as [idx ->]; [|simpl; eauto].
  intros f Hin. rewrite iter_spec in Hin. apply key_of_total. intros c' v'. apply bound_lt. by apply Hf.
Qed.
Lemma lookup_sub r cs vs l f : lookup_columns iter r cs vs = Ok l -> f ∈ l -> f ∈ facts r.
Proof using iter_spec.
  unfold lookup_columns. destruct cs as [|c cs]; [intros [= <-]; by rewrite iter_spec|].
  intros (idx & Hi & [= <-])%result_bind_Ok. rewrite (build_index_spec _ _ _ _ _ _ Hi), iter_spec.
  intros [Hf|[Hf _]]; [|done]. unfold index_get in Hf. simpl in Hf. set_solver.
Qed.
Lemma lookup_finds (σ τ : subst) ts rel l f :
  lookup_columns iter rel (bound_columns σ ts).*1 (bound_columns σ ts).*2 = Ok l ->
  σ ⊆ τ -> matches τ ts f -> f ∈ facts rel -> f ∈ l.
Proof using iter_spec.
  intros H Hs Hm Hf. unfold lookup_columns in H. destruct ((bound_columns σ ts).*1) as [|c cs] eqn:E.
  - injection H as <-. by rewrite iter_spec.
  - rewrite <- E in H. apply result_bind_Ok in H as (idx & Hi & [= <-]).
    rewrite (build_index_spec _ _ _ _ _ _ Hi), iter_spec. right. split; [done|]. exists (bound_columns σ ts).*2. split.
    + apply key_of_exact. intros c' v'. by apply bound_matches with τ.
    + by apply tuple_eq_canon.
Qed.

Section Database.
Context (m : gmap string nat) (db : database) (Hdb : wf_db m db).

Lemma atom_facts a rel : atom_ok m a -> db !! predicate a = Some rel -> forall f, f ∈ facts rel -> length f = arity a /\ plain_fact f.
Proof using Hdb. intros Ha Hr f Hf. apply (holds_wf m db); [done|done|]. exists rel. done. Qed.

Lemma join_one_total a rel σ :
  atom_ok m a -> db !! predicate a = Some rel -> exists out, join_one iter a rel σ = Ok out.
Proof using iter_spec Hdb.
  intros Ha Hr. pose proof (atom_facts a rel Ha Hr) as Hf. unfold join_one.
  destruct (lookup_total σ (args a) rel) as [l Hl]; [naive_solver|]. rewrite Hl. simpl.
  apply filter_map_total. intros f Hin. apply match_args_total. simpl. symmetry. eapply Hf, lookup_sub; done.
Qed.
Lemma join_one_sound a rel σ out τ :
  atom_ok m a -> db !! predicate a = Some rel -> plain_subst σ -> join_one iter a rel σ = Ok out -> τ ∈ out ->
  σ ⊆ τ /\ plain_subst τ /\ dom τ = dom σ ∪ named (args a) /\ exists f, f ∈ facts rel /\ matches τ (args a) f.
Proof using iter_spec Hdb.
  intros Ha Hr Hp H Ht. pose proof (atom_facts a rel Ha Hr) as Hf.
  apply result_bind_Ok in H as (l & Hl & H). apply (filter_map_spec _ _ _ _ H) in Ht as (f & Hfl & Hm).
  pose proof (lookup_sub _ _ _ _ _ Hl Hfl) as Hin. destruct (Hf f Hin) as [Hlen Hpf].
  apply match_args_sound in Hm as (? & ? & Hm & ?); [|done|by apply Ha|done|by rewrite Hlen].
  rewrite drop_0 in Hm. eauto 8.
Qed.
Lemma join_one_complete a rel σ τ out f :
  atom_ok m a -> db !! predicate a = Some rel -> join_one iter a rel σ = Ok out ->
  σ ⊆ τ -> f ∈ facts rel -> matches τ (args a) f -> exists ρ, ρ ∈ out /\ ρ ⊆ τ.
Proof using iter_spec Hdb.
  intros Ha Hr H Hs Hin Hm. pose proof (atom_facts a rel Ha Hr) as Hf.
  apply result_bind_Ok in H as (l & Hl & H). destruct (match_args_complete 0 (args a) f σ τ) as (ρ & Hρ & ?).
  - symmetry. by apply Hf.
  - done.
  - by rewrite drop_0.
  - exists ρ. split; [|done]. apply (filter_map_spec _ _ _ _ H). exists f. split; [|done]. by eapply lookup_finds.
Qed.

Lemma join_atoms_total atoms subs : Forall (atom_ok m) atoms -> exists out, join_atoms iter atoms subs db = Ok out.
Proof using iter_spec Hdb.
  intros Ha. revert subs. induction Ha as [|a atoms Ha _ IH]; intros subs; simpl; [eauto|]. unfold join_atom.
  destruct (db !! predicate a) as [rel|] eqn:Er; [|simpl; eauto].
  destruct (concat_result_total (join_one iter a rel) subs) as [k ->]; [intros; by eapply join_one_total|].
  simpl. destruct k; eauto.
Qed.

Lemma join_atoms_sound atoms subs out τ :
  Forall (atom_ok m) atoms -> Forall plain_subst subs -> join_atoms iter atoms subs db = Ok out -> τ ∈ out ->
  exists σ, σ ∈ subs /\ σ ⊆ τ /\ plain_subst τ /\ dom τ = dom σ ∪ ⋃ ((named ∘ args) <$> atoms)
    /\ forall a, a ∈ atoms -> exists f, holds db (predicate a) f /\ matches τ (args a) f.
Proof using iter_spec Hdb.
  intros Ha. revert subs out. induction Ha as [|a atoms Ha _ IH]; intros subs out Hp H Ht; simpl in H.
  - injection H as <-. exists τ. rewrite list.Forall_forall in Hp. split_and!; [done|done|by apply Hp|set_solver|set_solver].
  - apply result_bind_Ok in H as (subs' & Hj & H). unfold join_atom in Hj.
    destruct (db !! predicate a) as [rel|] eqn:Er; [|injection Hj as <-; injection H as <-; set_solver].
    assert (forall ρ, ρ ∈ subs' -> exists σ, σ ∈ subs /\ σ ⊆ ρ /\ plain_subst ρ /\ dom ρ = dom σ ∪ named (args a)
              /\ exists f, f ∈ facts rel /\ matches ρ (args a) f) as Hone.
    { intros ρ Hρ. apply (concat_result_spec _ _ _ _ Hj) in Hρ as (σ & ys & Hσ & Hys & Hin). exists σ. split; [done|].
      eapply join_one_sound; try done. rewrite list.Forall_forall in Hp. by apply Hp. }
    destruct subs' as [|ρ0 subs'']; [injection H as <-; set_solver|].
    destruct (IH _ _ ltac:(apply list.Forall_forall; intros ρ Hρ; by destruct (Hone ρ Hρ) as (? & ? & ? & ? & ?)) H Ht)
      as (ρ & Hρ & Hsub & Hpl & Hd & Hall).
    destruct (Hone ρ Hρ) as (σ & Hσ & Hs & _ & Hd' & f & Hf & Hm). exists σ. split_and!; [done|by etrans|done| |].
    + rewrite Hd, Hd'. cbn [fmap list_fmap union_list foldr]. set_solver.
    + intros b [-> |Hb]%elem_of_cons; [|by apply Hall]. exists f. split; [by exists rel|by eapply matches_weaken].
Qed.

Lemma join_atoms_complete atoms subs out σ τ :
  Forall (atom_ok m) atoms -> join_atoms iter atoms subs db = Ok out -> σ ∈ subs -> σ ⊆ τ ->
  (forall a, a ∈ atoms -> exists f, holds db (predicate a) f /\ matches τ (args a) f) -> exists ρ, ρ ∈ out /\ ρ ⊆ τ.
Proof using iter_spec Hdb.
  intros Ha. revert subs σ out. induction Ha as [|a atoms Ha _ IH]; intros subs σ out H Hσ Hs Hall; simpl in H.
  - injection H as <-. eauto.
  - apply result_bind_Ok in H as (subs' & Hj & H). unfold join_atom in Hj.
    destruct (Hall a) as (f & (rel & Er & Hf) & Hm); [set_solver|]. rewrite Er in Hj.
    destruct (concat_result_total (join_one iter a rel) subs) as [k Hk]; [intros; by eapply join_one_total|].
    destruct (join_one_total a rel σ Ha Er) as [ys Hys].
    destruct (join_one_complete a rel σ τ ys f Ha Er Hys Hs Hf Hm) as (ρ & Hρ & Hρs).
    assert (ρ ∈ subs') as Hin by (apply (concat_result_spec _ _ _ _ Hj); eauto).
    destruct subs' as [|ρ0 subs'']; [set_solver|]. eapply IH; [exact H|exact Hin|done|]. intros; apply Hall; set_solver.
Qed.
End Database.
End Join.

Lemma ground_plain σ ts f : plain_subst σ -> plain_terms ts -> ground_terms σ ts = Some f -> plain_fact f.
Proof.
  intros Hp Hc H. apply mapM_Some in H. induction H as [|t v ts f Ht _ IH]; constructor.
  - destruct t as [x|c]; simpl in Ht; [destruct (is_anonymous x); [done|by eapply Hp]|injection Ht as <-; apply Hc; set_solver].
  - apply IH. intros c Hin. apply Hc. set_solver.
Qed.
Lemma ground_length σ a f : ground_atom a σ = Some f -> length f = arity a.
Proof. intros H. symmetry. by apply length_mapM in H. Qed.

(** ** Helpers and negation *)

Section Rule.
Context (helpers : gmap string HelperFunction).

Lemma last_sub (ts : list Term) t : list.last ts = Some t -> [t] ⊆ ts.
Proof. intros (ts' & ->)%last_Some. set_solver. Qed.
Lemma take_sub {A} n (ts : list A) : take n ts ⊆ ts.
Proof. intros x. apply list.subseteq_take. Qed.

Lemma call_agree (σ τ : subst) reg ts : σ ⊆ τ -> named ts ⊆ dom σ -> call_holds reg ts σ = call_holds reg ts τ.
Proof.
  intros Hs Hd. unfold call_holds. rewrite (ground_terms_agree σ τ ts Hs Hd).
  rewrite (ground_terms_agree σ τ (take _ ts) Hs) by (etrans; [apply named_mono, take_sub|done]).
  destruct (kind reg), (_ ≫= fn reg); try done. destruct (list.last ts) as [t|] eqn:E; [|done].
  rewrite (resolve_agree σ τ t Hs); [done|]. etrans; [by apply named_mono, last_sub|done].
Qed.
Lemma call_helper_spec reg ts σ :
  named ts ⊆ dom σ -> call_helper reg ts σ = if call_holds reg ts σ then [σ] else [].
Proof.
  intros Hd. unfold call_helper, call_holds. destruct (kind reg).
  - by destruct (ground_terms σ ts).
  - destruct (ground_terms σ _) as [vs|]; [|done]. simpl. destruct (fn reg vs); [|done].
    destruct (list.last ts) as [[x|c]|] eqn:E; [| |done]; simpl.
    + destruct (is_anonymous x) eqn:Ex; [done|]. simpl. assert (x ∈ dom σ) as [w ->]%elem_of_dom; [|done].
      apply Hd, elem_of_named. split; [|done]. apply last_sub in E. set_solver.
    + by rewrite py_eq_sym.
Qed.

Lemma bind_filter {A B} (f : A -> list B) (g : B -> bool) (l : list A) (h : A -> B) :
  (forall x, x ∈ l -> f x = if g (h x) then [h x] else []) -> forall y, y ∈ l ≫= f <-> y ∈ h <$> l /\ g y = true.
Proof.
  intros H y. rewrite list_elem_of_bind, list_elem_of_fmap. split.
  - intros (x & Hy & Hx). rewrite (H x Hx) in Hy. destruct (g (h x)) eqn:E; [|set_solver].
    apply list_elem_of_singleton in Hy as ->. eauto.
  - intros [(x & -> & Hx) Hg]. exists x. rewrite (H x Hx), Hg. set_solver.
Qed.

Lemma apply_helpers_spec hs subs out :
  (forall σ h, σ ∈ subs -> h ∈ hs -> named h.2 ⊆ dom σ) -> apply_helpers helpers hs subs = Ok out ->
  forall σ, σ ∈ out <-> σ ∈ subs /\ forall h, h ∈ hs -> helper_holds helpers σ h = true.
Proof.
  revert subs. induction hs as [|[name ts] hs IH]; intros subs Hd H; simpl in H; [injection H as <-; set_solver|].
  destruct (helpers !! name) as [reg|] eqn:Er.
  2: { injection H as <-. intros σ. split; [set_solver|]. intros [_ Hh]. specialize (Hh (name, ts)).
       unfold helper_holds in Hh. simpl in Hh. rewrite Er in Hh. discriminate Hh. set_solver. }
  destruct (negb _); [done|]. assert (forall σ, σ ∈ subs ≫= call_helper reg ts <-> σ ∈ subs /\ call_holds reg ts σ = true) as Hc.
  { intros σ. rewrite (bind_filter _ (call_holds reg ts) subs id); [by rewrite list_fmap_id|].
    intros x Hx. apply call_helper_spec. apply (Hd x (name, ts)); set_solver. }
  assert (match subs ≫= call_helper reg ts with [] => Ok [] | s :: l => apply_helpers helpers hs (s :: l) end = Ok out) as H'.
  { destruct (kind reg), ts; done. }
  clear H. intros σ. transitivity ((σ ∈ subs /\ call_holds reg ts σ = true) /\ forall h, h ∈ hs -> helper_holds helpers σ h = true).
  - rewrite <- Hc. destruct (subs ≫= call_helper reg ts) as [|s l] eqn:Es; [injection H' as <-; set_solver|].
    apply (IH _); [|done]. intros ρ h Hρ Hh. apply (Hd ρ h); [|set_solver]. apply Hc in Hρ. by destruct Hρ.
  - assert (helper_holds helpers σ (name, ts) = call_holds reg ts σ) as Hn by (unfold helper_holds; simpl; by rewrite Er).
    setoid_rewrite elem_of_cons. split.
    + intros [[? ?] ?]. split; [done|]. intros h [-> |?]; [congruence|auto].
    + intros [? Hh]. split_and!; [done| |auto]. rewrite <- Hn. auto.
Qed.

(** A call has as many arguments as its helper. *)
Definition helper_ok (h : string * list Term) : Prop :=
  exists reg, helpers !! h.1 = Some reg /\ length h.2 = h_arity reg.
(** A function helper has an argument for its result. *)
Definition registry_ok : Prop := forall name reg, helpers !! name = Some reg -> kind reg = Function -> h_arity reg <> 0.

Lemma apply_helpers_outcome hs subs :
  registry_ok -> apply_helpers helpers hs subs = Err EvaluationError \/ exists out, apply_helpers helpers hs subs = Ok out.
Proof.
  intros Hreg. revert subs. induction hs as [|[name ts] hs IH]; intros subs; simpl; [eauto|].
  destruct (helpers !! name) as [reg|] eqn:Er; [|eauto]. destruct (length ts =? h_arity reg) eqn:El; simpl; [|auto].
  apply Nat.eqb_eq in El. specialize (Hreg _ _ Er).
  destruct (kind reg), ts; simpl in *; try (destruct (subs ≫= _); eauto). exfalso. by apply Hreg.
Qed.
Lemma apply_helpers_total hs subs :
  registry_ok -> Forall helper_ok hs -> exists out, apply_helpers helpers hs subs = Ok out.
Proof.
  intros Hreg Hok. revert subs. induction Hok as [|[name ts] hs (reg & Er & El) _ IH]; intros subs; simpl; [eauto|].
  simpl in *. rewrite Er. rewrite (proj2 (Nat.eqb_eq _ _) El). simpl. specialize (Hreg _ _ Er).
  destruct (kind reg), ts; simpl in *; try (destruct (subs ≫= _); eauto). exfalso. by apply Hreg.
Qed.

(** ** Rules *)

Definition rule_ok (m : gmap string nat) (r : Rule) : Prop :=
  atom_ok m (head r) /\ Forall (atom_ok m) (body_positive_atoms r) /\ Forall (atom_ok m) (body_negated_atoms r).

Definition bound_by (r : Rule) : gset string := ⋃ ((named ∘ args) <$> body_positive_atoms r).
Lemma elem_of_bound_by r x : x ∈ bound_by r <-> x ∈ positive_vars r.
Proof.
  unfold bound_by, positive_vars. rewrite elem_of_union_list, list_elem_of_In, filter_In, <- list_elem_of_In, list_elem_of_bind.
  setoid_rewrite list_elem_of_fmap. split.
  - intros (X & (a & -> & Ha) & Hx). simpl in Hx. unfold named in Hx.
    rewrite elem_of_list_to_set, list_elem_of_In, filter_In, <- list_elem_of_In in Hx. destruct Hx. eauto.
  - intros [(a & Hx & Ha) Hn]. exists (named (args a)). split; [eauto|]. unfold named.
    rewrite elem_of_list_to_set, list_elem_of_In, filter_In, <- list_elem_of_In. done.
Qed.
Lemma bound_in_named r ts : forallb (bound_in (positive_vars r)) (term_variables ts) = true -> named ts ⊆ bound_by r.
Proof.
  rewrite forallb_forall. setoid_rewrite <- list_elem_of_In. intros H x [Hx Hn]%elem_of_named.
  assert (x ∈ term_variables ts) as Hv by (unfold term_variables; apply list_elem_of_omap; by exists (Var x)).
  specialize (H x Hv). unfold bound_in in H. rewrite Hn in H. apply bool_decide_eq_true in H. by apply elem_of_bound_by.
Qed.
Lemma safe_vars r :
  safe_rule r = true ->
  named (args (head r)) ⊆ bound_by r
  /\ (forall a, a ∈ body_negated_atoms r -> named (args a) ⊆ bound_by r)
  /\ (forall h, h ∈ body_helpers r -> named h.2 ⊆ bound_by r).
Proof.
  unfold safe_rule. rewrite !andb_true_iff. intros [[Hh Hn] Hf]. split_and!.
  - apply bound_in_named. rewrite forallb_forall in *. intros x Hx. unfold bound_in. specialize (Hh x Hx).
    apply andb_true_iff in Hh as [_ ->]. apply orb_true_r.
  - intros a Ha. apply bound_in_named. rewrite forallb_forall in Hn. by apply Hn, list_elem_of_In.
  - intros h Hh'. apply bound_in_named. rewrite forallb_forall in Hf. by apply Hf, list_elem_of_In.
Qed.

Section Database.
Context (m : gmap string nat) (db : database) (Hdb : wf_db m db).

Lemma passes_spec σ a :
  plain_subst σ -> atom_ok m a ->
  passes_negated db σ a = true <-> exists f, ground_atom a σ = Some f /\ ~ holds db (predicate a) f.
Proof using Hdb.
  intros Hp Ha. unfold passes_negated. destruct (ground_atom a σ) as [f|] eqn:E; [|naive_solver].
  assert (plain_fact f) as Hf by (eapply ground_plain; [done|apply Ha|done]).
  destruct (db !! predicate a) as [rel|] eqn:Er.
  - rewrite negb_true_iff, <- not_true_iff_false, mem_plain; [|done|].
    + split; [intros Hn; exists f; split; [done|]; by intros (rel' & ? & ?); simplify_eq|].
      intros (f' & ? & Hn) Hin. simplify_eq. apply Hn. by exists rel.
    + apply list.Forall_forall. intros g Hg. by apply (atom_facts m db Hdb a rel Ha Er).
  - split; [|done]. intros _. exists f. split; [done|]. by intros (rel & ? & _); simplify_eq.
Qed.

Context (iter : list fact -> list fact) (iter_spec : forall l, iter l ≡ₚ l).

Lemma derive_spec r ts :
  rule_ok m r -> safe_rule r = true -> derive iter helpers r db = Ok ts ->
  forall t, t ∈ ts <-> fires helpers (holds db) (holds db) r t.
Proof using iter_spec Hdb.
  intros (Hhead & Hpos & Hneg) (Sh & Sn & Sf)%safe_vars H t. unfold derive in H.
  apply result_bind_Ok in H as (subs & Hj & H).
  assert (forall σ, σ ∈ subs -> plain_subst σ /\ dom σ = bound_by r
            /\ forall a, a ∈ body_positive_atoms r -> exists f, holds db (predicate a) f /\ matches σ (args a) f) as Hsub.
  { intros σ Hσ. assert (Forall plain_subst [∅]) as H0 by (apply list.Forall_singleton; intros x v; by rewrite lookup_empty).
    destruct (join_atoms_sound iter iter_spec m db Hdb _ _ _ σ Hpos H0 Hj Hσ) as (σ0 & Hσ0 & _ & Hp & Hd & Hall).
    apply list_elem_of_singleton in Hσ0 as ->. rewrite dom_empty_L, union_empty_l_L in Hd. done. }
  assert (forall τ, (forall a, a ∈ body_positive_atoms r -> exists f, holds db (predicate a) f /\ matches τ (args a) f) ->
            exists ρ, ρ ∈ subs /\ ρ ⊆ τ) as Hcomp.
  { intros τ Hall. apply (join_atoms_complete iter iter_spec m db Hdb _ _ _ ∅ τ Hpos Hj); [set_solver|apply map_empty_subseteq|done]. }
  assert (exists subs', (forall σ, σ ∈ subs' <-> σ ∈ subs /\ forall h, h ∈ body_helpers r -> helper_holds helpers σ h = true)
            /\ ts = omap (ground_atom (head r)) (filter_negated (body_negated_atoms r) subs' db)) as (subs' & Hs' & ->).
  { destruct subs as [|s subs]; [injection H as <-; exists []; split; [set_solver|done]|].
    apply result_bind_Ok in H as (subs' & Ha & [= <-]). exists subs'. split; [|done].
    eapply apply_helpers_spec; [|done]. intros σ h Hσ Hh. destruct (Hsub σ Hσ) as (_ & -> & _). by apply Sf. }
  clear H. rewrite list_elem_of_omap. split.
  - intros (σ & Hσ & Ht). unfold filter_negated in Hσ. apply list_elem_of_In, filter_In in Hσ as [Hσ Hf].
    apply list_elem_of_In, Hs' in Hσ as [Hσ Hh]. destruct (Hsub σ Hσ) as (Hp & Hd & Hall).
    exists σ. split_and!; [done|done| |done]. intros a Ha. apply passes_spec; [done|by eapply list.Forall_forall|].
    rewrite forallb_forall in Hf. by apply Hf, list_elem_of_In.
  - intros (τ & Hall & Hh & Hn & Ht). destruct (Hcomp τ Hall) as (ρ & Hρ & Hs). destruct (Hsub ρ Hρ) as (Hp & Hd & _).
    exists ρ. split; [|rewrite (ground_agree ρ τ); [done|done|by rewrite Hd]].
    apply list_elem_of_In, filter_In. split.
    + apply list_elem_of_In, Hs'. split; [done|]. intros h Hin. specialize (Hh h Hin). unfold helper_holds in *.
      destruct (helpers !! h.1); [|done]. rewrite (call_agree ρ τ); [done|done|rewrite Hd; by apply Sf].
    + apply forallb_forall. intros a Ha%list_elem_of_In. apply passes_spec; [done|by eapply list.Forall_forall|].
      destruct (Hn a Ha) as (f & Hf & ?). exists f. split; [|done].
      rewrite (ground_agree ρ τ); [done|done|rewrite Hd; by apply Sn].
Qed.

Lemma derive_outcome r :
  registry_ok -> rule_ok m r -> derive iter helpers r db = Err EvaluationError \/ exists ts, derive iter helpers r db = Ok ts.
Proof using iter_spec Hdb.
  intros Hreg (_ & Hpos & _). unfold derive.
  destruct (join_atoms_total iter iter_spec m db Hdb (body_positive_atoms r) [∅] Hpos) as [subs ->]. simpl.
  destruct subs as [|s subs]; [eauto|].
  destruct (apply_helpers_outcome (body_helpers r) (s :: subs) Hreg) as [-> |[out ->]]; simpl; eauto.
Qed.
Lemma derive_total r :
  registry_ok -> rule_ok m r -> Forall helper_ok (body_helpers r) -> exists ts, derive iter helpers r db = Ok ts.
Proof using iter_spec Hdb.
  intros Hreg (_ & Hpos & _) Hok. unfold derive.
  destruct (join_atoms_total iter iter_spec m db Hdb (body_positive_atoms r) [∅] Hpos) as [subs ->]. simpl.
  destruct subs as [|s subs]; [eauto|].
  destruct (apply_helpers_total (body_helpers r) (s :: subs) Hreg Hok) as [out ->]; simpl; eauto.
Qed.
End Database.
End Rule.
End PcasJoin.
