(* ===== verification/PcasFixpoint.v ===== *)
(** * PCAS policies: the fixpoint

    The evaluator's closure is the stable model of the policy over the extensional
    facts. *)
From S2P Require Import Prelude PyStr PcasLang PcasStratify PcasStratifySpec PcasEval PcasJoin.
Import PcasAst PcasStratify PcasStratifySpec PcasEval PcasModel PcasJoin.
Open Scope string_scope.
Open Scope list_scope.
Open Scope nat_scope.

Module PcasFixpoint.

(** ** Sets and relations *)

Lemma set_add_fold l fs :
  Forall (fun f => plain_fact f) l -> Forall (fun f => plain_fact f) fs ->
  (NoDup l -> NoDup (foldl set_add l fs)) /\ forall f, f ∈ foldl set_add l fs <-> f ∈ l \/ f ∈ fs.
Proof.
  intros Hl Hfs. revert l Hl. induction Hfs as [|g fs Hg _ IH]; intros l Hl; simpl; [set_solver|].
  assert (mem g l = true <-> g ∈ l) as Hm by (by apply mem_plain).
  unfold set_add at 2 4. destruct (mem g l).
  - destruct (IH l Hl) as [? H]. split; [done|]. intros f. rewrite H, elem_of_cons. naive_solver.
  - destruct (IH (l ++ [g])) as [H1 H2]; [by apply list.Forall_app; split; [|constructor]|]. split.
    + intros Hn. apply H1. apply list.NoDup_app. split_and!; [done| |apply NoDup_singleton].
      intros x Hx ->%list_elem_of_singleton. by apply Hm in Hx.
    + intros f. rewrite H2, elem_of_app, list_elem_of_singleton, elem_of_cons. naive_solver.
Qed.

(** Facts that fit a relation of arity [n]. *)
Definition fits (n : nat) (fs : list fact) : Prop := forall f, f ∈ fs -> length f = n /\ plain_fact f.
Lemma fits_plain n fs : fits n fs -> Forall (fun f => plain_fact f) fs.
Proof. intros H. apply list.Forall_forall. intros f Hf. by apply H. Qed.

Lemma with_facts_spec n rel fs :
  wf_rel n rel -> fits n fs ->
  exists rel', with_facts rel fs = Ok rel' /\ wf_rel n rel' /\ forall f, f ∈ facts rel' <-> f ∈ facts rel \/ f ∈ fs.
Proof.
  intros [Ha Hname Hn Hf] Hfs. unfold with_facts, new_relation. rewrite Hname. simpl.
  destruct (set_add_fold (facts rel) fs) as [H1 H2]; [by eapply fits_plain|by eapply fits_plain|].
  assert (fits n (foldl set_add (facts rel) fs)) as Hfit by (intros f [?|?]%H2; [by apply Hf|by apply Hfs]).
  destruct (set_add_fold [] (foldl set_add (facts rel) fs)) as [H3 H4]; [done|by eapply fits_plain|].
  rewrite (proj2 (forallb_forall _ _)).
  - eexists. split; [done|]. split; [split; simpl|]; [done|done|apply H3; constructor| |].
    + intros f. rewrite H4. intros [?%not_elem_of_nil|?]; [done|]. by apply Hfit.
    + intros f. simpl. rewrite H4, H2. set_solver.
  - intros f Hin. apply Nat.eqb_eq. rewrite Ha. by apply Hfit, list_elem_of_In.
Qed.

Lemma decide_holds (db : database) q f : Decision (holds db q f).
Proof.
  unfold holds. destruct (db !! q) as [rel|]; [|right; by intros (? & ? & _)].
  destruct (decide (f ∈ facts rel)); [left; eauto|right]. by intros (? & [= <-] & ?).
Qed.

(** ** One round *)

Definition arity_of (db : database) (q : string) : option nat := r_arity <$> db !! q.
Definition in_new (q : string) (f : fact) (new : list (string * list fact)) : Prop := exists b, (q, b) ∈ new /\ f ∈ b.
Definition new_ok (s : string -> option nat) (new : list (string * list fact)) : Prop :=
  forall q b, (q, b) ∈ new -> exists n, s q = Some n /\ fits n b.

Lemma wf_lookup m db q rel : wf_db m db -> db !! q = Some rel -> wf_rel (r_arity rel) rel.
Proof. intros Hdb Hr. specialize (Hdb _ _ Hr). by rewrite (wf_arity _ _ Hdb) at 1. Qed.

Lemma in_new_cons q f q' b new : in_new q f ((q', b) :: new) <-> (q = q' /\ f ∈ b) \/ in_new q f new.
Proof.
  unfold in_new. setoid_rewrite elem_of_cons. split.
  - intros (b' & [[= -> ->]|?] & ?); eauto.
  - intros [[-> ?]|(b' & ? & ?)]; eauto.
Qed.

Lemma bucket_update_spec s q n fs new :
  s q = Some n -> fits n fs -> new_ok s new ->
  new_ok s (bucket_update q fs new)
  /\ forall q' f, in_new q' f (bucket_update q fs new) <-> in_new q' f new \/ (q' = q /\ f ∈ fs).
Proof.
  intros Hs Hfit. assert (forall b, fits n b -> forall f, f ∈ foldl set_add b fs <-> f ∈ b \/ f ∈ fs) as Hfold.
  { intros b Hb. eapply set_add_fold; by eapply fits_plain. }
  induction new as [|[q' b] new IH]; intros Hok; simpl.
  - specialize (Hfold [] ltac:(intros f ?%not_elem_of_nil; done)). split.
    + intros q' b [= -> ->]%list_elem_of_singleton. exists n. split; [done|]. intros f. rewrite Hfold.
      intros [?%not_elem_of_nil|?]; [done|]. by apply Hfit.
    + intros q' f. rewrite in_new_cons, Hfold. unfold in_new. set_solver.
  - assert (new_ok s new) as Hok' by (intros ? ? ?; eapply Hok; by right).
    destruct (Hok q' b) as (n' & Hs' & Hb); [by left|]. destruct (String.eqb_spec q' q) as [-> |Hne].
    + assert (n' = n) as -> by congruence. specialize (Hfold b Hb). split.
      * intros q' c [[= -> ->]|Hin]%elem_of_cons; [|by apply Hok']. exists n. split; [done|].
        intros f. rewrite Hfold. intros [?|?]; [by apply Hb|by apply Hfit].
      * intros q' f. rewrite !in_new_cons, Hfold. tauto.
    + destruct (IH Hok') as [I1 I2]. split.
      * intros q'' c [[= -> ->]|Hin]%elem_of_cons; [eauto|by apply I1].
      * intros q'' f. rewrite !in_new_cons, I2. tauto.
Qed.

Lemma commit_spec m db new :
  wf_db m db -> new_ok (arity_of db) new ->
  exists db', commit new db = Ok db' /\ wf_db m db' /\ (forall q, arity_of db' q = arity_of db q)
    /\ forall q f, holds db' q f <-> holds db q f \/ in_new q f new.
Proof.
  revert db. induction new as [|[q fs] new IH]; intros db Hdb Hok; simpl.
  - exists db. split_and!; [done|done|done|]. unfold in_new. set_solver.
  - assert (new_ok (arity_of db) new) as Hok' by (intros ? ? ?; eapply Hok; by right).
    destruct (Hok q fs) as (n & Hn & Hfit); [by left|].
    destruct fs as [|f0 fs]; [|remember (f0 :: fs) as fs' eqn:E; clear E].
    + destruct (IH db Hdb Hok') as (db' & ? & ? & ? & H). exists db'. split_and!; [done..|].
      intros q' f. rewrite H, in_new_cons. set_solver.
    + unfold arity_of in Hn. destruct (db !! q) as [rel|] eqn:Er; [|done]. injection Hn as Hn.
      pose proof (Hdb _ _ Er) as Hwf. pose proof (wf_arity _ _ Hwf) as Har. rewrite <- Har, Hn in Hwf.
      destruct (with_facts_spec n rel fs' Hwf Hfit) as (rel' & -> & Hwf' & Hin). simpl.
      pose proof (wf_arity _ _ Hwf') as Har'.
      destruct (IH (<[q := rel']> db)) as (db' & -> & Hdb' & Har'' & H).
      * intros q' rel''. rewrite lookup_insert_Some. intros [[<- <-]|[? ?]]; [|by apply Hdb].
        rewrite Har', <- Hn, <- Har, Hn. done.
      * intros q' b Hb. destruct (Hok' q' b Hb) as (n' & Hn' & ?). exists n'. split; [|done].
        unfold arity_of in *. destruct (decide (q = q')) as [<- |]; [|by rewrite lookup_insert_ne].
        rewrite lookup_insert_eq. rewrite Er in Hn'. simpl in *. congruence.
      * exists db'. split_and!; [done|done| |].
        -- intros q'. rewrite Har''. unfold arity_of. destruct (decide (q = q')) as [<- |]; [|by rewrite lookup_insert_ne].
           rewrite lookup_insert_eq, Er. simpl. congruence.
        -- intros q' f. rewrite H, in_new_cons. unfold holds at 1. destruct (decide (q = q')) as [<- |Hne].
           ++ rewrite lookup_insert_eq. unfold holds. rewrite Er. split.
              ** intros [(? & [= <-] & [?|?]%Hin)|?]; eauto 6.
              ** intros [(? & [= <-] & ?)|[[_ ?]|?]]; [left; exists rel'; rewrite Hin; auto..|auto].
           ++ rewrite lookup_insert_ne by done. fold (holds db q' f). naive_solver.
Qed.

(** Values of derived facts come from the facts used and the constants of the head. *)
Lemma fires_values (P : FactValue -> Prop) helpers N (I : interp) r t :
  safe_rule r = true -> (forall a f, a ∈ body_positive_atoms r -> I (predicate a) f -> Forall P f) ->
  (forall v, Constant v ∈ args (head r) -> P v) -> fires helpers N I r t -> Forall P t /\ length t = arity (head r).
Proof.
  intros (Sh & _ & _)%safe_vars HI Hc (σ & Hpos & _ & _ & Ht). split; [|by eapply ground_length].
  assert (forall x v, x ∈ bound_by r -> σ !! x = Some v -> P v) as Hσ.
  { intros x v (X & (a & -> & Ha)%list_elem_of_fmap & [Hx Hn]%elem_of_named)%elem_of_union_list Hv.
    destruct (Hpos a Ha) as (f & Hf & Hm). apply list_elem_of_lookup in Hx as [i Hi].
    destruct (Forall2_lookup_l _ _ _ _ _ Hm Hi) as (w & Hw & [Hm'|Hm']); [congruence|].
    assert (w = v) as -> by congruence. specialize (HI a f Ha Hf). rewrite list.Forall_forall in HI.
    apply HI. by eapply list_elem_of_lookup_2. }
  apply mapM_Some in Ht. apply list.Forall_forall. intros v [i Hi]%list_elem_of_lookup.
  destruct (Forall2_lookup_r _ _ _ _ _ Ht Hi) as (u & Hu & Hv). apply list_elem_of_lookup_2 in Hu.
  destruct u as [x|c]; simpl in Hv; [|injection Hv as <-; by apply Hc].
  destruct (is_anonymous x) eqn:Ex; [done|]. apply (Hσ x); [|done]. by apply Sh, elem_of_named.
Qed.

Section Rounds.
Context (iter : list fact -> list fact) (iter_spec : forall l, iter l ≡ₚ l).
Context (helpers : gmap string HelperFunction) (m : gmap string nat).

(** The table's predicates have relations. *)
Definition covers (s : string -> option nat) : Prop := forall q n, m !! q = Some n -> s q = Some n.
Definition rules_ok (rs : list Rule) : Prop := forall r, r ∈ rs -> rule_ok m r /\ safe_rule r = true.

Lemma fires_fits db r f :
  wf_db m db -> rule_ok m r -> safe_rule r = true -> fires helpers (holds db) (holds db) r f ->
  length f = arity (head r) /\ plain_fact f.
Proof using.
  intros Hdb (Hh & Hp & _) Hs Hf. apply (fires_values plain) in Hf as [? ?]; [done|done| |].
  - intros a g Ha Hg. eapply holds_wf; [done| |done]. by eapply list.Forall_forall in Hp.
  - intros v Hv. by apply Hh.
Qed.

(** What rule [r] adds to [db]. *)
Definition adds (db : database) (r : Rule) (q : string) (f : fact) : Prop :=
  is_fact r = false /\ predicate (head r) = q /\ fires helpers (holds db) (holds db) r f /\ ~ holds db q f.

Section Database.
Context (db : database) (Hdb : wf_db m db) (Hcov : covers (arity_of db)).

Lemma fresh_spec r rel ts :
  rule_ok m r -> safe_rule r = true -> is_fact r = false -> derive iter helpers r db = Ok ts ->
  db !! predicate (head r) = Some rel ->
  forall f, f ∈ List.filter (fun f => negb (mem f (facts rel))) ts <-> adds db r (predicate (head r)) f.
Proof using iter_spec Hdb.
  intros Hr Hs Hf Hd Er f. rewrite list_elem_of_In, filter_In, <- list_elem_of_In.
  rewrite (derive_spec helpers m db Hdb iter iter_spec r ts Hr Hs Hd). unfold adds.
  assert (fires helpers (holds db) (holds db) r f -> mem f (facts rel) = true <-> holds db (predicate (head r)) f) as Hm.
  { intros Hfire. rewrite mem_plain.
    - unfold holds. rewrite Er. split; [eauto|by intros (? & [= <-] & ?)].
    - by apply (fires_fits db r).
    - apply list.Forall_forall. intros g Hg. by apply (atom_facts m db Hdb (head r) rel (proj1 Hr) Er). }
  rewrite negb_true_iff, <- not_true_iff_false. tauto.
Qed.

Lemma collect_rule r rs new new' :
  rule_ok m r -> safe_rule r = true -> new_ok (arity_of db) new -> collect iter helpers (r :: rs) db new = Ok new' ->
  exists new1, collect iter helpers rs db new1 = Ok new' /\ new_ok (arity_of db) new1
    /\ forall q f, in_new q f new1 <-> in_new q f new \/ adds db r q f.
Proof using iter_spec Hdb Hcov.
  intros Hr Hs Hnew H. cbn [collect] in H.
  assert ((forall q f, ~ adds db r q f) -> collect iter helpers rs db new = Ok new' ->
          exists new1, collect iter helpers rs db new1 = Ok new' /\ new_ok (arity_of db) new1
            /\ forall q f, in_new q f new1 <-> in_new q f new \/ adds db r q f) as Hsame.
  { intros Hno ?. exists new. split_and!; [done|done|]. intros q f. specialize (Hno q f). tauto. }
  destruct (is_fact r) eqn:Ef; [apply Hsame; [intros q f (? & _); congruence|done]|].
  apply result_bind_Ok in H as (ts & Hd & H).
  pose proof (derive_spec helpers m db Hdb iter iter_spec r ts Hr Hs Hd) as Hts.
  destruct ts as [|t0 ts0] eqn:Ets.
  { apply Hsame; [|done]. intros q f (_ & _ & Hf%Hts & _). by apply not_elem_of_nil in Hf. }
  rewrite <- Ets in *. clear Ets. destruct (db !! predicate (head r)) as [rel|] eqn:Er; [|done].
  pose proof (fresh_spec r rel ts Hr Hs Ef Hd Er) as Hadd.
  destruct (List.filter _ ts) as [|a as_] eqn:Eas.
  { apply Hsame; [|done]. intros q f Ha. assert (predicate (head r) = q) as <- by apply Ha.
    apply Hadd in Ha. by apply not_elem_of_nil in Ha. }
  rewrite <- Eas in *. eexists. split; [exact H|]. clear H.
  destruct (bucket_update_spec (arity_of db) (predicate (head r)) (arity (head r)) (a :: as_) new) as [B1 B2].
  - by apply Hcov, Hr.
  - rewrite <- Eas. intros f (_ & _ & Hf & _)%Hadd. by apply (fires_fits db r).
  - done.
  - rewrite Eas. split; [done|]. intros q f. rewrite B2, <- Eas, Hadd. apply or_iff_compat_l.
    split; [by intros [-> ?]|]. intros Ha. assert (predicate (head r) = q) as <- by apply Ha. done.
Qed.

Lemma collect_spec rs new new' :
  rules_ok rs -> new_ok (arity_of db) new -> collect iter helpers rs db new = Ok new' ->
  new_ok (arity_of db) new'
  /\ forall q f, in_new q f new' <-> in_new q f new \/ exists r, r ∈ rs /\ adds db r q f.
Proof using iter_spec Hdb Hcov.
  revert new. induction rs as [|r rs IH]; intros new Hrs Hnew H.
  - injection H as <-. split; [done|]. set_solver.
  - destruct (Hrs r) as [Hr Hs]; [by left|].
    destruct (collect_rule r rs new new' Hr Hs Hnew H) as (new1 & H1 & Hok1 & Hin1).
    destruct (IH new1) as [? Hin]; [intros ? ?; apply Hrs; by right|done|done|]. split; [done|].
    intros q f. rewrite Hin, Hin1. setoid_rewrite elem_of_cons. split.
    + intros [[?|?]|(r' & ? & ?)]; eauto.
    + intros [?|(r' & [-> |?] & ?)]; eauto.
Qed.
End Database.

(** ** A stratum *)

(** What evaluating the rules [rs] of a stratum does to a database. *)
Record stratum_run (rs : list Rule) (db db' : database) : Prop := {
  run_wf : wf_db m db';
  run_arity : forall q, arity_of db' q = arity_of db q;
  run_grows : forall q f, holds db q f -> holds db' q f;
  run_only : forall q f, (forall r, r ∈ rs -> predicate (head r) <> q) -> holds db' q f -> holds db q f;
  run_closed : forall r f, r ∈ rs -> is_fact r = false ->
    fires helpers (holds db') (holds db') r f -> holds db' (predicate (head r)) f;
  run_least : forall N I : interp,
    (forall q f, holds db q f -> I q f) ->
    (forall r f, r ∈ rs -> fires helpers N I r f -> I (predicate (head r)) f) ->
    (forall r a f, r ∈ rs -> a ∈ body_negated_atoms r -> N (predicate a) f -> holds db (predicate a) f) ->
    forall q f, holds db' q f -> I q f
}.

Lemma any_added new :
  existsb (fun b : string * list fact => match b.2 with [] => false | _ => true end) new = true <-> exists q f, in_new q f new.
Proof using.
  rewrite existsb_exists. setoid_rewrite <- list_elem_of_In. unfold in_new. split.
  - intros ([q [|f b]] & Hin & ?); [done|]. exists q, f, (f :: b). split; [done|by left].
  - intros (q & f & b & Hin & Hf). exists (q, b). split; [done|]. destruct b; [by apply not_elem_of_nil in Hf|done].
Qed.

(** One round either adds nothing or continues from a larger database. *)
Lemma rounds_step fuel rs db db' :
  wf_db m db -> covers (arity_of db) -> rules_ok rs -> evaluate_rounds iter helpers (S fuel) rs db = Ok db' ->
  (db' = db /\ forall r q f, r ∈ rs -> ~ adds db r q f)
  \/ exists db1, evaluate_rounds iter helpers fuel rs db1 = Ok db' /\ wf_db m db1
       /\ (forall q, arity_of db1 q = arity_of db q)
       /\ forall q f, holds db1 q f <-> holds db q f \/ exists r, r ∈ rs /\ adds db r q f.
Proof using iter_spec.
  intros Hdb Hcov Hrs H. cbn [evaluate_rounds] in H. apply result_bind_Ok in H as (new & Hc & H).
  assert (forall q f, ~ in_new q f []) as Hnil by (intros q f (b & ?%not_elem_of_nil & _); done).
  destruct (collect_spec db Hdb Hcov rs [] new Hrs) as [Hok Hin]; [intros q b ?%not_elem_of_nil; done|done|].
  pose proof (any_added new) as Hany. destruct (existsb _ new).
  - right. apply result_bind_Ok in H as (db1 & Hcm & H).
    destruct (commit_spec m db new Hdb Hok) as (db1' & Hcm' & ? & ? & Hh). assert (db1' = db1) as -> by congruence. exists db1. split_and!; [done..|].
    intros q f. rewrite Hh, Hin. specialize (Hnil q f). tauto.
  - left. injection H as <-. split; [done|]. intros r q f Hr Ha. enough (false = true) by done.
    apply Hany. exists q, f. apply Hin. eauto.
Qed.

Lemma rounds_spec fuel rs db db' :
  wf_db m db -> covers (arity_of db) -> rules_ok rs -> evaluate_rounds iter helpers fuel rs db = Ok db' ->
  stratum_run rs db db'.
Proof using iter_spec.
  revert db. induction fuel as [|fuel IH]; intros db Hdb Hcov Hrs H; [done|].
  destruct (rounds_step fuel rs db db' Hdb Hcov Hrs H) as [[-> Hno]|(db1 & H1 & Hwf & Har & Hh)].
  - split; auto. intros r f Hr Hf Hfire. destruct (decide_holds db (predicate (head r)) f) as [?|Hn]; [done|].
    exfalso. apply (Hno r (predicate (head r)) f Hr). done.
  - destruct (IH db1 Hwf) as [I1 I2 I3 I4 I5 I6]; [by intros q n Hq; rewrite Har; apply Hcov|done|done|]. split.
    + done.
    + intros q. by rewrite I2.
    + intros q f Hf. apply I3, Hh. by left.
    + intros q f Hq Hf. apply I4 in Hf; [|done]. apply Hh in Hf as [?|(r & Hr & Ha)]; [done|].
      exfalso. apply (Hq r Hr), Ha.
    + done.
    + intros N I HI HR HN. assert (forall q f, holds db1 q f -> I q f) as HI1.
      { intros q f [?|(r & Hr & _ & <- & Hf & _)]%Hh; [auto|]. apply (HR r f Hr).
        eapply fires_mono; [| |exact Hf]; [intros; by apply HI|intros; by eapply HN]. }
      apply (I6 N I HI1 HR). intros r a f Hr Ha HNf. apply Hh. left. by eapply HN.
Qed.
End Rounds.

(** ** The strata in order *)

(** What a rule of a stratum uses is not defined later, what it negates not from here on. *)
Fixpoint ordered (ss : list Stratum) : Prop :=
  match ss with
  | [] => True
  | s :: rest =>
      (forall r, r ∈ s_rules s ->
         predicate (head r) ∈ s_predicates s
         /\ (forall s', s' ∈ rest -> predicate (head r) ∉ s_predicates s')
         /\ (forall a s', a ∈ body_positive_atoms r -> s' ∈ rest -> predicate a ∉ s_predicates s')
         /\ (forall a s', a ∈ body_negated_atoms r -> s' ∈ s :: rest -> predicate a ∉ s_predicates s'))
      /\ ordered rest
  end.

Lemma later_stratum p ss i j q s s' x :
  stratification p ss -> ss !! i = Some s -> x ∈ s_predicates s -> i <= j -> s' ∈ drop (S j) ss -> q = x -> q ∉ s_predicates s'.
Proof.
  intros Hs Hi Hx Hij [k Hk]%list_elem_of_lookup -> Hx'. rewrite lookup_drop in Hk.
  pose proof (st_disjoint _ _ Hs _ _ _ _ _ Hi Hk Hx Hx'). lia.
Qed.
Lemma strata_ordered p ss : stratification p ss -> ordered ss.
Proof.
  intros Hs. enough (forall n i, n + i = length ss -> ordered (drop i ss)) as H by (by apply (H (length ss) 0); lia).
  induction n as [|n IH]; intros i Hi; [by rewrite drop_ge by lia|].
  destruct (lookup_lt_is_Some_2 ss i) as [s Hsi]; [lia|]. rewrite (drop_S _ _ _ Hsi). split; [|apply IH; lia].
  assert (s ∈ ss) as Hin by (by eapply list_elem_of_lookup_2). intros r Hr. apply (st_rules _ _ Hs s r Hin) in Hr as [Hr Hh].
  split_and!; [done| | |].
  - intros s' Hs'. eapply later_stratum; [exact Hs|exact Hsi|exact Hh| |exact Hs'|done]. lia.
  - intros a s' Ha Hs'. destruct (st_pos _ _ Hs i s _ (predicate a) Hsi Hh) as (j & s'' & Hj & Hs'' & Hx); [by exists r; eauto 6|].
    eapply later_stratum; [exact Hs|exact Hs''|exact Hx|exact Hj|exact Hs'|done].
  - intros a s' Ha Hs'. destruct (st_neg _ _ Hs i s _ (predicate a) Hsi Hh) as (j & s'' & Hj & Hs'' & Hx); [by exists r; eauto 6|].
    apply (later_stratum p ss j (pred i) _ s'' s' (predicate a) Hs Hs'' Hx); [lia| |done].
    replace (S (pred i)) with i by lia. by rewrite (drop_S _ _ _ Hsi).
Qed.

Section Strata.
Context (iter : list fact -> list fact) (iter_spec : forall l, iter l ≡ₚ l).
Context (helpers : gmap string HelperFunction) (m : gmap string nat).

(** What evaluating the strata [ss] does: as for one, with negation read in the result. *)
Record strata_run (ss : list Stratum) (db db' : database) : Prop := {
  strata_wf : wf_db m db';
  strata_grow : forall q f, holds db q f -> holds db' q f;
  strata_only : forall q f, (forall s, s ∈ ss -> q ∉ s_predicates s) -> holds db' q f -> holds db q f;
  strata_closed : forall s r f, s ∈ ss -> r ∈ s_rules s -> is_fact r = false ->
    fires helpers (holds db') (holds db') r f -> holds db' (predicate (head r)) f;
  strata_least : forall I : interp,
    (forall q f, holds db q f -> I q f) ->
    (forall s r f, s ∈ ss -> r ∈ s_rules s -> fires helpers (holds db') I r f -> I (predicate (head r)) f) ->
    forall q f, holds db' q f -> I q f
}.

Lemma strata_cons s ss db db1 db' :
  ordered (s :: ss) -> stratum_run helpers m (s_rules s) db db1 -> strata_run ss db1 db' -> strata_run (s :: ss) db db'.
Proof using.
  intros [Ho _] [_ _ G1 O1 C1 L1] [W2 G2 O2 C2 L2]. split.
  - done.
  - auto.
  - intros q f Hq Hf. apply O1; [|apply O2; [intros; apply Hq; by right|done]].
    intros r Hr <-. apply (Hq s); [by left|]. by apply Ho.
  - intros s' r f [-> |Hs']%elem_of_cons Hr Hf Hfire; [|by eapply C2].
    destruct (Ho r Hr) as (_ & _ & Hp & Hn). apply G2, C1; [done|done|]. eapply fires_mono; [| |exact Hfire].
    + intros a g Ha. apply O2. intros s' Hs'. by apply (Hp a).
    + intros a g Ha Hg. by apply G2.
  - intros I HI HR. apply L2; [|intros; eapply HR; [by right|done..]].
    apply (L1 (holds db')); [done|intros; eapply HR; [by left|done..]|].
    intros r a f Hr Ha Hf. destruct (Ho r Hr) as (_ & _ & _ & Hn).
    apply O1; [|apply O2; [|done]].
    + intros r' Hr' E. apply (Hn a s Ha); [by left|]. rewrite <- E. by apply Ho.
    + intros s' Hs'. apply (Hn a s' Ha). by right.
Qed.

Lemma strata_spec ss db db' :
  ordered ss -> (forall s, s ∈ ss -> rules_ok m (s_rules s)) -> wf_db m db -> covers m (arity_of db) ->
  evaluate_strata iter helpers ss db = Ok db' -> strata_run ss db db'.
Proof using iter_spec.
  revert db. induction ss as [|s ss IH]; intros db Ho Hr Hdb Hcov H; simpl in H.
  - injection H as <-. split; auto. intros s r f Hs. by apply not_elem_of_nil in Hs.
  - apply result_bind_Ok in H as (db1 & H1 & H).
    apply (rounds_spec iter iter_spec helpers m) in H1; [|done|done|apply Hr; by left].
    eapply strata_cons; [done|exact H1|]. apply IH; [apply Ho|intros; apply Hr; by right|apply H1| |done].
    intros q n Hq. rewrite (run_arity _ _ _ _ _ H1). by apply Hcov.
Qed.
End Strata.

(** ** Seeds *)

Lemma add_missing_spec m preds db db' :
  wf_db m db -> (forall q n, (q, n) ∈ preds -> m !! q = Some n) -> add_missing preds db = Ok db' ->
  wf_db m db' /\ (forall q f, holds db' q f <-> holds db q f)
  /\ (forall q rel, db !! q = Some rel -> db' !! q = Some rel)
  /\ forall q n, (q, n) ∈ preds -> is_Some (db' !! q).
Proof.
  revert db. induction preds as [|[q n] preds IH]; intros db Hdb Hm H; simpl in H.
  - injection H as <-. split_and!; [done|done|done|]. intros q n Hq. by apply not_elem_of_nil in Hq.
  - assert (forall q n, (q, n) ∈ preds -> m !! q = Some n) as Hm' by (intros; apply Hm; by right).
    destruct (db !! q) as [rel|] eqn:Er.
    + destruct (IH db Hdb Hm' H) as (? & ? & Hk & ?). split_and!; [done..|].
      intros q' n' [[= -> ->]|?]%elem_of_cons; [exists rel; auto|eauto].
    + apply result_bind_Ok in H as (rel & Hn & H). unfold new_relation in Hn.
      destruct (starts_with_char islower q) eqn:Eq; [|done]. injection Hn as <-. set (rel := Build_Relation q n []) in *.
      assert (wf_rel n rel) as Hrel by (split; [done|done|constructor|intros f Hf; by apply not_elem_of_nil in Hf]).
      destruct (IH (<[q := rel]> db)) as (? & Hh & Hk & ?); [|done|done|].
      { intros q' rel'. rewrite lookup_insert_Some. intros [[<- <-]|[? ?]]; [|by apply Hdb].
        rewrite (Hm q n) by (by left). done. }
      split_and!; [done| | |].
      * intros q' f. rewrite Hh. unfold holds. destruct (decide (q = q')) as [<- |]; [|by rewrite lookup_insert_ne].
        rewrite lookup_insert_eq, Er. split; [intros (? & [= <-] & Hf); by apply not_elem_of_nil in Hf|by intros (? & ? & _)].
      * intros q' rel' Hq'. apply Hk. rewrite lookup_insert_ne; [done|congruence].
      * intros q' n' [[= -> ->]|?]%elem_of_cons; [exists rel; apply Hk; by rewrite lookup_insert_eq|eauto].
Qed.

(** The facts of fact rules. *)
Definition seeds (rs : list Rule) (q : string) (f : fact) : Prop :=
  exists r, r ∈ rs /\ is_fact r = true /\ predicate (head r) = q /\ ground_atom (head r) ∅ = Some f.

Lemma seed_spec m rs db db' :
  wf_db m db -> rules_ok m rs -> covers m (arity_of db) -> seed_facts rs db = Ok db' ->
  wf_db m db' /\ (forall q, arity_of db' q = arity_of db q)
  /\ forall q f, holds db' q f <-> holds db q f \/ seeds rs q f.
Proof.
  revert db. induction rs as [|r rs IH]; intros db Hdb Hrs Hcov H; simpl in H.
  - injection H as <-. split_and!; [done|done|]. intros q f. unfold seeds. set_solver.
  - assert (rules_ok m rs) as Hrs' by (intros ? ?; apply Hrs; by right).
    assert (forall q f, seeds (r :: rs) q f <->
              (is_fact r = true /\ predicate (head r) = q /\ ground_atom (head r) ∅ = Some f) \/ seeds rs q f) as Hs.
    { intros q f. unfold seeds. setoid_rewrite elem_of_cons. split; [intros (r' & [-> |?] & ?); eauto|].
      intros [?|(r' & ? & ?)]; eauto. }
    destruct (is_fact r) eqn:Ef.
    2: { destruct (IH db Hdb Hrs' Hcov H) as (? & ? & Hh). split_and!; [done..|]. intros q f. rewrite Hh, Hs. naive_solver. }
    destruct (ground_atom (head r) ∅) as [g|] eqn:Eg; [|done]. set (q := predicate (head r)) in *.
    destruct (db !! q) as [rel|] eqn:Er; [|done]. destruct (Hrs r) as [(Hh & _) _]; [by left|].
    assert (new_ok (arity_of db) [(q, [g])]) as Hok.
    { intros q' b [= -> ->]%list_elem_of_singleton. exists (arity (head r)). split; [by apply Hcov, Hh|].
      intros f ->%list_elem_of_singleton. split; [by eapply ground_length|].
      eapply ground_plain; [|apply Hh|exact Eg]. intros x v. by rewrite lookup_empty. }
    destruct (commit_spec m db _ Hdb Hok) as (db1 & Hc & Hdb1 & Har & Hin). simpl in Hc. rewrite Er in Hc.
    apply result_bind_Ok in H as (rel' & Hw & H). rewrite Hw in Hc. simpl in Hc. injection Hc as Hc. rewrite Hc in H.
    destruct (IH db1 Hdb1 Hrs') as (? & Har' & Hin'); [intros q' n Hq'; rewrite Har; by apply Hcov|done|]. split_and!; [done| |].
    + intros q'. by rewrite Har'.
    + intros q' f. rewrite Hin', Hin, Hs, in_new_cons. unfold in_new. fold q.
      split; [|intros [?|[(_ & <- & [= <-])|?]]; [auto| |auto]; left; right; left; set_solver].
      intros [[?|[[-> Hf]|(b & Hb & _)]]|?]; [auto| |by apply not_elem_of_nil in Hb|auto].
      apply list_elem_of_singleton in Hf as ->. auto.
Qed.

(** ** The evaluator *)

(** Body atoms have the arity of the table, and no constant is a bool. *)
Definition plain_term (t : Term) : bool := match t with Constant (VBool _) => false | _ => true end.
Definition well_typed_rule (m : gmap string nat) (r : Rule) : bool :=
  forallb (fun a => bool_decide (m !! predicate a = Some (arity a))) (body_positive_atoms r ++ body_negated_atoms r)
  && forallb (fun a => forallb plain_term (args a)) (head r :: body_positive_atoms r ++ body_negated_atoms r).
Definition well_typed (e : Evaluator) : bool := forallb (well_typed_rule (relation_arities e)) (rules (program e)).

Definition wf_edb (edb : database) : Prop := forall q rel, edb !! q = Some rel -> wf_rel (r_arity rel) rel.

Lemma arity_default_mono m a q n : m !! q = Some n -> arity_default m a !! q = Some n.
Proof.
  unfold arity_default. destruct (m !! predicate a) eqn:E; [done|]. intros Hq.
  rewrite lookup_insert_ne; [done|congruence].
Qed.
Lemma arity_fold_mono l m q n : m !! q = Some n -> foldl arity_default m l !! q = Some n.
Proof. revert m. induction l as [|a l IH]; intros m H; simpl; [done|]. by apply IH, arity_default_mono. Qed.
Lemma gather_mono rs m m' q n : gather_arities rs m = Ok m' -> m !! q = Some n -> m' !! q = Some n.
Proof.
  revert m. induction rs as [|r rs IH]; intros m H Hq; simpl in H; [by injection H as <-|].
  case_bool_decide; [|done]. eapply IH; [exact H|]. by apply arity_fold_mono, arity_fold_mono, arity_default_mono.
Qed.
Lemma gather_heads rs m m' r :
  gather_arities rs m = Ok m' -> r ∈ rs -> m' !! predicate (head r) = Some (arity (head r)).
Proof.
  revert m. induction rs as [|r' rs IH]; intros m H Hr; [by apply not_elem_of_nil in Hr|]. simpl in H.
  case_bool_decide; [|done]. apply elem_of_cons in Hr as [-> |Hr]; [|by eapply IH].
  eapply gather_mono; [exact H|]. by apply arity_fold_mono, arity_fold_mono.
Qed.

Lemma well_typed_spec m r :
  m !! predicate (head r) = Some (arity (head r)) -> well_typed_rule m r = true -> rule_ok m r.
Proof.
  intros Hh. unfold well_typed_rule. rewrite andb_true_iff, !forallb_forall. intros [Ha Hc].
  assert (forall a, a ∈ head r :: body_positive_atoms r ++ body_negated_atoms r -> plain_terms (args a)) as Hp.
  { intros a Hin v Hv. specialize (Hc a (proj1 (list_elem_of_In _ _) Hin)). rewrite forallb_forall in Hc.
    specialize (Hc (Constant v) (proj1 (list_elem_of_In _ _) Hv)). by destruct v. }
  assert (forall a, a ∈ body_positive_atoms r ++ body_negated_atoms r -> atom_ok m a) as Hok.
  { intros a Hin. split; [|apply Hp; by right]. specialize (Ha a (proj1 (list_elem_of_In _ _) Hin)).
    by apply bool_decide_eq_true in Ha. }
  split_and!; [split; [done|apply Hp; by left]|apply list.Forall_forall; intros a Hin; apply Hok..]; set_solver.
Qed.

Section Evaluate.
Context (iter : list fact -> list fact) (iter_spec : forall l, iter l ≡ₚ l).
Context (set_list : gset string -> list string) (set_list_spec : forall X, set_list X ≡ₚ elements X).
Context (helpers : gmap string HelperFunction).

Lemma new_evaluator_spec p e :
  new_evaluator set_list helpers p = Ok e ->
  stratification (program e) (strata e)
  /\ (forall r, r ∈ rules (program e) -> safe_rule r = true
        /\ relation_arities e !! predicate (head r) = Some (arity (head r))).
Proof using set_list_spec.
  intros ([p' ss] & Hs & H)%result_bind_Ok. simpl in H. apply result_bind_Ok in H as (m & Hm & [= <-]). simpl.
  apply (stratify_Ok set_list set_list_spec) in Hs as (_ & Hsafe & Hst). split; [done|]. intros r Hr. split.
  - by eapply list.Forall_forall in Hsafe.
  - by eapply gather_heads.
Qed.

Lemma evaluator_rules p e :
  new_evaluator set_list helpers p = Ok e -> well_typed e = true -> rules_ok (relation_arities e) (rules (program e)).
Proof using set_list_spec.
  intros [_ He]%new_evaluator_spec Ht r Hr. destruct (He r Hr) as [Hs Hh]. split; [|done]. apply well_typed_spec; [done|].
  unfold well_typed in Ht. rewrite forallb_forall in Ht. by apply Ht, list_elem_of_In.
Qed.

(** The database before the first stratum: the extensional facts and those of the fact rules. *)
Lemma evaluate_seeded p e edb db :
  new_evaluator set_list helpers p = Ok e -> well_typed e = true -> wf_edb edb ->
  evaluate iter helpers e edb = Ok db ->
  exists db0, evaluate_strata iter helpers (strata e) db0 = Ok db
    /\ wf_db (relation_arities e) db0 /\ covers (relation_arities e) (arity_of db0)
    /\ forall q f, holds db0 q f <-> holds edb q f \/ seeds (rules (program e)) q f.
Proof using set_list_spec.
  intros He Ht Hedb H. pose proof (evaluator_rules p e He Ht) as Hrs. unfold evaluate in H.
  destruct (forallb _ _) eqn:Ea; [|done]. rewrite forallb_forall in Ea.
  assert (wf_db (relation_arities e) edb) as Hwf.
  { intros q rel Hq. specialize (Ea (q, rel)). unfold arity_ok in Ea. simpl in Ea.
    destruct (relation_arities e !! q) as [n|]; simpl; [|by apply (Hedb q)].
    rewrite Nat.eqb_eq in Ea. rewrite <- Ea; [by apply (Hedb q)|]. by apply list_elem_of_In, elem_of_map_to_list. }
  apply result_bind_Ok in H as (db1 & H1 & H). apply result_bind_Ok in H as (db0 & H0 & H).
  apply (add_missing_spec (relation_arities e)) in H1 as (Hw1 & Hh1 & _ & Hc1); [|done|by intros q n ?%elem_of_map_to_list].
  assert (covers (relation_arities e) (arity_of db1)) as Hcov1.
  { intros q n Hq. destruct (Hc1 q n) as [rel Hr]; [by apply elem_of_map_to_list|]. unfold arity_of. rewrite Hr. simpl.
    f_equal. specialize (Hw1 _ _ Hr). rewrite Hq in Hw1. apply (wf_arity _ _ Hw1). }
  apply (seed_spec (relation_arities e)) in H0 as (Hw0 & Ha0 & Hh0); [|done|done|done].
  exists db0. split_and!; [done|done| |].
  - intros q n Hq. rewrite Ha0. by apply Hcov1.
  - intros q f. by rewrite Hh0, Hh1.
Qed.

(** The seeds are what the fact rules derive, in any interpretation. *)
Lemma fact_fires r N I f :
  safe_rule r = true -> is_fact r = true -> fires helpers N I r f <-> ground_atom (head r) ∅ = Some f.
Proof using.
  intros Hs Hf. unfold is_fact in Hf. destruct (body r) eqn:Eb; [|done].
  assert (bound_by r = ∅) as Hb by (unfold bound_by, body_positive_atoms; by rewrite Eb).
  apply safe_vars in Hs as (Hh & _ & _). rewrite Hb in Hh. split.
  - intros (σ & _ & _ & _ & Ht). rewrite (ground_agree ∅ σ); [done|apply map_empty_subseteq|]. set_solver.
  - intros Ht. exists ∅. unfold body_positive_atoms, body_helpers, body_negated_atoms. rewrite Eb. simpl.
    split_and!; try (intros ? Hin; by apply not_elem_of_nil in Hin). done.
Qed.

(** The closure is a stable model. *)
Lemma evaluate_model p e edb db :
  new_evaluator set_list helpers p = Ok e -> well_typed e = true -> wf_edb edb ->
  evaluate iter helpers e edb = Ok db -> stable helpers (program e) (holds edb) (holds db).
Proof using iter_spec set_list_spec.
  intros He Ht Hedb H. destruct (evaluate_seeded p e edb db He Ht Hedb H) as (db0 & Hrun & Hwf & Hcov & H0).
  pose proof (evaluator_rules p e He Ht) as Hrs. apply new_evaluator_spec in He as [Hst He].
  apply (strata_spec iter iter_spec helpers (relation_arities e)) in Hrun as [_ Hg _ Hcl Hl];
    [|by eapply strata_ordered| |done|done].
  2: { intros s Hs r Hr. apply Hrs. by apply (st_rules _ _ Hst s) in Hr as [? _]. }
  intros q f. split.
  - intros Hf I [HE HR]. revert q f Hf. apply Hl.
    + intros q f [?|(r & Hr & Hfact & <- & Hf)]%H0; [auto|]. apply HR; [done|]. by apply fact_fires; [apply He| |].
    + intros s r f Hs Hr. apply HR. by apply (st_rules _ _ Hst s) in Hr as [? _].
  - intros Hf. apply Hf. split; [intros q' f' ?; apply Hg, H0; by left|].
    intros r t Hr Hfire. destruct (is_fact r) eqn:Ef.
    + apply Hg, H0. right. exists r. split_and!; [done|done|done|]. by apply fact_fires in Hfire; [|apply He|].
    + destruct (head_level _ _ Hst r Hr) as (i & s & Hi & Hp). apply list_elem_of_lookup_2 in Hi.
      apply (Hcl s r t Hi); [|done|done]. by apply (st_rules _ _ Hst s r Hi).
Qed.
Lemma evaluator_unique p e (edb : interp) M M' :
  new_evaluator set_list helpers p = Ok e -> stable helpers (program e) edb M -> stable helpers (program e) edb M' ->
  forall q f, M q f <-> M' q f.
Proof using set_list_spec. intros [Hst _]%new_evaluator_spec. by apply (stable_unique _ _ _ (strata e)). Qed.

(** C7. For a policy that is well typed (its body atoms have the arities the policy
    gives their predicates, and no constant is a bool, which Python identifies with 0 or
    1) and extensional relations that are well formed (a lower-case name, no repeated
    fact, every fact of the relation's arity and without bools), the closure that
    [evaluate] returns is the policy's stable model over the extensional facts, and the
    only one: every fact in it follows from the rules with negation read in the closure
    itself, and every rule is satisfied.  The result does not depend on the order in which
    Python iterates its sets. *)
Theorem evaluate_stable p e edb db :
  new_evaluator set_list helpers p = Ok e -> well_typed e = true -> wf_edb edb ->
  evaluate iter helpers e edb = Ok db ->
  stable helpers (program e) (holds edb) (holds db)
  /\ forall M, stable helpers (program e) (holds edb) M -> forall q f, M q f <-> holds db q f.
Proof using iter_spec set_list_spec.
  intros He Ht Hedb H. pose proof (evaluate_model p e edb db He Ht Hedb H) as Hdb. split; [done|].
  intros M HM. by apply (evaluator_unique p e (holds edb) M (holds db) He).
Qed.
End Evaluate.
End PcasFixpoint.

(** * PCAS policies: when evaluation returns

    Well-typed evaluation ends with a closure or with an [EvaluationError], and with
    a closure where the Herbrand base of every stratum is below the iteration limit. *)
Import PcasAst PcasStratify PcasStratifySpec PcasEval PcasModel PcasJoin PcasFixpoint.
Open Scope string_scope.
Open Scope list_scope.
Open Scope nat_scope.

Module PcasTotal.

(** A computation that returns or raises an [EvaluationError]. *)
Definition settled {A} (x : result exn A) : Prop := x = Err EvaluationError \/ exists a, x = Ok a.
Lemma settled_bind {A B} (x : result exn A) (f : A -> result exn B) :
  settled x -> (forall a, x = Ok a -> settled (f a)) -> settled (x ≫= f).
Proof. intros [-> |[a ->]] Hf; [by left|]. simpl. auto. Qed.

(** ** Counting facts *)

Section Counting.
Context (D : list FactValue).

(** All tuples of length [n] over [D]. *)
Fixpoint tuples (n : nat) : list fact :=
  match n with 0 => [[]] | S n => D ≫= fun v => cons v <$> tuples n end.
Lemma length_tuples n : length (tuples n) = length D ^ n.
Proof.
  induction n as [|n IH]; simpl; [done|]. rewrite <- IH. generalize (tuples n). intros l. clear.
  induction D as [|v D' IHD]; simpl; [done|]. rewrite length_app, length_fmap. f_equal. apply IHD.
Qed.
Lemma elem_of_tuples f : Forall (.∈ D) f -> f ∈ tuples (length f).
Proof.
  induction 1 as [|v f Hv _ IH]; simpl; [set_solver|]. apply list_elem_of_bind. exists v. split; [|done].
  apply list_elem_of_fmap. eauto.
Qed.

Definition values_in (db : database) : Prop := forall q f, holds db q f -> Forall (.∈ D) f.
Definition size (db : database) (q : string) : nat := length (default [] (facts <$> db !! q)).
Definition count (preds : list string) (db : database) : nat := sum_list_with (size db) preds.
Definition base (m : gmap string nat) (preds : list string) : nat :=
  sum_list_with (fun q => length D ^ default 0 (m !! q)) preds.

Lemma sum_list_lt {A} (f g : A -> nat) l x :
  (forall x, x ∈ l -> f x <= g x) -> x ∈ l -> f x < g x -> sum_list_with f l < sum_list_with g l.
Proof.
  intros H Hx Hlt. induction l as [|y l IH]; [by apply not_elem_of_nil in Hx|]. simpl.
  pose proof (H y ltac:(by left)) as Hy. assert (forall z, z ∈ l -> f z <= g z) as H' by (intros; apply H; by right).
  pose proof (sum_list_le f g l H'). apply elem_of_cons in Hx as [-> |Hx]; [lia|]. specialize (IH H' Hx). lia.
Qed.

Lemma length_le (l k : list fact) : NoDup l -> (forall f, f ∈ l -> f ∈ k) -> length l <= length k.
Proof. intros Hn Hs. by apply submseteq_length, NoDup_submseteq. Qed.

Section Table.
Context (m : gmap string nat).

Lemma size_le db db' q : wf_db m db -> (forall f, holds db q f -> holds db' q f) -> size db q <= size db' q.
Proof.
  intros Hdb H. unfold size. destruct (db !! q) as [rel|] eqn:E; simpl; [|lia].
  apply length_le; [apply (wf_nodup _ _ (Hdb _ _ E))|]. intros f Hf. destruct (H f) as (rel' & -> & ?); [by exists rel|done].
Qed.
Lemma size_lt db db' q f :
  wf_db m db -> (forall f, holds db q f -> holds db' q f) -> holds db' q f -> ~ holds db q f -> size db q < size db' q.
Proof.
  intros Hdb H (rel' & Er' & Hf) Hn. unfold size in *. rewrite Er'. simpl. destruct (db !! q) as [rel|] eqn:E; simpl.
  - change (length (f :: facts rel) <= length (facts rel')). apply length_le.
    + apply list.NoDup_cons. split; [|apply (wf_nodup _ _ (Hdb _ _ E))]. intros Hin. apply Hn. by exists rel.
    + intros g [-> |Hg]%elem_of_cons; [done|]. destruct (H g) as (? & ? & ?); [by exists rel|congruence].
  - destruct (facts rel'); [by apply not_elem_of_nil in Hf|simpl; lia].
Qed.
Lemma size_bound db q n : wf_db m db -> values_in db -> m !! q = Some n -> size db q <= length D ^ n.
Proof.
  intros Hdb Hv Hq. rewrite <- length_tuples. unfold size. destruct (db !! q) as [rel|] eqn:E; simpl; [|lia].
  specialize (Hdb _ _ E). rewrite Hq in Hdb. apply length_le; [apply (wf_nodup _ _ Hdb)|]. intros f Hf.
  destruct (wf_facts _ _ Hdb f Hf) as [Hl _]. simpl in Hl. rewrite <- Hl. apply elem_of_tuples, (Hv q). by exists rel.
Qed.
Lemma count_bound db preds :
  wf_db m db -> values_in db -> (forall q, q ∈ preds -> is_Some (m !! q)) -> count preds db <= base m preds.
Proof.
  intros Hdb Hv Hp. apply sum_list_le. intros q Hq. destruct (Hp q Hq) as [n Hn]. rewrite Hn. simpl. by apply size_bound.
Qed.
End Table.
End Counting.

(** ** Rounds *)

Section Rounds.
Context (iter : list fact -> list fact) (iter_spec : forall l, iter l ≡ₚ l).
Context (helpers : gmap string HelperFunction) (Hreg : registry_ok helpers).
Context (m : gmap string nat) (rs : list Rule) (Hrs : rules_ok m rs).

Lemma collect_settled db l new :
  wf_db m db -> covers m (arity_of db) -> rules_ok m l -> settled (collect iter helpers l db new).
Proof using iter_spec Hreg.
  intros Hdb Hcov. revert new. induction l as [|r l IH]; intros new Hl; simpl; [right; eauto|].
  assert (rules_ok m l) as Hl' by (intros ? ?; apply Hl; by right). destruct (Hl r) as [Hr Hs]; [by left|].
  destruct (is_fact r); [by apply IH|]. apply settled_bind; [by apply (derive_outcome helpers m db Hdb)|].
  intros ts _. destruct ts; [by apply IH|]. destruct (db !! predicate (head r)) as [rel|] eqn:E.
  - destruct (List.filter _ _); by apply IH.
  - assert (arity_of db (predicate (head r)) = Some (arity (head r))) as Ha by (apply Hcov, Hr).
    unfold arity_of in Ha. by rewrite E in Ha.
Qed.
Lemma collect_total db l new :
  wf_db m db -> covers m (arity_of db) -> rules_ok m l -> (forall r, r ∈ l -> Forall (helper_ok helpers) (body_helpers r)) ->
  exists new', collect iter helpers l db new = Ok new'.
Proof using iter_spec Hreg.
  intros Hdb Hcov. revert new. induction l as [|r l IH]; intros new Hl Hh; simpl; [eauto|].
  assert (rules_ok m l) as Hl' by (intros ? ?; apply Hl; by right). destruct (Hl r) as [Hr Hs]; [by left|].
  assert (forall r, r ∈ l -> Forall (helper_ok helpers) (body_helpers r)) as Hh' by (intros; apply Hh; by right).
  destruct (is_fact r); [by apply IH|].
  destruct (derive_total helpers m db Hdb iter iter_spec r Hreg Hr) as [ts ->]; [apply Hh; by left|]. simpl.
  destruct ts; [by apply IH|]. destruct (db !! predicate (head r)) as [rel|] eqn:E.
  - destruct (List.filter _ _); by apply IH.
  - assert (arity_of db (predicate (head r)) = Some (arity (head r))) as Ha by (apply Hcov, Hr).
    unfold arity_of in Ha. by rewrite E in Ha.
Qed.

Lemma rounds_settled fuel db :
  wf_db m db -> covers m (arity_of db) -> settled (evaluate_rounds iter helpers fuel rs db).
Proof using iter_spec Hreg Hrs.
  revert db. induction fuel as [|fuel IH]; intros db Hdb Hcov; simpl; [by left|].
  apply settled_bind; [by apply collect_settled|]. intros new Hc.
  destruct (collect_spec iter iter_spec helpers m db Hdb Hcov rs [] new Hrs) as [Hok _]; [intros q b ?%not_elem_of_nil; done|done|].
  destruct (existsb _ new); [|right; eauto]. destruct (commit_spec m db new Hdb Hok) as (db1 & -> & Hdb1 & Har & _). simpl.
  apply IH; [done|]. intros q n Hq. rewrite Har. by apply Hcov.
Qed.

Lemma adds_values D db r q f :
  values_in D db -> r ∈ rs -> (forall v, Constant v ∈ args (head r) -> v ∈ D) -> adds helpers db r q f -> Forall (.∈ D) f.
Proof using Hrs.
  intros Hv Hr Hc (_ & _ & Hf & _). apply (fires_values (.∈ D)) in Hf; [by destruct Hf|by apply Hrs| |done].
  intros a g _. apply Hv.
Qed.

(** Every round but the last adds a fact. *)
Lemma rounds_total D preds fuel db :
  (forall r, r ∈ rs -> Forall (helper_ok helpers) (body_helpers r)) ->
  (forall r, r ∈ rs -> predicate (head r) ∈ preds) -> (forall q, q ∈ preds -> is_Some (m !! q)) ->
  (forall r v, r ∈ rs -> Constant v ∈ args (head r) -> v ∈ D) ->
  wf_db m db -> covers m (arity_of db) -> values_in D db -> base D m preds < fuel + count preds db ->
  exists db', evaluate_rounds iter helpers fuel rs db = Ok db' /\ values_in D db'.
Proof using iter_spec Hreg Hrs.
  intros Hh Hp Hm Hc. revert db. induction fuel as [|fuel IH]; intros db Hdb Hcov Hv Hlt.
  { pose proof (count_bound D m db preds Hdb Hv Hm). lia. }
  cbn [evaluate_rounds]. destruct (collect_total db rs [] Hdb Hcov Hrs Hh) as [new Hnew]. rewrite Hnew. cbn [mbind result_bind].
  destruct (collect_spec iter iter_spec helpers m db Hdb Hcov rs [] new Hrs) as [Hok Hin]; [intros q b ?%not_elem_of_nil; done|done|].
  pose proof (any_added new) as Hany. destruct (existsb _ new) eqn:Eex; [|eauto].
  destruct (commit_spec m db new Hdb Hok) as (db1 & -> & Hdb1 & Har & Hh1). cbn [mbind result_bind].
  assert (forall q f, in_new q f new -> exists r, r ∈ rs /\ adds helpers db r q f) as Hadd.
  { intros q f [(b & ?%not_elem_of_nil & _)|?]%Hin; done. }
  apply IH; [done| | |].
  - intros q n Hq. rewrite Har. by apply Hcov.
  - intros q f [?|(r & Hr & Ha)%Hadd]%Hh1; [by eapply Hv|]. eapply adds_values; [done|done| |done]. intros v. by apply Hc.
  - destruct (proj1 Hany eq_refl) as (q & f & Hqf). destruct (Hadd q f Hqf) as (r & Hr & Ha).
    assert (count preds db < count preds db1); [|lia]. apply (sum_list_lt _ _ _ q).
    + intros q' _. apply (size_le m); [done|]. intros g Hg. apply Hh1. by left.
    + destruct Ha as (_ & <- & _). by apply Hp.
    + apply (size_lt m _ _ _ f); [done|intros g Hg; apply Hh1; by left|apply Hh1; by right|apply Ha].
Qed.
End Rounds.

(** ** Names *)

Definition rule_atoms (r : Rule) : list Atom := head r :: body_positive_atoms r ++ body_negated_atoms r.
(** The names that the constructors of the syntax tree accept. *)
Definition valid_rule (r : Rule) : Prop := Forall (fun a => valid_predicate (predicate a) = true) (rule_atoms r).
Definition names_ok (m : gmap string nat) : Prop := forall q n, m !! q = Some n -> starts_with_char islower q = true.

Lemma valid_lower q : valid_predicate q = true -> starts_with_char islower q = true.
Proof. unfold valid_predicate, valid_name. rewrite !andb_true_iff. tauto. Qed.
Lemma default_names m a : names_ok m -> valid_predicate (predicate a) = true -> names_ok (arity_default m a).
Proof.
  intros Hm Ha q n. unfold arity_default. destruct (m !! predicate a); [apply Hm|].
  rewrite lookup_insert_Some. intros [[<- _]|[_ ?]]; [by apply valid_lower|by eapply Hm].
Qed.
Lemma fold_names l m :
  names_ok m -> Forall (fun a => valid_predicate (predicate a) = true) l -> names_ok (foldl arity_default m l).
Proof. intros Hm Hl. revert m Hm. induction Hl as [|a l Ha _ IH]; intros m Hm; simpl; [done|]. by apply IH, default_names. Qed.
Lemma gather_names rs m m' : names_ok m -> Forall valid_rule rs -> gather_arities rs m = Ok m' -> names_ok m'.
Proof.
  intros Hm Hrs. revert m Hm. induction Hrs as [|r rs Hr _ IH]; intros m Hm H; simpl in H; [by injection H as <-|].
  unfold valid_rule, rule_atoms in Hr. apply list.Forall_cons in Hr as [Hh [Hp Hn]%list.Forall_app].
  case_bool_decide; [|done]. eapply IH; [|exact H]. by apply fold_names, Hn; apply fold_names, Hp; apply default_names.
Qed.

Lemma disambiguate_valid p hs p' :
  disambiguate_program p hs = Ok p' -> Forall valid_rule (rules p) -> Forall valid_rule (rules p').
Proof.
  unfold disambiguate_program. intros (rs & H & [= <-])%result_bind_Ok. apply map_result_Ok in H. simpl.
  induction H as [|r r' l l' Hr _ IH]; intros Hv; constructor; apply list.Forall_cons in Hv as [Hv ?]; [|by apply IH].
  unfold disambiguate_rule in Hr. apply result_bind_Ok in Hr as (b & Hb & [= <-]). apply map_result_Ok in Hb.
  unfold valid_rule, rule_atoms in *. apply list.Forall_cons in Hv as [Hh Hv].
  apply list.Forall_cons. split; [done|]. rewrite list.Forall_forall in Hv. apply list.Forall_forall.
  intros a Ha. apply Hv. rewrite elem_of_app, elem_of_positive, elem_of_negated in *. cbn [body] in Ha.
  assert (forall x, x ∈ b -> x = PositiveAtom a \/ x = NegatedAtom a -> x ∈ body r) as Hback.
  { intros x [i Hi]%list_elem_of_lookup Hx. destruct (Forall2_lookup_r _ _ _ _ _ Hb Hi) as (y & Hy & Hd).
    apply list_elem_of_lookup_2 in Hy. destruct y; simpl in Hd; repeat case_bool_decide; destruct Hx; simplify_eq; done. }
  destruct Ha as [Ha|Ha]; [left|right]; apply Hback; auto.
Qed.

Import PcasParser.
Lemma parse_atom_valid ts a ts' : parse_atom ts = Ok (a, ts') -> valid_predicate (predicate a) = true.
Proof.
  unfold parse_atom. intros ([n ts1] & _ & H)%result_bind_Ok. apply result_bind_Ok in H as ([xs ts2] & _ & H).
  apply result_bind_Ok in H as (a' & Ha & [= <- <-]). unfold new_atom in Ha.
  destruct (valid_predicate n) eqn:E; [|done]. injection Ha as <-. done.
Qed.
Lemma comma_list_valid {A} (P : A -> Prop) item fuel ts xs ts' :
  (forall ts x ts', item ts = Ok (x, ts') -> P x) -> comma_list item fuel ts = Ok (xs, ts') -> Forall P xs.
Proof.
  intros Hi. revert ts xs. induction fuel as [|fuel IH]; intros ts xs H; simpl in H; [done|].
  apply result_bind_Ok in H as ([x ts1] & Hx & H). apply Hi in Hx. destruct (at_ COMMA ts1).
  - apply result_bind_Ok in H as ([? ts2] & _ & H). apply result_bind_Ok in H as ([ys ts3] & Hy & [= <- <-]).
    constructor; [done|by eapply IH].
  - injection H as <- <-. by constructor.
Qed.
Definition valid_element (b : BodyElement) : Prop :=
  match b with PositiveAtom a | NegatedAtom a => valid_predicate (predicate a) = true | HelperCall _ _ => True end.
Lemma parse_element_valid ts b ts' : parse_body_element ts = Ok (b, ts') -> valid_element b.
Proof.
  unfold parse_body_element. destruct (at_ NOT ts).
  - intros ([? ts1] & _ & H)%result_bind_Ok. apply result_bind_Ok in H as ([a ts2] & Ha & [= <- <-]). by eapply parse_atom_valid.
  - intros ([a ts2] & Ha & [= <- <-])%result_bind_Ok. by eapply parse_atom_valid.
Qed.
Lemma parse_rule_valid ts r ts' : parse_rule ts = Ok (r, ts') -> valid_rule r.
Proof.
  unfold parse_rule. destruct (accept_annotation ts) as [ann ts1]. intros ([h ts2] & Hh & H)%result_bind_Ok.
  apply result_bind_Ok in H as ([b ts3] & Hb & H). apply result_bind_Ok in H as ([? ts4] & _ & [= <- <-]).
  assert (Forall valid_element b) as Hv.
  { destruct (at_ COLON_DASH ts2); [|by injection Hb as <- <-].
    apply result_bind_Ok in Hb as ([? ts5] & _ & Hb). eapply comma_list_valid; [apply parse_element_valid|exact Hb]. }
  rewrite list.Forall_forall in Hv. unfold valid_rule, rule_atoms. cbn [head]. apply list.Forall_cons.
  split; [by eapply parse_atom_valid|]. apply list.Forall_forall. intros a Ha.
  rewrite elem_of_app, elem_of_positive, elem_of_negated in Ha. cbn [body] in Ha. destruct Ha as [Ha|Ha]; by apply (Hv _ Ha).
Qed.
Lemma parse_valid source p : parse_program source = Ok p -> Forall valid_rule (rules p).
Proof.
  unfold parse_program, parse. intros (ts & _ & H)%result_bind_Ok. apply result_bind_Ok in H as (rs & H & [= <-]). simpl.
  revert H. generalize (length ts). intros fuel. revert ts rs. induction fuel as [|fuel IH]; intros ts rs; simpl.
  - destruct (at_ EOF ts); [by intros [= <-]|done].
  - destruct (at_ EOF ts); [by intros [= <-]|]. intros ([r ts1] & Hr & H)%result_bind_Ok.
    apply result_bind_Ok in H as (rs' & H & [= <-]). constructor; [by eapply parse_rule_valid|by eapply IH].
Qed.

(** ** The evaluator *)

Definition fact_values (db : database) : list FactValue := (map_to_list db).*2 ≫= fun rel => facts rel ≫= id.
Definition constants (ts : list Term) : list FactValue :=
  omap (fun t => match t with Constant v => Some v | Var _ => None end) ts.
(** The values that can occur in a fact. *)
Definition domain (e : Evaluator) (edb : database) : list FactValue :=
  remove_dups (fact_values edb ++ (rules (program e) ≫= fun r => constants (args (head r)))).
Definition heads (s : Stratum) : list string := remove_dups ((fun r => predicate (head r)) <$> s_rules s).

Lemma elem_of_constants v ts : v ∈ constants ts <-> Constant v ∈ ts.
Proof.
  unfold constants. rewrite list_elem_of_omap. split; [intros ([x|c] & ? & ?); simplify_eq; done|].
  intros ?. by exists (Constant v).
Qed.
Lemma domain_edb e edb : values_in (domain e edb) edb.
Proof.
  intros q f (rel & Hr & Hf). apply list.Forall_forall. intros v Hv. unfold domain.
  rewrite elem_of_remove_dups, elem_of_app. left. unfold fact_values. apply list_elem_of_bind. exists rel. split.
  - apply list_elem_of_bind. by exists f.
  - apply list_elem_of_fmap. exists (q, rel). split; [done|]. by apply elem_of_map_to_list.
Qed.
Lemma domain_constants e edb r v : r ∈ rules (program e) -> Constant v ∈ args (head r) -> v ∈ domain e edb.
Proof.
  intros Hr Hv. unfold domain. rewrite elem_of_remove_dups, elem_of_app. right. apply list_elem_of_bind.
  exists r. split; [by apply elem_of_constants|done].
Qed.

Section Evaluate.
Context (iter : list fact -> list fact) (iter_spec : forall l, iter l ≡ₚ l).
Context (set_list : gset string -> list string) (set_list_spec : forall X, set_list X ≡ₚ elements X).
Context (helpers : gmap string HelperFunction) (Hreg : registry_ok helpers).

Lemma evaluator_names p e : new_evaluator set_list helpers p = Ok e -> Forall valid_rule (rules p) -> names_ok (relation_arities e).
Proof using set_list_spec.
  intros ([p' ss] & Hs & H)%result_bind_Ok Hv. simpl in H. apply result_bind_Ok in H as (m & Hm & [= <-]). simpl.
  apply (stratify_Ok set_list set_list_spec) in Hs as (Hd & _ & _). apply disambiguate_valid in Hd; [|done].
  eapply gather_names; [|exact Hd|exact Hm]. intros q n. by rewrite lookup_empty.
Qed.

Lemma add_missing_total preds db :
  (forall q n, (q, n) ∈ preds -> starts_with_char islower q = true) -> exists db', add_missing preds db = Ok db'.
Proof using.
  revert db. induction preds as [|[q n] preds IH]; intros db H; simpl; [eauto|].
  assert (forall q n, (q, n) ∈ preds -> starts_with_char islower q = true) as H' by (intros; eapply H; by right).
  destruct (db !! q); [by apply IH|]. unfold new_relation. rewrite (H q n) by (by left). simpl. by apply IH.
Qed.
Lemma seed_total m rs db :
  wf_db m db -> rules_ok m rs -> covers m (arity_of db) -> exists db', seed_facts rs db = Ok db'.
Proof using.
  revert db. induction rs as [|r rs IH]; intros db Hdb Hrs Hcov; simpl; [eauto|].
  assert (rules_ok m rs) as Hrs' by (intros ? ?; apply Hrs; by right). destruct (is_fact r) eqn:Ef; [|by apply IH].
  destruct (Hrs r) as [(Hh & _) Hs]; [by left|].
  assert (exists f, ground_atom (head r) ∅ = Some f) as [f Hf].
  { apply (mapM_is_Some_2 (resolve_term ∅)), list.Forall_forall. intros t Ht. simpl.
    unfold is_fact in Ef. destruct (body r) eqn:Eb; [|done]. unfold safe_rule in Hs. rewrite !andb_true_iff in Hs.
    destruct Hs as [[Hs _] _]. unfold positive_vars, body_positive_atoms in Hs. rewrite Eb, forallb_forall in Hs.
    destruct t as [x|c]; [|simpl; eauto]. specialize (Hs x). rewrite andb_true_iff, bool_decide_eq_true in Hs.
    destruct Hs as [_ ?%not_elem_of_nil]; [|done]. apply list_elem_of_In. unfold variables, term_variables.
    apply list_elem_of_omap. by exists (Var x). }
  rewrite Hf. assert (arity_of db (predicate (head r)) = Some (arity (head r))) as Ha by apply Hcov, Hh.
  assert (new_ok (arity_of db) [(predicate (head r), [f])]) as Hok.
  { intros q' b [= -> ->]%list_elem_of_singleton. exists (arity (head r)). split; [done|].
    intros g ->%list_elem_of_singleton. split; [by eapply ground_length|].
    eapply ground_plain; [|apply Hh|exact Hf]. intros x v. by rewrite lookup_empty. }
  destruct (commit_spec m db _ Hdb Hok) as (db1 & Hc & Hdb1 & Har & _). simpl in Hc.
  destruct (db !! predicate (head r)) as [rel|] eqn:Er; [|unfold arity_of in Ha; by rewrite Er in Ha].
  destruct (with_facts rel [f]) as [rel'|]; [|done]. simpl in *. injection Hc as <-.
  apply IH; [done|done|]. intros q n Hq. rewrite Har. by apply Hcov.
Qed.

Section Program.
Context (p : Program) (e : Evaluator) (edb : database).
Context (He : new_evaluator set_list helpers p = Ok e) (Ht : well_typed e = true) (Hv : Forall valid_rule (rules p)).
Context (Hedb : wf_edb edb).

(** The relations that the program mentions have its arities. *)
Definition arities_match : bool := forallb (fun nr => arity_ok (relation_arities e) nr.1 nr.2) (map_to_list edb).

Lemma evaluate_reduces :
  arities_match = true ->
  exists db0, evaluate iter helpers e edb = evaluate_strata iter helpers (strata e) db0
    /\ wf_db (relation_arities e) db0 /\ covers (relation_arities e) (arity_of db0)
    /\ forall q f, holds db0 q f <-> holds edb q f \/ seeds (rules (program e)) q f.
Proof using set_list_spec He Ht Hv Hedb.
  intros Ha. pose proof (evaluator_rules set_list set_list_spec helpers p e He Ht) as Hrs.
  unfold evaluate. change (forallb _ _) with arities_match. rewrite Ha.
  destruct (add_missing_total (map_to_list (relation_arities e)) edb) as [db1 H1].
  { intros q n Hq%elem_of_map_to_list. by eapply evaluator_names. }
  rewrite H1. cbn [mbind result_bind].
  assert (wf_db (relation_arities e) edb) as Hwf.
  { intros q rel Hq. unfold arities_match in Ha. rewrite forallb_forall in Ha. specialize (Ha (q, rel)).
    unfold arity_ok in Ha. simpl in Ha. destruct (relation_arities e !! q) as [n|]; simpl; [|by apply (Hedb q)].
    rewrite Nat.eqb_eq in Ha. rewrite <- Ha; [by apply (Hedb q)|]. by apply list_elem_of_In, elem_of_map_to_list. }
  apply (add_missing_spec (relation_arities e)) in H1 as (Hw1 & Hh1 & _ & Hc1); [|done|by intros q n ?%elem_of_map_to_list].
  assert (covers (relation_arities e) (arity_of db1)) as Hcov1.
  { intros q n Hq. destruct (Hc1 q n) as [rel Hr]; [by apply elem_of_map_to_list|]. unfold arity_of. rewrite Hr. simpl.
    f_equal. specialize (Hw1 _ _ Hr). rewrite Hq in Hw1. apply (wf_arity _ _ Hw1). }
  destruct (seed_total _ _ _ Hw1 Hrs Hcov1) as [db0 H0]. exists db0. rewrite H0. split; [done|].
  apply (seed_spec (relation_arities e)) in H0 as (Hw0 & Ha0 & Hh0); [|done|done|done].
  split_and!; [done| |]; [intros q n Hq; rewrite Ha0; by apply Hcov1|intros q f; by rewrite Hh0, Hh1].
Qed.

Lemma stratum_rules s : s ∈ strata e -> rules_ok (relation_arities e) (s_rules s) /\ forall r, r ∈ s_rules s -> r ∈ rules (program e).
Proof using set_list_spec He Ht.
  intros Hs. destruct (new_evaluator_spec set_list set_list_spec helpers p e He) as [Hst _].
  assert (forall r, r ∈ s_rules s -> r ∈ rules (program e)) as H by (intros r Hr; by apply (st_rules _ _ Hst s) in Hr as [? _]).
  split; [|done]. intros r Hr. by apply (evaluator_rules set_list set_list_spec helpers p e He Ht), H.
Qed.

(** The only exception is an [EvaluationError]. *)
Lemma evaluate_settled : settled (evaluate iter helpers e edb).
Proof using iter_spec set_list_spec Hreg He Ht Hv Hedb.
  destruct arities_match eqn:Ha.
  2: { left. unfold evaluate. change (forallb _ _) with arities_match. by rewrite Ha. }
  destruct (evaluate_reduces Ha) as (db0 & -> & Hwf & Hcov & _). clear Ha.
  assert (forall s, s ∈ strata e -> rules_ok (relation_arities e) (s_rules s)) as Hr by (intros; by apply stratum_rules).
  clear Hedb. revert db0 Hwf Hcov Hr. generalize (strata e). intros ss. induction ss as [|s ss IH]; intros db0 Hwf Hcov Hr; simpl.
  { right. eauto. }
  apply settled_bind; [by apply (rounds_settled iter iter_spec helpers Hreg (relation_arities e)); [apply Hr; left|..]|].
  intros db1 H1. apply (rounds_spec iter iter_spec helpers (relation_arities e)) in H1; [|done|done|apply Hr; by left].
  apply IH; [apply H1| |intros; apply Hr; by right]. intros q n Hq. rewrite (run_arity _ _ _ _ _ H1). by apply Hcov.
Qed.

(** Evaluation returns a closure where the extensional relations have the
    policy's arities, every helper call has its helper's, and for every stratum the
    facts that its head predicates could hold over the values at hand number less
    than [MAX_ITERATIONS]. *)
Lemma evaluate_returns :
  arities_match = true ->
  (forall r, r ∈ rules (program e) -> Forall (helper_ok helpers) (body_helpers r)) ->
  (forall s, s ∈ strata e -> base (domain e edb) (relation_arities e) (heads s) < MAX_ITERATIONS) ->
  exists db, evaluate iter helpers e edb = Ok db.
Proof using iter_spec set_list_spec Hreg He Ht Hv Hedb.
  intros Ha Hh Hb. destruct (evaluate_reduces Ha) as (db0 & -> & Hwf & Hcov & H0). clear Ha.
  destruct (new_evaluator_spec set_list set_list_spec helpers p e He) as [_ Hheads].
  assert (values_in (domain e edb) db0) as Hval.
  { intros q f [Hf|(r & Hr & Hfact & <- & Hf)]%H0; [by eapply domain_edb|].
    apply (fact_fires helpers r (fun _ _ => False) (fun _ _ => False)) in Hf; [|by apply Hheads|done].
    eapply (fires_values (.∈ domain e edb)) in Hf as [? _]; [done|by apply Hheads|done|].
    intros v Hc. by eapply domain_constants. }
  assert (forall s, s ∈ strata e -> s ∈ strata e) as Hall by done. clear H0. revert Hall db0 Hwf Hcov Hval.
  generalize (strata e) at 1 3. intros ss. induction ss as [|s ss IH]; intros Hall db0 Hwf Hcov Hval; simpl; [eauto|].
  destruct (stratum_rules s) as [Hr Hin]; [apply Hall; by left|].
  destruct (rounds_total iter iter_spec helpers Hreg (relation_arities e) (s_rules s) Hr
              (domain e edb) (heads s) MAX_ITERATIONS db0) as (db1 & H1 & Hval1).
  - intros r Hr'. by apply Hh, Hin.
  - intros r Hr'. unfold heads. apply elem_of_remove_dups, list_elem_of_fmap. eauto.
  - intros q (r & -> & Hr')%elem_of_remove_dups%list_elem_of_fmap. eexists. apply Hheads. by apply Hin.
  - intros r v Hr' Hc. apply (domain_constants e edb r); [by apply Hin|done].
  - done.
  - done.
  - done.
  - specialize (Hb s ltac:(apply Hall; by left)). lia.
  - unfold evaluate_stratum. rewrite H1. simpl.
    apply (rounds_spec iter iter_spec helpers (relation_arities e)) in H1; [|done|done|done].
    apply IH; [intros; apply Hall; by right|apply H1| |done]. intros q n Hq. rewrite (run_arity _ _ _ _ _ H1). by apply Hcov.
Qed.
End Program.
End Evaluate.
End PcasTotal.
