(* ===== verification/PcasMonitor.v ===== *)
(** * PCAS policies: the reference monitor

    [tex/pcas/graph/adapter.py], [tex/pcas/monitor.py] and
    [tex/specialists/pcas_specialist.py]: the dependency graph as extensional
    facts, the verdict on a candidate action and the specialist's result.  Left out
    are telemetry, the elapsed time and the texts of diagnostics. *)
From S2P Require Import Prelude PyStr PyFloat PyVal RouterDomain PdpDomain PcasLang PcasStratify PcasEval.
Import RouterDomain PdpDomain PcasAst PcasParser PcasStratify PcasEval.
Open Scope string_scope.
Open Scope list_scope.
Open Scope nat_scope.

Module PcasMonitor.

(** ** Views of the dependency graph *)

(** [Field(min_length=1, max_length=n)]. *)
Definition field (n : nat) (s : string) : bool := (1 <=? String.length s) && (String.length s <=? n).
Definition validated {A} (ok : bool) (a : A) : result exn A := if ok then Ok a else Err ValidationError.

Record GraphActionView := { av_action_id : string; av_kind : string; av_actor : string; av_payload_hash : string }.
Record GraphMessageView := { msg_id : string; sender : string; receiver : string; mv_content_hash : string }.
Record GraphToolCallView := { call_id : string; tool : string; caller : string; args_hash : string; result_hash : string }.
Record GraphDataView := { data_id : string; dv_source : string; dv_label : string; dv_content_hash : string }.
Record GraphDeniedView := { nv_action_id : string; nv_reason : string }.
Record GraphDependencyEdge := { source_id : string; target_id : string }.
Record GraphRoleAssignment := { ra_actor : string; role_name : string }.
Record GraphApproval := { subject_id : string; approver : string; decision_id : string }.

Definition new_action_view (v : GraphActionView) : result exn GraphActionView :=
  validated (field 128 (av_action_id v) && field 64 (av_kind v) && field 128 (av_actor v)
             && field 128 (av_payload_hash v)) v.
Definition new_data_view (v : GraphDataView) : result exn GraphDataView :=
  validated (field 128 (data_id v) && field 128 (dv_source v) && field 64 (dv_label v) && field 128 (dv_content_hash v)) v.
Definition new_denied_view (v : GraphDeniedView) : result exn GraphDeniedView :=
  validated (field 128 (nv_action_id v) && field 128 (nv_reason v)) v.
Definition new_edge (v : GraphDependencyEdge) : result exn GraphDependencyEdge :=
  validated (field 128 (source_id v) && field 128 (target_id v)) v.

Record DependencyGraphView := {
  actions : list GraphActionView;
  messages : list GraphMessageView;
  tool_calls : list GraphToolCallView;
  data : list GraphDataView;
  denied : list GraphDeniedView;
  g_edges : list GraphDependencyEdge;
  roles : list GraphRoleAssignment;
  approvals : list GraphApproval
}.
Definition empty_view : DependencyGraphView := {|
  actions := []; messages := []; tool_calls := []; data := []; denied := []; g_edges := []; roles := []; approvals := [] |}.

(** ** The extensional database *)

Definition values_action (v : GraphActionView) : fact :=
  VStr <$> [av_action_id v; av_kind v; av_actor v; av_payload_hash v].
Definition values_message (v : GraphMessageView) : fact :=
  VStr <$> [msg_id v; sender v; receiver v; mv_content_hash v].
Definition values_tool_call (v : GraphToolCallView) : fact :=
  VStr <$> [call_id v; tool v; caller v; args_hash v; result_hash v].
Definition values_data (v : GraphDataView) : fact := VStr <$> [data_id v; dv_source v; dv_label v; dv_content_hash v].
Definition values_denied (v : GraphDeniedView) : fact := VStr <$> [nv_action_id v; nv_reason v].
Definition values_edge (v : GraphDependencyEdge) : fact := VStr <$> [source_id v; target_id v].
Definition values_role (v : GraphRoleAssignment) : fact := VStr <$> [ra_actor v; role_name v].
Definition values_approval (v : GraphApproval) : fact := VStr <$> [subject_id v; approver v; decision_id v].

Definition EDB_ARITIES : list (string * nat) := [
  ("action", 4); ("message", 4); ("tool_call", 5); ("data", 4);
  ("denied", 2); ("depends_on", 2); ("role", 2); ("approved", 3)].
Definition view_facts (v : DependencyGraphView) : list (list fact) := [
  values_action <$> actions v; values_message <$> messages v; values_tool_call <$> tool_calls v;
  values_data <$> data v; values_denied <$> denied v; values_edge <$> g_edges v;
  values_role <$> roles v; values_approval <$> approvals v].
(** The calls of [add], in order. *)
Fixpoint add_relations (l : list ((string * nat) * list fact)) (edb : gmap string Relation)
    : result exn (gmap string Relation) :=
  match l with
  | [] => Ok edb
  | ((name, n), fs) :: l => rel ← new_relation name n fs; add_relations l (<[name := rel]> edb)
  end.
Definition to_edb (v : DependencyGraphView) : result exn (gmap string Relation) :=
  add_relations (combine EDB_ARITIES (view_facts v)) ∅.

(** ** Provenance graphs *)

(** What [getattr] finds: an object's attributes as text, those that are there. *)
Abbreviation attributes := (list (string * string)).
Record provenance := { p_nodes : option (list attributes); p_edges : option (list attributes) }.

Fixpoint attr (k : string) (o : attributes) : option string :=
  match o with [] => None | (k', v) :: o => if String.eqb k k' then Some v else attr k o end.
(** [str(getattr(o, k, d) or d)]. *)
Definition attr_or (o : attributes) (k d : string) : string :=
  match attr k o with Some v => if String.eqb v "" then d else v | None => d end.
Definition zeros : string := "00000000".

Definition node_id (o : attributes) : option string :=
  match attr "id" o with Some v => if String.eqb v "" then attr "node_id" o else Some v | None => attr "node_id" o end.
Definition with_action (a : GraphActionView) (v : DependencyGraphView) : DependencyGraphView := {|
  actions := actions v ++ [a]; messages := messages v; tool_calls := tool_calls v; data := data v;
  denied := denied v; g_edges := g_edges v; roles := roles v; approvals := approvals v |}.
Definition with_data (d : GraphDataView) (v : DependencyGraphView) : DependencyGraphView := {|
  actions := actions v; messages := messages v; tool_calls := tool_calls v; data := data v ++ [d];
  denied := denied v; g_edges := g_edges v; roles := roles v; approvals := approvals v |}.
Definition with_denied (d : GraphDeniedView) (v : DependencyGraphView) : DependencyGraphView := {|
  actions := actions v; messages := messages v; tool_calls := tool_calls v; data := data v;
  denied := denied v ++ [d]; g_edges := g_edges v; roles := roles v; approvals := approvals v |}.
Definition with_edge (d : GraphDependencyEdge) (v : DependencyGraphView) : DependencyGraphView := {|
  actions := actions v; messages := messages v; tool_calls := tool_calls v; data := data v;
  denied := denied v; g_edges := g_edges v ++ [d]; roles := roles v; approvals := approvals v |}.

Definition add_node (v : DependencyGraphView) (o : attributes) : result exn DependencyGraphView :=
  match node_id o with
  | None => Ok v
  | Some id =>
      match attr "kind" o with
      | Some "Call" =>
          a ← new_action_view {| av_action_id := id; av_kind := attr_or o "call_kind" "call";
                av_actor := attr_or o "actor" "agent"; av_payload_hash := attr_or o "payload_hash" zeros |};
          Ok (with_action a v)
      | Some "Data" =>
          d ← new_data_view {| data_id := id; dv_source := attr_or o "source" "unknown";
                dv_label := attr_or o "label" "untrusted"; dv_content_hash := attr_or o "content_hash" zeros |};
          Ok (with_data d v)
      | Some "DeniedAction" =>
          d ← new_denied_view {| nv_action_id := id; nv_reason := attr_or o "reason" "policy" |};
          Ok (with_denied d v)
      | _ => Ok v
      end
  end.
Definition add_edge (v : DependencyGraphView) (o : attributes) : result exn DependencyGraphView :=
  match attr "source" o, attr "target" o with
  | Some src, Some tgt => e ← new_edge {| source_id := src; target_id := tgt |}; Ok (with_edge e v)
  | _, _ => Ok v
  end.
Fixpoint add_all (add : DependencyGraphView -> attributes -> result exn DependencyGraphView) (l : list attributes)
    (v : DependencyGraphView) : result exn DependencyGraphView :=
  match l with [] => Ok v | o :: l => v ← add v o; add_all add l v end.
Definition from_ifc_provenance (p : provenance) : result exn DependencyGraphView :=
  v ← add_all add_node (default [] (p_nodes p)) empty_view;
  add_all add_edge (default [] (p_edges p)) v.

(** ** The monitor *)

Inductive AuthorizationVerdict := PERMIT | ABSTAIN | FORBID.
#[export] Instance AuthorizationVerdict_eq_dec : EqDecision AuthorizationVerdict.
Proof. solve_decision. Defined.

Record CandidateAction := { action_id : string; ca_kind : string; actor : string; payload_hash : string }.
Definition new_candidate (a : CandidateAction) : result exn CandidateAction :=
  validated (field 128 (action_id a) && field 64 (ca_kind a) && field 128 (actor a) && field 128 (payload_hash a)) a.
Definition candidate_fact (a : CandidateAction) : fact := VStr <$> [action_id a; ca_kind a; actor a; payload_hash a].

(** [diagnostic] is the exception whose text it holds. *)
Record PolicyDecision := {
  pd_verdict : AuthorizationVerdict;
  pd_action_id : string;
  pd_reasons : list string;
  authorize_facts : list fact;
  deny_facts : list fact;
  diagnostic : option exn;
  policy_source : string
}.

Record PcasMonitor := { source_name : string; evaluator : option Evaluator; load_error : option exn }.

(** [name or '<inline>']. *)
Definition or_inline (name : string) : string := if String.eqb name "" then "<inline>" else name.
(** The length bounds on the name of the policy and on the diagnostic, whose text is
    given for a load error; the texts of evaluation errors are short (the number of a
    stratum, the name of a helper or of a relation of the adapter). *)
Definition new_decision (text : option string) (d : PolicyDecision) : result exn PolicyDecision :=
  validated ((String.length (policy_source d) <=? 200)
             && match text with Some s => String.length s <=? 2000 | None => true end) d.
(** The exceptions that the constructor turns into a load error. *)
Definition load_failure (e : exn) : bool :=
  match e with LexerError | ParseError | StratificationError | EvaluationError => true | _ => false end.

Section Monitor.
Context (iter : list fact -> list fact) (set_list : gset string -> list string).
Context (loads : string -> option json) (dumps : json -> string).
(** [str()] of an exception that the policy raises. *)
Context (diagnostic_text : exn -> string).
Abbreviation helpers := (HELPER_REGISTRY loads dumps).

Definition new_monitor (policy name : string) : result exn PcasMonitor :=
  match p ← parse_program policy; new_evaluator set_list helpers p with
  | Ok e => Ok {| source_name := or_inline name; evaluator := Some e; load_error := None |}
  | Err e =>
      if load_failure e then Ok {| source_name := or_inline name; evaluator := None; load_error := Some e |} else Err e
  end.

(** The extensional facts of a request. *)
Definition request_edb (a : CandidateAction) (g : DependencyGraphView) : result exn (gmap string Relation) :=
  edb ← to_edb g;
  pending ← new_relation "pending_action" 4 [candidate_fact a];
  let edb := <["pending_action" := pending]> edb in
  action ← match edb !! "action" with
           | None => new_relation "action" 4 [candidate_fact a]
           | Some rel => with_facts rel [candidate_fact a]
           end;
  Ok (<["action" := action]> edb).

(** The facts of the annotated predicates whose first column is the action. *)
Definition on_action (id : string) (f : fact) : bool :=
  match f with v :: _ => py_eq v (VStr id) | [] => false end.
Definition facts_on (closure : gmap string Relation) (id q : string) : list fact :=
  match closure !! q with Some rel => List.filter (on_action id) (iter (facts rel)) | None => [] end.
Definition matching (closure : gmap string Relation) (id : string) (preds : list string) : list (string * fact) :=
  preds ≫= fun q => pair q <$> facts_on closure id q.

Definition refusal (m : PcasMonitor) (a : CandidateAction) (reason : string) (e : option exn) : PolicyDecision := {|
  pd_verdict := FORBID; pd_action_id := action_id a; pd_reasons := [reason];
  authorize_facts := []; deny_facts := []; diagnostic := e; policy_source := source_name m |}.

Definition authorize_action (m : PcasMonitor) (a : CandidateAction) (g : DependencyGraphView) : result exn PolicyDecision :=
  match load_error m, evaluator m with
  | None, Some e =>
      edb ← request_edb a g;
      match evaluate iter helpers e edb with
      | Err EvaluationError => new_decision None (refusal m a "evaluation_error" (Some EvaluationError))
      | Err x => Err x
      | Ok closure =>
          let found ann := matching closure (action_id a) (set_list (list_to_set (annotated ann (program e)))) in
          let auth := found authorize in
          let den := found deny in
          let reasons := ((fun qf => "authorize:" +:+ qf.1) <$> auth) ++ ((fun qf => "deny:" +:+ qf.1) <$> den) in
          let verdict := if negb (bool_decide (den = [])) then FORBID
                         else if negb (bool_decide (auth = [])) then PERMIT else ABSTAIN in
          new_decision None {| pd_verdict := verdict; pd_action_id := action_id a;
                pd_reasons := reasons ++ match verdict with ABSTAIN => ["no_matching_rule"] | _ => [] end;
                authorize_facts := auth.*2; deny_facts := den.*2;
                diagnostic := None; policy_source := source_name m |}
      end
  | e, _ => new_decision (diagnostic_text <$> e) (refusal m a "policy_load_error" e)
  end.

(** ** The specialist *)

Section Specialist.
(** [str()] of floats and containers, and the rationale, which carries the elapsed
    time. *)
Context (str_other : pyval -> string) (rationale : PolicyDecision -> string).

(** [str(metadata.get(k) or d)]. *)
Definition metadata_text (r : EvaluationRequest) (k d : string) : string :=
  match dict_get k (metadata r) with Some v => if py_bool v then py_str_of str_other v else d | None => d end.
Definition project_action (r : EvaluationRequest) : result exn CandidateAction :=
  new_candidate {|
    action_id := if String.eqb (request_id r) "" then "anon-action" else request_id r;
    ca_kind := metadata_text r "action_kind" "evaluate";
    actor := metadata_text r "actor" "agent";
    payload_hash := metadata_text r "payload_hash" zeros |}.

(** [prov] is [metadata.get('ifc_provenance')]. *)
Definition project_graph (prov : option provenance) : DependencyGraphView :=
  match prov with
  | None => empty_view
  | Some p => match from_ifc_provenance p with Ok v => v | Err _ => empty_view end
  end.

Definition summary (d : PolicyDecision) : string :=
  match pd_verdict d with
  | FORBID => "PCAS Datalog policy " +:+ policy_source d +:+ " denied action " +:+ pd_action_id d +:+ ": "
              +:+ match pd_reasons d with [] => "deny rule matched" | rs => String.concat ", " rs end
  | ABSTAIN => "PCAS policy " +:+ policy_source d +:+ " did not authorize action " +:+ pd_action_id d
               +:+ " (no rule matched)"
  | PERMIT => "PCAS policy " +:+ policy_source d +:+ " authorized action " +:+ pd_action_id d
  end.
Definition evidence_of (text explanation : string) : SpecialistEvidence :=
  {| ev_text := strip text; ev_start := None; ev_end := None; ev_explanation := Some explanation |}.
Definition risk_of (v : AuthorizationVerdict) : float :=
  match v with FORBID => f_one | ABSTAIN => dec 5 1 | PERMIT => f_zero end.

Definition to_specialist_result (d : PolicyDecision) : result exn SpecialistResult :=
  validated (field 1500 (strip (summary d))) {|
    specialist_name := "pcas";
    risk_score := risk_of (pd_verdict d);
    sp_confidence := match diagnostic d with None => f_one | Some _ => dec 5 1 end;
    sp_summary := strip (summary d);
    sp_rationale := Some (rationale d);
    evidence :=
      match diagnostic d with
      | None => []
      | Some e => [evidence_of ("PCAS diagnostic: " +:+ str_take 1500 (diagnostic_text e))
                     "PCAS policy compiler reported a non-fatal issue during evaluation; fail-closed."]
      end ++ ((fun r => evidence_of ("reason: " +:+ r) "PCAS rule annotation matched the candidate action.")
              <$> take 8 (pd_reasons d));
    matched_policy_clause_ids := dedupe (strip <$> take 16 (pd_reasons d));
    matched_entity_names := [];
    sp_uncertainty_flags := [] |}.

Definition specialist_evaluate (m : PcasMonitor) (r : EvaluationRequest) (prov : option provenance)
    : result exn SpecialistResult :=
  a ← project_action r;
  d ← authorize_action m a (project_graph prov);
  to_specialist_result d.
End Specialist.
End Monitor.

(** ** The default policy *)

Definition quoted (s : string) : string := String quote s +:+ String quote "".
Definition DEFAULT_POLICY : string := String.concat nl [
  "% PCAS default policy: deny actions that read from any node reachable";
  "% from an untrusted source and then write externally.";
  "%";
  "% Schema:";
  "%   pending_action(ActionId, Kind, Actor, PayloadHash)";
  "%   action(ActionId, Kind, Actor, PayloadHash)";
  "%   data(DataId, Source, Label, ContentHash)";
  "%   depends_on(SourceId, TargetId)";
  "%";
  "% Reference: arxiv 2602.16708 " +:+ String (ascii_of_nat 167) "5.2 (Toxic Flow policy).";
  "";
  "derived_from(X, Y) :- depends_on(X, Y).";
  "derived_from(X, Z) :- depends_on(X, Y), derived_from(Y, Z).";
  "";
  "untrusted_data(DataId) :- data(DataId, _, " +:+ quoted "untrusted" +:+ ", _).";
  "";
  "reads_untrusted(ActionId) :-";
  "    pending_action(ActionId, _, _, _),";
  "    depends_on(ActionId, DataId),";
  "    untrusted_data(DataId).";
  "";
  "reads_untrusted(ActionId) :-";
  "    pending_action(ActionId, _, _, _),";
  "    derived_from(ActionId, DataId),";
  "    untrusted_data(DataId).";
  "";
  "external_sink(ActionId) :-";
  "    pending_action(ActionId, " +:+ quoted "send_email" +:+ ", _, _).";
  "external_sink(ActionId) :-";
  "    pending_action(ActionId, " +:+ quoted "http_post" +:+ ", _, _).";
  "external_sink(ActionId) :-";
  "    pending_action(ActionId, " +:+ quoted "publish" +:+ ", _, _).";
  "";
  "@deny toxic_flow(ActionId) :-";
  "    reads_untrusted(ActionId),";
  "    external_sink(ActionId).";
  "";
  "@authorize default_authorize(ActionId) :-";
  "    pending_action(ActionId, _, _, _),";
  "    not reads_untrusted(ActionId).";
  "";
  "@authorize default_authorize(ActionId) :-";
  "    pending_action(ActionId, _, _, _),";
  "    reads_untrusted(ActionId),";
  "    not external_sink(ActionId).";
  ""].

(** [PcasSpecialist.__init__]: the policy text and its name, from the argument, the
    path given, the environment, or the default. *)
Definition resolve_policy (read_text : string -> result exn string) (is_file : string -> bool)
    (policy_source policy_path env_path : option string) : result exn (string * string) :=
  match policy_source, policy_path with
  | Some s, _ => Ok (s, "<inline>")
  | None, Some path => s ← read_text path; Ok (s, path)
  | None, None =>
      match env_path with
      | Some path => if negb (String.eqb path "") && is_file path then s ← read_text path; Ok (s, path)
                     else Ok (DEFAULT_POLICY, "<default>")
      | None => Ok (DEFAULT_POLICY, "<default>")
      end
  end.
End PcasMonitor.
