(* ===== verification/PcasDefault.v ===== *)
(** * PCAS policies: what the monitor decides, and the default policy

    [PcasMonitorSpec]: the verdict read off the stable model of the policy over the
    facts of the request.  [PcasDefault]: the policy that [PcasSpecialist] ships with
    forbids an external write by an action with a dependency path to untrusted data,
    and permits everything else. *)
From stdpp Require Import relations.
From stdpp Require Import pretty.
From S2P Require Import Prelude PyStr PyFloat PyVal RouterDomain PdpDomain StructuralFloor PcasLang.
From S2P Require Import PcasParserSpec PcasStratify PcasStratifySpec PcasEval PcasJoin PcasFixpoint PcasMonitor.
Import PcasAst PcasParser PcasStratify PcasStratifySpec PcasEval PcasModel PcasJoin PcasFixpoint PcasTotal PcasMonitor.
Open Scope string_scope.
Open Scope list_scope.
Open Scope nat_scope.

Module PcasMonitorSpec.

(** ** The facts of a request *)

Definition graph_facts (a : CandidateAction) (g : DependencyGraphView) : interp := fun q t =>
  exists fs, (q, fs) ∈ [
    ("pending_action", [candidate_fact a]); ("action", (values_action <$> actions g) ++ [candidate_fact a]);
    ("message", values_message <$> messages g); ("tool_call", values_tool_call <$> tool_calls g);
    ("data", values_data <$> data g); ("denied", values_denied <$> denied g);
    ("depends_on", values_edge <$> g_edges g); ("role", values_role <$> roles g);
    ("approved", values_approval <$> approvals g)] /\ t ∈ fs.

Lemma new_relation_spec name n fs :
  starts_with_char islower name = true -> fits n fs ->
  exists rel, new_relation name n fs = Ok rel /\ wf_rel n rel /\ forall f, f ∈ facts rel <-> f ∈ fs.
Proof.
  intros Hname Hfs. destruct (with_facts_spec n {| r_name := name; r_arity := n; facts := [] |} fs) as (rel & H & Hwf & Hin).
  - split; [done|done|constructor|intros f Hf; by apply not_elem_of_nil in Hf].
  - done.
  - unfold new_relation. rewrite Hname. simpl. rewrite (proj2 (forallb_forall _ _)).
    + eexists. split; [done|]. destruct (set_add_fold [] fs) as [H1 H2]; [done|by eapply fits_plain|].
      assert (forall f, f ∈ foldl set_add [] fs <-> f ∈ fs) as H3 by (intros f; rewrite H2; set_solver). split; [split; simpl|].
      * done.
      * done.
      * apply H1. constructor.
      * intros f Hf%H3. by apply Hfs.
      * done.
    + intros f Hf. apply Nat.eqb_eq. by apply Hfs, list_elem_of_In.
Qed.

Lemma fits_strings {A} n (h : A -> list string) (l : list A) :
  (forall x, length (h x) = n) -> fits n ((fun x => VStr <$> h x) <$> l).
Proof.
  intros Hn f (x & -> & _)%list_elem_of_fmap. rewrite length_fmap. split; [done|].
  apply list.Forall_forall. by intros v (s & -> & _)%list_elem_of_fmap.
Qed.

Lemma add_relations_spec l edb :
  (forall name n fs, (name, n, fs) ∈ l -> starts_with_char islower name = true /\ fits n fs) -> NoDup (l.*1.*1) -> wf_edb edb ->
  exists edb', add_relations l edb = Ok edb' /\ wf_edb edb'
    /\ (forall name n fs, (name, n, fs) ∈ l -> exists rel, edb' !! name = Some rel /\ wf_rel n rel /\ forall f, f ∈ facts rel <-> f ∈ fs)
    /\ forall q, q ∉ l.*1.*1 -> edb' !! q = edb !! q.
Proof.
  revert edb. induction l as [|[[name n] fs] l IH]; intros edb Hl Hn Hedb.
  - exists edb. split_and!; [done|done| |done]. intros ? ? ? H. by apply not_elem_of_nil in H.
  - rewrite !fmap_cons in *. cbn [fst] in *. apply list.NoDup_cons in Hn as [Hname Hn].
    destruct (Hl name n fs) as [Hlow Hfit]; [by left|]. destruct (new_relation_spec name n fs Hlow Hfit) as (rel & Hr & Hwf & Hin).
    cbn [add_relations]. rewrite Hr. cbn [mbind result_bind].
    destruct (IH (<[name := rel]> edb)) as (edb' & -> & Hedb' & Hall & Hrest).
    + intros; apply Hl; by right.
    + done.
    + intros q rel'. rewrite lookup_insert_Some. intros [[<- <-]|[_ ?]]; [|by apply (Hedb q)].
      by rewrite (wf_arity _ _ Hwf).
    + exists edb'. split_and!; [done|done| |].
      * intros name' n' fs' [[= -> -> ->]|?]%elem_of_cons; [|by apply Hall].
        exists rel. rewrite Hrest by done. by rewrite lookup_insert_eq.
      * intros q [? ?]%not_elem_of_cons. rewrite Hrest by done. by rewrite lookup_insert_ne.
Qed.

(** Takes membership in a concrete list apart. *)
Ltac in_list H := repeat (apply elem_of_cons in H as [H|H]); [simplify_eq..|by apply not_elem_of_nil in H].
Ltac at_place := repeat (first [by left|right]).

Lemma to_edb_spec g :
  exists edb act, to_edb g = Ok edb /\ wf_edb edb /\ edb !! "action" = Some act /\ wf_rel 4 act
    /\ (forall q rel, edb !! q = Some rel -> (q, r_arity rel) ∈ EDB_ARITIES)
    /\ forall q t, holds edb q t <-> exists n fs, (q, n, fs) ∈ combine EDB_ARITIES (view_facts g) /\ t ∈ fs.
Proof.
  unfold to_edb. set (l := combine EDB_ARITIES (view_facts g)).
  destruct (add_relations_spec l ∅) as (edb & -> & Hwf & Hl & Hrest).
  - intros name n fs Hin. subst l. unfold EDB_ARITIES, view_facts in Hin. cbn [combine] in Hin.
    in_list Hin; by split; [|by apply fits_strings].
  - subst l. cbn. apply (bool_decide_unpack _). vm_compute. done.
  - intros q rel. by rewrite lookup_empty.
  - destruct (Hl "action" 4 (values_action <$> actions g)) as (act & Hact & Haw & _); [by left|].
    assert (forall q rel, edb !! q = Some rel -> exists n fs, (q, n, fs) ∈ l /\ r_arity rel = n /\ forall f, f ∈ facts rel <-> f ∈ fs) as Hof.
    { intros q rel Hr. destruct (decide (q ∈ l.*1.*1)) as [Hin|Hn]; [|by rewrite Hrest, lookup_empty in Hr].
      apply list_elem_of_fmap in Hin as ([q' n] & -> & Hin). apply list_elem_of_fmap in Hin as ([[q'' n'] fs] & [= -> ->] & Hin).
      destruct (Hl _ _ _ Hin) as (rel' & Hr' & Hw & Hf'). simpl in Hr. simplify_eq.
      eexists _, _. split; [exact Hin|]. split; [apply Hw|done]. }
    exists edb, act. split_and!; [done|done|done|done| |].
    { intros q rel (n & fs & Hin & -> & _)%Hof. subst l. unfold EDB_ARITIES, view_facts in *. cbn [combine] in Hin.
      in_list Hin; at_place. }
    intros q t. split.
    + intros (rel & (n & fs & Hin & _ & Hf')%Hof & Hf). apply Hf' in Hf. eauto.
    + intros (n & fs & Hin & Ht). destruct (Hl _ _ _ Hin) as (rel & Hr & _ & Hf). exists rel. by rewrite Hf.
Qed.

Lemma holds_insert (db : database) q rel q' t :
  holds (<[q := rel]> db) q' t <-> (q' = q /\ t ∈ facts rel) \/ (q' <> q /\ holds db q' t).
Proof.
  unfold holds. destruct (decide (q' = q)) as [-> |Hne].
  - rewrite lookup_insert_eq. split; [intros (? & [= <-] & ?); auto|]. intros [[_ ?]|[? _]]; [eauto|done].
  - rewrite lookup_insert_ne by done. split; [auto|]. by intros [[? _]|[_ ?]].
Qed.
Lemma wf_edb_insert q n rel edb : wf_edb edb -> wf_rel n rel -> wf_edb (<[q := rel]> edb).
Proof.
  intros Hedb Hrel q' rel'. rewrite lookup_insert_Some. intros [[<- <-]|[_ ?]]; [by rewrite (wf_arity _ _ Hrel)|by apply (Hedb q')].
Qed.

Lemma request_edb_spec a g :
  exists edb, request_edb a g = Ok edb /\ wf_edb edb
    /\ (forall q rel, edb !! q = Some rel -> (q, r_arity rel) ∈ ("pending_action", 4) :: EDB_ARITIES)
    /\ forall q t, holds edb q t <-> graph_facts a g q t.
Proof.
  unfold request_edb. destruct (to_edb_spec g) as (edb & act & -> & Hwf & Hact & Haw & Har & Hh). cbn [mbind result_bind].
  assert (fits 4 [candidate_fact a]) as Hc by (intros f ->%list_elem_of_singleton; split; [done|by repeat constructor]).
  destruct (new_relation_spec "pending_action" 4 [candidate_fact a]) as (pend & -> & Hpw & Hpf); [done|done|].
  cbn [mbind result_bind]. rewrite lookup_insert_ne, Hact by done.
  destruct (with_facts_spec 4 act [candidate_fact a] Haw Hc) as (act' & -> & Haw' & Haf'). cbn [mbind result_bind].
  eexists. split; [done|]. split; [by eapply wf_edb_insert, Haw'; eapply wf_edb_insert, Hpw|]. split.
  { intros q rel. rewrite lookup_insert_Some. intros [[<- <-]|[_ H]]; [rewrite (wf_arity _ _ Haw'); at_place|].
    apply lookup_insert_Some in H as [[<- <-]|[_ H]]; [rewrite (wf_arity _ _ Hpw); by left|right; by apply Har]. }
  assert (forall t, t ∈ facts act <-> t ∈ values_action <$> actions g) as Haf.
  { intros t. transitivity (holds edb "action" t); [unfold holds; rewrite Hact; split; [eauto|by intros (? & [= <-] & ?)]|].
    rewrite Hh. split; [|eexists 4, _; split; [by left|done]]. intros (n & fs & Hin & Ht).
    unfold EDB_ARITIES, view_facts in Hin. cbn [combine] in Hin. by in_list Hin. }
  intros q t. rewrite !holds_insert, Haf', Haf, Hpf, Hh. unfold graph_facts, EDB_ARITIES, view_facts. cbn [combine]. split.
  - intros [[-> Ht]|[Hq1 [[-> Ht]|[Hq2 (n & fs & Hin & Ht)]]]].
    + eexists. split; [by right; left|]. by apply elem_of_app.
    + eexists. split; [by left|done].
    + exists fs. split; [|done]. in_list Hin; at_place.
  - intros (fs & Hin & Ht). in_list Hin.
    1: right; by split; [|left].
    1: left; split; [done|]; by apply elem_of_app.
    all: right; split; [done|]; right; split; [done|]; eexists _, _; split; [at_place|done].
Qed.

(** ** The verdict *)

Section Monitor.
Context (iter : list fact -> list fact) (iter_spec : forall l, iter l ≡ₚ l).
Context (set_list : gset string -> list string) (set_list_spec : forall X, set_list X ≡ₚ elements X).
Context (loads : string -> option json) (dumps : json -> string).
Abbreviation helpers := (HELPER_REGISTRY loads dumps).
Abbreviation new_monitor := (new_monitor set_list loads dumps).
Context (diagnostic_text : exn -> string).
Abbreviation authorize_action := (authorize_action iter set_list loads dumps diagnostic_text).

Lemma registry_fine : registry_ok helpers.
Proof using.
  intros name reg. unfold HELPER_REGISTRY. rewrite <- elem_of_list_to_map by (apply (bool_decide_unpack _); vm_compute; done).
  intros Hin Hk. in_list Hin; simpl in *; congruence.
Qed.

(** A rule of the policy with annotation [ann] derives a fact on the action in [M]. *)
Definition marked (e : Evaluator) (M : interp) (ann : RuleAnnotation) (id : string) : Prop :=
  exists r rest, r ∈ rules (program e) /\ annotation r = ann /\ M (predicate (head r)) (VStr id :: rest).

Lemma matching_spec e (closure : database) ann id :
  matching iter closure id (set_list (list_to_set (annotated ann (program e)))) <> [] <-> marked e (holds closure) ann id.
Proof using iter_spec set_list_spec.
  assert (forall l : list (string * fact), l <> [] <-> exists x, x ∈ l) as Hne.
  { intros [|x l]; split; [done|intros [x Hx]; by apply not_elem_of_nil in Hx|intros _; exists x; by left|done]. }
  rewrite Hne. unfold marked, matching. setoid_rewrite list_elem_of_bind. setoid_rewrite list_elem_of_fmap. split.
  - intros (x & q & (f & -> & Hf) & Hq). rewrite set_list_spec, elem_of_elements, elem_of_list_to_set, elem_of_annotated in Hq.
    destruct Hq as (r & Hr & Ha & <-). unfold facts_on in Hf. destruct (closure !! _) as [rel|] eqn:E; [|by apply not_elem_of_nil in Hf].
    rewrite list_elem_of_In, filter_In, <- list_elem_of_In, iter_spec in Hf. destruct Hf as [Hf Hid].
    destruct f as [|v rest]; [done|]. exists r, rest. split_and!; [done|done|]. exists rel. split; [done|].
    simpl in Hid. by destruct v; simpl in Hid; [apply String.eqb_eq in Hid as ->|..].
  - intros (r & rest & Hr & Ha & rel & Hrel & Hf). exists (predicate (head r), VStr id :: rest), (predicate (head r)). split.
    + eexists. split; [done|]. unfold facts_on. rewrite Hrel, list_elem_of_In, filter_In, <- list_elem_of_In, iter_spec.
      split; [done|]. simpl. apply String.eqb_refl.
    + rewrite set_list_spec, elem_of_elements, elem_of_list_to_set, elem_of_annotated. eauto.
Qed.

(** What loading a policy text leaves in the monitor. *)
Lemma new_monitor_spec policy name m :
  new_monitor policy name = Ok m ->
  source_name m = or_inline name
  /\ match evaluator m with
     | Some e => load_error m = None /\ exists p, parse_program policy = Ok p /\ new_evaluator set_list helpers p = Ok e
     | None => is_Some (load_error m)
     end.
Proof using.
  unfold PcasMonitor.new_monitor. intros H. destruct (_ ≫= _) as [e|x] eqn:E.
  - injection H as <-. split; [done|]. split; [done|]. by apply result_bind_Ok in E.
  - destruct (load_failure x); [|done]. injection H as <-. split; [done|]. simpl. eauto.
Qed.

Lemma inline_short name : String.length name <= 200 -> (String.length (or_inline name) <=? 200) = true.
Proof using. intros Hn. apply Nat.leb_le. unfold or_inline. destruct (String.eqb name ""); [simpl; lia|done]. Qed.

(** The decision of a well-typed policy, with the closure it was read off. *)
Lemma authorize_closure policy name m e a g :
  new_monitor policy name = Ok m -> String.length name <= 200 -> evaluator m = Some e -> well_typed e = true ->
  exists edb, request_edb a g = Ok edb /\
  ((evaluate iter helpers e edb = Err EvaluationError
    /\ authorize_action m a g = Ok (refusal m a "evaluation_error" (Some EvaluationError)))
   \/ exists d closure, evaluate iter helpers e edb = Ok closure
        /\ authorize_action m a g = Ok d /\ diagnostic d = None
        /\ stable helpers (program e) (graph_facts a g) (holds closure)
        /\ (pd_verdict d = FORBID <-> marked e (holds closure) deny (action_id a))
        /\ (pd_verdict d = PERMIT <-> ~ marked e (holds closure) deny (action_id a)
                                      /\ marked e (holds closure) authorize (action_id a))).
Proof using iter_spec set_list_spec.
  intros [Hsrc He]%new_monitor_spec Hname Ee Ht. apply inline_short in Hname. rewrite <- Hsrc in Hname.
  unfold PcasMonitor.authorize_action. rewrite Ee in *. destruct He as (-> & p & Hp & He).
  destruct (request_edb_spec a g) as (edb & -> & Hwf & _ & Hh). cbn [mbind result_bind]. exists edb. split; [done|].
  assert (settled (evaluate iter helpers e edb)) as Hset.
  { eapply evaluate_settled; [done|done|apply registry_fine|exact He|done|by eapply parse_valid|done]. }
  unfold new_decision, validated. cbn [policy_source refusal]. rewrite Hname.
  destruct Hset as [-> |[closure Hc]]; [by left|]. rewrite Hc. right.
  eexists _, closure. split; [done|]. split; [done|].
  pose proof (evaluate_model iter iter_spec set_list set_list_spec helpers p e edb closure He Ht Hwf Hc) as Hm.
  split; [done|]. split; [by eapply stable_ext|]. cbn [pd_verdict]. rewrite <- !matching_spec.
  destruct (bool_decide_reflect (matching iter closure (action_id a) (set_list (list_to_set (annotated deny (program e)))) = []));
    destruct (bool_decide_reflect (matching iter closure (action_id a) (set_list (list_to_set (annotated authorize (program e)))) = []));
    simpl; naive_solver.
Qed.

End Monitor.
End PcasMonitorSpec.

(** ** The default policy *)
Import RouterDomain PcasAst PcasParser PcasStratify PcasStratifySpec PcasEval PcasModel PcasJoin PcasFixpoint PcasTotal PcasMonitor PcasMonitorSpec.
Open Scope string_scope.
Open Scope list_scope.
Open Scope nat_scope.

Module PcasDefault.

(** ** The program *)

Definition atom (q : string) (ts : list Term) : Atom := {| predicate := q; args := ts |}.
Definition pos (q : string) (ts : list Term) : BodyElement := PositiveAtom (atom q ts).
Definition neg (q : string) (ts : list Term) : BodyElement := NegatedAtom (atom q ts).
Definition rule (ann : RuleAnnotation) (h : Atom) (b : list BodyElement) : Rule := {| annotation := ann; head := h; body := b |}.
Abbreviation text s := (Constant (VStr s)).
Abbreviation ActionId := (Var "ActionId").
Abbreviation DataId := (Var "DataId").
Abbreviation any := (Var "_").

Definition default_program : Program := {| rules := [
  rule plain_rule (atom "derived_from" [Var "X"; Var "Y"]) [pos "depends_on" [Var "X"; Var "Y"]];
  rule plain_rule (atom "derived_from" [Var "X"; Var "Z"])
    [pos "depends_on" [Var "X"; Var "Y"]; pos "derived_from" [Var "Y"; Var "Z"]];
  rule plain_rule (atom "untrusted_data" [DataId]) [pos "data" [DataId; any; text "untrusted"; any]];
  rule plain_rule (atom "reads_untrusted" [ActionId])
    [pos "pending_action" [ActionId; any; any; any]; pos "depends_on" [ActionId; DataId]; pos "untrusted_data" [DataId]];
  rule plain_rule (atom "reads_untrusted" [ActionId])
    [pos "pending_action" [ActionId; any; any; any]; pos "derived_from" [ActionId; DataId]; pos "untrusted_data" [DataId]];
  rule plain_rule (atom "external_sink" [ActionId]) [pos "pending_action" [ActionId; text "send_email"; any; any]];
  rule plain_rule (atom "external_sink" [ActionId]) [pos "pending_action" [ActionId; text "http_post"; any; any]];
  rule plain_rule (atom "external_sink" [ActionId]) [pos "pending_action" [ActionId; text "publish"; any; any]];
  rule deny (atom "toxic_flow" [ActionId]) [pos "reads_untrusted" [ActionId]; pos "external_sink" [ActionId]];
  rule authorize (atom "default_authorize" [ActionId])
    [pos "pending_action" [ActionId; any; any; any]; neg "reads_untrusted" [ActionId]];
  rule authorize (atom "default_authorize" [ActionId])
    [pos "pending_action" [ActionId; any; any; any]; pos "reads_untrusted" [ActionId]; neg "external_sink" [ActionId]]
] |}.

Lemma parse_default : parse_program DEFAULT_POLICY = Ok default_program.
Proof. vm_compute. reflexivity. Qed.

(** ** Its meaning *)

Section Request.
Context (a : CandidateAction) (g : DependencyGraphView).

Definition edge (x y : string) : Prop := exists e, e ∈ g_edges g /\ x = source_id e /\ y = target_id e.
Definition untrusted (d : string) : Prop := exists v, v ∈ data g /\ data_id v = d /\ dv_label v = "untrusted".
(** A dependency path leads from the action to untrusted data. *)
Definition tainted : Prop := exists d, tc edge (action_id a) d /\ untrusted d.
Definition sink : Prop := ca_kind a ∈ ["send_email"; "http_post"; "publish"].

Abbreviation on_act := ([VStr (action_id a)]).
Definition default_model : interp := fun q t =>
  graph_facts a g q t
  \/ (q = "derived_from" /\ exists x y, t = [VStr x; VStr y] /\ tc edge x y)
  \/ (q = "untrusted_data" /\ exists d, t = [VStr d] /\ untrusted d)
  \/ (q = "reads_untrusted" /\ t = on_act /\ tainted)
  \/ (q = "external_sink" /\ t = on_act /\ sink)
  \/ (q = "toxic_flow" /\ t = on_act /\ tainted /\ sink)
  \/ (q = "default_authorize" /\ t = on_act /\ (~ tainted \/ (tainted /\ ~ sink))).

Lemma model_pending t : default_model "pending_action" t <-> t = candidate_fact a.
Proof.
  unfold default_model, graph_facts. split.
  - intros [(fs & Hin & Ht)|Hm]; [in_list Hin; by apply list_elem_of_singleton in Ht|].
    repeat destruct Hm as [Hm|Hm]; by destruct Hm.
  - intros ->. left. eexists. split; [by left|by left].
Qed.
Lemma model_edge t : default_model "depends_on" t <-> exists x y, t = [VStr x; VStr y] /\ edge x y.
Proof.
  unfold default_model, graph_facts. split.
  - intros [(fs & Hin & Ht)|Hm]; [|repeat destruct Hm as [Hm|Hm]; by destruct Hm].
    in_list Hin. apply list_elem_of_fmap in Ht as (e & -> & He). eexists _, _. split; [done|]. by exists e.
  - intros (x & y & -> & e & He & -> & ->). left. eexists. split; [at_place|]. apply list_elem_of_fmap. by exists e.
Qed.
Lemma model_data t : default_model "data" t <-> exists v, v ∈ data g /\ t = values_data v.
Proof.
  unfold default_model, graph_facts. split.
  - intros [(fs & Hin & Ht)|Hm]; [|repeat destruct Hm as [Hm|Hm]; by destruct Hm].
    in_list Hin. apply list_elem_of_fmap in Ht as (v & -> & Hv). eauto.
  - intros (v & Hv & ->). left. eexists. split; [at_place|]. apply list_elem_of_fmap. by exists v.
Qed.
Ltac intensional :=
  unfold default_model; split;
  [intros [(fs & Hin & _)|Hm]; [by in_list Hin|repeat destruct Hm as [Hm|Hm]; by destruct Hm as [? Hm]]
  |intros; unfold graph_facts; tauto].
Lemma model_derived t : default_model "derived_from" t <-> exists x y, t = [VStr x; VStr y] /\ tc edge x y.
Proof. intensional. Qed.
Lemma model_untrusted t : default_model "untrusted_data" t <-> exists d, t = [VStr d] /\ untrusted d.
Proof. intensional. Qed.
Lemma model_reads t : default_model "reads_untrusted" t <-> t = on_act /\ tainted.
Proof. intensional. Qed.
Lemma model_sink t : default_model "external_sink" t <-> t = on_act /\ sink.
Proof. intensional. Qed.
Lemma model_toxic t : default_model "toxic_flow" t <-> t = on_act /\ tainted /\ sink.
Proof. intensional. Qed.
Lemma model_authorize t :
  default_model "default_authorize" t <-> t = on_act /\ (~ tainted \/ (tainted /\ ~ sink)).
Proof. intensional. Qed.

(** ** It is stable *)

Context (helpers : gmap string HelperFunction).

(** Takes apart that a concrete atom matches a fact. *)
Ltac open_matches H :=
  unfold matches in H;
  repeat (let v := fresh "v" in let f := fresh "f" in let Ht := fresh "Ht" in
          apply Forall2_cons_inv_l in H as (v & f & Ht & H & ->);
          lazymatch type of Ht with
          | term_matches _ (Var ?x) _ =>
              let b := eval vm_compute in (is_anonymous x) in
              lazymatch b with true => clear Ht | false => destruct Ht as [Ht|Ht]; [discriminate Ht|] end
          | _ => simpl in Ht; subst v
          end);
  apply Forall2_nil_inv_l in H as ->.
(** The premises of a concrete rule that fires. *)
Ltac open_rule Hf :=
  destruct Hf as (σ & Hpos & _ & Hneg & Hhead);
  rewrite <- list.Forall_forall in Hpos, Hneg; cbn in Hpos, Hneg;
  repeat (let f := fresh "f" in let Hm := fresh "Hm" in let HM := fresh "HM" in
          apply list.Forall_cons in Hpos as [(f & HM & Hm) Hpos]; open_matches Hm).

(** The head under the values found. *)
Ltac open_head Hhead :=
  unfold ground_atom, ground_terms in Hhead; cbn in Hhead;
  repeat match goal with H : _ !! _ = Some _ |- _ => rewrite H in Hhead end; injection Hhead as <-.

Ltac premise :=
  repeat match goal with
  | H : default_model "depends_on" _ |- _ => apply model_edge in H as (? & ? & ? & ?)
  | H : default_model "pending_action" _ |- _ => apply model_pending in H
  | H : default_model "data" _ |- _ => apply model_data in H as (? & ? & ?)
  | H : default_model "derived_from" _ |- _ => apply model_derived in H as (? & ? & ? & ?)
  | H : default_model "untrusted_data" _ |- _ => apply model_untrusted in H as (? & ? & ?)
  | H : default_model "reads_untrusted" _ |- _ => apply model_reads in H as (? & ?)
  | H : default_model "external_sink" _ |- _ => apply model_sink in H as (? & ?)
  end; unfold candidate_fact, values_data in *; cbn in *; simplify_eq.

Lemma default_closed : closed helpers default_program (graph_facts a g) default_model default_model.
Proof.
  split; [by left|]. intros r t Hr Hf. unfold default_program in Hr. cbn [rules] in Hr. in_list Hr; open_rule Hf;
    open_head Hhead; cbn [predicate head rule atom] in *; premise; clear Hpos.
  - apply model_derived. eexists _, _. split; [done|by apply tc_once].
  - apply model_derived. eexists _, _. split; [done|by eapply tc_l].
  - apply model_untrusted. eexists. split; [done|]. by eexists.
  - apply model_reads. split; [done|]. eexists. split; [by apply tc_once|done].
  - apply model_reads. split; [done|]. by eexists.
  - apply model_sink. split; [done|]. unfold sink. set_solver.
  - apply model_sink. split; [done|]. unfold sink. set_solver.
  - apply model_sink. split; [done|]. unfold sink. set_solver.
  - by apply model_toxic.
  - apply list.Forall_cons in Hneg as [(f & Hg & Hn) _]. open_head Hg. apply model_authorize. split; [done|]. left.
    intros ?. apply Hn. by apply model_reads.
  - apply list.Forall_cons in Hneg as [(f & Hg & Hn) _]. open_head Hg. apply model_authorize. split; [done|]. right.
    split; [done|]. intros ?. apply Hn. by apply model_sink.
Qed.

(** Rule number [n] fires under [σ]. *)
Lemma by_rule N (I : interp) n r q t (σ : subst) :
  closed helpers default_program (graph_facts a g) N I -> rules default_program !! n = Some r -> predicate (head r) = q ->
  Forall (fun x => exists f, I (predicate x) f /\ matches σ (args x) f) (body_positive_atoms r) ->
  body_helpers r = [] ->
  Forall (fun x => exists f, ground_atom x σ = Some f /\ ~ N (predicate x) f) (body_negated_atoms r) ->
  ground_atom (head r) σ = Some t -> I q t.
Proof.
  intros [_ HR] Hr <- Hp Hh Hn Ht. apply HR; [by eapply list_elem_of_lookup_2|]. rewrite list.Forall_forall in Hp, Hn.
  exists σ. split_and!; [done| |done|done]. rewrite Hh. intros h Hin. by apply not_elem_of_nil in Hin.
Qed.
Ltac fire n σ := eapply (by_rule default_model _ n _ _ _ σ);
  [eassumption|reflexivity|reflexivity| |reflexivity| |reflexivity]; cbn;
  repeat first [apply Forall_nil_2|apply Forall_cons_2].
Ltac meets := eexists; split; [eassumption|repeat constructor; right; reflexivity].

Section Least.
Context (I : interp) (HI : closed helpers default_program (graph_facts a g) default_model I).

Lemma least_facts q t : graph_facts a g q t -> I q t.
Proof using HI. apply HI. Qed.
Lemma least_edge x y : edge x y -> I "depends_on" [VStr x; VStr y].
Proof using HI.
  intros (e & He & -> & ->). apply least_facts. eexists. split; [at_place|]. apply list_elem_of_fmap. by exists e.
Qed.
Lemma least_pending : I "pending_action" (candidate_fact a).
Proof using HI. apply least_facts. eexists. split; [by left|by left]. Qed.
Lemma least_derived x y : tc edge x y -> I "derived_from" [VStr x; VStr y].
Proof using HI.
  induction 1 as [x y He|x y z He _ IH]; apply least_edge in He.
  - fire 0 ({["X" := VStr x; "Y" := VStr y]} : subst). meets.
  - fire 1 ({["X" := VStr x; "Y" := VStr y; "Z" := VStr z]} : subst); meets.
Qed.
Lemma least_untrusted d : untrusted d -> I "untrusted_data" [VStr d].
Proof using HI.
  intros (v & Hv & <- & Hl). assert (I "data" (values_data v)) as Hd.
  { apply least_facts. eexists. split; [at_place|]. apply list_elem_of_fmap. by exists v. }
  unfold values_data in Hd. rewrite Hl in Hd. fire 2 ({["DataId" := VStr (data_id v)]} : subst). meets.
Qed.
Lemma least_reads : tainted -> I "reads_untrusted" on_act.
Proof using HI.
  intros (d & Hp%least_derived & Hd%least_untrusted). pose proof least_pending as Ha.
  fire 4 ({["ActionId" := VStr (action_id a); "DataId" := VStr d]} : subst); meets.
Qed.
Lemma least_sink : sink -> I "external_sink" on_act.
Proof using HI.
  intros Hs. pose proof least_pending as Ha. unfold candidate_fact in Ha. unfold sink in Hs.
  in_list Hs; rewrite Hs in Ha.
  - fire 5 ({["ActionId" := VStr (action_id a)]} : subst). meets.
  - fire 6 ({["ActionId" := VStr (action_id a)]} : subst). meets.
  - fire 7 ({["ActionId" := VStr (action_id a)]} : subst). meets.
Qed.
Lemma least_model q t : default_model q t -> I q t.
Proof using HI.
  pose proof least_pending as Ha.
  intros [?|[[-> (x & y & -> & ?)]|[[-> (d & -> & ?)]|[[-> [-> ?]]|[[-> [-> ?]]|[[-> [-> [Ht Hs]]]|[-> [-> Hm]]]]]]]].
  - by apply least_facts.
  - by apply least_derived.
  - by apply least_untrusted.
  - by apply least_reads.
  - by apply least_sink.
  - apply least_reads in Ht. apply least_sink in Hs. fire 8 ({["ActionId" := VStr (action_id a)]} : subst); meets.
  - destruct Hm as [Hn|[Ht Hn]].
    + fire 9 ({["ActionId" := VStr (action_id a)]} : subst); [meets|]. eexists. split; [reflexivity|]. by intros [_ ?]%model_reads.
    + apply least_reads in Ht. fire 10 ({["ActionId" := VStr (action_id a)]} : subst); [meets|meets|].
      eexists. split; [reflexivity|]. by intros [_ ?]%model_sink.
Qed.
End Least.

Lemma default_stable : stable helpers default_program (graph_facts a g) default_model.
Proof. intros q t. split; [intros Hm I HI; by apply (least_model I HI)|]. intros H. apply H, default_closed. Qed.
End Request.

(** ** Loading it *)

Definition default_level (q : string) : nat := if String.eqb q "default_authorize" then 1 else 0.
Definition respects_levels (level : string -> nat) (r : Rule) : bool :=
  forallb (fun b => level (predicate b) <=? level (predicate (head r))) (body_positive_atoms r)
  && forallb (fun b => level (predicate b) <? level (predicate (head r))) (body_negated_atoms r).
Lemma respects_no_recursion level p : forallb (respects_levels level) (rules p) = true -> ~ negative_recursion p.
Proof.
  rewrite forallb_forall. setoid_rewrite <- list_elem_of_In. intros H.
  apply (levels_no_recursion level); intros x y (r & Hr & <- & b & Hb%list_elem_of_In & <-);
    apply H, andb_true_iff in Hr as [Hp Hn]; rewrite forallb_forall in Hp, Hn.
  - by apply Nat.leb_le, Hp.
  - by apply Nat.ltb_lt, Hn.
Qed.
Lemma default_unrecursive : ~ negative_recursion default_program.
Proof. apply (respects_no_recursion default_level). vm_compute. reflexivity. Qed.

Section Monitor.
Context (iter : list fact -> list fact) (iter_spec : forall l, iter l ≡ₚ l).
Context (set_list : gset string -> list string) (set_list_spec : forall X, set_list X ≡ₚ elements X).
Context (loads : string -> option json) (dumps : json -> string).
Abbreviation helpers := (HELPER_REGISTRY loads dumps).
Abbreviation new_monitor := (new_monitor set_list loads dumps).
Context (diagnostic_text : exn -> string).
Abbreviation authorize_action := (authorize_action iter set_list loads dumps diagnostic_text).

Definition default_arities : gmap string nat := list_to_map [
  ("derived_from", 2); ("depends_on", 2); ("untrusted_data", 1); ("data", 4); ("reads_untrusted", 1);
  ("pending_action", 4); ("external_sink", 1); ("toxic_flow", 1); ("default_authorize", 1)].

Lemma default_evaluator :
  exists e, new_evaluator set_list helpers default_program = Ok e
    /\ program e = default_program /\ relation_arities e = default_arities /\ well_typed e = true.
Proof using set_list_spec.
  assert (disambiguate_program default_program (elements (dom helpers)) = Ok default_program) as Hd by (vm_compute; reflexivity).
  destruct (stratify_safe set_list set_list_spec _ _ _ Hd) as [[Hn _]|[_ [ss Hs]]].
  - apply safe_rules. vm_compute. reflexivity.
  - destruct (default_unrecursive Hn).
  - unfold new_evaluator. rewrite Hs. cbn [mbind result_bind fst snd].
    assert (gather_arities (rules default_program) ∅ = Ok default_arities) as -> by (vm_compute; reflexivity).
    eexists. split; [done|]. split_and!; [done|done|]. unfold well_typed. cbn [program relation_arities]. vm_compute. done.
Qed.

(** The texts of a request. *)
Definition view_texts (a : CandidateAction) (g : DependencyGraphView) : list FactValue :=
  remove_dups (candidate_fact a ++ (mjoin (mjoin (view_facts g)))).

Lemma graph_values a g q t v : graph_facts a g q t -> v ∈ t -> v ∈ view_texts a g.
Proof using.
  intros (fs & Hin & Ht) Hv. apply elem_of_remove_dups, elem_of_app.
  assert (t ∈ mjoin (view_facts g) \/ t = candidate_fact a) as [Hm| ->]; [|right; apply list_elem_of_join; eauto|by left].
  rewrite list_elem_of_join. unfold view_facts.
  in_list Hin; [right; by apply list_elem_of_singleton in Ht| |left; eexists; split; [exact Ht|at_place]..].
  apply elem_of_app in Ht as [Ht|Ht%list_elem_of_singleton]; [left; eexists; split; [exact Ht|at_place]|by right].
Qed.

Lemma sum_submseteq {A} (f : A -> nat) l k : l ⊆+ k -> sum_list_with f l <= sum_list_with f k.
Proof using. induction 1; simpl; lia. Qed.

(** The rules have no constants in their heads, so every value is a text of the request. *)
Lemma default_domain e (edb : gmap string Relation) a g :
  program e = default_program -> (forall q t, holds edb q t <-> graph_facts a g q t) ->
  length (domain e edb) <= length (view_texts a g).
Proof using.
  intros Hp Hh. apply submseteq_length, NoDup_submseteq; [apply NoDup_remove_dups|].
  intros v [Hv|Hv]%elem_of_remove_dups%elem_of_app.
  - unfold fact_values in Hv. apply list_elem_of_bind in Hv as (rel & Hv & Hr). apply list_elem_of_bind in Hv as (f & Hv & Hf).
    apply list_elem_of_fmap in Hr as ([q rel'] & -> & Hr%elem_of_map_to_list). simpl in *.
    apply (graph_values a g q f); [|done]. apply Hh. by exists rel'.
  - rewrite Hp in Hv. vm_compute in Hv. by apply not_elem_of_nil in Hv.
Qed.

Abbreviation default_heads :=
  ["derived_from"; "untrusted_data"; "reads_untrusted"; "external_sink"; "toxic_flow"; "default_authorize"].
Lemma default_heads_spec e s :
  program e = default_program -> stratification (program e) (strata e) -> s ∈ strata e -> heads s ⊆+ default_heads.
Proof using.
  intros Hp Hst Hs. apply NoDup_submseteq; [apply NoDup_remove_dups|].
  intros q (r & -> & Hr)%elem_of_remove_dups%list_elem_of_fmap. apply (st_rules _ _ Hst s r Hs) in Hr as [Hr _].
  rewrite Hp in Hr. unfold default_program in Hr. cbn [rules] in Hr. in_list Hr; cbn; at_place.
Qed.

(** With few enough texts the Herbrand base of every stratum is below the limit. *)
Lemma default_base e edb a g s :
  program e = default_program -> stratification (program e) (strata e) -> (forall q t, holds edb q t <-> graph_facts a g q t) ->
  length (view_texts a g) <= 29 -> s ∈ strata e -> base (domain e edb) default_arities (heads s) < MAX_ITERATIONS.
Proof using.
  intros Hp Hst Hh Hlen Hs. pose proof (default_domain e edb a g Hp Hh) as HD.
  pose proof (default_heads_spec e s Hp Hst Hs) as Hsub. unfold base.
  apply (sum_submseteq (fun q => length (domain e edb) ^ default 0 (default_arities !! q))) in Hsub.
  eapply Nat.le_lt_trans; [exact Hsub|]. clear Hsub. revert HD. generalize (length (domain e edb)). intros n Hn.
  change (n ^ 2 + (n ^ 1 + (n ^ 1 + (n ^ 1 + (n ^ 1 + (n ^ 1 + 0))))) < 1024). rewrite Nat.pow_1_r. simpl. nia.
Qed.

(** The two annotations in the model. *)
Lemma marked_default e a g (M : interp) :
  program e = default_program -> (forall q t, M q t <-> default_model a g q t) ->
  (marked e M deny (action_id a) <-> tainted a g /\ sink a)
  /\ (marked e M authorize (action_id a) <-> ~ tainted a g \/ (tainted a g /\ ~ sink a)).
Proof using.
  intros Hp HM. unfold marked. rewrite Hp. unfold default_program. cbn [rules]. split; split.
  - intros (r & rest & Hr & Ha & Hm%HM). in_list Hr; try discriminate Ha. by apply model_toxic in Hm as [_ ?].
  - intros Hts. eexists _, []. split; [do 8 right; left|]. split; [done|]. apply HM. by apply model_toxic.
  - intros (r & rest & Hr & Ha & Hm%HM). in_list Hr; try discriminate Ha; by apply model_authorize in Hm as [_ ?].
  - intros Hn. eexists _, []. split; [do 9 right; left|]. split; [done|]. apply HM. by apply model_authorize.
Qed.
Lemma default_no_helpers r : r ∈ rules default_program -> body_helpers r = [].
Proof using. unfold default_program. cbn [rules]. intros Hr. in_list Hr; reflexivity. Qed.
Lemma default_arities_match e edb (a : CandidateAction) (g : DependencyGraphView) :
  relation_arities e = default_arities ->
  (forall q rel, edb !! q = Some rel -> (q, r_arity rel) ∈ ("pending_action", 4) :: EDB_ARITIES) -> arities_match e edb = true.
Proof using.
  intros Ha Hq. unfold arities_match. rewrite Ha. apply forallb_forall.
  intros [q rel] Hin%list_elem_of_In%elem_of_map_to_list%Hq. unfold arity_ok. cbn [fst snd]. generalize dependent (r_arity rel).
  intros n Hin. in_list Hin; vm_compute; reflexivity.
Qed.

(** What the default policy decides on a request. *)
Definition decided (a : CandidateAction) (g : DependencyGraphView) (d : PolicyDecision) : Prop :=
  (diagnostic d = Some EvaluationError /\ pd_verdict d = FORBID /\ 29 < length (view_texts a g))
  \/ (diagnostic d = None
      /\ ((pd_verdict d = FORBID /\ tainted a g /\ sink a) \/ (pd_verdict d = PERMIT /\ ~ (tainted a g /\ sink a)))).

Lemma default_loads :
  exists m e, new_monitor DEFAULT_POLICY "<default>" = Ok m /\ evaluator m = Some e
    /\ new_evaluator set_list helpers default_program = Ok e
    /\ program e = default_program /\ relation_arities e = default_arities /\ well_typed e = true.
Proof using set_list_spec.
  destruct default_evaluator as (e & He & Hp & Har & Ht).
  exists {| source_name := "<default>"; evaluator := Some e; load_error := None |}, e.
  split; [|repeat (split; [eassumption || reflexivity|]); assumption].
  unfold PcasMonitor.new_monitor. rewrite parse_default. cbn [mbind result_bind]. rewrite He. reflexivity.
Qed.

Lemma default_decides m a g :
  new_monitor DEFAULT_POLICY "<default>" = Ok m -> exists d, authorize_action m a g = Ok d /\ decided a g d.
Proof using iter_spec set_list_spec.
  destruct default_loads as (m' & e & Hm & Hev & He & Hp & Har & Ht). intros Hm'. assert (m' = m) as -> by congruence. clear Hm'.
  assert (String.length "<default>" <= 200) as Hlen by (simpl; lia).
  destruct (authorize_closure iter iter_spec set_list set_list_spec loads dumps diagnostic_text _ _ m e a g Hm Hlen Hev Ht)
    as (edb & Hedb & Hcase). clear Hm.
  destruct (request_edb_spec a g) as (edb' & Hedb' & Hwf & Hin & Hh). assert (edb' = edb) as -> by congruence.
  destruct Hcase as [[Herr ->]|(d & closure & _ & -> & Hdiag & Hst & Hf & Hpm)].
  - eexists. split; [reflexivity|]. left. split_and!; [reflexivity|reflexivity|]. apply Nat.nle_gt. intros Hsmall.
    destruct (evaluate_returns iter iter_spec set_list set_list_spec helpers (registry_fine loads dumps)
                default_program e edb He Ht (parse_valid _ _ parse_default) Hwf) as [db Hdb].
    + by eapply default_arities_match.
    + intros r Hr. rewrite Hp in Hr. rewrite (default_no_helpers r Hr). constructor.
    + intros s Hs. rewrite Har. eapply default_base; [exact Hp| |exact Hh|exact Hsmall|exact Hs].
      by apply (new_evaluator_spec set_list set_list_spec helpers) in He as [? _].
    + rewrite Hdb in Herr. discriminate Herr.
  - exists d. split; [reflexivity|]. right. split; [exact Hdiag|].
    assert (forall q t, holds closure q t <-> default_model a g q t) as Hcl.
    { rewrite Hp in Hst. intros q t. eapply (evaluator_unique set_list set_list_spec helpers _ e _ _ _ He); rewrite Hp;
        [exact Hst|apply default_stable]. }
    clear He Hedb Hedb'. destruct (marked_default e a g (holds closure) Hp Hcl) as [Hd Ha]. rewrite Hd in Hf, Hpm. rewrite Ha in Hpm.
    assert (tainted a g \/ ~ tainted a g) as Htd.
    { destruct (decide_holds closure "reads_untrusted" [VStr (action_id a)]) as [Hr|Hr]; rewrite Hcl, model_reads in Hr; tauto. }
    assert (sink a \/ ~ sink a) as Hsd by (destruct (decide (sink a)); auto). tauto.
Qed.

(** C9. The default policy loads, and on every request forbids exactly where the
    action is an external write (an e-mail, an HTTP post, a publication) with a
    dependency path to data labelled untrusted, and permits all else; it never
    abstains.  Where evaluation runs into its iteration limit it forbids; that does
    not happen with up to 29 distinct texts. *)
Theorem default_policy_exact :
  exists m, new_monitor DEFAULT_POLICY "<default>" = Ok m
    /\ forall a g, exists d, authorize_action m a g = Ok d
       /\ ((diagnostic d = Some EvaluationError /\ pd_verdict d = FORBID /\ 29 < length (view_texts a g))
           \/ (diagnostic d = None
               /\ ((pd_verdict d = FORBID /\ tainted a g /\ sink a) \/ (pd_verdict d = PERMIT /\ ~ (tainted a g /\ sink a))))).
Proof using iter_spec set_list_spec.
  destruct default_loads as (m & _ & Hm & _). exists m. split; [exact Hm|]. intros a g. exact (default_decides m a g Hm).
Qed.

(** ** The specialist *)

Section Specialist.
Context (str_other : pyval -> string) (rationale : PolicyDecision -> string).
Abbreviation specialist_evaluate :=
  (specialist_evaluate iter set_list loads dumps diagnostic_text str_other rationale).

Lemma specialist_run m r prov s :
  specialist_evaluate m r prov = Ok s ->
  exists a d, project_action str_other r = Ok a /\ authorize_action m a (project_graph prov) = Ok d
    /\ specialist_name s = "pcas" /\ risk_score s = risk_of (pd_verdict d).
Proof using.
  unfold PcasMonitor.specialist_evaluate. intros (a & Ha & H)%result_bind_Ok. apply result_bind_Ok in H as (d & Hd & H).
  exists a, d. unfold to_specialist_result, validated in H. destruct (field 1500 _); [|done]. by injection H as <-.
Qed.

(** The monitor's verdict is the structural floor's: the specialist's result is
    a proof of violation for the decision point exactly when the monitor forbids. *)
Theorem pcas_floor_exact m r prov s :
  specialist_evaluate m r prov = Ok s ->
  exists a d, project_action str_other r = Ok a /\ authorize_action m a (project_graph prov) = Ok d
    /\ (StructuralFloor.proves_violation s <-> pd_verdict d = FORBID).
Proof using.
  intros (a & d & Ha & Hd & Hn & Hr)%specialist_run. exists a, d. split; [done|]. split; [done|].
  unfold StructuralFloor.proves_violation. rewrite Hn, Hr. split.
  - intros [[_ Hle]|[[? _]|[[? _]|[? _]]]]; [|done..]. by destruct (pd_verdict d); vm_compute in Hle.
  - intros ->. left. by split; [|vm_compute].
Qed.

(** On the objects the information-flow layer builds, which have neither a
    [nodes] nor an [edges] attribute, and on requests without provenance, the
    dependency graph is empty, and the default policy permits every action at risk
    0.0: the specialist as wired never denies. *)
Theorem live_specialist_permits m r prov s :
  new_monitor DEFAULT_POLICY "<default>" = Ok m ->
  prov = None \/ prov = Some {| p_nodes := None; p_edges := None |} ->
  specialist_evaluate m r prov = Ok s -> risk_score s = f_zero.
Proof using iter_spec set_list_spec.
  intros Hm Hprov (a & d & _ & Hd & _ & ->)%specialist_run.
  assert (project_graph prov = empty_view) as Hg by (destruct Hprov as [-> | ->]; reflexivity). rewrite Hg in Hd.
  destruct (default_decides m a empty_view Hm) as (d' & Hd' & Hdec). assert (d' = d) as -> by congruence.
  destruct Hdec as [(_ & _ & Hlt)|(_ & [(_ & (x & _ & v & Hv & _) & _)|[-> _]])]; [exfalso| |reflexivity].
  - assert (length (view_texts a empty_view) <= 4); [|lia].
    transitivity (length (candidate_fact a)); [|simpl; lia]. apply submseteq_length, NoDup_submseteq; [apply NoDup_remove_dups|].
    intros v Hv. unfold view_texts in Hv. rewrite elem_of_remove_dups in Hv. change (v ∈ candidate_fact a ++ []) in Hv. rewrite app_nil_r in Hv. exact Hv.
  - destruct (not_elem_of_nil _ Hv).
Qed.
End Specialist.
End Monitor.
End PcasDefault.

(** * PCAS policies: concrete evaluations *)
Import RouterDomain PdpDomain PcasAst PcasParser PcasParserSpec PcasStratify PcasStratifySpec PcasEval PcasModel PcasJoin PcasFixpoint.
Import PcasTotal PcasMonitor PcasMonitorSpec PcasDefault.
Open Scope string_scope.
Open Scope list_scope.
Open Scope nat_scope.

Module PcasRuns.

(** Sets iterated in one order, and no JSON. *)
Definition message (_ : exn) : string := "policy error".
Definition keep (l : list fact) : list fact := l.
Definition listed (X : gset string) : list string := elements X.
Definition no_json (_ : string) : option json := None.
Definition no_dump (_ : json) : string := "".
Lemma keep_spec l : keep l ≡ₚ l.
Proof. done. Qed.
Lemma listed_spec X : listed X ≡ₚ elements X.
Proof. done. Qed.
Abbreviation helpers := (HELPER_REGISTRY no_json no_dump).
Abbreviation load policy := (new_monitor listed no_json no_dump policy "<inline>").
Abbreviation decide_on m := (authorize_action keep listed no_json no_dump message m).

Definition send : CandidateAction := {| action_id := "a1"; ca_kind := "send_email"; actor := "bot"; payload_hash := "h" |}.
Definition secret : GraphDataView := {| data_id := "d1"; dv_source := "web"; dv_label := "untrusted"; dv_content_hash := "h" |}.
(** [a1] depends on [m1], which depends on the untrusted [d1]. *)
Definition leak : DependencyGraphView := {|
  actions := []; messages := []; tool_calls := []; data := [secret]; denied := [];
  g_edges := [{| source_id := "a1"; target_id := "m1" |}; {| source_id := "m1"; target_id := "d1" |}];
  roles := [{| ra_actor := "bot"; role_name := "mailer" |}]; approvals := [] |}.

(** ** Parsing and stratification *)

Definition small : Program := {| rules := [
  rule deny (atom "late" [Var "A"; Constant (VInt (-3))]) [pos "seen" [Var "A"; any]; neg "ok" [Var "A"; text "x"]]] |}.
Lemma parse_print_policy_witness : parse_program (print_program small) = Ok small.
Proof. apply parse_print_policy. repeat constructor; vm_compute; repeat constructor. Defined.

(** A game: a position wins that moves to one that does not. *)
Definition game : Program := {| rules := [rule plain_rule (atom "win" [Var "X"]) [pos "move" [Var "X"; Var "Y"]; neg "win" [Var "Y"]]] |}.
Lemma stratify_exact_witness :
  (forall r, r ∈ rules game -> rule_named [] r) /\ ~ acceptable [] game /\ stratify listed game [] = Err StratificationError.
Proof.
  assert (forall r, r ∈ rules game -> rule_named [] r) as Hn.
  { intros r ->%list_elem_of_singleton. unfold rule_named, all_named, negates, calls. split_and!.
    - intros x s Hx. simpl in Hx. set_solver.
    - intros a Ha x s Hx. simpl in Ha. apply elem_of_cons in Ha as [?|Ha]; [done|]. apply list_elem_of_singleton in Ha.
      injection Ha as ->. simpl in Hx. set_solver.
    - intros ts [(a & _ & Ha & _)|(n & Hn)]; [by apply not_elem_of_nil in Ha|]. simpl in Hn. set_solver. }
  split; [exact Hn|]. destruct (stratify_exact listed listed_spec game [] Hn) as [[_ (p' & ss & Hs & _)]|H]; [|exact H].
  vm_compute in Hs. discriminate Hs.
Defined.

(** ** Evaluation *)

Definition result_or {A} (d : A) (x : result exn A) : A := match x with Ok a => a | Err _ => d end.
Definition no_evaluator : Evaluator := {| program := {| rules := [] |}; strata := []; relation_arities := ∅ |}.
Definition e0 : Evaluator := Eval vm_compute in result_or no_evaluator (new_evaluator listed helpers default_program).
Definition edb0 : gmap string Relation := Eval vm_compute in result_or ∅ (request_edb send leak).
Definition closure0 : gmap string Relation := Eval vm_compute in result_or ∅ (evaluate keep helpers e0 edb0).

Lemma edb0_wf : wf_edb edb0.
Proof.
  destruct (request_edb_spec send leak) as (edb & He & Hwf & _). assert (request_edb send leak = Ok edb0) as H0 by (vm_compute; reflexivity).
  assert (edb = edb0) as <- by congruence. exact Hwf.
Qed.
Lemma evaluate_stable_witness :
  stable helpers (program e0) (holds edb0) (holds closure0)
  /\ forall M, stable helpers (program e0) (holds edb0) M -> forall q f, M q f <-> holds closure0 q f.
Proof.
  apply (evaluate_stable keep keep_spec listed listed_spec helpers default_program e0 edb0 closure0).
  - vm_compute. reflexivity.
  - vm_compute. reflexivity.
  - exact edb0_wf.
  - vm_compute. reflexivity.
Defined.

(** ** The monitor *)

Definition m0 : PcasMonitor := {| source_name := "<inline>"; evaluator := Some e0; load_error := None |}.

Lemma default_policy_exact_witness :
  exists m, new_monitor listed no_json no_dump DEFAULT_POLICY "<default>" = Ok m
    /\ forall a g, exists d, authorize_action keep listed no_json no_dump message m a g = Ok d
       /\ ((diagnostic d = Some EvaluationError /\ pd_verdict d = FORBID /\ 29 < length (view_texts a g))
           \/ (diagnostic d = None
               /\ ((pd_verdict d = FORBID /\ tainted a g /\ sink a) \/ (pd_verdict d = PERMIT /\ ~ (tainted a g /\ sink a))))).
Proof. exact (default_policy_exact keep keep_spec listed listed_spec no_json no_dump message). Defined.
Example leak_forbidden : pd_verdict <$> decide_on m0 send leak = Ok FORBID.
Proof. vm_compute. reflexivity. Qed.

(** ** The specialist *)

Definition show (_ : pyval) : string := "".
Definition why (_ : PolicyDecision) : string := "decided".
Abbreviation run := (specialist_evaluate keep listed no_json no_dump message show why).
Definition mail : EvaluationRequest := {|
  request_id := "a1"; action_type := "send_email"; content := "hello"; recipient := None; channel := "email";
  environment := "production"; metadata := [("action_kind", PStr "send_email")]; req_agent_id := None; session_id := None;
  agent_identity := None; requested_at := 0%Z |}.
(** The graph as attributes that the adapter understands. *)
Definition understood : provenance := {|
  p_nodes := Some [[("kind", "Data"); ("id", "d1"); ("label", "untrusted")]];
  p_edges := Some [[("source", "a1"); ("target", "d1")]] |}.
Definition denied_mail : SpecialistResult := Eval vm_compute in
  match run m0 mail (Some understood) with
  | Ok s => s
  | Err _ => {| specialist_name := ""; risk_score := f_zero; sp_confidence := f_zero; sp_summary := ""; sp_rationale := None;
                evidence := []; matched_policy_clause_ids := []; matched_entity_names := []; sp_uncertainty_flags := [] |}
  end.
Lemma pcas_floor_exact_witness : run m0 mail (Some understood) = Ok denied_mail /\ StructuralFloor.proves_violation denied_mail.
Proof.
  assert (run m0 mail (Some understood) = Ok denied_mail) as H by (vm_compute; reflexivity). split; [exact H|].
  destruct (pcas_floor_exact keep listed no_json no_dump message show why m0 mail (Some understood) denied_mail H)
    as (a & d & Ha & Hd & Hiff).
  apply Hiff. vm_compute in Ha. injection Ha as <-. vm_compute in Hd. injection Hd as <-. reflexivity.
Defined.

Definition m1 : PcasMonitor := {| source_name := "<default>"; evaluator := Some e0; load_error := None |}.
Lemma live_specialist_permits_witness :
  exists s, run m1 mail (Some {| p_nodes := None; p_edges := None |}) = Ok s /\ risk_score s = f_zero.
Proof.
  destruct (run m1 mail (Some {| p_nodes := None; p_edges := None |})) as [s|] eqn:E; [|vm_compute in E; discriminate E].
  exists s. split; [reflexivity|].
  apply (live_specialist_permits keep keep_spec listed listed_spec no_json no_dump message show why m1 mail
           (Some {| p_nodes := None; p_edges := None |})).
  - vm_compute. reflexivity.
  - right. reflexivity.
  - exact E.
Defined.

(** ** Where the monitor and its documentation part *)

Definition line (l : list string) : string := String.concat "" l.
Definition outcome (policy : string) (g : DependencyGraphView) : result exn AuthorizationVerdict :=
  m ← load policy; d ← decide_on m send g; Ok (pd_verdict d).

(** A name in a term position raises from the constructor. *)
Example bareword_raises : outcome "@deny d(A) :- pending_action(A, kind, _, _)." leak = Err ValidationError.
Proof. vm_compute. reflexivity. Qed.
(** Two arities of one body predicate are not noticed until a lookup raises. *)
Example arity_raises :
  outcome (line ["p(X) :- role(X, _). @deny d(A) :- pending_action(A, _, B, _), role(B, _, "; quoted "x"; ")."]) leak = Err IndexError.
Proof. vm_compute. reflexivity. Qed.
(** A negated atom with an anonymous variable passes the safety check, and its rule never fires. *)
Example anonymous_negation_dead :
  outcome "@deny unapproved(A) :- pending_action(A, _, _, _), not approved(A, _, _)." leak = Ok ABSTAIN
  /\ outcome "seen(A) :- approved(A, _, _). @deny unapproved(A) :- pending_action(A, _, _, _), not seen(A)." leak = Ok FORBID.
Proof. vm_compute. done. Qed.
(** The value of a function helper cannot bind its last argument. *)
Example function_helper_unusable :
  outcome "@deny d(A) :- pending_action(A, _, _, P), json_extract(P, K, V), equals(V, 1)." leak = Ok FORBID
  /\ (load_error <$> load "@deny d(A) :- pending_action(A, _, _, P), json_extract(P, P, V).") = Ok (Some StratificationError).
Proof. vm_compute. done. Qed.
(** [True] and [1] are one fact. *)
Example bool_is_int : outcome "p(true). @deny d(A) :- pending_action(A, _, _, _), p(1)." leak = Ok FORBID.
Proof. vm_compute. reflexivity. Qed.

(** A policy whose load error has a long text (here that of an unknown annotation, which
    repeats it) raises on every action instead of forbidding it. *)
Definition long_name : string := String.concat "" (replicate 2000 "x").
Example long_load_error_raises :
  (m ← load ("@" +:+ long_name); authorize_action keep listed no_json no_dump (fun _ => "unknown annotation '@" +:+ long_name +:+ "' (line 1, col 1)") m send leak)
  = Err ValidationError.
Proof. vm_compute. reflexivity. Qed.

(** A denial with many facts has too long a summary, and raises. *)
Definition crowd : provenance := {|
  p_nodes := Some ((fun n => [("kind", "Data"); ("id", pretty n)]) <$> seq 0 200); p_edges := None |}.
Example long_denial_raises :
  (m ← load "@deny flood(A, D) :- pending_action(A, _, _, _), data(D, _, _, _)."; run m mail (Some crowd)) = Err ValidationError.
Proof. vm_compute. reflexivity. Qed.
End PcasRuns.
