(* ===== verification/CamelCap.v ===== *)
(** * CaMeL: capabilities, plans and tool policies

    [tex/camel/capability.py], [value.py], [plan.py] and [policy.py].  A frozenset
    of capabilities is a finite set, a dict of policies a finite map: neither
    iteration order is observed, since every rendering sorts.  The two label orders
    are those of [RuleOfTwo].  A value is a [pyval]: [PObj] stands for a tuple, seen
    through its [str()]. *)
From stdpp Require Import pretty.
From S2P Require Import Prelude StateExn PyStr PyVal RouterFusion PyFormat RuleOfTwo.
Import RuleOfTwo.
Open Scope string_scope.
Open Scope list_scope.
Open Scope nat_scope.

Module CamelCap.

(** The exceptions of the package; [Raised] is one of another class, raised by a
    tool or a model. *)
Inductive exn :=
| CamelInterpreterError (message : string) (node_index : option nat)
| PlanError (message : string)
| RuntimeError (message : string)
| ValueError (message : string)
| TypeError
| ValidationError
| Raised (class : string).

(** What pydantic checks of a text: [Field(min_length=lo, max_length=hi)]. *)
Definition field (lo hi : nat) (s : string) : bool := (lo <=? String.length s) && (String.length s <=? hi).
Definition opt_field (hi : nat) (s : option string) : bool :=
  match s with Some s => field 0 hi s | None => true end.
Definition validated {A} (ok : bool) (a : A) : result exn A := if ok then Ok a else Err ValidationError.
Definition n_str (n : nat) : string := pretty (N.of_nat n).

(** ** The two axes *)

Definition level_int (l : CapabilityLevel) : nat := match l with TRUSTED => 0 | USER => 1 | UNTRUSTED => 2 end.
Definition level_of (n : nat) : CapabilityLevel := match n with 0 => TRUSTED | 1 => USER | _ => UNTRUSTED end.
Definition level_join (a b : CapabilityLevel) : CapabilityLevel := level_of (Nat.max (level_int a) (level_int b)).
Definition level_leb (a b : CapabilityLevel) : bool := level_int a <=? level_int b.
Definition is_untrusted_level (l : CapabilityLevel) : bool := bool_decide (l = UNTRUSTED).

Definition conf_of (n : nat) : ConfidentialityLevel :=
  match n with 0 => PUBLIC | 1 => INTERNAL | 2 => CONFIDENTIAL | _ => RESTRICTED end.
Definition conf_join (a b : ConfidentialityLevel) : ConfidentialityLevel :=
  conf_of (Nat.max (conf_int a) (conf_int b)).

#[export] Instance ConfidentialityLevel_eq : EqDecision ConfidentialityLevel.
Proof. solve_decision. Defined.
Lemma level_of_int l : level_of (level_int l) = l.
Proof. by destruct l. Qed.
Lemma conf_of_int c : conf_of (conf_int c) = c.
Proof. by destruct c. Qed.
#[export] Instance CapabilityLevel_countable : Countable CapabilityLevel := inj_countable' level_int level_of level_of_int.
#[export] Instance ConfidentialityLevel_countable : Countable ConfidentialityLevel :=
  inj_countable' conf_int conf_of conf_of_int.

(** ** Capabilities *)

Record Capability := {
  c_level : CapabilityLevel;
  c_confidentiality : ConfidentialityLevel;
  c_source : string;
  provenance_id : option string
}.
#[export] Instance Capability_eq : EqDecision Capability.
Proof. solve_decision. Defined.
#[export] Instance Capability_countable : Countable Capability.
Proof.
  refine (inj_countable' (fun c => (c_level c, c_confidentiality c, c_source c, provenance_id c))
            (fun '(l, k, s, p) => {| c_level := l; c_confidentiality := k; c_source := s; provenance_id := p |}) _).
  by intros [].
Defined.

Definition new_capability (l : CapabilityLevel) (k : ConfidentialityLevel) (source : string) (prov : option string)
    : result exn Capability :=
  validated (field 1 128 source && opt_field 128 prov)
    {| c_level := l; c_confidentiality := k; c_source := source; provenance_id := prov |}.
(** The class methods; the confidentiality is [PUBLIC] where a caller gives none. *)
Definition cap_trusted (source : string) (k : ConfidentialityLevel) : result exn Capability := new_capability TRUSTED k source None.
Definition cap_user (source : string) (k : ConfidentialityLevel) : result exn Capability := new_capability USER k source None.
Definition cap_untrusted (source : string) (prov : option string) (k : ConfidentialityLevel) : result exn Capability :=
  new_capability UNTRUSTED k source prov.
Definition cap_sensitive (source : string) (l : CapabilityLevel) (k : ConfidentialityLevel) (prov : option string)
    : result exn Capability := new_capability l k source prov.

Record FidesLabel := { integrity : CapabilityLevel; confidentiality : ConfidentialityLevel }.
Definition fides_join (a b : FidesLabel) : FidesLabel := {|
  integrity := level_join (integrity a) (integrity b);
  confidentiality := conf_join (confidentiality a) (confidentiality b) |}.
Definition label_untrusted (l : FidesLabel) : bool := is_untrusted_level (integrity l).
Definition label_sensitive (l : FidesLabel) : bool := is_sensitive (confidentiality l).
Definition is_flow_violation (l : FidesLabel) : bool := label_untrusted l && label_sensitive l.

Abbreviation CapabilitySet := (gset Capability).
(** [max(...)] over the members; the empty set is at the bottom. *)
Definition max_over (f : Capability -> nat) (s : CapabilitySet) : nat := set_fold (fun c n => Nat.max (f c) n) 0 s.
Definition set_level (s : CapabilitySet) : CapabilityLevel := level_of (max_over (fun c => level_int (c_level c)) s).
Definition set_confidentiality (s : CapabilitySet) : ConfidentialityLevel :=
  conf_of (max_over (fun c => conf_int (c_confidentiality c)) s).
Definition fides_label (s : CapabilitySet) : FidesLabel :=
  {| integrity := set_level s; confidentiality := set_confidentiality s |}.
Definition sources (s : CapabilitySet) : gset string := set_map c_source s.
Definition is_trusted (s : CapabilitySet) : bool := bool_decide (set_level s = TRUSTED).
Definition is_untrusted (s : CapabilitySet) : bool := bool_decide (set_level s = UNTRUSTED).
Definition set_is_sensitive (s : CapabilitySet) : bool := is_sensitive (set_confidentiality s).
Definition set_flow_violation (s : CapabilitySet) : bool := is_flow_violation (fides_label s).
Definition caps_add (s : CapabilitySet) (c : Capability) : CapabilitySet := s ∪ {[ c ]}.
Definition set_join (a b : CapabilitySet) : CapabilitySet := a ∪ b.
(** [tuple(sorted(caps.sources))]. *)
Definition sorted_sources (s : CapabilitySet) : list string := RouterFusion.sorted (elements (sources s)).

(** ** Values *)

Record CapValue := { value : pyval; caps : CapabilitySet }.

Section Values.
(** What pydantic makes of an object outside [str | int | bool | None]. *)
Context (coerce : pyval -> result exn pyval).

Definition value_field (v : pyval) : result exn pyval :=
  match v with PStr _ | PInt _ | PBool _ | PNone => Ok v | _ => coerce v end.
Definition new_value (v : pyval) (s : CapabilitySet) : result exn CapValue :=
  v ← value_field v; Ok {| value := v; caps := s |}.
Definition val_trusted (v : pyval) (source : string) : result exn CapValue :=
  c ← cap_trusted source PUBLIC; new_value v {[ c ]}.
Definition val_user (v : pyval) (source : string) : result exn CapValue :=
  c ← cap_user source PUBLIC; new_value v {[ c ]}.
Definition val_untrusted (v : pyval) (source : string) (prov : option string) : result exn CapValue :=
  c ← cap_untrusted source prov PUBLIC; new_value v {[ c ]}.
(** [merged = merged | v.caps], for every value. *)
Definition merged (l : list CapabilitySet) : CapabilitySet := foldl set_join ∅ l.
Definition derived (v : pyval) (from : list CapValue) : result exn CapValue := new_value v (merged (caps <$> from)).
End Values.

(** ** Plans *)

Inductive Expr :=
| Literal (v : pyval)
| Var (name : string)
| Read (source : string) (key : option string).

Inductive PlanNode :=
| Assign (name : string) (expr : Expr)
| Call (tool : string) (args : list Expr) (result_var : option string)
| QLLM (query : string) (inputs : list string) (result_var : string)
| Return (expr : Expr).

Record Plan := { nodes : list PlanNode; description : option string }.

(** The models' validators. *)
Definition valid_expr (e : Expr) : bool :=
  match e with
  | Literal v => match v with PStr _ | PInt _ | PBool _ | PNone => true | _ => false end
  | Var x => field 1 64 x
  | Read src key => field 1 128 src && opt_field 128 key
  end.
Definition valid_node (n : PlanNode) : bool :=
  match n with
  | Assign x e => field 1 64 x && valid_expr e
  | Call tool args x => field 1 128 tool && forallb valid_expr args && opt_field 64 x
  | QLLM q inputs x => field 1 4096 q && forallb (field 1 64) inputs && field 1 64 x
  | Return e => valid_expr e
  end.
Definition new_plan (p : Plan) : result exn Plan :=
  validated (forallb valid_node (nodes p) && opt_field 500 (description p)) p.

Definition is_return (n : PlanNode) : bool := match n with Return _ => true | _ => false end.
(** The loop over [enumerate(self.nodes)], with [n = len(self.nodes)]. *)
Fixpoint validate_from (n i : nat) (seen_return : bool) (l : list PlanNode) : result exn unit :=
  match l with
  | [] => if seen_return then Ok () else Err (PlanError "Plan must end with a Return node")
  | x :: l =>
      if is_return x then
        if i =? n - 1 then validate_from n (S i) true l else Err (PlanError "Return must be the final node")
      else validate_from n (S i) seen_return l
  end.
Definition validate_structure (p : Plan) : result exn unit := validate_from (length (nodes p)) 0 false (nodes p).

(** ** Tool policies *)

Record ToolPolicy := {
  tool_name : string;
  max_arg_levels : list CapabilityLevel;
  forbidden_sources : gset string;
  tp_description : option string
}.
Definition new_policy (p : ToolPolicy) : result exn ToolPolicy :=
  validated (field 1 128 (tool_name p) && opt_field 500 (tp_description p)) p.

Fixpoint check_args (p : ToolPolicy) (i : nat) (args : list CapabilitySet) (maxs : list CapabilityLevel)
    : bool * option string :=
  match args, maxs with
  | s :: args, m :: maxs =>
      if negb (level_leb (set_level s) m) then
        (false, Some ("arg #" +:+ n_str i +:+ " of " +:+ repr_str (tool_name p) +:+ ": level "
                      +:+ level_name (set_level s) +:+ " exceeds max " +:+ level_name m))
      else
        let forbidden := sources s ∩ forbidden_sources p in
        if bool_decide (forbidden = ∅) then check_args p (S i) args maxs
        else (false, Some ("arg #" +:+ n_str i +:+ " of " +:+ repr_str (tool_name p) +:+ ": source(s) "
                           +:+ list_repr (RouterFusion.sorted (elements forbidden)) +:+ " are forbidden"))
  | _, _ => (true, None)
  end.
Definition check (p : ToolPolicy) (args : list CapabilitySet) : bool * option string :=
  if length args =? length (max_arg_levels p) then check_args p 0 args (max_arg_levels p)
  else (false, Some ("arity mismatch: tool " +:+ repr_str (tool_name p) +:+ " expects "
                     +:+ n_str (length (max_arg_levels p)) +:+ " args, got " +:+ n_str (length args))).

Record ToolPolicyRegistry := { policies : gmap string ToolPolicy; frozen : bool }.
Definition new_tool_registry : ToolPolicyRegistry := {| policies := ∅; frozen := false |}.

Definition register (p : ToolPolicy) : stM ToolPolicyRegistry exn unit :=
  r ← get;
  if frozen r then lift (Err (RuntimeError "ToolPolicyRegistry is frozen"))
  else match policies r !! tool_name p with
       | Some _ => lift (Err (ValueError ("tool " +:+ repr_str (tool_name p) +:+ " already registered")))
       | None => modify (fun r => {| policies := <[tool_name p := p]> (policies r); frozen := frozen r |})
       end.
Definition freeze : stM ToolPolicyRegistry exn unit := modify (fun r => {| policies := policies r; frozen := true |}).
Definition registered (r : ToolPolicyRegistry) (tool : string) : option ToolPolicy := policies r !! tool.
(** The fail-closed default. *)
Definition default_policy (tool : string) (arity : nat) : ToolPolicy := {|
  tool_name := tool; max_arg_levels := replicate arity TRUSTED; forbidden_sources := ∅;
  tp_description := Some "auto-generated fail-closed default" |}.
Definition policy_for (r : ToolPolicyRegistry) (tool : string) (arity : nat) : result exn ToolPolicy :=
  match policies r !! tool with
  | Some p => Ok p
  | None => new_policy (default_policy tool arity)
  end.
End CamelCap.
