(* ===== verification/CamelInterp.v ===== *)
(** * CaMeL: the capability-tracking interpreter and its specialist

    [tex/camel/q_llm.py], [interpreter.py] and [tex/specialists/camel_specialist.py].
    Tools and quarantined models are code from outside: computations on a world that
    may raise.  The interpreter's own state is the dictionary of untrusted inputs,
    which a run extends with the user's prompt; a plan's variables live for one run,
    which ends at the first exception. *)
From S2P Require Import Prelude StateExn PyStr PyFloat PyVal RouterDomain RouterFusion PyFormat PdpDomain.
From S2P Require Import RuleOfTwo CamelCap.
Import RuleOfTwo RouterDomain CamelCap.
Open Scope string_scope.
Open Scope list_scope.
Open Scope nat_scope.

Module CamelInterp.

(** ** Traces *)

Record TraceEntry := {
  node_index : nat;
  op : string;
  target : option string;
  cap_level : string;
  te_sources : list string;
  note : option string
}.
Definition new_trace_entry (e : TraceEntry) : result exn TraceEntry :=
  validated (field 1 64 (op e) && opt_field 128 (target e) && field 1 16 (cap_level e) && opt_field 500 (note e)) e.

Record ExecutionTrace := {
  entries : list TraceEntry;
  final_level : string;
  final_sources : list string;
  halted : bool;
  halt_reason : option string
}.
Definition new_trace (t : ExecutionTrace) : result exn ExecutionTrace :=
  validated (field 1 16 (final_level t) && opt_field 500 (halt_reason t)) t.

(** [type(node).__name__]. *)
Definition node_class (n : PlanNode) : string :=
  match n with Assign _ _ => "Assign" | Call _ _ _ => "Call" | QLLM _ _ _ => "QLLM" | Return _ => "Return" end.

(** ** Quarantined models *)

Definition join_with (sep : string) (l : list string) : string := String.concat sep l.
(** [StubQuarantinedLLM]: the bound on the answer, and the answer. *)
Definition new_stub (max_len : Z) : result exn nat :=
  if (max_len <=? 0)%Z then Err (ValueError "max_len must be positive") else Ok (Z.to_nat max_len).
Definition stub_answer (max_len : nat) (query : string) (inputs : list string) : string :=
  str_take max_len (query +:+ " :: " +:+ join_with " | " inputs).

(** What a tool returns: a value with its capabilities, or any other object. *)
Inductive tool_result := RCap (v : CapValue) | RRaw (v : pyval).

Section Interpreter.
Context {W : Type}.
Context (coerce : pyval -> result exn pyval) (str_other : pyval -> string).

Abbreviation ToolFn := (list CapValue -> stM W exn tool_result).
Abbreviation QuarantinedLLM := (string -> list string -> stM W exn string).

(** [CallableQuarantinedLLM]: the callable's result must be a text. *)
Definition callable_llm (fn : string -> list string -> stM W exn pyval) : QuarantinedLLM := fun query inputs =>
  r ← fn query inputs;
  match r with PStr s => mret s | _ => lift (Err TypeError) end.
Definition stub_llm (max_len : nat) : QuarantinedLLM := fun query inputs => mret (stub_answer max_len query inputs).

Record CamelInterpreter := {
  tool_policies : ToolPolicyRegistry;
  tool_impls : gmap string ToolFn;
  q_llm : QuarantinedLLM
}.
(** The interpreter, with its own dictionary of untrusted inputs. *)
Definition new_interpreter (r : ToolPolicyRegistry) (impls : gmap string ToolFn) (llm : option QuarantinedLLM)
    (untrusted_env : gmap string string) : result exn (CamelInterpreter * gmap string string) :=
  if frozen r
  then Ok ({| tool_policies := r; tool_impls := impls; q_llm := default (stub_llm 2048) llm |}, untrusted_env)
  else Err (CamelInterpreterError "ToolPolicyRegistry must be frozen before interpreter use" None).

(** ** Expressions *)

(** [expr.key] is false when it is [None] or empty. *)
Definition read_key (src : string) (key : option string) : string :=
  match key with Some k => if String.eqb k "" then src else src +:+ ":" +:+ k | None => src end.
Definition opt_repr (s : option string) : string := match s with Some s => repr_str s | None => "None" end.

(** The errors of the interpreter. *)
Definition unbound (x : string) (i : nat) : exn := CamelInterpreterError ("unbound variable " +:+ repr_str x) (Some i).
Definition no_input (src : string) (key : option string) (i : nat) : exn :=
  CamelInterpreterError ("no untrusted input registered for " +:+ repr_str src +:+ " (key=" +:+ opt_repr key +:+ ")") (Some i).
Definition call_denied (tool : string) (reason : option string) (i : nat) : exn :=
  CamelInterpreterError ("tool " +:+ repr_str tool +:+ " call denied: " +:+ default "None" reason) (Some i).
Definition no_implementation (tool : string) (i : nat) : exn :=
  CamelInterpreterError ("no implementation for tool " +:+ repr_str tool) (Some i).

Definition eval_expr (U : gmap string string) (env : gmap string CapValue) (i : nat) (e : Expr) : result exn CapValue :=
  match e with
  | Literal v => val_trusted coerce v "plan_literal"
  | Var x =>
      match env !! x with
      | Some v => Ok v
      | None => Err (unbound x i)
      end
  | Read src key =>
      match U !! read_key src key with
      | None => Err (no_input src key i)
      | Some raw => if String.eqb src "user" then val_user coerce (PStr raw) "user"
                    else val_untrusted coerce (PStr raw) src None
      end
  end.

(** ** Steps *)

Definition labelled (i : nat) (cls : string) (tgt : option string) (s : CapabilitySet) (nt : option string)
    : result exn TraceEntry :=
  new_trace_entry {| node_index := i; op := cls; target := tgt; cap_level := level_name (set_level s);
               te_sources := sorted_sources s; note := nt |}.
(** A raw result takes the capabilities of the arguments. *)
Definition wrap (args : list CapValue) (r : tool_result) : result exn CapValue :=
  match r with RCap v => Ok v | RRaw v => derived coerce v args end.
(** [str(v.value) if v.value is not None else '']. *)
Definition input_text (v : CapValue) : string :=
  match value v with PNone => "" | x => PdpDomain.py_str_of str_other x end.
(** [node.result_var or '_']. *)
Definition var_or_underscore (x : option string) : string :=
  match x with Some x => if String.eqb x "" then "_" else x | None => "_" end.
Definition bind_result (x : option string) (v : CapValue) (env : gmap string CapValue) : gmap string CapValue :=
  match x with Some x => <[x := v]> env | None => env end.

(** What a step leaves: a returned value, the entry and the variables. *)
Abbreviation outcome := (option CapValue * TraceEntry * gmap string CapValue)%type.

Definition step (it : CamelInterpreter) (U : gmap string string) (i : nat) (n : PlanNode) (env : gmap string CapValue)
    : stM W exn outcome :=
  match n with
  | Assign x e =>
      v ← lift (eval_expr U env i e);
      entry ← lift (labelled i "Assign" (Some x) (caps v) None);
      mret (None, entry, <[x := v]> env)
  | Call tool args x =>
      vs ← lift (map_result (eval_expr U env i) args);
      policy ← lift (policy_for (tool_policies it) tool (length vs));
      let '(ok, reason) := check policy (caps <$> vs) in
      if negb ok then lift (Err (call_denied tool reason i))
      else
        match tool_impls it !! tool with
        | None => lift (Err (no_implementation tool i))
        | Some impl =>
            r ← impl vs;
            v ← lift (wrap vs r);
            entry ← lift (labelled i "Call" (Some tool) (caps v) (Some ("result_var=" +:+ var_or_underscore x)));
            mret (None, entry, bind_result x v env)
        end
  | QLLM query inputs x =>
      vs ← lift (map_result (eval_expr U env i) (Var <$> inputs));
      answer ← q_llm it query (input_text <$> vs);
      v ← lift (derived coerce (PStr answer) vs);
      entry ← lift (labelled i "QLLM" (Some x) (caps v) (Some ("query_len=" +:+ n_str (String.length query))));
      mret (None, entry, <[x := v]> env)
  | Return e =>
      v ← lift (eval_expr U env i e);
      entry ← lift (labelled i "Return" None (caps v) None);
      mret (Some v, entry, env)
  end.

(** ** Runs *)

(** [CapValue(value=None, caps=CapabilitySet.of(Capability.untrusted('camel:halt')))]. *)
Definition halt_cap : Capability :=
  {| c_level := UNTRUSTED; c_confidentiality := PUBLIC; c_source := "camel:halt"; provenance_id := None |}.
Definition halt_value : CapValue := {| value := PNone; caps := {[ halt_cap ]} |}.
Definition halt_entry (i : nat) (n : PlanNode) (message : string) : result exn TraceEntry :=
  new_trace_entry {| node_index := i; op := node_class n; target := None; cap_level := level_name UNTRUSTED;
               te_sources := []; note := Some ("halted: " +:+ message) |}.

(** The loop over the nodes, from index [i], with the last value and the entries
    so far; the result carries the message of a halt. *)
Fixpoint run_nodes (it : CamelInterpreter) (U : gmap string string) (i : nat) (l : list PlanNode)
    (env : gmap string CapValue) (final : option CapValue) (acc : list TraceEntry)
    : stM W exn (option CapValue * list TraceEntry * option string) := fun w =>
  match l with
  | [] => (Ok (final, acc, None), w)
  | n :: l =>
      match step it U i n env w with
      | (Ok (final, entry, env), w) =>
          if is_return n then (Ok (final, acc ++ [entry], None), w)
          else run_nodes it U (S i) l env final (acc ++ [entry]) w
      | (Err (CamelInterpreterError m _), w) =>
          (entry ← halt_entry i n m; Ok (Some halt_value, acc ++ [entry], Some m), w)
      | (Err e, w) => (Err e, w)
      end
  end.

Definition make_trace (s : CapabilitySet) (es : list TraceEntry) (halt : option string) : result exn ExecutionTrace :=
  new_trace {| entries := es; final_level := level_name (set_level s); final_sources := sorted_sources s;
               halted := bool_decide (is_Some halt); halt_reason := halt |}.
Definition end_run (r : option CapValue * list TraceEntry * option string) : result exn (CapValue * ExecutionTrace) :=
  let '(final, es, halt) := r in
  let v := default {| value := PNone; caps := ∅ |} final in
  t ← make_trace (caps v) es halt; Ok (v, t).

(** [dict.dict_setdefault]. *)
Definition dict_setdefault (k v : string) (U : gmap string string) : gmap string string :=
  match U !! k with Some _ => U | None => <[k := v]> U end.
Definition on_world {A} (m : stM W exn A) : stM (gmap string string * W) exn A := fun s =>
  let '(r, w) := m s.2 in (r, (s.1, w)).

Definition run (it : CamelInterpreter) (p : Plan) (user_prompt : string)
    : stM (gmap string string * W) exn (CapValue * ExecutionTrace) :=
  match validate_structure p with
  | Err (PlanError m) => lift (Err (CamelInterpreterError ("invalid plan: " +:+ m) None))
  | Err e => lift (Err e)
  | Ok _ =>
      modify (fun s => (dict_setdefault "user_prompt" user_prompt s.1, s.2)) ;;
      s ← get;
      r ← on_world (run_nodes it s.1 0 (nodes p) ∅ None []);
      lift (end_run r)
  end.

(** ** The specialist *)

Record CamelSpecialist := {
  sp_tool_policies : ToolPolicyRegistry;
  sp_tool_impls : gmap string ToolFn;
  sp_q_llm : QuarantinedLLM
}.
(** A registry that is given is frozen if it is not yet. *)
Definition new_specialist (r : option ToolPolicyRegistry) (impls : gmap string ToolFn) (llm : option QuarantinedLLM)
    : CamelSpecialist := {|
  sp_tool_policies := (freeze (default new_tool_registry r)).2;
  sp_tool_impls := impls;
  sp_q_llm := default (stub_llm 2048) llm |}.

(** [SpecialistEvidence] and [SpecialistResult]: texts are stripped, then measured. *)
Definition new_evidence (text explanation : string) : result exn SpecialistEvidence :=
  validated (field 1 2000 (strip text) && field 1 1000 (strip explanation))
    {| ev_text := strip text; ev_start := None; ev_end := None; ev_explanation := Some (strip explanation) |}.
Definition new_specialist_result (risk confidence : float) (summary rationale : string)
    (ev : list SpecialistEvidence) (flags : list string) : result exn SpecialistResult :=
  validated (field 1 1500 (strip summary) && field 1 2000 (strip rationale)) {|
    specialist_name := "camel"; risk_score := risk; sp_confidence := confidence;
    sp_summary := strip summary; sp_rationale := Some (strip rationale); evidence := ev;
    matched_policy_clause_ids := []; matched_entity_names := []; sp_uncertainty_flags := flags |}.

Definition entry_evidence (e : TraceEntry) : result exn SpecialistEvidence :=
  new_evidence ("[" +:+ n_str (node_index e) +:+ "] " +:+ op e +:+ " -> "
                +:+ var_or_underscore (target e) +:+ " (" +:+ cap_level e +:+ ")")
    (str_take 900 (match note e with Some s => if String.eqb s "" then "capability propagation" else s
                   | None => "capability propagation" end)).
Definition camel_risk (final : CapValue) (t : ExecutionTrace) : float :=
  if halted t then f_one else if is_untrusted (caps final) then dec 5 1 else f_zero.
Definition summary_of (final : CapValue) (t : ExecutionTrace) : string :=
  if halted t then "CaMeL plan halted on capability check: " +:+ default "None" (halt_reason t)
  else if is_untrusted (caps final) then
    "CaMeL plan completed but final value is UNTRUSTED-tainted (sources: " +:+ join_with ", " (final_sources t) +:+ ")"
  else "CaMeL plan completed with final capability " +:+ final_level t.
Definition to_specialist_result (final : CapValue) (t : ExecutionTrace) : result exn SpecialistResult :=
  ev ← map_result entry_evidence (take 12 (entries t));
  new_specialist_result (camel_risk final t) f_one (summary_of final t)
    ("CaMeL interpreter executed " +:+ n_str (length (entries t)) +:+ " plan node(s). final_level="
     +:+ final_level t +:+ " halted=" +:+ (if halted t then "True" else "False")) ev [].

Definition abstention : result exn SpecialistResult :=
  new_specialist_result f_zero f_zero "CaMeL specialist abstaining: no plan supplied in request metadata"
    "The request did not carry a CaMeL Plan object; capability tracking was not exercised." [] ["no_plan"].
(** [str(exc)]. *)
Definition error_text (m : string) (i : option nat) : string :=
  match i with Some i => m +:+ " (at node #" +:+ n_str i +:+ ")" | None => m end.
Definition rejection (m : string) (i : option nat) : result exn SpecialistResult :=
  new_specialist_result f_one f_one ("CaMeL interpreter rejected the plan: " +:+ error_text m i)
    "The capability-tracking interpreter halted before completing the plan; fail-closed." [] ["interpreter_error"].

(** [evaluate], on what the request's metadata carries: the plan, when it is one,
    the untrusted inputs and the prompt. *)
Definition evaluate (sp : CamelSpecialist) (plan : option Plan) (untrusted_env : gmap string string) (user_prompt : string)
    : stM W exn SpecialistResult := fun w =>
  match plan with
  | None => (abstention, w)
  | Some p =>
      match new_interpreter (sp_tool_policies sp) (sp_tool_impls sp) (Some (sp_q_llm sp)) untrusted_env with
      | Err e => (Err e, w)
      | Ok (it, U) =>
          match run it p user_prompt (U, w) with
          | (Ok (final, t), (_, w)) => (to_specialist_result final t, w)
          | (Err (CamelInterpreterError m i), (_, w)) => (rejection m i, w)
          | (Err e, (_, w)) => (Err e, w)
          end
      end
  end.
End Interpreter.
Arguments CamelInterpreter : clear implicits.
Arguments CamelSpecialist : clear implicits.
End CamelInterp.
