(* ===== verification/CamelSpec.v ===== *)
(** * CaMeL: the label lattice, the gate and the static reading of a plan

    The labels of a set of capabilities are a homomorphism into the two axes; the
    check of a tool policy decides an authorization predicate; a registry holds the
    first policy registered for a tool before it was frozen; and the trace of a run
    is what a static analysis of the plan computes from the labels alone. *)
From S2P Require Import Prelude StateExn PyStr PyVal PyFormat RuleOfTwo CamelCap CamelInterp.
Import RuleOfTwo CamelCap CamelInterp.
Open Scope string_scope.
Open Scope list_scope.
Open Scope nat_scope.

Module CamelSpec.

(** ** The lattice *)

Lemma max_over_le f (s : CapabilitySet) n : max_over f s <= n <-> forall c, c ∈ s -> f c <= n.
Proof.
  setoid_rewrite <- elem_of_elements. unfold max_over, set_fold. simpl.
  induction (elements s) as [|c l IH]; simpl.
  - split; [|lia]. intros _ c H. by apply elem_of_nil in H.
  - rewrite Nat.max_lub_iff, IH. setoid_rewrite elem_of_cons. naive_solver.
Qed.
Lemma le_ext n m : (forall k, n <= k <-> m <= k) -> n = m.
Proof. intros H. apply Nat.le_antisymm; by apply H. Qed.
Lemma max_over_union f (a b : CapabilitySet) : max_over f (a ∪ b) = Nat.max (max_over f a) (max_over f b).
Proof. apply le_ext. intros k. rewrite Nat.max_lub_iff, !max_over_le. set_solver. Qed.
Lemma max_over_singleton f (c : Capability) : max_over f {[ c ]} = f c.
Proof. apply le_ext. intros k. rewrite max_over_le. set_solver. Qed.

Lemma level_int_of n : n <= 2 -> level_int (level_of n) = n.
Proof. intros H. destruct n as [|[|[|n]]]; simpl; lia. Qed.
Lemma conf_int_of n : n <= 3 -> conf_int (conf_of n) = n.
Proof. intros H. destruct n as [|[|[|[|n]]]]; simpl; lia. Qed.
Lemma set_level_int s : level_int (set_level s) = max_over (fun c => level_int (c_level c)) s.
Proof. apply level_int_of, max_over_le. intros c _. destruct (c_level c); simpl; lia. Qed.
Lemma set_conf_int s : conf_int (set_confidentiality s) = max_over (fun c => conf_int (c_confidentiality c)) s.
Proof. apply conf_int_of, max_over_le. intros c _. destruct (c_confidentiality c); simpl; lia. Qed.

Lemma set_level_union a b : set_level (a ∪ b) = level_join (set_level a) (set_level b).
Proof. unfold level_join. by rewrite !set_level_int, <- max_over_union. Qed.
Lemma set_level_singleton c : set_level {[ c ]} = c_level c.
Proof. unfold set_level. by rewrite max_over_singleton, level_of_int. Qed.
Lemma set_confidentiality_union a b :
  set_confidentiality (a ∪ b) = conf_join (set_confidentiality a) (set_confidentiality b).
Proof. unfold conf_join. by rewrite !set_conf_int, <- max_over_union. Qed.

Lemma set_level_le s l : level_leb (set_level s) l = true <-> forall c, c ∈ s -> level_leb (c_level c) l = true.
Proof.
  unfold level_leb. rewrite Nat.leb_le, set_level_int, max_over_le. by setoid_rewrite Nat.leb_le.
Qed.
Lemma is_untrusted_spec s : is_untrusted s = true <-> exists c, c ∈ s /\ c_level c = UNTRUSTED.
Proof.
  unfold is_untrusted. rewrite bool_decide_eq_true. split.
  - intros H. destruct (decide (Exists (fun c => c_level c = UNTRUSTED) (elements s))) as [He|He].
    + apply list.Exists_exists in He as (c & Hc & Hl). exists c. by rewrite elem_of_elements in Hc.
    + exfalso. assert (Hle : level_leb (set_level s) USER = true).
      { apply set_level_le. intros c Hc. destruct (c_level c) eqn:Hl; [done..|]. exfalso. apply He, list.Exists_exists.
        exists c. by rewrite elem_of_elements. }
      by rewrite H in Hle.
  - intros (c & Hc & Hl). assert (Hle : level_leb (c_level c) (set_level s) = true).
    { apply (proj1 (set_level_le s (set_level s))); [|done]. unfold level_leb. by apply Nat.leb_refl. }
    rewrite Hl in Hle. by destruct (set_level s).
Qed.
Lemma is_trusted_spec s : is_trusted s = true <-> forall c, c ∈ s -> c_level c = TRUSTED.
Proof.
  unfold is_trusted. rewrite bool_decide_eq_true. transitivity (level_leb (set_level s) TRUSTED = true).
  - by destruct (set_level s).
  - rewrite set_level_le. split; intros H c Hc; specialize (H c Hc); by destruct (c_level c).
Qed.

(** A flow violation: some member is untrusted and some member is sensitive. *)
Lemma set_is_sensitive_spec s : set_is_sensitive s = true <-> exists c, c ∈ s /\ is_sensitive (c_confidentiality c) = true.
Proof.
  unfold set_is_sensitive, is_sensitive. setoid_rewrite Nat.leb_le. rewrite set_conf_int. split.
  - intros H. destruct (decide (Exists (fun c => 2 <= conf_int (c_confidentiality c)) (elements s))) as [He|He].
    + apply list.Exists_exists in He as (c & Hc & Hl). exists c. by rewrite elem_of_elements in Hc.
    + exfalso. assert (Hle : max_over (fun c => conf_int (c_confidentiality c)) s <= 1); [|simpl in H; lia].
      apply max_over_le. intros c Hc. apply Nat.lt_succ_r, Nat.nle_gt. intros Hl. apply He, list.Exists_exists.
      exists c. by rewrite elem_of_elements.
  - intros (c & Hc & Hl). etransitivity; [exact Hl|].
    exact (proj1 (max_over_le (fun c => conf_int (c_confidentiality c)) s _) (le_n _) c Hc).
Qed.
Lemma set_flow_violation_spec s :
  set_flow_violation s = true
  <-> (exists c, c ∈ s /\ c_level c = UNTRUSTED) /\ (exists c, c ∈ s /\ is_sensitive (c_confidentiality c) = true).
Proof. rewrite <- is_untrusted_spec, <- set_is_sensitive_spec. apply andb_true_iff. Qed.

Lemma merged_spec l c : c ∈ merged l <-> exists s, s ∈ l /\ c ∈ s.
Proof.
  unfold merged, set_join. assert (H : forall a, c ∈ foldl (∪) a l <-> c ∈ a \/ exists s, s ∈ l /\ c ∈ s).
  { induction l as [|s l IH]; intros a; simpl; [set_solver|]. rewrite IH. set_solver. }
  rewrite H. set_solver.
Qed.

(** The join of the labels of a list of sets. *)
Definition join_labels (l : list CapabilitySet) : FidesLabel :=
  foldr (fun s => fides_join (fides_label s)) {| integrity := TRUSTED; confidentiality := PUBLIC |} l.

Lemma fides_label_union a b : fides_label (a ∪ b) = fides_join (fides_label a) (fides_label b).
Proof. unfold fides_label, fides_join. simpl. by rewrite set_level_union, set_confidentiality_union. Qed.
Lemma fides_label_empty : fides_label ∅ = {| integrity := TRUSTED; confidentiality := PUBLIC |}.
Proof. done. Qed.
Lemma merged_cons s l : merged (s :: l) = s ∪ merged l.
Proof. apply set_eq. intros c. rewrite elem_of_union, !merged_spec. set_solver. Qed.
Lemma merged_label l : fides_label (merged l) = join_labels l.
Proof. induction l as [|s l IH]; [done|]. by rewrite merged_cons, fides_label_union, IH. Qed.

(** An UNTRUSTED or a sensitive ancestor stays visible in whatever is derived. *)
Theorem derived_label coerce v from x :
  derived coerce v from = Ok x ->
  caps x = merged (caps <$> from)
  /\ fides_label (caps x) = join_labels (caps <$> from)
  /\ (is_untrusted (caps x) = true <-> exists y, y ∈ from /\ is_untrusted (caps y) = true)
  /\ (set_is_sensitive (caps x) = true <-> exists y, y ∈ from /\ set_is_sensitive (caps y) = true).
Proof.
  unfold derived, new_value. intros H. inv_bind. simpl. split; [done|]. split; [apply merged_label|].
  rewrite is_untrusted_spec, set_is_sensitive_spec. setoid_rewrite merged_spec. setoid_rewrite list_elem_of_fmap.
  setoid_rewrite is_untrusted_spec. setoid_rewrite set_is_sensitive_spec. naive_solver.
Qed.

(** ** The gate *)

(** Every argument is below the policy's bound and free of forbidden sources. *)
Definition admits (p : ToolPolicy) (s : CapabilitySet) (m : CapabilityLevel) : Prop :=
  (forall c, c ∈ s -> level_leb (c_level c) m = true) /\ (forall c, c ∈ s -> c_source c ∉ forbidden_sources p).
Definition authorized (p : ToolPolicy) (args : list CapabilitySet) : Prop := Forall2 (admits p) args (max_arg_levels p).

Lemma sources_disjoint s (X : gset string) : sources s ∩ X = ∅ <-> forall c, c ∈ s -> c_source c ∉ X.
Proof. unfold sources. set_solver. Qed.
Lemma check_args_spec p i args maxs :
  length args = length maxs ->
  ((check_args p i args maxs).1 = true <-> Forall2 (admits p) args maxs)
  /\ ((check_args p i args maxs).2 = None <-> (check_args p i args maxs).1 = true).
Proof.
  revert i maxs. induction args as [|s args IH]; intros i [|m maxs] Hlen; try done; simpl.
  destruct (level_leb (set_level s) m) eqn:Hl; simpl; [case_bool_decide as Hf|]; simpl.
  - destruct (IH (S i) maxs ltac:(simpl in Hlen; lia)) as [IH1 IH2]. split; [|done]. rewrite IH1, list.Forall2_cons.
    unfold admits at 2. rewrite <- set_level_le, <- sources_disjoint. naive_solver.
  - split; [|done]. split; [done|]. rewrite list.Forall2_cons. unfold admits at 1. rewrite <- sources_disjoint. naive_solver.
  - split; [|done]. split; [done|]. rewrite list.Forall2_cons. unfold admits at 1. rewrite <- set_level_le. naive_solver.
Qed.

Lemma gate_check_spec p args : (check p args).1 = true <-> authorized p args.
Proof.
  unfold check, authorized. destruct (_ =? _) eqn:H; simpl.
  - apply Nat.eqb_eq in H. by apply check_args_spec.
  - apply Nat.eqb_neq in H. split; [done|]. intros Ha%Forall2_length. done.
Qed.
Lemma check_reason p args : (check p args).2 = None <-> (check p args).1 = true.
Proof.
  unfold check. destruct (_ =? _) eqn:H; simpl; [|done]. apply Nat.eqb_eq in H. by apply check_args_spec.
Qed.
Lemma default_admits tool args :
  authorized (default_policy tool (length args)) args <-> Forall (fun s => is_trusted s = true) args.
Proof.
  unfold authorized. simpl. induction args as [|s args IH]; simpl; [by split; constructor|].
  rewrite list.Forall2_cons, list.Forall_cons, IH, is_trusted_spec. unfold admits. simpl.
  split; (intros [H ?]; split; [|done]).
  - intros c Hc. destruct H as [H _]. specialize (H c Hc). by destruct (c_level c).
  - split; [|set_solver]. intros c Hc. by rewrite H.
Qed.

(** ** Registries *)

Inductive registry_op := Register (p : ToolPolicy) | Freeze.
Definition apply_op (r : ToolPolicyRegistry) (o : registry_op) : ToolPolicyRegistry :=
  match o with Register p => (register p r).2 | Freeze => (freeze r).2 end.
(** The registrations before the first [freeze]. *)
Fixpoint offered (ops : list registry_op) : list ToolPolicy :=
  match ops with Register p :: ops => p :: offered ops | _ => [] end.
Definition named (tool : string) (p : ToolPolicy) : bool := String.eqb (tool_name p) tool.

Lemma register_spec p r :
  register p r =
    if frozen r then (Err (RuntimeError "ToolPolicyRegistry is frozen"), r)
    else match policies r !! tool_name p with
         | Some _ => (Err (ValueError ("tool " +:+ repr_str (tool_name p) +:+ " already registered")), r)
         | None => (Ok (), {| policies := <[tool_name p := p]> (policies r); frozen := false |})
         end.
Proof.
  destruct r as [P []]; [done|]. unfold register, mbind, M_bind, get. simpl. by destruct (P !! tool_name p).
Qed.
Lemma frozen_stays ops r : frozen r = true -> foldl apply_op r ops = r.
Proof.
  intros Hf. revert r Hf. induction ops as [|o ops IH]; intros r Hf; simpl; [done|].
  assert (apply_op r o = r) as ->; [|by apply IH].
  destruct o; simpl; [by rewrite register_spec, Hf|]. by destruct r as [? []].
Qed.

(** After any calls on an unfrozen registry: the policy found for a tool is the one
    it had, or else the first offered before the registry was frozen. *)
Lemma registry_from ops r tool :
  frozen r = false ->
  registered (foldl apply_op r ops) tool =
    match policies r !! tool with Some p => Some p | None => List.find (named tool) (offered ops) end.
Proof.
  revert r. induction ops as [|[p|] ops IH]; intros r Hf; simpl.
  - unfold registered. by destruct (_ !! tool).
  - rewrite register_spec, Hf. change (named tool p) with (String.eqb (tool_name p) tool). destruct (policies r !! tool_name p) as [q|] eqn:Ep; simpl.
    + rewrite IH by done. destruct (String.eqb_spec (tool_name p) tool) as [<-|]; [by rewrite Ep|done].
    + rewrite IH by done. simpl. destruct (String.eqb_spec (tool_name p) tool) as [<-|Hne].
      * by rewrite lookup_insert_eq, Ep.
      * by rewrite lookup_insert_ne.
  - rewrite frozen_stays by done. unfold registered. simpl. by destruct (_ !! tool).
Qed.
Lemma offered_freeze ops later : offered (ops ++ Freeze :: later) = offered ops.
Proof. induction ops as [|[p|] ops IH]; simpl; [done|by rewrite IH|done]. Qed.
Lemma registry_frozen ops r : frozen (foldl apply_op r ops) = frozen r || existsb (fun o => match o with Freeze => true | _ => false end) ops.
Proof.
  revert r. induction ops as [|[p|] ops IH]; intros r; simpl; [by rewrite orb_false_r| |].
  - rewrite IH, register_spec. f_equal. destruct (frozen r) eqn:Hf; [done|]. by destruct (_ !! _); simpl.
  - by rewrite IH, orb_true_r.
Qed.

(** ** The structure of a plan *)

Lemma validate_from_spec n i seen l :
  length l + i = n -> (seen = true -> l = []) ->
  validate_from n i seen l = Ok () <-> (seen = true \/ exists pre e, l = pre ++ [Return e] /\ Forall (fun x => is_return x = false) pre).
Proof.
  revert i seen. induction l as [|x l IH]; intros i seen Hn Hs; simpl.
  - destruct seen; [naive_solver|]. split; [done|]. intros [?|([|] & e & H & _)]; done.
  - destruct seen; [by specialize (Hs eq_refl)|]. simpl in Hn. destruct (is_return x) eqn:Hx.
    + destruct x as [| | |e]; try done. destruct (Nat.eqb_spec i (n - 1)) as [Hi|Hi].
      * assert (l = []) as -> by (destruct l; [done|simpl in Hn; lia]). simpl. split; [|done]. intros _. right. by exists [], e.
      * split; [done|]. intros [?|([|y pre] & e' & H & Hf)]; [done| |].
        -- injection H as _ ->. simpl in Hn. lia.
        -- simplify_eq/=. by inv Hf.
    + rewrite IH by (done || lia). split; intros [?|(pre & e & H & Hf)]; try done; right.
      * exists (x :: pre), e. split; [by rewrite H|by constructor].
      * destruct pre as [|y pre]; simplify_eq/=. inv Hf. eauto.
Qed.
Lemma validate_structure_spec p :
  validate_structure p = Ok () <-> exists pre e, nodes p = pre ++ [Return e] /\ Forall (fun x => is_return x = false) pre.
Proof. unfold validate_structure. rewrite validate_from_spec by (done || lia). naive_solver. Qed.
Lemma validate_from_err n i b l e : validate_from n i b l = Err e -> exists m, e = PlanError m.
Proof.
  revert i b. induction l as [|x l IH]; intros i b; simpl.
  - destruct b; naive_solver.
  - destruct (is_return x); [|apply IH]. destruct (_ =? _); [apply IH|naive_solver].
Qed.

(** ** The static reading *)

Definition literal_cap : Capability :=
  {| c_level := TRUSTED; c_confidentiality := PUBLIC; c_source := "plan_literal"; provenance_id := None |}.
Definition read_cap (src : string) : Capability :=
  if String.eqb src "user"
  then {| c_level := USER; c_confidentiality := PUBLIC; c_source := "user"; provenance_id := None |}
  else {| c_level := UNTRUSTED; c_confidentiality := PUBLIC; c_source := src; provenance_id := None |}.

Lemma eval_literal coerce U env i v :
  valid_expr (Literal v) = true -> eval_expr coerce U env i (Literal v) = Ok {| value := v; caps := {[ literal_cap ]} |}.
Proof. by destruct v. Qed.
Lemma eval_read coerce U env i src key :
  valid_expr (Read src key) = true ->
  eval_expr coerce U env i (Read src key) =
    match U !! read_key src key with
    | Some raw => Ok {| value := PStr raw; caps := {[ read_cap src ]} |}
    | None => Err (no_input src key i)
    end.
Proof.
  intros [Hf _]%andb_prop. simpl. destruct (U !! read_key src key); [|done]. unfold read_cap.
  destruct (String.eqb src "user"); [done|]. unfold val_untrusted, cap_untrusted, new_capability. by rewrite Hf.
Qed.

Lemma valid_vars inputs : forallb (field 1 64) inputs = true -> forallb valid_expr (Var <$> inputs) = true.
Proof. induction inputs as [|x l IH]; [done|]. intros [Hx Hl]%andb_prop. apply andb_true_intro. split; [done|auto]. Qed.

Lemma dom_setdefault k v U : dom (dict_setdefault k v U) = {[ k ]} ∪ dom U.
Proof.
  unfold dict_setdefault. destruct (U !! k) eqn:E; [|by rewrite dom_insert_L]. apply elem_of_dom_2 in E. set_solver.
Qed.

Lemma run_valid {W} coerce str_other (it : CamelInterpreter W) p prompt U w :
  validate_structure p = Ok () ->
  let U' := dict_setdefault "user_prompt" prompt U in
  let o := run_nodes coerce str_other it U' 0 (nodes p) ∅ None [] w in
  run coerce str_other it p prompt (U, w) = (o.1 ≫= end_run, (U', o.2)).
Proof.
  intros H. unfold run. rewrite H. simpl. unfold mbind, M_bind, modify, get, on_world, lift. simpl.
  by destruct (run_nodes _ _ _ _ _ _ _ _ _ w) as [[] w'].
Qed.
Lemma run_invalid {W} coerce str_other (it : CamelInterpreter W) p prompt s e :
  validate_structure p = Err e ->
  exists m, e = PlanError m /\ run coerce str_other it p prompt s = (Err (CamelInterpreterError ("invalid plan: " +:+ m) None), s).
Proof. intros H. destruct (validate_from_err _ _ _ _ _ H) as [m ->]. exists m. split; [done|]. unfold run. by rewrite H. Qed.

Section Static.
(** The label of what a tool returns, from the labels of its arguments. *)
Context (r : ToolPolicyRegistry) (impls : gset string).
Context (tool_label : string -> list CapabilitySet -> result exn CapabilitySet).
Implicit Types (K : gset string) (env : gmap string CapabilitySet).

Definition static_expr K env (i : nat) (e : Expr) : result exn CapabilitySet :=
  match e with
  | Literal _ => Ok {[ literal_cap ]}
  | Var x => match env !! x with Some s => Ok s | None => Err (unbound x i) end
  | Read src key => if decide (read_key src key ∈ K) then Ok {[ read_cap src ]} else Err (no_input src key i)
  end.

Definition static_step K (i : nat) (n : PlanNode) env
    : result exn (option CapabilitySet * TraceEntry * gmap string CapabilitySet) :=
  match n with
  | Assign x e =>
      s ← static_expr K env i e;
      entry ← labelled i "Assign" (Some x) s None;
      Ok (None, entry, <[x := s]> env)
  | Call tool args x =>
      ss ← map_result (static_expr K env i) args;
      policy ← policy_for r tool (length ss);
      if (check policy ss).1 then
        if decide (tool ∈ impls) then
          s ← tool_label tool ss;
          entry ← labelled i "Call" (Some tool) s (Some ("result_var=" +:+ var_or_underscore x));
          Ok (None, entry, match x with Some x => <[x := s]> env | None => env end)
        else Err (no_implementation tool i)
      else Err (call_denied tool (check policy ss).2 i)
  | QLLM query inputs x =>
      ss ← map_result (static_expr K env i) (Var <$> inputs);
      entry ← labelled i "QLLM" (Some x) (merged ss) (Some ("query_len=" +:+ n_str (String.length query)));
      Ok (None, entry, <[x := merged ss]> env)
  | Return e =>
      s ← static_expr K env i e;
      entry ← labelled i "Return" None s None;
      Ok (Some s, entry, env)
  end.

Fixpoint static_nodes K (i : nat) (l : list PlanNode) env (final : option CapabilitySet) (acc : list TraceEntry)
    : result exn (option CapabilitySet * list TraceEntry * option string) :=
  match l with
  | [] => Ok (final, acc, None)
  | n :: l =>
      match static_step K i n env with
      | Ok (final, entry, env) =>
          if is_return n then Ok (final, acc ++ [entry], None) else static_nodes K (S i) l env final (acc ++ [entry])
      | Err (CamelInterpreterError m _) => entry ← halt_entry i n m; Ok (Some {[ halt_cap ]}, acc ++ [entry], Some m)
      | Err e => Err e
      end
  end.

(** The labels and the trace of a plan, from the names of the inputs alone. *)
Definition static_run K (p : Plan) : result exn (CapabilitySet * ExecutionTrace) :=
  match validate_structure p with
  | Err (PlanError m) => Err (CamelInterpreterError ("invalid plan: " +:+ m) None)
  | Err e => Err e
  | Ok _ =>
      '(final, es, halt) ← static_nodes ({[ "user_prompt" ]} ∪ K) 0 (nodes p) ∅ None [];
      t ← make_trace (default ∅ final) es halt;
      Ok (default ∅ final, t)
  end.

(** ** The interpreter implements it *)

Context {W : Type} (coerce : pyval -> result exn pyval) (str_other : pyval -> string) (it : CamelInterpreter W).
Context (policies_r : tool_policies it = r) (impls_dom : dom (tool_impls it) = impls).
(** Tools carry the labels they are said to carry, and the model answers. *)
Context (tools_label : forall tool impl vs w, tool_impls it !! tool = Some impl ->
  caps <$> ((impl vs w).1 ≫= wrap coerce vs) = tool_label tool (caps <$> vs)).
Context (llm_answers : forall q ins w, exists a w', q_llm it q ins w = (Ok a, w')).

Lemma static_expr_sim U (env : gmap string CapValue) i e :
  valid_expr e = true -> caps <$> eval_expr coerce U env i e = static_expr (dom U) (caps <$> env) i e.
Proof using.
  destruct e as [v|x|src key]; intros Hv.
  - by rewrite eval_literal.
  - simpl. rewrite lookup_fmap. by destruct (env !! x).
  - rewrite eval_read by done. simpl. destruct (U !! read_key src key) eqn:E.
    + by rewrite decide_True by (by eapply elem_of_dom_2).
    + by rewrite decide_False by (by apply not_elem_of_dom).
Qed.
Lemma static_exprs_sim U (env : gmap string CapValue) i es :
  forallb valid_expr es = true ->
  (fun vs : list CapValue => caps <$> vs) <$> map_result (eval_expr coerce U env i) es = map_result (static_expr (dom U) (caps <$> env) i) es.
Proof using.
  induction es as [|e es IH]; simpl; [done|]. intros [He Hes]%andb_prop. rewrite <- (static_expr_sim _ _ _ _ He).
  destruct (eval_expr _ _ _ _ e); [|done]. simpl. rewrite <- IH by done. by destruct (map_result _ es).
Qed.

Abbreviation erase := (fun o : option CapValue * TraceEntry * gmap string CapValue => (caps <$> o.1.1, o.1.2, caps <$> o.2)).
Lemma static_step_sim U (env : gmap string CapValue) i n w :
  valid_node n = true ->
  erase <$> (step coerce str_other it U i n env w).1 = static_step (dom U) i n (caps <$> env).
Proof using policies_r impls_dom tools_label llm_answers.
  destruct n as [x e|tool args x|q inputs x|e]; simpl; intros Hv.
  - apply andb_prop in Hv as [_ Hv]. rewrite lift_bind, <- (static_expr_sim _ _ _ _ Hv).
    destruct (eval_expr _ _ _ _ e) as [v|]; [|done]. simpl. rewrite lift_bind.
    destruct (labelled _ _ _ _ _); [|done]. simpl. by rewrite fmap_insert.
  - apply andb_prop in Hv as [[_ Hv]%andb_prop _]. rewrite lift_bind, <- (static_exprs_sim _ _ _ _ Hv).
    destruct (map_result _ args) as [vs|]; [|done]. simpl. rewrite lift_bind, length_fmap, policies_r.
    destruct (policy_for _ _ _) as [p|]; [|done]. simpl. destruct (check p (caps <$> vs)) as [[] reason]; [|done]. simpl.
    rewrite <- impls_dom. destruct (tool_impls it !! tool) as [impl|] eqn:Ei.
    + rewrite decide_True by (by eapply elem_of_dom_2). rewrite <- (tools_label _ _ vs w Ei).
      unfold mbind at 1, M_bind at 1. destruct (impl vs w) as [[tr|] w']; [|done]. simpl. rewrite lift_bind.
      destruct (wrap coerce vs tr) as [v|]; [|done]. simpl. rewrite lift_bind. destruct (labelled _ _ _ _ _); [|done].
      simpl. destruct x; simpl; [by rewrite fmap_insert|done].
    + by rewrite decide_False by (by apply not_elem_of_dom).
  - apply andb_prop in Hv as [[_ Hv]%andb_prop _].
    assert (Hin : forallb valid_expr (Var <$> inputs) = true) by (by apply valid_vars).
    rewrite lift_bind, <- (static_exprs_sim _ _ _ _ Hin). destruct (map_result _ _) as [vs|]; [|done]. simpl.
    destruct (llm_answers q (input_text str_other <$> vs) w) as (a & w' & Ha).
    unfold mbind at 1, M_bind at 1. rewrite Ha, lift_bind. simpl. rewrite lift_bind.
    destruct (labelled _ _ _ _ _); [|done]. simpl. by rewrite fmap_insert.
  - rewrite lift_bind, <- (static_expr_sim _ _ _ _ Hv). destruct (eval_expr _ _ _ _ e) as [v|]; [|done].
    simpl. rewrite lift_bind. by destruct (labelled _ _ _ _ _).
Qed.

Abbreviation erase_run := (fun o : option CapValue * list TraceEntry * option string => (caps <$> o.1.1, o.1.2, o.2)).
Lemma static_nodes_sim U i l (env : gmap string CapValue) (final : option CapValue) acc w :
  forallb valid_node l = true ->
  erase_run <$> (run_nodes coerce str_other it U i l env final acc w).1
  = static_nodes (dom U) i l (caps <$> env) (caps <$> final) acc.
Proof using policies_r impls_dom tools_label llm_answers.
  revert i env final acc w. induction l as [|n l IH]; intros i env final acc w; simpl; [done|].
  intros [Hn Hl]%andb_prop. rewrite <- (static_step_sim U env i n w Hn).
  destruct (step _ _ _ _ _ _ _ w) as [[[[fv entry] env']|[]] w']; simpl; try done.
  - destruct (is_return n); [done|]. by apply IH.
  - by destruct (halt_entry _ _ _).
Qed.
Lemma static_run_sim p prompt U w :
  new_plan p = Ok p ->
  (fun o => (caps o.1, o.2)) <$> (run coerce str_other it p prompt (U, w)).1 = static_run (dom U) p.
Proof using policies_r impls_dom tools_label llm_answers.
  unfold new_plan, validated. intros Hv. case_match eqn:Hok; [|done]. apply andb_prop in Hok as [Hok _].
  unfold static_run. destruct (validate_structure p) as [[]|e] eqn:Hs.
  2: { destruct (run_invalid coerce str_other it p prompt (U, w) _ Hs) as (m & -> & ->). done. }
  rewrite (run_valid _ _ _ _ _ _ _ Hs), <- (dom_setdefault "user_prompt" prompt U).
  pose proof (static_nodes_sim (dict_setdefault "user_prompt" prompt U) 0 (nodes p) ∅ None [] w Hok) as Hn.
  rewrite fmap_empty in Hn. change (caps <$> None) with (@None CapabilitySet) in Hn. rewrite <- Hn.
  destruct (run_nodes _ _ _ _ _ _ _ _ _ w) as [[[[fv es] halt]|] w']; [|done]. simpl.
  assert (default ∅ (caps <$> fv) = caps (default {| value := PNone; caps := ∅ |} fv)) as -> by (by destruct fv).
  by destruct (make_trace _ _ _).
Qed.
End Static.
End CamelSpec.
