(* ===== verification/CamelFlow.v ===== *)
(** * CaMeL: what a run may do

    The world changes only through authorized tool calls; content that no tool may
    take cannot influence what the tools do; a run returns, and fails closed; the
    specialist's verdict and the structural floor it feeds. *)
From stdpp Require Import pretty.
From S2P Require Import Prelude StateExn PyStr PyFloat PyVal RouterDomain PyFormat RuleOfTwo StructuralFloor.
From S2P Require Import CamelCap CamelInterp CamelSpec.
Import RuleOfTwo RouterDomain CamelCap CamelInterp CamelSpec.
Open Scope string_scope.
Open Scope list_scope.
Open Scope nat_scope.

Module CamelFlow.

(** ** Mediation *)

(** The registry has a policy for the call, and it authorizes the arguments. *)
Definition gated (r : ToolPolicyRegistry) (tool : string) (args : list CapabilitySet) : Prop :=
  exists p, policy_for r tool (length args) = Ok p /\ authorized p args.

Section Mediation.
Context {W : Type} (coerce : pyval -> result exn pyval) (str_other : pyval -> string) (it : CamelInterpreter W).
Context (R : W -> W -> Prop) `{!PreOrder R}.
Context (tools_move : forall tool impl vs, tool_impls it !! tool = Some impl ->
  gated (tool_policies it) tool (caps <$> vs) -> respects R (impl vs)).
Context (llm_moves : forall q ins, respects R (q_llm it q ins)).

Lemma respects_lift_bind {A B} (r : result exn A) (f : A -> stM W exn B) :
  (forall a, r = Ok a -> respects R (f a)) -> respects R (lift r ≫= f).
Proof. intros H w. rewrite lift_bind. destruct r as [a|e]; [by apply H|]. simpl. reflexivity. Qed.

Lemma step_respects U i n env : respects R (step coerce str_other it U i n env).
Proof using tools_move llm_moves PreOrder0.
  destruct n as [x e|tool args x|q inputs x|e]; simpl.
  - respect.
  - apply respects_lift_bind. intros vs _. apply respects_lift_bind. intros p Hp.
    destruct (check p (caps <$> vs)) as [ok reason] eqn:Hc. destruct ok; simpl; [|respect].
    destruct (tool_impls it !! tool) as [impl|] eqn:Ei; [|respect]. respect. apply (tools_move tool); [done|].
    exists p. rewrite length_fmap. split; [done|]. apply gate_check_spec. by rewrite Hc.
  - respect. apply llm_moves.
  - respect.
Qed.
Lemma run_nodes_respects U i l env final acc : respects R (run_nodes coerce str_other it U i l env final acc).
Proof using tools_move llm_moves PreOrder0.
  revert i env final acc. induction l as [|n l IH]; intros i env final acc w; simpl; [reflexivity|].
  pose proof (step_respects U i n env w) as Hw.
  destruct (step _ _ _ _ _ _ _ w) as [[[[fv entry] env']|[]] w']; simpl in *; try done.
  destruct (is_return n); [done|]. etransitivity; [done|apply IH].
Qed.
Lemma run_respects p prompt U w : R w (run coerce str_other it p prompt (U, w)).2.2.
Proof using tools_move llm_moves PreOrder0.
  destruct (validate_structure p) as [[]|e] eqn:Hs.
  - rewrite run_valid by done. apply run_nodes_respects.
  - destruct (run_invalid coerce str_other it p prompt (U, w) _ Hs) as (m & _ & ->). simpl. reflexivity.
Qed.
End Mediation.

(** ** Noninterference *)

(** Two values with the same capabilities, the same unless they are untrusted. *)
Definition low_eq (v1 v2 : CapValue) : Prop :=
  caps v1 = caps v2 /\ (is_untrusted (caps v1) = false -> value v1 = value v2).
Definition env_eq (e1 e2 : gmap string CapValue) : Prop := forall x, option_Forall2 low_eq (e1 !! x) (e2 !! x).
(** The keys that [Read('user', ...)] looks up. *)
Definition user_key (k : string) : Prop := exists key, k = read_key "user" key.
(** The same inputs are there; those of the user are the same. *)
Definition inputs_eq (U1 U2 : gmap string string) : Prop :=
  dom U1 = dom U2 /\ forall k, user_key k -> U1 !! k = U2 !! k.
Definition rel_result {A B} (R : A -> B -> Prop) (r1 : result exn A) (r2 : result exn B) : Prop :=
  match r1, r2 with Ok a, Ok b => R a b | Err e1, Err e2 => e1 = e2 | _, _ => False end.
(** Both computations end alike, in related worlds. *)
Definition rel_run {W A} (Rw : W -> W -> Prop) (R : A -> A -> Prop) (m1 m2 : result exn A * W) : Prop :=
  rel_result R m1.1 m2.1 /\ Rw m1.2 m2.2.

Lemma rel_lift_bind {W A B} (Rw : W -> W -> Prop) (R : A -> A -> Prop) (Q : B -> B -> Prop) r1 r2 f1 f2 w1 w2 :
  rel_result R r1 r2 -> Rw w1 w2 -> (forall a1 a2, R a1 a2 -> rel_run Rw Q (f1 a1 w1) (f2 a2 w2)) ->
  rel_run Rw Q ((lift r1 ≫= f1) w1) ((lift r2 ≫= f2) w2).
Proof. intros Hr Hw Hf. rewrite !lift_bind. destruct r1, r2; simpl in Hr; [by apply Hf|done|done|by split]. Qed.
Lemma rel_bind {W A B} (Rw : W -> W -> Prop) (R : A -> A -> Prop) (Q : B -> B -> Prop)
    (m1 m2 : stM W exn A) f1 f2 w1 w2 :
  rel_run Rw R (m1 w1) (m2 w2) ->
  (forall a1 a2 w1 w2, R a1 a2 -> Rw w1 w2 -> rel_run Rw Q (f1 a1 w1) (f2 a2 w2)) ->
  rel_run Rw Q ((m1 ≫= f1) w1) ((m2 ≫= f2) w2).
Proof.
  unfold mbind, M_bind. intros [Hr Hw] Hf. destruct (m1 w1) as [[] ?], (m2 w2) as [[] ?]; simpl in *; try done. by apply Hf.
Qed.
Lemma rel_result_refl {A} (r : result exn A) : rel_result eq r r.
Proof. by destruct r. Qed.

Lemma low_eq_refl v : low_eq v v.
Proof. done. Qed.
Lemma env_eq_insert e1 e2 x v1 v2 : env_eq e1 e2 -> low_eq v1 v2 -> env_eq (<[x := v1]> e1) (<[x := v2]> e2).
Proof. intros He Hv y. destruct (decide (x = y)) as [->|]; [rewrite !lookup_insert_eq; by constructor|by rewrite !lookup_insert_ne]. Qed.
Lemma low_eq_caps l1 l2 : Forall2 low_eq l1 l2 -> caps <$> l1 = caps <$> l2.
Proof. induction 1 as [|v1 v2 l1 l2 [Hc _] _ IH]; [done|]. rewrite !fmap_cons. by rewrite Hc, IH. Qed.
(** What is derived is untrusted as soon as one of the values is. *)
Lemma low_eq_values l1 l2 : Forall2 low_eq l1 l2 -> is_untrusted (merged (caps <$> l1)) = false -> l1 = l2.
Proof.
  intros Hl Hm. assert (Hall : forall v, v ∈ l1 -> is_untrusted (caps v) = false).
  { intros v Hv. destruct (is_untrusted (caps v)) eqn:E; [|done]. rewrite <- Hm. symmetry.
    apply is_untrusted_spec in E as (c & Hc & Hu). apply is_untrusted_spec. exists c. split; [|done].
    apply merged_spec. exists (caps v). split; [|done]. apply list_elem_of_fmap. eauto. }
  clear Hm. induction Hl as [|v1 v2 l1 l2 [Hc Hv] _ IH]; [done|]. f_equal; [|apply IH; intros; apply Hall; set_solver].
  destruct v1, v2. simpl in *. f_equal; [apply Hv|done]. apply (Hall {| value := value0; caps := caps0 |}). set_solver.
Qed.

Section Noninterference.
Context {W : Type} (coerce : pyval -> result exn pyval) (str_other : pyval -> string) (it : CamelInterpreter W).
Context (Rw : W -> W -> Prop).
(** A tool that is given like values does like things. *)
Definition secure_tools : Prop := forall tool impl vs1 vs2 w1 w2,
  tool_impls it !! tool = Some impl -> gated (tool_policies it) tool (caps <$> vs1) ->
  Forall2 low_eq vs1 vs2 -> Rw w1 w2 ->
  rel_run Rw low_eq ((tr ← impl vs1; lift (wrap coerce vs1 tr)) w1) ((tr ← impl vs2; lift (wrap coerce vs2 tr)) w2).
(** The model answers whatever it is asked, the same to the same question. *)
Definition secure_llm : Prop := forall q ins1 ins2 w1 w2, Rw w1 w2 ->
  rel_run Rw (fun a1 a2 => ins1 = ins2 -> a1 = a2) (q_llm it q ins1 w1) (q_llm it q ins2 w2).
Context (tools_secure : secure_tools) (llm_secure : secure_llm).

Lemma eval_expr_low U1 U2 e1 e2 i e :
  inputs_eq U1 U2 -> env_eq e1 e2 -> valid_expr e = true ->
  rel_result low_eq (eval_expr coerce U1 e1 i e) (eval_expr coerce U2 e2 i e).
Proof using.
  intros [HK HU] He Hv. destruct e as [v|x|src key].
  - by rewrite !eval_literal.
  - simpl. destruct (He x); [done|]. done.
  - rewrite !eval_read by done. destruct (U1 !! read_key src key) as [a|] eqn:E1, (U2 !! read_key src key) as [b|] eqn:E2.
    + split; [done|]. simpl. unfold is_untrusted. rewrite set_level_singleton. unfold read_cap.
      destruct (String.eqb_spec src "user") as [->|]; [|done]. intros _. f_equal.
      rewrite (HU (read_key "user" key)) in E1 by (by exists key). by simplify_eq.
    + apply elem_of_dom_2 in E1. rewrite HK in E1. by apply not_elem_of_dom in E2.
    + apply elem_of_dom_2 in E2. rewrite <- HK in E2. by apply not_elem_of_dom in E1.
    + done.
Qed.
Lemma eval_exprs_low U1 U2 e1 e2 i es :
  inputs_eq U1 U2 -> env_eq e1 e2 -> forallb valid_expr es = true ->
  rel_result (Forall2 low_eq) (map_result (eval_expr coerce U1 e1 i) es) (map_result (eval_expr coerce U2 e2 i) es).
Proof using.
  intros HU He. induction es as [|e es IH]; [by constructor|]. simpl. intros [Hv Hvs]%andb_prop.
  pose proof (eval_expr_low _ _ _ _ i e HU He Hv) as H1. specialize (IH Hvs).
  destruct (eval_expr _ U1 _ _ _), (eval_expr _ U2 _ _ _); simpl in *; try done.
  destruct (map_result _ es), (map_result _ es); simpl in *; try done. by constructor.
Qed.

(** What a step leaves, up to untrusted values. *)
Definition outcome_eq (o1 o2 : option CapValue * TraceEntry * gmap string CapValue) : Prop :=
  option_Forall2 low_eq o1.1.1 o2.1.1 /\ o1.1.2 = o2.1.2 /\ env_eq o1.2 o2.2.

Lemma labelled_low i cls tgt v1 v2 nt f1 f2 w1 w2 :
  low_eq v1 v2 -> Rw w1 w2 -> (forall entry, outcome_eq (f1 entry) (f2 entry)) ->
  rel_run Rw outcome_eq ((entry ← lift (labelled i cls tgt (caps v1) nt); mret (f1 entry)) w1)
                        ((entry ← lift (labelled i cls tgt (caps v2) nt); mret (f2 entry)) w2).
Proof using.
  intros [Hc _] Hw Hf. rewrite Hc. apply (rel_lift_bind _ eq); [apply rel_result_refl|done|].
  intros entry ? <-. split; [apply Hf|done].
Qed.

Lemma step_low U1 U2 i n e1 e2 w1 w2 :
  inputs_eq U1 U2 -> env_eq e1 e2 -> valid_node n = true -> Rw w1 w2 ->
  rel_run Rw outcome_eq (step coerce str_other it U1 i n e1 w1) (step coerce str_other it U2 i n e2 w2).
Proof using tools_secure llm_secure.
  intros HU He Hn Hw. destruct n as [x e|tool args x|q inputs x|e]; simpl in *.
  - apply andb_prop in Hn as [_ Hv]. eapply rel_lift_bind; [by apply eval_expr_low|done|]. intros v1 v2 Hlow.
    apply labelled_low; [done..|]. intros entry. split; [constructor|]. split; [done|by apply env_eq_insert].
  - apply andb_prop in Hn as [[_ Hv]%andb_prop _]. eapply rel_lift_bind; [by apply eval_exprs_low|done|]. intros vs1 vs2 Hlow.
    rewrite (list.Forall2_length _ _ _ Hlow), <- (low_eq_caps _ _ Hlow).
    rewrite !lift_bind. destruct (policy_for _ _ _) as [p|] eqn:Ep; [|by split].
    destruct (check p (caps <$> vs1)) as [ok reason] eqn:Hc. destruct ok; simpl; [|by split].
    destruct (tool_impls it !! tool) as [impl|] eqn:Ei; [|by split].
    assert (Hg : gated (tool_policies it) tool (caps <$> vs1)).
    { exists p. rewrite length_fmap, (list.Forall2_length _ _ _ Hlow). split; [done|]. apply gate_check_spec. by rewrite Hc. }
    pose proof (tools_secure _ _ _ _ _ _ Ei Hg Hlow Hw) as Ht. rewrite <- !M_bind_assoc. eapply rel_bind; [exact Ht|].
    intros v1 v2 w1' w2' Hv' Hw'. apply labelled_low; [done..|]. intros entry. split; [constructor|]. split; [done|].
    destruct x; simpl; [by apply env_eq_insert|done].
  - apply andb_prop in Hn as [[_ Hv%valid_vars]%andb_prop _]. eapply rel_lift_bind; [by apply eval_exprs_low|done|].
    intros vs1 vs2 Hlow. eapply rel_bind; [by apply llm_secure|]. intros a1 a2 w1' w2' Ha Hw'. simpl.
    apply (rel_lift_bind _ low_eq); [|done|].
    + split; simpl; [by rewrite (low_eq_caps _ _ Hlow)|]. intros Ht. rewrite Ha; [done|].
      by rewrite (low_eq_values _ _ Hlow Ht).
    + intros v1 v2 Hv'. apply labelled_low; [done..|]. intros entry. split; [constructor|]. split; [done|].
      by apply env_eq_insert.
  - eapply rel_lift_bind; [by apply eval_expr_low|done|]. intros v1 v2 Hlow.
    apply labelled_low; [done..|]. intros entry. split; [by constructor|]. by split.
Qed.

Definition ended_eq (o1 o2 : option CapValue * list TraceEntry * option string) : Prop :=
  option_Forall2 low_eq o1.1.1 o2.1.1 /\ o1.1.2 = o2.1.2 /\ o1.2 = o2.2.
Lemma run_nodes_low U1 U2 i l e1 e2 f1 f2 acc w1 w2 :
  inputs_eq U1 U2 -> env_eq e1 e2 -> option_Forall2 low_eq f1 f2 -> forallb valid_node l = true -> Rw w1 w2 ->
  rel_run Rw ended_eq (run_nodes coerce str_other it U1 i l e1 f1 acc w1) (run_nodes coerce str_other it U2 i l e2 f2 acc w2).
Proof using tools_secure llm_secure.
  intros HU. revert i e1 e2 f1 f2 acc w1 w2. induction l as [|n l IH]; intros i e1 e2 f1 f2 acc w1 w2 He Hf; simpl; [by intros _ Hw|].
  intros [Hn Hl]%andb_prop Hw. pose proof (step_low _ _ i n _ _ _ _ HU He Hn Hw) as [Hr Hw'].
  destruct (step _ _ _ U1 _ _ _ _) as [[[[v1 t1] e1']|x1] w1'], (step _ _ _ U2 _ _ _ _) as [[[[v2 t2] e2']|x2] w2'];
    simpl in Hr, Hw'; try done.
  - destruct Hr as (Hv & Ht & He'). simpl in *. subst t2. destruct (is_return n); [by split|by apply IH].
  - subst x2. destruct x1; try by split. split; [|done]. simpl. destruct (halt_entry _ _ _); simpl; [|done].
    split; [|done]. by repeat constructor.
Qed.

Lemma setdefault_eq k v U1 U2 : inputs_eq U1 U2 -> inputs_eq (dict_setdefault k v U1) (dict_setdefault k v U2).
Proof using.
  intros [HK HU]. split; [by rewrite !dom_setdefault, HK|]. intros x Hx. unfold dict_setdefault.
  destruct (U1 !! k) eqn:E1, (U2 !! k) eqn:E2; [by apply HU| | |].
  - apply elem_of_dom_2 in E1. rewrite HK in E1. by apply not_elem_of_dom in E2.
  - apply elem_of_dom_2 in E2. rewrite <- HK in E2. by apply not_elem_of_dom in E1.
  - destruct (decide (k = x)) as [->|]; [by rewrite !lookup_insert_eq|]. rewrite !lookup_insert_ne by done. by apply HU.
Qed.
Lemma end_run_low o1 o2 : ended_eq o1 o2 -> rel_result (fun r1 r2 => low_eq r1.1 r2.1 /\ r1.2 = r2.2) (end_run o1) (end_run o2).
Proof using.
  destruct o1 as [[f1 es] h], o2 as [[f2 es2] h2]. intros (Hf & Hes & Hh). simpl in *. subst.
  set (d := {| value := PNone; caps := ∅ |}). assert (Hd : low_eq (default d f1) (default d f2)) by (by destruct Hf).
  destruct Hd as [Hc Hv] eqn:E; clear E. rewrite Hc. destruct (make_trace _ _ _); simpl; [|done]. done.
Qed.
(** A run's trace is the same, its value the same unless it is untrusted, and the
    worlds stay related. *)
Lemma run_low p prompt U1 U2 w1 w2 :
  new_plan p = Ok p -> inputs_eq U1 U2 -> Rw w1 w2 ->
  let o1 := run coerce str_other it p prompt (U1, w1) in let o2 := run coerce str_other it p prompt (U2, w2) in
  rel_result (fun r1 r2 => low_eq r1.1 r2.1 /\ r1.2 = r2.2) o1.1 o2.1 /\ Rw o1.2.2 o2.2.2.
Proof using tools_secure llm_secure.
  unfold new_plan, validated. intros Hv HU Hw. case_match eqn:Hok; [|done]. apply andb_prop in Hok as [Hok _].
  destruct (validate_structure p) as [[]|e] eqn:Hs.
  - rewrite !run_valid by done. simpl.
    destruct (run_nodes_low _ _ 0 (nodes p) ∅ ∅ None None [] w1 w2 (setdefault_eq "user_prompt" prompt _ _ HU)) as [Hr Hw'];
      [by intros x; rewrite lookup_empty; constructor|constructor|done|done|]. split; [|done].
    destruct (run_nodes _ _ _ _ _ _ _ _ _ w1) as [[] w1'], (run_nodes _ _ _ _ _ _ _ _ _ w2) as [[] w2']; simpl in Hr; try done.
    by apply end_run_low.
  - destruct (run_invalid coerce str_other it p prompt (U1, w1) _ Hs) as (m & -> & ->).
    destruct (run_invalid coerce str_other it p prompt (U2, w2) _ Hs) as (m2 & [= <-] & ->). done.
Qed.
End Noninterference.

(** No registered tool takes UNTRUSTED arguments. *)
Definition closed_sinks (r : ToolPolicyRegistry) : Prop :=
  forall tool p, policies r !! tool = Some p -> Forall (fun m => m <> UNTRUSTED) (max_arg_levels p).

Lemma policy_for_inv r tool arity p :
  policy_for r tool arity = Ok p -> policies r !! tool = Some p \/ p = default_policy tool arity.
Proof.
  unfold policy_for, new_policy, validated. destruct (policies r !! tool) eqn:E; [intros [= <-]; by left|].
  case_match; [intros [= <-]; by right|done].
Qed.
Lemma closed_gated r tool ss : closed_sinks r -> gated r tool ss -> Forall (fun s => is_untrusted s = false) ss.
Proof.
  intros Hr (p & Hp & Ha). assert (Hm : Forall (fun m => m <> UNTRUSTED) (max_arg_levels p)).
  { apply policy_for_inv in Hp as [Hp| ->]; [by eapply Hr|]. simpl. by apply Forall_replicate. }
  unfold authorized in Ha. clear Hp. revert Hm. generalize (max_arg_levels p) as ms, Ha. clear Ha.
  induction ss as [|s ss IH]; intros ms Ha Hm; [constructor|]. inv Ha. inv Hm. constructor; [|by eapply IH].
  destruct (is_untrusted s) eqn:E; [|done]. apply is_untrusted_spec in E as (c & Hc & Hu).
  destruct H1 as [Hle _]. specialize (Hle c Hc). rewrite Hu in Hle. by destruct y.
Qed.
Lemma low_eq_trusted l1 l2 :
  Forall2 low_eq l1 l2 -> Forall (fun s => is_untrusted s = false) (caps <$> l1) -> l1 = l2.
Proof.
  induction 1 as [|[x1 c1] [x2 c2] l1 l2 [Hc Hv] _ IH]; [done|]. rewrite fmap_cons. intros Hf. inv Hf. simpl in *.
  subst c2. by rewrite IH, Hv.
Qed.
Lemma closed_sinks_secure {W} coerce (it : CamelInterpreter W) : closed_sinks (tool_policies it) -> secure_tools coerce it eq.
Proof.
  intros Hr tool impl vs1 vs2 w1 w2 _ Hg Hlow <-. rewrite (low_eq_trusted _ _ Hlow (closed_gated _ _ _ Hr Hg)).
  split; [|done]. by destruct ((tr ← impl vs2; lift (wrap coerce vs2 tr)) w1).1.
Qed.

(** ** Runs return *)

(** Printable, no quotes and no backslash: [repr] adds the quotes only. *)
Definition plain_char (c : ascii) : bool :=
  in_range 32 126 c && negb (Ascii.eqb c squote) && negb (Ascii.eqb c dquote) && negb (Ascii.eqb c "\").
Definition plain (s : string) : bool := str_all plain_char s.
Definition few (n : nat) : bool := (N.of_nat n <? 10 ^ 9)%N.
Definition plain_expr (e : Expr) : bool :=
  match e with Literal _ => true | Var x => plain x | Read src key => plain src && match key with Some k => plain k | None => true end end.
Definition plain_node (n : PlanNode) : bool :=
  match n with
  | Assign _ e | Return e => plain_expr e
  | Call tool args _ => plain tool && forallb plain_expr args && few (length args)
  | QLLM _ inputs _ => forallb plain inputs
  end.
Definition plain_policy (p : ToolPolicy) : bool :=
  field 1 128 (tool_name p) && plain (tool_name p) && bool_decide (forbidden_sources p = ∅) && few (length (max_arg_levels p)).
(** A halt's message that fits the trace. *)
Definition short (m : string) : Prop := String.length m <= 492.
Definition fine {A} (r : result exn A) : Prop :=
  match r with Ok _ => True | Err (CamelInterpreterError m _) => short m | Err _ => False end.

Lemma n_str_few n : few n = true -> String.length (n_str n) <= 9.
Proof.
  unfold few, n_str, pretty, pretty_N. intros H%N.ltb_lt. case_decide; [simpl; lia|].
  apply (pretty_go_length 9 _ "") in H. simpl in H. lia.
Qed.
Lemma repr_chars_plain s : plain s = true -> repr_chars squote s = s.
Proof.
  induction s as [|c s IH]; [done|]. intros [Hc Hs]%andb_prop. simpl. rewrite IH by done.
  unfold plain_char in Hc. unfold repr_char.
  apply andb_prop in Hc as [[[Hr Hq]%andb_prop _]%andb_prop Hb].
  apply negb_true_iff in Hq, Hb. rewrite Hq, Hb, Hr. simpl.
  destruct (Ascii.eqb_spec c (ascii_of_nat 9)) as [->|_]; [done|].
  destruct (Ascii.eqb_spec c (ascii_of_nat 10)) as [->|_]; [done|].
  by destruct (Ascii.eqb_spec c (ascii_of_nat 13)) as [->|_].
Qed.
Lemma plain_no_squote s : plain s = true -> has_char squote s = false.
Proof.
  unfold has_char. induction s as [|c s IH]; [done|]. intros [Hc Hs]%andb_prop.
  change (Ascii.eqb squote c || str_any (Ascii.eqb squote) s = false). rewrite IH by done.
  unfold plain_char in Hc. apply andb_prop in Hc as [[[_ Hq]%andb_prop _]%andb_prop _].
  apply negb_true_iff in Hq. rewrite Ascii.eqb_sym. by rewrite Hq.
Qed.
Lemma repr_plain_length s : plain s = true -> String.length (repr_str s) = String.length s + 2.
Proof.
  intros H. unfold repr_str. rewrite plain_no_squote by done. simpl. rewrite repr_chars_plain, str_length_app by done. simpl. lia.
Qed.

Lemma field_le lo hi s : field lo hi s = true -> String.length s <= hi.
Proof. unfold field. intros [_ H]%andb_prop. by apply Nat.leb_le. Qed.
Lemma fine_map {A B} (f : A -> result exn B) l : (forall x, x ∈ l -> fine (f x)) -> fine (map_result f l).
Proof.
  intros H. destruct (map_result f l) as [|e] eqn:E; [done|]. apply map_result_Err in E as (x & Hx & Ex).
  specialize (H x Hx). by rewrite Ex in H.
Qed.
Ltac measure := unfold short; rewrite ?str_length_app; cbn [String.length]; lia.

Lemma eval_expr_fine coerce U env i e : valid_expr e = true -> plain_expr e = true -> fine (eval_expr coerce U env i e).
Proof.
  destruct e as [v|x|src key]; intros Hv Hp.
  - by rewrite eval_literal.
  - simpl in *. destruct (env !! x); [done|]. simpl. apply field_le in Hv. pose proof (repr_plain_length _ Hp). measure.
  - rewrite eval_read by done. destruct (U !! read_key src key); [done|]. simpl in *.
    apply andb_prop in Hv as [Hs%field_le Hk], Hp as [Hps Hpk]. pose proof (repr_plain_length _ Hps).
    destruct key as [k|]; simpl; [|measure]. apply field_le in Hk. pose proof (repr_plain_length _ Hpk). measure.
Qed.
Lemma eval_exprs_fine coerce U env i es :
  forallb valid_expr es = true -> forallb plain_expr es = true -> fine (map_result (eval_expr coerce U env i) es).
Proof. rewrite !forallb_forall. intros Hv Hp. apply fine_map. intros x Hx%list_elem_of_In. auto using eval_expr_fine. Qed.

(** The message of a policy that forbids no source. *)
Lemma check_args_short p i args maxs :
  plain_policy p = true -> length args = length maxs -> few (i + length args) = true ->
  match (check_args p i args maxs).2 with Some m => String.length m <= 200 | None => True end.
Proof.
  intros Hp. apply andb_prop in Hp as [[[Hf%field_le Hpl%repr_plain_length]%andb_prop Hs]%andb_prop _].
  apply bool_decide_eq_true in Hs. revert i maxs. induction args as [|s args IH]; intros i [|m maxs] Hl Hi; try done.
  cbn [check_args]. destruct (level_leb (set_level s) m); cbn [negb].
  - rewrite Hs, intersection_empty_r_L, bool_decide_true by done. apply IH; [simpl in Hl; lia|]. rewrite Nat.add_succ_comm. done.
  - assert (few i = true) as Hd%n_str_few by (unfold few in *; apply N.ltb_lt in Hi; apply N.ltb_lt; lia).
    cbn [snd]. rewrite !str_length_app, Hpl. assert (forall l, String.length (level_name l) <= 9) as Hn by (intros []; simpl; lia).
    pose proof (Hn m). pose proof (Hn (set_level s)). cbn [String.length]. lia.
Qed.
Lemma check_short p args :
  plain_policy p = true -> few (length args) = true ->
  match (check p args).2 with Some m => String.length m <= 200 | None => True end.
Proof.
  intros Hp Ha. unfold check. destruct (_ =? _) eqn:E; [apply Nat.eqb_eq in E; by apply check_args_short|].
  apply andb_prop in Hp as [[[Hf%field_le Hpl%repr_plain_length]%andb_prop _]%andb_prop Hm].
  apply n_str_few in Ha, Hm. cbn [snd]. rewrite !str_length_app, Hpl. cbn [String.length]. lia.
Qed.
Lemma labelled_Ok i cls tgt s nt :
  field 1 64 cls = true -> opt_field 128 tgt = true -> opt_field 500 nt = true -> exists entry, labelled i cls tgt s nt = Ok entry.
Proof.
  intros Hc Ht Hn. unfold labelled, new_trace_entry, validated. simpl. rewrite Hc, Ht, Hn.
  destruct (set_level s); simpl; eauto.
Qed.
Lemma field_intro hi s : String.length s <= hi -> field 0 hi s = true.
Proof. intros H. unfold field. by apply Nat.leb_le in H. Qed.
Lemma var_or_underscore_le x : opt_field 64 x = true -> String.length (var_or_underscore x) <= 64.
Proof. destruct x as [x|]; simpl; [|lia]. intros H%field_le. destruct (String.eqb x ""); simpl; lia. Qed.

Section Returns.
Context {W : Type} (coerce : pyval -> result exn pyval) (str_other : pyval -> string) (it : CamelInterpreter W).
(** Authorized calls return a value that fits, and the model answers. *)
Definition tools_return : Prop := forall tool impl vs w,
  tool_impls it !! tool = Some impl -> gated (tool_policies it) tool (caps <$> vs) ->
  exists v w', (tr ← impl vs; lift (wrap coerce vs tr)) w = (Ok v, w').
Definition llm_answers : Prop := forall q ins w, exists a w', q_llm it q ins w = (Ok a, w').
Definition plain_registry (r : ToolPolicyRegistry) : Prop :=
  forall tool p, policies r !! tool = Some p -> plain_policy p = true.
Context (Htools : tools_return) (Hllm : llm_answers) (Hreg : plain_registry (tool_policies it)).

(** A step completes, or raises an error whose message fits; a [Return] has a value. *)
Definition progresses (n : PlanNode) (o : result exn (option CapValue * TraceEntry * gmap string CapValue)) : Prop :=
  fine o /\ match o with Ok (fv, _, _) => is_return n = true -> is_Some fv | Err _ => True end.

Lemma labelled_step {A} i cls tgt s nt (f : TraceEntry -> A) (w : W) :
  field 1 64 cls = true -> opt_field 128 tgt = true -> opt_field 500 nt = true ->
  exists entry, (entry ← lift (labelled i cls tgt s nt); mret (f entry)) w = (Ok (f entry) : result exn A, w).
Proof using. intros H1 H2 H3. destruct (labelled_Ok i cls tgt s nt H1 H2 H3) as [entry E]. exists entry. by rewrite lift_bind, E. Qed.

Lemma denied_short tool p args :
  field 1 128 tool = true -> plain tool = true -> plain_policy p = true -> few (length args) = true ->
  short ("tool " +:+ repr_str tool +:+ " call denied: " +:+ default "None" (check p args).2).
Proof using.
  intros Hf%field_le Hp%repr_plain_length Hpol Ha. pose proof (check_short p args Hpol Ha) as Hs.
  destruct (check p args).2; simpl default; measure.
Qed.
Lemma policy_for_plain tool arity :
  field 1 128 tool = true -> plain tool = true -> few arity = true ->
  exists p, policy_for (tool_policies it) tool arity = Ok p /\ plain_policy p = true.
Proof using Hreg.
  intros Hf Hp Ha. unfold policy_for. destruct (_ !! tool) as [p|] eqn:E; [exists p; split; [done|by eapply Hreg]|].
  unfold new_policy, validated, default_policy. simpl. rewrite Hf. simpl. eexists. split; [done|].
  unfold plain_policy. simpl. by rewrite Hf, Hp, bool_decide_true, length_replicate, Ha.
Qed.

Lemma step_progresses U i n env w :
  valid_node n = true -> plain_node n = true -> progresses n (step coerce str_other it U i n env w).1.
Proof using Htools Hllm Hreg.
  destruct n as [x e|tool args x|q inputs x|e]; cbn [valid_node plain_node step]; intros Hv Hp.
  - apply andb_prop in Hv as [Hx%field_le Hv]. pose proof (eval_expr_fine coerce U env i e Hv Hp) as Hf. rewrite lift_bind.
    destruct (eval_expr _ _ _ _ e) as [v|]; [|by split]. edestruct (@labelled_step) as [entry ->]; [done|simpl; apply field_intro; lia|done|done].
  - apply andb_prop in Hv as [[Ht Hv]%andb_prop Hx], Hp as [[Htp Hp]%andb_prop Hn].
    pose proof (eval_exprs_fine coerce U env i args Hv Hp) as Hf. rewrite lift_bind.
    destruct (map_result _ args) as [vs|] eqn:Evs; [|by split]. apply map_result_Ok, list.Forall2_length in Evs.
    rewrite Evs in Hn. destruct (policy_for_plain tool (length vs) Ht Htp Hn) as (p & Ep & Hpol). rewrite lift_bind, Ep.
    pose proof (denied_short tool p (caps <$> vs) Ht Htp Hpol) as Hd. rewrite length_fmap in Hd. specialize (Hd Hn).
    destruct (check p (caps <$> vs)) as [ok reason] eqn:Hc. destruct ok; cbn [negb]; [|by split].
    destruct (tool_impls it !! tool) as [impl|] eqn:Ei.
    2: { split; [|done]. pose proof (repr_plain_length _ Htp). apply field_le in Ht. simpl. measure. }
    destruct (Htools tool impl vs w Ei) as (v & w' & E).
    { exists p. rewrite length_fmap. split; [done|]. apply gate_check_spec. by rewrite Hc. }
    rewrite <- M_bind_assoc. unfold mbind at 1, M_bind at 1. rewrite E. apply var_or_underscore_le in Hx. apply field_le in Ht.
    edestruct (@labelled_step) as [entry ->]; [done|by apply field_intro| |done]. apply field_intro. measure.
  - apply andb_prop in Hv as [[Hq%field_le Hv%valid_vars]%andb_prop Hx%field_le].
    assert (Hpv : forallb plain_expr (Var <$> inputs) = true) by (clear -Hp; induction inputs as [|y l IH]; [done|];
      apply andb_prop in Hp as [? ?]; apply andb_true_intro; auto).
    pose proof (eval_exprs_fine coerce U env i _ Hv Hpv) as Hf. rewrite lift_bind.
    destruct (map_result _ _) as [vs|]; [|by split]. destruct (Hllm q (input_text str_other <$> vs) w) as (a & w' & E).
    unfold mbind at 1, M_bind at 1. rewrite E, lift_bind.
    change (derived coerce (PStr a) vs) with (@Ok exn _ {| value := PStr a; caps := merged (caps <$> vs) |}). cbv beta iota.
    assert (few (String.length q) = true) as Hn%n_str_few by (apply N.ltb_lt; lia).
    edestruct (@labelled_step) as [entry ->]; [done|simpl; apply field_intro; lia| |done]. apply field_intro. measure.
  - pose proof (eval_expr_fine coerce U env i e Hv Hp) as Hf. rewrite lift_bind.
    destruct (eval_expr _ _ _ _ e) as [v|]; [|by split]. edestruct (@labelled_step) as [entry ->]; [done..|]. split; [done|]. intros _. by exists v.
Qed.

Lemma halt_entry_Ok i n m : short m -> exists entry, halt_entry i n m = Ok entry.
Proof using.
  intros Hm. unfold halt_entry, new_trace_entry, validated. cbn [op target cap_level note opt_field].
  rewrite (field_intro 500) by (unfold short in Hm; measure). destruct n; eexists; reflexivity.
Qed.
Lemma run_nodes_returns U pre e i env final acc w :
  Forall (fun n => is_return n = false) pre ->
  forallb valid_node (pre ++ [Return e]) = true -> forallb plain_node (pre ++ [Return e]) = true ->
  exists fv es halt w', run_nodes coerce str_other it U i (pre ++ [Return e]) env final acc w = (Ok (Some fv, acc ++ es, halt), w')
  /\ match halt with
     | None => length es = S (length pre)
     | Some m => short m /\ fv = halt_value /\ 1 <= length es <= S (length pre)
     end.
Proof using Htools Hllm Hreg.
  intros Hpre. revert i env final acc w. induction Hpre as [|n pre Hn _ IH]; intros i env final acc w; simpl app; cbn [forallb run_nodes].
  - intros Hv Hp. apply andb_prop in Hv as [Hv _], Hp as [Hp _]. pose proof (step_progresses U i (Return e) env w Hv Hp) as [Hf Hr].
    destruct (step _ _ _ _ _ _ _ w) as [[[[fv entry] env']|[m k| | | | | |]] w']; try done.
    + destruct (Hr eq_refl) as [v ->]. simpl. by exists v, [entry], None, w'.
    + simpl in Hf. destruct (halt_entry_Ok i (Return e) m Hf) as [entry ->]. simpl.
      exists halt_value, [entry], (Some m), w'. simpl. auto.
  - intros Hv Hp. apply andb_prop in Hv as [Hv Hvs], Hp as [Hp Hps]. pose proof (step_progresses U i n env w Hv Hp) as [Hf _].
    destruct (step _ _ _ _ _ _ _ w) as [[[[fv entry] env']|[m k| | | | | |]] w']; try done.
    + rewrite Hn. destruct (IH (S i) env' fv (acc ++ [entry]) w' Hvs Hps) as (v & es & halt & w'' & -> & Hh).
      exists v, (entry :: es), halt, w''. rewrite <- app_assoc. split; [done|]. destruct halt; simpl; [|lia].
      destruct Hh as (? & ? & ?). repeat split; [done|done|lia|lia].
    + simpl in Hf. destruct (halt_entry_Ok i n m Hf) as [entry ->]. simpl.
      exists halt_value, [entry], (Some m), w'. simpl. repeat split; [done|lia|lia].
Qed.

Lemma run_returns_lemma p prompt U w :
  new_plan p = Ok p -> validate_structure p = Ok () -> forallb plain_node (nodes p) = true ->
  exists v t s', run coerce str_other it p prompt (U, w) = (Ok (v, t), s')
  /\ ((halted t = false /\ halt_reason t = None /\ length (entries t) = length (nodes p))
      \/ (halted t = true /\ v = halt_value /\ is_Some (halt_reason t) /\ length (entries t) <= length (nodes p))).
Proof using Htools Hllm Hreg.
  unfold new_plan, validated. intros Hv Hs Hp. case_match eqn:Hok; [|done]. apply andb_prop in Hok as [Hok _].
  rewrite run_valid by done. apply validate_structure_spec in Hs as (pre & e & Hnodes & Hpre). rewrite Hnodes in *.
  destruct (run_nodes_returns (dict_setdefault "user_prompt" prompt U) pre e 0 ∅ None [] w Hpre Hok Hp) as (fv & es & halt & w' & -> & Hh).
  assert (Ht : exists t, make_trace (caps fv) es halt = Ok t /\ entries t = es /\ halt_reason t = halt /\ halted t = bool_decide (is_Some halt)).
  { unfold make_trace, new_trace, validated. cbn [final_level halt_reason]. assert (opt_field 500 halt = true) as ->.
    { destruct halt as [m|]; [|done]. destruct Hh as [Hm _]. apply field_intro. unfold short in Hm. lia. }
    destruct (set_level (caps fv)); eexists; by repeat split. }
  destruct Ht as (t & Et & Hes & Hr & Hha). exists fv, t. eexists. split.
  { simpl. by rewrite Et. }
  rewrite Hes, Hr, Hha, length_app. simpl. destruct halt as [m|]; [right|left].
  - destruct Hh as (_ & -> & ?). rewrite bool_decide_true by eauto. repeat split; [eauto|lia].
  - rewrite bool_decide_false by (by intros []). repeat split. lia.
Qed.
End Returns.

(** ** The specialist's verdict *)

Section Specialist.
Context {W : Type} (coerce : pyval -> result exn pyval) (str_other : pyval -> string).

(** The plan was rejected, or its run halted. *)
Definition refused (o : result exn (CapValue * ExecutionTrace)) : Prop :=
  match o with Ok (_, t) => halted t = true | Err _ => True end.

Lemma new_specialist_result_inv risk conf summary rationale ev flags res :
  new_specialist_result risk conf summary rationale ev flags = Ok res ->
  specialist_name res = "camel" /\ risk_score res = risk /\ sp_confidence res = conf /\ matched_policy_clause_ids res = []
  /\ sp_uncertainty_flags res = flags.
Proof. unfold new_specialist_result, validated. case_match; [|done]. by intros [= <-]. Qed.
Lemma classify_camel res :
  specialist_name res = "camel" -> matched_policy_clause_ids res = [] ->
  is_Some (StructuralFloor.classify_result res) <-> fleb StructuralFloor.DENY_RISK (risk_score res) = true.
Proof.
  intros Hn Hc. rewrite StructuralFloor.classify_result_spec. unfold StructuralFloor.proves_violation. rewrite Hn, Hc. split.
  - intros [[? _]|[[_ [Hle|(c & Hin & _)]]|[[? _]|[? _]]]]; try discriminate; [exact Hle|by apply elem_of_nil in Hin].
  - intros Hle. right. left. split; [reflexivity|by left].
Qed.

Lemma evaluate_inv (sp : CamelSpecialist W) p U prompt w res w' :
  frozen (sp_tool_policies sp) = true ->
  evaluate coerce str_other sp (Some p) U prompt w = (Ok res, w') ->
  let it := {| tool_policies := sp_tool_policies sp; tool_impls := sp_tool_impls sp; q_llm := sp_q_llm sp |} in
  let o := (run coerce str_other it p prompt (U, w)).1 in
  specialist_name res = "camel" /\ matched_policy_clause_ids res = [] /\ sp_confidence res = f_one
  /\ risk_score res = match o with Ok (v, t) => camel_risk v t | Err _ => f_one end
  /\ match o with Err (CamelInterpreterError _ _) | Ok _ => True | Err _ => False end.
Proof.
  intros Hf He it. unfold evaluate, new_interpreter in He. rewrite Hf in He. cbn [default from_option] in He.
  change (CamelInterp.run coerce str_other _ p prompt (U, w)) with (run coerce str_other it p prompt (U, w)) in He.
  destruct (run _ _ _ _ _ _) as [[[v t]|[]] [U' w'']]; pose proof (f_equal fst He) as Hr; clear He; cbn [fst] in Hr; try discriminate Hr.
  - unfold to_specialist_result in Hr. inv_bind. apply new_specialist_result_inv in Hr. naive_solver.
  - apply new_specialist_result_inv in Hr. naive_solver.
Qed.
Lemma camel_denies (sp : CamelSpecialist W) p U prompt w res w' :
  frozen (sp_tool_policies sp) = true ->
  evaluate coerce str_other sp (Some p) U prompt w = (Ok res, w') ->
  let it := {| tool_policies := sp_tool_policies sp; tool_impls := sp_tool_impls sp; q_llm := sp_q_llm sp |} in
  is_Some (StructuralFloor.classify_result res) <-> refused (run coerce str_other it p prompt (U, w)).1.
Proof.
  intros Hf He it. destruct (evaluate_inv _ _ _ _ _ _ _ Hf He) as (Hn & Hc & _ & Hr & _). fold it in Hr.
  rewrite (classify_camel _ Hn Hc), Hr. destruct (run _ _ _ _ _ _).1 as [[v t]|e]; simpl; [|by split; vm_compute].
  unfold camel_risk. destruct (halted t), (is_untrusted (caps v)); vm_compute; done.
Qed.
End Specialist.
End CamelFlow.

(** ** The guarantees *)
Module CamelGuarantees.
Import CamelFlow.

(** C12. Content that no registered tool takes cannot steer an agent: if no policy
    admits UNTRUSTED arguments and the quarantined model has no effects, two runs
    of one plan whose inputs differ in what is not the user's leave the same world,
    whatever the tools do, with the same trace (calls, labels, halt and reason), and
    results that differ only if they are labelled UNTRUSTED. *)
Theorem untrusted_cannot_steer {W} coerce str_other (it : CamelInterpreter W) answer p prompt U1 U2 w :
  new_plan p = Ok p -> closed_sinks (tool_policies it) ->
  (forall q ins w, q_llm it q ins w = (Ok (answer q ins), w)) ->
  inputs_eq U1 U2 ->
  let o1 := run coerce str_other it p prompt (U1, w) in let o2 := run coerce str_other it p prompt (U2, w) in
  o1.2.2 = o2.2.2 /\ rel_result (fun r1 r2 => low_eq r1.1 r2.1 /\ r1.2 = r2.2) o1.1 o2.1.
Proof.
  intros Hp Hr Hllm HU. apply and_comm. apply (run_low coerce str_other it eq); [by apply closed_sinks_secure| |done..].
  intros q ins1 ins2 w1 w2 <-. rewrite !Hllm. split; [|done]. simpl. by intros ->.
Qed.

(** C14. If the plan is valid, the quarantined model always answers, and each tool's
    label (and whether it raises) is a fixed function of the tool and of its argument
    labels, as for tools that return plain values, then a run's labels and its whole
    trace (halts, reasons, levels, sources) are what a static reading of the plan
    computes from that function, the policies and the names of inputs and tools, without
    any value. A tool that returns a CapValue may choose a label of its own: it is outside
    the condition, as [tool_launders] shows. *)
Theorem trace_is_static {W} coerce str_other tool_label (it : CamelInterpreter W) p prompt U w :
  new_plan p = Ok p ->
  (forall tool impl vs w, tool_impls it !! tool = Some impl ->
     caps <$> ((impl vs w).1 ≫= wrap coerce vs) = tool_label tool (caps <$> vs)) ->
  llm_answers it ->
  (fun o => (caps o.1, o.2)) <$> (run coerce str_other it p prompt (U, w)).1
  = static_run (tool_policies it) (dom (tool_impls it)) tool_label (dom U) p.
Proof. intros Hp Ht Hl. by apply static_run_sim. Qed.

(** C13. Complete mediation: whatever the plan, the world moves only by calls of
    registered tools that their policy authorized, argument by argument, and by
    questions to the quarantined model, even in a run that raises. *)
Theorem calls_are_mediated {W} coerce str_other (it : CamelInterpreter W) (R : W -> W -> Prop) p prompt U w :
  PreOrder R ->
  (forall tool impl vs, tool_impls it !! tool = Some impl ->
     gated (tool_policies it) tool (caps <$> vs) -> respects R (impl vs)) ->
  (forall q ins, respects R (q_llm it q ins)) ->
  R w (run coerce str_other it p prompt (U, w)).2.2.
Proof. intros HR Ht Hl. by apply run_respects. Qed.

(** What a registry lets through, from the calls that built it: the first policy
    offered for the tool before the freeze decides, argument by argument; a tool
    without one takes TRUSTED arguments only; nothing after the freeze counts. *)
Theorem gate_exact ops later tool args :
  let r := foldl apply_op new_tool_registry (ops ++ Freeze :: later) in
  field 1 128 tool = true ->
  frozen r = true
  /\ (gated r tool args <->
        match List.find (named tool) (offered ops) with
        | Some p => authorized p args
        | None => Forall (fun s => is_trusted s = true) args
        end).
Proof.
  intros r Ht. split; [unfold r; by rewrite registry_frozen, existsb_app, orb_true_r|]. assert (Hr : policies r !! tool = List.find (named tool) (offered ops)).
  { change (registered r tool = List.find (named tool) (offered ops)). unfold r.
    rewrite registry_from, offered_freeze by done. done. }
  unfold gated, policy_for. rewrite Hr. destruct (List.find _ _) as [p|]; [naive_solver|].
  rewrite <- default_admits. unfold new_policy, validated. simpl. rewrite Ht. simpl. naive_solver.
Qed.

(** C15. A well-formed plan is run to its end: with plain names, policies that forbid
    no source, tools that return and a model that answers, [run] returns a value and
    a trace, either of every node up to the [Return], or of a prefix that ended in a
    halt, and then the value is the empty UNTRUSTED one and the reason is recorded. *)
Theorem run_returns {W} coerce str_other (it : CamelInterpreter W) p prompt U w :
  new_plan p = Ok p -> validate_structure p = Ok () -> forallb plain_node (nodes p) = true ->
  tools_return coerce it -> llm_answers it -> plain_registry (tool_policies it) ->
  exists v t s', run coerce str_other it p prompt (U, w) = (Ok (v, t), s')
  /\ ((halted t = false /\ halt_reason t = None /\ length (entries t) = length (nodes p))
      \/ (halted t = true /\ v = halt_value /\ is_Some (halt_reason t) /\ length (entries t) <= length (nodes p))).
Proof. intros Hp Hs Hn Ht Hl Hr. by apply run_returns_lemma. Qed.

(** The specialist denies, and with it the structural floor, exactly when the
    interpreter rejected the plan or halted it; an UNTRUSTED result scores 0.5, any
    other 0; every verdict on a plan has full confidence. *)
Theorem camel_floor_exact {W} coerce str_other (sp : CamelSpecialist W) p U prompt w res w' :
  frozen (sp_tool_policies sp) = true ->
  evaluate coerce str_other sp (Some p) U prompt w = (Ok res, w') ->
  let it := {| tool_policies := sp_tool_policies sp; tool_impls := sp_tool_impls sp; q_llm := sp_q_llm sp |} in
  let o := (run coerce str_other it p prompt (U, w)).1 in
  (is_Some (StructuralFloor.classify_result res) <-> refused o)
  /\ (forall v t, o = Ok (v, t) -> halted t = false ->
       risk_score res = if is_untrusted (caps v) then dec 5 1 else f_zero)
  /\ sp_confidence res = f_one.
Proof.
  intros Hf He it o. split; [by eapply camel_denies|].
  destruct (evaluate_inv _ _ _ _ _ _ _ _ _ Hf He) as (_ & _ & Hc & Hr & _). split; [|done].
  intros v t Ho Hh. fold it in Hr. fold o in Hr. rewrite Hr, Ho. unfold camel_risk. by rewrite Hh.
Qed.
End CamelGuarantees.

(** ** Example runs *)
Module CamelRuns.
Import CamelFlow CamelGuarantees.

Definition no_coerce (v : pyval) : result exn pyval := Err ValidationError.
Definition no_str (v : pyval) : string := "".
(** The mail tool logs its arguments in the world. *)
Definition send_email (vs : list CapValue) : stM (list (list pyval)) exn tool_result :=
  fun w => (Ok (RRaw (PStr "sent")), w ++ [value <$> vs]).
Definition mail_policy : ToolPolicy := {|
  tool_name := "send_email"; max_arg_levels := [TRUSTED; USER]; forbidden_sources := ∅; tp_description := None |}.
Definition mail_ops : list registry_op := [Register mail_policy; Freeze].
Definition mail_registry : ToolPolicyRegistry := foldl apply_op new_tool_registry mail_ops.
Definition mailer : CamelInterpreter (list (list pyval)) := {|
  tool_policies := mail_registry; tool_impls := {[ "send_email" := send_email ]}; q_llm := stub_llm 2048 |}.
Definition mail_specialist : CamelSpecialist (list (list pyval)) :=
  new_specialist (Some mail_registry) {[ "send_email" := send_email ]} None.

(** A plan that mails a literal, and one that mails what a model read in the inbox. *)
Definition safe_plan : Plan := {| description := None; nodes := [
  Assign "mail" (Read "inbox" (Some "1"));
  QLLM "summarise" ["mail"] "summary";
  Call "send_email" [Literal (PStr "bob"); Literal (PStr "hello")] (Some "r");
  Return (Var "summary")] |}.
Definition leaking_plan : Plan := {| description := None; nodes := [
  Assign "mail" (Read "inbox" (Some "1"));
  QLLM "who asks?" ["mail"] "who";
  Call "send_email" [Var "who"; Literal (PStr "hello")] None;
  Return (Var "who")] |}.
Definition inbox (m : string) : gmap string string := {[ "inbox:1" := m ]}.
Definition ran (p : Plan) (U : gmap string string) := run no_coerce no_str mailer p "hi" (U, []).

Example safe_plan_sends : (ran safe_plan (inbox "x")).2.2 = [[PStr "bob"; PStr "hello"]].
Proof. vm_compute. reflexivity. Qed.
Example safe_plan_value : exists v t, (ran safe_plan (inbox "x")).1 = Ok (v, t)
  /\ value v = PStr "summarise :: x" /\ final_level t = "UNTRUSTED" /\ halted t = false.
Proof. eexists _, _. split; [vm_compute; reflexivity|]. vm_compute. auto. Qed.
Example leaking_plan_halts : exists t, (ran leaking_plan (inbox "mallory")).1 = Ok (halt_value, t)
  /\ halt_reason t = Some "tool 'send_email' call denied: arg #0 of 'send_email': level UNTRUSTED exceeds max TRUSTED"
  /\ (ran leaking_plan (inbox "mallory")).2.2 = [].
Proof. eexists. split; [vm_compute; reflexivity|]. split; vm_compute; reflexivity. Qed.

(** *** What the documentation says otherwise *)

(** [Read('user', 'prompt')] does not find the user's prompt, which is read under
    ['user_prompt'] and is then labelled UNTRUSTED. *)
Definition prompt_plan (e : Expr) : Plan := {| nodes := [Return e]; description := None |}.
Example user_prompt_unreachable : exists t, (ran (prompt_plan (Read "user" (Some "prompt"))) ∅).1 = Ok (halt_value, t) /\ halted t = true.
Proof. eexists. split; vm_compute; reflexivity. Qed.
Example user_prompt_untrusted : exists t, (ran (prompt_plan (Read "user_prompt" None)) ∅).1
  = Ok ({| value := PStr "hi"; caps := {[ read_cap "user_prompt" ]} |}, t) /\ final_level t = "UNTRUSTED".
Proof. eexists. split; vm_compute; reflexivity. Qed.
(** A second run of one interpreter still sees the first prompt. *)
Example first_prompt_sticks :
  let s := (run no_coerce no_str mailer (prompt_plan (Literal PNone)) "first" (∅, [])).2 in
  exists v t, (run no_coerce no_str mailer (prompt_plan (Read "user_prompt" None)) "second" s).1 = Ok (v, t)
  /\ value v = PStr "first".
Proof. eexists _, _. split; vm_compute; reflexivity. Qed.
(** A tool that returns a value with capabilities of its own drops those of its
    arguments, so what it read is TRUSTED afterwards. *)
Definition launder (vs : list CapValue) : stM (list (list pyval)) exn tool_result :=
  fun w => (Ok (RCap {| value := PStr (String.concat "" (input_text no_str <$> vs)); caps := ∅ |}), w).
Definition launderer : CamelInterpreter (list (list pyval)) := {|
  tool_policies := foldl apply_op new_tool_registry
    [Register {| tool_name := "clean"; max_arg_levels := [UNTRUSTED]; forbidden_sources := ∅; tp_description := None |}; Freeze];
  tool_impls := {[ "clean" := launder ]}; q_llm := stub_llm 2048 |}.
Example tool_launders : exists v t,
  (run no_coerce no_str launderer {| description := None; nodes :=
     [Call "clean" [Read "inbox" (Some "1")] (Some "y"); Return (Var "y")] |} "" (inbox "attack", [])).1 = Ok (v, t)
  /\ value v = PStr "attack" /\ final_level t = "TRUSTED".
Proof. eexists _, _. split; [|split]; vm_compute; reflexivity. Qed.
(** The answer of a model without inputs is TRUSTED. *)
Example model_alone_trusted : exists v t,
  (ran {| description := None; nodes := [QLLM "invent an address" [] "a"; Return (Var "a")] |} ∅).1 = Ok (v, t)
  /\ final_level t = "TRUSTED".
Proof. eexists _, _. split; vm_compute; reflexivity. Qed.
(** The message of a halt can be too long for the trace: the run raises instead of
    halting, and so does the specialist. *)
Definition odd_name : string := String.concat "" (replicate 64 (String (ascii_of_nat 1) (String (ascii_of_nat 2) ""))).
Definition odd_plan : Plan := {| nodes := [Call odd_name [Literal PNone] None; Return (Literal PNone)]; description := None |}.
Example long_message_raises :
  new_plan odd_plan = Ok odd_plan
  /\ (evaluate no_coerce no_str mail_specialist (Some odd_plan) ∅ "" []).1 = Err ValidationError.
Proof. split; vm_compute; reflexivity. Qed.

(** *** Instances of the guarantees *)

Lemma mail_registry_lookup tool p : policies mail_registry !! tool = Some p -> p = mail_policy.
Proof.
  change (policies mail_registry) with ({[ "send_email" := mail_policy ]} : gmap string ToolPolicy).
  intros H%lookup_singleton_Some. naive_solver.
Qed.
Lemma mail_closed : closed_sinks mail_registry.
Proof. intros tool p ->%mail_registry_lookup. repeat constructor; done. Qed.
Lemma mail_plain : plain_registry mail_registry.
Proof. intros tool p ->%mail_registry_lookup. vm_compute. reflexivity. Qed.
Lemma mail_tool tool impl : tool_impls mailer !! tool = Some impl -> tool = "send_email" /\ impl = send_email.
Proof. unfold mailer. cbn [tool_impls]. intros H%lookup_singleton_Some. naive_solver. Qed.
Lemma mail_returns : tools_return no_coerce mailer.
Proof. intros tool impl vs w [-> ->]%mail_tool _. eexists _, _. reflexivity. Qed.
Lemma stub_answers {W} n r impls : llm_answers (W := W) {| tool_policies := r; tool_impls := impls; q_llm := stub_llm n |}.
Proof. intros q ins w. by eexists _, _. Qed.
Lemma inbox_eq m1 m2 : inputs_eq (inbox m1) (inbox m2).
Proof.
  split; [unfold inbox; by rewrite !dom_singleton_L|]. intros k [key ->]. unfold inbox.
  assert ("inbox:1" <> read_key "user" key) by (destruct key as [k|]; simpl; [destruct (String.eqb k "")|]; done).
  by rewrite !lookup_singleton_ne.
Qed.

Lemma untrusted_cannot_steer_witness :
  (ran leaking_plan (inbox "mallory")).2.2 = (ran leaking_plan (inbox "eve")).2.2.
Proof.
  refine (proj1 (untrusted_cannot_steer no_coerce no_str mailer (stub_answer 2048) leaking_plan "hi"
    (inbox "mallory") (inbox "eve") [] _ _ _ _)); [vm_compute; reflexivity|exact mail_closed|intros; reflexivity|apply inbox_eq].
Defined.
Lemma trace_is_static_witness :
  (fun o => (caps o.1, o.2)) <$> (ran safe_plan (inbox "x")).1
  = static_run mail_registry {[ "send_email" ]} (fun _ ss => Ok (merged ss)) {[ "inbox:1" ]} safe_plan.
Proof.
  refine (trace_is_static no_coerce no_str (fun _ ss => Ok (merged ss)) mailer safe_plan "hi" (inbox "x") [] _ _ _).
  - vm_compute. reflexivity.
  - intros tool impl vs w Hi. destruct (mail_tool _ _ Hi) as [_ ->]. reflexivity.
  - apply stub_answers.
Defined.
(** The log of the mail tool only grows. *)
Definition log_grows (w w' : list (list pyval)) : Prop := w `prefix_of` w'.
Lemma calls_are_mediated_witness : log_grows [[PNone]] (run no_coerce no_str mailer leaking_plan "hi" (inbox "x", [[PNone]])).2.2.
Proof.
  assert (HR : PreOrder log_grows) by (unfold log_grows; apply _).
  refine (calls_are_mediated no_coerce no_str mailer log_grows leaking_plan "hi" (inbox "x") [[PNone]] HR _ _).
  - intros tool impl vs Hi _ w. destruct (mail_tool _ _ Hi) as [_ ->]. by eexists.
  - intros q ins w. unfold log_grows. reflexivity.
Defined.
Lemma gate_exact_witness : frozen mail_registry = true /\ ~ gated mail_registry "send_email" [{[ read_cap "inbox" ]}; ∅].
Proof.
  destruct (gate_exact [Register mail_policy] [] "send_email" [{[ read_cap "inbox" ]}; ∅]) as [Hf Hg]; [reflexivity|].
  split; [exact Hf|]. intros H. apply Hg in H. inversion H as [|? ? ? ? [Hle _] _]. subst.
  specialize (Hle (read_cap "inbox") ltac:(set_solver)). discriminate Hle.
Defined.
Lemma run_returns_witness : exists v t s', ran leaking_plan (inbox "x") = (Ok (v, t), s').
Proof.
  destruct (run_returns no_coerce no_str mailer leaking_plan "hi" (inbox "x") []) as (v & t & s' & E & _);
    [vm_compute; reflexivity|vm_compute; reflexivity|vm_compute; reflexivity|exact mail_returns|apply stub_answers|exact mail_plain|].
  exists v, t, s'. exact E.
Defined.
Lemma camel_floor_exact_witness :
  exists res w', evaluate no_coerce no_str mail_specialist (Some leaking_plan) (inbox "x") "hi" [] = (Ok res, w')
  /\ is_Some (StructuralFloor.classify_result res).
Proof.
  destruct (evaluate no_coerce no_str mail_specialist (Some leaking_plan) (inbox "x") "hi" []) as [[res|e] w'] eqn:E;
    [|vm_compute in E; discriminate E].
  exists res, w'. split; [reflexivity|].
  refine (proj2 (proj1 (camel_floor_exact no_coerce no_str mail_specialist leaking_plan (inbox "x") "hi" [] res w' _ E)) _);
    vm_compute; reflexivity.
Defined.
End CamelRuns.
