(* ===== verification/Ledger.v ===== *)
(** * Hash chains: the event ledger and the evidence chain

    [tex/events/event.py], [crypto_provenance.py] and [ledger.py] in the module
    [EventLedger], and [tex/evidence/chain.py] in [EvidenceChain]; [LedgerSpec] and
    [EvidenceSpec] hold the theorems, [LedgerRuns] and [EvidenceRuns] the claims and
    concrete runs.  SHA-256 of a text, the signature scheme and base64 are
    parameters; a time is its [isoformat()] text; telemetry is left out. *)
From S2P Require PyBytes.
From S2P Require Import Prelude StateExn PyStr PyVal Canonical.
Import Canonical.
Open Scope string_scope.
Open Scope list_scope.
Open Scope nat_scope.

Module EventLedger.

(** The errors of an append; [TypeError] is that of [canonical_json], [SigningError]
    whatever a provider raises. *)
Inductive exn :=
| SequenceGapError
| ChainLinkError
| MissingUpstreamError
| SignatureVerificationError
| RecordHashMismatchError
| PayloadHashMismatchError
| TypeError
| SigningError.

Definition genesis_ledger_hash : string := "0000000000000000000000000000000000000000000000000000000000000000".

Record Event := {
  event_id : string;
  kind : string;
  actor_entity_id : string;
  target_entity_id : option string;
  payload : pydict;
  timestamp : string;
  sequence_number : Z;
  upstream_event_ids : list string;
  previous_ledger_hash : string;
  payload_sha256 : string;
  record_hash : string;
  pq_signature_b64 : string;
  pq_signing_key_id : string;
  pq_signature_algorithm : string;
  tool_receipt_id : option string
}.
Definition opt_json (s : option string) : pyval := match s with Some s => PStr s | None => PNone end.
Definition record_json (kind actor : string) (target : option string) (payload_hash time : string) (seq : Z)
    (upstream : list string) (prev : string) (receipt : option string) : pyval := PDict [
  ("kind", PStr kind); ("actor_entity_id", PStr actor); ("target_entity_id", opt_json target);
  ("payload_sha256", PStr payload_hash); ("timestamp", PStr time); ("sequence_number", PInt seq);
  ("upstream_event_ids", PList (PStr <$> upstream)); ("previous_ledger_hash", PStr prev);
  ("tool_receipt_id", opt_json receipt)].
Definition canonical_record_input (e : Event) : pyval :=
  record_json (kind e) (actor_entity_id e) (target_entity_id e) (payload_sha256 e) (timestamp e) (sequence_number e)
    (upstream_event_ids e) (previous_ledger_hash e) (tool_receipt_id e).

Record ProposedEvent := {
  event_kind : string;
  pe_actor_entity_id : string;
  pe_target_entity_id : option string;
  pe_payload : pydict;
  proposed_at : string;
  session_id : option string;
  pe_upstream_event_ids : list string
}.

(** A signing key with its provider, and a provider with a verifying key. *)
Record signer := { sign : string -> result exn string; key_id : string; algorithm : string }.
Definition verifier : Type := string -> string -> bool.

Section Ledger.
Context (sha256_hex : string -> string) (b64encode : string -> string) (b64decode : string -> option string).

Definition hash_json (v : pyval) : result exn string :=
  match canonical_sha256 sha256_hex v with Some h => Ok h | None => Err TypeError end.

(** ** Provenance *)

(** [event_id or f'evt_...'], with the fresh id. *)
Definition attach (sg : signer) (p : ProposedEvent) (seq : Z) (prev : string) (id : option string) (fresh : string)
    (receipt : option string) : result exn Event :=
  ph ← hash_json (PDict (pe_payload p));
  rh ← hash_json (record_json (event_kind p) (pe_actor_entity_id p) (pe_target_entity_id p) ph (proposed_at p) seq
                    (pe_upstream_event_ids p) prev receipt);
  sig ← sign sg rh;
  Ok {| event_id := match id with Some s => if String.eqb s "" then fresh else s | None => fresh end;
        kind := event_kind p; actor_entity_id := pe_actor_entity_id p; target_entity_id := pe_target_entity_id p;
        payload := pe_payload p; timestamp := proposed_at p; sequence_number := seq;
        upstream_event_ids := pe_upstream_event_ids p; previous_ledger_hash := prev; payload_sha256 := ph;
        record_hash := rh; pq_signature_b64 := b64encode sig; pq_signing_key_id := key_id sg;
        pq_signature_algorithm := algorithm sg; tool_receipt_id := receipt |}.

(** ** The ledger *)

Record InMemoryLedger := {
  events : list Event;
  index : gmap string Event;
  verifying : option verifier;
  warned_no_verification : bool
}.
Definition new_ledger (v : option verifier) : InMemoryLedger :=
  {| events := []; index := ∅; verifying := v; warned_no_verification := false |}.
Definition length_of (l : InMemoryLedger) : nat := length (events l).
(** The hash of the last record, or the genesis sentinel. *)
Definition chain_head (l : list Event) : string :=
  match list.last l with Some e => record_hash e | None => genesis_ledger_hash end.

Definition check (ok : bool) (e : exn) : result exn unit := if ok then Ok () else Err e.
Definition verify_record_integrity (e : Event) : result exn unit :=
  ph ← hash_json (PDict (payload e));
  check (String.eqb (payload_sha256 e) ph) PayloadHashMismatchError ;;
  rh ← hash_json (canonical_record_input e);
  check (String.eqb (record_hash e) rh) RecordHashMismatchError.
Definition set_warned (l : InMemoryLedger) : InMemoryLedger := {|
  events := events l; index := index l; verifying := verifying l; warned_no_verification := true |}.
Definition verify_signature (e : Event) (force : bool) : stM InMemoryLedger exn unit :=
  l ← get;
  match verifying l with
  | None => modify set_warned ;; if force then lift (Err SignatureVerificationError) else mret ()
  | Some verify =>
      match b64decode (pq_signature_b64 e) with
      | None => lift (Err SignatureVerificationError)
      | Some sig => lift (check (verify (record_hash e) sig) SignatureVerificationError)
      end
  end.
Definition store (e : Event) (l : InMemoryLedger) : InMemoryLedger := {|
  events := events l ++ [e]; index := <[event_id e := e]> (index l); verifying := verifying l;
  warned_no_verification := warned_no_verification l |}.

Definition append (e : Event) : stM InMemoryLedger exn unit :=
  l ← get;
  lift (check (sequence_number e =? Z.of_nat (length (events l)) + 1)%Z SequenceGapError) ;;
  lift (check (String.eqb (previous_ledger_hash e) (chain_head (events l))) ChainLinkError) ;;
  lift (check (forallb (fun id => bool_decide (is_Some (index l !! id))) (upstream_event_ids e)) MissingUpstreamError) ;;
  lift (verify_record_integrity e) ;;
  verify_signature e false ;;
  modify (store e).
Definition append_proposed (sg : signer) (p : ProposedEvent) (id : option string) (fresh : string) (receipt : option string)
    : stM InMemoryLedger exn Event :=
  l ← get;
  e ← lift (attach sg p (Z.of_nat (length (events l)) + 1) (chain_head (events l)) id fresh receipt);
  append e ;;
  mret e.

Definition get_event (l : InMemoryLedger) (id : string) : option Event := index l !! id.
Definition exists_event (l : InMemoryLedger) (id : string) : bool := bool_decide (is_Some (index l !! id)).
Definition stream_after (l : InMemoryLedger) (n : Z) : list Event :=
  if (n <? 0)%Z then events l else List.filter (fun e => (n <? sequence_number e)%Z) (events l).

(** The loop of [verify_chain] over the records of the slice. *)
Fixpoint verify_slice (prior : string) (es : list Event) : stM InMemoryLedger exn bool :=
  match es with
  | [] => mret true
  | e :: es => fun l =>
      match verify_record_integrity e with
      | Err PayloadHashMismatchError | Err RecordHashMismatchError => (Ok false, l)
      | Err x => (Err x, l)
      | Ok _ =>
          if negb (String.eqb (previous_ledger_hash e) prior) then (Ok false, l)
          else match verify_signature e true l with
               | (Err SignatureVerificationError, l) => (Ok false, l)
               | (Err x, l) => (Err x, l)
               | (Ok _, l) => verify_slice (record_hash e) es l
               end
      end
  end.
(** [from] and [to] are 1-based and inclusive. *)
Definition verify_chain (from to : Z) : stM InMemoryLedger exn bool :=
  l ← get;
  if (from <? 1)%Z || (to <? from)%Z || (Z.of_nat (length (events l)) <? to)%Z then mret false
  else
    let before := take (Z.to_nat (from - 1)) (events l) in
    verify_slice (chain_head before) (take (Z.to_nat (to - from + 1)) (drop (Z.to_nat (from - 1)) (events l))).
End Ledger.
End EventLedger.

(** ** The evidence chain *)
Module EvidenceChain.

(** The fields the chain reads; a record also carries its ids, its type, the policy
    version and a time. *)
Record EvidenceRecord := {
  payload_json : string;
  payload_sha256 : string;
  previous_hash : option string;
  record_hash : string
}.
Record ChainVerificationIssue := { issue_index : nat; issue_record_hash : string; issue_code : string }.
Record ChainVerificationResult := { is_valid : bool; record_count : nat; issues : list ChainVerificationIssue }.

(** What [json.loads] raises: its own error, or another such as [RecursionError]. *)
Inductive loads_error := JSONDecodeError | OtherError.

Section Chain.
(** SHA-256 and [json.loads]. *)
Context (sha256_hex : string -> string) (loads : string -> result loads_error pyval).

Definition build_record_hash (payload_hash : string) (prev : option string) : string :=
  sha256_hex (dumps (PDict [("payload_sha256", PStr payload_hash); ("previous_hash", EventLedger.opt_json prev)])).
Definition issue (i : nat) (r : EvidenceRecord) (code : string) : ChainVerificationIssue :=
  {| issue_index := i; issue_record_hash := record_hash r; issue_code := code |}.
Definition unless (ok : bool) (x : ChainVerificationIssue) : list ChainVerificationIssue := if ok then [] else [x].

Definition verify_evidence_integrity (i : nat) (r : EvidenceRecord) : list ChainVerificationIssue :=
  unless (String.eqb (payload_sha256 r) (sha256_hex (payload_json r))) (issue i r "payload_sha256_mismatch")
  ++ unless (String.eqb (record_hash r) (build_record_hash (payload_sha256 r) (previous_hash r))) (issue i r "record_hash_mismatch")
  ++ match loads (payload_json r) with
     | Ok (PDict _) => []
     | Ok _ => [issue i r "payload_json_not_object"]
     | Err JSONDecodeError => [issue i r "payload_json_invalid"]
     | Err OtherError => [issue i r "payload_json_verification_error"]
     end.
Definition verify_chain_link (prev : option EvidenceRecord) (i : nat) (r : EvidenceRecord) : list ChainVerificationIssue :=
  match prev with
  | None => match previous_hash r with Some _ => [issue i r "unexpected_previous_hash"] | None => [] end
  | Some p => unless (bool_decide (previous_hash r = Some (record_hash p))) (issue i r "chain_link_mismatch")
  end.
Fixpoint verify_loop (prev : option EvidenceRecord) (i : nat) (l : list EvidenceRecord) : list ChainVerificationIssue :=
  match l with
  | [] => []
  | r :: l => verify_evidence_integrity i r ++ verify_chain_link prev i r ++ verify_loop (Some r) (S i) l
  end.
Definition result_of (n : nat) (xs : list ChainVerificationIssue) : ChainVerificationResult :=
  {| is_valid := bool_decide (length xs = 0); record_count := n; issues := xs |}.
Definition verify_evidence_chain (l : list EvidenceRecord) : ChainVerificationResult :=
  result_of (length l) (verify_loop None 0 l).

Definition is_hex (c : ascii) : bool := in_range 48 57 c || in_range 97 102 c.
(** [None] is the [ValueError]. *)
Definition normalize_witness (w : string) : option string :=
  let n := str_lower (strip w) in
  if (String.length n =? 64) && str_all is_hex n then Some n else None.
Definition verify_witness_link (w : option string) (r : EvidenceRecord) : list ChainVerificationIssue :=
  match w, previous_hash r with
  | None, None => []
  | None, Some _ => [issue 0 r "missing_prior_link_witness"]
  | Some _, None => [issue 0 r "unexpected_previous_hash"]
  | Some w, Some h => unless (String.eqb w h) (issue 0 r "prior_link_witness_mismatch")
  end.
Definition verify_evidence_chain_slice (l : list EvidenceRecord) (w : option string) : option ChainVerificationResult :=
  w ← match w with Some w => Some <$> normalize_witness w | None => Some None end;
  Some match l with
       | [] => result_of 0 []
       | r :: rest => result_of (length l) (verify_evidence_integrity 0 r ++ verify_witness_link w r ++ verify_loop (Some r) 1 rest)
       end.
Definition verify_latest_link (prev : option EvidenceRecord) (r : EvidenceRecord) : ChainVerificationResult :=
  result_of 1 (verify_evidence_integrity 0 r ++ verify_chain_link prev 0 r).
End Chain.
End EvidenceChain.

(** * Theorems on hash chains *)
Module LedgerSpec.
Import EventLedger.

Section Ledger.
Context (sha256_hex : string -> string) (b64decode : string -> option string).
Abbreviation hash_json := (hash_json sha256_hex).
Abbreviation verify_record_integrity := (verify_record_integrity sha256_hex).
Abbreviation verify_signature := (verify_signature b64decode).
Abbreviation append := (append sha256_hex b64decode).
Abbreviation verify_slice := (verify_slice sha256_hex b64decode).
Abbreviation verify_chain := (verify_chain sha256_hex b64decode).

(** ** Records *)

(** The hashes of a record are those of its fields. *)
Definition sealed (e : Event) : Prop :=
  hash_json (PDict (payload e)) = Ok (payload_sha256 e) /\ hash_json (canonical_record_input e) = Ok (record_hash e).
(** Its signature verifies. *)
Definition signed (v : option verifier) (e : Event) : Prop :=
  match v with
  | None => True
  | Some verify => exists sig, b64decode (pq_signature_b64 e) = Some sig /\ verify (record_hash e) sig = true
  end.
(** Each record names the one before it. *)
Fixpoint linked (prior : string) (es : list Event) : Prop :=
  match es with [] => True | e :: es => previous_ledger_hash e = prior /\ linked (record_hash e) es end.

Lemma integrity_spec e : verify_record_integrity e = Ok () <-> sealed e.
Proof.
  unfold EventLedger.verify_record_integrity, sealed.
  destruct (hash_json (PDict (payload e))) as [ph|]; simpl; [|naive_solver].
  destruct (String.eqb_spec (payload_sha256 e) ph) as [<-|]; simpl; [|naive_solver].
  destruct (hash_json (canonical_record_input e)) as [rh|]; simpl; [|naive_solver].
  destruct (String.eqb_spec (record_hash e) rh) as [<-|]; naive_solver.
Qed.

Lemma chain_head_app l e : chain_head (l ++ [e]) = record_hash e.
Proof. unfold chain_head. by rewrite last_snoc. Qed.
Lemma linked_app prior l l' :
  linked prior (l ++ l') <-> linked prior l /\ linked (match list.last l with Some e => record_hash e | None => prior end) l'.
Proof.
  revert prior. induction l as [|e l IH]; intros prior; simpl; [naive_solver|]. rewrite IH.
  destruct l as [|e' l]; simpl; [naive_solver|]. destruct (list.last (e' :: l)) eqn:E; [naive_solver|].
  by apply last_None in E.
Qed.
Lemma linked_snoc l e :
  linked genesis_ledger_hash (l ++ [e]) <-> linked genesis_ledger_hash l /\ previous_ledger_hash e = chain_head l.
Proof. rewrite linked_app. unfold chain_head. simpl. naive_solver. Qed.

(** ** Appending *)

(** What a record must satisfy to be appended. *)
Definition admissible (l : InMemoryLedger) (e : Event) : Prop :=
  sequence_number e = (Z.of_nat (length (events l)) + 1)%Z
  /\ previous_ledger_hash e = chain_head (events l)
  /\ (forall id, id ∈ upstream_event_ids e -> is_Some (index l !! id))
  /\ sealed e /\ signed (verifying l) e.

Lemma append_spec e l :
  (append e l).1 = Ok () <-> admissible l e.
Proof.
  unfold EventLedger.append, admissible, mbind, M_bind, get, lift, modify. simpl.
  destruct (Z.eqb_spec (sequence_number e) (Z.of_nat (length (events l)) + 1)) as [Hs|Hs]; simpl; [|naive_solver].
  destruct (String.eqb_spec (previous_ledger_hash e) (chain_head (events l))) as [Hh|Hh]; simpl; [|naive_solver].
  destruct (forallb _ _) eqn:Hu; simpl.
  2: { split; [done|]. intros (_ & _ & H & _). exfalso. apply not_true_iff_false in Hu. apply Hu, forallb_Forall_true, list.Forall_forall.
       intros id Hid. by apply bool_decide_eq_true, H. }
  rewrite forallb_Forall_true, list.Forall_forall in Hu. setoid_rewrite bool_decide_eq_true in Hu.
  destruct (verify_record_integrity e) as [[]|x] eqn:Hi; simpl.
  2: { split; [done|]. intros (_ & _ & _ & H & _). apply integrity_spec in H. congruence. }
  apply integrity_spec in Hi. unfold EventLedger.verify_signature, mbind, M_bind, get, lift, modify, signed. simpl.
  destruct (verifying l) as [verify|]; simpl; [|by split_and!].
  destruct (b64decode (pq_signature_b64 e)) as [sig|]; simpl.
  2: { split; [done|]. by intros (_ & _ & _ & _ & s & ? & _). }
  destruct (verify (record_hash e) sig) eqn:Hv; simpl.
  - split; [|done]. intros _. split_and!; [done..|]. by exists sig.
  - split; [done|]. intros (_ & _ & _ & _ & s & [= <-] & H). congruence.
Qed.
(** An append that fails leaves the records alone, one that succeeds adds the record. *)
Lemma append_state e l :
  events (append e l).2 = events l ++ (if (append e l).1 then [e] else [])
  /\ index (append e l).2 = (if (append e l).1 then <[event_id e := e]> (index l) else index l)
  /\ verifying (append e l).2 = verifying l.
Proof.
  unfold EventLedger.append, mbind, M_bind, get, lift, modify. simpl.
  destruct (_ =? _)%Z; simpl; [|by rewrite app_nil_r]. destruct (String.eqb _ _); simpl; [|by rewrite app_nil_r].
  destruct (forallb _ _); simpl; [|by rewrite app_nil_r]. destruct (verify_record_integrity e); simpl; [|by rewrite app_nil_r].
  unfold EventLedger.verify_signature, mbind, M_bind, get, lift, modify. simpl.
  destruct (verifying l) as [verify|] eqn:E; simpl; [|by rewrite ?E].
  destruct (b64decode _); simpl; [|by rewrite app_nil_r]. destruct (verify _ _); simpl; [done|by rewrite app_nil_r].
Qed.

(** ** Reachable ledgers *)

Inductive reachable (v : option verifier) : InMemoryLedger -> Prop :=
| reachable_new : reachable v (new_ledger v)
| reachable_append e l : reachable v l -> reachable v (append e l).2.

(** The records in order, each sealed, signed and linked, with causal predecessors
    that came before; the index holds exactly the latest record of each id. *)
Record well_formed (v : option verifier) (l : InMemoryLedger) : Prop := {
  wf_verifier : verifying l = v;
  wf_numbered : forall i e, events l !! i = Some e -> sequence_number e = (Z.of_nat i + 1)%Z;
  wf_linked : linked genesis_ledger_hash (events l);
  wf_sealed : Forall sealed (events l);
  wf_signed : Forall (signed v) (events l);
  wf_causal : forall i e id, events l !! i = Some e -> id ∈ upstream_event_ids e ->
                exists j e', (j < i)%nat /\ events l !! j = Some e' /\ event_id e' = id;
  wf_index : forall id, index l !! id = List.find (fun e => String.eqb (event_id e) id) (rev (events l))
}.

Lemma find_last id l e :
  List.find (fun e => String.eqb (event_id e) id) (rev l) = Some e -> exists j, l !! j = Some e /\ event_id e = id.
Proof.
  intros H. apply List.find_some in H as [Hin Hid]. apply in_rev, list_elem_of_In, list_elem_of_lookup in Hin as [j Hj].
  exists j. split; [done|]. by apply String.eqb_eq.
Qed.
Lemma append_well_formed v e l : well_formed v l -> well_formed v (append e l).2.
Proof.
  intros [Hv Hn Hl Hs Hg Hc Hi]. destruct (append_state e l) as (E1 & E2 & E3).
  destruct ((append e l).1) as [[]|x] eqn:Ea.
  2: { rewrite app_nil_r in E1. split; rewrite ?E1, ?E2, ?E3; done. }
  apply append_spec in Ea as (A1 & A2 & A3 & A4 & A5). rewrite Hv in A5.
  split; rewrite ?E1, ?E2, ?E3; [done|..].
  - intros i e' [?|[Hi' He]]%lookup_app_Some; [by apply Hn|]. destruct (i - length (events l))%nat eqn:Ei; [|done].
    injection He as <-. rewrite A1. f_equal. f_equal. lia.
  - by apply linked_snoc.
  - apply Forall_app. by rewrite Forall_singleton.
  - apply Forall_app. by rewrite Forall_singleton.
  - intros i e' id Hi' Hid. apply lookup_app_Some in Hi' as [Hi'|[Hge He]].
    + destruct (Hc i e' id Hi' Hid) as (j & e'' & ? & Hj & ?). exists j, e''. split_and!; [done| |done].
      apply lookup_app_Some. by left.
    + destruct (i - length (events l))%nat eqn:Ei; [|done]. injection He as <-.
      destruct (A3 id Hid) as [e'' He'']. rewrite Hi in He''. apply find_last in He'' as (j & Hj & Hj').
      pose proof (lookup_lt_Some _ _ _ Hj). exists j, e''. split_and!; [lia| |done]. apply lookup_app_Some. by left.
  - intros id. rewrite rev_app_distr. simpl. destruct (String.eqb_spec (event_id e) id) as [<-|Hne].
    + by rewrite lookup_insert_eq.
    + rewrite lookup_insert_ne by done. apply Hi.
Qed.
Lemma reachable_well_formed v l : reachable v l -> well_formed v l.
Proof.
  induction 1 as [|e l _ IH]; [by split|by apply append_well_formed].
Qed.

(** ** Verifying *)

Lemma verify_slice_spec verify prior es l :
  verifying l = Some verify ->
  (verify_slice prior es l).1 = Ok true <->
  linked prior es /\ Forall sealed es /\ Forall (signed (Some verify)) es.
Proof.
  intros Hv. revert prior. induction es as [|e es IH]; intros prior; simpl; [by repeat constructor|].
  destruct (verify_record_integrity e) as [[]|x] eqn:Hi.
  2: { split; [by destruct x|]. intros (_ & Hs%Forall_inv & _). apply integrity_spec in Hs. congruence. }
  apply integrity_spec in Hi. destruct (String.eqb_spec (previous_ledger_hash e) prior) as [Hp|Hp]; simpl; [|naive_solver].
  rewrite !list.Forall_cons.
  assert (Hsig : signed (Some verify) e <-> verify_signature e true l = (Ok (), l)).
  { unfold EventLedger.verify_signature, mbind, M_bind, get, lift, signed. simpl. rewrite Hv.
    destruct (b64decode (pq_signature_b64 e)) as [sig|]; [|by split; [intros (? & ? & _)|]].
    destruct (verify (record_hash e) sig) eqn:Hg; simpl; split; [eauto..| |done].
    intros (? & [= <-] & ?). congruence. }
  destruct (verify_signature e true l) as [r l'] eqn:E.
  destruct r as [[]|x]; [|split; [by destruct x|naive_solver]].
  assert (l' = l) as ->.
  { revert E. unfold EventLedger.verify_signature, mbind, M_bind, get, lift. simpl. rewrite Hv. destruct (b64decode _); congruence. }
  rewrite IH. naive_solver.
Qed.
(** A reachable ledger verifies on every range of it, and only on those. *)
Lemma slice_of_chain v l a n :
  well_formed v l ->
  linked (chain_head (take a (events l))) (take n (drop a (events l)))
  /\ Forall sealed (take n (drop a (events l))) /\ Forall (signed v) (take n (drop a (events l))).
Proof.
  intros [_ _ Hl Hs Hg _ _]. split; [|split; by apply Forall_take, Forall_drop].
  rewrite <- (take_drop a (events l)), linked_app in Hl. destruct Hl as [_ Hl].
  rewrite <- (take_drop n (drop a (events l))), linked_app in Hl. by destruct Hl as [Hl _].
Qed.
Lemma verify_chain_spec verify l from to :
  well_formed (Some verify) l ->
  (verify_chain from to l).1 = Ok ((1 <=? from) && (from <=? to) && (to <=? Z.of_nat (length (events l))))%Z.
Proof.
  intros Hwf. unfold EventLedger.verify_chain, mbind, M_bind, get. simpl.
  rewrite !Z.ltb_antisym, <- !negb_andb.
  destruct (_ && _)%Z; simpl; [|done]. apply (verify_slice_spec verify); [apply Hwf|by apply slice_of_chain].
Qed.

Lemma verify_all_spec verify l :
  verifying l = Some verify ->
  (verify_chain 1 (Z.of_nat (length (events l))) l).1 = Ok true ->
  linked genesis_ledger_hash (events l) /\ Forall sealed (events l) /\ Forall (signed (Some verify)) (events l).
Proof.
  intros Hv. unfold EventLedger.verify_chain, mbind, M_bind, get. simpl.
  destruct (_ || _)%Z; [done|]. rewrite (verify_slice_spec verify) by done.
  change (Z.to_nat (1 - 1)) with 0. rewrite take_0, drop_0. rewrite take_ge by lia. done.
Qed.

(** ** Tampering *)

(** The texts that are hashed for a record. *)
Definition texts (es : list Event) : list string :=
  es ≫= fun e => omap canonical_json [PDict (payload e); canonical_record_input e].
(** Two records with the same content: what is hashed, and the payload up to the order
    of its keys. *)
Definition same_record (e e' : Event) : Prop :=
  kind e = kind e' /\ actor_entity_id e = actor_entity_id e' /\ target_entity_id e = target_entity_id e'
  /\ canon (PDict (payload e)) = canon (PDict (payload e')) /\ timestamp e = timestamp e'
  /\ sequence_number e = sequence_number e' /\ upstream_event_ids e = upstream_event_ids e'
  /\ previous_ledger_hash e = previous_ledger_hash e' /\ tool_receipt_id e = tool_receipt_id e'
  /\ record_hash e = record_hash e'.

Lemma hash_json_Ok v h : hash_json v = Ok h <-> exists s, canonical_json v = Some s /\ sha256_hex s = h.
Proof.
  unfold EventLedger.hash_json, canonical_sha256. destruct (canonical_json v); simpl; naive_solver.
Qed.
Lemma opt_json_inj s s' : opt_json s = opt_json s' -> s = s'.
Proof. by destruct s, s'; simpl; intros [= ->] || done. Qed.
Lemma canon_strings l l' : canon (PList (PStr <$> l)) = canon (PList (PStr <$> l')) -> l = l'.
Proof.
  simpl. rewrite <- !list_fmap_compose. intros [= H]. revert l' H. induction l as [|s l IH]; intros [|s' l'] [=]; [done|].
  subst. f_equal. by apply IH.
Qed.
(** No hash is shared by two texts, and none is the genesis sentinel. *)
Definition collision_free (ts ts' : list string) : Prop :=
  (forall s s', s ∈ ts -> s' ∈ ts' -> sha256_hex s = sha256_hex s' -> s = s')
  /\ (forall s, s ∈ ts ++ ts' -> sha256_hex s <> genesis_ledger_hash).
Lemma record_fields e e' :
  canon (canonical_record_input e) = canon (canonical_record_input e') ->
  kind e = kind e' /\ actor_entity_id e = actor_entity_id e' /\ target_entity_id e = target_entity_id e'
  /\ payload_sha256 e = payload_sha256 e' /\ timestamp e = timestamp e' /\ sequence_number e = sequence_number e'
  /\ upstream_event_ids e = upstream_event_ids e' /\ previous_ledger_hash e = previous_ledger_hash e'
  /\ tool_receipt_id e = tool_receipt_id e'.
Proof.
  unfold canonical_record_input, record_json. intros H. rewrite canon_dict in H.
  assert (Ho : forall s s', canon (opt_json s) = canon (opt_json s') -> s = s') by (intros [] []; simpl; congruence).
  pose proof (H "kind"). pose proof (H "actor_entity_id"). pose proof (H "target_entity_id") as H3. pose proof (H "payload_sha256").
  pose proof (H "timestamp"). pose proof (H "sequence_number"). pose proof (H "upstream_event_ids") as H7.
  pose proof (H "previous_ledger_hash"). pose proof (H "tool_receipt_id") as H9. clear H.
  cbn in H3, H7, H9. injection H3 as H3%Ho. injection H9 as H9%Ho. simplify_eq/=. split_and!; try done.
  by apply canon_strings; simpl; f_equal.
Qed.
Lemma texts_cons e es : texts (e :: es) = omap canonical_json [PDict (payload e); canonical_record_input e] ++ texts es.
Proof. done. Qed.
Lemma sealed_texts e :
  sealed e ->
  exists sp sr, canonical_json (PDict (payload e)) = Some sp /\ sha256_hex sp = payload_sha256 e
    /\ canonical_json (canonical_record_input e) = Some sr /\ sha256_hex sr = record_hash e /\ texts [e] = [sp; sr].
Proof.
  intros [(sp & Ep & Hp)%hash_json_Ok (sr & Er & Hr)%hash_json_Ok]. exists sp, sr. split_and!; try done.
  rewrite texts_cons. cbn [omap list_omap]. by rewrite Ep, Er.
Qed.
Lemma same_hash_same_record e e' :
  sealed e -> sealed e' -> collision_free (texts [e]) (texts [e']) -> record_hash e = record_hash e' -> same_record e e'.
Proof.
  intros (sp & sr & Ep & Hp & Er & Hr & Et)%sealed_texts (sp' & sr' & Ep' & Hp' & Er' & Hr' & Et')%sealed_texts [Hc _] H.
  rewrite Et, Et' in Hc. assert (sr = sr') as <- by (apply Hc; [set_solver..|congruence]).
  pose proof (proj1 (canonical_json_spec _ _ _ Er) Er') as [_ Hf]. apply record_fields in Hf as (? & ? & ? & Hh & ? & ? & ? & ? & ?).
  assert (sp = sp') as <- by (apply Hc; [set_solver..|congruence]).
  pose proof (proj1 (canonical_json_spec _ _ _ Ep) Ep') as [_ Hpay]. unfold same_record. by split_and!.
Qed.
Lemma texts_app es es' : texts (es ++ es') = texts es ++ texts es'.
Proof. apply bind_app. Qed.
Lemma texts_collision_mono ts ts' us us' :
  ts ⊆ us -> ts' ⊆ us' -> collision_free us us' -> collision_free ts ts'.
Proof. intros H H' [H1 H2]. split; set_solver. Qed.
Lemma sealed_not_genesis es e : sealed e -> collision_free (texts es) (texts [e]) \/ collision_free (texts [e]) (texts es) -> record_hash e <> genesis_ledger_hash.
Proof.
  intros (sp & sr & _ & _ & _ & Hr & Et)%sealed_texts Hc. rewrite Et in Hc. rewrite <- Hr. destruct Hc as [[_ Hc]|[_ Hc]]; apply Hc; set_solver.
Qed.
Lemma same_head_same_chain es es' :
  Forall sealed es -> Forall sealed es' -> linked genesis_ledger_hash es -> linked genesis_ledger_hash es' ->
  collision_free (texts es) (texts es') -> chain_head es = chain_head es' -> Forall2 same_record es es'.
Proof.
  revert es'. induction es as [|e es IH] using rev_ind; intros es' Hs Hs' Hl Hl' Hc Hh.
  - destruct es' as [|e' es'] using rev_ind; [constructor|]. rewrite chain_head_app in Hh. exfalso.
    rewrite texts_app in Hc. apply (sealed_not_genesis [] e'); [by apply Forall_app in Hs' as [_ ?%Forall_inv]| |done].
    left. eapply texts_collision_mono; [..|exact Hc]; set_solver.
  - apply Forall_app in Hs as [Hs He%Forall_inv]. destruct es' as [|e' es' _] using rev_ind.
    { exfalso. rewrite chain_head_app in Hh. rewrite texts_app in Hc. apply (sealed_not_genesis [] e); [done| |done].
      right. eapply texts_collision_mono; [..|exact Hc]; set_solver. }
    apply Forall_app in Hs' as [Hs' He'%Forall_inv]. rewrite !chain_head_app in Hh. rewrite !texts_app in Hc.
    assert (Hr : same_record e e') by (apply same_hash_same_record; [done..|eapply texts_collision_mono; [..|exact Hc]; set_solver|done]).
    apply linked_snoc in Hl as [Hl Hp], Hl' as [Hl' Hp']. apply Forall2_app; [|by constructor].
    apply IH; [done..|eapply texts_collision_mono; [..|exact Hc]; set_solver|]. rewrite <- Hp, <- Hp'. apply Hr.
Qed.

(** ** Appending what was proposed *)

Context (b64encode : string -> string).
Abbreviation attach := (attach sha256_hex b64encode).
Abbreviation append_proposed := (append_proposed sha256_hex b64encode b64decode).

Lemma record_canonicalizable k a t ph time seq ups prev rc :
  assert_canonicalizable (record_json k a t ph time seq ups prev rc) = true.
Proof.
  unfold record_json. cbn. assert (Ho : forall s, assert_canonicalizable (opt_json s) = true) by (by intros []).
  rewrite !Ho. simpl. rewrite !andb_true_r. by induction ups.
Qed.
Lemma hash_json_canonicalizable v : assert_canonicalizable v = true -> exists h, hash_json v = Ok h.
Proof. intros H. unfold EventLedger.hash_json, canonical_sha256, canonical_json. rewrite H. by eexists. Qed.
Lemma append_admissible e l : admissible l e -> exists l', append e l = (Ok (), l') /\ events l' = events l ++ [e] /\ verifying l' = verifying l /\ get_event l' (event_id e) = Some e.
Proof.
  intros H. apply append_spec in H. destruct (append_state e l) as (E1 & E2 & E3). destruct (append e l) as [r l']. simpl in *.
  subst r. exists l'. split_and!; [done..|]. unfold get_event. by rewrite E2, lookup_insert_eq.
Qed.

(** What a proposal needs, whatever the ledger holds. *)
Record proposable (l : InMemoryLedger) (sg : signer) (p : ProposedEvent) : Prop := {
  pr_payload : assert_canonicalizable (PDict (pe_payload p)) = true;
  pr_upstream : forall id, id ∈ pe_upstream_event_ids p -> is_Some (index l !! id);
  pr_signs : forall m, exists sig, sign sg m = Ok sig
    /\ b64decode (b64encode sig) = Some sig
    /\ (forall verify, verifying l = Some verify -> verify m sig = true)
}.
Lemma attach_admissible l sg p id fresh receipt :
  proposable l sg p ->
  exists e, attach sg p (Z.of_nat (length (events l)) + 1) (chain_head (events l)) id fresh receipt = Ok e
    /\ admissible l e /\ payload e = pe_payload p /\ kind e = event_kind p.
Proof.
  intros [Hp Hu Hg]. unfold EventLedger.attach, mbind, result_bind.
  destruct (hash_json_canonicalizable _ Hp) as [ph Ep]. rewrite Ep.
  destruct (hash_json_canonicalizable _ (record_canonicalizable (event_kind p) (pe_actor_entity_id p) (pe_target_entity_id p)
    ph (proposed_at p) (Z.of_nat (length (events l)) + 1) (pe_upstream_event_ids p) (chain_head (events l)) receipt)) as [rh Er].
  rewrite Er. destruct (Hg rh) as (sig & -> & Hb & Hver). eexists. split; [done|]. split; [|done].
  split_and!; [done..|by split|]. unfold signed. destruct (verifying l) as [verify|]; [|done]. exists sig. split; [done|].
  by apply Hver.
Qed.
Lemma append_proposed_reachable v sg p id fresh receipt l :
  reachable v l -> reachable v (append_proposed sg p id fresh receipt l).2.
Proof.
  intros Hl. unfold EventLedger.append_proposed, mbind, M_bind, get, lift. destruct (attach _ _ _ _ _ _ _) as [e|x]; [|done].
  pose proof (reachable_append v e l Hl) as Hr. by destruct (append e l) as [[] l'].
Qed.
Lemma append_proposed_spec l sg p id fresh receipt :
  proposable l sg p ->
  exists e l', append_proposed sg p id fresh receipt l = (Ok e, l') /\ events l' = events l ++ [e]
    /\ payload e = pe_payload p /\ kind e = event_kind p /\ verifying l' = verifying l /\ get_event l' (event_id e) = Some e.
Proof.
  intros H. destruct (attach_admissible l sg p id fresh receipt H) as (e & Ea & Had & Hpay & Hk).
  destruct (append_admissible e l Had) as (l' & El & Ev & Ef & Eg).
  exists e, l'. unfold EventLedger.append_proposed, mbind, M_bind, get, lift. rewrite Ea, El. by split_and!.
Qed.
End Ledger.
End LedgerSpec.

(** * Theorems on the evidence chain *)
Module EvidenceSpec.
Import EvidenceChain.

Section Chain.
Context (sha256_hex : string -> string) (loads : string -> result loads_error pyval).
Abbreviation build_record_hash := (build_record_hash sha256_hex).
Abbreviation verify_loop := (verify_loop sha256_hex loads).
Abbreviation verify_evidence_chain := (verify_evidence_chain sha256_hex loads).
Abbreviation verify_evidence_chain_slice := (verify_evidence_chain_slice sha256_hex loads).
Abbreviation verify_latest_link := (verify_latest_link sha256_hex loads).

(** A record whose hashes are right and whose payload is an object. *)
Definition sound (r : EvidenceRecord) : Prop :=
  payload_sha256 r = sha256_hex (payload_json r)
  /\ record_hash r = build_record_hash (payload_sha256 r) (previous_hash r)
  /\ exists d, loads (payload_json r) = Ok (PDict d).
(** A chain that starts after [prev]: each record names the hash of the one before. *)
Fixpoint chained (prev : option string) (l : list EvidenceRecord) : Prop :=
  match l with [] => True | r :: l => previous_hash r = prev /\ chained (Some (record_hash r)) l end.
Definition head_of (prev : option string) (l : list EvidenceRecord) : option string :=
  match list.last l with Some r => Some (record_hash r) | None => prev end.

Lemma result_of_valid n xs : is_valid (result_of n xs) = true <-> xs = [].
Proof. unfold result_of. simpl. rewrite bool_decide_eq_true. by destruct xs. Qed.
Lemma unless_nil b x : unless b x = [] <-> b = true.
Proof. by destruct b. Qed.
Lemma integrity_nil i r : verify_evidence_integrity sha256_hex loads i r = [] <-> sound r.
Proof.
  unfold verify_evidence_integrity, sound. rewrite !app_nil, !unless_nil, !String.eqb_eq.
  destruct (loads (payload_json r)) as [[]|[]]; naive_solver.
Qed.
Lemma link_nil p i r : verify_chain_link p i r = [] <-> previous_hash r = record_hash <$> p.
Proof.
  destruct p as [p|]; simpl; [by rewrite unless_nil, bool_decide_eq_true|]. by destruct (previous_hash r).
Qed.
Lemma loop_nil p i l : verify_loop p i l = [] <-> Forall sound l /\ chained (record_hash <$> p) l.
Proof.
  revert p i. induction l as [|r l IH]; intros p i; simpl; [by repeat constructor|].
  rewrite !app_nil, integrity_nil, link_nil, IH, list.Forall_cons. naive_solver.
Qed.
Lemma chained_app prev a b : chained prev (a ++ b) <-> chained prev a /\ chained (head_of prev a) b.
Proof.
  revert prev. induction a as [|r a IH]; intros prev; simpl; [naive_solver|]. rewrite IH. unfold head_of.
  destruct a as [|r' a]; simpl; [naive_solver|]. destruct (list.last (r' :: a)) eqn:E; [naive_solver|]. by apply last_None in E.
Qed.

Lemma chain_valid l : is_valid (verify_evidence_chain l) = true <-> Forall sound l /\ chained None l.
Proof. unfold EvidenceChain.verify_evidence_chain. by rewrite result_of_valid, loop_nil. Qed.
Lemma latest_valid p r : is_valid (verify_latest_link p r) = true <-> sound r /\ previous_hash r = record_hash <$> p.
Proof. unfold EvidenceChain.verify_latest_link. by rewrite result_of_valid, app_nil, integrity_nil, link_nil. Qed.
Lemma slice_valid w l :
  (forall w', w = Some w' -> normalize_witness w' = Some w') ->
  is_valid <$> verify_evidence_chain_slice l w = Some true <-> Forall sound l /\ chained w l.
Proof.
  intros Hw. unfold EvidenceChain.verify_evidence_chain_slice.
  assert (match w with Some w => Some <$> normalize_witness w | None => Some None end = Some w) as ->.
  { destruct w as [w|]; [|done]. by rewrite (Hw w). }
  simpl. destruct l as [|r l]; simpl; [by repeat constructor|].
  assert (Hl : verify_witness_link w r = [] <-> previous_hash r = w).
  { unfold verify_witness_link. destruct w as [w|], (previous_hash r) as [h|]; try done.
    rewrite unless_nil, String.eqb_eq. naive_solver. }
  rewrite list.Forall_cons. transitivity (is_valid (result_of (length (r :: l)) (verify_evidence_integrity sha256_hex loads 0 r ++ verify_witness_link w r ++ verify_loop (Some r) 1 l)) = true).
  { simpl. split; [by intros [= ->]|by intros ->]. }
  rewrite result_of_valid, !app_nil, integrity_nil, Hl, loop_nil. simpl. naive_solver.
Qed.

(** ** Slices and witnesses *)

(** [hexdigest()] is 64 lower-case hexadecimal digits. *)
Definition digest (s : string) : Prop := String.length s = 64 /\ str_all is_hex s = true.

Lemma hex_char c : is_hex c = true -> isspace c = false /\ lower_char c = c.
Proof. by destruct c as [[] [] [] [] [] [] [] []]. Qed.
Lemma hex_stripped s : str_all is_hex s = true -> str_lower (strip s) = s.
Proof.
  intros H. assert (Hr : rstrip s = s).
  { induction s as [|c s IH]; [done|]. simpl in *. apply andb_prop in H as [Hc Hs]. rewrite (IH Hs).
    destruct s; [|done]. by rewrite (proj1 (hex_char c Hc)). }
  unfold strip. rewrite Hr. destruct s as [|c s]; [done|]. pose proof H as [Hc _]%andb_prop. simpl lstrip.
  rewrite (proj1 (hex_char c Hc)). clear Hr Hc. unfold str_lower. induction (String c s) as [|d t IH]; [done|].
  simpl in *. apply andb_prop in H as [Hd Ht]. rewrite (proj2 (hex_char d Hd)). f_equal. by apply IH.
Qed.
Lemma digest_normal s : digest s -> normalize_witness s = Some s.
Proof. intros [Hn Hh]. unfold normalize_witness. by rewrite (hex_stripped s Hh), Hn, Hh. Qed.

Lemma head_of_snoc prev l r : head_of prev (l ++ [r]) = Some (record_hash r).
Proof. unfold head_of. by rewrite last_snoc. Qed.

Section Digests.
Context (sha256_digest : forall s, digest (sha256_hex s)).
Lemma split_valid a r b :
  is_valid (verify_evidence_chain (a ++ r :: b)) = true <->
  is_valid (verify_evidence_chain (a ++ [r])) = true
  /\ is_valid <$> verify_evidence_chain_slice b (Some (record_hash r)) = Some true.
Proof using sha256_digest.
  rewrite (cons_middle r a b), app_assoc, !chain_valid. split.
  - intros [Hs Hc]. apply Forall_app in Hs as [Ha Hb]. rewrite chained_app, head_of_snoc in Hc. destruct Hc as [Hc Hd].
    split; [done|]. rewrite slice_valid; [done|]. intros w [= <-]. apply Forall_app in Ha as [_ (_ & -> & _)%Forall_inv].
    apply digest_normal, sha256_digest.
  - intros [[Ha Hc] Hb]. rewrite slice_valid in Hb.
    + destruct Hb as [Hb Hd]. split; [by apply Forall_app|]. rewrite chained_app, head_of_snoc. done.
    + intros w [= <-]. apply Forall_app in Ha as [_ (_ & -> & _)%Forall_inv]. apply digest_normal, sha256_digest.
Qed.
End Digests.
Lemma snoc_valid l r :
  is_valid (verify_evidence_chain (l ++ [r])) = true <->
  is_valid (verify_evidence_chain l) = true /\ is_valid (verify_latest_link (list.last l) r) = true.
Proof.
  rewrite !chain_valid, latest_valid, chained_app, Forall_app, Forall_singleton. simpl. unfold head_of.
  destruct (list.last l); simpl; naive_solver.
Qed.

(** ** Tampering *)

(** The texts that are hashed for a record. *)
Definition chain_text (r : EvidenceRecord) : string :=
  dumps (PDict [("payload_sha256", PStr (payload_sha256 r)); ("previous_hash", EventLedger.opt_json (previous_hash r))]).
Definition chain_texts (l : list EvidenceRecord) : list string := l ≫= fun r => [payload_json r; chain_text r].
Definition same_evidence (r r' : EvidenceRecord) : Prop :=
  payload_json r = payload_json r' /\ payload_sha256 r = payload_sha256 r' /\ previous_hash r = previous_hash r'
  /\ record_hash r = record_hash r'.

Lemma chain_text_inj r r' :
  chain_text r = chain_text r' -> payload_sha256 r = payload_sha256 r' /\ previous_hash r = previous_hash r'.
Proof.
  intros H. unfold chain_text, dumps in H. apply render_inj in H.
  2: by apply canon_ok; destruct (previous_hash r).
  2: by apply canon_ok; destruct (previous_hash r').
  rewrite canon_dict in H. pose proof (H "payload_sha256") as H1. pose proof (H "previous_hash") as H2. cbn in H1, H2.
  simplify_eq/=. split; [done|]. by destruct (previous_hash r), (previous_hash r'); simplify_eq/=.
Qed.
Definition no_collision (ts ts' : list string) : Prop :=
  forall s s', s ∈ ts -> s' ∈ ts' -> sha256_hex s = sha256_hex s' -> s = s'.
Lemma same_hash_same_evidence r r' :
  sound r -> sound r' -> no_collision (chain_texts [r]) (chain_texts [r']) -> record_hash r = record_hash r' -> same_evidence r r'.
Proof.
  intros (Hp & Hr & _) (Hp' & Hr' & _) Hc H. unfold chain_texts in Hc. simpl in Hc.
  assert (Ht : chain_text r = chain_text r').
  { apply Hc; [set_solver..|]. etransitivity; [symmetry; exact Hr|]. rewrite H. exact Hr'. }
  apply chain_text_inj in Ht as [H1 H2]. split_and!; [|done..]. apply Hc; [set_solver..|congruence].
Qed.
Lemma chain_texts_app l l' : chain_texts (l ++ l') = chain_texts l ++ chain_texts l'.
Proof. apply bind_app. Qed.
Lemma same_head_same_evidence l l' :
  Forall sound l -> Forall sound l' -> chained None l -> chained None l' ->
  no_collision (chain_texts l) (chain_texts l') -> head_of None l = head_of None l' -> Forall2 same_evidence l l'.
Proof.
  revert l'. induction l as [|r l IH] using rev_ind; intros l' Hs Hs' Hl Hl' Hc Hh.
  - destruct l' as [|r' l' _] using rev_ind; [constructor|]. by rewrite head_of_snoc in Hh.
  - destruct l' as [|r' l' _] using rev_ind; [by rewrite head_of_snoc in Hh|]. rewrite !head_of_snoc in Hh. injection Hh as Hh.
    rewrite !chain_texts_app in Hc. apply Forall_app in Hs as [Hs Hr%Forall_inv], Hs' as [Hs' Hr'%Forall_inv].
    assert (He : same_evidence r r') by (apply same_hash_same_evidence; [done..| |done]; intros ????; apply Hc; set_solver).
    rewrite chained_app in Hl, Hl'. destruct Hl as [Hl [Hp _]], Hl' as [Hl' [Hp' _]].
    apply Forall2_app; [|by constructor]. apply IH; [done..|intros ????; apply Hc; set_solver|].
    rewrite <- Hp, <- Hp'. apply He.
Qed.
End Chain.
End EvidenceSpec.

(** * Runs with SHA-256 *)
Module LedgerRuns.
Import EventLedger.

(** [hashlib.sha256(s.encode()).hexdigest()] of an ASCII text. *)
Definition hexdigest (s : string) : string :=
  string_of_list_ascii (ascii_of_N <$> PyBytes.hex (PyBytes.digest (list_byte_of_string s))).
Lemma hexdigest_digest s : EvidenceSpec.digest (hexdigest s).
Proof.
  unfold hexdigest. pose proof (PyBytes.digest_length (list_byte_of_string s)) as Hl.
  pose proof (PyBytes.length_hex (PyBytes.digest (list_byte_of_string s))) as Hh. rewrite Hl in Hh.
  remember (PyBytes.digest (list_byte_of_string s)) as b eqn:Eb. clear Eb. split.
  - assert (Hs : forall l, String.length (string_of_list_ascii l) = length l) by (induction l as [|c l IH]; simpl; [done|by rewrite IH]).
    by rewrite Hs, length_fmap.
  - clear. induction b as [|x b IH]; [done|]. rewrite PyBytes.hex_cons. destruct x; exact IH.
Qed.

Definition sg : signer := {| sign := fun m => Ok ("signed:" +:+ m); key_id := "k1"; algorithm := "ecdsa-p256" |}.
Definition verifying_key : verifier := fun m s => String.eqb s ("signed:" +:+ m).
Definition id64 (s : string) : string := s.
Definition proposal (actor : string) (payload : pydict) (ups : list string) : ProposedEvent := {|
  event_kind := "agent_action"; pe_actor_entity_id := actor; pe_target_entity_id := None; pe_payload := payload;
  proposed_at := "2026-05-01T00:00:00+00:00"; session_id := None; pe_upstream_event_ids := ups |}.
Definition put (p : ProposedEvent) (id : string) (l : InMemoryLedger) : InMemoryLedger :=
  (append_proposed hexdigest id64 Some sg p (Some id) "" None l).2.
Definition demo : InMemoryLedger :=
  put (proposal "agent-b" [("amount", PInt 7); ("tool", PStr "pay")] ["e1"]) "e2"
    (put (proposal "agent-a" [("tool", PStr "read")] []) "e1" (new_ledger (Some verifying_key))).
Definition shuffled : InMemoryLedger :=
  put (proposal "agent-b" [("tool", PStr "pay"); ("amount", PInt 7)] ["e1"]) "e9"
    (put (proposal "agent-a" [("tool", PStr "read")] []) "e1" (new_ledger (Some verifying_key))).

Example demo_length : length (events demo) = 2.
Proof. vm_compute. reflexivity. Qed.
Example demo_head : chain_head (events demo) = chain_head (events shuffled).
Proof. vm_compute. reflexivity. Qed.
Lemma demo_reachable : LedgerSpec.reachable hexdigest Some (Some verifying_key) demo.
Proof.
  do 2 apply LedgerSpec.append_proposed_reachable. apply LedgerSpec.reachable_new.
Qed.
(** Two sets of texts without a collision, decided. *)
Definition collision_freeb (ts ts' : list string) : bool :=
  let hs := (fun s => (s, hexdigest s)) <$> ts in
  let hs' := (fun s => (s, hexdigest s)) <$> ts' in
  forallb (fun p => forallb (fun q => negb (String.eqb p.2 q.2) || String.eqb p.1 q.1) hs') hs
  && forallb (fun p => negb (String.eqb p.2 genesis_ledger_hash)) (hs ++ hs').
#[local] Opaque hexdigest.
Lemma collision_freeb_spec ts ts' : collision_freeb ts ts' = true -> LedgerSpec.collision_free hexdigest ts ts'.
Proof.
  unfold collision_freeb. rewrite andb_true_iff, !forallb_Forall_true, <- fmap_app, !Forall_fmap, !list.Forall_forall.
  intros [H1 H2]. split.
  - intros s s' Hs Hs' E. specialize (H1 s Hs). unfold compose in *; cbn [fst snd] in H1. rewrite forallb_Forall_true, Forall_fmap, list.Forall_forall in H1.
    specialize (H1 s' Hs'). unfold compose in *; cbn [fst snd] in H1. rewrite E, String.eqb_refl in H1. by apply String.eqb_eq.
  - intros s Hs E. specialize (H2 s Hs). unfold compose in *; cbn [fst snd] in H2. by rewrite E, String.eqb_refl in H2.
Qed.

#[local] Transparent hexdigest.

(** *** Claims on the ledger *)

(** Whatever is appended to a ledger that verifies signatures, in whatever order
    and with whatever failures between, [verify_chain] answers [True] on exactly the
    ranges that lie within the ledger: no record that was let in fails a later audit, and
    an empty or out-of-range audit is refused. *)
Theorem ledger_verifies sha256_hex b64decode verify l from to :
  LedgerSpec.reachable sha256_hex b64decode (Some verify) l ->
  (verify_chain sha256_hex b64decode from to l).1
  = Ok ((1 <=? from) && (from <=? to) && (to <=? Z.of_nat (length (events l))))%Z.
Proof. intros H. eapply LedgerSpec.verify_chain_spec, LedgerSpec.reachable_well_formed, H. Qed.
Lemma ledger_verifies_witness : (verify_chain hexdigest Some 1 2 demo).1 = Ok true.
Proof. rewrite (ledger_verifies hexdigest Some verifying_key demo 1 2 demo_reachable). vm_compute. reflexivity. Defined.

(** C19. The ledger is tamper-evident: take any two stored ledgers, however they came to
    be, that both pass a full audit and end in the same record hash.  Unless SHA-256
    collides on the texts they hash, they have the same number of records with, one by
    one, the same kind, actor, target, time, sequence number, causal predecessors, tool
    receipt and links, and the same payload up to the order of its keys. *)
Theorem ledger_tamper_evident sha256_hex b64decode verify verify' l l' :
  verifying l = Some verify -> verifying l' = Some verify' ->
  (verify_chain sha256_hex b64decode 1 (Z.of_nat (length (events l))) l).1 = Ok true ->
  (verify_chain sha256_hex b64decode 1 (Z.of_nat (length (events l'))) l').1 = Ok true ->
  LedgerSpec.collision_free sha256_hex (LedgerSpec.texts (events l)) (LedgerSpec.texts (events l')) ->
  chain_head (events l) = chain_head (events l') ->
  Forall2 LedgerSpec.same_record (events l) (events l').
Proof.
  intros Hv Hv' H H' Hc Hh. apply (LedgerSpec.verify_all_spec sha256_hex b64decode _ _ Hv) in H as (? & ? & _).
  apply (LedgerSpec.verify_all_spec sha256_hex b64decode _ _ Hv') in H' as (? & ? & _).
  by apply (LedgerSpec.same_head_same_chain sha256_hex).
Qed.
Lemma ledger_tamper_evident_witness : Forall2 LedgerSpec.same_record (events demo) (events shuffled).
Proof.
  apply (ledger_tamper_evident hexdigest Some verifying_key verifying_key demo shuffled);
    [vm_compute; reflexivity..|apply collision_freeb_spec; vm_compute; reflexivity|exact demo_head].
Defined.
(** A record whose id is taken is accepted; looking the id up then answers the later
    record, and the earlier one stays in the chain without being found by its id. *)
Example duplicate_id_shadows :
  let l := put (proposal "agent-c" [] []) "e1" demo in
  length (events l) = 3 /\ actor_entity_id <$> get_event demo "e1" = Some "agent-a"
  /\ actor_entity_id <$> get_event l "e1" = Some "agent-c"
  /\ (verify_chain hexdigest Some 1 3 l).1 = Ok true.
Proof. vm_compute. done. Qed.
(** An id is not part of what is hashed: a record under another id passes the audit. *)
Example renamed_event_verifies :
  let rename e := {| event_id := "forged"; kind := kind e; actor_entity_id := actor_entity_id e;
    target_entity_id := target_entity_id e; payload := payload e; timestamp := timestamp e;
    sequence_number := sequence_number e; upstream_event_ids := upstream_event_ids e;
    previous_ledger_hash := previous_ledger_hash e; payload_sha256 := payload_sha256 e; record_hash := record_hash e;
    pq_signature_b64 := pq_signature_b64 e; pq_signing_key_id := pq_signing_key_id e;
    pq_signature_algorithm := pq_signature_algorithm e; tool_receipt_id := tool_receipt_id e |} in
  let l := {| events := rename <$> events demo; index := ∅; verifying := Some verifying_key; warned_no_verification := false |} in
  (verify_chain hexdigest Some 1 2 l).1 = Ok true.
Proof. vm_compute. done. Qed.
End LedgerRuns.

Module EvidenceRuns.
Import EvidenceChain.
Abbreviation hexdigest := LedgerRuns.hexdigest.

(** A reader that takes every text between braces for an object. *)
Definition braces (s : string) : result loads_error pyval :=
  if String.prefix "{" s then Ok (PDict []) else Err JSONDecodeError.
Definition record (payload : string) (prev : option EvidenceRecord) : EvidenceRecord :=
  let ph := hexdigest payload in
  {| payload_json := payload; payload_sha256 := ph; previous_hash := record_hash <$> prev;
     record_hash := build_record_hash hexdigest ph (record_hash <$> prev) |}.
Definition r1 : EvidenceRecord := Eval vm_compute in record "{1}" None.
Definition r2 : EvidenceRecord := Eval vm_compute in record "{2}" (Some r1).
Definition r3 : EvidenceRecord := Eval vm_compute in record "{3}" (Some r2).

(** A slice of the evidence chain can be audited alone: a chain is valid exactly when
    the part up to any of its records is valid and [verify_evidence_chain_slice] accepts
    the rest with that record's hash as witness.  So the answers on two halves combine to
    the answer on the whole, and no forgery is visible in the whole chain only. *)
Theorem evidence_slice_exact sha256_hex loads a r b :
  (forall s, EvidenceSpec.digest (sha256_hex s)) ->
  is_valid (verify_evidence_chain sha256_hex loads (a ++ r :: b)) = true <->
  is_valid (verify_evidence_chain sha256_hex loads (a ++ [r])) = true
  /\ is_valid <$> verify_evidence_chain_slice sha256_hex loads b (Some (record_hash r)) = Some true.
Proof. intros H. by apply EvidenceSpec.split_valid. Qed.
Lemma evidence_slice_exact_witness : is_valid (verify_evidence_chain hexdigest braces [r1; r2; r3]) = true.
Proof.
  apply (evidence_slice_exact hexdigest braces [r1] r2 [r3] LedgerRuns.hexdigest_digest). vm_compute. done.
Defined.

(** Two valid chains with the same last hash carry the same payloads, in the same order,
    unless SHA-256 collides on the texts they hash. *)
Theorem evidence_tamper_evident sha256_hex loads l l' :
  is_valid (verify_evidence_chain sha256_hex loads l) = true ->
  is_valid (verify_evidence_chain sha256_hex loads l') = true ->
  EvidenceSpec.no_collision sha256_hex (EvidenceSpec.chain_texts l) (EvidenceSpec.chain_texts l') ->
  EvidenceSpec.head_of None l = EvidenceSpec.head_of None l' ->
  Forall2 EvidenceSpec.same_evidence l l'.
Proof.
  intros [Hs Hc]%EvidenceSpec.chain_valid [Hs' Hc']%EvidenceSpec.chain_valid.
  by apply EvidenceSpec.same_head_same_evidence with loads.
Qed.
(** A slice without its witness is not passed off as valid. *)
Example slice_needs_witness :
  (fun r => issue_code <$> issues r) <$> verify_evidence_chain_slice hexdigest braces [r2; r3] None
  = Some ["missing_prior_link_witness"].
Proof. vm_compute. done. Qed.
End EvidenceRuns.
