(* ===== verification/Institution.v ===== *)
(** * Institutional governance: the manifest

    [tex/institutional/sanctions.py] and [governance_graph.py]: a labelled transition
    system read from a JSON-shaped manifest, validated, and identified by a digest of
    its canonical text.  Exceptions are kept by class, without their texts. *)
From Stdlib Require Import SpecFloat.
From S2P Require Import Prelude StateExn PyStr PyFloat PyVal RouterDomain PdpDomain PyFormat Canonical.
Import RouterDomain PdpDomain Canonical.
Open Scope string_scope.
Open Scope list_scope.
Open Scope nat_scope.

Module Institution.

Inductive exn :=
| GovernanceGraphValidationError
| ValueError
| TypeError
| OverflowError
| KeyError
| AttributeError.
#[export] Instance exn_eq_dec : EqDecision exn.
Proof. solve_decision. Defined.
Definition check (ok : bool) (e : exn) : result exn unit := if ok then Ok () else Err e.
Definition nonempty (s : string) : bool := negb (String.eqb s "").

(** ** Sanctions and restorative paths *)

Record Sanction := {
  sanction_id : string;
  s_description : string;
  cost_to_actor : float;
  cost_to_system : float;
  enforcement_action : string;
  tier : option Z;
  fine_rate : option float;
  fine_floor : option float;
  duration_rounds : option Z
}.
Record RestorativePath := {
  path_id : string;
  p_description : string;
  restorative_event_kinds : list pyval;
  target_legal_state_id : string;
  restoration_kind : string;
  condition : option pydict
}.
Definition VALID_RESTORATION_KINDS : list string := ["expiry"; "credit_relief"; "clean_restoration"].
Definition VALID_ENFORCEMENT_ACTIONS : list string :=
  ["warning"; "fine"; "suspension"; "revoke_capability"; "reduce_trust"; "require_human_approval"; "block"; "quarantine"].

Definition valid_fine (s : Sanction) : bool :=
  match tier s with Some t => (1 <=? t)%Z && (t <=? 3)%Z | None => false end
  && match fine_rate s with Some r => fleb f_zero r && fleb r f_one | None => false end.
Definition valid_suspension (s : Sanction) : bool :=
  match duration_rounds s with Some d => (0 <? d)%Z | None => false end.
Definition validate_sanction (s : Sanction) : result exn unit :=
  check (nonempty (sanction_id s)
         && bool_decide (enforcement_action s ∈ VALID_ENFORCEMENT_ACTIONS)
         && negb (fltb (cost_to_actor s) f_zero || fltb (cost_to_system s) f_zero)
         && (negb (String.eqb (enforcement_action s) "fine") || valid_fine s)
         && (negb (String.eqb (enforcement_action s) "suspension") || valid_suspension s)) ValueError.
Definition validate_restorative_path (p : RestorativePath) : result exn unit :=
  check (nonempty (path_id p) && bool_decide (restoration_kind p ∈ VALID_RESTORATION_KINDS)
         && nonempty (target_legal_state_id p)) ValueError.

(** ** States and transitions *)

Record LegalState := { state_id : string; predicate_ltl : string; st_description : string }.
Record LegalTransition := {
  from_state : string;
  to_state : string;
  triggered_by : string;
  edge_key : string;
  rule_id : string;
  t_sanction_id : option string;
  restorative_path_id : option string;
  timing : option (list (string * Z));
  sanction_on_violation : option string;
  precondition_ltl : string;
  t_metadata : option pydict
}.

(** [a or b] on optional texts. *)
Definition or_text (a b : option string) : option string :=
  match a with Some s => if nonempty s then a else b | None => b end.
Definition effective_sanction_id (t : LegalTransition) : result exn (option string) :=
  match t_sanction_id t, sanction_on_violation t with
  | Some a, Some b => if String.eqb a b then Ok (Some a) else Err ValueError
  | a, b => Ok (or_text a b)
  end.

(** [_EDGE_KEY_RE]: the classes do not meet the separators, so the match is
    deterministic; [$] also matches before a final newline. *)
Definition lower_start (c : ascii) : bool := in_range 97 122 c || Ascii.eqb c "_".
Definition lower_rest (c : ascii) : bool := lower_start c || in_range 48 57 c.
Definition rule_char (c : ascii) : bool := lower_rest c || in_range 65 90 c.
Definition state_name (s : string) : option (string * string) :=
  match s with
  | String c r => if lower_start c then let '(w, r) := span lower_rest r in Some (String c w, r) else None
  | EmptyString => None
  end.
Definition match_edge_key (s : string) : option (string * string * string) :=
  let '(rule, r) := span rule_char s in
  if nonempty rule then
    r ← drop_prefix ":" r;
    '(src, r) ← state_name r;
    r ← drop_prefix "->" r;
    '(tgt, r) ← state_name r;
    if String.eqb r "" || String.eqb r (String (ascii_of_nat 10) "") then Some (rule, src, tgt) else None
  else None.

(** ** The manifest's entries *)

(** Iterating over a value; a mapping yields its keys, a text its characters. *)
Fixpoint chars (s : string) : list pyval :=
  match s with EmptyString => [] | String c s => PStr (String c "") :: chars s end.
Definition iter_value (v : pyval) : result exn (list pyval) :=
  match v with
  | PList l => Ok l
  | PDict d => Ok (PStr <$> remove_dups (d.*1))
  | PStr s => Ok (chars s)
  | _ => Err TypeError
  end.
(** [data.get(k) or []]. *)
Definition entries_at (k : string) (d : pydict) : result exn (list pyval) :=
  match dict_get k d with Some v => if py_bool v then iter_value v else Ok [] | None => Ok [] end.

Definition int_of (v : pyval) : result exn Z :=
  match v with
  | PBool b => Ok (if b then 1 else 0)%Z
  | PInt z => Ok z
  | PFloat (S754_infinity _) => Err OverflowError
  | PFloat S754_nan => Err ValueError
  | PFloat (S754_zero _) => Ok 0%Z
  | PFloat (S754_finite s m e) =>
      let k := if (0 <=? e)%Z then (Zpos m * 2 ^ e)%Z else (Zpos m / 2 ^ (- e))%Z in Ok (if s then - k else k)%Z
  | PStr s => match int_of_string s with Some z => Ok z | None => Err ValueError end
  | _ => Err TypeError
  end.
Definition float_of (v : pyval) : result exn float :=
  match to_float v with
  | FOk f => Ok f | FValueError => Err ValueError | FTypeError => Err TypeError | FOverflowError => Err OverflowError
  end.
Definition optional {A} (conv : pyval -> result exn A) (d : pydict) (k : string) : result exn (option A) :=
  match dict_get k d with None | Some PNone => Ok None | Some v => a ← conv v; Ok (Some a) end.
Definition optional_int : pydict -> string -> result exn (option Z) := optional int_of.
Definition optional_float : pydict -> string -> result exn (option float) := optional float_of.
(** A mapping given for the key, if it is one. *)
Definition dict_at (d : pydict) (k : string) : option pydict :=
  match dict_get k d with Some (PDict d) => Some d | _ => None end.
(** A [ValueError] of a validator becomes the manifest's error. *)
Definition as_invalid {A} (r : result exn A) : result exn A :=
  match r with Err ValueError => Err GovernanceGraphValidationError | r => r end.

Section Manifest.
Context (str_other : pyval -> string) (sha256_hex : string -> string).
Abbreviation py_str := (py_str_of str_other).

(** [str(entry.get(k, default))]. *)
Definition text_at (d : pydict) (k default : string) : string :=
  match dict_get k d with Some v => py_str v | None => default end.
Definition required_str (d : pydict) (k : string) : result exn string :=
  match dict_get k d with
  | Some (PStr s) => if nonempty s then Ok s else Err GovernanceGraphValidationError
  | _ => Err GovernanceGraphValidationError
  end.
(** [a.get(k) or a.get(k')]. *)
Definition get_or (d : pydict) (k k' : string) : option pyval :=
  match dict_get k d with Some v => if py_bool v then Some v else dict_get k' d | None => dict_get k' d end.

Definition parse_state (v : pyval) : result exn LegalState :=
  match v with
  | PStr s => Ok {| state_id := s; predicate_ltl := ""; st_description := "" |}
  | PDict d =>
      match get_or d "state_id" "id" with
      | Some (PStr s) =>
          if nonempty s
          then Ok {| state_id := s; predicate_ltl := text_at d "predicate_ltl" ""; st_description := text_at d "description" "" |}
          else Err GovernanceGraphValidationError
      | _ => Err GovernanceGraphValidationError
      end
  | _ => Err GovernanceGraphValidationError
  end.
Definition parse_states : list pyval -> result exn (list LegalState) := map_result parse_state.

(** [float(entry.get(k, 0.0))]. *)
Definition float_at (d : pydict) (k : string) : result exn float :=
  match dict_get k d with Some v => float_of v | None => Ok f_zero end.
Definition parse_sanction (v : pyval) : result exn Sanction :=
  match v with
  | PDict d =>
      cost_actor ← float_at d "cost_to_actor";
      cost_system ← float_at d "cost_to_system";
      t ← optional_int d "tier";
      rate ← optional_float d "fine_rate";
      floor ← optional_float d "fine_floor";
      duration ← optional_int d "duration_rounds";
      let s := {| sanction_id := text_at d "sanction_id" ""; s_description := text_at d "description" "";
                  cost_to_actor := cost_actor; cost_to_system := cost_system;
                  enforcement_action := text_at d "enforcement_action" ""; tier := t; fine_rate := rate;
                  fine_floor := floor; duration_rounds := duration |} in
      as_invalid (validate_sanction s) ;; Ok s
  | _ => Err GovernanceGraphValidationError
  end.
Definition parse_sanctions : list pyval -> result exn (list Sanction) := map_result parse_sanction.

Definition parse_restorative_path (v : pyval) : result exn RestorativePath :=
  match v with
  | PDict d =>
      kinds ← match dict_get "restorative_event_kinds" d with Some v => iter_value v | None => Ok [] end;
      let p := {| path_id := text_at d "path_id" ""; p_description := text_at d "description" "";
                  restorative_event_kinds := kinds; target_legal_state_id := text_at d "target_legal_state_id" "";
                  restoration_kind := text_at d "restoration_kind" "expiry"; condition := dict_at d "condition" |} in
      as_invalid (validate_restorative_path p) ;; Ok p
  | _ => Err GovernanceGraphValidationError
  end.
Definition parse_restorative_paths : list pyval -> result exn (list RestorativePath) := map_result parse_restorative_path.

(** [{k: int(v) for k, v in timing.items() if v is not None}]. *)
Definition parse_timing (d : pydict) : result exn (list (string * Z)) :=
  map_result (fun kv => z ← int_of kv.2; Ok (kv.1, z)) (List.filter (fun kv => match kv.2 with PNone => false | _ => true end) d).
(** [str(v) if v is not None else None]. *)
Definition opt_text (v : option pyval) : option string :=
  match v with None | Some PNone => None | Some v => Some (py_str v) end.
Definition parse_transition (v : pyval) : result exn LegalTransition :=
  match v with
  | PDict d =>
      let src := text_at d "from_state" "" in
      let tgt := text_at d "to_state" "" in
      let key := text_at d "edge_key" "" in
      let rule := text_at d "rule_id" "" in
      let key := if negb (nonempty key) && nonempty rule && nonempty src && nonempty tgt
                 then rule +:+ ":" +:+ src +:+ "->" +:+ tgt else key in
      let rule := if nonempty key && negb (nonempty rule)
                  then match match_edge_key key with Some (r, _, _) => r | None => rule end else rule in
      tm ← match dict_get "timing" d with Some (PDict tm) => x ← parse_timing tm; Ok (Some x) | _ => Ok None end;
      Ok {| from_state := src; to_state := tgt; triggered_by := text_at d "triggered_by" ""; edge_key := key; rule_id := rule;
            t_sanction_id := opt_text (get_or d "sanction_id" "sanction_on_violation");
            restorative_path_id := opt_text (dict_get "restorative_path_id" d);
            timing := tm; sanction_on_violation := None; precondition_ltl := ""; t_metadata := dict_at d "metadata" |}
  | _ => Err GovernanceGraphValidationError
  end.
Definition parse_transitions : list pyval -> result exn (list LegalTransition) := map_result parse_transition.

(** ** Validation *)

Abbreviation invalid := GovernanceGraphValidationError.
(** One round of the loop over the transitions, with the keys and the pairs seen. *)
Definition validate_transition (state_ids sanction_ids path_ids : list string) (t : LegalTransition)
    (seen : list string * list (string * string)) : result exn (list string * list (string * string)) :=
  check (nonempty (edge_key t)) invalid ;;
  '(rule, src, tgt) ← match match_edge_key (edge_key t) with Some m => Ok m | None => Err invalid end;
  check (String.eqb src (from_state t) && String.eqb tgt (to_state t)) invalid ;;
  check (negb (nonempty (rule_id t)) || String.eqb rule (rule_id t)) invalid ;;
  check (bool_decide (edge_key t ∉ seen.1)) invalid ;;
  check (bool_decide (from_state t ∈ state_ids)) invalid ;;
  check (bool_decide (to_state t ∈ state_ids)) invalid ;;
  check (nonempty (triggered_by t)) invalid ;;
  eff ← as_invalid (effective_sanction_id t);
  check (match eff with Some s => bool_decide (s ∈ sanction_ids) | None => true end) invalid ;;
  check (match restorative_path_id t with Some p => bool_decide (p ∈ path_ids) | None => true end) invalid ;;
  check (bool_decide ((from_state t, triggered_by t) ∉ seen.2)) invalid ;;
  Ok (edge_key t :: seen.1, (from_state t, triggered_by t) :: seen.2).
Fixpoint validate_transitions (state_ids sanction_ids path_ids : list string) (ts : list LegalTransition)
    (seen : list string * list (string * string)) : result exn unit :=
  match ts with
  | [] => Ok ()
  | t :: ts =>
      seen ← validate_transition state_ids sanction_ids path_ids t seen;
      validate_transitions state_ids sanction_ids path_ids ts seen
  end.
Definition validate_topology (states : list LegalState) (transitions : list LegalTransition)
    (sanctions : list Sanction) (paths : list RestorativePath) : result exn unit :=
  let state_ids := state_id <$> states in
  check (negb (bool_decide (states = []))) invalid ;;
  check (length (remove_dups state_ids) =? length states) invalid ;;
  validate_transitions state_ids (sanction_id <$> sanctions) (path_id <$> paths) transitions ([], []) ;;
  check (forallb (fun p => bool_decide (target_legal_state_id p ∈ state_ids)) paths) invalid.

(** ** The digest *)

(** [int(round(x * 1000))]. *)
Definition milli (x : float) : result exn Z :=
  match x, round_to_Z (fmul x (dec 1000 0)) with
  | S754_nan, _ => Err ValueError
  | _, Some z => Ok z
  | _, None => Err OverflowError
  end.
Definition milli_opt (x : option float) : result exn Z := match x with Some x => milli x | None => Ok 0%Z end.
(** The items of a mapping in key order, then each coerced in that order. *)
Fixpoint coerce_jsonable (v : pyval) : result exn pyval :=
  match v with
  | PFloat f => z ← milli f; Ok (PInt z)
  | PDict d =>
      kvs ← map_result (fun kr => x ← kr.2; Ok (kr.1, x))
              (sort_items ((fix go (d : pydict) := match d with
                              | [] => [] | kv :: d => (kv.1, coerce_jsonable kv.2) :: go d end) d));
      Ok (PDict kvs)
  | PList l =>
      l ← (fix go (l : list pyval) := match l with
             | [] => Ok [] | x :: l => y ← coerce_jsonable x; ys ← go l; Ok (y :: ys) end) l;
      Ok (PList l)
  | PObj s => Ok (PStr s)
  | v => Ok v
  end.
Definition coerce_dict (d : option pydict) : result exn pyval := coerce_jsonable (PDict (default [] d)).

Record GovernanceGraph := {
  graph_id : string;
  version : string;
  states : list LegalState;
  transitions : list LegalTransition;
  sanctions : list Sanction;
  restorative_paths : list RestorativePath;
  manifest_hash : string;
  publisher_signature_b64 : string;
  manifest_semantic_sha256 : string;
  manifest_file_sha256 : string;
  schema_version : string;
  interpreter_name : string;
  interpreter_version : string;
  policy_surface : option pydict;
  policy_program : option pydict;
  contracts : option pydict
}.

Definition state_json (s : LegalState) : pyval := PDict [
  ("state_id", PStr (state_id s)); ("description", PStr (st_description s)); ("predicate_ltl", PStr (predicate_ltl s))].
Definition transition_json (t : LegalTransition) : result exn pyval :=
  eff ← effective_sanction_id t;
  md ← coerce_dict (t_metadata t);
  Ok (PDict [
    ("edge_key", PStr (edge_key t)); ("rule_id", PStr (rule_id t)); ("from_state", PStr (from_state t));
    ("to_state", PStr (to_state t)); ("triggered_by", PStr (triggered_by t));
    ("sanction_id", PStr (default "" eff)); ("restorative_path_id", PStr (default "" (restorative_path_id t)));
    ("timing", PDict ((fun kv => (kv.1, PInt kv.2)) <$> default [] (timing t))); ("metadata", md)]).
Definition sanction_json (s : Sanction) : result exn pyval :=
  a ← milli (cost_to_actor s);
  b ← milli (cost_to_system s);
  r ← milli_opt (fine_rate s);
  f ← milli_opt (fine_floor s);
  Ok (PDict [
    ("sanction_id", PStr (sanction_id s)); ("description", PStr (s_description s));
    ("cost_to_actor_x1000", PInt a); ("cost_to_system_x1000", PInt b);
    ("enforcement_action", PStr (enforcement_action s)); ("tier", PInt (default 0%Z (tier s)));
    ("fine_rate_x1000", PInt r); ("fine_floor_x1000", PInt f); ("duration_rounds", PInt (default 0%Z (duration_rounds s)))]).
Definition path_json (p : RestorativePath) : result exn pyval :=
  c ← coerce_dict (condition p);
  Ok (PDict [
    ("path_id", PStr (path_id p)); ("description", PStr (p_description p));
    ("restorative_event_kinds", PList (restorative_event_kinds p));
    ("target_legal_state_id", PStr (target_legal_state_id p)); ("restoration_kind", PStr (restoration_kind p));
    ("condition", c)]).
Definition semantic_digest_input (g : GovernanceGraph) : result exn pyval :=
  ts ← map_result transition_json (transitions g);
  ss ← map_result sanction_json (sanctions g);
  ps ← map_result path_json (restorative_paths g);
  surface ← coerce_dict (policy_surface g);
  program ← coerce_dict (policy_program g);
  cs ← coerce_dict (contracts g);
  Ok (PDict [
    ("schema_version", PStr (schema_version g)); ("graph_id", PStr (graph_id g)); ("version", PStr (version g));
    ("interpreter", PDict [("name", PStr (interpreter_name g)); ("version", PStr (interpreter_version g))]);
    ("states", PList (state_json <$> states g)); ("transitions", PList ts); ("sanctions", PList ss);
    ("restorative_paths", PList ps); ("policy_surface", surface); ("policy_program", program); ("contracts", cs)]).
Definition semantic_digest (g : GovernanceGraph) : result exn string :=
  x ← semantic_digest_input g;
  match canonical_sha256 sha256_hex x with Some h => Ok h | None => Err TypeError end.
Definition with_digests (g : GovernanceGraph) (h file : string) : GovernanceGraph := {|
  graph_id := graph_id g; version := version g; states := states g; transitions := transitions g;
  sanctions := sanctions g; restorative_paths := restorative_paths g;
  manifest_hash := h; publisher_signature_b64 := publisher_signature_b64 g; manifest_semantic_sha256 := h; manifest_file_sha256 := file;
  schema_version := schema_version g; interpreter_name := interpreter_name g; interpreter_version := interpreter_version g;
  policy_surface := policy_surface g; policy_program := policy_program g; contracts := contracts g |}.

(** [file_digest] is the SHA-256 of the file's bytes, when it came from a file. *)
Definition from_dict (data : pydict) (file_digest : option string) : result exn GovernanceGraph :=
  gid ← required_str data "graph_id";
  ver ← required_str data "version";
  interp ← match dict_get "interpreter" data with
           | Some (PDict d) => Ok d
           | Some v => if py_bool v then Err AttributeError else Ok []
           | None => Ok []
           end;
  sts ← entries_at "states" data ≫= parse_states;
  ss ← entries_at "sanctions" data ≫= parse_sanctions;
  ps ← entries_at "restorative_paths" data ≫= parse_restorative_paths;
  ts ← entries_at "transitions" data ≫= parse_transitions;
  validate_topology sts ts ss ps ;;
  let g := {| graph_id := gid; version := ver; states := sts; transitions := ts; sanctions := ss; restorative_paths := ps;
              manifest_hash := ""; publisher_signature_b64 := text_at data "publisher_signature_b64" "";
              manifest_semantic_sha256 := ""; manifest_file_sha256 := "";
              schema_version := text_at data "schema_version" "v1";
              interpreter_name := text_at interp "name" "tex.institutional.oracle_controller";
              interpreter_version := text_at interp "version" "1.0.0";
              policy_surface := dict_at data "policy_surface"; policy_program := dict_at data "policy_program";
              contracts := dict_at data "contracts" |} in
  h ← semantic_digest g;
  Ok (with_digests g h (default h file_digest)).
(** [loads] is [json.loads], whose error is a [ValueError]; the file is the text. *)
Definition from_json (loads : string -> option pyval) (text : string) : result exn GovernanceGraph :=
  match loads text with
  | Some (PDict data) => from_dict data (Some (sha256_hex text))
  | Some _ => Err GovernanceGraphValidationError
  | None => Err ValueError
  end.
End Manifest.

(** ** Lookups *)

Definition lookup_sanction (g : GovernanceGraph) (id : string) : result exn Sanction :=
  match List.find (fun s => String.eqb (sanction_id s) id) (sanctions g) with Some s => Ok s | None => Err KeyError end.
Definition lookup_restorative_path (g : GovernanceGraph) (id : string) : result exn RestorativePath :=
  match List.find (fun p => String.eqb (path_id p) id) (restorative_paths g) with Some p => Ok p | None => Err KeyError end.
Definition lookup_state (g : GovernanceGraph) (id : string) : result exn LegalState :=
  match List.find (fun s => String.eqb (state_id s) id) (states g) with Some s => Ok s | None => Err KeyError end.
Definition matches (src ev : string) (t : LegalTransition) : bool :=
  String.eqb (from_state t) src && String.eqb (triggered_by t) ev.
(** A [ValueError] carries the keys of the transitions that match. *)
Definition find_transition (g : GovernanceGraph) (src ev : string) : result (list string) (option LegalTransition) :=
  match List.filter (matches src ev) (transitions g) with
  | [] => Ok None
  | [t] => Ok (Some t)
  | ts => Err (edge_key <$> ts)
  end.
Definition find_transition_by_edge_key (g : GovernanceGraph) (key : string) : option LegalTransition :=
  List.find (fun t => String.eqb (edge_key t) key) (transitions g).
Definition enabled_transitions (g : GovernanceGraph) (src : string) : list LegalTransition :=
  List.filter (fun t => String.eqb (from_state t) src) (transitions g).
End Institution.

(** * Theorems on manifests *)
Module InstitutionSpec.
Import Institution.

(** ** Edge keys *)

Definition stops (p : ascii -> bool) (r : string) : Prop :=
  match r with EmptyString => True | String c _ => p c = false end.
Lemma span_spec p s w r : span p s = (w, r) <-> s = w +:+ r /\ str_all p w = true /\ stops p r.
Proof.
  split; [|intros (-> & Hw & Hr); apply span_word; [done|by destruct r]].
  intros H. pose proof (span_app p s) as Ha. pose proof (span_all p s) as Hb. rewrite H in Ha, Hb. simpl in *.
  split_and!; [done..|]. clear Ha Hb. revert w H. induction s as [|c s IH]; simpl; intros w H; [by simplify_eq|].
  destruct (p c) eqn:Hc; [|by simplify_eq/=]. destruct (span p s) as [w' r']. simplify_eq. by eapply IH.
Qed.
Lemma drop_prefix_spec p s r : drop_prefix p s = Some r <-> s = p +:+ r.
Proof.
  revert s. induction p as [|c p IH]; intros s; [simpl; rewrite str_app_nil; naive_solver|].
  destruct s as [|d s]; [done|]. rewrite str_app_cons. simpl. destruct (Ascii.eqb_spec c d) as [->|Hne].
  - rewrite IH. naive_solver.
  - split; [done|]. intros [= ? _]. congruence.
Qed.

(** The words of an edge key. *)
Definition state_word (s : string) : Prop :=
  match s with String c r => lower_start c = true /\ str_all lower_rest r = true | EmptyString => False end.
Definition rule_word (s : string) : Prop := s <> "" /\ str_all rule_char s = true.
Lemma state_name_spec s w r : state_name s = Some (w, r) <-> s = w +:+ r /\ state_word w /\ stops lower_rest r.
Proof.
  destruct s as [|c s]; simpl; [split; [done|]; by intros (E & Hw & _); destruct w|].
  destruct (span lower_rest s) as [w' r'] eqn:Es. pose proof Es as (Ha & Hb & Hc)%span_spec. split.
  - destruct (lower_start c) eqn:Hl; [|done]. intros [= <- <-]. by rewrite str_app_cons, Ha.
  - intros (E & Hw & Hr). destruct w as [|c' w]; [done|]. rewrite str_app_cons in E. injection E as <- E.
    destruct Hw as [-> Hw]. assert (H : span lower_rest s = (w, r)) by (by apply span_spec). congruence.
Qed.
(** A key is a rule, a source and a target; a newline may follow. *)
Lemma match_edge_key_spec k rule src tgt :
  match_edge_key k = Some (rule, src, tgt) <->
  rule_word rule /\ state_word src /\ state_word tgt
  /\ exists e, k = rule +:+ ":" +:+ src +:+ "->" +:+ tgt +:+ e /\ (e = "" \/ e = String (ascii_of_nat 10) "").
Proof.
  unfold match_edge_key, rule_word, nonempty. split.
  - destruct (span rule_char k) as [w r] eqn:E1. apply span_spec in E1 as (-> & Hw & _).
    destruct (String.eqb_spec w ""); [done|]. cbn [negb].
    destruct (drop_prefix ":" r) as [r1|] eqn:E2; [|done]. cbn [mbind option_bind]. apply drop_prefix_spec in E2 as ->.
    destruct (state_name r1) as [[s r2]|] eqn:E3; [|done]. cbn [mbind option_bind]. apply state_name_spec in E3 as (-> & Hs & _).
    destruct (drop_prefix "->" r2) as [r3|] eqn:E4; [|done]. cbn [mbind option_bind]. apply drop_prefix_spec in E4 as ->.
    destruct (state_name r3) as [[t r4]|] eqn:E5; [|done]. cbn [mbind option_bind]. apply state_name_spec in E5 as (-> & Ht & _).
    destruct (String.eqb_spec r4 ""), (String.eqb_spec r4 (String (ascii_of_nat 10) "")); cbn [orb]; intros [= <- <- <-]; split_and!; try done; eauto.
  - intros ([Hne Hw] & Hs & Ht & e & -> & He).
    rewrite (proj2 (span_spec rule_char _ rule (":" +:+ src +:+ "->" +:+ tgt +:+ e))) by (split_and!; done).
    destruct (String.eqb_spec rule ""); [done|]. cbn [negb].
    rewrite (proj2 (drop_prefix_spec ":" _ (src +:+ "->" +:+ tgt +:+ e))) by done. cbn [mbind option_bind].
    rewrite (proj2 (state_name_spec _ src ("->" +:+ tgt +:+ e))) by (split_and!; done). cbn [mbind option_bind].
    rewrite (proj2 (drop_prefix_spec "->" _ (tgt +:+ e))) by done. cbn [mbind option_bind].
    rewrite (proj2 (state_name_spec _ tgt e)) by (split_and!; [done..|]; by destruct He as [-> | ->]). cbn [mbind option_bind].
    by destruct He as [-> | ->].
Qed.

(** ** Topology *)

Lemma check_Ok b e : check b e = Ok () <-> b = true.
Proof. by destruct b. Qed.
Lemma check_bind {A} b e (m : result exn A) a : (check b e ;; m) = Ok a <-> b = true /\ m = Ok a.
Proof. destruct b; simpl; naive_solver. Qed.
Lemma negb_nonempty s : negb (nonempty s) = true <-> s = "".
Proof. unfold nonempty. rewrite negb_involutive. apply String.eqb_eq. Qed.
Lemma nonempty_spec s : nonempty s = true <-> s <> "".
Proof. unfold nonempty. destruct (String.eqb_spec s ""); naive_solver. Qed.

Section Topology.
Context (sts : list LegalState) (ss : list Sanction) (ps : list RestorativePath).
Abbreviation state_ids := (state_id <$> sts).
Abbreviation sanction_ids := (sanction_id <$> ss).
Abbreviation path_ids := (path_id <$> ps).
(** What dispatches to a transition. *)
Definition label (t : LegalTransition) : string * string := (from_state t, triggered_by t).

(** An edge whose key spells its ends and its rule, between declared states, with a
    trigger and with a declared sanction and path. *)
Record edge_ok (t : LegalTransition) : Prop := {
  eo_key : exists rule, match_edge_key (edge_key t) = Some (rule, from_state t, to_state t) /\ (rule_id t = "" \/ rule_id t = rule);
  eo_from : from_state t ∈ state_ids;
  eo_to : to_state t ∈ state_ids;
  eo_trigger : triggered_by t <> "";
  eo_sanction : exists eff, effective_sanction_id t = Ok eff /\ (forall s, eff = Some s -> s ∈ sanction_ids);
  eo_path : forall p, restorative_path_id t = Some p -> p ∈ path_ids
}.
(** A deterministic labelled transition system over declared states. *)
Record well_formed (ts : list LegalTransition) : Prop := {
  wf_inhabited : sts <> [];
  wf_states : NoDup state_ids;
  wf_keys : NoDup (edge_key <$> ts);
  wf_labels : NoDup (label <$> ts);
  wf_edges : Forall edge_ok ts;
  wf_paths : Forall (fun p => target_legal_state_id p ∈ state_ids) ps
}.

Lemma validate_transition_spec t seen r :
  validate_transition state_ids sanction_ids path_ids t seen = Ok r <->
  edge_ok t /\ edge_key t ∉ seen.1 /\ label t ∉ seen.2 /\ r = (edge_key t :: seen.1, label t :: seen.2).
Proof.
  unfold validate_transition. rewrite check_bind, nonempty_spec. split.
  - intros [Hk H]. destruct (match_edge_key (edge_key t)) as [[[rule src] tgt]|] eqn:Em; [|done]. cbn [mbind result_bind] in H.
    rewrite !check_bind, andb_true_iff, orb_true_iff, !String.eqb_eq, !bool_decide_eq_true, negb_nonempty, nonempty_spec in H.
    destruct H as ([-> ->] & Hr & Hs & Hf & Ht & Htr & H).
    destruct (effective_sanction_id t) as [eff|x] eqn:Ee; [|by destruct x]. cbn [as_invalid mbind result_bind] in H.
    rewrite !check_bind, bool_decide_eq_true in H. destruct H as (Hsan & Hp & Hl & [= <-]). split_and!; try done.
    split; try done; [exists rule; naive_solver| |].
    + exists eff. split; [done|]. intros s ->. by apply bool_decide_eq_true in Hsan.
    + intros p E. rewrite E in Hp. by apply bool_decide_eq_true in Hp.
  - intros ([(rule & Em & Hr) Hf Ht Htr (eff & Ee & Hs) Hp] & Hk & Hl & ->).
    split; [intros E; rewrite E in Em; by vm_compute in Em|]. rewrite Em. cbn [mbind result_bind].
    rewrite !check_bind, andb_true_iff, orb_true_iff, !String.eqb_eq, !bool_decide_eq_true, negb_nonempty, nonempty_spec.
    split_and!; try done; [naive_solver|]. rewrite Ee. cbn [as_invalid mbind result_bind].
    rewrite !check_bind, bool_decide_eq_true. split_and!; try done.
    + destruct eff; [|done]. by apply bool_decide_eq_true, Hs.
    + destruct (restorative_path_id t); [|done]. by apply bool_decide_eq_true, Hp.
Qed.
Lemma validate_transitions_spec ts seen :
  validate_transitions state_ids sanction_ids path_ids ts seen = Ok () <->
  Forall edge_ok ts /\ NoDup (edge_key <$> ts) /\ NoDup (label <$> ts)
  /\ (forall t, t ∈ ts -> edge_key t ∉ seen.1 /\ label t ∉ seen.2).
Proof.
  revert seen. induction ts as [|t ts IH]; intros seen; simpl.
  { split; [|done]. intros _. split_and!; try constructor; by apply not_elem_of_nil in H. }
  rewrite list.Forall_cons, !list.NoDup_cons. split.
  - destruct (validate_transition _ _ _ t seen) as [r|] eqn:E; [|done]. simpl. rewrite IH.
    apply validate_transition_spec in E as (He & Hk & Hl & ->). intros (Hf & Hn & Hm & Hd). simpl in Hd. split_and!; try done.
    + intros (t' & E & Ht')%list_elem_of_fmap. destruct (Hd t' Ht') as [Hd' _]. apply Hd'. rewrite E. left.
    + intros (t' & E & Ht')%list_elem_of_fmap. destruct (Hd t' Ht') as [_ Hd']. apply Hd'. rewrite E. left.
    + intros t' [->|Ht']%elem_of_cons; [done|]. destruct (Hd t' Ht') as [H1 H2]. split; intros ?; [apply H1|apply H2]; by right.
  - intros ((He & Hf) & (Hk & Hn) & (Hl & Hm) & Hd).
    rewrite (proj2 (validate_transition_spec t seen (edge_key t :: seen.1, label t :: seen.2))); [|split_and!; [done|apply Hd; left..|done]].
    simpl. apply IH. split_and!; [done..|]. intros t' Ht'. simpl. destruct (Hd t' (list_elem_of_further _ _ _ Ht')) as [H1 H2].
    split; [|].
    + intros [E|?]%elem_of_cons; [|done]. apply Hk, list_elem_of_fmap. eauto.
    + intros [E|?]%elem_of_cons; [|done]. apply Hl, list_elem_of_fmap. eauto.
Qed.
Lemma distinct_spec (l : list string) : length (remove_dups l) = length l <-> NoDup l.
Proof using.
  split.
  - intros H. induction l as [|x l IH]; [constructor|]. simpl in H.
    assert (Hle : forall k : list string, length (remove_dups k) <= length k).
    { clear. induction k as [|y k IH]; simpl; [lia|]. destruct (decide_rel _ _ _); simpl; lia. }
    specialize (Hle l). destruct (decide_rel elem_of x l); simpl in *; [lia|]. constructor; [done|]. apply IH. lia.
  - induction 1 as [|x l Hx Hl IH]; [done|]. simpl. destruct (decide_rel elem_of x l); [done|]. simpl. lia.
Qed.
Lemma validate_topology_spec ts : validate_topology sts ts ss ps = Ok () <-> well_formed ts.
Proof.
  unfold validate_topology. rewrite !check_bind, negb_true_iff, bool_decide_eq_false, Nat.eqb_eq.
  rewrite <- (length_fmap state_id sts) at 1. rewrite distinct_spec.
  assert (Hp : forallb (fun p => bool_decide (target_legal_state_id p ∈ state_ids)) ps = true <->
               Forall (fun p => target_legal_state_id p ∈ state_ids) ps).
  { rewrite forallb_Forall_true, !list.Forall_forall. by setoid_rewrite bool_decide_eq_true. }
  split.
  - intros (H1 & H2 & H3). destruct (validate_transitions _ _ _ ts _) as [[]|] eqn:E; [|done]. simpl in H3.
    apply validate_transitions_spec in E as (? & ? & ? & _). rewrite check_Ok, Hp in H3. by split.
  - intros [H1 H2 H3 H4 H5 H6]. split_and!; try done.
    rewrite (proj2 (validate_transitions_spec ts ([], []))); [cbn [mbind result_bind]; by rewrite check_Ok, Hp|]. split_and!; try done.
    intros t _. split; apply not_elem_of_nil.
Qed.
End Topology.

(** ** Dispatch *)

Section Dispatch.
Context (g : GovernanceGraph).
Definition valid : Prop := well_formed (states g) (sanctions g) (restorative_paths g) (transitions g).

Lemma filter_unique {A B} `{EqDecision B} (f : A -> B) (P : A -> bool) b l :
  NoDup (f <$> l) -> (forall x, P x = true <-> f x = b) ->
  List.filter P l = match List.find P l with Some x => [x] | None => [] end.
Proof using.
  intros Hn HP. induction l as [|x l IH]; [done|]. rewrite fmap_cons, list.NoDup_cons in Hn. destruct Hn as [Hx Hn]. simpl.
  destruct (P x) eqn:E; [|by apply IH]. f_equal. rewrite (IH Hn). destruct (List.find P l) as [y|] eqn:Ef; [|done].
  apply List.find_some in Ef as [Hy HPy]. exfalso. apply Hx. apply HP in E, HPy. rewrite E, <- HPy.
  apply list_elem_of_fmap. exists y. split; [done|]. by apply list_elem_of_In.
Qed.
(** A validated manifest is deterministic: dispatch is never ambiguous. *)
Lemma find_transition_deterministic src ev :
  valid -> find_transition g src ev = Ok (List.find (matches src ev) (transitions g)).
Proof.
  intros [_ _ _ Hl _ _]. unfold find_transition. rewrite (filter_unique label (matches src ev) (src, ev) _ Hl).
  - by destruct (List.find _ _).
  - intros t. unfold matches, label. rewrite andb_true_iff, !String.eqb_eq. naive_solver.
Qed.
Lemma find_transition_Some src ev t :
  find_transition g src ev = Ok (Some t) -> t ∈ transitions g /\ from_state t = src /\ triggered_by t = ev.
Proof.
  unfold find_transition. destruct (List.filter (matches src ev) (transitions g)) as [|x [|y l]] eqn:E; [done| |done].
  intros [= ->]. assert (Hin : In t (List.filter (matches src ev) (transitions g))) by (rewrite E; by left).
  apply filter_In in Hin as [Hin Hm]. unfold matches in Hm. rewrite andb_true_iff, !String.eqb_eq in Hm.
  split; [by apply list_elem_of_In|naive_solver].
Qed.
End Dispatch.

(** ** The digest identifies the regime *)

(** What [from_dict] guarantees of a graph. *)
Record loaded (sha256_hex : string -> string) (g : GovernanceGraph) : Prop := {
  ld_valid : valid g;
  ld_sanctions : Forall (fun s => sanction_id s <> "") (sanctions g);
  ld_paths : Forall (fun p => path_id p <> "") (restorative_paths g);
  ld_digest : semantic_digest sha256_hex g = Ok (manifest_semantic_sha256 g)
}.
Lemma validated_ids {A} (f : pyval -> result exn A) (P : A -> Prop) vs xs :
  (forall v x, f v = Ok x -> P x) -> map_result f vs = Ok xs -> Forall P xs.
Proof. intros Hf H. apply map_result_Ok in H. induction H; constructor; eauto. Qed.
Lemma parse_sanction_id so v s : parse_sanction so v = Ok s -> sanction_id s <> "".
Proof.
  unfold parse_sanction. destruct v; try done. intros H.
  do 6 (apply result_bind_Ok in H as (? & _ & H)). apply result_bind_Ok in H as ([] & Hv & [= <-]).
  unfold as_invalid, validate_sanction in Hv. apply nonempty_spec. destruct (nonempty _); [done|]. done.
Qed.
Lemma parse_path_id so v p : parse_restorative_path so v = Ok p -> path_id p <> "".
Proof.
  unfold parse_restorative_path. destruct v; try done. intros H. apply result_bind_Ok in H as (kinds & _ & H).
  apply result_bind_Ok in H as ([] & Hv & [= <-]).
  unfold as_invalid, validate_restorative_path in Hv. apply nonempty_spec. destruct (nonempty _); [done|]. done.
Qed.
Lemma from_dict_loaded so sha256_hex data file g : from_dict so sha256_hex data file = Ok g -> loaded sha256_hex g.
Proof.
  unfold from_dict. intros H. do 3 (apply result_bind_Ok in H as (? & _ & H)).
  apply result_bind_Ok in H as (sts & _ & H). apply result_bind_Ok in H as (ss & Hss & H).
  apply result_bind_Ok in H as (ps & Hps & H). apply result_bind_Ok in H as (ts & _ & H).
  apply result_bind_Ok in H as ([] & Hv & H). apply result_bind_Ok in H as (h & Hh & [= <-]).
  apply result_bind_Ok in Hss as (vs & _ & Hss), Hps as (vp & _ & Hps). split; simpl; [|by eapply validated_ids; [apply parse_sanction_id|]
    |by eapply validated_ids; [apply parse_path_id|]|done].
  by apply validate_topology_spec.
Qed.

Definition same_edge (t t' : LegalTransition) : Prop :=
  edge_key t = edge_key t' /\ rule_id t = rule_id t' /\ from_state t = from_state t' /\ to_state t = to_state t'
  /\ triggered_by t = triggered_by t' /\ effective_sanction_id t = effective_sanction_id t'
  /\ restorative_path_id t = restorative_path_id t'
  /\ forall k, dict_get k ((fun kv => (kv.1, PInt kv.2)) <$> default [] (timing t))
             = dict_get k ((fun kv => (kv.1, PInt kv.2)) <$> default [] (timing t')).
Record same_regime (g g' : GovernanceGraph) : Prop := {
  sr_edges : Forall2 same_edge (transitions g) (transitions g');
  sr_sanctions : Forall2 (fun s s' => sanction_id s = sanction_id s' /\ enforcement_action s = enforcement_action s')
                   (sanctions g) (sanctions g');
  sr_paths : Forall2 (fun p p' => path_id p = path_id p' /\ restoration_kind p = restoration_kind p')
               (restorative_paths g) (restorative_paths g');
  sr_states : (state_id <$> states g) = (state_id <$> states g')
}.
Lemma canon_ints d d' :
  canon (PDict ((fun kv : string * Z => (kv.1, PInt kv.2)) <$> d)) = canon (PDict ((fun kv => (kv.1, PInt kv.2)) <$> d')) ->
  forall k, dict_get k ((fun kv => (kv.1, PInt kv.2)) <$> d) = dict_get k ((fun kv => (kv.1, PInt kv.2)) <$> d').
Proof.
  rewrite canon_dict. intros H k. specialize (H k).
  assert (Hi : forall d : list (string * Z), canon <$> dict_get k ((fun kv => (kv.1, PInt kv.2)) <$> d) = dict_get k ((fun kv => (kv.1, PInt kv.2)) <$> d)).
  { clear. induction d as [|[k' z] d IH]; [done|]. simpl. by destruct (String.eqb k k'). }
  by rewrite !Hi in H.
Qed.
Lemma default_text (a b : option string) :
  (forall s, a = Some s -> s <> "") -> (forall s, b = Some s -> s <> "") -> default "" a = default "" b -> a = b.
Proof. destruct a as [a|], b as [b|]; simpl; intros Ha Hb E; [congruence|by destruct (Ha a)|by destruct (Hb b)|done]. Qed.
Lemma edge_texts sts ss ps t :
  edge_ok sts ss ps t -> Forall (fun s => sanction_id s <> "") ss -> Forall (fun p => path_id p <> "") ps ->
  (forall eff s, effective_sanction_id t = Ok eff -> eff = Some s -> s <> "") /\ (forall p, restorative_path_id t = Some p -> p <> "").
Proof.
  intros [_ _ _ _ (eff & He & Hs) Hp] Hss Hps. rewrite list.Forall_forall in Hss. rewrite list.Forall_forall in Hps. split.
  - intros eff' s He' ->. rewrite He in He'. injection He' as ->. specialize (Hs s eq_refl).
    apply list_elem_of_fmap in Hs as (x & -> & Hx). by apply Hss.
  - intros p E. specialize (Hp p E). apply list_elem_of_fmap in Hp as (x & -> & Hx). by apply Hps.
Qed.
Lemma transition_json_same t t' y y' :
  (forall eff s, effective_sanction_id t = Ok eff -> eff = Some s -> s <> "") -> (forall p, restorative_path_id t = Some p -> p <> "") ->
  (forall eff s, effective_sanction_id t' = Ok eff -> eff = Some s -> s <> "") -> (forall p, restorative_path_id t' = Some p -> p <> "") ->
  transition_json t = Ok y -> transition_json t' = Ok y' -> canon y = canon y' -> same_edge t t'.
Proof.
  intros Hs Hp Hs' Hp' H H' Hc. unfold transition_json in H, H'.
  apply result_bind_Ok in H as (eff & He & H), H' as (eff' & He' & H').
  apply result_bind_Ok in H as (md & _ & [= <-]), H' as (md' & _ & [= <-]). rewrite canon_dict in Hc.
  pose proof (Hc "edge_key"). pose proof (Hc "rule_id"). pose proof (Hc "from_state"). pose proof (Hc "to_state").
  pose proof (Hc "triggered_by"). pose proof (Hc "sanction_id") as H6. pose proof (Hc "restorative_path_id") as H7.
  pose proof (Hc "timing") as H8. clear Hc. cbn -[canon] in H6, H7, H8. injection H6 as H6. injection H7 as H7. injection H8 as H8.
  simplify_eq/=. unfold same_edge. rewrite He, He'. split_and!; try done.
  - f_equal. apply default_text; eauto.
  - apply default_text; eauto.
  - apply canon_ints. simpl. by f_equal.
Qed.
Lemma canon_list_Forall2 {A} (f : A -> result exn pyval) (R : A -> A -> Prop) l l' ys ys' :
  map_result f l = Ok ys -> map_result f l' = Ok ys' -> canon (PList ys) = canon (PList ys') ->
  (forall x x' y y', x ∈ l -> x' ∈ l' -> f x = Ok y -> f x' = Ok y' -> canon y = canon y' -> R x x') -> Forall2 R l l'.
Proof.
  rewrite !map_result_Ok. simpl. intros H H' [= Hc] HR. revert l' ys' H' Hc HR.
  induction H as [|x y l ys Hx Hl IH]; intros l' ys' H' Hc HR; destruct H' as [|x' y' l' ys' Hx' Hl']; [constructor|done|done|].
  simpl in Hc. injection Hc as Hy Hc. constructor; [eapply HR; [left|left|done..]|].
  apply (IH l' ys' Hl' Hc). intros ???? Hi Hi'. by apply HR; right.
Qed.
Lemma sanction_json_same s s' y y' :
  sanction_json s = Ok y -> sanction_json s' = Ok y' -> canon y = canon y' ->
  sanction_id s = sanction_id s' /\ enforcement_action s = enforcement_action s'.
Proof.
  intros H H' Hc. unfold sanction_json in H, H'.
  do 4 apply result_bind_Ok in H as (? & _ & H). do 4 apply result_bind_Ok in H' as (? & _ & H').
  injection H as <-. injection H' as <-. rewrite canon_dict in Hc.
  pose proof (Hc "sanction_id"). pose proof (Hc "enforcement_action"). by simplify_eq/=.
Qed.
Lemma path_json_same p p' y y' :
  path_json p = Ok y -> path_json p' = Ok y' -> canon y = canon y' ->
  path_id p = path_id p' /\ restoration_kind p = restoration_kind p'.
Proof.
  intros H H' Hc. unfold path_json in H, H'.
  apply result_bind_Ok in H as (? & _ & [= <-]), H' as (? & _ & [= <-]). rewrite canon_dict in Hc.
  pose proof (Hc "path_id"). pose proof (Hc "restoration_kind"). by simplify_eq/=.
Qed.
Lemma canon_states l l' :
  canon (PList (state_json <$> l)) = canon (PList (state_json <$> l')) -> (state_id <$> l) = (state_id <$> l').
Proof.
  simpl. rewrite <- !list_fmap_compose. intros [= H]. revert l' H. induction l as [|s l IH]; intros [|s' l'] H; try done.
  rewrite !fmap_cons in H. pose proof (f_equal tail H) as Hl. apply (f_equal head), (inj Some) in H.
  rewrite !fmap_cons. f_equal; [|by apply IH]. assert (Hd : canon (state_json s) = canon (state_json s')) by exact H.
  unfold state_json in Hd. rewrite canon_dict in Hd. pose proof (Hd "state_id"). by simplify_eq/=.
Qed.

Section Regime.
Context (sha256_hex : string -> string) (g g' : GovernanceGraph).
Lemma digest_input_same x x' :
  loaded sha256_hex g -> loaded sha256_hex g' -> semantic_digest_input g = Ok x -> semantic_digest_input g' = Ok x' ->
  canon x = canon x' -> same_regime g g'.
Proof.
  intros [Hv Hs Hp _] [Hv' Hs' Hp' _] H H' Hc. unfold semantic_digest_input in H, H'.
  apply result_bind_Ok in H as (ts & Hts & H), H' as (ts' & Hts' & H').
  apply result_bind_Ok in H as (ss & Hss & H), H' as (ss' & Hss' & H').
  apply result_bind_Ok in H as (ps & Hps & H), H' as (ps' & Hps' & H').
  do 3 apply result_bind_Ok in H as (? & _ & H). do 3 apply result_bind_Ok in H' as (? & _ & H').
  injection H as <-. injection H' as <-. rewrite canon_dict in Hc.
  pose proof (Hc "states") as H1. pose proof (Hc "transitions") as H2. pose proof (Hc "sanctions") as H3.
  pose proof (Hc "restorative_paths") as H4. clear Hc. cbn -[canon] in H1, H2, H3, H4.
  injection H1 as H1. injection H2 as H2. injection H3 as H3. injection H4 as H4. split.
  - eapply (canon_list_Forall2 transition_json); [exact Hts|exact Hts'|simpl; by f_equal|].
    intros t t' y y' Ht Ht' Hy Hy' E. destruct Hv as [_ _ _ _ He _], Hv' as [_ _ _ _ He' _].
    rewrite list.Forall_forall in He. rewrite list.Forall_forall in He'.
    destruct (edge_texts _ _ _ t (He t Ht) Hs Hp), (edge_texts _ _ _ t' (He' t' Ht') Hs' Hp'). by eapply transition_json_same.
  - eapply (canon_list_Forall2 sanction_json); [exact Hss|exact Hss'|simpl; by f_equal|]. intros. by eapply sanction_json_same.
  - eapply (canon_list_Forall2 path_json); [exact Hps|exact Hps'|simpl; by f_equal|]. intros. by eapply path_json_same.
  - apply canon_states. simpl. by f_equal.
Qed.
(** The text a graph's digest is taken over. *)
Definition regime_text (h : GovernanceGraph) : option string :=
  match semantic_digest_input h with Ok x => canonical_json x | Err _ => None end.
Lemma same_digest_same_regime :
  loaded sha256_hex g -> loaded sha256_hex g' ->
  (forall s s', regime_text g = Some s -> regime_text g' = Some s' -> sha256_hex s = sha256_hex s' -> s = s') ->
  manifest_semantic_sha256 g = manifest_semantic_sha256 g' -> same_regime g g'.
Proof.
  intros Hl Hl' Hinj E. pose proof (ld_digest _ _ Hl) as H. pose proof (ld_digest _ _ Hl') as H'. unfold semantic_digest in H, H'.
  apply result_bind_Ok in H as (x & Hx & H), H' as (x' & Hx' & H'). unfold regime_text in Hinj. rewrite Hx, Hx' in Hinj.
  unfold canonical_sha256 in H, H'. destruct (canonical_json x) as [s|] eqn:Es; [|done]. destruct (canonical_json x') as [s'|] eqn:Es'; [|done].
  simpl in H, H'. injection H as H. injection H' as H'. assert (s = s') as <- by (apply Hinj; congruence).
  eapply digest_input_same; [done..|]. by apply (canonical_json_spec x x' s Es).
Qed.
End Regime.
End InstitutionSpec.
