(* ===== verification/Governance.v ===== *)
(** * Institutional governance: oracle, controller, log and inheritance

    [tex/institutional/oracle.py], [controller.py], [governance_log.py] and
    [subagent_inheritance.py].  Ids and times drawn during a call are its arguments
    ([stamps]); telemetry is left out.  An observation, a decision and an event carry
    times as their JSON text. *)
From stdpp Require Import gmap.
From S2P Require Import Prelude StateExn PyStr PyFloat PyVal RouterDomain PdpDomain PyFormat Canonical Ledger Institution.
Import RouterDomain PdpDomain Canonical Institution.
Open Scope string_scope.
Open Scope list_scope.
Open Scope nat_scope.

(** ** The log *)
Module GovernanceLog.
Import EventLedger.

Definition KIND_OBSERVATION : string := "policy_decision".
Definition KIND_DECISION : string := "governance_graph_transition".
Definition KIND_SANCTION : string := "sanction_applied".
Definition KIND_RESTORATION : string := "restorative_path_triggered".

(** What a call of the log raises: the payload's number that has no integer, a target
    that is no text, or what the ledger raises. *)
Inductive log_exn := PayloadError (e : Institution.exn) | ValidationError | LedgerError (e : EventLedger.exn).
Record GovernanceLog := { log_key_id : string; log_signer : signer; log_ledger : InMemoryLedger; log_manifest : option string }.
(** A key pair with another id than the one announced is a [ValueError]. *)
Definition new_log (signing_key_id : string) (sg : signer) (public : verifier) (manifest : option string) : option GovernanceLog :=
  if nonempty signing_key_id && String.eqb (key_id sg) signing_key_id
  then Some {| log_key_id := signing_key_id; log_signer := sg; log_ledger := new_ledger (Some public); log_manifest := manifest |}
  else None.
Definition set_ledger (l : InMemoryLedger) (g : GovernanceLog) : GovernanceLog :=
  {| log_key_id := log_key_id g; log_signer := log_signer g; log_ledger := l; log_manifest := log_manifest g |}.

(** Floats become milli-units; an object is its text. *)
Fixpoint canonicalise_payload (v : pyval) : result log_exn pyval :=
  match v with
  | PFloat f => match milli f with Ok z => Ok (PInt z) | Err e => Err (PayloadError e) end
  | PObj s => Ok (PStr s)
  | PDict d =>
      d ← (fix go (d : pydict) := match d with
             | [] => Ok [] | kv :: d => x ← canonicalise_payload kv.2; r ← go d; Ok ((kv.1, x) :: r) end) d;
      Ok (PDict d)
  | PList l =>
      l ← (fix go (l : list pyval) := match l with
             | [] => Ok [] | x :: l => y ← canonicalise_payload x; r ← go l; Ok (y :: r) end) l;
      Ok (PList l)
  | v => Ok v
  end.
Definition coerce_to_payload (d : pydict) : result log_exn pydict :=
  x ← canonicalise_payload (PDict d); Ok (match x with PDict d => d | _ => [] end).
Definition field (d : pydict) (k : string) : pyval := default PNone (dict_get k d).
Definition opt_str_field (v : pyval) : result log_exn (option string) :=
  match v with PStr s => Ok (Some s) | PNone => Ok None | _ => Err ValidationError end.

Section Log.
Context (str_other : pyval -> string).
Context (sha256_hex : string -> string) (b64encode : string -> string) (b64decode : string -> option string).

(** The id drawn for an event and the time it is proposed at. *)
Record stamp := { fresh_id : string; now : string }.
Definition log_append (st : stamp) (kind actor : string) (target : option string) (payload : pydict) : stM GovernanceLog log_exn string :=
  fun g =>
    let p := {| event_kind := kind; pe_actor_entity_id := actor; pe_target_entity_id := target; pe_payload := payload;
                proposed_at := now st; session_id := None; pe_upstream_event_ids := [] |} in
    match append_proposed sha256_hex b64encode b64decode (log_signer g) p None (fresh_id st) None (log_ledger g) with
    | (Ok e, l) => (Ok (event_id e), set_ledger l g)
    | (Err x, l) => (Err (LedgerError x), set_ledger l g)
    end.
(** [str(payload.get(k, default))]. *)
Definition text_or (d : pydict) (k dflt : string) : string :=
  match dict_get k d with Some v => py_str_of str_other v | None => dflt end.

Definition record_observation (st : stamp) (obs : pydict) : stM GovernanceLog log_exn string :=
  payload ← lift (coerce_to_payload obs);
  log_append st KIND_OBSERVATION (text_or payload "actor_entity_id" "_oracle") None payload.
Definition paired_payload (id_field : string) (p : pydict) : pydict :=
  [("decision_id", field p "decision_id"); (id_field, field p id_field); ("edge_key", field p "edge_key");
   ("rule_id", field p "rule_id"); ("manifest_semantic_sha256", field p "manifest_semantic_sha256")].
Definition append_paired (st : stamp) (kind id_field actor : string) (p : pydict) : stM GovernanceLog log_exn unit :=
  target ← lift (opt_str_field (field p id_field));
  log_append st kind actor target (paired_payload id_field p) ;;
  mret ().
Definition record_decision (st st' : stamp) (dec : pydict) : stM GovernanceLog log_exn string :=
  payload ← lift (coerce_to_payload dec);
  let actor := text_or payload "actor_entity_id" "_controller" in
  let target := field payload "to_state" in
  primary ← log_append st KIND_DECISION actor (if py_bool target then Some (py_str_of str_other target) else None) payload;
  match field payload "decision" with
  | PStr "SANCTION" => append_paired st' KIND_SANCTION "sanction_id" actor payload
  | PStr "REMEDIATE" => append_paired st' KIND_RESTORATION "restorative_path_id" actor payload
  | _ => mret ()
  end ;;
  mret primary.
(** [to = -1] stands for the end of the log. *)
Definition log_verify_chain (from to : Z) : stM GovernanceLog log_exn bool := fun g =>
  let last := Z.of_nat (length (events (log_ledger g))) in
  if (last =? 0)%Z then (Ok true, g)
  else match verify_chain sha256_hex b64decode from (if (to =? -1)%Z then last else to) (log_ledger g) with
       | (Ok b, l) => (Ok b, set_ledger l g)
       | (Err x, l) => (Err (LedgerError x), set_ledger l g)
       end.
Definition all_records (g : GovernanceLog) : list Event := stream_after (log_ledger g) (-1).
End Log.
End GovernanceLog.

(** ** The controller *)
Module Controller.
Import GovernanceLog.

Inductive ControllerOutcome := ALLOW | SANCTION | REMEDIATE | BLOCKED.
#[export] Instance outcome_eq_dec : EqDecision ControllerOutcome.
Proof. solve_decision. Defined.
Definition outcome_value (o : ControllerOutcome) : string :=
  match o with ALLOW => "ALLOW" | SANCTION => "SANCTION" | REMEDIATE => "REMEDIATE" | BLOCKED => "BLOCKED" end.

Record ControllerDecision := {
  decision_id : string;
  decision : ControllerOutcome;
  d_edge_key : string;
  d_rule_id : string;
  d_from_state : string;
  d_to_state : string;
  d_triggered_by : string;
  d_sanction_id : option string;
  d_restorative_path_id : option string;
  case_id : option string;
  actor_entity_id : string;
  effective_round : Z;
  cooldown_until_round : option Z;
  rationale : string;
  d_manifest_semantic_sha256 : string;
  decided_at : string
}.
(** [decision.model_dump(mode="json")]. *)
Definition model_dump (d : ControllerDecision) : pydict :=
  let opt := EventLedger.opt_json in
  [("decision_id", PStr (decision_id d)); ("decision", PStr (outcome_value (decision d))); ("edge_key", PStr (d_edge_key d));
   ("rule_id", PStr (d_rule_id d)); ("from_state", PStr (d_from_state d)); ("to_state", PStr (d_to_state d));
   ("triggered_by", PStr (d_triggered_by d)); ("sanction_id", opt (d_sanction_id d));
   ("restorative_path_id", opt (d_restorative_path_id d)); ("case_id", opt (case_id d));
   ("actor_entity_id", PStr (actor_entity_id d)); ("effective_round", PInt (effective_round d));
   ("cooldown_until_round", match cooldown_until_round d with Some z => PInt z | None => PNone end);
   ("rationale", PStr (rationale d)); ("manifest_semantic_sha256", PStr (d_manifest_semantic_sha256 d));
   ("decided_at", PStr (decided_at d))].

(** What a call draws: the decision's id and time, and those of the log's records. *)
Record stamps := { st_decision : string; st_decided_at : string; st_primary : stamp; st_paired : stamp }.
Record controller := {
  cooldowns : gmap (string * string) Z;
  actor_states : gmap string string;
  c_log : option GovernanceLog
}.
Definition new_controller (log : option GovernanceLog) : controller := {| cooldowns := ∅; actor_states := ∅; c_log := log |}.

Definition actor_state (c : controller) (actor : string) : string := default "active" (actor_states c !! actor).
Definition set_actor_state (actor q : string) (c : controller) : controller :=
  {| cooldowns := cooldowns c; actor_states := <[actor := q]> (actor_states c); c_log := c_log c |}.
Definition set_cooldown (actor key : string) (until : option Z) (c : controller) : controller :=
  match until with
  | Some u => {| cooldowns := <[(actor, key) := u]> (cooldowns c); actor_states := actor_states c; c_log := c_log c |}
  | None => c
  end.
Definition in_cooldown (c : controller) (actor key : string) (round : Z) : bool :=
  match cooldowns c !! (actor, key) with Some until => (round <? until)%Z | None => false end.

Fixpoint timing_get (k : string) (l : list (string * Z)) : option Z :=
  match l with [] => None | (k', z) :: l => if String.eqb k k' then Some z else timing_get k l end.
Definition cooldown_for (t : LegalTransition) : Z :=
  match timing t with Some l => Z.max 0 (default 0%Z (timing_get "cooldown_rounds" l)) | None => 0%Z end.

Section Enforce.
Context (str_other : pyval -> string).
Context (sha256_hex : string -> string) (b64encode : string -> string) (b64decode : string -> option string).
Context (g : GovernanceGraph).

(** A failure to record is only reported. *)
Definition record_and_return (st : stamps) (d : ControllerDecision) : stM controller Institution.exn ControllerDecision := fun c =>
  match c_log c with
  | None => (Ok d, c)
  | Some log =>
      let log' := (record_decision str_other sha256_hex b64encode b64decode (st_primary st) (st_paired st) (model_dump d) log).2 in
      (Ok d, {| cooldowns := cooldowns c; actor_states := actor_states c; c_log := Some log' |})
  end.
Definition make_decision (st : stamps) (o : ControllerOutcome) (key rule src tgt ev : string) (sanction path : option string)
    (case : option string) (actor : string) (round : Z) (until : option Z) (why : string) : ControllerDecision := {|
  decision_id := "dec_" +:+ st_decision st; decision := o; d_edge_key := key; d_rule_id := rule; d_from_state := src;
  d_to_state := tgt; d_triggered_by := ev; d_sanction_id := sanction; d_restorative_path_id := path; case_id := case;
  actor_entity_id := actor; effective_round := round; cooldown_until_round := until; rationale := why;
  d_manifest_semantic_sha256 := manifest_semantic_sha256 g; decided_at := st_decided_at st |}.

Definition select_outcome (t : LegalTransition) (sanction : option string) : ControllerOutcome * string :=
  let traversed := "traversed " +:+ repr_str (edge_key t) in
  match restorative_path_id t, sanction with
  | Some p, _ =>
      (REMEDIATE, traversed +:+ ": restorative_path=" +:+ repr_str p +:+ " ("
         +:+ match lookup_restorative_path g p with Ok path => "kind=" +:+ restoration_kind path | Err _ => "lookup failed" end +:+ ")")
  | None, Some s =>
      (SANCTION, traversed +:+ ": sanction=" +:+ repr_str s +:+ " ("
         +:+ match lookup_sanction g s with Ok x => "action=" +:+ enforcement_action x | Err _ => "lookup failed" end +:+ ")")
  | None, None => (ALLOW, traversed +:+ ": legal restorative/expiry")
  end.

Definition enforce (st : stamps) (ev actor : string) (round : Z) (case : option string) : stM controller Institution.exn ControllerDecision :=
  lift (check (nonempty actor) ValueError) ;;
  lift (check (nonempty ev) ValueError) ;;
  c ← get;
  let src := actor_state c actor in
  match find_transition g src ev with
  | Err keys =>
      record_and_return st (make_decision st BLOCKED "" "" src "" ev None None case actor round None
        ("manifest topology ambiguous: ambiguous transitions for from_state=" +:+ repr_str src
         +:+ " triggered_by=" +:+ repr_str ev +:+ ": " +:+ list_repr keys))
  | Ok None =>
      record_and_return st (make_decision st BLOCKED "" "" src "" ev None None case actor round None
        ("no manifest-declared edge from state=" +:+ repr_str src +:+ " for triggered_by=" +:+ repr_str ev))
  | Ok (Some t) =>
      if in_cooldown c actor (edge_key t) round then
        let until := default 0%Z (cooldowns c !! (actor, edge_key t)) in
        sanction ← lift (effective_sanction_id t);
        record_and_return st (make_decision st BLOCKED (edge_key t) (rule_id t) src (to_state t) ev sanction
          (restorative_path_id t) case actor round (Some until)
          ("edge " +:+ repr_str (edge_key t) +:+ " on cooldown until round " +:+ z_str until +:+ " for actor " +:+ repr_str actor))
      else
        sanction ← lift (effective_sanction_id t);
        let '(o, why) := select_outcome t sanction in
        let until := if (0 <? cooldown_for t)%Z then Some (round + cooldown_for t)%Z else None in
        modify (set_actor_state actor (to_state t)) ;;
        modify (set_cooldown actor (edge_key t) until) ;;
        record_and_return st (make_decision st o (edge_key t) (rule_id t) src (to_state t) ev sanction
          (restorative_path_id t) case actor round until why)
  end.
End Enforce.
End Controller.

(** ** The oracle *)
Module Oracle.

Definition SIGNAL_SYNCHRONOUS_MOVE : string := "S1_synchronous_move".
Definition SIGNAL_VARIANCE_COLLAPSE : string := "S2_variance_collapse".
Definition SIGNAL_HIGH_HHI : string := "S3_high_hhi".
Definition SIGNAL_SPECIALISATION : string := "S4_specialisation".
Definition VALID_SIGNAL_IDS : list string :=
  [SIGNAL_SYNCHRONOUS_MOVE; SIGNAL_VARIANCE_COLLAPSE; SIGNAL_HIGH_HHI; SIGNAL_SPECIALISATION].

Record OracleSignal := {
  signal_id : string;
  state_signal_key : string;
  threshold : float;
  sig_description : string;
  consecutive_rounds : Z
}.
Record evaluation := { ev_value : option float; ev_threshold : float; fired : bool; reason : string }.
Record OracleCase := {
  oc_case_id : string;
  oc_rule_id : string;
  oc_kind : string;
  oc_actor_entity_id : string;
  triggered_by_signals : list string;
  ev_cv_excess : float;
  ev_hhi_excess : float;
  ev_signals : list (string * evaluation);
  severity_tier : nat;
  observed_at : string;
  oc_manifest : string
}.
(** The parts of the ecosystem's state that are read. *)
Record EcosystemState := { snapshot_at : string; state_hash : string; aggregate_drift_signals : gmap string float }.
Record OracleObservation := {
  obs_snapshot_at : string;
  obs_state_hash : string;
  signal_evaluations : list (string * evaluation);
  pending_cases : list OracleCase;
  obs_enabled_transitions : list string;
  obs_manifest : string
}.

Definition collusion_tier (cv_excess hhi_excess : float) : nat :=
  let above m x := fltb (dec m 2) x in
  if above 150%Z cv_excess || above 80%Z hhi_excess || (above 100%Z cv_excess && above 50%Z hhi_excess) then 4
  else if above 75%Z cv_excess || above 50%Z hhi_excess || (above 50%Z cv_excess && above 30%Z hhi_excess) then 3
  else if above 25%Z cv_excess || above 15%Z hhi_excess then 2
  else if fleb cv_excess f_zero && fleb hhi_excess f_zero then 0
  else 1.

Record oracle := {
  o_graph : GovernanceGraph;
  o_signals : list OracleSignal;
  rule_id_for_signal : gmap string string;
  cv_key : string;
  hhi_key : string;
  s2_streaks : gmap string (gmap string Z)
}.
Definition new_oracle (g : GovernanceGraph) (sigs : list OracleSignal) (rules : gmap string string) (cv hhi : string) : result Institution.exn oracle :=
  check (forallb (fun s => bool_decide (signal_id s ∈ VALID_SIGNAL_IDS)) sigs) ValueError ;;
  Ok {| o_graph := g; o_signals := sigs; rule_id_for_signal := rules; cv_key := cv; hhi_key := hhi; s2_streaks := ∅ |}.
Definition streak (o : oracle) (sid actor : string) : Z := default 0%Z (default ∅ (s2_streaks o !! sid) !! actor).
Definition set_streak (sid actor : string) (n : Z) (o : oracle) : oracle := {|
  o_graph := o_graph o; o_signals := o_signals o; rule_id_for_signal := rule_id_for_signal o; cv_key := cv_key o; hhi_key := hhi_key o;
  s2_streaks := <[sid := <[actor := n]> (default ∅ (s2_streaks o !! sid))]> (s2_streaks o) |}.

Definition evaluate_one (s : OracleSignal) (value : option float) (actor : string) (o : oracle) : evaluation * oracle :=
  match value with
  | None => ({| ev_value := None; ev_threshold := threshold s; fired := false; reason := "missing_signal" |}, o)
  | Some v =>
      if String.eqb (signal_id s) SIGNAL_VARIANCE_COLLAPSE then
        let below := fltb v (threshold s) in
        let n := if below then (streak o (signal_id s) actor + 1)%Z else 0%Z in
        ({| ev_value := Some v; ev_threshold := threshold s; fired := (Z.max (consecutive_rounds s) 1 <=? n)%Z;
            reason := if below then "streak=" +:+ z_str n +:+ "/" +:+ z_str (consecutive_rounds s) else "above_threshold" |},
         set_streak (signal_id s) actor n o)
      else
        let hit := fleb (threshold s) v in
        ({| ev_value := Some v; ev_threshold := threshold s; fired := hit;
            reason := if hit then "above_threshold" else "below_threshold" |}, o)
  end.
(** [evaluations[k] = e]. *)
Fixpoint put_evaluation (k : string) (e : evaluation) (l : list (string * evaluation)) : list (string * evaluation) :=
  match l with
  | [] => [(k, e)]
  | (k', e') :: l => if String.eqb k k' then (k, e) :: l else (k', e') :: put_evaluation k e l
  end.
Fixpoint get_evaluation (k : string) (l : list (string * evaluation)) : option evaluation :=
  match l with [] => None | (k', e) :: l => if String.eqb k k' then Some e else get_evaluation k l end.
(** [{sid: evaluations[sid] for sid in ids}]. *)
Definition pick_evaluations (evals : list (string * evaluation)) (ids : list string) : list (string * evaluation) :=
  foldl (fun acc sid => match get_evaluation sid evals with Some e => put_evaluation sid e acc | None => acc end) [] ids.
(** The loop over the signals: the evaluations, the fired ids and the streaks. *)
Fixpoint evaluate_signals (sigs : list OracleSignal) (values : gmap string float) (actor : string)
    (acc : list (string * evaluation) * list string) (o : oracle) : list (string * evaluation) * list string * oracle :=
  match sigs with
  | [] => (acc, o)
  | s :: sigs =>
      let '(e, o) := evaluate_one s (values !! state_signal_key s) actor o in
      evaluate_signals sigs values actor
        (put_evaluation (signal_id s) e acc.1, acc.2 ++ (if fired e then [signal_id s] else [])) o
  end.

Definition primary_rule_id (o : oracle) (ids : list string) : string :=
  match omap (fun sid => rule_id_for_signal o !! sid) ids with
  | r :: _ => r
  | [] => "rule_for_" +:+ default "" (head ids)
  end.
(** [inst] is the set of the actors' states in the order it is iterated over, when
    states are given; [case_hex] and [now] are drawn for a case. *)
Definition observe_state (state : EcosystemState) (inst : option (list string)) (actor : option string) (case_hex now : string)
    (o : oracle) : OracleObservation * oracle :=
  let signal k := default f_zero (aggregate_drift_signals state !! k) in
  let cv := signal (cv_key o) in
  let hhi := signal (hhi_key o) in
  let actor_key := match actor with Some a => if nonempty a then a else "_global" | None => "_global" end in
  let '(evals, ids, o') := evaluate_signals (o_signals o) (aggregate_drift_signals state) actor_key ([], []) o in
  let cases := if bool_decide (ids = []) then [] else [{|
    oc_case_id := "case_" +:+ case_hex; oc_rule_id := primary_rule_id o ids; oc_kind := "probable_violation";
    oc_actor_entity_id := actor_key; triggered_by_signals := ids; ev_cv_excess := cv; ev_hhi_excess := hhi;
    ev_signals := pick_evaluations evals ids; severity_tier := collusion_tier cv hhi;
    observed_at := now; oc_manifest := manifest_semantic_sha256 (o_graph o) |}] in
  ({| obs_snapshot_at := snapshot_at state; obs_state_hash := state_hash state; signal_evaluations := evals; pending_cases := cases;
      obs_enabled_transitions := default [] inst ≫= fun q => edge_key <$> enabled_transitions (o_graph o) q;
      obs_manifest := manifest_semantic_sha256 (o_graph o) |}, o').

(** Whether the edge may be taken without sanction, and the sanction it carries. *)
Definition evaluate_transition (o : oracle) (ev q : string) : result Institution.exn (bool * option string) :=
  match find_transition (o_graph o) q ev with
  | Err _ | Ok None => Ok (false, None)
  | Ok (Some t) =>
      sanction ← effective_sanction_id t;
      Ok (match sanction with Some s => (false, Some s) | None => (true, None) end)
  end.
End Oracle.

(** ** Inheritance along spawn chains *)
Module Inheritance.

Definition CANONICAL_RESTRICTIVENESS : list (string * Z) :=
  [("active", 0%Z); ("credited", 0%Z); ("warning", 1%Z); ("fined", 2%Z); ("suspended", 3%Z)].
Definition MAX_DEPTH : nat := 32.
Record InheritedState := {
  is_actor : string;
  direct_state : string;
  effective_state : string;
  inherited_from : option string;
  chain_length : nat
}.

Section Resolve.
(** The attributes of an entity at the time asked for. *)
Context (get_entity_at : string -> option pydict).
Context (order : list (string * Z)) (institutional_states : gmap string string).

Definition score (q : string) : Z := default 0%Z (Controller.timing_get q order).
Definition spawned_by (e : string) : option string :=
  attrs ← get_entity_at e;
  match dict_get "spawned_by" attrs with Some (PStr p) => if nonempty p then Some p else None | _ => None end.
Fixpoint resolve_loop (depth : nat) (current : string) (visited : list string) (best : string) (best_score : Z)
    (from : option string) (len : nat) : string * option string * nat :=
  match depth with
  | 0 => (best, from, len)
  | S depth =>
      match spawned_by current with
      | None => (best, from, len)
      | Some parent =>
          if bool_decide (parent ∈ visited) then (best, from, len)
          else
            let q := default "active" (institutional_states !! parent) in
            if (best_score <? score q)%Z
            then resolve_loop depth parent (parent :: visited) q (score q) (Some parent) (S len)
            else resolve_loop depth parent (parent :: visited) best best_score from (S len)
      end
  end.
Definition resolve_effective_state (actor direct : string) (max_depth : nat) : InheritedState :=
  let '(best, from, len) := resolve_loop max_depth actor [actor] direct (score direct) None 0 in
  {| is_actor := actor; direct_state := direct; effective_state := best; inherited_from := from; chain_length := len |}.
End Resolve.
(** [restrictiveness or CANONICAL_RESTRICTIVENESS]. *)
Definition restrictiveness_or (r : option (list (string * Z))) : list (string * Z) :=
  match r with Some [] | None => CANONICAL_RESTRICTIVENESS | Some l => l end.
End Inheritance.
