(* ===== verification/GovernanceSpec.v ===== *)
(** * Theorems on institutional governance

    The log alone determines the state of the controller ([log_replays]); an actor moves
    along the edges of the manifest only and never repeats one within its cooldown; the
    digest of a manifest identifies the regime; a child is held to the most restrictive
    state of its ancestors. *)
From Stdlib Require Import Sorted.
From stdpp Require Import gmap.
From S2P Require Import Prelude StateExn PyStr PyFloat PyVal RouterDomain PdpDomain PyFormat Canonical Ledger Institution Governance.
Import RouterDomain PdpDomain Canonical Institution InstitutionSpec.
Open Scope string_scope.
Open Scope list_scope.
Open Scope nat_scope.

(** ** The log *)
Module LogSpec.
Import EventLedger GovernanceLog.

Section Log.
Context (str_other : pyval -> string).
Context (sha256_hex : string -> string) (b64encode : string -> string) (b64decode : string -> option string).
Abbreviation log_append := (log_append sha256_hex b64encode b64decode).
Abbreviation record_decision := (record_decision str_other sha256_hex b64encode b64decode).
Abbreviation reachable := (LedgerSpec.reachable sha256_hex b64decode).

(** The log's key signs, and its public half verifies what was signed. *)
Definition signs (g : GovernanceLog) : Prop :=
  (forall m, exists sig, sign (log_signer g) m = Ok sig /\ b64decode (b64encode sig) = Some sig
    /\ (forall verify, verifying (log_ledger g) = Some verify -> verify m sig = true)).

Lemma log_append_ok st k actor target payload g :
  signs g -> assert_canonicalizable (PDict payload) = true ->
  exists e g', log_append st k actor target payload g = (Ok (event_id e), g') /\ signs g'
    /\ events (log_ledger g') = events (log_ledger g) ++ [e] /\ kind e = k /\ EventLedger.payload e = payload.
Proof.
  intros Hs Hp. unfold GovernanceLog.log_append.
  set (p := {| event_kind := k; pe_payload := payload |}).
  destruct (LedgerSpec.append_proposed_spec sha256_hex b64decode b64encode (log_ledger g) (log_signer g) p None (fresh_id st) None)
    as (e & l' & E & Ev & Hpay & Hk & Hv & _).
  { split; [done| |done]. intros id H. by apply not_elem_of_nil in H. }
  rewrite E. exists e, (set_ledger l' g). split_and!; [done| |done..].
  intros m. destruct (Hs m) as (sig & ? & ? & H). exists sig. split_and!; [done..|]. simpl. by rewrite Hv.
Qed.

Lemma log_append_reachable v st k actor target payload :
  respects (fun g g' => reachable v (log_ledger g) -> reachable v (log_ledger g')) (log_append st k actor target payload).
Proof.
  intros g Hr. unfold GovernanceLog.log_append.
  set (p := {| event_kind := k; pe_payload := payload |}).
  pose proof (LedgerSpec.append_proposed_reachable sha256_hex b64decode b64encode v (log_signer g) p None (fresh_id st) None _ Hr) as H.
  by destruct (append_proposed _ _ _ _ _ _ _ _ _) as [[] l'].
Qed.
Lemma record_decision_reachable v st st' dec :
  respects (fun g g' => reachable v (log_ledger g) -> reachable v (log_ledger g')) (record_decision st st' dec).
Proof.
  assert (HR : PreOrder (fun g g' => reachable v (log_ledger g) -> reachable v (log_ledger g'))) by (split; [by intros ?|intros ?????; auto]).
  assert (Hpair : forall st k f actor p, respects (fun g g' => reachable v (log_ledger g) -> reachable v (log_ledger g'))
    (append_paired sha256_hex b64encode b64decode st k f actor p)).
  { intros. unfold append_paired. apply respects_bind; [done|by apply respects_lift|]. intros s.
    apply respects_bind; [done|apply log_append_reachable|]. intros _. by apply respects_ret. }
  unfold GovernanceLog.record_decision. apply respects_bind; [done|by apply respects_lift|]. intros payload.
  apply respects_bind; [done|apply log_append_reachable|]. intros primary.
  apply respects_bind; [done| |intros _; by apply respects_ret].
  destruct (field payload "decision"); try by apply respects_ret.
  repeat (case_match; try apply Hpair; try by apply respects_ret).
Qed.

Import Controller.
Lemma dump_coerces d : coerce_to_payload (model_dump d) = Ok (model_dump d).
Proof. destruct d as [? ? ? ? ? ? ? [] [] [] ? ? [] ? ? ?]; reflexivity. Qed.
Lemma dump_canonicalizable d : assert_canonicalizable (PDict (model_dump d)) = true.
Proof. destruct d as [? ? ? ? ? ? ? [] [] [] ? ? [] ? ? ?]; reflexivity. Qed.

(** The record of a decision, with its pair for a sanction or a restoration. *)
Definition pair_kind (o : ControllerOutcome) : list string :=
  match o with SANCTION => [KIND_SANCTION] | REMEDIATE => [KIND_RESTORATION] | _ => [] end.
Lemma append_paired_ok st k f actor p g s :
  signs g -> assert_canonicalizable (PDict (paired_payload f p)) = true -> opt_str_field (field p f) = Ok s ->
  exists e g', append_paired sha256_hex b64encode b64decode st k f actor p g = (Ok (), g') /\ signs g'
    /\ events (log_ledger g') = events (log_ledger g) ++ [e] /\ kind e = k.
Proof.
  intros Hs Hp Hf. unfold append_paired, mbind, M_bind, lift. rewrite Hf.
  destruct (log_append_ok st k actor s (paired_payload f p) g Hs Hp) as (e & g' & -> & Hs' & Ev & Hk & _). by exists e, g'.
Qed.
Lemma dump_pairs d f :
  f = "sanction_id" \/ f = "restorative_path_id" ->
  assert_canonicalizable (PDict (paired_payload f (model_dump d))) = true
  /\ exists s, opt_str_field (field (model_dump d) f) = Ok s.
Proof. destruct d as [? ? ? ? ? ? ? [] [] [] ? ? [] ? ? ?]; intros [-> | ->]; by repeat econstructor. Qed.
Lemma record_decision_ok st st' d g :
  signs g ->
  exists e g' es, record_decision st st' (model_dump d) g = (Ok (event_id e), g') /\ signs g'
    /\ events (log_ledger g') = events (log_ledger g) ++ e :: es
    /\ kind e = KIND_DECISION /\ EventLedger.payload e = model_dump d /\ kind <$> es = pair_kind (decision d).
Proof.
  intros Hs. unfold GovernanceLog.record_decision, mbind, M_bind, lift. rewrite dump_coerces.
  destruct (log_append_ok st KIND_DECISION (text_or str_other (model_dump d) "actor_entity_id" "_controller")
    (if py_bool (field (model_dump d) "to_state") then Some (py_str_of str_other (field (model_dump d) "to_state")) else None)
    (model_dump d) g Hs (dump_canonicalizable d)) as (e & g1 & -> & Hs1 & Ev1 & Hk & Hp).
  assert (Hpair : forall f k, (f = "sanction_id" \/ f = "restorative_path_id") ->
    exists e' g', append_paired sha256_hex b64encode b64decode st' k f (text_or str_other (model_dump d) "actor_entity_id" "_controller")
      (model_dump d) g1 = (Ok (), g') /\ signs g' /\ events (log_ledger g') = events (log_ledger g1) ++ [e'] /\ kind e' = k).
  { intros f k Hf. destruct (dump_pairs d f Hf) as [H1 [x H2]]. by apply append_paired_ok with x. }
  assert (Hd : field (model_dump d) "decision" = PStr (outcome_value (decision d))) by done. rewrite Hd.
  destruct (decision d); unfold outcome_value; cbv beta iota zeta.
  - exists e, g1, []. by rewrite Ev1.
  - destruct (Hpair "sanction_id" KIND_SANCTION (or_introl eq_refl)) as (e' & g' & -> & Hs' & Ev & Hk').
    exists e, g', [e']. simpl. rewrite Ev, Ev1, <- app_assoc, Hk'. done.
  - destruct (Hpair "restorative_path_id" KIND_RESTORATION (or_intror eq_refl)) as (e' & g' & -> & Hs' & Ev & Hk').
    exists e, g', [e']. simpl. rewrite Ev, Ev1, <- app_assoc, Hk'. done.
  - exists e, g1, []. by rewrite Ev1.
Qed.
End Log.
End LogSpec.

(** ** The controller *)
Module ControllerSpec.
Import Controller GovernanceLog.

Section Enforce.
Context (str_other : pyval -> string).
Context (sha256_hex : string -> string) (b64encode : string -> string) (b64decode : string -> option string).
Abbreviation enforce := (enforce str_other sha256_hex b64encode b64decode).
Abbreviation signs := (LogSpec.signs b64encode b64decode).

(** What a decision does to the actors' states and to the cooldowns. *)
Definition apply_decision (d : ControllerDecision) (s : gmap string string * gmap (string * string) Z) :=
  if decide (decision d = BLOCKED) then s
  else (<[actor_entity_id d := d_to_state d]> s.1,
        match cooldown_until_round d with Some u => <[(actor_entity_id d, d_edge_key d) := u]> s.2 | None => s.2 end).
Definition institution (c : controller) : gmap string string * gmap (string * string) Z := (actor_states c, cooldowns c).
(** What recording it does to the log. *)
Definition recorded (st : stamps) (d : ControllerDecision) (log : option GovernanceLog) : option GovernanceLog :=
  (fun l => (record_decision str_other sha256_hex b64encode b64decode (st_primary st) (st_paired st) (model_dump d) l).2) <$> log.

(** The edge a decision goes along. *)
Record goes_along (g : GovernanceGraph) (c : controller) (d : ControllerDecision) (t : LegalTransition) : Prop := {
  ga_found : find_transition g (actor_state c (actor_entity_id d)) (d_triggered_by d) = Ok (Some t);
  ga_key : d_edge_key d = edge_key t;
  ga_from : d_from_state d = from_state t;
  ga_to : d_to_state d = to_state t;
  ga_free : in_cooldown c (actor_entity_id d) (edge_key t) (effective_round d) = false;
  ga_until : cooldown_until_round d = if (0 <? cooldown_for t)%Z then Some (effective_round d + cooldown_for t)%Z else None
}.

Lemma record_and_return_spec st d c :
  record_and_return str_other sha256_hex b64encode b64decode st d c
  = (Ok d, {| cooldowns := cooldowns c; actor_states := actor_states c; c_log := recorded st d (c_log c) |}).
Proof. unfold record_and_return, recorded. by destruct c as [cd a [log|]]. Qed.
Lemma find_transition_from g src ev t : find_transition g src ev = Ok (Some t) -> from_state t = src.
Proof. intros H. by apply find_transition_Some in H as (_ & ? & _). Qed.
Lemma outcome_not_blocked g t s : (select_outcome g t s).1 <> BLOCKED.
Proof. unfold select_outcome. by destruct (restorative_path_id t), s. Qed.

(** A call raises and changes nothing, or decides: then exactly what the decision says
    is done, the decision is recorded, and a decision that is not [BLOCKED] goes along an
    edge of the manifest that is not on cooldown. *)
Lemma enforce_spec g st ev actor round case c :
  match enforce g st ev actor round case c with
  | (Err _, c') => c' = c
  | (Ok d, c') =>
      actor_entity_id d = actor /\ d_triggered_by d = ev /\ effective_round d = round
      /\ institution c' = apply_decision d (institution c) /\ c_log c' = recorded st d (c_log c)
      /\ (decision d <> BLOCKED -> exists t, goes_along g c d t)
  end.
Proof.
  unfold Controller.enforce. rewrite !lift_bind. destruct (check (nonempty actor) ValueError); [|done].
  destruct (check (nonempty ev) ValueError); [|done].
  unfold mbind, M_bind, get. destruct (find_transition g (actor_state c actor) ev) as [[t|]|keys] eqn:Ef.
  2, 3: rewrite record_and_return_spec; cbn; split_and!; try done.
  destruct (in_cooldown c actor (edge_key t) round) eqn:Ec; unfold lift; destruct (effective_sanction_id t) as [s|]; try done.
  - rewrite record_and_return_spec. cbn. split_and!; done.
  - pose proof (outcome_not_blocked g t s) as Ho. destruct (select_outcome g t s) as [o why]. unfold modify.
    rewrite record_and_return_spec. cbn -[decide]. split_and!; try done.
    + unfold apply_decision, institution. cbn -[decide]. rewrite decide_False by done. by destruct (0 <? cooldown_for t)%Z.
    + destruct (0 <? cooldown_for t)%Z; done.
    + intros _. exists t. split; try done. symmetry. by eapply find_transition_from.
Qed.

(** ** Runs *)

Record request := { rq_stamps : stamps; rq_event : string; rq_actor : string; rq_round : Z; rq_case : option string }.
(** Calls in sequence: the decisions, in order, of those that do not raise. *)
Fixpoint run (g : GovernanceGraph) (reqs : list request) (c : controller) : list ControllerDecision * controller :=
  match reqs with
  | [] => ([], c)
  | q :: reqs =>
      let '(r, c1) := enforce g (rq_stamps q) (rq_event q) (rq_actor q) (rq_round q) (rq_case q) c in
      let '(ds, c2) := run g reqs c1 in
      (match r with Ok d => d :: ds | Err _ => ds end, c2)
  end.

(** A relation between the decisions and the controllers of a run, by its steps. *)
Lemma run_ind g (P : controller -> list ControllerDecision -> controller -> Prop) :
  (forall c, P c [] c) ->
  (forall st d c c1 ds c2, institution c1 = apply_decision d (institution c) -> c_log c1 = recorded st d (c_log c) ->
     (decision d <> BLOCKED -> exists t, goes_along g c d t) -> P c1 ds c2 -> P c (d :: ds) c2) ->
  forall reqs c, P c (run g reqs c).1 (run g reqs c).2.
Proof.
  intros H0 HS reqs. induction reqs as [|q reqs IH]; intros c; simpl; [done|].
  pose proof (enforce_spec g (rq_stamps q) (rq_event q) (rq_actor q) (rq_round q) (rq_case q) c) as H.
  destruct (enforce g _ _ _ _ _ c) as [[d|x] c1]; specialize (IH c1); destruct (run g reqs c1) as [ds c2]; simpl in *.
  - destruct H as (_ & _ & _ & H1 & H2 & H3). by eapply HS.
  - by subst c1.
Qed.

(** *** The log replays to the state *)

Definition replay_payload (p : pydict) (s : gmap string string * gmap (string * string) Z) :=
  match field p "decision", field p "actor_entity_id", field p "to_state", field p "edge_key" with
  | PStr o, PStr a, PStr q, PStr k =>
      if String.eqb o "BLOCKED" then s
      else (<[a := q]> s.1, match field p "cooldown_until_round" with PInt u => <[(a, k) := u]> s.2 | _ => s.2 end)
  | _, _, _, _ => s
  end.
Definition replay_event (s : gmap string string * gmap (string * string) Z) (e : EventLedger.Event) :=
  if String.eqb (EventLedger.kind e) KIND_DECISION then replay_payload (EventLedger.payload e) s else s.
(** The actors' states and the cooldowns that a log tells of. *)
Definition replay (es : list EventLedger.Event) : gmap string string * gmap (string * string) Z := foldl replay_event (∅, ∅) es.

Lemma replay_dump d s : replay_payload (model_dump d) s = apply_decision d s.
Proof. by destruct d as [? [] ? ? ? ? ? ? ? ? ? ? [] ? ? ?]. Qed.
Lemma replay_pairs es s o : EventLedger.kind <$> es = LogSpec.pair_kind o -> foldl replay_event s es = s.
Proof.
  destruct o, es as [|e [|e' es]]; simpl; intros E; try done; injection E as E; unfold replay_event; by rewrite E.
Qed.
Definition faithful (c : controller) : Prop :=
  exists log, c_log c = Some log /\ signs log /\ replay (EventLedger.events (log_ledger log)) = institution c.
Lemma run_faithful g reqs c : faithful c -> faithful (run g reqs c).2.
Proof.
  apply (run_ind g (fun c _ c' => faithful c -> faithful c')); [done|].
  intros st d c0 c1 ds c2 Hi Hl _ IH (log & El & Hs & Hr). apply IH. unfold recorded in Hl. rewrite El in Hl. cbn [fmap option_fmap option_map] in Hl.
  destruct (LogSpec.record_decision_ok str_other sha256_hex b64encode b64decode (st_primary st) (st_paired st) d log Hs)
    as (e & log' & es & E & Hs' & Ev & Hk & Hp & Hes). rewrite E in Hl. exists log'. split_and!; [done..|].
  rewrite Ev. unfold replay in *. rewrite foldl_app, Hr. cbn [foldl]. rewrite (replay_pairs es _ (decision d) Hes), Hi.
  unfold replay_event. by rewrite Hk, Hp, replay_dump.
Qed.
Lemma run_reachable g v reqs c log log' :
  c_log c = Some log -> c_log (run g reqs c).2 = Some log' ->
  LedgerSpec.reachable sha256_hex b64decode v (log_ledger log) -> LedgerSpec.reachable sha256_hex b64decode v (log_ledger log').
Proof.
  revert log. apply (run_ind g (fun c _ c' => forall log, c_log c = Some log -> c_log c' = Some log' ->
    LedgerSpec.reachable sha256_hex b64decode v (log_ledger log) -> LedgerSpec.reachable sha256_hex b64decode v (log_ledger log'))).
  - intros c0 log E E'. congruence.
  - intros st d c0 c1 ds c2 _ Hl _ IH log E E' Hr. unfold recorded in Hl. rewrite E in Hl. cbn [fmap option_fmap option_map] in Hl.
    apply (IH _ Hl E'). by apply LogSpec.record_decision_reachable.
Qed.

Lemma log_audit verify log :
  LedgerSpec.reachable sha256_hex b64decode (Some verify) (log_ledger log) ->
  (log_verify_chain sha256_hex b64decode 1 (-1) log).1 = Ok true.
Proof.
  intros Hr. unfold log_verify_chain. simpl. destruct (Z.eqb_spec (Z.of_nat (length (EventLedger.events (log_ledger log)))) 0); [done|].
  pose proof (LedgerSpec.verify_chain_spec sha256_hex b64decode verify (log_ledger log) 1
    (Z.of_nat (length (EventLedger.events (log_ledger log)))) (LedgerSpec.reachable_well_formed _ _ _ _ Hr)) as H.
  destruct (EventLedger.verify_chain _ _ _ _ _) as [r l]. simpl in H. subst r. simpl. f_equal. rewrite !andb_true_iff, !Z.leb_le. lia.
Qed.

(** *** Actors walk along the manifest *)

(** The decisions that moved an actor. *)
Definition moves (a : string) (ds : list ControllerDecision) : list ControllerDecision :=
  filter (fun d => actor_entity_id d = a /\ decision d <> BLOCKED) ds.
Fixpoint walk (g : GovernanceGraph) (q : string) (ds : list ControllerDecision) (q' : string) : Prop :=
  match ds with
  | [] => q = q'
  | d :: ds => exists t, t ∈ transitions g /\ from_state t = q /\ triggered_by t = d_triggered_by d
      /\ edge_key t = d_edge_key d /\ to_state t = d_to_state d /\ walk g (to_state t) ds q'
  end.
Lemma apply_decision_other d c c1 a :
  institution c1 = apply_decision d (institution c) -> ~ (actor_entity_id d = a /\ decision d <> BLOCKED) ->
  actor_state c1 a = actor_state c a /\ forall k, cooldowns c1 !! (a, k) = cooldowns c !! (a, k).
Proof.
  unfold institution, apply_decision, actor_state. case_decide as Hb; intros [= H1 H2] Hn; simpl in *.
  - by rewrite H1, H2.
  - assert (Ha : actor_entity_id d <> a) by naive_solver. rewrite H1, H2, lookup_insert_ne by done. split; [done|].
    intros k. destruct (cooldown_until_round d); [|done]. rewrite lookup_insert_ne; [done|]. naive_solver.
Qed.
Lemma run_walks g reqs c a : walk g (actor_state c a) (moves a (run g reqs c).1) (actor_state (run g reqs c).2 a).
Proof.
  apply (run_ind g (fun c ds c' => walk g (actor_state c a) (moves a ds) (actor_state c' a))); [done|].
  intros st d c0 c1 ds c2 Hi _ Ht IH. unfold moves. rewrite filter_cons. case_decide as Hm.
  - destruct Hm as [Ha Hb]. destruct (Ht Hb) as (t & [Hf Hk Hfr Hto _ _]). apply find_transition_Some in Hf as (Hin & Hs & Htr).
    exists t. rewrite Ha in Hs. split_and!; try done. assert (actor_state c1 a = to_state t) as <-; [|done].
    unfold institution, apply_decision in Hi. rewrite decide_False in Hi by done. injection Hi as Hi _. unfold actor_state.
    by rewrite Hi, Ha, Hto, lookup_insert_eq.
  - by rewrite <- (proj1 (apply_decision_other d c0 c1 a Hi Hm)).
Qed.

(** *** Cooldowns *)

Section Cooldown.
Context (g : GovernanceGraph) (Hg : valid g) (a : string) (t : LegalTransition) (Ht : t ∈ transitions g) (Hcd : (0 < cooldown_for t)%Z).

Lemma edge_unique t' : t' ∈ transitions g -> edge_key t' = edge_key t -> t' = t.
Proof using Hg Ht.
  intros Ht' E. destruct Hg as [_ _ Hk _ _ _]. apply list_elem_of_lookup in Ht as [i Hi], Ht' as [j Hj].
  assert (i = j) as <-; [|congruence]. eapply NoDup_lookup; [exact Hk|rewrite list_lookup_fmap, Hi; done|].
  rewrite list_lookup_fmap, Hj. simpl. by rewrite E.
Qed.
(** The rounds at which the edge was taken. *)
Definition taken (d : ControllerDecision) : Prop := d_edge_key d = edge_key t.
Lemma goes_along_round c d c1 :
  actor_entity_id d = a -> decision d <> BLOCKED -> taken d -> (exists t', goes_along g c d t') ->
  institution c1 = apply_decision d (institution c) ->
  cooldowns c1 !! (a, edge_key t) = Some (effective_round d + cooldown_for t)%Z
  /\ (forall u, cooldowns c !! (a, edge_key t) = Some u -> (u <= effective_round d)%Z).
Proof using Hg Ht Hcd.
  intros Ha Hb Hk (t' & [Hf Hk' _ _ Hfree Hu]) Hi. apply find_transition_Some in Hf as (Hin & _).
  assert (t' = t) as -> by (apply edge_unique; [done|by rewrite <- Hk', Hk]). split.
  - unfold institution, apply_decision in Hi. rewrite decide_False in Hi by done. injection Hi as _ Hi.
    rewrite Hi, Hu. rewrite (proj2 (Z.ltb_lt 0 (cooldown_for t)) Hcd). by rewrite Ha, Hk, lookup_insert_eq.
  - intros u E. unfold in_cooldown in Hfree. rewrite Ha, E in Hfree. by apply Z.ltb_ge.
Qed.
Lemma run_not_before reqs c u :
  cooldowns c !! (a, edge_key t) = Some u ->
  Forall (fun d => taken d -> (u <= effective_round d)%Z) (moves a (run g reqs c).1).
Proof using Hg Ht Hcd.
  revert u. apply (run_ind g (fun c ds _ => forall u, cooldowns c !! (a, edge_key t) = Some u ->
    Forall (fun d => taken d -> (u <= effective_round d)%Z) (moves a ds))); [constructor|].
  intros st d c0 c1 ds c2 Hi _ Hgo IH u Hu. unfold moves. rewrite filter_cons. case_decide as Hm.
  - destruct Hm as [Ha Hb]. destruct (decide (d_edge_key d = edge_key t)) as [Hk|Hk].
    + destruct (goes_along_round c0 d c1 Ha Hb Hk (Hgo Hb) Hi) as [Hn Hle]. specialize (Hle u Hu).
      constructor; [done|]. eapply list.Forall_impl; [apply (IH _ Hn)|]. intros d' Hd' Hk'. specialize (Hd' Hk'). lia.
    + constructor; [done|]. apply IH. unfold institution, apply_decision in Hi. rewrite decide_False in Hi by done.
      injection Hi as _ Hi. rewrite Hi. simpl. destruct (cooldown_until_round d); [|done]. rewrite lookup_insert_ne; [done|]. congruence.
  - apply IH. by rewrite (proj2 (apply_decision_other d c0 c1 a Hi Hm)).
Qed.
Lemma run_spaced reqs c :
  StronglySorted (fun d d' => taken d -> taken d' -> (effective_round d + cooldown_for t <= effective_round d')%Z) (moves a (run g reqs c).1).
Proof using Hg Ht Hcd.
  revert c. induction reqs as [|q reqs IH]; intros c; simpl; [constructor|].
  pose proof (enforce_spec g (rq_stamps q) (rq_event q) (rq_actor q) (rq_round q) (rq_case q) c) as H.
  destruct (enforce g _ _ _ _ _ c) as [[d|x] c1]; pose proof (run_not_before reqs c1) as Hnb; specialize (IH c1);
    destruct (run g reqs c1) as [ds c2]; simpl in *; [|done].
  destruct H as (_ & _ & _ & Hi & _ & Hgo). unfold moves. rewrite filter_cons. case_decide as Hm; [|done].
  destruct Hm as [Ha Hb]. constructor; [done|]. destruct (decide (d_edge_key d = edge_key t)) as [Hk|Hk].
  - destruct (goes_along_round c d c1 Ha Hb Hk (Hgo Hb) Hi) as [Hn _]. eapply list.Forall_impl; [apply (Hnb _ Hn)|]. auto.
  - apply list.Forall_forall. intros d' _ Hk'. done.
Qed.
End Cooldown.

(** *** When a request is granted *)

Lemma valid_sanctions g t : valid g -> t ∈ transitions g -> exists s, effective_sanction_id t = Ok s.
Proof. intros [_ _ _ _ He _] Ht. rewrite list.Forall_forall in He. destruct (He t Ht) as [_ _ _ _ (s & ? & _) _]. eauto. Qed.
Lemma enforce_exact_aux g st ev actor round case c :
  valid g -> actor <> "" -> ev <> "" ->
  exists d c', enforce g st ev actor round case c = (Ok d, c')
    /\ (decision d <> BLOCKED <-> exists t, t ∈ transitions g /\ from_state t = actor_state c actor /\ triggered_by t = ev
          /\ in_cooldown c actor (edge_key t) round = false).
Proof.
  intros Hg Ha He. pose proof (find_transition_deterministic g (actor_state c actor) ev Hg) as Hdet.
  assert (Huniq : forall t, t ∈ transitions g -> from_state t = actor_state c actor -> triggered_by t = ev ->
            find_transition g (actor_state c actor) ev = Ok (Some t)).
  { intros t Ht Hf Htr. rewrite Hdet. destruct (List.find _ _) as [t'|] eqn:E.
    - apply List.find_some in E as [Ht' Hm]. unfold matches in Hm. rewrite andb_true_iff, !String.eqb_eq in Hm. destruct Hm as [Hf' Htr'].
      do 2 f_equal. destruct Hg as [_ _ _ Hl _ _]. apply list_elem_of_In in Ht'.
      apply list_elem_of_lookup in Ht as [i Hi], Ht' as [j Hj]. assert (i = j) as <-; [|congruence].
      eapply NoDup_lookup; [exact Hl|rewrite list_lookup_fmap, Hi; done|]. rewrite list_lookup_fmap, Hj. unfold label. simpl. congruence.
    - eapply List.find_none in E; [|apply list_elem_of_In; exact Ht]. unfold matches in E. by rewrite Hf, Htr, !String.eqb_refl in E. }
  unfold Controller.enforce. rewrite !lift_bind, (proj2 (nonempty_spec actor) Ha), (proj2 (nonempty_spec ev) He). cbn [check].
  unfold mbind, M_bind, get. destruct (find_transition g (actor_state c actor) ev) as [[t|]|keys] eqn:Ef; [| |congruence].
  - pose proof (find_transition_Some _ _ _ _ Ef) as (Hin & Hsrc & Htr). destruct (valid_sanctions g t Hg Hin) as [s Hs].
    unfold lift. rewrite Hs. destruct (in_cooldown c actor (edge_key t) round) eqn:Ec.
    + rewrite record_and_return_spec. eexists _, _. split; [done|]. simpl. split; [done|]. intros (t' & Ht' & Hf' & Htr' & Hc).
      specialize (Huniq t' Ht' Hf' Htr'). congruence.
    + pose proof (outcome_not_blocked g t s) as Ho. destruct (select_outcome g t s) as [o why]. unfold modify.
      rewrite record_and_return_spec. eexists _, _. split; [done|]. split; [|done]. intros _. by exists t.
  - rewrite record_and_return_spec. eexists _, _. split; [done|]. simpl. split; [done|]. intros (t' & Ht' & Hf' & Htr' & Hc).
    specialize (Huniq t' Ht' Hf' Htr'). congruence.
Qed.

(** *** The same regime *)

Lemma timing_get_dict k l :
  timing_get k l = match dict_get k ((fun kv => (kv.1, PInt kv.2)) <$> l) with Some (PInt z) => Some z | _ => None end.
Proof. induction l as [|[k' z] l IH]; [done|]. simpl. by destruct (String.eqb k k'). Qed.
Lemma same_edge_cooldown t t' : same_edge t t' -> cooldown_for t = cooldown_for t'.
Proof.
  intros (_ & _ & _ & _ & _ & _ & _ & H). specialize (H "cooldown_rounds").
  assert (E : forall t, cooldown_for t = Z.max 0 (default 0%Z (timing_get "cooldown_rounds" (default [] (timing t))))).
  { intros x. unfold cooldown_for. by destruct (timing x). }
  by rewrite !E, !timing_get_dict, H.
Qed.
Lemma same_find {A} (R : A -> A -> Prop) (P P' : A -> bool) l l' :
  Forall2 R l l' -> (forall x x', R x x' -> P x = P' x') ->
  option_Forall2 R (List.find P l) (List.find P' l').
Proof. intros H HP. induction H as [|x x' l l' Hx Hl IH]; simpl; [constructor|]. rewrite (HP x x' Hx). by destruct (P' x'); [constructor|]. Qed.
Lemma same_filter {A} (R : A -> A -> Prop) (P P' : A -> bool) l l' :
  Forall2 R l l' -> (forall x x', R x x' -> P x = P' x') -> Forall2 R (List.filter P l) (List.filter P' l').
Proof. intros H HP. induction H as [|x x' l l' Hx Hl IH]; simpl; [constructor|]. rewrite (HP x x' Hx). by destruct (P' x'); [constructor|]. Qed.

Lemma same_find_transition g g' src ev :
  same_regime g g' ->
  match find_transition g src ev, find_transition g' src ev with
  | Ok (Some t), Ok (Some t') => same_edge t t'
  | Ok None, Ok None => True
  | Err ks, Err ks' => ks = ks'
  | _, _ => False
  end.
Proof.
  intros [He _ _ _]. unfold find_transition.
  assert (H : Forall2 same_edge (List.filter (matches src ev) (transitions g)) (List.filter (matches src ev) (transitions g'))).
  { apply same_filter; [done|]. intros t t' (_ & _ & Hf & _ & Ht & _). unfold matches. by rewrite Hf, Ht. }
  assert (Hk : (edge_key <$> List.filter (matches src ev) (transitions g)) = (edge_key <$> List.filter (matches src ev) (transitions g'))).
  { clear He. induction H as [|t t' l l' Hx Hl IH]; [done|]. rewrite !fmap_cons, IH. f_equal. apply Hx. }
  destruct H as [|t t' l l' Ht Hl]; [done|]. destruct Hl as [|u u' l l' Hu Hl]; [done|]. done.
Qed.
Lemma same_lookup_path g g' p : same_regime g g' ->
  match lookup_restorative_path g p, lookup_restorative_path g' p with
  | Ok x, Ok x' => restoration_kind x = restoration_kind x' | Err _, Err _ => True | _, _ => False end.
Proof.
  intros [_ _ Hp _]. unfold lookup_restorative_path.
  pose proof (same_find _ (fun x => String.eqb (path_id x) p) (fun x => String.eqb (path_id x) p) _ _ Hp) as H.
  destruct H as [x x' [_ ?]|]; [|done..]. intros x x' [-> _]. done.
Qed.
Lemma same_lookup_sanction g g' s : same_regime g g' ->
  match lookup_sanction g s, lookup_sanction g' s with
  | Ok x, Ok x' => enforcement_action x = enforcement_action x' | Err _, Err _ => True | _, _ => False end.
Proof.
  intros [_ Hs _ _]. unfold lookup_sanction.
  pose proof (same_find _ (fun x => String.eqb (sanction_id x) s) (fun x => String.eqb (sanction_id x) s) _ _ Hs) as H.
  destruct H as [x x' [_ ?]|]; [|done..]. intros x x' [-> _]. done.
Qed.
Lemma same_outcome g g' t t' s : same_regime g g' -> same_edge t t' -> select_outcome g t s = select_outcome g' t' s.
Proof.
  intros Hr (Hk & _ & _ & _ & _ & _ & Hp & _). unfold select_outcome. rewrite Hk, Hp.
  destruct (restorative_path_id t') as [p|]; [|destruct s as [s|]; [|done]].
  - pose proof (same_lookup_path g g' p Hr). destruct (lookup_restorative_path g p), (lookup_restorative_path g' p); [|done..]. by f_equal; congruence.
  - pose proof (same_lookup_sanction g g' s Hr). destruct (lookup_sanction g s), (lookup_sanction g' s); [|done..]. by f_equal; congruence.
Qed.
Lemma same_enforce g g' st ev actor round case c :
  same_regime g g' -> manifest_semantic_sha256 g = manifest_semantic_sha256 g' ->
  enforce g st ev actor round case c = enforce g' st ev actor round case c.
Proof.
  intros Hr Hd. unfold Controller.enforce, make_decision. rewrite !lift_bind. destruct (check _ _); [|done]. destruct (check _ _); [|done].
  unfold mbind, M_bind, get. rewrite Hd. pose proof (same_find_transition g g' (actor_state c actor) ev Hr) as Hf.
  destruct (find_transition g _ ev) as [[t|]|ks], (find_transition g' _ ev) as [[t'|]|ks']; try done; [|by subst].
  pose proof (same_outcome g g' t t') as Ho. pose proof (same_edge_cooldown t t' Hf) as Hc. pose proof Hf as (E1 & E2 & _ & E4 & _ & E6 & E7 & _).
  rewrite E1, E2, E4, E6, E7, Hc. destruct (in_cooldown _ _ _ _); [done|]. unfold lift.
  destruct (effective_sanction_id t') as [s|]; [|done]. by rewrite (Ho s Hr Hf).
Qed.
Lemma same_run g g' reqs c :
  same_regime g g' -> manifest_semantic_sha256 g = manifest_semantic_sha256 g' -> run g reqs c = run g' reqs c.
Proof.
  intros Hr Hd. revert c. induction reqs as [|q reqs IH]; intros c; simpl; [done|].
  rewrite (same_enforce g g') by done. destruct (enforce g' _ _ _ _ _ c) as [r c1]. by rewrite IH.
Qed.
End Enforce.
End ControllerSpec.

(** ** Inheritance *)
Module InheritanceSpec.
Import Inheritance.

Section Resolve.
Context (get_entity_at : string -> option pydict).
Context (order : list (string * Z)) (institutional_states : gmap string string).
Abbreviation score := (score order).
Abbreviation spawned_by := (spawned_by get_entity_at).
Abbreviation resolve_loop := (resolve_loop get_entity_at order institutional_states).
Abbreviation resolve := (resolve_effective_state get_entity_at order institutional_states).
Definition state_of (e : string) : string := default "active" (institutional_states !! e).

(** Each entity was spawned by the next. *)
Fixpoint spawn_chain (e : string) (l : list string) : Prop :=
  match l with [] => True | p :: l => spawned_by e = Some p /\ spawn_chain p l end.

(** The result of the walk: the best state so far, from the start or from an ancestor. *)
Lemma loop_source depth current visited best from len r f n :
  resolve_loop depth current visited best (score best) from len = (r, f, n) ->
  (score best <= score r)%Z
  /\ ((r = best /\ f = from)
      \/ exists l a, spawn_chain current (l ++ [a]) /\ NoDup (l ++ [a]) /\ (forall x, x ∈ l ++ [a] -> x ∉ visited)
         /\ length (l ++ [a]) <= depth /\ f = Some a /\ r = state_of a /\ (score best < score r)%Z).
Proof.
  revert current visited best from len. induction depth as [|depth IH]; intros current visited best from len; simpl.
  { intros [= <- <- <-]. split; [lia|by left]. }
  destruct (spawned_by current) as [p|] eqn:Ep; [|intros [= <- <- <-]; split; [lia|by left]].
  case_bool_decide as Hv; [intros [= <- <- <-]; split; [lia|by left]|].
  assert (Hext : forall l a, spawn_chain p (l ++ [a]) -> NoDup (l ++ [a]) -> (forall x, x ∈ l ++ [a] -> x ∉ p :: visited) ->
    length (l ++ [a]) <= depth ->
    spawn_chain current ((p :: l) ++ [a]) /\ NoDup ((p :: l) ++ [a]) /\ (forall x, x ∈ (p :: l) ++ [a] -> x ∉ visited)
    /\ length ((p :: l) ++ [a]) <= S depth).
  { intros l a Hc Hn Hx Hl. simpl. split_and!; [done|done| | |lia].
    - constructor; [|done]. intros Hp. apply (Hx p Hp). left.
    - intros x [->|Hin]%elem_of_cons; [done|]. intros Hxv. apply (Hx x Hin). by right. }
  change (default "active" (institutional_states !! p)) with (state_of p).
  destruct (Z.ltb_spec (score best) (score (state_of p))) as [Hlt|Hge]; intros H; apply IH in H as [Hle Hcase]; (split; [lia|]).
  - right. destruct Hcase as [[-> ->]|(l & a & Hc & Hn & Hx & Hl & -> & -> & Hs)].
    + exists [], p. split_and!; try done; [apply NoDup_singleton| |simpl; lia]. intros x ->%list_elem_of_singleton. done.
    + destruct (Hext l a Hc Hn Hx Hl) as (? & ? & ? & ?). exists (p :: l), a. split_and!; try done. lia.
  - destruct Hcase as [?|(l & a & Hc & Hn & Hx & Hl & -> & -> & Hs)]; [by left|right].
    destruct (Hext l a Hc Hn Hx Hl) as (? & ? & ? & ?). exists (p :: l), a. by split_and!.
Qed.
(** No ancestor within the depth is more restricted. *)
Lemma loop_bound depth current visited best from len r f n l a :
  resolve_loop depth current visited best (score best) from len = (r, f, n) ->
  spawn_chain current l -> NoDup l -> (forall x, x ∈ l -> x ∉ visited) -> length l <= depth -> a ∈ l ->
  (score (state_of a) <= score r)%Z.
Proof.
  revert current visited best from len l. induction depth as [|depth IH]; intros current visited best from len l H Hc Hn Hv Hl Ha.
  { destruct l; [by apply not_elem_of_nil in Ha|simpl in Hl; lia]. }
  destruct l as [|p l]; [by apply not_elem_of_nil in Ha|]. simpl in H, Hc, Hl. destruct Hc as [Hp Hc]. rewrite Hp in H.
  apply list.NoDup_cons in Hn as [Hpl Hn]. rewrite bool_decide_false in H by (apply Hv; left).
  assert (Hv' : forall x, x ∈ l -> x ∉ p :: visited).
  { intros x Hx [->|Hin]%elem_of_cons; [done|]. apply (Hv x); [by right|done]. }
  destruct (Z.ltb_spec (score best) (score (default "active" (institutional_states !! p)))) as [Hlt|Hge].
  - apply elem_of_cons in Ha as [->|Ha]; [|by eapply IH; [exact H|..|exact Ha]; [done..|lia]].
    apply loop_source in H as [H _]. done.
  - apply elem_of_cons in Ha as [->|Ha]; [|by eapply IH; [exact H|..|exact Ha]; [done..|lia]].
    apply loop_source in H as [H _]. unfold state_of. lia.
Qed.
Lemma resolve_fields actor direct depth :
  exists n, resolve_loop depth actor [actor] direct (score direct) None 0
    = (effective_state (resolve actor direct depth), inherited_from (resolve actor direct depth), n).
Proof. unfold resolve_effective_state. destruct (resolve_loop _ _ _ _ _ _ _) as [[r f] n]. by exists n. Qed.
End Resolve.
End InheritanceSpec.

(** ** The oracle *)
Module OracleSpec.
Import Oracle.

(** A rise of either excess never lowers the tier. *)
Lemma collusion_tier_monotone cv cv' hhi hhi' :
  fleb cv cv' = true -> fleb hhi hhi' = true -> collusion_tier cv hhi <= collusion_tier cv' hhi'.
Proof.
  intros Hc Hh. assert (Hup : forall m x y, fleb x y = true -> fltb (dec m 2) x = true -> fltb (dec m 2) y = true).
  { intros m x y Hle Hlt. by eapply fltb_fleb_trans. }
  assert (Hc' : forall m, fltb (dec m 2) cv = true -> fltb (dec m 2) cv' = true) by eauto.
  assert (Hh' : forall m, fltb (dec m 2) hhi = true -> fltb (dec m 2) hhi' = true) by eauto.
  assert (Hlvl : forall x y x' y', (fltb (dec x 2) cv || fltb (dec y 2) hhi || (fltb (dec x' 2) cv && fltb (dec y' 2) hhi)) = true ->
    (fltb (dec x 2) cv' || fltb (dec y 2) hhi' || (fltb (dec x' 2) cv' && fltb (dec y' 2) hhi')) = true).
  { intros x y x' y'. rewrite !orb_true_iff, !andb_true_iff. intuition. }
  assert (Hmid : (fltb (dec 25 2) cv || fltb (dec 15 2) hhi) = true -> (fltb (dec 25 2) cv' || fltb (dec 15 2) hhi') = true).
  { rewrite !orb_true_iff. intuition. }
  assert (Hz : (fleb cv' f_zero && fleb hhi' f_zero) = true -> (fleb cv f_zero && fleb hhi f_zero) = true).
  { rewrite !andb_true_iff. intros [H1 H2]. split; by eapply fleb_trans. }
  pose proof (Hlvl 150 80 100 50)%Z as H4. pose proof (Hlvl 75 50 50 30)%Z as H3. clear Hlvl Hc' Hh' Hup. unfold collusion_tier.
  destruct (fltb (dec 150 2) cv || _ || _); [by rewrite (H4 eq_refl)|].
  destruct (fltb (dec 150 2) cv' || _ || _); [repeat case_match; lia|].
  destruct (fltb (dec 75 2) cv || _ || _); [by rewrite (H3 eq_refl)|].
  destruct (fltb (dec 75 2) cv' || _ || _); [repeat case_match; lia|].
  destruct (fltb (dec 25 2) cv || _); [by rewrite (Hmid eq_refl)|].
  destruct (fltb (dec 25 2) cv' || _); [repeat case_match; lia|].
  destruct (fleb cv' f_zero && _); [by rewrite (Hz eq_refl)|]. destruct (fleb cv f_zero && _); lia.
Qed.

(** The rounds, latest first, that a streak counts: the readings below the threshold
    since the last one that was not; a round without a reading is skipped. *)
Fixpoint below_since (th : float) (vs : list (option float)) : Z :=
  match vs with
  | [] => 0%Z
  | None :: vs => below_since th vs
  | Some v :: vs => if fltb v th then (below_since th vs + 1)%Z else 0%Z
  end.
(** One signal read round after round, the latest reading first. *)
Fixpoint read_rounds (s : OracleSignal) (actor : string) (vs : list (option float)) (o : oracle) : oracle :=
  match vs with [] => o | v :: vs => (evaluate_one s v actor (read_rounds s actor vs o)).2 end.
Lemma streak_set sid actor n o : streak (set_streak sid actor n o) sid actor = n.
Proof. unfold streak, set_streak. cbn [s2_streaks]. rewrite lookup_insert_eq. cbn [from_option id]. by rewrite lookup_insert_eq. Qed.
Lemma streak_exact s actor vs o :
  signal_id s = SIGNAL_VARIANCE_COLLAPSE -> streak o (signal_id s) actor = 0%Z ->
  streak (read_rounds s actor vs o) (signal_id s) actor = below_since (threshold s) vs
  /\ forall v, fired (evaluate_one s (Some v) actor (read_rounds s actor vs o)).1 = true
     <-> (Z.max (consecutive_rounds s) 1 <= below_since (threshold s) (Some v :: vs))%Z.
Proof.
  intros Hs H0. assert (H : forall vs, streak (read_rounds s actor vs o) (signal_id s) actor = below_since (threshold s) vs).
  { clear vs. induction vs as [|[v|] vs IH]; [done| |done]. simpl. rewrite Hs, String.eqb_refl. simpl.
    rewrite streak_set. rewrite Hs in IH. rewrite IH. by destruct (fltb v (threshold s)). }
  split; [apply H|]. intros v. cbn -[fltb]. rewrite Hs, String.eqb_refl. cbn -[fltb].
  specialize (H vs). rewrite Hs in H. rewrite H, Z.leb_le. by destruct (fltb v (threshold s)).
Qed.
End OracleSpec.

(** * Claims, with runs *)
Module GovernanceRuns.
Import Controller GovernanceLog ControllerSpec.
Abbreviation hexdigest := LedgerRuns.hexdigest.

(** ** A regime *)

Definition as_text (v : pyval) : string := "".
Definition transition_entry (rule src tgt ev : string) (rest : pydict) : pyval :=
  PDict ([("rule_id", PStr rule); ("from_state", PStr src); ("to_state", PStr tgt); ("triggered_by", PStr ev)] ++ rest).
Definition body : pydict :=
  [("states", PList [PStr "active"; PDict [("state_id", PStr "warning")]; PStr "fined"]);
   ("sanctions", PList [
      PDict [("sanction_id", PStr "warn"); ("enforcement_action", PStr "warning")];
      PDict [("sanction_id", PStr "fine1"); ("enforcement_action", PStr "fine"); ("tier", PInt 1); ("fine_rate", PFloat (dec 35 2))]]);
   ("restorative_paths", PList [PDict [("path_id", PStr "expire"); ("target_legal_state_id", PStr "active")]]);
   ("transitions", PList [
      transition_entry "P2" "active" "warning" "probable_violation"
        [("sanction_id", PStr "warn"); ("timing", PDict [("cooldown_rounds", PInt 3)])];
      transition_entry "P2" "warning" "fined" "probable_violation" [("sanction_id", PStr "fine1")];
      transition_entry "P3" "warning" "active" "expiry_tick" [("restorative_path_id", PStr "expire")]])].
Definition manifest : pydict := [("graph_id", PStr "market"); ("version", PStr "1")] ++ body.
(** The same content in another order, with a signature. *)
Definition manifest' : pydict := body ++ [("publisher_signature_b64", PStr "c2ln"); ("version", PStr "1"); ("graph_id", PStr "market")].
Definition or_empty (r : result Institution.exn GovernanceGraph) : GovernanceGraph :=
  match r with
  | Ok g => g
  | Err _ => {| graph_id := ""; version := ""; states := []; transitions := []; sanctions := []; restorative_paths := []; manifest_hash := "";
                publisher_signature_b64 := ""; manifest_semantic_sha256 := ""; manifest_file_sha256 := ""; schema_version := "";
                interpreter_name := ""; interpreter_version := ""; policy_surface := None; policy_program := None; contracts := None |}
  end.
Definition regime : GovernanceGraph := Eval vm_compute in or_empty (from_dict as_text hexdigest manifest None).
Definition regime' : GovernanceGraph := Eval vm_compute in or_empty (from_dict as_text hexdigest manifest' None).
Lemma regime_loads : from_dict as_text hexdigest manifest None = Ok regime.
Proof. vm_compute. reflexivity. Qed.
Lemma regime'_loads : from_dict as_text hexdigest manifest' None = Ok regime'.
Proof. vm_compute. reflexivity. Qed.

Definition demo_stamps (n : string) : stamps := {|
  st_decision := n; st_decided_at := "2026-05-01T00:00:00Z"; st_primary := {| fresh_id := "p" +:+ n; now := "t" |};
  st_paired := {| fresh_id := "q" +:+ n; now := "t" |} |}.
Definition ask (n ev actor : string) (round : Z) : request :=
  {| rq_stamps := demo_stamps n; rq_event := ev; rq_actor := actor; rq_round := round; rq_case := None |}.
(** A violation, its expiry, a violation within the cooldown, and one after it. *)
Definition demo_requests : list request :=
  [ask "1" "probable_violation" "firm_1" 1%Z; ask "2" "expiry_tick" "firm_1" 2%Z; ask "3" "probable_violation" "firm_1" 3%Z;
   ask "4" "probable_violation" "firm_1" 4%Z; ask "5" "expiry_tick" "firm_2" 4%Z].
Definition demo_log : GovernanceLog := {|
  log_key_id := "k1"; log_signer := LedgerRuns.sg; log_ledger := EventLedger.new_ledger (Some LedgerRuns.verifying_key); log_manifest := None |}.
Abbreviation demo_run := (run as_text hexdigest LedgerRuns.id64 Some).
Example demo_outcomes :
  decision <$> (demo_run regime demo_requests (new_controller (Some demo_log))).1 = [SANCTION; REMEDIATE; BLOCKED; SANCTION; BLOCKED].
Proof. vm_compute. reflexivity. Qed.

(** ** Claims *)

(** C16. When every signature the log's key makes succeeds and verifies, the governance
    log alone determines the institution: from an empty log, whatever requests the
    controller served, whichever of them raised or were blocked, replaying the signed
    decisions of its log from nothing gives exactly the state of every actor and every
    cooldown that the controller holds, and the whole log passes its own audit. The
    condition matters: [_record_and_return] swallows a failed append
    ([failed_append_loses_move]). *)
Theorem log_replays str_other sha256_hex b64encode b64decode g reqs log verify :
  log_ledger log = EventLedger.new_ledger (Some verify) -> LogSpec.signs b64encode b64decode log ->
  let c := (run str_other sha256_hex b64encode b64decode g reqs (new_controller (Some log))).2 in
  exists log', c_log c = Some log' /\ replay (all_records log') = institution c
    /\ (log_verify_chain sha256_hex b64decode 1 (-1) log').1 = Ok true.
Proof.
  intros Hl Hs c. destruct (run_faithful str_other sha256_hex b64encode b64decode g reqs (new_controller (Some log))) as (log' & El & _ & Hr).
  { exists log. rewrite Hl. done. }
  exists log'. split_and!; [done..|]. apply (log_audit sha256_hex b64decode verify).
  eapply (run_reachable _ _ _ _ g _ reqs (new_controller (Some log)) log); [done|exact El|]. rewrite Hl. constructor.
Qed.
Lemma demo_signs : LogSpec.signs LedgerRuns.id64 Some demo_log.
Proof.
  intros m. exists ("signed:" +:+ m). split_and!; [done..|]. intros v [= <-]. unfold LedgerRuns.verifying_key. apply String.eqb_refl.
Qed.
Lemma log_replays_witness :
  let c := (demo_run regime demo_requests (new_controller (Some demo_log))).2 in
  exists log', c_log c = Some log' /\ replay (all_records log') = institution c
    /\ (log_verify_chain hexdigest Some 1 (-1) log').1 = Ok true.
Proof. exact (log_replays as_text hexdigest LedgerRuns.id64 Some regime demo_requests demo_log LedgerRuns.verifying_key eq_refl demo_signs). Defined.

(** C17. Actors move only as the manifest says: in every run of a controller over a
    manifest that loads, the decisions that moved an actor spell a path of declared edges
    from [active] to the state it is in, each fired by its trigger, and an edge with a
    cooldown is never taken again by the actor before the cooldown has passed, in
    whatever order the rounds come. *)
Theorem moves_are_legal str_other sha256_hex b64encode b64decode data file g reqs log a :
  from_dict str_other sha256_hex data file = Ok g ->
  let '(ds, c) := run str_other sha256_hex b64encode b64decode g reqs (new_controller log) in
  walk g "active" (moves a ds) (actor_state c a)
  /\ forall t, t ∈ transitions g -> (0 < cooldown_for t)%Z ->
     StronglySorted (fun d d' => d_edge_key d = edge_key t -> d_edge_key d' = edge_key t ->
                       (effective_round d + cooldown_for t <= effective_round d')%Z) (moves a ds).
Proof.
  intros Hg%from_dict_loaded%ld_valid. pose proof (run_walks str_other sha256_hex b64encode b64decode g reqs (new_controller log) a) as Hw.
  pose proof (run_spaced str_other sha256_hex b64encode b64decode g Hg a) as Hc. specialize (Hc).
  destruct (run _ _ _ _ _ _ _) as [ds c] eqn:E. split; [exact Hw|]. intros t Ht Hcd.
  specialize (Hc t Ht Hcd reqs (new_controller log)). rewrite E in Hc. exact Hc.
Qed.
Lemma moves_are_legal_witness :
  let '(ds, c) := demo_run regime demo_requests (new_controller (Some demo_log)) in
  walk regime "active" (moves "firm_1" ds) (actor_state c "firm_1")
  /\ forall t, t ∈ transitions regime -> (0 < cooldown_for t)%Z ->
     StronglySorted (fun d d' => d_edge_key d = edge_key t -> d_edge_key d' = edge_key t ->
                       (effective_round d + cooldown_for t <= effective_round d')%Z) (moves "firm_1" ds).
Proof. exact (moves_are_legal as_text hexdigest LedgerRuns.id64 Some manifest None regime demo_requests (Some demo_log) "firm_1" regime_loads). Defined.

(** C18. The semantic digest is the identity of a regime: two manifests that load with the
    same [manifest_semantic_sha256] are enforced alike, request for request, to the same
    decisions and the same states, unless SHA-256 collides on their two texts. *)
Theorem regime_identity str_other sha256_hex b64encode b64decode data data' file file' g g' reqs c :
  from_dict str_other sha256_hex data file = Ok g -> from_dict str_other sha256_hex data' file' = Ok g' ->
  manifest_semantic_sha256 g = manifest_semantic_sha256 g' ->
  (forall s s', regime_text g = Some s -> regime_text g' = Some s' -> sha256_hex s = sha256_hex s' -> s = s') ->
  run str_other sha256_hex b64encode b64decode g reqs c = run str_other sha256_hex b64encode b64decode g' reqs c.
Proof.
  intros Hg%from_dict_loaded Hg'%from_dict_loaded E Hinj. apply same_run; [|done]. by eapply same_digest_same_regime.
Qed.
Lemma regime_identity_witness :
  demo_run regime demo_requests (new_controller (Some demo_log)) = demo_run regime' demo_requests (new_controller (Some demo_log)).
Proof.
  apply (regime_identity as_text hexdigest LedgerRuns.id64 Some manifest manifest' None None regime regime'
           demo_requests (new_controller (Some demo_log)) regime_loads regime'_loads).
  - vm_compute. reflexivity.
  - intros s s' Hs Hs' _. assert (E : regime_text regime = regime_text regime') by (vm_compute; reflexivity).
    rewrite Hs, Hs' in E. by injection E.
Defined.

(** C20. Spawning does not launder a sanction: the effective state of an actor is its own
    or that of one of its ancestors along the spawn chain, and it is at least as
    restrictive as its own state and as the state of every ancestor within the depth. *)
Theorem inheritance_exact get_entity_at order states actor direct depth :
  let r := Inheritance.resolve_effective_state get_entity_at order states actor direct depth in
  let score := Inheritance.score order in
  let state_of := InheritanceSpec.state_of states in
  (score direct <= score (Inheritance.effective_state r))%Z
  /\ (forall l a, InheritanceSpec.spawn_chain get_entity_at actor l -> NoDup (actor :: l) -> length l <= depth -> a ∈ l ->
        (score (state_of a) <= score (Inheritance.effective_state r))%Z)
  /\ match Inheritance.inherited_from r with
     | None => Inheritance.effective_state r = direct
     | Some a => Inheritance.effective_state r = state_of a /\ (score direct < score (state_of a))%Z
         /\ exists l, InheritanceSpec.spawn_chain get_entity_at actor (l ++ [a]) /\ length (l ++ [a]) <= depth
     end.
Proof.
  cbn zeta. destruct (InheritanceSpec.resolve_fields get_entity_at order states actor direct depth) as [n H].
  split_and!.
  - by apply InheritanceSpec.loop_source in H as [? _].
  - intros l a Hc Hn Hl Ha. apply list.NoDup_cons in Hn as [Hx Hn]. eapply InheritanceSpec.loop_bound; [exact H|done..| |done|done].
    intros x Hin ->%list_elem_of_singleton. done.
  - apply InheritanceSpec.loop_source in H as [_ [[-> ->]|(l & a & Hc & _ & _ & Hl & -> & -> & Hs)]]; [done|]. eauto.
Qed.

(** A grandchild of a suspended agent, registered as active. *)
Definition spawns (e : string) : option pydict :=
  if String.eqb e "child" then Some [("spawned_by", PStr "parent")]
  else if String.eqb e "parent" then Some [("spawned_by", PStr "root")] else Some [].
Lemma inheritance_exact_witness :
  let r := Inheritance.resolve_effective_state spawns Inheritance.CANONICAL_RESTRICTIVENESS {["root" := "suspended"]} "child" "active"
             Inheritance.MAX_DEPTH in
  (3 <= Inheritance.score Inheritance.CANONICAL_RESTRICTIVENESS (Inheritance.effective_state r))%Z.
Proof.
  destruct (inheritance_exact spawns Inheritance.CANONICAL_RESTRICTIVENESS {["root" := "suspended"]} "child" "active" Inheritance.MAX_DEPTH)
    as (_ & H & _).
  apply (H ["parent"; "root"] "root"); [by vm_compute|by apply (bool_decide_unpack _); vm_compute|by vm_compute; lia|by right; left].
Defined.

(** A validated manifest grants a request exactly when it declares an edge for it that is
    not on cooldown; it never raises. *)
Theorem enforce_exact str_other sha256_hex b64encode b64decode data file g st ev actor round case c :
  from_dict str_other sha256_hex data file = Ok g -> actor <> "" -> ev <> "" ->
  exists d c', enforce str_other sha256_hex b64encode b64decode g st ev actor round case c = (Ok d, c')
    /\ (decision d <> BLOCKED <-> exists t, t ∈ transitions g /\ from_state t = actor_state c actor /\ triggered_by t = ev
          /\ in_cooldown c actor (edge_key t) round = false).
Proof. intros Hg%from_dict_loaded%ld_valid. by apply enforce_exact_aux. Qed.

(** ** What the code does at its edges *)

Abbreviation load := (from_dict as_text (fun s => s)).
Definition small (sts : list pyval) (ts : list pyval) : pydict :=
  [("graph_id", PStr "g"); ("version", PStr "1"); ("states", PList sts);
   ("sanctions", PList [PDict [("sanction_id", PStr "warn"); ("enforcement_action", PStr "warning")];
                        PDict [("sanction_id", PStr "stop"); ("enforcement_action", PStr "block")]]);
   ("restorative_paths", PList [PDict [("path_id", PStr "expire"); ("target_legal_state_id", PStr "b")]]);
   ("transitions", PList ts)].
Definition first_outcome (data : pydict) (ev : string) : option ControllerOutcome :=
  match load data None with
  | Ok g => head (decision <$> (run as_text (fun s => s) LedgerRuns.id64 Some g [ask "1" ev "firm" 1%Z] (new_controller None)).1)
  | Err _ => None
  end.
(** An append that fails is swallowed after the state has moved: the actor is in
    [warning], and the log, empty, replays to nothing. *)
Definition broken_log : GovernanceLog := {|
  log_key_id := "k1"; log_signer := {| EventLedger.sign := fun _ => Err EventLedger.SigningError; EventLedger.key_id := "k1"; EventLedger.algorithm := "ecdsa-p256" |};
  log_ledger := EventLedger.new_ledger (Some LedgerRuns.verifying_key); log_manifest := None |}.
Example failed_append_loses_move :
  let '(ds, c) := demo_run regime [ask "1" "probable_violation" "firm_1" 1%Z] (new_controller (Some broken_log)) in
  decision <$> ds = [SANCTION] /\ actor_state c "firm_1" = "warning" /\ all_records <$> c_log c = Some []
  /\ replay [] <> institution c.
Proof. vm_compute. split_and!; [reflexivity..|discriminate]. Qed.
(** A manifest need not declare [active], where every actor starts: then every request
    is blocked. *)
Example no_active_state :
  first_outcome (small [PStr "a"; PStr "b"] [transition_entry "R" "a" "b" "go" []]) "go" = Some BLOCKED.
Proof. vm_compute. reflexivity. Qed.
(** A conflict of [sanction_id] and its alias is not seen when a manifest is loaded. *)
Example alias_conflict_loads :
  match load (small [PStr "active"; PStr "b"]
                [transition_entry "R" "active" "b" "go" [("sanction_id", PStr "warn"); ("sanction_on_violation", PStr "stop")]]) None with
  | Ok g => effective_sanction_id <$> transitions g = [Ok (Some "warn")]
  | Err _ => False
  end.
Proof. vm_compute. reflexivity. Qed.
(** The controller and the oracle differ on an edge with a path and a sanction. *)
Example path_hides_sanction :
  let data := small [PStr "active"; PStr "b"]
                [transition_entry "R" "active" "b" "go" [("sanction_id", PStr "warn"); ("restorative_path_id", PStr "expire")]] in
  first_outcome data "go" = Some REMEDIATE
  /\ match load data None with
     | Ok g => Oracle.new_oracle g [] ∅ "cv" "hhi" ≫= (fun o => Oracle.evaluate_transition o "go" "active") = Ok (false, Some "warn")
     | Err _ => False
     end.
Proof. vm_compute. done. Qed.
(** The anchored pattern of an edge key still admits a final newline. *)
Example newline_key : match_edge_key ("R:a->b" +:+ String (ascii_of_nat 10) "") = Some ("R", "a", "b").
Proof. vm_compute. reflexivity. Qed.
(** A timing that is no number is not reported as an invalid manifest. *)
Example timing_type_error :
  load (small [PStr "a"; PStr "b"] [transition_entry "R" "a" "b" "go" [("timing", PDict [("cooldown_rounds", PList [])])]]) None
  = Err TypeError.
Proof. vm_compute. reflexivity. Qed.
(** Two dispersion signals share one streak: a single round counts twice. *)
Example shared_streak :
  let s key := {| Oracle.signal_id := Oracle.SIGNAL_VARIANCE_COLLAPSE; Oracle.state_signal_key := key; Oracle.threshold := dec 1 0;
                  Oracle.sig_description := ""; Oracle.consecutive_rounds := 2%Z |} in
  let state := {| Oracle.snapshot_at := ""; Oracle.state_hash := ""; Oracle.aggregate_drift_signals := {["x" := f_zero; "y" := f_zero]} |} in
  match Oracle.new_oracle regime [s "x"; s "y"] ∅ "cv" "hhi" with
  | Ok o => Oracle.triggered_by_signals <$> Oracle.pending_cases (Oracle.observe_state state None None "1" "t" o).1
            = [[Oracle.SIGNAL_VARIANCE_COLLAPSE]]
  | Err _ => False
  end.
Proof. vm_compute. reflexivity. Qed.
End GovernanceRuns.
