(* ===== verification/Enforcement.v ===== *)
(** * Enforcement: the standing decision point and the gate

    [tex/governance/standing.py], the two-tier decision point in the live path, with the
    capability surface of [tex/domain/agent.py]; [tex/enforcement/gate.py],
    [transport.py], [standing_transport.py] and [adapters.py], the gate that stands
    between a decision and a tool.  The deep evaluator behind the standing point is a parameter of it, and
    so are the ledger that seals floor rulings, the agent registry and the tool; measured
    latencies, log lines and the live integrity label (off unless a flag is set) are left
    out, and ids are drawn by the caller. *)
From S2P Require Import Prelude StateExn PyStr PyFloat PyVal RouterDomain PyFormat PdpDomain.
Import RouterDomain PdpDomain.
Open Scope string_scope.
Open Scope list_scope.
Open Scope nat_scope.

(** ** Requests and responses *)
Module Requests.

(** The lengths are those of the text given, then the text is normalised; [None] is
    the [ValidationError]. *)
Definition norm_lower (bound : nat) (s : string) : option string :=
  if (1 <=? String.length s) && (String.length s <=? bound)
  then let n := str_lower (strip s) in if String.eqb n "" then None else Some n
  else None.
Definition norm_content (s : string) : option string :=
  if (1 <=? String.length s) && (String.length s <=? 50 * 1000)
  then let n := strip s in if String.eqb n "" then None else Some n
  else None.
Definition norm_optional (bound : nat) (s : option string) : option (option string) :=
  match s with
  | None => Some None
  | Some s => if String.length s <=? bound then Some (let n := strip s in if String.eqb n "" then None else Some n) else None
  end.
Definition new_request (rid action content : string) (recip : option string) (chan envt : string) (md : pydict)
    (policy agent session : option string) (identity : option AgentRuntimeIdentity) (at_us : Z) : option EvaluationRequest :=
  a ← norm_lower 100 action;
  c ← norm_content content;
  r ← norm_optional 500 recip;
  ch ← norm_lower 50 chan;
  e ← norm_lower 50 envt;
  norm_optional 100 policy ≫= fun _ =>
  s ← norm_optional 200 session;
  Some {| request_id := rid; action_type := a; content := c; recipient := r; channel := ch; environment := e; metadata := md;
          req_agent_id := agent; session_id := s; agent_identity := identity; requested_at := at_us |}.

(** The response's fields that are set or read here. *)
Record EvaluationResponse := {
  decision_id : string;
  verdict : Verdict;
  confidence : float;
  final_score : float;
  reasons : list string;
  uncertainty_flags : list string;
  determinism_fingerprint : option string;
  policy_version : string;
  evidence_hash : option string
}.
End Requests.

(** ** The standing decision point *)
Module Standing.
Import Requests.

(** Texts are compared after [strip().casefold()], as code points. *)
Definition fold (s : string) : list N := casefold (strip s).

(** *** Capability surfaces *)

(** Entries are folded when the surface is built; no entry is no restriction. *)
Record CapabilitySurface := {
  allowed_action_types : list (list N);
  allowed_channels : list (list N);
  allowed_environments : list (list N);
  allowed_recipient_domains : list (list N);
  allowed_tools : list (list N)
}.
Definition permits (allowed : list (list N)) (s : string) : bool :=
  bool_decide (allowed = []) || bool_decide (fold s ∈ allowed).
Definition permits_action_type (s : CapabilitySurface) : string -> bool := permits (allowed_action_types s).
Definition permits_channel (s : CapabilitySurface) : string -> bool := permits (allowed_channels s).
Definition permits_environment (s : CapabilitySurface) : string -> bool := permits (allowed_environments s).

Definition at_sign : N := 64.
Definition slash : N := 47.
Definition dot : N := 46.
(** [l.rsplit(c, 1)[-1]] and [l.split(c, 1)[0]]. *)
Fixpoint after_last (c : N) (l : list N) : list N :=
  match l with
  | [] => []
  | x :: l' => if bool_decide (c ∈ l') then after_last c l' else if (x =? c)%N then l' else l
  end.
Fixpoint before_first (c : N) (l : list N) : list N :=
  match l with [] => [] | x :: l => if (x =? c)%N then [] else x :: before_first c l end.
(** What follows the first ["://"]. *)
Fixpoint after_scheme (l : list N) : option (list N) :=
  match l with
  | [] => None
  | x :: l' => match l with
               | 58%N :: 47%N :: 47%N :: r => Some r
               | _ => after_scheme l'
               end
  end.
Definition domain_of (n : list N) : list N :=
  if bool_decide (at_sign ∈ n) then after_last at_sign n
  else match after_scheme n with Some r => before_first slash r | None => n end.
Definition ends_with (suffix l : list N) : bool := bool_decide (drop (length l - length suffix) l = suffix) && (length suffix <=? length l).
Definition permits_recipient (s : CapabilitySurface) (r : option string) : bool :=
  bool_decide (allowed_recipient_domains s = [])
  || match r with
     | None => false
     | Some r =>
         let d := domain_of (fold r) in
         negb (bool_decide (d = [])) && existsb (fun a => bool_decide (d = a) || ends_with (dot :: a) d) (allowed_recipient_domains s)
     end.
Definition within_surface (s : CapabilitySurface) (action chan envt : string) (recip : option string) : bool :=
  permits_action_type s action && permits_channel s chan && permits_environment s envt && permits_recipient s recip.

(** *** Agents *)

Inductive AgentLifecycleStatus := PENDING | ACTIVE | QUARANTINED | SLEEPING | REVOKED.
#[export] Instance status_eq_dec : EqDecision AgentLifecycleStatus.
Proof. solve_decision. Defined.
(** What is read of a registered agent; the external id is an attribute that is looked
    for, which [AgentIdentity] does not declare. *)
Record Agent := {
  agent_id : string;
  agent_tenant_id : string;
  a_external_agent_id : option string;
  name : string;
  lifecycle_status : AgentLifecycleStatus;
  capability_surface : option CapabilitySurface
}.
Definition is_governable (a : Agent) : bool :=
  match lifecycle_status a with SLEEPING | REVOKED | QUARANTINED => false | PENDING | ACTIVE => true end.
(** A registry that raises is one that answers nothing, and a text that is no UUID is
    the id of no agent. *)
Record registry := { reg_get : string -> option Agent; list_all : list Agent }.
Definition in_tenant (t : list N) (a : Agent) : bool := bool_decide (fold (agent_tenant_id a) = t).
Definition list_tenant_agents (reg : registry) (t : list N) : list Agent := List.filter (in_tenant t) (list_all reg).
Definition nonempty (s : string) : bool := negb (String.eqb s "").
Definition resolve_agent (reg : registry) (t : list N) (id ext : option string) : option Agent :=
  let by_id := id ≫= reg_get reg in
  match by_id with
  | Some a => if in_tenant t a then Some a else None
  | None => None
  end
  ∪ (e ← ext;
     if nonempty e
     then List.find (fun a => bool_decide (a_external_agent_id a = Some e) || String.eqb (name a) e) (list_tenant_agents reg t)
     else None).

(** *** Outcomes *)

Inductive tier := Floor | Deep.
Inductive scope := Identity | Lifecycle | Surface | DeepScope | DeepError.
#[export] Instance scope_eq_dec : EqDecision scope.
Proof. solve_decision. Defined.
Record DecisionOutcome := {
  o_verdict : Verdict;
  released : bool;
  reason : string;
  o_tier : tier;
  o_agent_id : option string;
  o_decision_id : option string;
  o_evidence_hash : option string;
  o_held : bool;
  response : option EvaluationResponse;
  forbid_scope : option scope;
  o_allowed_tools : option (list (list N));
  surface_seal_hash : option string
}.
(** Without the mapping of details that is shown with it. *)
Record HeldDecision := {
  h_agent_id : string;
  h_kind : string;
  h_confidence : float;
  h_note : string;
  h_hold : option pydict;
  h_decision_id : option string;
  h_anchor_sha256 : option string;
  h_tenant_id : list N
}.
Record feed := { f_action_type : string; f_recipient : option string; f_tenant : string; f_decision_id : option string; f_reason : string }.
Record local_feed := { l_action_type : string; l_recipient : string; l_agent_id : string; l_tenant : string }.
(** What is sealed of a floor ruling. *)
Record floor_fact := {
  ff_verdict : Verdict;
  ff_scope : option scope;
  ff_reason : string;
  ff_reason_code : option string;
  ff_action_type : string;
  ff_channel : string;
  ff_environment : string;
  ff_recipient : option string;
  ff_tenant : list N;
  ff_agent_id : option string;
  ff_decision_id : string
}.

Definition UNINSPECTABLE_ACTION_TYPES : list string := ["https_opaque"; "http_opaque_body"].

Section Decide.
Context {S E L : Type}.
(** The deep evaluator, when one is wired; the ledger's sealing of a floor ruling, with
    the hash of its record unless it fails; the digest of a surface's tool constraint,
    unless compiling it fails. *)
Context (evaluate : option (EvaluationRequest -> stM S E EvaluationResponse)).
Context (seal : floor_fact -> L -> option string * L) (constraint_digest : CapabilitySurface -> option string).
Context (reg : registry) (default_channel default_environment : string).

(** The state of the deep evaluator, the calls made to the sinks that are wired, the
    ledger, and the tenants that are governed with the time they were activated. *)
Record standing := {
  s_deep : S;
  s_held : option (list HeldDecision);
  s_feeds : option (list feed);
  s_local_feeds : option (list local_feed);
  s_ledger : option L;
  s_active : gmap (list N) string
}.
Definition set_deep (x : S) (s : standing) : standing := {|
  s_deep := x; s_held := s_held s; s_feeds := s_feeds s; s_local_feeds := s_local_feeds s; s_ledger := s_ledger s; s_active := s_active s |}.
Definition set_ledger (x : option L) (s : standing) : standing := {|
  s_deep := s_deep s; s_held := s_held s; s_feeds := s_feeds s; s_local_feeds := s_local_feeds s; s_ledger := x; s_active := s_active s |}.
Definition raise_hold (h : HeldDecision) (s : standing) : standing := {|
  s_deep := s_deep s; s_held := (fun l => l ++ [h]) <$> s_held s; s_feeds := s_feeds s; s_local_feeds := s_local_feeds s;
  s_ledger := s_ledger s; s_active := s_active s |}.

(** What a call draws: the ids and the time of a request. *)
Record draws := { id_request : string; id_floor : string; now_us : Z }.
(** The action as it is judged, with the defaults filled in. *)
Record action := {
  a_tenant : list N;
  a_type : string;
  a_content : string;
  a_channel : string;
  a_environment : string;
  a_recipient : option string;
  a_session : option string;
  a_external : option string
}.

(** [tenant or "default"]. *)
Definition held_tenant (x : action) : list N := if bool_decide (a_tenant x = []) then fold "default" else a_tenant x.

Definition seal_floor (dr : draws) (v : Verdict) (sc : option scope) (why : string) (code : option string) (x : action)
    (agent : option string) (s : standing) : option string * option string * standing :=
  match s_ledger s with
  | None => (None, None, s)
  | Some l =>
      let fact := {| ff_verdict := v; ff_scope := sc; ff_reason := why; ff_reason_code := code; ff_action_type := a_type x;
                     ff_channel := a_channel x; ff_environment := a_environment x; ff_recipient := a_recipient x;
                     ff_tenant := a_tenant x; ff_agent_id := agent; ff_decision_id := id_floor dr |} in
      let '(h, l') := seal fact l in
      (Some (id_floor dr), h, set_ledger (Some l') s)
  end.
(** [ref] names the agent in the sealed fact when it has no identity. *)
Definition forbid_floor (dr : draws) (agent ref : option string) (why : string) (t : tier) (sc : scope) (x : action) (s : standing)
    : DecisionOutcome * standing :=
  let '(did, h, s) := seal_floor dr FORBID (Some sc) why None x (match agent with Some a => Some a | None => ref end) s in
  ({| o_verdict := FORBID; released := false; reason := why; o_tier := t; o_agent_id := agent; o_decision_id := did;
      o_evidence_hash := h; o_held := false; response := None; forbid_scope := Some sc; o_allowed_tools := None;
      surface_seal_hash := None |}, s).

Definition uninspectable_note (x : action) : string :=
  let dest := match a_recipient x with Some r => if nonempty r then r else "an unknown destination" | None => "an unknown destination" end in
  if String.eqb (a_type x) "http_opaque_body"
  then "An agent is sending a request to " +:+ dest +:+ " whose body is in a format I can't decode. I can't see what's inside, so I can't clear it on my own "
         +:+ emdash +:+ " it's yours to decide."
  else "An agent is sending traffic to " +:+ dest +:+ " over a channel I can't read. I can't see what's inside, so I can't clear it on my own "
         +:+ emdash +:+ " it's yours to decide.".
Definition abstain_uninspectable (dr : draws) (agent : string) (x : action) (s : standing) : DecisionOutcome * standing :=
  let code := if String.eqb (a_type x) "http_opaque_body" then "uninspectable_request_body" else "uninspectable_tls_content" in
  let why := "Un-inspectable content; held for a human (not released)." in
  let s := raise_hold {| h_agent_id := agent; h_kind := a_type x; h_confidence := f_zero; h_note := uninspectable_note x; h_hold := None;
                         h_decision_id := None; h_anchor_sha256 := None; h_tenant_id := held_tenant x |} s in
  let '(did, h, s) := seal_floor dr ABSTAIN None why (Some code) x (Some agent) s in
  ({| o_verdict := ABSTAIN; released := false; reason := why; o_tier := Floor; o_agent_id := Some agent; o_decision_id := did;
      o_evidence_hash := h; o_held := true; response := None; forbid_scope := None; o_allowed_tools := None; surface_seal_hash := None |}, s).

(** The response carries no metadata, so no hold is found on it. *)
Definition extract_hold (r : EvaluationResponse) : option pydict := None.
(** Who is acting, as spoken. *)
Definition spoken_agent (a : Agent) (ext : option string) : option string :=
  let e := strip (default "" ext) in
  if nonempty e then Some e else let n := strip (name a) in if nonempty n then Some n else None.
Definition deep_outcome (v : Verdict) (rel : bool) (why : string) (a : Agent) (held : bool) (sc : option scope) (r : EvaluationResponse) : DecisionOutcome := {|
  o_verdict := v; released := rel; reason := why; o_tier := Deep; o_agent_id := Some (agent_id a); o_decision_id := Some (decision_id r);
  o_evidence_hash := evidence_hash r; o_held := held; response := Some r; forbid_scope := sc; o_allowed_tools := None; surface_seal_hash := None |}.
Definition deep_error (dr : draws) (a : Agent) (x : action) (s : standing) : DecisionOutcome * standing :=
  forbid_floor dr (Some (agent_id a)) None "Deep adjudication raised; failing closed." Deep DeepError x s.
Definition deep_hold_note (hold : option pydict) (x : action) : string :=
  match hold ≫= dict_get "sentence" with
  | Some (PStr n) => if nonempty n then n else "I need to know if I can let this through (" +:+ a_type x +:+ "). It's yours to decide."
  | _ => "I need to know if I can let this through (" +:+ a_type x +:+ "). It's yours to decide."
  end.
Definition adjudicate_deep (dr : draws) (execute : EvaluationRequest -> stM S E EvaluationResponse) (a : Agent) (x : action) (s : standing)
    : DecisionOutcome * standing :=
  match new_request (id_request dr) (a_type x) (a_content x) (a_recipient x) (a_channel x) (a_environment x)
          (match spoken_agent a (a_external x) with Some n => [("agent", PStr n)] | None => [] end)
          None (Some (agent_id a)) (a_session x) None (now_us dr) with
  | None => deep_error dr a x s
  | Some req =>
      match execute req (s_deep s) with
      | (Err _, d) => deep_error dr a x (set_deep d s)
      | (Ok r, d) =>
          let s := set_deep d s in
          match verdict r with
          | PERMIT => (deep_outcome PERMIT true "Released by full adjudication." a false None r, s)
          | ABSTAIN =>
              let hold := extract_hold r in
              (deep_outcome ABSTAIN false "Held for a human; not released." a true None r,
               raise_hold {| h_agent_id := agent_id a; h_kind := a_type x; h_confidence := confidence r; h_note := deep_hold_note hold x;
                             h_hold := hold; h_decision_id := Some (decision_id r); h_anchor_sha256 := evidence_hash r;
                             h_tenant_id := held_tenant x |} s)
          | FORBID => (deep_outcome FORBID false "Forbidden by full adjudication." a false (Some DeepScope) r, s)
          end
      end
  end.

Definition attach_surface_piggyback (surface : option CapabilitySurface) (o : DecisionOutcome) : DecisionOutcome :=
  match surface with
  | None => o
  | Some sf =>
      if bool_decide (allowed_tools sf = []) then o
      else match constraint_digest sf with
           | None => o
           | Some h => {| o_verdict := o_verdict o; released := released o; reason := reason o; o_tier := o_tier o; o_agent_id := o_agent_id o;
                          o_decision_id := o_decision_id o; o_evidence_hash := o_evidence_hash o; o_held := o_held o; response := response o;
                          forbid_scope := forbid_scope o; o_allowed_tools := Some (allowed_tools sf); surface_seal_hash := Some h |}
           end
  end.

(** [a or b] on texts. *)
Definition or_default (s : option string) (d : string) : string := match s with Some s => if nonempty s then s else d | None => d end.
Definition decide_core (dr : draws) (tenant act content : string) (chan envt recip id ext session : option string) (s : standing)
    : DecisionOutcome * standing :=
  let x := {| a_tenant := fold tenant; a_type := act; a_content := content; a_channel := or_default chan default_channel;
              a_environment := or_default envt default_environment; a_recipient := recip; a_session := session; a_external := ext |} in
  let ref := match ext with Some e => if nonempty e then Some e else id | None => id end in
  match resolve_agent reg (a_tenant x) id ext with
  | None => forbid_floor dr None ref "No sealed identity for this agent. Forbidding until discovery seals it." Floor Identity x s
  | Some a =>
      if negb (is_governable a)
      then forbid_floor dr (Some (agent_id a)) None "Agent is not in a running, governable state." Floor Lifecycle x s
      else if match capability_surface a with Some sf => negb (within_surface sf act (a_channel x) (a_environment x) recip) | None => false end
      then forbid_floor dr (Some (agent_id a)) None "Action falls outside the agent's sealed capability surface." Floor Surface x s
      else if bool_decide (act ∈ UNINSPECTABLE_ACTION_TYPES) then abstain_uninspectable dr (agent_id a) x s
      else match evaluate with
           | None => forbid_floor dr (Some (agent_id a)) None
                       "Deep adjudication unavailable; refusing to release on the structural floor alone." Floor DeepError x s
           | Some execute =>
               let '(o, s) := adjudicate_deep dr execute a x s in
               (if released o then attach_surface_piggyback (capability_surface a) o else o, s)
           end
  end.

Definition maybe_feed_forbid_set (o : DecisionOutcome) (act : string) (recip : option string) (tenant : string) (s : standing) : standing :=
  if bool_decide (o_verdict o = FORBID) && bool_decide (forbid_scope o = Some Surface \/ forbid_scope o = Some DeepScope)
  then {| s_deep := s_deep s; s_held := s_held s;
          s_feeds := (fun l => l ++ [{| f_action_type := act; f_recipient := recip; f_tenant := tenant; f_decision_id := o_decision_id o;
                                        f_reason := reason o |}]) <$> s_feeds s;
          s_local_feeds := s_local_feeds s; s_ledger := s_ledger s; s_active := s_active s |}
  else s.
Definition maybe_feed_local_forbid_set (o : DecisionOutcome) (act : string) (recip id : option string) (tenant : string) (s : standing) : standing :=
  match o_verdict o, recip, id with
  | FORBID, Some r, Some i =>
      if nonempty r
      then {| s_deep := s_deep s; s_held := s_held s; s_feeds := s_feeds s;
              s_local_feeds := (fun l => l ++ [{| l_action_type := act; l_recipient := r; l_agent_id := i; l_tenant := tenant |}]) <$> s_local_feeds s;
              s_ledger := s_ledger s; s_active := s_active s |}
      else s
  | _, _, _ => s
  end.
Definition decide (dr : draws) (tenant act content : string) (chan envt recip id ext session : option string) (s : standing)
    : DecisionOutcome * standing :=
  let '(o, s) := decide_core dr tenant act content chan envt recip id ext session s in
  let s := maybe_feed_forbid_set o act recip tenant s in
  (o, maybe_feed_local_forbid_set o act recip id tenant s).
Definition decide_for_request (dr : draws) (r : EvaluationRequest) (tenant : option string) (s : standing) : DecisionOutcome * standing :=
  let t := or_default tenant (or_default (tenant_id <$> agent_identity r) "default") in
  decide dr t (action_type r) (content r) (Some (channel r)) (Some (environment r)) (recipient r) (req_agent_id r)
    (agent_identity r ≫= external_agent_id) (session_id r) s.

(** *** Activation *)

Record GovernedPosture := { p_tenant : list N; governed : nat; observed : nat; active_since : option string }.
Definition is_active (tenant : string) (s : standing) : bool := bool_decide (is_Some (s_active s !! fold tenant)).
Definition posture (tenant : string) (s : standing) : GovernedPosture :=
  let agents := list_tenant_agents reg (fold tenant) in
  {| p_tenant := fold tenant; governed := length (List.filter is_governable agents); observed := length agents;
     active_since := s_active s !! fold tenant |}.
Definition ungoverned (p : GovernedPosture) : nat := observed p - governed p.
(** [allowed] is the ruling of the controller's own governance on the change. *)
Definition activate (allowed : list N -> bool) (now tenant : string) (s : standing) : GovernedPosture * standing :=
  if bool_decide (fold tenant = []) then ({| p_tenant := []; governed := 0; observed := 0; active_since := None |}, s)
  else
    let s := if allowed (fold tenant) && bool_decide (s_active s !! fold tenant = None)
             then {| s_deep := s_deep s; s_held := s_held s; s_feeds := s_feeds s; s_local_feeds := s_local_feeds s; s_ledger := s_ledger s;
                     s_active := <[fold tenant := now]> (s_active s) |}
             else s in
    (posture tenant s, s).
End Decide.
End Standing.

(** ** The gate *)
Module ToolGate.
Import Requests Standing.

Inductive AbstainPolicy := BLOCK | ALLOW | REVIEW.
#[export] Instance policy_eq_dec : EqDecision AbstainPolicy.
Proof. solve_decision. Defined.
Definition policy_value (p : AbstainPolicy) : string := match p with BLOCK => "BLOCK" | ALLOW => "ALLOW" | REVIEW => "REVIEW" end.

Record TransportResult := { t_response : option EvaluationResponse; t_error : option string; t_details : pydict }.
(** The exceptions of the gate; [ValidationError] is pydantic's on the request. *)
Inductive gate_exn :=
| TexForbiddenError (r : EvaluationResponse)
| TexAbstainError (r : EvaluationResponse)
| TexUnavailableError (e : option string)
| ValidationError
| TypeError
| ValueError.
Record GateEvent := {
  ev_request_id : string;
  ev_action_type : string;
  ev_channel : string;
  ev_environment : string;
  ev_recipient : option string;
  ev_agent_id : option string;
  ev_verdict : string;
  ev_decision_id : option string;
  ev_fingerprint : option string;
  ev_final_score : option float;
  ev_confidence : option float;
  ev_outcome : string;
  ev_abstain_policy : string;
  ev_fail_closed : bool;
  ev_details : pydict
}.

(** *** Transports *)

Section Transports.
Context {S E : Type} (error_text : E -> string).

(** [DirectCommandTransport] and [CallableTransport]: any exception is "unavailable". *)
Definition call_transport (details : pydict) (execute : EvaluationRequest -> stM S E EvaluationResponse) (r : EvaluationRequest) (s : S)
    : TransportResult * S :=
  match execute r s with
  | (Ok x, s) => ({| t_response := Some x; t_error := None; t_details := details |}, s)
  | (Err e, s) => ({| t_response := None; t_error := Some (error_text e); t_details := details |}, s)
  end.
Definition direct_transport : (EvaluationRequest -> stM S E EvaluationResponse) -> EvaluationRequest -> S -> TransportResult * S :=
  call_transport [("transport", PStr "direct")].
Definition callable_transport (label : string) : (EvaluationRequest -> stM S E EvaluationResponse) -> EvaluationRequest -> S -> TransportResult * S :=
  call_transport [("transport", PStr "callable"); ("label", PStr label)].
(** What the client's [post] answers: a status, a text that may fail to be read, and the
    body as a response, or the error of reading it. *)
Record HttpResponse := { status_code : option Z; body_text : option string; body : result E EvaluationResponse }.
Definition http_transport (url : string) (post : EvaluationRequest -> stM S E HttpResponse) (r : EvaluationRequest) (s : S) : TransportResult * S :=
  let base := [("transport", PStr "http"); ("url", PStr url)] in
  match post r s with
  | (Err e, s) => ({| t_response := None; t_error := Some (error_text e); t_details := base |}, s)
  | (Ok h, s) =>
      let details := base ++ [("status_code", match status_code h with Some c => PInt c | None => PNone end)] in
      let failed := {| t_response := None; t_error := Some ("HTTP " +:+ match status_code h with Some c => PyFormat.z_str c | None => "None" end
                         +:+ ": " +:+ substring 0 500 (default "" (body_text h))); t_details := details |} in
      match status_code h with
      | None => (failed, s)
      | Some c =>
          if (400 <=? c)%Z then (failed, s)
          else match body h with
               | Ok x => ({| t_response := Some x; t_error := None; t_details := details |}, s)
               | Err e => ({| t_response := None; t_error := Some ("response parse failed: " +:+ error_text e); t_details := details |}, s)
               end
      end
  end.
End Transports.

(** A floor ruling as a response; the hash of a ledger record is lower-case hexadecimal,
    which a response leaves as it is. *)
Definition tier_value (t : tier) : string := match t with Floor => "floor" | Deep => "deep" end.
Definition floor_response (fresh : string) (o : DecisionOutcome) : EvaluationResponse :=
  let forbidden := bool_decide (o_verdict o = FORBID) in
  {| decision_id := default fresh (o_decision_id o); verdict := o_verdict o;
     confidence := if forbidden then f_one else f_zero; final_score := if forbidden then f_one else f_zero;
     reasons := [reason o]; uncertainty_flags := if forbidden then [] else ["floor"]; determinism_fingerprint := None;
     policy_version := "standing-floor:" +:+ tier_value (o_tier o); evidence_hash := o_evidence_hash o |}.
(** [StandingGovernanceTransport]: [decide_for_request] raises nothing that is modelled. *)
Definition standing_transport {S} (decide : EvaluationRequest -> S -> DecisionOutcome * S) (fresh : string) (r : EvaluationRequest) (s : S)
    : TransportResult * S :=
  let '(o, s) := decide r s in
  ({| t_response := Some (default (floor_response fresh o) (response o)); t_error := None;
      t_details := [("transport", PStr "standing-governance"); ("tier", PStr (tier_value (o_tier o))); ("held", PBool (o_held o));
                    ("reason", PStr (reason o))] |}, s).

(** *** Checking *)

Section Gate.
Context {S W X V : Type}.
(** What the decision point holds, the events handed to the observer, and the world the
    tools act on. *)
Record env := { g_pdp : S; g_events : list GateEvent; g_world : W }.
Record GateConfig := {
  transport : EvaluationRequest -> S -> TransportResult * S;
  abstain_policy : AbstainPolicy;
  fail_closed : bool;
  default_action_type : string;
  default_chan : string;
  default_env : string
}.
Context (cfg : GateConfig).

(** An observer that raises changes nothing. *)
Definition emit (r : EvaluationRequest) (x : option EvaluationResponse) (outcome : string) (extra : pydict) (s : env) : env :=
  let e := {| ev_request_id := request_id r; ev_action_type := action_type r; ev_channel := channel r; ev_environment := environment r;
              ev_recipient := recipient r; ev_agent_id := req_agent_id r;
              ev_verdict := match x with Some x => verdict_value (verdict x) | None => "UNAVAILABLE" end;
              ev_decision_id := decision_id <$> x; ev_fingerprint := x ≫= determinism_fingerprint; ev_final_score := final_score <$> x;
              ev_confidence := confidence <$> x; ev_outcome := outcome; ev_abstain_policy := policy_value (abstain_policy cfg);
              ev_fail_closed := fail_closed cfg; ev_details := extra |} in
  {| g_pdp := g_pdp s; g_events := g_events s ++ [e]; g_world := g_world s |}.
Definition synthetic_unavailable_response (fresh : string) : EvaluationResponse := {|
  decision_id := fresh; verdict := ABSTAIN; confidence := f_zero; final_score := f_zero;
  reasons := ["Tex transport unavailable; gate operating in fail-open mode."]; uncertainty_flags := ["tex_unavailable"; "fail_open"];
  determinism_fingerprint := None; policy_version := "unavailable"; evidence_hash := None |}.
Definition handle_transport_failure (r : EvaluationRequest) (t : TransportResult) (s : env) : result gate_exn unit * env :=
  let s := emit r None (if fail_closed cfg then "blocked" else "executed")
             (("transport_error", match t_error t with Some e => PStr e | None => PNone end) :: t_details t) s in
  (if fail_closed cfg then Err (TexUnavailableError (t_error t)) else Ok (), s).

(** The arguments of a check. *)
Record call := {
  c_content : string;
  c_action_type : option string;
  c_channel : option string;
  c_environment : option string;
  c_recipient : option string;
  c_agent_id : option string;
  c_session_id : option string;
  c_policy_id : option string;
  c_metadata : pydict
}.
(** The id and time of the request, and an id for a placeholder response. *)
Record gate_draws := { d_request_id : string; d_fresh : string; d_now_us : Z }.
Definition build_request (dr : gate_draws) (c : call) : option EvaluationRequest :=
  new_request (d_request_id dr) (or_default (c_action_type c) (default_action_type cfg)) (c_content c) (c_recipient c)
    (or_default (c_channel c) (default_chan cfg)) (or_default (c_environment c) (default_env cfg)) (c_metadata c) (c_policy_id c)
    (c_agent_id c) (c_session_id c) None (d_now_us dr).
Definition check (dr : gate_draws) (c : call) (s : env) : result gate_exn EvaluationResponse * env :=
  match build_request dr c with
  | None => (Err ValidationError, s)
  | Some r =>
      let '(t, p) := transport cfg r (g_pdp s) in
      let s := {| g_pdp := p; g_events := g_events s; g_world := g_world s |} in
      match t_response t with
      | None =>
          match handle_transport_failure r t s with
          | (Err e, s) => (Err e, s)
          | (Ok _, s) => (Ok (synthetic_unavailable_response (d_fresh dr)), s)
          end
      | Some x =>
          match verdict x with
          | PERMIT => (Ok x, emit r (Some x) "executed" [] s)
          | FORBID => (Err (TexForbiddenError x), emit r (Some x) "blocked" [] s)
          | ABSTAIN =>
              if bool_decide (abstain_policy cfg = ALLOW)
              then (Ok x, emit r (Some x) "executed" [("abstain_overridden", PBool true)] s)
              else (Err (TexAbstainError x), emit r (Some x) (if bool_decide (abstain_policy cfg = REVIEW) then "reviewed" else "blocked") [] s)
          end
      end
  end.

(** *** Wrapping *)

(** How a callable is wrapped: where its content and recipient are, and what it is. *)
Record wrapping := {
  w_content_arg : string;
  w_recipient_arg : option string;
  w_action_type : option string;
  w_channel : option string;
  w_environment : option string;
  w_agent_id : option string
}.
(** Content must be a text, a recipient a text or nothing. *)
Definition call_of (w : wrapping) (content : pyval) (recip : pyval) : option call :=
  match content, recip with
  | PStr c, PStr r => Some {| c_content := c; c_action_type := w_action_type w; c_channel := w_channel w; c_environment := w_environment w;
                              c_recipient := Some r; c_agent_id := w_agent_id w; c_session_id := None; c_policy_id := None; c_metadata := [] |}
  | PStr c, PNone => Some {| c_content := c; c_action_type := w_action_type w; c_channel := w_channel w; c_environment := w_environment w;
                             c_recipient := None; c_agent_id := w_agent_id w; c_session_id := None; c_policy_id := None; c_metadata := [] |}
  | _, _ => None
  end.
(** The check, then the tool. *)
Definition guard (c : option call) (fn : stM W X V) (dr : gate_draws) (s : env) : result (gate_exn + X) V * env :=
  match c with
  | None => (Err (inl ValidationError), s)
  | Some c =>
      match check dr c s with
      | (Err e, s) => (Err (inl e), s)
      | (Ok _, s) =>
          let '(r, w') := fn (g_world s) in
          (match r with Ok v => Ok v | Err e => Err (inr e) end, {| g_pdp := g_pdp s; g_events := g_events s; g_world := w' |})
      end
  end.
(** The tool is given the arguments it was called with. *)
Definition gated (w : wrapping) (fn : list pyval -> pydict -> stM W X V) (dr : gate_draws) (args : list pyval) (kwargs : pydict) (s : env)
    : result (gate_exn + X) V * env :=
  match dict_get (w_content_arg w) kwargs with
  | None => (Err (inl TypeError), s)
  | Some content => guard (call_of w content (default PNone (w_recipient_arg w ≫= fun k => dict_get k kwargs))) (fn args kwargs) dr s
  end.

(** *** Adapters *)

(** A text that is not blank. *)
Definition text_of (v : pyval) : option string := match v with PStr s => if nonempty (strip s) then Some s else None | _ => None end.
Definition with_action (w : wrapping) (a : option string) (chan : option string) : wrapping := {|
  w_content_arg := w_content_arg w; w_recipient_arg := w_recipient_arg w; w_action_type := a; w_channel := chan;
  w_environment := w_environment w; w_agent_id := w_agent_id w |}.
(** The tool of a LangChain agent: content may be its first argument. *)
Definition langchain_run (w : wrapping) (inner_name : string) (fn : list pyval -> pydict -> stM W X V) (dr : gate_draws) (args : list pyval)
    (kwargs : pydict) (s : env) : result (gate_exn + X) V * env :=
  let content := match dict_get (w_content_arg w) kwargs with
                 | Some v => if py_bool v then v else default (PStr "") (head args)
                 | None => default (PStr "") (head args)
                 end in
  match text_of content with
  | None => (Err (inl ValueError), s)
  | Some c => guard (call_of (with_action w (Some (or_default (w_action_type w) inner_name)) (w_channel w)) (PStr c)
                       (default PNone (w_recipient_arg w ≫= fun k => dict_get k kwargs))) (fn args kwargs) dr s
  end.
(** The handler of an MCP tool: content and recipient are in its arguments dict. *)
Definition mcp_wrapped (w : wrapping) (action_type_from chan handler_name : string) (fn : pydict -> list pyval -> pydict -> stM W X V)
    (dr : gate_draws) (arguments : pyval) (args : list pyval) (kwargs : pydict) (s : env) : result (gate_exn + X) V * env :=
  match arguments with
  | PDict d =>
      match dict_get (w_content_arg w) d ≫= text_of with
      | None => (Err (inl ValueError), s)
      | Some c =>
          let a := if String.eqb action_type_from "tool_name" then handler_name else action_type_from in
          guard (call_of (with_action w (Some a) (Some chan)) (PStr c) (default PNone (w_recipient_arg w ≫= fun k => dict_get k d))) (fn d args kwargs) dr s
      end
  | _ => (Err (inl TypeError), s)
  end.
End Gate.
End ToolGate.

(** * Theorems on enforcement *)
Module EnforcementSpec.
Import Requests Standing ToolGate.

(** ** Agents and surfaces *)

Lemma resolve_agent_spec reg t id ext a :
  resolve_agent reg t id ext = Some a ->
  fold (agent_tenant_id a) = t
  /\ ((exists i, id = Some i /\ reg_get reg i = Some a)
      \/ exists e, ext = Some e /\ e <> "" /\ a ∈ list_all reg /\ (a_external_agent_id a = Some e \/ name a = e)).
Proof.
  unfold resolve_agent. intros H.
  assert (Hext : forall x, (e ← ext; if nonempty e
      then List.find (fun a => bool_decide (a_external_agent_id a = Some e) || String.eqb (name a) e) (list_tenant_agents reg t)
      else None) = Some x ->
    fold (agent_tenant_id x) = t /\ exists e, ext = Some e /\ e <> "" /\ x ∈ list_all reg /\ (a_external_agent_id x = Some e \/ name x = e)).
  { intros x Hx. destruct ext as [e|]; [|done]. cbn [mbind option_bind] in Hx. unfold nonempty in Hx.
    destruct (String.eqb_spec e ""); [done|]. apply List.find_some in Hx as [Hin Hm]. unfold list_tenant_agents in Hin.
    apply filter_In in Hin as [Hin Ht]. unfold in_tenant in Ht. apply bool_decide_eq_true in Ht. split; [done|]. exists e.
    rewrite orb_true_iff, bool_decide_eq_true, String.eqb_eq in Hm. split_and!; try done. by apply list_elem_of_In. }
  destruct (id ≫= reg_get reg) as [b|] eqn:Ei.
  - unfold in_tenant in H. case_bool_decide as Hb.
    + assert (b = a) as -> by (destruct (mbind _ ext); by injection H). split; [done|]. left. destruct id as [i|]; [|done]. by exists i.
    + destruct (Hext a) as [? ?]; [by destruct (mbind _ ext)|]. by split; [|right].
  - destruct (Hext a) as [? ?]; [by destruct (mbind _ ext)|]. by split; [|right].
Qed.

(** ** Release *)

Section Decide.
Context {S E L : Type}.
Context (evaluate : option (EvaluationRequest -> stM S E EvaluationResponse)).
Context (seal : floor_fact -> L -> option string * L) (constraint_digest : CapabilitySurface -> option string).
Context (reg : registry) (default_channel default_environment : string).
Abbreviation decide := (decide evaluate seal constraint_digest reg default_channel default_environment).
Abbreviation decide_core := (decide_core evaluate seal constraint_digest reg default_channel default_environment).
Abbreviation decide_for_request := (decide_for_request evaluate seal constraint_digest reg default_channel default_environment).

(** The one way to a release: a known agent of the tenant that is running, an action
    inside its surface whose content could be read, and a deep evaluation that permits. *)
Definition cleared (dr : draws) (tenant act content : string) (chan envt recip id ext session : option string) (s : @standing S L) : Prop :=
  exists a execute req r,
    resolve_agent reg (fold tenant) id ext = Some a
    /\ is_governable a = true
    /\ (forall sf, capability_surface a = Some sf ->
          within_surface sf act (or_default chan default_channel) (or_default envt default_environment) recip = true)
    /\ (act ∉ UNINSPECTABLE_ACTION_TYPES)
    /\ evaluate = Some execute
    /\ new_request (id_request dr) act content recip (or_default chan default_channel) (or_default envt default_environment)
         (match spoken_agent a ext with Some n => [("agent", PStr n)] | None => [] end) None (Some (agent_id a)) session None (now_us dr)
       = Some req
    /\ (execute req (s_deep s)).1 = Ok r
    /\ verdict r = PERMIT.
(** An outcome is released exactly when its verdict is PERMIT; its response, if there is
    one, carries its verdict. *)
Definition coherent (o : DecisionOutcome) : Prop :=
  released o = bool_decide (o_verdict o = PERMIT) /\ (forall r, response o = Some r -> verdict r = o_verdict o).

Lemma forbid_floor_outcome dr agent ref why t sc x (s : @standing S L) :
  let o := (forbid_floor seal dr agent ref why t sc x s).1 in
  o_verdict o = FORBID /\ released o = false /\ coherent o /\ forbid_scope o = Some sc /\ o_held o = false.
Proof. unfold forbid_floor. destruct (seal_floor _ _ _ _ _ _ _ _ _) as [[did h] s']. by split_and!. Qed.
Lemma abstain_outcome dr agent x (s : @standing S L) :
  let o := (abstain_uninspectable seal dr agent x s).1 in
  o_verdict o = ABSTAIN /\ released o = false /\ coherent o /\ forbid_scope o = None /\ o_held o = true.
Proof. unfold abstain_uninspectable. destruct (seal_floor _ _ _ _ _ _ _ _ _) as [[did h] s']. by split_and!. Qed.
Lemma piggyback_outcome sf o :
  let o' := attach_surface_piggyback constraint_digest sf o in
  released o' = released o /\ o_verdict o' = o_verdict o /\ response o' = response o.
Proof. unfold attach_surface_piggyback. destruct sf as [sf|]; [|done]. case_bool_decide; [done|]. by destruct (constraint_digest sf). Qed.

Lemma adjudicate_deep_released dr (execute : EvaluationRequest -> stM S E EvaluationResponse) a x (s : @standing S L) :
  let o := (adjudicate_deep seal dr execute a x s).1 in
  coherent o
  /\ (released o = true <-> exists req r,
        new_request (id_request dr) (a_type x) (a_content x) (a_recipient x) (a_channel x) (a_environment x)
          (match spoken_agent a (a_external x) with Some n => [("agent", PStr n)] | None => [] end)
          None (Some (agent_id a)) (a_session x) None (now_us dr) = Some req
        /\ (execute req (s_deep s)).1 = Ok r /\ verdict r = PERMIT).
Proof.
  unfold adjudicate_deep, deep_error. destruct (new_request _ _ _ _ _ _ _ _ _ _ _ _) as [req|].
  2: { match goal with |- context [forbid_floor ?f ?d ?a ?b ?c ?e ?g ?h ?i] => destruct (forbid_floor_outcome d a b c e g h i) as (_&Hr&Hc&_) end.
       split; [done|]. rewrite Hr. split; [done|]. by intros (?&?&?&_). }
  destruct (execute req (s_deep s)) as [[r|e] d] eqn:Ex.
  2: { match goal with |- context [forbid_floor ?f ?d ?a ?b ?c ?e ?g ?h ?i] => destruct (forbid_floor_outcome d a b c e g h i) as (_&Hr&Hc&_) end.
       split; [done|]. rewrite Hr. split; [done|]. intros (?&?&[= <-]&H&_). by rewrite Ex in H. }
  assert (Hiff : (verdict r = PERMIT) <-> exists req0 r0, Some req = Some req0 /\ (execute req0 (s_deep s)).1 = Ok r0 /\ verdict r0 = PERMIT).
  { split; [intros H; exists req, r; by rewrite Ex|]. intros (?&?&[= <-]&H&Hv). rewrite Ex in H. by injection H as ->. }
  destruct (verdict r) eqn:Ev; (split; [split; [done|by intros ? [= <-]]|]); rewrite <- Hiff; by split.
Qed.

Lemma decide_core_released dr tenant act content chan envt recip id ext session (s : @standing S L) :
  let o := (decide_core dr tenant act content chan envt recip id ext session s).1 in
  coherent o /\ (released o = true <-> cleared dr tenant act content chan envt recip id ext session s).
Proof.
  assert (Hfloor : forall agent ref why t sc x, ~ cleared dr tenant act content chan envt recip id ext session s ->
    let o := (forbid_floor seal dr agent ref why t sc x s).1 in
    coherent o /\ (released o = true <-> cleared dr tenant act content chan envt recip id ext session s)).
  { intros agent ref why t sc x Hn o. destruct (forbid_floor_outcome dr agent ref why t sc x s) as (_&Hr&Hc&_). split; [done|].
    subst o. rewrite Hr. by split. }
  unfold Standing.decide_core. cbv zeta. cbn [a_tenant a_channel a_environment].
  destruct (resolve_agent reg (fold tenant) id ext) as [a|] eqn:Er; [|apply Hfloor; intros (?&?&?&?&H&_); by rewrite Er in H].
  destruct (is_governable a) eqn:Eg; [|apply Hfloor; intros (?&?&?&?&H&Hg&_); rewrite Er in H; injection H as <-; by rewrite Eg in Hg].
  cbn [negb].
  destruct (match capability_surface a with Some sf => _ | None => _ end) eqn:Es.
  { apply Hfloor; intros (?&?&?&?&H&_&Hs&_); rewrite Er in H; injection H as <-. destruct (capability_surface a) as [sf|]; [|done].
    by rewrite (Hs sf) in Es. }
  case_bool_decide as Hu.
  { match goal with |- context [abstain_uninspectable ?f ?d ?a ?b ?c] => destruct (abstain_outcome d a b c) as (_&Hr&Hc&_) end.
    split; [done|]. rewrite Hr. split; [done|]. intros (?&?&?&?&_&_&_&H&_). done. }
  destruct evaluate as [execute|] eqn:Ee; [|apply Hfloor; intros (?&?&?&?&_&_&_&_&H&_); congruence].
  match goal with |- context [adjudicate_deep ?f ?d ?a ?b ?c ?e] =>
    pose proof (adjudicate_deep_released d a b c e) as [Hc Hr]; destruct (adjudicate_deep f d a b c e) as [o s1] end.
  cbn [fst] in *.
  assert (Ho : let o' := if released o then attach_surface_piggyback constraint_digest (capability_surface a) o else o in
               released o' = released o /\ coherent o').
  { destruct (released o) eqn:Erel; [|done]. destruct (piggyback_outcome (capability_surface a) o) as (H1&H2&H3).
    split; [by rewrite H1|]. destruct Hc as [Hc1 Hc2]. split; [by rewrite H1, H2|]. intros r. rewrite H2, H3. apply Hc2. }
  destruct Ho as [Ho1 Ho2]. split; [done|]. rewrite Ho1, Hr. cbn [a_type a_content a_recipient a_channel a_environment a_external a_session].
  split.
  - intros (req&r&Hn&Hx&Hv). exists a, execute, req, r. split_and!; try done. intros sf Hsf. rewrite Hsf in Es. by apply negb_false_iff.
  - intros (a'&execute'&req&r&Ha&_&_&_&He&Hn&Hx&Hv). rewrite Er in Ha. injection Ha as <-. rewrite Ee in He. injection He as <-.
    by exists req, r.
Qed.

Lemma decide_outcome dr tenant act content chan envt recip id ext session (s : @standing S L) :
  (decide dr tenant act content chan envt recip id ext session s).1 = (decide_core dr tenant act content chan envt recip id ext session s).1.
Proof. unfold Standing.decide. by destruct (Standing.decide_core _ _ _ _ _ _ _ _ _ _ _ _ _ _ _ _ _). Qed.

Lemma decide_sound dr tenant act content chan envt recip id ext session (s : @standing S L) :
  let o := (decide dr tenant act content chan envt recip id ext session s).1 in
  coherent o /\ (released o = true <-> cleared dr tenant act content chan envt recip id ext session s).
Proof. cbv zeta. rewrite decide_outcome. apply decide_core_released. Qed.

(** *** What the ruling leaves behind *)

(** Nothing a ruling does touches the tenants that are governed. *)
Lemma seal_floor_frame dr v sc why code x agent (s : @standing S L) :
  let s' := (seal_floor seal dr v sc why code x agent s).2 in
  s_deep s' = s_deep s /\ s_held s' = s_held s /\ s_feeds s' = s_feeds s /\ s_local_feeds s' = s_local_feeds s /\ s_active s' = s_active s.
Proof. unfold seal_floor. destruct (s_ledger s) as [l|]; [|done]. by destruct (seal _ l). Qed.
Lemma forbid_floor_frame dr agent ref why t sc x (s : @standing S L) :
  let s' := (forbid_floor seal dr agent ref why t sc x s).2 in
  s_deep s' = s_deep s /\ s_held s' = s_held s /\ s_feeds s' = s_feeds s /\ s_local_feeds s' = s_local_feeds s /\ s_active s' = s_active s.
Proof.
  unfold forbid_floor. pose proof (seal_floor_frame dr FORBID (Some sc) why None x (match agent with Some a => Some a | None => ref end) s) as H.
  by destruct (seal_floor _ _ _ _ _ _ _ _ _) as [[did h] s'].
Qed.
Lemma abstain_frame dr agent x (s : @standing S L) :
  let s' := (abstain_uninspectable seal dr agent x s).2 in
  s_deep s' = s_deep s /\ s_feeds s' = s_feeds s /\ s_local_feeds s' = s_local_feeds s /\ s_active s' = s_active s
  /\ exists h, s_held s' = (fun l => l ++ [h]) <$> s_held s.
Proof.
  unfold abstain_uninspectable. match goal with |- context [seal_floor ?f ?d ?v ?c ?w ?o ?x ?a ?s] =>
    pose proof (seal_floor_frame d v c w o x a s) as H; destruct (seal_floor f d v c w o x a s) as [[did h] s'] end.
  destruct H as (H1&H2&H3&H4&H5). cbn [fst snd] in *. split_and!; try done. eexists. exact H2.
Qed.
(** What happens to the held decisions: one more exactly for a held outcome. *)
Definition held_exact (o : DecisionOutcome) (s s' : @standing S L) : Prop :=
  s_active s' = s_active s
  /\ (if o_held o then exists h, s_held s' = (fun l => l ++ [h]) <$> s_held s else s_held s' = s_held s)
  /\ (o_held o = true <-> o_verdict o = ABSTAIN).
Lemma forbid_floor_held dr agent ref why t sc x (s : @standing S L) :
  let r := forbid_floor seal dr agent ref why t sc x s in
  held_exact r.1 s r.2 /\ s_feeds r.2 = s_feeds s /\ forbid_scope r.1 = Some sc /\ o_verdict r.1 = FORBID.
Proof.
  pose proof (forbid_floor_outcome dr agent ref why t sc x s) as (Hv&_&_&Hs&Hh). pose proof (forbid_floor_frame dr agent ref why t sc x s) as (_&H2&H3&_&H5).
  cbv zeta in *. split; [|done]. unfold held_exact. rewrite Hh, Hv. split_and!; [done..|by split].
Qed.
Lemma adjudicate_deep_held dr (execute : EvaluationRequest -> stM S E EvaluationResponse) a x (s : @standing S L) :
  let r := adjudicate_deep seal dr execute a x s in held_exact r.1 s r.2 /\ s_feeds r.2 = s_feeds s.
Proof.
  unfold adjudicate_deep, deep_error. destruct (new_request _ _ _ _ _ _ _ _ _ _ _ _) as [req|].
  2: { match goal with |- context [forbid_floor ?f ?d ?a ?b ?c ?e ?g ?h ?i] => destruct (forbid_floor_held d a b c e g h i) as (?&?&_) end. done. }
  destruct (execute req (s_deep s)) as [[r|e] d].
  2: { match goal with |- context [forbid_floor ?f ?d ?a ?b ?c ?e ?g ?h ?i] => destruct (forbid_floor_held d a b c e g h i) as (?&?&_) end. done. }
  destruct (verdict r); (split; [split_and!; [done | first [done | eexists; reflexivity] | by split]|done]).
Qed.
Lemma decide_core_held dr tenant act content chan envt recip id ext session (s : @standing S L) :
  let r := decide_core dr tenant act content chan envt recip id ext session s in held_exact r.1 s r.2 /\ s_feeds r.2 = s_feeds s.
Proof.
  assert (Hf : forall agent ref why t sc x, let r := forbid_floor seal dr agent ref why t sc x s in held_exact r.1 s r.2 /\ s_feeds r.2 = s_feeds s).
  { intros. by destruct (forbid_floor_held dr agent ref why t sc x s) as (?&?&_). }
  unfold Standing.decide_core. cbv zeta. destruct (resolve_agent reg _ id ext) as [a|]; [|apply Hf].
  destruct (negb (is_governable a)); [apply Hf|]. destruct (match capability_surface a with Some sf => _ | None => _ end); [apply Hf|].
  case_bool_decide as Hu.
  { match goal with |- context [abstain_uninspectable ?f ?d ?a ?b ?c] =>
      pose proof (abstain_outcome d a b c) as (Hv&_&_&_&Hh); pose proof (abstain_frame d a b c) as (_&H3&_&H5&H6) end.
    split; [|done]. unfold held_exact. rewrite Hh, Hv. split_and!; [done..|by split]. }
  destruct evaluate as [execute|]; [|apply Hf].
  match goal with |- context [adjudicate_deep ?f ?d ?a ?b ?c ?e] => pose proof (adjudicate_deep_held d a b c e) as H; destruct (adjudicate_deep f d a b c e) as [o s'] end.
  cbn [fst snd] in *. destruct (released o); [|done]. unfold attach_surface_piggyback. destruct (capability_surface a) as [sf|]; [|done].
  case_bool_decide; [done|]. by destruct (constraint_digest sf).
Qed.
(** A hold is raised exactly for an outcome that is held, which is one that abstains; the
    hot set is fed exactly by a FORBID that the destination explains, and the tenants
    that are governed are left as they are. *)
Lemma decide_leaves dr tenant act content chan envt recip id ext session (s : @standing S L) :
  let r := decide dr tenant act content chan envt recip id ext session s in
  held_exact r.1 s r.2
  /\ s_feeds r.2 = (if bool_decide (o_verdict r.1 = FORBID) && bool_decide (forbid_scope r.1 = Some Surface \/ forbid_scope r.1 = Some DeepScope)
                    then (fun l => l ++ [{| f_action_type := act; f_recipient := recip; f_tenant := tenant; f_decision_id := o_decision_id r.1;
                                            f_reason := reason r.1 |}]) <$> s_feeds s
                    else s_feeds s).
Proof.
  pose proof (decide_core_held dr tenant act content chan envt recip id ext session s) as H. unfold Standing.decide.
  destruct (Standing.decide_core _ _ _ _ _ _ _ _ _ _ _ _ _ _ _ _ _) as [o s1]. cbn [fst snd] in *. destruct H as [(Ha&Hh&Hv) Hf].
  assert (Hl : forall s, let s' := maybe_feed_local_forbid_set o act recip id tenant s in
    s_active s' = s_active s /\ s_held s' = s_held s /\ s_feeds s' = @s_feeds S L s).
  { intros s0. unfold maybe_feed_local_forbid_set. destruct (o_verdict o), recip as [r|], id as [i|]; try done. by destruct (nonempty r). }
  destruct (Hl (maybe_feed_forbid_set o act recip tenant s1)) as (L1&L2&L3). unfold held_exact. rewrite L1, L2, L3.
  unfold maybe_feed_forbid_set. rewrite <- Hf. by destruct (_ && _).
Qed.

(** *** Activation *)

Lemma activate_spec allowed now tenant (s : @standing S L) :
  let '(p, s') := activate reg allowed now tenant s in
  governed p + ungoverned p = observed p
  /\ (forall t, s_active s' !! t = match s_active s !! t with
                                   | Some since => Some since
                                   | None => if bool_decide (t = fold tenant /\ t <> []) && allowed t then Some now else None
                                   end).
Proof.
  unfold activate. case_bool_decide as Ht.
  { split; [done|]. intros t. rewrite bool_decide_eq_false_2 by (intros [-> ?]; done). by destruct (s_active s !! t). }
  split.
  - unfold ungoverned, posture. cbn [governed observed].
    pose proof (filter_length_le is_governable (list_tenant_agents reg (fold tenant))). lia.
  - intros t. destruct (base.decide (t = fold tenant)) as [->|Hne].
    + rewrite (bool_decide_eq_true_2 (fold tenant = fold tenant /\ fold tenant <> [])) by done. cbn [andb].
      destruct (s_active s !! fold tenant) as [since|] eqn:Es.
      * rewrite bool_decide_eq_false_2 by done. by rewrite andb_false_r.
      * rewrite bool_decide_eq_true_2 by done. rewrite andb_true_r. destruct (allowed (fold tenant)); [|done].
        cbn [s_active]. by rewrite lookup_insert_eq.
    + rewrite (bool_decide_eq_false_2 (t = fold tenant /\ t <> [])) by (intros [? _]; done). cbn [andb].
      destruct (allowed (fold tenant) && _); cbn [s_active]; rewrite ?lookup_insert_ne by done; by destruct (s_active s !! t).
Qed.
End Decide.

(** ** Transports *)

(** An answer is taken over HTTP exactly when one came with a status below 400 whose body
    could be read: a redirection counts as one. *)
Lemma http_answered {S E} (error_text : E -> string) url post r (s : S) x :
  t_response (http_transport error_text url post r s).1 = Some x
  <-> exists h c s', post r s = (Ok h, s') /\ status_code h = Some c /\ (c < 400)%Z /\ body h = Ok x.
Proof.
  unfold http_transport. destruct (post r s) as [[h|e] s'] eqn:Ep; [|split; [done|by intros (?&?&?&?&_)]].
  destruct (status_code h) as [c|] eqn:Es; [|split; [done|intros (?&?&?&[= <- <-]&?&_); congruence]].
  destruct (Z.leb_spec 400 c).
  - split; [done|]. intros (?&c'&?&[= <- <-]&Hc&Hl&_). rewrite Es in Hc. injection Hc as <-. lia.
  - destruct (body h) as [y|e] eqn:Eb; cbn.
    + split; [intros [= <-]; by exists h, c, s'|]. intros (?&?&?&[= <- <-]&_&_&Hb). rewrite Eb in Hb. by injection Hb as ->.
    + split; [done|]. intros (?&?&?&[= <- <-]&_&_&Hb). by rewrite Eb in Hb.
Qed.

(** ** The gate *)

Section Gate.
Context {S W X V : Type} (cfg : @GateConfig S).

(** What lets a call through: a permit, an abstention the gate is told to allow, or no
    answer when the gate fails open. *)
Definition admits (t : TransportResult) : bool :=
  match verdict <$> t_response t with
  | None => negb (fail_closed cfg)
  | Some PERMIT => true
  | Some FORBID => false
  | Some ABSTAIN => bool_decide (abstain_policy cfg = ALLOW)
  end.
(** What the gate does with a request, as one event. *)
Definition decided (req : EvaluationRequest) (s : @env S W) (out : result gate_exn EvaluationResponse * @env S W) : Prop :=
  let '(t, p) := transport cfg req (g_pdp s) in
  admits t = match out.1 with Ok _ => true | Err _ => false end
  /\ g_world out.2 = g_world s /\ g_pdp out.2 = p
  /\ exists ev, g_events out.2 = g_events s ++ [ev] /\ ev_request_id ev = request_id req
       /\ (ev_outcome ev = "executed" <-> admits t = true).
Lemma check_decided dr c req (s : @env S W) :
  build_request cfg dr c = Some req -> decided req s (check cfg dr c s).
Proof.
  intros Hb. unfold decided, check, admits. rewrite Hb. destruct (transport cfg req (g_pdp s)) as [[resp err det] p]. cbn [t_response].
  destruct resp as [x|]; cbn [fmap option_fmap option_map].
  - destruct (verdict x); try (case_bool_decide; try case_bool_decide); split_and!; try done; eexists; (split; [done|]); by split_and!.
  - unfold handle_transport_failure, emit. destruct (fail_closed cfg); split_and!; try done; eexists; (split; [done|]); by split_and!.
Qed.
(** The request a wrapped call puts to the decision point, if it has one. *)
Definition submitted (w : wrapping) (dr : gate_draws) (kwargs : pydict) : option EvaluationRequest :=
  content ← dict_get (w_content_arg w) kwargs;
  c ← call_of w content (default PNone (w_recipient_arg w ≫= fun k => dict_get k kwargs));
  build_request cfg dr c.

(** What is judged is the text of the call, stripped. *)
Lemma submitted_content dr w c r req :
  call_of w (PStr c) r ≫= build_request cfg dr = Some req -> content req = strip c.
Proof.
  intros H. apply bind_Some in H as (k&Hk&Hb). assert (Hc : c_content k = c) by (unfold call_of in Hk; destruct r; try done; by injection Hk as <-).
  unfold build_request, new_request in Hb. rewrite Hc in Hb.
  repeat match goal with H : mbind _ ?o = Some _ |- _ => destruct o eqn:?; [cbn [mbind option_bind] in H|done] end.
  injection Hb as <-. cbn [content]. match goal with H : norm_content c = Some _ |- _ => unfold norm_content in H;
    destruct (_ && _) in H; [|done]; destruct (String.eqb (strip c) "") in H; [done|]; by injection H as <- end.
Qed.
(** A guarded tool runs exactly when its request is admitted; there is then one event,
    and one that says so.  A call that is not admitted ends in an error of the gate and
    leaves the world as it was; a call that makes no request has no effect. *)
Definition guarded (req : option EvaluationRequest) (fn : stM W X V) (s : @env S W) (out : result (gate_exn + X) V * @env S W) : Prop :=
  match req with
  | None => exists e, out = (Err (inl e), s)
  | Some req =>
      let '(t, p) := transport cfg req (g_pdp s) in
      (exists ev, g_events out.2 = g_events s ++ [ev] /\ ev_request_id ev = request_id req /\ (ev_outcome ev = "executed" <-> admits t = true))
      /\ g_pdp out.2 = p
      /\ (if admits t
          then g_world out.2 = (fn (g_world s)).2 /\ out.1 = match (fn (g_world s)).1 with Ok v => Ok v | Err e => Err (inr e) end
          else g_world out.2 = g_world s /\ exists e, out.1 = Err (inl e))
  end.
Lemma guard_exact c fn dr (s : @env S W) : guarded (c ≫= build_request cfg dr) fn s (guard cfg c fn dr s).
Proof.
  unfold guarded, guard. destruct c as [c|]; cbn [mbind option_bind]; [|by eexists].
  destruct (build_request cfg dr c) as [req|] eqn:Hb; [|unfold check; rewrite Hb; by eexists].
  pose proof (check_decided dr c req s Hb) as H. unfold decided in H. destruct (transport cfg req (g_pdp s)) as [t p].
  destruct (check cfg dr c s) as [res s1]. cbn [fst snd] in H. destruct H as (Ha&Hw&Hp&ev&He&Hi&Ho).
  destruct res as [x|e]; rewrite Ha in *; cbn [fst snd].
  - rewrite <- Hw. destruct (fn (g_world s1)) as [rv w']. split_and!; try done. by exists ev.
  - split_and!; try done; by eexists.
Qed.
Lemma gated_exact w (fn : list pyval -> pydict -> stM W X V) dr args kwargs (s : @env S W) :
  guarded (submitted w dr kwargs) (fn args kwargs) s (gated cfg w fn dr args kwargs s).
Proof.
  unfold submitted, gated. destruct (dict_get (w_content_arg w) kwargs) as [content|]; [apply guard_exact|]. by eexists.
Qed.
(** The adapters guard their tools the same way, with the request of the text found. *)
Lemma langchain_run_exact w inner_name (fn : list pyval -> pydict -> stM W X V) dr args kwargs (s : @env S W) :
  exists req, guarded req (fn args kwargs) s (langchain_run cfg w inner_name fn dr args kwargs s)
  /\ (forall r, req = Some r -> exists c, content r = strip c
        /\ (dict_get (w_content_arg w) kwargs = Some (PStr c) \/ head args = Some (PStr c))).
Proof.
  unfold langchain_run. set (content := match dict_get _ _ with Some v => _ | None => _ end).
  destruct (text_of content) as [c|] eqn:Et; [|exists None; split; [by eexists|done]].
  eexists. split; [apply guard_exact|]. intros r Hr. exists c. split.
  - eapply submitted_content; exact Hr.
  - unfold text_of in Et. destruct content as [ | | | |x| | |] eqn:Ec; try done. unfold nonempty in Et. destruct (String.eqb_spec (strip x) ""); [done|].
    injection Et as <-. subst content. destruct (dict_get (w_content_arg w) kwargs) as [v|] eqn:Ed; [destruct (py_bool v)|].
    + left. by subst v.
    + right. destruct args; [by cbn in Ec; injection Ec as <-|by cbn in *; subst].
    + right. destruct args; [by cbn in Ec; injection Ec as <-|by cbn in *; subst].
Qed.
Lemma mcp_wrapped_exact w from chan handler (fn : pydict -> list pyval -> pydict -> stM W X V) dr d args kwargs (s : @env S W) :
  exists req, guarded req (fn d args kwargs) s (mcp_wrapped cfg w from chan handler fn dr (PDict d) args kwargs s)
  /\ (forall r, req = Some r -> exists c, content r = strip c /\ dict_get (w_content_arg w) d = Some (PStr c)).
Proof.
  unfold mcp_wrapped. destruct (dict_get (w_content_arg w) d ≫= text_of) as [c|] eqn:Et; [|exists None; split; [by eexists|done]].
  eexists. split; [apply guard_exact|]. intros r Hr. exists c. split; [eapply submitted_content; exact Hr|].
  destruct (dict_get (w_content_arg w) d) as [v|]; [|done]. cbn in Et. unfold text_of in Et. destruct v; try done.
  destruct (nonempty _); [by injection Et as ->|done].
Qed.
End Gate.

(** *** The gate on the standing decision point *)

Section Composed.
Context {S E L W X V : Type}.
Context (evaluate : option (EvaluationRequest -> stM S E EvaluationResponse)).
Context (seal : floor_fact -> L -> option string * L) (constraint_digest : CapabilitySurface -> option string).
Context (reg : registry) (default_channel default_environment : string).
Context (dr : draws) (fresh : string) (tenant : option string).

Definition ruling (r : EvaluationRequest) (s : @standing S L) : DecisionOutcome * @standing S L :=
  decide_for_request evaluate seal constraint_digest reg default_channel default_environment dr r tenant s.
Definition standing_gate (policy : AbstainPolicy) (closed : bool) (at_ chan envt : string) : @GateConfig (@standing S L) := {|
  transport := standing_transport ruling fresh; abstain_policy := policy; fail_closed := closed; default_action_type := at_;
  default_chan := chan; default_env := envt |}.
(** The request is cleared for the tenant it is judged under. *)
Definition request_cleared (r : EvaluationRequest) (s : @standing S L) : Prop :=
  cleared evaluate reg default_channel default_environment dr (or_default tenant (or_default (tenant_id <$> agent_identity r) "default"))
    (action_type r) (content r) (Some (channel r)) (Some (environment r)) (recipient r) (req_agent_id r)
    (agent_identity r ≫= external_agent_id) (session_id r) s.
Lemma standing_gate_admits policy closed at_ chan envt req s :
  policy <> ALLOW ->
  admits (standing_gate policy closed at_ chan envt) (standing_transport ruling fresh req s).1 = true <-> request_cleared req s.
Proof.
  intros Hpol. unfold standing_transport. pose proof (decide_sound evaluate seal constraint_digest reg default_channel default_environment dr
    (or_default tenant (or_default (tenant_id <$> agent_identity req) "default")) (action_type req) (content req) (Some (channel req))
    (Some (environment req)) (recipient req) (req_agent_id req) (agent_identity req ≫= external_agent_id) (session_id req) s) as [[Hc1 Hc2] Hr].
  unfold request_cleared. rewrite <- Hr. unfold ruling, decide_for_request in *.
  destruct (Standing.decide _ _ _ _ _ _ _ _ _ _ _ _ _ _ _ _ _) as [o s']. cbn [fst snd] in *. unfold admits. cbn [t_response fmap option_fmap option_map].
  assert (Hv : verdict (default (floor_response fresh o) (response o)) = o_verdict o).
  { destruct (response o) as [r|] eqn:Eo; [by apply Hc2|done]. }
  rewrite Hv, Hc1. cbn [abstain_policy standing_gate]. destruct (o_verdict o); rewrite ?bool_decide_eq_true; split; done.
Qed.

(** C5. Behind a gate on the standing decision point that is not told to let abstentions
    through, a wrapped tool whose call makes a valid request acts on the world exactly
    when the request is cleared: the agent is one the registry holds for the tenant and
    is running, the action lies within its surface, the content could be read, and the
    deep evaluator is wired and permits it.  The tool is then run once, on the arguments
    it was called with, and its result is handed back; otherwise the world is as it was
    and the caller gets an error of the gate.  Either way exactly one event is recorded,
    that of the request, and it says "executed" exactly for a cleared one. *)
Theorem tool_runs_only_cleared policy closed at_ chan envt w (fn : list pyval -> pydict -> stM W X V) gdr args kwargs (s : @env (@standing S L) W) req :
  policy <> ALLOW ->
  let cfg := standing_gate policy closed at_ chan envt in
  submitted cfg w gdr kwargs = Some req ->
  let out := gated cfg w fn gdr args kwargs s in
  (exists ev, g_events out.2 = g_events s ++ [ev] /\ ev_request_id ev = request_id req
     /\ (ev_outcome ev = "executed" <-> request_cleared req (g_pdp s)))
  /\ (request_cleared req (g_pdp s) ->
        g_world out.2 = (fn args kwargs (g_world s)).2
        /\ out.1 = match (fn args kwargs (g_world s)).1 with Ok v => Ok v | Err e => Err (inr e) end)
  /\ (~ request_cleared req (g_pdp s) -> g_world out.2 = g_world s /\ exists e, out.1 = Err (inl e)).
Proof.
  intros Hpol cfg Hreq out. pose proof (gated_exact cfg w fn gdr args kwargs s) as H. unfold guarded in H. fold out in H.
  rewrite Hreq in H. pose proof (standing_gate_admits policy closed at_ chan envt req (g_pdp s) Hpol) as Ha. fold cfg in Ha.
  change (transport cfg) with (standing_transport ruling fresh) in H.
  destruct (standing_transport ruling fresh req (g_pdp s)) as [t p]. cbn [fst] in Ha. destruct H as ((ev&He&Hi&Ho)&_&H).
  split; [exists ev; by rewrite <- Ha|]. rewrite <- Ha. destruct (admits cfg t); by split.
Qed.
End Composed.

(** ** Runs *)

Definition run_surface : CapabilitySurface := {|
  allowed_action_types := [fold "send_email"; fold "https_opaque"]; allowed_channels := []; allowed_environments := [fold "production"];
  allowed_recipient_domains := [fold "example.com"]; allowed_tools := [fold "mailer"] |}.
Definition run_agent (id nm : string) (st : AgentLifecycleStatus) : Agent := {|
  agent_id := id; agent_tenant_id := " Acme "; a_external_agent_id := None; name := nm; lifecycle_status := st;
  capability_surface := Some run_surface |}.
Definition run_registry : registry :=
  let agents := [run_agent "u1" "mail" ACTIVE; run_agent "u2" "idle" SLEEPING] in
  {| reg_get := fun i => List.find (fun a => String.eqb (agent_id a) i) agents; list_all := agents |}.
(** A deep evaluator that counts its calls and forbids one content. *)
Definition run_evaluate (r : EvaluationRequest) : stM nat string EvaluationResponse := fun n =>
  (Ok {| decision_id := "d"; verdict := if String.eqb (content r) "secret" then FORBID else PERMIT; confidence := f_one; final_score := f_zero;
         reasons := []; uncertainty_flags := []; determinism_fingerprint := None; policy_version := "1"; evidence_hash := None |}, Datatypes.S n).
Definition run_state : @env (@standing nat nat) (list string) := {|
  g_pdp := {| s_deep := 0; s_held := Some []; s_feeds := Some []; s_local_feeds := None; s_ledger := Some 0; s_active := ∅ |};
  g_events := []; g_world := [] |}.
Definition run_seal (f : floor_fact) (n : nat) : option string * nat := (Some "h", Datatypes.S n).
Definition run_draws : draws := {| id_request := "r2"; id_floor := "f"; now_us := 0 |}.
Definition run_cfg : @GateConfig (@standing nat nat) :=
  standing_gate (Some run_evaluate) run_seal (fun _ => Some "c") run_registry "api" "production" run_draws "x" (Some "acme") BLOCK true "send_email" "api" "production".
Definition run_wrapping (agent : string) : wrapping := {|
  w_content_arg := "body"; w_recipient_arg := Some "to"; w_action_type := None; w_channel := None; w_environment := None; w_agent_id := Some agent |}.
(** The tool sends the body. *)
Definition run_tool (args : list pyval) (kwargs : pydict) : stM (list string) unit nat := fun sent =>
  match dict_get "body" kwargs with Some (PStr b) => (Ok (length sent), sent ++ [b]) | _ => (Err (), sent) end.
Definition run_mail (agent to body : string) : result (gate_exn + unit) nat * @env (@standing nat nat) (list string) :=
  gated run_cfg (run_wrapping agent) run_tool {| d_request_id := "r1"; d_fresh := "x"; d_now_us := 0 |} []
    [("to", PStr to); ("body", PStr body)] run_state.
Definition run_summary (out : result (gate_exn + unit) nat * @env (@standing nat nat) (list string)) : option nat * list string * list (string * string) * nat :=
  (match out.1 with Ok n => Some n | Err _ => None end, g_world out.2, map (fun e => (ev_verdict e, ev_outcome e)) (g_events out.2),
   s_deep (g_pdp out.2)).
Example run_released : run_summary (run_mail "u1" "a@example.com" "hello") = (Some 0, ["hello"], [("PERMIT", "executed")], 1).
Proof. vm_compute. reflexivity. Qed.
Example run_forbidden : run_summary (run_mail "u1" "a@example.com" "secret") = (None, [], [("FORBID", "blocked")], 1).
Proof. vm_compute. reflexivity. Qed.
Example run_outside : run_summary (run_mail "u1" "a@evil.test" "hello") = (None, [], [("FORBID", "blocked")], 0).
Proof. vm_compute. reflexivity. Qed.
Example run_sleeping : run_summary (run_mail "u2" "a@example.com" "hello") = (None, [], [("FORBID", "blocked")], 0).
Proof. vm_compute. reflexivity. Qed.
Example run_unknown : run_summary (run_mail "u3" "a@example.com" "hello") = (None, [], [("FORBID", "blocked")], 0).
Proof. vm_compute. reflexivity. Qed.
Example run_opaque :
  let r := Standing.decide (Some run_evaluate) run_seal (fun _ => Some "c") run_registry "api" "production" run_draws "acme" "https_opaque" "x"
             None None (Some "a@example.com") (Some "u1") None None (g_pdp run_state) in
  (o_verdict r.1, released r.1, o_held r.1, option_map (map h_kind) (s_held r.2), s_deep r.2) = (ABSTAIN, false, true, Some ["https_opaque"], 0).
Proof. vm_compute. reflexivity. Qed.

(** An address is read after its last at-sign, in a URL too: a surface restricted to one
    domain lets a URL of any other host through that ends in an at-sign and that domain. *)
Example surface_url_bypass : permits_recipient run_surface (Some "https://evil.test/?to=@example.com") = true.
Proof. vm_compute. reflexivity. Qed.

(** A call without its content ends in an error, and no event is recorded for it. *)
Lemma invalid_call_no_event {S W X V} (cfg : @GateConfig S) w (fn : list pyval -> pydict -> stM W X V) gdr args kwargs s :
  submitted cfg w gdr kwargs = None -> exists e, gated cfg w fn gdr args kwargs s = (Err (inl e), s).
Proof. intros H. pose proof (gated_exact cfg w fn gdr args kwargs s) as Hg. unfold guarded in Hg. by rewrite H in Hg. Qed.

Definition run_gate_draws : gate_draws := {| d_request_id := "r1"; d_fresh := "x"; d_now_us := 0 |}.
Definition run_kwargs : pydict := [("to", PStr "a@example.com"); ("body", PStr "hello")].
Lemma tool_runs_only_cleared_witness :
  is_Some (submitted run_cfg (run_wrapping "u1") run_gate_draws run_kwargs)
  /\ g_world (run_mail "u1" "a@example.com" "hello").2 = ["hello"].
Proof.
  destruct (submitted run_cfg (run_wrapping "u1") run_gate_draws run_kwargs) as [req|] eqn:E; [|vm_compute in E; discriminate E].
  split; [by exists req|].
  pose proof (tool_runs_only_cleared (Some run_evaluate) run_seal (fun _ => Some "c") run_registry "api" "production" run_draws "x" (Some "acme")
    BLOCK true "send_email" "api" "production" (run_wrapping "u1") run_tool run_gate_draws [] run_kwargs run_state req ltac:(discriminate) E) as H.
  destruct H as (_ & H & _). destruct H as [H _].
  - vm_compute in E. injection E as <-. eexists (run_agent "u1" "mail" ACTIVE), run_evaluate, _, _.
    split_and!; try (vm_compute; reflexivity); [intros sf [= <-]; vm_compute; reflexivity | by apply (bool_decide_unpack _); vm_compute].
  - exact H.
Defined.
End EnforcementSpec.
